(* ===== verification/_CoqProject ===== *)
-Q . S2P
Prelude.v
Domain.v
Policy.v
Authority.v
Registration.v
Resource.v
Ledger.v
Approvals.v
Coord.v
Processes.v
Output.v
Supervisor.v
Api.v
Files.v
Contract.v
Procfs.v
Operator.v
Patches.v
Records.v
Recovery.v
Wire.v
Independent.v
Control.v
Claims.v
Threads.v
Courses.v
Descendants.v
Writer.v
Sandbox.v
Preparing.v
Watches.v
Startup.v
Descriptors.v
Worker.v
Managed.v
Launch.v
Launching.v
Client.v
Claiming.v
Governed.v
Gateway.v
Concrete.v
Serving.v
Exclusion.v
