(* ===== verification/Prelude.v ===== *)
(** CodeSpace: a verification of the core of its Rust crates.

    CodeSpace is an MCP server. A gateway ([crates/server]) serves tools that work in registered
    workspaces: it orders mutations of a workspace, keeps a ledger of patch operations, holds
    some requests for a user's approval, coordinates a queue of user intents, and sends commands
    to a runner ([crates/runner]), in its own process or as an independent process on the same
    host. What must survive a restart is in one SQLite database ([crates/store]); the values
    that cross these parts are in [crates/domain].

    What is modelled, by file of this library, each after the files that it uses:

    - [Prelude]: [Result] and its [?], the machine-integer casts, blank text, the order of text,
      and two interfaces: [SqlEngine], what the store relies on of SQLite ([ORDER BY] sorts the
      selected rows and leaves ties open, and a violated UNIQUE constraint raises an error), and
      [Json], what it relies on of [serde_json] (a value reads back, and no text is empty). Each
      has a concrete instance, with which the witnesses are evaluated.
    - [Domain]: the values of [crates/domain]: error bodies, the states with their text forms,
      results, and [invariants_hold], the contract of a process status.
    - [Policy]: workspace profiles, environments, the registry's configuration and the confinement
      of model-supplied paths ([crates/policy]). The theorems: an accepted path is under its
      root by plain names, resolving is the cancellation of [.] and [..], and only valid
      workspaces are loaded.
    - [Authority]: what CodeSpace asks of the DevGuard resource authority and makes of its answers
      ([crates/devguard]): the probe, the registration of an owner, the sessions of an attempt,
      the grant of a launch, the helper's invocation and transcript, and the checks of the
      helper's and the credential's files. The theorems: an accepted helper can be replaced by
      nobody else, an owner takes only its own records for an attempt's state, and which answers
      say that nothing was done.
    - [Registration]: the owner's registration as clients see it ([domain/resource_authority.rs],
      [runner/registration.rs], the probe of [server/devguard.rs]): every report is of a session
      that started after its call arrived.
    - [Resource]: [ResourceSerializer] and the tickets, reservations and guards of the store over
      it ([store/resource.rs], [store/lib.rs]): a workspace, or a resource in it, is locked
      exclusively or shared, requests wait in a bounded queue, and a live process excludes them.
      Channels and tickets are explicit, so that a wait, its answer and its drop are separate
      steps. The theorems: the serializer's invariant in every reachable state (mutual exclusion,
      bounded queues, no lost wakeup), service in order, what an acquire answers, and
      that a confirmed process is a barrier.
    - [Ledger]: the operations table ([store/lib.rs]): at most one operation per key, the round
      trip of a result through later histories, abandoned keys, the table's invariant.
    - [Approvals]: the approvals table and the guard of resumes ([store/approvals.rs]): the life
      of an approval, that a hold is resumed by one thread at a time, that a recorded outcome is
      replayed for ever, and that [claim_resume]'s loop returns. The connection is released
      between the statements of some operations; what other threads do there is an argument
      of the definitions.
    - [Coord]: works and user intents ([store/coord.rs]): what is handed out first, the life of
      an intent, when a work closes, that no queued intent is lost, edits guarded by revisions,
      reordering, and the consistency of the two tables.
    - [Processes]: process records ([store/processes.rs]): a record only moves forward, a dispatch
      is recorded atomically with the approval it resumes, a lost Runner's executions hold
      their workspaces until released, and what is selected for reconciliation.
    - [Output]: the bounded output buffer of a process ([runner/process.rs]), its pumps and the
      read window, with [String::from_utf8_lossy] written out: a client that keeps up reads the
      whole output.
    - [Supervisor]: [InProcessRunner] ([runner/process.rs]): slots and their limit, the tasks of a
      pipe or PTY process, kills, eviction, and what an independent Runner remembers. What a
      process shares with its tasks through [Arc]s is one entry of [rn_procs], which slots
      and tasks name by its index; a run is any sequence of requests and task steps, at any
      times. The theorems: the status contract and its finality, the limit, what an eviction
      keeps, that what is recalled is true of the Runner's whole lifetime, and whom a kill
      reaches.
    - [Api]: the requests and answers that cross the Runner boundary ([runner/api.rs]).
    - [Files]: reading and finding files of a workspace ([runner/files.rs] and the file-system
      adapter) over [PathSandbox]: what a path resolves to on a disk with links, and the windows
      of [read_file] and [find_files]. The theorems: a resolved path leads through no link,
      reading window by window gives the file, and paging through [find_files] ends with the
      listing.
    - [Contract]: the execution contract ([domain/execution.rs]) and what [workspace_info] answers
      by it: the environments, roots and limits that a workspace's agent is told. The theorems
      relate it to [Policy], [Resource] and [Files], which keep what it advertises.
    - [Procfs]: which processes of a Linux host run, from [/proc/<pid>/stat]
      ([runner/lifecycle.rs]): a process is found by its PID and start time whatever its name
      holds, as long as the name is UTF-8.
    - [Operator]: the operator's commands on records ([server/operator.rs]): a record is released
      only in order, and not while the process that it names is seen to run.
    - [Patches]: [crates/patch], its helper process and the Runner's side of it: the targets of a
      patch, the checkpoint taken before, the helper's report checked against the disk after, and
      the rollback. The theorems: a patch that is rolled back leaves its files as they were, one
      that is applied states what is on disk, and one that is refused changed nothing.
    - [Records]: a gateway's process records and leases ([server/records.rs]): what it writes of
      executions, and what it answers from its records when the Runner cannot. The theorems:
      such an answer never passes for more than is known, and a process that exited while the
      gateway reconciled is not held again.
    - [Recovery]: the reconciliation after each Claim ([server/recovery.rs]): decisions, what they
      do, the settlement of approvals and the gate for new work. The theorems: a decision follows
      the evidence of the record, the Runner and the resource authority; settling follows what
      was learned; new work waits; and, with [Supervisor], an execution that the gateway takes
      as never started was never created by the Runner.
    - [Wire]: the Runner's wire protocol ([runner/wire.rs]): requests, answers and envelopes, the
      frames of a stream of bytes, and the answers that a connection replays. The theorems:
      a stream cut anywhere gives exactly its whole frames, and what is replayed.
    - [Managed]: a managed worker's one connection ([serve] of [runner/wire.rs]): the loop, the task
      that forwards exits and the requests beside them, as calls that share the writer's lock. However
      they interleave, the answers are those of a sequential server, and no two frames mix.
    - [Independent]: an independent Runner ([runner/wire.rs]) over [Supervisor]: [Shared], with its
      [Control], [EventHub] and [StopHandle], the connections of [connection], each in its phase,
      and [wire_step], one step per event: a request received, an answer, a turn of a waiting
      Claim or of the forwarder, a close, a moment of the supervised processes. A run is any
      sequence of events; an event that cannot happen in a state leaves it as it is.
    - [Control]: the invariants of [Independent], step by step.
    - [Claims]: what an independent Runner promises, by these: one controller at a time works;
      a stale request changes nothing; where a controller that is gone started work, none
      starts until it is reconciled; a Claim states the truth; each exit is sent once, in
      order, and is sent eventually; a waiting Claim gets in once its predecessor let go.

    - [Threads]: an async fn as a [call]: turns, each an atomic step on the shared state, and
      requests whose answer it waits for. A [pool] of calls interleaves them with other steps of
      the process and with restarts. Its lemmas carry an invariant with a part for each call
      ([upholds]), bound the turns of a call ([within]) and say what a call may ask ([quiet],
      [along]).
    - [Courses]: one call run against any environment ([course]), and a weakest precondition
      ([wp]) that proves that its requests follow a protocol and what its result rests on.
    - [Launch]: the preparation and the launch of an execution under the authority
      ([runner/admission.rs], [runner/launch.rs]), as a [call] over the Runner of [Supervisor]
      whose requests are the authority's sessions, the helper's process and its transcript; with
      the reports, their errors, and the tasks that a launch leaves behind.
    - [Launching]: what a launch promises, whatever is answered and whatever else the Runner does:
      it follows its protocol, [BeginLaunch], the helper and the report that no helper is held
      being sent at most once and only when they are due; its report is what its exchanges
      showed; and it ends.
    - [Descendants]: ending a sandbox with every process below it ([runner/sandbox_tree.rs]), a
      [call] over the host's processes, which fork, exit and are reaped between its steps: only
      processes below the root are signalled, and once it is done none of them runs on, as long as
      their names are UTF-8.
    - [Writer]: the lock beside an operations database ([store/writer.rs]) and the programs that
      take it ([server/main.rs], [server/operator.rs]), as calls of the host's processes, which
      fork and are killed at any moment: one writer at a time, no lock outlives its holders, and
      taking it ends.
    - [Sandbox]: the Linux command sandbox, from the policy of a command to what runs in its place
      ([exec_launch] of [runner/process.rs], [runner/linux_sandbox.rs], [crates/linux-sandbox]): the
      Runner's request, the permission profile that the helper makes of it, the plan file from its
      writing to its one loading, the helper's run, and the probes. The theorems: a sandboxed
      command runs once, as its policy says, with what its profile permits and by the proxy exactly
      when its network is enabled; no plan is left; and no launch falls back to the bare command.
    - [Preparing]: the Runner's conversation with the helper over three pipes that do not block, its
      waits, and the managed proxy ([linux-sandbox/proxy.rs]): whatever the helper does, it is not
      left behind and its output is bounded, the waits end, and a proxied command never starts
      without its proxy.
    - [Watches]: file watches ([runner/watch.rs]): the names of changes, and the broadcast of events
      by several threads, over tokio's channel ([Broadcast]). The theorems: a subscriber, by what
      [recv] returned, misses nothing without being told to look again;
      every change in the workspace is announced; and no name leads outside.
    - [Descriptors]: what a child inherits ([runner/descriptors.rs]): the step between fork and exec
      on the child's descriptor table. A child holds its standard descriptors and what it is given,
      whether the kernel marks the others or the walk through the table does.
    - [Startup]: a gateway's settings and its bearer token ([server/config.rs], [server/auth.rs]), and
      the directory of a Runner's socket ([runner/socket.rs], [crates/codex-runtime]): with a token
      only its bearer is served, a socket's directory is private, and a Runner leaves none behind.
    - [Worker]: a gateway's Runner from the start to the end ([server/main.rs], [server/runtime.rs]):
      a worker ends with its gateway, killed only after its time to end its processes, and what
      becomes of an independent Runner is what the settings and the reason for the end say.
    - [Client]: the gateway's client of its Runner ([runner/uds.rs]): connections, pending
      requests, and how an independent Runner is claimed again. The theorems: an answer reaches
      the caller whose request it answers, and a client that gave up sends nothing.
    - [Claiming]: the tasks of that client, as calls that share its state: how it claims an independent
      Runner at the start of a gateway and again when its connection is lost, the readers, and what
      callers ask. The tasks do what the client's events of [Client] say, one loop at a time claims the
      Runner again, a start ends in time; and a run in which a connection that is lost as it is claimed
      is never made again.
    - [Governed]: which process owns a gateway's executions ([server/devguard.rs]), what a worker
      is asked, and what the gateway makes of the reports of governed executions.
    - [Gateway]: every tool of the MCP handler ([server/mcp.rs]) and every route of the inbox
      ([server/inbox.rs]) as a [call] over [CodeSpace], the state that the handlers share: the
      store's tables and locks, the records, the recovery's gate and the Runner's client.
      [Concrete] instantiates what it assumes, for the witnesses.
    - [Serving]: what any interleaving of tools promises: every call ends, and waits for nothing but
      the ticket of a lock and the Runner's answer; a mutation that is held
      or denied sends nothing; what is sent to the Runner is what the policy permits, and a
      command of a workspace that requires participation never runs outside the authority.
    - [Exclusion]: mutations of a workspace exclude each other, over the serializer's invariant.

    Each operation is a function from the state to its result and the state after it, named after
    the function it models; the files name the source. Each property's comment states it in
    words. Properties that need hypotheses have a witness that applies them to a concrete state.

    What is outside the source and is an argument: the SQL engine and the JSON codec; SHA-256
    (the hex digest of a text); the clock, as the [now] of an operation; minted UUIDs; the
    iteration order of a [HashMap] ([HashOrder]); the operating system's answers about a process
    ([World], [TryWait]) and about the host's processes ([Host]); the disk ([FileSystem],
    [PosixFiles]) and the patch engine ([Codex]); a
    path's canonical form and the file that it leads to ([lead]); the reports of a governed execution where they only travel
    ([Reports], which [managed_reports] makes concrete); what [dispatch] answers a request
    ([fits]); the Runner's and the resource authority's answers to a gateway ([Answers], and
    every [ask] of a call); DevGuard's contract, its validation, fingerprints, digests and the
    command line of its helper; Codex's URIs and the arguments that it makes of a permission profile;
    what [notify] reports; and what the kernel answers a forked child ([ForkedChild]) and about a
    socket ([SocketHost]). Tokio's broadcast channel is a parameter
    with the laws that its documentation states ([Broadcast]); its [Notify] is written out as documented.

    Bounds and fuel. [claim_resume] has a fuel argument for its loop, and two rounds are proved to
    be enough whatever other threads do. Counts read from SQL as [u32] wrap at 2^32; the theorems
    that need them state that fewer rows exist. Times are stored as [i64] through [to_sql], which
    saturates. The output counters are [u64], and the theorems about the buffer ask that
    less than 2^64 bytes were written. [read_frames] has the stream's length as its fuel, and each
    frame takes at least four bytes of it. [find_files] is followed page by page for one page more
    than there are entries, and [reject_links] walks one step per byte of the path and one more.
    [claim_approval] takes the two rounds of [claim_resume], of which no pool of calls uses up the
    second, and a tool ends within 33 turns and answers ([tools_end]). A bound of a launch is polled every 20 ms, so [polls] allows one poll
    more than fits, and a launch ends within 2039 turns and requests ([launches_end]); the task
    that waits for a process of unknown fate asks for as long as it runs, for the fuel of
    [after_exit]. A stop is polled every 250 microseconds for half a second, so [STOP_POLLS] is two
    polls more than fit, and the walk of [Descendants] goes 64 levels down, as the source's does.
    [ATTEMPTS] allows two attempts at the writer's lock more than fit into its wait, [PREPARE_POLLS],
    the probe's polls and [SOCKET_POLLS] two polls more than fit into theirs, and [CLAIM_TRIES] two
    tries more than the shortest pauses leave room for. A watch keeps
    [WATCH_LAG] events for a receiver that is behind, and a new directory is tried 64 times, as in
    the source.
    Controller epochs, event numbers, revision counters, the serializer's shared
    counts and the position column are unbounded here.

    What is not modelled. SQLite's own failures (I/O, a locked or damaged file) other than violated
    UNIQUE constraints, so a branch that only such a failure reaches is not exercised; the schema's
    creation and migrations. Poisoned mutexes and panics. Writes of other programs to a workspace
    while a patch is applied or a file is read. The observer of Claims, which only prints. Of
    governed executions: the hand-over of the secret to a worker ([devguard/handoff.rs]),
    descriptors and the bytes of a transcript, the cancelling of a prepared execution that is
    dropped unsettled, and the sessions of a process's exit and kill hooks. Of the gateway: the
    dropping of a call whose client left, its transports, its signals as such and its other
    settings. In a pool, a reconciliation appears by the steps that it takes of the shared state,
    each at any time. Of [lifecycle.rs]: macOS, the boot session and what it signals itself. Of
    sandboxes: what Codex, bubblewrap and the kernel make of the arguments. The closing of a watch's
    channel, which lives as long as its Runner. The PTY adapter and macOS's fork handlers.

    What is left, and why: the hand-over of a secret is DevGuard's client library on both sides; the
    transports, the logs and the operator's terminal are I/O of third-party services around the
    tools; the schema is SQL text that only SQLite interprets; and the PTY adapter wraps a vendored
    crate. *)
From Stdlib Require Export Ascii.
From stdpp Require Export base gmap strings list fin_maps sorting option pretty.
From Stdlib Require Export Lia ZArith Permutation Sorted.

(** * Results

    [Result<T, E>] of the source, with stdpp's bind notation for [?]. *)
Inductive result (E A : Type) : Type :=
  | Ok (a : A)
  | Err (e : E).
Arguments Ok {E A} a.
Arguments Err {E A} e.

Instance result_ret {E} : MRet (result E) := fun A a => Ok a.
Instance result_bind {E} : MBind (result E) := fun A B f m =>
  match m with Ok a => f a | Err e => Err e end.
Instance result_fmap {E} : FMap (result E) := fun A B f m =>
  match m with Ok a => Ok (f a) | Err e => Err e end.

(** [Option::ok_or_else]. *)
Definition ok_or {E A} (e : E) (o : option A) : result E A :=
  match o with Some a => Ok a | None => Err e end.

Definition is_ok {E A} (r : result E A) : bool :=
  match r with Ok _ => true | Err _ => false end.

Lemma bind_Ok {E A B} (m : result E A) (f : A -> result E B) b :
  m ≫= f = Ok b <-> exists a, m = Ok a /\ f a = Ok b.
Proof. destruct m; cbn; naive_solver. Qed.

Lemma bind_Err {E A B} (m : result E A) (f : A -> result E B) e :
  m ≫= f = Err e <-> m = Err e \/ exists a, m = Ok a /\ f a = Err e.
Proof. destruct m; cbn; naive_solver. Qed.

Lemma ok_or_Ok {E A} (e : E) (o : option A) a : ok_or e o = Ok a <-> o = Some a.
Proof. destruct o; cbn; naive_solver. Qed.

(** * Machine integers

    A [u32]/[u64]/[i64] value is a [Z]; the casts write the wrap-around out. *)
Definition as_u32 (z : Z) : Z := z mod 2^32.
Definition as_u64 (z : Z) : Z := z mod 2^64.
Definition as_i64 (z : Z) : Z := (z + 2^63) mod 2^64 - 2^63.
Definition i64_max : Z := 2^63 - 1.
Definition u64_max : Z := 2^64 - 1.

(** [u64::saturating_sub] and [usize::saturating_sub] on naturals are [Nat.sub]; on [Z]: *)
Definition saturating_sub (a b : Z) : Z := Z.max 0 (a - b).

Lemma as_u32_id z : (0 <= z < 2^32)%Z -> as_u32 z = z.
Proof. intros Hz. by apply Z.mod_small. Qed.
Lemma as_u64_id z : (0 <= z < 2^64)%Z -> as_u64 z = z.
Proof. intros Hz. by apply Z.mod_small. Qed.

Lemma as_i64_as_u64 z : (- 2^63 <= z < 2^63)%Z -> as_i64 (as_u64 z) = z.
Proof.
  intros Hz. unfold as_i64, as_u64. rewrite Zplus_mod_idemp_l.
  rewrite Z.mod_small by lia. lia.
Qed.

(** [COUNT( * )] read as a [u32]. *)
Definition count_u32 {A} (l : list A) : Z := as_u32 (Z.of_nat (length l)).

Lemma count_u32_small {A} (l : list A) :
  (Z.of_nat (length l) < 2^32)%Z -> count_u32 l = Z.of_nat (length l).
Proof. intros Hl. apply as_u32_id. lia. Qed.

(** * Text

    A [str] is its UTF-8 bytes. [is_blank] is [s.trim().is_empty()]: only [White_Space] code
    points, here by their encodings. *)
Definition blank1 (a : ascii) : bool :=
  let n := N_of_ascii a in bool_decide (9 <= n <= 13)%N || bool_decide (n = 32)%N.

Definition blank2 (a b : ascii) : bool :=
  bool_decide (N_of_ascii a = 194)%N
  && bool_decide (N_of_ascii b ∈ [133; 160])%N.

Definition blank3 (a b c : ascii) : bool :=
  let '(x, y, z) := (N_of_ascii a, N_of_ascii b, N_of_ascii c) in
  bool_decide ((x, y, z) ∈ [(225, 154, 128); (226, 128, 168); (226, 128, 169);
                            (226, 128, 175); (226, 129, 159); (227, 128, 128)])%N
  || bool_decide (x = 226)%N && bool_decide (y = 128)%N && bool_decide (128 <= z <= 138)%N.

Fixpoint is_blank (s : string) : bool :=
  match s with
  | "" => true
  | String a s1 =>
      if blank1 a then is_blank s1
      else match s1 with
           | "" => false
           | String b s2 =>
               if blank2 a b then is_blank s2
               else match s2 with
                    | "" => false
                    | String c s3 => if blank3 a b c then is_blank s3 else false
                    end
           end
  end.

(** [str::trim]. A byte after the first of a character starts no blank one. *)
Fixpoint trim_start (s : string) : string :=
  match s with
  | "" => ""
  | String a s1 =>
      if blank1 a then trim_start s1
      else match s1 with
           | "" => s
           | String b s2 =>
               if blank2 a b then trim_start s2
               else match s2 with
                    | "" => s
                    | String c s3 => if blank3 a b c then trim_start s3 else s
                    end
           end
  end.

Fixpoint trim_end (s : string) : string :=
  match s with
  | "" => ""
  | String a s1 => if is_blank s then "" else String a (trim_end s1)
  end.

Definition trim (s : string) : string := trim_end (trim_start s).

(** [{:?}] of a [Duration]. *)
Fixpoint trim_zeros (l : list ascii) : list ascii :=
  match l with
  | [] => []
  | a :: l =>
      match trim_zeros l with
      | [] => if bool_decide (a = "0"%char) then [] else [a]
      | l => a :: l
      end
  end.

Definition fraction (part width : Z) : string :=
  let digits := String.list_ascii_of_string (pretty part) in
  let padded := repeat "0"%char (Z.to_nat width - length digits) ++ digits in
  match trim_zeros padded with
  | [] => ""
  | l => "." +:+ String.string_of_list_ascii l
  end.

Definition debug_duration (ns : Z) : string :=
  if bool_decide (10^9 <= ns)%Z then pretty (ns / 10^9)%Z +:+ fraction (ns mod 10^9)%Z 9 +:+ "s"
  else if bool_decide (10^6 <= ns)%Z
  then pretty (ns / 10^6)%Z +:+ fraction (ns mod 10^6)%Z 6 +:+ "ms"
  else if bool_decide (10^3 <= ns)%Z
  then pretty (ns / 10^3)%Z +:+ fraction (ns mod 10^3)%Z 3 +:+ "µs"
  else pretty ns +:+ "ns".

(** Text compares byte by byte, as [str::cmp] and SQLite do. *)
Fixpoint string_le (a b : string) : bool :=
  match a, b with
  | "", _ => true
  | _, "" => false
  | String x a, String y b =>
      let (m, n) := (N_of_ascii x, N_of_ascii y) in
      bool_decide (m < n)%N || bool_decide (m = n) && string_le a b
  end.

Lemma string_le_total a b : string_le a b \/ string_le b a.
Proof.
  revert b. induction a as [|x a IH]; intros [|y b]; cbn; auto.
  rewrite !orb_True, !andb_True, !bool_decide_spec.
  destruct (IH b), (N.lt_trichotomy (N_of_ascii x) (N_of_ascii y)) as [?|[?|?]]; auto.
Qed.

Lemma string_le_trans a b c : string_le a b -> string_le b c -> string_le a c.
Proof.
  revert b c. induction a as [|x a IH]; intros [|y b] [|z c]; cbn; try done.
  rewrite !orb_True, !andb_True, !bool_decide_spec. intros [H1|[H1 H2]] [H3|[H3 H4]];
    try (left; lia). right. split; [lia|eauto].
Qed.

(** * The SQL engine

    SQLite is not under [src/]. What the store relies on beyond reading and writing rows is
    [ORDER BY]: some permutation of the selected rows that the key sorts, ties in an order
    that SQL leaves open. *)
Class SqlEngine := {
  sql_order_by {A : Type} (le : A -> A -> bool) : list A -> list A;
  sql_order_by_perm {A : Type} (le : A -> A -> bool) (l : list A) :
    sql_order_by le l ≡ₚ l;
  sql_order_by_sorted {A : Type} (le : A -> A -> bool) (l : list A) :
    (forall a b, le a b \/ le b a) ->
    (forall a b c, le a b -> le b c -> le a c) ->
    StronglySorted (fun a b => le a b) (sql_order_by le l);
  (** The text of the error that a violated UNIQUE constraint raises. *)
  sql_unique_failed : string -> string
}.

Lemma sql_order_by_elem `{SqlEngine} {A} (le : A -> A -> bool) l x :
  x ∈ sql_order_by le l <-> x ∈ l.
Proof. by rewrite sql_order_by_perm. Qed.

Lemma sql_order_by_nil `{SqlEngine} {A} (le : A -> A -> bool) : sql_order_by le [] = [].
Proof. apply Permutation_nil. symmetry. apply sql_order_by_perm. Qed.

Lemma sql_order_by_singleton `{SqlEngine} {A} (le : A -> A -> bool) x :
  sql_order_by le [x] = [x].
Proof. apply Permutation_singleton_r. apply sql_order_by_perm. Qed.

(** The first row a query returns, in its order, is one of the selected rows. *)
Lemma sql_head_elem `{SqlEngine} {A} (le : A -> A -> bool) l x :
  head (sql_order_by le l) = Some x -> x ∈ l.
Proof.
  intros Hh. apply (sql_order_by_elem le). destruct (sql_order_by le l); [done|].
  cbn in Hh. simplify_eq. by left.
Qed.

Lemma sql_head_none `{SqlEngine} {A} (le : A -> A -> bool) l :
  head (sql_order_by le l) = None <-> l = [].
Proof.
  split; [|intros ->; by rewrite sql_order_by_nil]. intros Hh.
  destruct (sql_order_by le l) eqn:E; [|done]. apply Permutation_nil.
  rewrite <- E. apply sql_order_by_perm.
Qed.

(** The first row of an ordered query is least. *)
Lemma sql_head_least `{SqlEngine} {A} (le : A -> A -> bool) l x y :
  (forall a b, le a b \/ le b a) -> (forall a b c, le a b -> le b c -> le a c) ->
  head (sql_order_by le l) = Some x -> y ∈ l -> le x y.
Proof.
  intros Ht Htr Hh Hy. pose proof (sql_order_by_sorted le l Ht Htr) as Hs.
  rewrite <- (sql_order_by_elem le) in Hy.
  destruct (sql_order_by le l) as [|z l']; [done|]. cbn in Hh. simplify_eq.
  apply elem_of_cons in Hy as [->|Hy]; [by destruct (Ht x x)|].
  apply StronglySorted_inv in Hs as [_ Hs]. by eapply Forall_forall in Hs.
Qed.

(** A concrete engine, for evaluating queries. *)
Section merge_sort_engine.
#[local] Instance le_dec {A} (le : A -> A -> bool) : RelDecision (fun a b => Is_true (le a b)).
Proof. intros a b. exact _. Defined.

Definition merge_sort_engine : SqlEngine.
Proof.
  refine {| sql_order_by A le := merge_sort (fun a b => Is_true (le a b));
            sql_unique_failed c := "UNIQUE constraint failed: " +:+ c |}.
  - intros A le l. apply merge_sort_Permutation.
  - intros A le l Ht Htr. apply StronglySorted_merge_sort; [|done].
    intros a b c. apply Htr.
Defined.
End merge_sort_engine.

(** * JSON columns and messages

    [serde_json] is not under [src/]. The types that travel as JSON derive [Serialize] and
    [Deserialize]; what the code relies on is that a value it wrote reads back, and that no
    JSON text is empty. *)
Class Json (A : Type) := {
  to_json : A -> string;
  of_json : string -> option A;
  of_to_json a : of_json (to_json a) = Some a;
  to_json_nonempty a : to_json a <> ""
}.

(** A concrete codec for any countable type: the digits of its code. *)
Fixpoint digits (p : positive) : string :=
  match p with
  | xI p => String "1"%char (digits p)
  | xO p => String "0"%char (digits p)
  | xH => "1"
  end.

Fixpoint undigits (s : string) : option positive :=
  match s with
  | String "1"%char "" => Some xH
  | String "0"%char s => xO <$> undigits s
  | String "1"%char s => xI <$> undigits s
  | _ => None
  end.

Lemma undigits_digits p : undigits (digits p) = Some p.
Proof.
  induction p as [p IH|p IH|]; cbn; [..|done]; rewrite IH; [|done]. by destruct p.
Qed.

Definition countable_json `{Countable A} : Json A.
Proof.
  refine {| to_json a := digits (encode a); of_json s := undigits s ≫= decode |}.
  - intros a. rewrite undigits_digits. cbn. apply decode_encode.
  - intros a. by destruct (encode a).
Defined.

(** * Lists *)

(** Counting by three disjoint cases. *)
Lemma length_filter_sum3 {A} (P Q1 Q2 Q3 : A -> bool) l :
  (forall x, x ∈ l -> Nat.b2n (P x) = Nat.b2n (Q1 x) + Nat.b2n (Q2 x) + Nat.b2n (Q3 x)) ->
  length (filter (fun x => Is_true (P x)) l) =
    length (filter (fun x => Is_true (Q1 x)) l) + length (filter (fun x => Is_true (Q2 x)) l)
    + length (filter (fun x => Is_true (Q3 x)) l).
Proof.
  induction l as [|x l IH]; intros Hx; [done|].
  pose proof (Hx x (list_elem_of_here x l)) as Hh.
  specialize (IH (fun y Hy => Hx y (list_elem_of_further _ _ _ Hy))).
  rewrite !filter_cons. destruct (P x), (Q1 x), (Q2 x), (Q3 x); cbn [Nat.b2n] in *; try lia;
    repeat (case_decide; cbn [Is_true] in *; try done); cbn [length]; lia.
Qed.

Lemma filter_full_length {A} (P : A -> Prop) `{!forall x, Decision (P x)} (l : list A) :
  length (filter P l) = length l -> filter P l = l.
Proof.
  intros Hl. assert (Hall : forall x, x ∈ l -> P x).
  { intros x Hx. destruct (decide (P x)) as [|Hn]; [done|].
    pose proof (length_filter_lt P l x Hx Hn). lia. }
  clear Hl. induction l as [|x l IH]; [done|].
  rewrite filter_cons_True by (apply Hall; by left).
  f_equal. apply IH. intros y Hy. apply Hall. by right.
Qed.

(** * Lists *)

Lemma mjoin_cons {A} (l : list A) ls : mjoin (l :: ls) = l ++ mjoin ls.
Proof. done. Qed.
