(* ===== verification/Domain.v ===== *)
(** The domain types of [crates/domain]: tool results, states with their text form, error
    bodies, the process-status contract and the advertised execution contract. Identifier
    newtypes ([WorkspaceId], [ProcessId], ...) are their inner strings. *)
From S2P Require Import Prelude.

(** * Error codes and bodies ([error.rs]) *)

Inductive ErrorCode :=
  | Unauthorized | WorkspaceNotFound | WorkspaceBusy | ResourceQueueFull | InvalidPatch
  | InvalidCommand | ProcessSpawnFailed | PathEscape | FileNotFound | PathNotDirectory
  | FileOperationFailed | SymlinkRejected | SpecialFileRejected | AddFileExists
  | MoveDestinationExists | VersionConflict | OperationKeyConflict | OperationNotFound
  | ProcessNotFound | ProcessNotTty | ProcessNotRunning | OutputLimit | Timeout
  | WorkNotFound | WorkClosed | IntentNotFound | IntentAlreadyClaimed | IntentNotEditable
  | IntentRevisionConflict | QueueNotEmpty | ApprovalRequired | ApprovalNotFound
  | ApprovalConflict | ApprovalAmbiguous | ResourcePolicyUnsupported
  | ManagedLaunchUnavailable | ResourceUnavailable | ResourceAuthorityUnavailable
  | AdmissionUnknown | RecoveryPending | RunnerDisconnected | RunnerReconnecting
  | StaleController | Internal.

#[export] Instance ErrorCode_eq_dec : EqDecision ErrorCode.
Proof. solve_decision. Defined.

Record ErrorBody := mkErrorBody {
  code : ErrorCode;
  message : string;
  operation_id : option string;
  approval_id : option string
}.

#[export] Instance ErrorBody_eq_dec : EqDecision ErrorBody.
Proof. solve_decision. Defined.

(** [ErrorBody::new], [with_operation_id] and [with_approval_id]. *)
Definition error_body (c : ErrorCode) (m : string) : ErrorBody :=
  {| code := c; message := m; operation_id := None; approval_id := None |}.

Definition with_operation_id (e : ErrorBody) (id : string) : ErrorBody :=
  {| code := code e; message := message e; operation_id := Some id;
     approval_id := approval_id e |}.

Definition with_approval_id (e : ErrorBody) (id : string) : ErrorBody :=
  {| code := code e; message := message e; operation_id := operation_id e;
     approval_id := Some id |}.

(** What every fallible operation of the program returns. *)
Abbreviation res := (result ErrorBody).

Inductive FailureClass := Transport | Execution.

Definition classify_http_status (status : Z) : FailureClass :=
  if bool_decide (status ∈ [401; 403; 404; 408; 429; 502; 503; 504]%Z)
  then Transport else Execution.

(** * Approvals ([approval.rs]) *)

Inductive ApprovalsMode := ApprovalsOff | ApprovalsConfirm.

Definition holds_mutations (m : ApprovalsMode) : bool :=
  match m with ApprovalsConfirm => true | ApprovalsOff => false end.

Inductive ApprovalTargetTool := ToolApplyPatch | ToolExecCommand.

#[export] Instance ApprovalTargetTool_eq_dec : EqDecision ApprovalTargetTool.
Proof. solve_decision. Defined.

Definition target_tool_as_str (t : ApprovalTargetTool) : string :=
  match t with ToolApplyPatch => "apply_patch" | ToolExecCommand => "exec_command" end.

Definition target_tool_parse (value : string) : result string ApprovalTargetTool :=
  if bool_decide (value = "apply_patch") then Ok ToolApplyPatch
  else if bool_decide (value = "exec_command") then Ok ToolExecCommand
  else Err ("unsupported approval tool `" +:+ value +:+ "`").

Inductive ApprovalState := Pending | Granted | Queued | Resuming | Denied | Consumed.

#[export] Instance ApprovalState_eq_dec : EqDecision ApprovalState.
Proof. solve_decision. Defined.

Definition approval_state_as_str (s : ApprovalState) : string :=
  match s with
  | Pending => "pending" | Granted => "granted" | Queued => "queued"
  | Resuming => "resuming" | Denied => "denied" | Consumed => "consumed"
  end.

Definition approval_state_parse (value : string) : result string ApprovalState :=
  if bool_decide (value = "pending") then Ok Pending
  else if bool_decide (value = "granted") then Ok Granted
  else if bool_decide (value = "queued") then Ok Queued
  else if bool_decide (value = "resuming") then Ok Resuming
  else if bool_decide (value = "denied") then Ok Denied
  else if bool_decide (value = "consumed") then Ok Consumed
  else Err ("unknown approval state `" +:+ value +:+ "`").

Inductive ApprovalDecision := Grant | Deny.

(** * User intents ([intent.rs]) and works ([work.rs]) *)

Inductive IntentState :=
  | IDraft | IQueued | IClaimed | IDone | IBlocked | ICancelled | ISuperseded.

#[export] Instance IntentState_eq_dec : EqDecision IntentState.
Proof. solve_decision. Defined.

Definition intent_state_as_str (s : IntentState) : string :=
  match s with
  | IDraft => "draft" | IQueued => "queued" | IClaimed => "claimed" | IDone => "done"
  | IBlocked => "blocked" | ICancelled => "cancelled" | ISuperseded => "superseded"
  end.

Definition intent_state_parse (raw : string) : option IntentState :=
  if bool_decide (raw = "draft") then Some IDraft
  else if bool_decide (raw = "queued") then Some IQueued
  else if bool_decide (raw = "claimed") then Some IClaimed
  else if bool_decide (raw = "done") then Some IDone
  else if bool_decide (raw = "blocked") then Some IBlocked
  else if bool_decide (raw = "cancelled") then Some ICancelled
  else if bool_decide (raw = "superseded") then Some ISuperseded
  else None.

Definition is_editable (s : IntentState) : bool :=
  match s with IDraft | IQueued => true | _ => false end.

Inductive DeliveryPolicy := NextCheckpoint | AfterCurrentWork | NextWork.

#[export] Instance DeliveryPolicy_eq_dec : EqDecision DeliveryPolicy.
Proof. solve_decision. Defined.

(** The [#[default]] delivery policy. *)
Definition delivery_default : DeliveryPolicy := AfterCurrentWork.

Definition delivery_as_str (d : DeliveryPolicy) : string :=
  match d with
  | NextCheckpoint => "next_checkpoint"
  | AfterCurrentWork => "after_current_work"
  | NextWork => "next_work"
  end.

Definition delivery_parse (raw : string) : option DeliveryPolicy :=
  if bool_decide (raw = "next_checkpoint") then Some NextCheckpoint
  else if bool_decide (raw = "after_current_work") then Some AfterCurrentWork
  else if bool_decide (raw = "next_work") then Some NextWork
  else None.

Inductive WorkState := Active | Closing | Closed | WCancelled.

#[export] Instance WorkState_eq_dec : EqDecision WorkState.
Proof. solve_decision. Defined.

Definition claimable_in (d : DeliveryPolicy) (w : WorkState) : bool :=
  match d, w with
  | NextCheckpoint, (Active | Closing) => true
  | AfterCurrentWork, Closing => true
  | _, _ => false
  end.

Inductive IntentKind := FollowUp | Note | StopNotice.

#[export] Instance IntentKind_eq_dec : EqDecision IntentKind.
Proof. solve_decision. Defined.

Definition intent_kind_as_str (k : IntentKind) : string :=
  match k with FollowUp => "follow_up" | Note => "note" | StopNotice => "stop_notice" end.

Definition intent_kind_parse (raw : string) : option IntentKind :=
  if bool_decide (raw = "follow_up") then Some FollowUp
  else if bool_decide (raw = "note") then Some Note
  else if bool_decide (raw = "stop_notice") then Some StopNotice
  else None.

Record UserIntent := mkUserIntent {
  ui_intent_id : string;
  ui_work_id : option string;
  ui_workspace_id : string;
  ui_position : Z;
  ui_revision : Z;
  ui_kind : IntentKind;
  ui_delivery : DeliveryPolicy;
  ui_body : string;
  ui_state : IntentState
}.

Definition work_state_as_str (s : WorkState) : string :=
  match s with
  | Active => "active" | Closing => "closing" | Closed => "closed"
  | WCancelled => "cancelled"
  end.

Definition work_state_parse (raw : string) : option WorkState :=
  if bool_decide (raw = "active") then Some Active
  else if bool_decide (raw = "closing") then Some Closing
  else if bool_decide (raw = "closed") then Some Closed
  else if bool_decide (raw = "cancelled") then Some WCancelled
  else None.

Definition accepts_claims (s : WorkState) : bool :=
  match s with Active | Closing => true | _ => false end.

Definition is_open (s : WorkState) : bool :=
  match s with Active | Closing => true | _ => false end.

Record CoordinationHint := mkCoordinationHint {
  ch_work_id : string;
  ch_pending_user_items : Z;
  ch_queue_revision : Z
}.

Record Work := mkWork {
  w_work_id : string;
  w_workspace_id : string;
  w_title : option string;
  w_state : WorkState;
  w_queue_revision : Z
}.

Record WorkOpenResult := mkWorkOpenResult {
  wo_work_id : string;
  wo_workspace_id : string;
  wo_state : WorkState
}.

Record SteerStatusResult := mkSteerStatusResult {
  ss_work_id : string;
  ss_state : WorkState;
  ss_queued : Z;
  ss_claimed : Z;
  ss_claimable_now : Z;
  ss_queue_revision : Z
}.

Record ClaimedIntent := mkClaimedIntent {
  ci_intent_id : string;
  ci_revision : Z;
  ci_kind : IntentKind;
  ci_delivery : DeliveryPolicy;
  ci_content : string
}.

(** [SteerClaimNextResult] has the one optional field. *)
Definition SteerClaimNextResult := option ClaimedIntent.

Inductive SteerOutcome := OutcomeDone | OutcomeBlocked.

Record WorkFinishResult := mkWorkFinishResult {
  wf_work_id : string;
  wf_closed : bool;
  wf_reason : option string;
  wf_queued : Z;
  wf_state : WorkState
}.

Definition FINISH_REASON_PENDING : string := "pending_user_input".

(** * Patch operations ([patch.rs]) *)

Inductive PatchStatus :=
  | Applied | Checked | Rejected | FailedRolledBack | FailedPartial | PatchUnknown.

#[export] Instance PatchStatus_eq_dec : EqDecision PatchStatus.
Proof. solve_decision. Defined.

Inductive FileChangeKind := ChangeAdd | ChangeUpdate | ChangeDelete | ChangeMove.

#[export] Instance FileChangeKind_eq_dec : EqDecision FileChangeKind.
Proof. solve_decision. Defined.

Record FileChange := mkFileChange {
  fc_path : string;
  fc_before_version : option string;
  fc_after_version : option string;
  fc_kind : FileChangeKind
}.

#[export] Instance FileChange_eq_dec : EqDecision FileChange.
Proof. solve_decision. Defined.

Record ApplyPatchResult := mkApplyPatchResult {
  ap_status : PatchStatus;
  ap_operation_id : string;
  ap_replayed : bool;
  ap_files : list string;
  ap_changes : list FileChange;
  ap_work_id : option string;
  ap_coordination : option CoordinationHint
}.

(** [ApplyPatchResult::new]. *)
Definition apply_patch_result_new (status : PatchStatus) (operation_id : string)
    : ApplyPatchResult :=
  {| ap_status := status; ap_operation_id := operation_id; ap_replayed := false;
     ap_files := []; ap_changes := []; ap_work_id := None; ap_coordination := None |}.

Inductive OperationKind := KindPatch.

Inductive OperationEventName := Minted | Finished.

#[export] Instance OperationEventName_eq_dec : EqDecision OperationEventName.
Proof. solve_decision. Defined.

Record OperationEvent := mkOperationEvent {
  ev_at : Z;
  ev_name : OperationEventName;
  ev_status : option PatchStatus;
  ev_reason : option string
}.

Definition event_minted (at_ : Z) : OperationEvent :=
  {| ev_at := at_; ev_name := Minted; ev_status := None; ev_reason := None |}.

Definition event_finished (at_ : Z) (status : PatchStatus) : OperationEvent :=
  {| ev_at := at_; ev_name := Finished; ev_status := Some status;
     ev_reason := match status with PatchUnknown => Some "unknown" | _ => None end |}.

Record OperationStatusResult := mkOperationStatusResult {
  os_operation_id : string;
  os_status : PatchStatus;
  os_replayed : bool;
  os_kind : OperationKind;
  os_workspace_id : string;
  os_created_at : Z;
  os_finished_at : option Z;
  os_files : list string;
  os_changes : list FileChange;
  os_events : list OperationEvent
}.

(** * Managed processes ([process.rs]) *)

Inductive ExecDispatchStatus := DispatchConfirmed | DispatchUnknown.

Record ExecCommandResult := mkExecCommandResult {
  ec_process_id : string;
  ec_dispatch_status : ExecDispatchStatus;
  ec_coordination : option CoordinationHint
}.

Inductive LostReason := RingOverflow | RetentionExpired | LostRunnerLost | LostHostRebooted.

#[export] Instance LostReason_eq_dec : EqDecision LostReason.
Proof. solve_decision. Defined.

Inductive ProcessState := PRunning | PExited | PUnknown.

#[export] Instance ProcessState_eq_dec : EqDecision ProcessState.
Proof. solve_decision. Defined.

Inductive ProcessTermination := TExited | TSignaled | TTimeout | TTerminated | TUnknown.

#[export] Instance ProcessTermination_eq_dec : EqDecision ProcessTermination.
Proof. solve_decision. Defined.

Record ProcessSignal := mkProcessSignal {
  sig_number : Z;
  sig_name : option string
}.

#[export] Instance ProcessSignal_eq_dec : EqDecision ProcessSignal.
Proof. solve_decision. Defined.

Record ProcessStatusResult := mkProcessStatusResult {
  ps_process_id : string;
  ps_state : ProcessState;
  ps_exit_code : option Z;
  ps_termination : option ProcessTermination;
  ps_signal : option ProcessSignal;
  ps_output_total : Z;
  ps_output_retained_from : Z;
  ps_eof : bool;
  ps_lost_reason : option LostReason;
  ps_coordination : option CoordinationHint
}.

Definition is_none {A} (o : option A) : bool :=
  match o with None => true | Some _ => false end.

Definition is_some {A} (o : option A) : bool := negb (is_none o).

(** [ProcessStatusResult::invariants_hold]. *)
Definition invariants_hold (s : ProcessStatusResult) : bool :=
  match ps_state s with
  | PRunning =>
      is_none (ps_exit_code s) && is_none (ps_termination s) && is_none (ps_signal s)
      && match ps_lost_reason s with None | Some RingOverflow => true | _ => false end
  | PUnknown =>
      is_none (ps_exit_code s) && is_none (ps_termination s) && is_none (ps_signal s)
      && bool_decide (ps_lost_reason s = Some LostRunnerLost)
  | PExited =>
      match ps_termination s with
      | Some TExited => is_none (ps_signal s)
      | Some TSignaled => is_none (ps_exit_code s) && is_some (ps_signal s)
      | Some _ => is_none (ps_exit_code s) && is_none (ps_signal s)
      | None => false
      end
  end.

Record ReadProcessResult := mkReadProcessResult {
  rp_process_id : string;
  rp_cursor : Z;
  rp_chunk : string;
  rp_eof : bool;
  rp_output_lost : bool;
  rp_retained_from : Z;
  rp_lost_reason : option LostReason;
  rp_coordination : option CoordinationHint
}.

(** [OperationResumeResult] of [approval.rs]: what a consumed approval recorded. *)
Record OperationResumeResult := mkOperationResumeResult {
  or_approval_id : string;
  or_state : ApprovalState;
  or_apply_patch : option ApplyPatchResult;
  or_exec_command : option ExecCommandResult
}.

(** [ApprovalResolveResult]. *)
Record ApprovalResolveResult := mkApprovalResolveResult {
  ar_approval_id : string;
  ar_state : ApprovalState
}.

(** * Text forms *)

(** Every text form a table column or a tool argument carries reads back. *)
Lemma text_forms_read_back :
  (forall t, target_tool_parse (target_tool_as_str t) = Ok t) /\
  (forall s, approval_state_parse (approval_state_as_str s) = Ok s) /\
  (forall s, intent_state_parse (intent_state_as_str s) = Some s) /\
  (forall d, delivery_parse (delivery_as_str d) = Some d) /\
  (forall k, intent_kind_parse (intent_kind_as_str k) = Some k) /\
  (forall s, work_state_parse (work_state_as_str s) = Some s).
Proof. repeat split; intros []; reflexivity. Qed.

Lemma target_tool_parse_as_str t : target_tool_parse (target_tool_as_str t) = Ok t.
Proof. apply text_forms_read_back. Qed.
Lemma approval_state_parse_as_str s : approval_state_parse (approval_state_as_str s) = Ok s.
Proof. apply text_forms_read_back. Qed.
Lemma intent_state_parse_as_str s : intent_state_parse (intent_state_as_str s) = Some s.
Proof. apply text_forms_read_back. Qed.
Lemma delivery_parse_as_str d : delivery_parse (delivery_as_str d) = Some d.
Proof. apply text_forms_read_back. Qed.
Lemma intent_kind_parse_as_str k : intent_kind_parse (intent_kind_as_str k) = Some k.
Proof. apply text_forms_read_back. Qed.
Lemma work_state_parse_as_str s : work_state_parse (work_state_as_str s) = Some s.
Proof. apply text_forms_read_back. Qed.

#[export] Instance approval_state_as_str_inj : Inj (=) (=) approval_state_as_str.
Proof. intros [] []; done. Qed.
#[export] Instance intent_state_as_str_inj : Inj (=) (=) intent_state_as_str.
Proof. intros [] []; done. Qed.
#[export] Instance work_state_as_str_inj : Inj (=) (=) work_state_as_str.
Proof. intros [] []; done. Qed.
#[export] Instance delivery_as_str_inj : Inj (=) (=) delivery_as_str.
Proof. intros [] []; done. Qed.

Create Rewrite HintDb codespace.
#[export] Hint Rewrite target_tool_parse_as_str approval_state_parse_as_str
  intent_state_parse_as_str delivery_parse_as_str intent_kind_parse_as_str
  work_state_parse_as_str : codespace.

Section parses.
(** A text form that parses is the text of what it parses to. *)
Lemma approval_state_parse_inv raw s :
  approval_state_parse raw = Ok s -> raw = approval_state_as_str s.
Proof. unfold approval_state_parse. repeat case_bool_decide; naive_solver. Qed.
Lemma target_tool_parse_inv raw t :
  target_tool_parse raw = Ok t -> raw = target_tool_as_str t.
Proof. unfold target_tool_parse. repeat case_bool_decide; naive_solver. Qed.
Lemma intent_state_parse_inv raw s :
  intent_state_parse raw = Some s -> raw = intent_state_as_str s.
Proof. unfold intent_state_parse. repeat case_bool_decide; naive_solver. Qed.
Lemma work_state_parse_inv raw s :
  work_state_parse raw = Some s -> raw = work_state_as_str s.
Proof. unfold work_state_parse. repeat case_bool_decide; naive_solver. Qed.
Lemma delivery_parse_inv raw d :
  delivery_parse raw = Some d -> raw = delivery_as_str d.
Proof. unfold delivery_parse. repeat case_bool_decide; naive_solver. Qed.
End parses.

(** * Codes of the values that travel as JSON, for a concrete codec *)

#[export] Instance CoordinationHint_eq_dec : EqDecision CoordinationHint.
Proof. solve_decision. Defined.
#[export] Instance ApplyPatchResult_eq_dec : EqDecision ApplyPatchResult.
Proof. solve_decision. Defined.
#[export] Instance OperationEvent_eq_dec : EqDecision OperationEvent.
Proof. solve_decision. Defined.
#[export] Instance ExecDispatchStatus_eq_dec : EqDecision ExecDispatchStatus.
Proof. solve_decision. Defined.
#[export] Instance ExecCommandResult_eq_dec : EqDecision ExecCommandResult.
Proof. solve_decision. Defined.
#[export] Instance OperationResumeResult_eq_dec : EqDecision OperationResumeResult.
Proof. solve_decision. Defined.

#[export] Instance PatchStatus_countable : Countable PatchStatus.
Proof.
  refine (inj_countable'
    (fun s => match s with Applied => 0 | Checked => 1 | Rejected => 2 | FailedRolledBack => 3
                         | FailedPartial => 4 | PatchUnknown => 5 end)
    (fun n => match n with 0 => Applied | 1 => Checked | 2 => Rejected | 3 => FailedRolledBack
                         | 4 => FailedPartial | _ => PatchUnknown end) _).
  by intros [].
Defined.

#[export] Instance FileChangeKind_countable : Countable FileChangeKind.
Proof.
  refine (inj_countable'
    (fun s => match s with ChangeAdd => 0 | ChangeUpdate => 1 | ChangeDelete => 2
                         | ChangeMove => 3 end)
    (fun n => match n with 0 => ChangeAdd | 1 => ChangeUpdate | 2 => ChangeDelete
                         | _ => ChangeMove end) _).
  by intros [].
Defined.

#[export] Instance OperationEventName_countable : Countable OperationEventName.
Proof.
  refine (inj_countable' (fun s => match s with Minted => true | Finished => false end)
    (fun b : bool => if b then Minted else Finished) _).
  by intros [].
Defined.

#[export] Instance ExecDispatchStatus_countable : Countable ExecDispatchStatus.
Proof.
  refine (inj_countable'
    (fun s => match s with DispatchConfirmed => true | DispatchUnknown => false end)
    (fun b : bool => if b then DispatchConfirmed else DispatchUnknown) _).
  by intros [].
Defined.

#[export] Instance ApprovalState_countable : Countable ApprovalState.
Proof.
  refine (inj_countable'
    (fun s => match s with Pending => 0 | Granted => 1 | Queued => 2 | Resuming => 3
                         | Denied => 4 | Consumed => 5 end)
    (fun n => match n with 0 => Pending | 1 => Granted | 2 => Queued | 3 => Resuming
                         | 4 => Denied | _ => Consumed end) _).
  by intros [].
Defined.

#[export] Instance FileChange_countable : Countable FileChange.
Proof.
  refine (inj_countable'
    (fun c => (fc_path c, fc_before_version c, fc_after_version c, fc_kind c))
    (fun '(p, b, a, k) => mkFileChange p b a k) _).
  by intros [].
Defined.

#[export] Instance CoordinationHint_countable : Countable CoordinationHint.
Proof.
  refine (inj_countable' (fun h => (ch_work_id h, ch_pending_user_items h, ch_queue_revision h))
    (fun '(w, n, q) => mkCoordinationHint w n q) _).
  by intros [].
Defined.

#[export] Instance ApplyPatchResult_countable : Countable ApplyPatchResult.
Proof.
  refine (inj_countable'
    (fun r => (ap_status r, ap_operation_id r, (ap_replayed r, ap_files r, ap_changes r),
               (ap_work_id r, ap_coordination r)))
    (fun '(s, o, (r, f, c), (w, h)) => mkApplyPatchResult s o r f c w h) _).
  by intros [].
Defined.

#[export] Instance OperationEvent_countable : Countable OperationEvent.
Proof.
  refine (inj_countable' (fun e => (ev_at e, ev_name e, (ev_status e, ev_reason e)))
    (fun '(a, n, (s, r)) => mkOperationEvent a n s r) _).
  by intros [].
Defined.

#[export] Instance ExecCommandResult_countable : Countable ExecCommandResult.
Proof.
  refine (inj_countable' (fun r => (ec_process_id r, ec_dispatch_status r, ec_coordination r))
    (fun '(p, d, c) => mkExecCommandResult p d c) _).
  by intros [].
Defined.

#[export] Instance OperationResumeResult_countable : Countable OperationResumeResult.
Proof.
  refine (inj_countable'
    (fun r => (or_approval_id r, or_state r, (or_apply_patch r, or_exec_command r)))
    (fun '(i, s, (p, x)) => mkOperationResumeResult i s p x) _).
  by intros [].
Defined.

#[export] Instance ErrorCode_countable : Countable ErrorCode.
Proof.
  refine (inj_countable'
    (fun c => match c with
       | Unauthorized => 0 | WorkspaceNotFound => 1 | WorkspaceBusy => 2
       | ResourceQueueFull => 3 | InvalidPatch => 4 | InvalidCommand => 5
       | ProcessSpawnFailed => 6 | PathEscape => 7 | FileNotFound => 8 | PathNotDirectory => 9
       | FileOperationFailed => 10 | SymlinkRejected => 11 | SpecialFileRejected => 12
       | AddFileExists => 13 | MoveDestinationExists => 14 | VersionConflict => 15
       | OperationKeyConflict => 16 | OperationNotFound => 17 | ProcessNotFound => 18
       | ProcessNotTty => 19 | ProcessNotRunning => 20 | OutputLimit => 21 | Timeout => 22
       | WorkNotFound => 23 | WorkClosed => 24 | IntentNotFound => 25
       | IntentAlreadyClaimed => 26 | IntentNotEditable => 27 | IntentRevisionConflict => 28
       | QueueNotEmpty => 29 | ApprovalRequired => 30 | ApprovalNotFound => 31
       | ApprovalConflict => 32 | ApprovalAmbiguous => 33 | ResourcePolicyUnsupported => 34
       | ManagedLaunchUnavailable => 35 | ResourceUnavailable => 36
       | ResourceAuthorityUnavailable => 37 | AdmissionUnknown => 38 | RecoveryPending => 39
       | RunnerDisconnected => 40 | RunnerReconnecting => 41 | StaleController => 42
       | Internal => 43 end)
    (fun n => match n with
       | 0 => Unauthorized | 1 => WorkspaceNotFound | 2 => WorkspaceBusy
       | 3 => ResourceQueueFull | 4 => InvalidPatch | 5 => InvalidCommand
       | 6 => ProcessSpawnFailed | 7 => PathEscape | 8 => FileNotFound | 9 => PathNotDirectory
       | 10 => FileOperationFailed | 11 => SymlinkRejected | 12 => SpecialFileRejected
       | 13 => AddFileExists | 14 => MoveDestinationExists | 15 => VersionConflict
       | 16 => OperationKeyConflict | 17 => OperationNotFound | 18 => ProcessNotFound
       | 19 => ProcessNotTty | 20 => ProcessNotRunning | 21 => OutputLimit | 22 => Timeout
       | 23 => WorkNotFound | 24 => WorkClosed | 25 => IntentNotFound
       | 26 => IntentAlreadyClaimed | 27 => IntentNotEditable | 28 => IntentRevisionConflict
       | 29 => QueueNotEmpty | 30 => ApprovalRequired | 31 => ApprovalNotFound
       | 32 => ApprovalConflict | 33 => ApprovalAmbiguous | 34 => ResourcePolicyUnsupported
       | 35 => ManagedLaunchUnavailable | 36 => ResourceUnavailable
       | 37 => ResourceAuthorityUnavailable | 38 => AdmissionUnknown | 39 => RecoveryPending
       | 40 => RunnerDisconnected | 41 => RunnerReconnecting | 42 => StaleController
       | _ => Internal end) _).
  by intros [].
Defined.

#[export] Instance ErrorBody_countable : Countable ErrorBody.
Proof.
  refine (inj_countable' (fun e => (code e, message e, (operation_id e, approval_id e)))
    (fun '(c, m, (o, a)) => mkErrorBody c m o a) _).
  by intros [].
Defined.
