(* ===== verification/Policy.v ===== *)
(** The policy crate ([crates/policy]): registered workspaces and environments, what a profile
    allows, how the operator's configuration is loaded, and where a path that a model supplied
    resolves.

    A [Path] is read by its components, as Rust compares paths. [PathBuf::canonicalize] asks the
    file system, so it is an argument. *)
From S2P Require Import Prelude Domain.

(** * Profiles and permissions ([domain/src/profile.rs], [permission.rs]) *)

Inductive Profile := ReadOnly | WorkspaceWrite.

#[export] Instance Profile_eq_dec : EqDecision Profile.
Proof. solve_decision. Defined.

Definition profile_default : Profile := ReadOnly.

Definition allows_mutation (p : Profile) : bool := bool_decide (p = WorkspaceWrite).

Inductive Action := ActionRead | ActionWrite | ActionExec.

Inductive PathAccess := AccessRead | AccessWrite | AccessDeny.

#[export] Instance PathAccess_eq_dec : EqDecision PathAccess.
Proof. solve_decision. Defined.

Record PathRule := mkPathRule { pr_pattern : string; pr_access : PathAccess }.

Inductive NetworkAxis := NetRestricted | NetEnabled.

#[export] Instance NetworkAxis_eq_dec : EqDecision NetworkAxis.
Proof. solve_decision. Defined.

Definition network_default : NetworkAxis := NetRestricted.

Record PermissionProfile := mkPermissionProfile {
  pp_paths : list PathRule;
  pp_process_exec : bool;
  pp_network : NetworkAxis
}.

Definition from_workspace_profile (p : Profile) : PermissionProfile :=
  match p with
  | ReadOnly => mkPermissionProfile [mkPathRule "**" AccessRead] false NetRestricted
  | WorkspaceWrite => mkPermissionProfile [mkPathRule "**" AccessWrite] true NetRestricted
  end.

Definition allows (p : PermissionProfile) (a : Action) : bool :=
  match a with
  | ActionRead => existsb (fun r => negb (bool_decide (pr_access r = AccessDeny))) (pp_paths p)
  | ActionWrite => existsb (fun r => bool_decide (pr_access r = AccessWrite)) (pp_paths p)
  | ActionExec => pp_process_exec p
  end.

(** * Environments ([environment.rs]) *)

Definition DEFAULT_ENVIRONMENT_ID : string := "local".

Inductive EnvironmentKind := Host | LinuxContainer.

#[export] Instance EnvironmentKind_eq_dec : EqDecision EnvironmentKind.
Proof. solve_decision. Defined.

Definition environment_kind_default : EnvironmentKind := Host.

Definition exec_supported (k : EnvironmentKind) : bool := bool_decide (k = Host).
Definition file_read_supported (k : EnvironmentKind) : bool := bool_decide (k = Host).
Definition file_write_supported (k : EnvironmentKind) : bool := bool_decide (k = Host).

(** [Display] of a kind. *)
Definition kind_display (k : EnvironmentKind) : string :=
  match k with Host => "host" | LinuxContainer => "linux-container" end.

Record Environment := mkEnvironment { env_id : string; env_kind : EnvironmentKind }.

Definition local_host : Environment := mkEnvironment DEFAULT_ENVIRONMENT_ID Host.

Inductive EnvironmentDispatchError :=
  | UnsupportedExec (kind : EnvironmentKind)
  | UnsupportedFileRead (kind : EnvironmentKind)
  | UnsupportedFileWrite (kind : EnvironmentKind).

Definition dispatch_error_body (e : EnvironmentDispatchError) : ErrorBody :=
  match e with
  | UnsupportedExec k => error_body Unauthorized
      (kind_display k +:+ " environment is registered but not an exec path")
  | UnsupportedFileRead k => error_body Unauthorized
      (kind_display k +:+ " environment is registered but not a file-read path")
  | UnsupportedFileWrite k => error_body Unauthorized
      (kind_display k +:+ " environment is registered but not a file-write path")
  end.

Definition require_exec (k : EnvironmentKind) : result EnvironmentDispatchError unit :=
  if exec_supported k then Ok tt else Err (UnsupportedExec k).
Definition require_file_read (k : EnvironmentKind) : result EnvironmentDispatchError unit :=
  if file_read_supported k then Ok tt else Err (UnsupportedFileRead k).
Definition require_file_write (k : EnvironmentKind) : result EnvironmentDispatchError unit :=
  if file_write_supported k then Ok tt else Err (UnsupportedFileWrite k).

(** * Workspaces ([lib.rs]) *)

Inductive Participation := ParticipationOff | ParticipationRequired.

#[export] Instance Participation_eq_dec : EqDecision Participation.
Proof. solve_decision. Defined.

(** Ordered, weakest first. *)
Inductive EnforcementLevel := Accounted | Cooperative | Kernel.

#[export] Instance EnforcementLevel_eq_dec : EqDecision EnforcementLevel.
Proof. solve_decision. Defined.

Definition level_rank (l : EnforcementLevel) : nat :=
  match l with Accounted => 0 | Cooperative => 1 | Kernel => 2 end.

Record ResourceMinimum := mkResourceMinimum {
  rm_cpu : EnforcementLevel;
  rm_memory : EnforcementLevel;
  rm_pids : EnforcementLevel
}.

#[export] Instance ResourceMinimum_eq_dec : EqDecision ResourceMinimum.
Proof. solve_decision. Defined.

Definition minimum_default : ResourceMinimum := mkResourceMinimum Accounted Accounted Accounted.

Record ResourceRequest := mkResourceRequest {
  rq_cpu_milli : Z;
  rq_memory_bytes : Z;
  rq_tasks : Z;
  rq_minimum : ResourceMinimum
}.

#[export] Instance ResourceRequest_eq_dec : EqDecision ResourceRequest.
Proof. solve_decision. Defined.

Definition request_default : ResourceRequest :=
  mkResourceRequest 250 (Z.shiftl 256 20) 32 minimum_default.

Record Resources := mkResources {
  rs_participation : Participation;
  rs_request : option ResourceRequest
}.

#[export] Instance Resources_eq_dec : EqDecision Resources.
Proof. solve_decision. Defined.

Definition resources_default : Resources := mkResources ParticipationOff None.

Definition is_off (r : Resources) : bool :=
  bool_decide (rs_participation r = ParticipationOff) && is_none (rs_request r).

Definition resources_request (r : Resources) : ResourceRequest :=
  default request_default (rs_request r).

Record Workspace := mkWorkspace {
  ws_id : string;
  ws_root : string;
  ws_profile : Profile;
  ws_environment_id : string;
  ws_environment_kind : EnvironmentKind;
  ws_network : NetworkAxis;
  ws_approvals : ApprovalsMode;
  ws_resources : Resources
}.

(** [Workspace::new]. *)
Definition workspace_new (id root : string) (profile : Profile) : Workspace :=
  mkWorkspace id root profile DEFAULT_ENVIRONMENT_ID Host NetRestricted ApprovalsOff
    resources_default.

Definition map_dispatch {A} (r : result EnvironmentDispatchError A) : res A :=
  match r with Ok a => Ok a | Err e => Err (dispatch_error_body e) end.

Definition ws_require_exec (w : Workspace) : res unit :=
  map_dispatch (require_exec (ws_environment_kind w)).
Definition ws_require_file_read (w : Workspace) : res unit :=
  map_dispatch (require_file_read (ws_environment_kind w)).
Definition ws_require_file_write (w : Workspace) : res unit :=
  map_dispatch (require_file_write (ws_environment_kind w)).

Record ClientClaims := mkClientClaims { cc_approved : option bool; cc_user_id : option string }.

(** The profile decides, and never what the client claims. *)
Definition allow (workspace : Workspace) (action : Action) (claims : ClientClaims) : res unit :=
  match action with
  | ActionRead => Ok tt
  | _ =>
      if allows (from_workspace_profile (ws_profile workspace)) action then Ok tt
      else Err (error_body Unauthorized "workspace profile is read-only")
  end.

(** * Paths *)

(** [std::path::Component] on Unix, where there is no prefix. *)
Inductive Component := RootDir | CurDir | ParentDir | Normal (part : string).

#[export] Instance Component_eq_dec : EqDecision Component.
Proof. solve_decision. Defined.

(** The text between separators. *)
Fixpoint segments (s : string) : list string :=
  match s with
  | "" => [""]
  | String a s =>
      if bool_decide (a = "/"%char) then "" :: segments s
      else match segments s with
           | [] => [String a ""]
           | x :: l => String a x :: l
           end
  end.

Definition has_root (s : string) : bool :=
  match s with String a _ => bool_decide (a = "/"%char) | "" => false end.

(** [Path::is_absolute] on Unix. *)
Definition is_absolute (s : string) : bool := has_root s.

(** A segment after the first: an empty one and [.] are skipped. *)
Definition component (segment : string) : option Component :=
  if bool_decide (segment = "") then None
  else if bool_decide (segment = ".") then None
  else if bool_decide (segment = "..") then Some ParentDir
  else Some (Normal segment).

(** [Path::components]: a leading [.] of a relative path is the only one that is kept. *)
Definition components (s : string) : list Component :=
  if has_root s then RootDir :: omap component (segments s)
  else
    match segments s with
    | [] => []
    | x :: l => if bool_decide (x = ".") then CurDir :: omap component l
                else omap component (x :: l)
    end.

(** [Path::file_name]. *)
Definition file_name (path : list Component) : option string :=
  match last path with Some (Normal name) => Some name | _ => None end.

Fixpoint has_nul (s : string) : bool :=
  match s with
  | "" => false
  | String a s => bool_decide (a = Ascii.zero) || has_nul s
  end.

Definition escape (detail : string) : ErrorBody := error_body PathEscape detail.

(** The loop of [resolve_path]: [rel] holds the components pushed so far, and [pop] fails on an
    empty path. *)
Fixpoint walk (rel : list string) (cs : list Component) : res (list string) :=
  match cs with
  | [] => Ok rel
  | CurDir :: cs => walk rel cs
  | Normal part :: cs => walk (rel ++ [part]) cs
  | ParentDir :: cs =>
      match rel with
      | [] => Err (escape "`..` escapes the workspace")
      | _ => walk (removelast rel) cs
      end
  | RootDir :: _ => Err (escape "absolute path")
  end.

(** [Path::starts_with] compares components. *)
Definition starts_with (path base : list Component) : bool :=
  bool_decide (take (length base) path = base).

(** [PathBuf::join] of a relative path. *)
Definition join (root : list Component) (rel : list string) : list Component :=
  root ++ (Normal <$> rel).

Section resolving.
(** [PathBuf::canonicalize]: the path without links, or an error. *)
Context (canonicalize : string -> option string).

Definition canonical_root (workspace : Workspace) : list Component :=
  components (default (ws_root workspace) (canonicalize (ws_root workspace))).

Definition resolve_path (workspace : Workspace) (relative : string) : res (list Component) :=
  if bool_decide (relative = "") || is_absolute relative
  then Err (escape "absolute or empty path")
  else if has_nul relative then Err (escape "NUL in path")
  else
    rel ← walk [] (components relative);
    let root := canonical_root workspace in
    let joined := join root rel in
    if starts_with joined root then Ok joined
    else Err (escape "resolved path left the workspace").
End resolving.

(** * The registry and the operator's configuration

    A [BTreeMap] is a finite map, visited in the order of its keys. *)

Definition key_le {A} (a b : string * A) : Prop := string_le a.1 b.1.

#[export] Instance key_le_dec {A} : RelDecision (@key_le A).
Proof. intros a b. unfold key_le. exact _. Defined.

(** A [BTreeMap]'s iteration. *)
Definition btree_iter {A} (m : gmap string A) : list (string * A) :=
  merge_sort key_le (map_to_list m).

Record Registry := mkRegistry {
  rg_environments : gmap string Environment;
  rg_workspaces : gmap string Workspace
}.

(** The parsed configuration file, with [serde]'s defaults filled in. *)
Record FileWorkspace := mkFileWorkspace {
  fw_root : string;
  fw_profile : Profile;
  fw_environment : option string;
  fw_network : NetworkAxis;
  fw_approvals : ApprovalsMode;
  fw_resources : Resources
}.

Record FileConfig := mkFileConfig {
  fc_environments : gmap string EnvironmentKind;
  fc_workspaces : gmap string FileWorkspace
}.

Definition registry_new : Registry :=
  mkRegistry {[DEFAULT_ENVIRONMENT_ID := local_host]} ∅.

Definition insert_workspace (w : Workspace) (g : Registry) : Registry :=
  mkRegistry (rg_environments g) (<[ws_id w := w]> (rg_workspaces g)).

Definition insert_environment (e : Environment) (g : Registry) : Registry :=
  mkRegistry (<[env_id e := e]> (rg_environments g)) (rg_workspaces g).

Definition get (g : Registry) (id : string) : res Workspace :=
  ok_or (error_body WorkspaceNotFound ("unknown workspace_id `" +:+ id +:+ "`"))
    (rg_workspaces g !! id).

Definition environment (g : Registry) (id : string) : res Environment :=
  ok_or (error_body Unauthorized ("unknown environment `" +:+ id +:+ "`"))
    (rg_environments g !! id).

Definition positive_quantities (q : ResourceRequest) : bool :=
  negb (bool_decide (rq_cpu_milli q = 0%Z) || bool_decide (rq_memory_bytes q = 0%Z)
        || bool_decide (rq_tasks q = 0%Z)).

(** One workspace of the file: the second loop's body. *)
Definition load_workspace (id : string) (entry : FileWorkspace) (g : Registry)
    : result string Registry :=
  if negb (is_absolute (fw_root entry))
  then Err ("workspace `" +:+ id +:+ "` root must be absolute")
  else
    let environment_id := default DEFAULT_ENVIRONMENT_ID (fw_environment entry) in
    if match rs_request (fw_resources entry) with
       | Some request => negb (positive_quantities request)
       | None => false
       end
    then Err ("workspace `" +:+ id +:+ "` resources.request quantities must be positive")
    else
      env ← ok_or ("workspace `" +:+ id +:+ "` references unknown environment `"
                     +:+ environment_id +:+ "`")
              (rg_environments g !! environment_id);
      Ok (insert_workspace
            {| ws_id := id; ws_root := fw_root entry; ws_profile := fw_profile entry;
               ws_environment_id := env_id env; ws_environment_kind := env_kind env;
               ws_network := fw_network entry; ws_approvals := fw_approvals entry;
               ws_resources := fw_resources entry |} g).

Fixpoint load_workspaces (entries : list (string * FileWorkspace)) (g : Registry)
    : result string Registry :=
  match entries with
  | [] => Ok g
  | (id, entry) :: entries => g ← load_workspace id entry g; load_workspaces entries g
  end.

Definition load_environments (entries : list (string * EnvironmentKind)) (g : Registry)
    : Registry :=
  foldl (fun g e => insert_environment (mkEnvironment e.1 e.2) g) g entries.

(** [Registry::load_json], after [serde_json] parsed the text or refused it. *)
Definition load_json (parsed : result string FileConfig) : result string Registry :=
  parsed ← parsed;
  load_workspaces (btree_iter (fc_workspaces parsed))
    (load_environments (btree_iter (fc_environments parsed)) registry_new).

Definition registry_is_empty (g : Registry) : bool := bool_decide (rg_workspaces g = ∅).

(** * Paths stay inside the workspace *)

(** What a component list means, as rewriting: [.] goes away, and a name goes away with the
    [..] after it. *)
Inductive cancels : list Component -> list Component -> Prop :=
  | cancel_cur l k : cancels (l ++ CurDir :: k) (l ++ k)
  | cancel_up l part k : cancels (l ++ Normal part :: ParentDir :: k) (l ++ k).

(** A name that a path can have in a directory. *)
Definition is_name (part : string) : Prop :=
  part <> "" /\ part <> "." /\ part <> ".." /\
  ("/"%char ∉ String.list_ascii_of_string part).

#[local] Instance Normal_inj : Inj (=) (=) Normal.
Proof. by intros ?? [=]. Qed.

Lemma walk_app rel cs cs' : walk rel (cs ++ cs') = rel ← walk rel cs; walk rel cs'.
Proof.
  revert rel. induction cs as [|[| | |part] cs IH]; intros rel; cbn; auto.
  destruct rel; [done|]. apply IH.
Qed.

Lemma walk_normal rel l : walk rel (Normal <$> l) = Ok (rel ++ l).
Proof.
  revert rel. induction l as [|x l IH]; intros rel; cbn; [by rewrite app_nil_r|].
  by rewrite IH, <- app_assoc.
Qed.

Lemma walk_cancels rel cs cs' : cancels cs cs' -> walk rel cs = walk rel cs'.
Proof.
  intros [l k|l part k]; rewrite !walk_app; destruct (walk rel l) as [r|]; cbn; try done.
  rewrite removelast_last. by destruct r.
Qed.

Lemma walk_rtc_cancels rel cs cs' : rtc cancels cs cs' -> walk rel cs = walk rel cs'.
Proof. induction 1; [done|]. etrans; [by apply walk_cancels|done]. Qed.

Lemma cancels_app_r cs cs' k : cancels cs cs' -> cancels (cs ++ k) (cs' ++ k).
Proof. intros [l m|l part m]; rewrite <- !app_assoc; cbn; constructor. Qed.

Lemma rtc_cancels_app_r cs cs' k : rtc cancels cs cs' -> rtc cancels (cs ++ k) (cs' ++ k).
Proof. induction 1; econstructor; eauto using cancels_app_r. Qed.

Lemma walk_Ok_cancels rel cs rel' :
  walk rel cs = Ok rel' -> rtc cancels ((Normal <$> rel) ++ cs) (Normal <$> rel').
Proof.
  revert rel. induction cs as [|[| | |part] cs IH]; intros rel; cbn; intros H.
  - simplify_eq. by rewrite app_nil_r.
  - done.
  - econstructor; [apply cancel_cur|]. by apply IH.
  - destruct rel as [|x rel _] using rev_ind; [done|].
    destruct (rel ++ [x]) eqn:E; [by destruct rel|]. rewrite <- E in *.
    rewrite removelast_last in H. rewrite fmap_app, <- app_assoc. cbn.
    econstructor; [apply cancel_up|]. by apply IH.
  - apply IH in H. by rewrite fmap_app, <- app_assoc in H.
Qed.

Lemma segments_nonempty s : segments s <> [].
Proof. destruct s as [|a s]; cbn; [done|]. case_bool_decide; [done|]. by destruct (segments s). Qed.

Lemma segments_no_slash s x :
  x ∈ segments s -> "/"%char ∉ String.list_ascii_of_string x.
Proof.
  revert x. induction s as [|a s IH]; intros x; cbn.
  - intros ->%list_elem_of_singleton. cbn. set_solver.
  - case_bool_decide as Ha.
    + intros [->|H]%elem_of_cons; [cbn; set_solver|auto].
    + destruct (segments s) as [|y l] eqn:E; [by apply segments_nonempty in E|].
      intros [->|H]%elem_of_cons; [|apply IH; set_solver]. cbn.
      specialize (IH y ltac:(set_solver)). set_solver.
Qed.

Lemma component_name segment part :
  "/"%char ∉ String.list_ascii_of_string segment ->
  component segment = Some (Normal part) -> is_name part.
Proof. unfold component, is_name. intros. repeat case_bool_decide; naive_solver. Qed.

Lemma components_names s part : Normal part ∈ components s -> is_name part.
Proof.
  assert (Hc : forall l, (forall x, x ∈ l -> x ∈ segments s) ->
                    Normal part ∈ (omap component l : list Component) -> is_name part).
  { intros l Hl (x & Hx & Hp)%list_elem_of_omap.
    eapply component_name; [|done]. by eapply segments_no_slash, Hl. }
  unfold components. destruct (has_root s); [intros [?|H]%elem_of_cons; [done|eauto]|].
  destruct (segments s) as [|y l] eqn:E; [by intros ?%elem_of_nil|].
  case_bool_decide; [intros [?|H']%elem_of_cons; [done|]|]; eapply Hc; try done; set_solver.
Qed.

Lemma cancels_names cs cs' c : cancels cs cs' -> c ∈ cs' -> c ∈ cs.
Proof. intros []; set_solver. Qed.

Lemma walk_names cs rel part : walk [] cs = Ok rel -> part ∈ rel -> Normal part ∈ cs.
Proof.
  intros H%walk_Ok_cancels Hp. cbn in H.
  assert (Normal part ∈ (Normal <$> rel)) as Hn by (apply list_elem_of_fmap; eauto).
  remember (Normal <$> rel) as l. clear Heql. induction H; [done|].
  eauto using cancels_names.
Qed.

Lemma join_starts_with root rel : starts_with (join root rel) root.
Proof. unfold starts_with, join. apply bool_decide_spec. by rewrite take_app_length. Qed.

Lemma walk_Err rel cs e : walk rel cs = Err e -> code e = PathEscape.
Proof.
  revert rel. induction cs as [|[| | |part] cs IH]; intros rel; cbn; intros; simplify_eq; eauto.
  destruct rel; simplify_eq; eauto.
Qed.

(** The last check of [resolve_path] never fails: what was pushed is a relative path. *)
Lemma resolve_path_eq canonicalize w s :
  resolve_path canonicalize w s =
  if bool_decide (s = "") || is_absolute s then Err (escape "absolute or empty path")
  else if has_nul s then Err (escape "NUL in path")
  else join (canonical_root canonicalize w) <$> walk [] (components s).
Proof.
  unfold resolve_path. destruct (bool_decide (s = "") || is_absolute s); [done|].
  destruct (has_nul s); [done|]. destruct (walk [] (components s)) as [rel|]; [|done]. cbn.
  destruct (starts_with _ _) eqn:E; [done|]. by pose proof (join_starts_with
    (canonical_root canonicalize w) rel) as H; rewrite E in H.
Qed.

Lemma resolve_path_names canonicalize w s path :
  resolve_path canonicalize w s = Ok path -> exists rel,
    path = canonical_root canonicalize w ++ (Normal <$> rel) /\ Forall is_name rel.
Proof.
  rewrite resolve_path_eq. destruct (_ || _); [done|]. destruct (has_nul s); [done|].
  destruct (walk [] (components s)) as [rel|e] eqn:E; [|done]. intros [= <-].
  exists rel. split; [done|]. apply Forall_forall. intros part Hp.
  eauto using components_names, walk_names.
Qed.

(** C12: Whatever a model supplies, [resolve_path] answers a descendant of the workspace's
    canonical root, or the root itself: the root's components followed by names, none of them
    empty, [.], [..] or with a separator in it. What it refuses it refuses with [PathEscape]. *)
Theorem resolve_path_confined canonicalize w s :
  match resolve_path canonicalize w s with
  | Ok path => exists rel,
      path = canonical_root canonicalize w ++ (Normal <$> rel) /\ Forall is_name rel
  | Err e => code e = PathEscape
  end.
Proof.
  destruct (resolve_path canonicalize w s) as [path|e] eqn:H; [by apply resolve_path_names in H|].
  revert H. rewrite resolve_path_eq. destruct (_ || _); [by intros [= <-]|].
  destruct (has_nul s); [by intros [= <-]|].
  destruct (walk [] (components s)) eqn:E; [done|]. intros [= <-]. by eapply walk_Err.
Qed.

(** [resolve_path] is the lexical meaning of the path, as a rewriting system gives it: it
    answers the root followed by [rel] exactly when the text is non-empty, relative and without
    NUL, and cancelling [.] and a name with the [..] after it, in any order, leads to [rel].
    So a path is refused only when no such reading of it exists. *)
Theorem resolve_path_is_cancellation canonicalize w s rel :
  resolve_path canonicalize w s = Ok (join (canonical_root canonicalize w) rel) <->
  s <> "" /\ is_absolute s = false /\ has_nul s = false /\
  rtc cancels (components s) (Normal <$> rel).
Proof.
  rewrite resolve_path_eq. case_bool_decide as H0; cbn; [naive_solver|].
  destruct (is_absolute s); cbn; [naive_solver|]. destruct (has_nul s); cbn; [naive_solver|].
  split.
  - destruct (walk [] (components s)) as [r|] eqn:E; cbn; [|done]. intros [= Hj].
    apply (app_inv_head (canonical_root canonicalize w)) in Hj.
    apply list_fmap_eq_inj in Hj as ->; [|apply _]. by apply (walk_Ok_cancels []) in E.
  - intros (_ & _ & _ & H%(walk_rtc_cancels [])). rewrite H, walk_normal. done.
Qed.

(** * What is loaded *)

Lemma load_environments_lookup l g id :
  NoDup l.*1 ->
  rg_environments (load_environments l g) !! id =
  match (list_to_map l : gmap string EnvironmentKind) !! id with
  | Some k => Some (mkEnvironment id k)
  | None => rg_environments g !! id
  end.
Proof.
  unfold load_environments. revert g. induction l as [|[i k] l IH]; intros g; [done|].
  rewrite fmap_cons, NoDup_cons. cbn. intros [Hi Hl]. rewrite IH by done. cbn.
  destruct (decide (i = id)) as [->|Hne]; simplify_map_eq; [|done].
  by rewrite not_elem_of_list_to_map_1.
Qed.

Lemma load_environments_workspaces l g :
  rg_workspaces (load_environments l g) = rg_workspaces g.
Proof. unfold load_environments. revert g. by induction l as [|e l IH]; intros g; [|cbn; rewrite IH]. Qed.

Lemma btree_iter_perm {A} (m : gmap string A) : btree_iter m ≡ₚ map_to_list m.
Proof. apply merge_sort_Permutation. Qed.

Lemma btree_iter_nodup {A} (m : gmap string A) : NoDup (btree_iter m).*1.
Proof. rewrite btree_iter_perm. apply NoDup_fst_map_to_list. Qed.

Lemma btree_iter_map {A} (m : gmap string A) : list_to_map (btree_iter m) = m.
Proof.
  rewrite <- (list_to_map_to_list m) at 2.
  apply list_to_map_proper; [apply btree_iter_nodup|apply btree_iter_perm].
Qed.

Lemma btree_iter_elem {A} (m : gmap string A) id a : (id, a) ∈ btree_iter m <-> m !! id = Some a.
Proof. rewrite btree_iter_perm. apply elem_of_map_to_list. Qed.

Lemma btree_iter_Forall {A} (P : A -> Prop) (m : gmap string A) :
  Forall (fun p => P p.2) (btree_iter m) <-> map_Forall (fun _ a => P a) m.
Proof.
  rewrite Forall_forall. split.
  - intros H id a Ha. apply (H (id, a)). by apply btree_iter_elem.
  - intros H [id a] Ha%btree_iter_elem. by eapply H.
Qed.

(** The environments of a loaded configuration. *)
Definition file_environment (cfg : FileConfig) (id : string) : option Environment :=
  match fc_environments cfg !! id with
  | Some k => Some (mkEnvironment id k)
  | None => if bool_decide (id = DEFAULT_ENVIRONMENT_ID) then Some local_host else None
  end.

(** The configuration's requirements on one workspace. *)
Definition valid_entry (cfg : FileConfig) (e : FileWorkspace) : bool :=
  is_absolute (fw_root e) &&
  match rs_request (fw_resources e) with Some q => positive_quantities q | None => true end &&
  is_some (file_environment cfg (default DEFAULT_ENVIRONMENT_ID (fw_environment e))).

(** A loaded workspace is the file's entry with its environment resolved. *)
Definition loaded_as (cfg : FileConfig) (id : string) (e : FileWorkspace) (w : Workspace) : Prop :=
  exists env,
    file_environment cfg (default DEFAULT_ENVIRONMENT_ID (fw_environment e)) = Some env /\
    w = {| ws_id := id; ws_root := fw_root e; ws_profile := fw_profile e;
           ws_environment_id := env_id env; ws_environment_kind := env_kind env;
           ws_network := fw_network e; ws_approvals := fw_approvals e;
           ws_resources := fw_resources e |}.

Lemma base_environments cfg id :
  rg_environments (load_environments (btree_iter (fc_environments cfg)) registry_new) !! id
  = file_environment cfg id.
Proof.
  rewrite load_environments_lookup, btree_iter_map by apply btree_iter_nodup.
  unfold file_environment. destruct (fc_environments cfg !! id); [done|]. cbn.
  case_bool_decide; by simplify_map_eq.
Qed.

Lemma load_workspace_valid cfg id e g :
  (forall i, rg_environments g !! i = file_environment cfg i) ->
  match load_workspace id e g with
  | Ok g' => valid_entry cfg e /\ rg_environments g' = rg_environments g /\
             exists w, rg_workspaces g' = <[id := w]> (rg_workspaces g) /\ loaded_as cfg id e w
  | Err _ => valid_entry cfg e = false
  end.
Proof.
  intros Hg. unfold load_workspace, valid_entry. destruct (is_absolute (fw_root e)); [|done].
  cbn. rewrite <- Hg.
  destruct (rs_request (fw_resources e)) as [q|] eqn:Eq; [destruct (positive_quantities q)|];
    try done; cbn;
    destruct (rg_environments g !! _) as [env|] eqn:E; cbn; try done;
    (split; [done|split; [done|eexists; split; [done|]]]; exists env; by rewrite <- Hg).
Qed.

Lemma load_workspaces_spec cfg l g :
  NoDup l.*1 -> (forall i, rg_environments g !! i = file_environment cfg i) ->
  match load_workspaces l g with
  | Ok g' => Forall (fun p => Is_true (valid_entry cfg p.2)) l /\
             rg_environments g' = rg_environments g /\
             forall id, match (list_to_map l : gmap string FileWorkspace) !! id with
                        | Some e => exists w, rg_workspaces g' !! id = Some w /\
                                              loaded_as cfg id e w
                        | None => rg_workspaces g' !! id = rg_workspaces g !! id
                        end
  | Err _ => Exists (fun p => valid_entry cfg p.2 = false) l
  end.
Proof.
  revert g. induction l as [|[i e] l IH]; intros g; [done|].
  rewrite fmap_cons, NoDup_cons. intros [Hi Hl] Hg. cbn [load_workspaces].
  pose proof (load_workspace_valid cfg i e g Hg) as Hw.
  destruct (load_workspace i e g) as [g1|msg]; cbn; [|by left].
  destruct Hw as (Hv & He & w & Hm & Hw). specialize (IH g1 Hl ltac:(by rewrite He)).
  destruct (load_workspaces l g1) as [g2|msg]; [|by right].
  destruct IH as (Hf & He2 & IH). split; [by constructor|]. split; [congruence|].
  intros id. specialize (IH id).
  destruct (decide (i = id)) as [->|Hne].
  - rewrite not_elem_of_list_to_map_1 in IH by done. rewrite lookup_insert_eq.
    exists w. by rewrite IH, Hm, lookup_insert_eq.
  - rewrite lookup_insert_ne by done. destruct (list_to_map l !! id); [done|].
    by rewrite IH, Hm, lookup_insert_ne.
Qed.

(** Every registered workspace and environment is well formed. *)
Record registry_ok (g : Registry) : Prop := {
  rg_ids : forall id w, rg_workspaces g !! id = Some w -> ws_id w = id;
  rg_env_ids : forall id e, rg_environments g !! id = Some e -> env_id e = id;
  rg_roots : forall id w, rg_workspaces g !! id = Some w -> is_absolute (ws_root w);
  rg_known : forall id w, rg_workspaces g !! id = Some w ->
    rg_environments g !! ws_environment_id w
      = Some (mkEnvironment (ws_environment_id w) (ws_environment_kind w));
  rg_positive : forall id w q, rg_workspaces g !! id = Some w ->
    rs_request (ws_resources w) = Some q -> positive_quantities q
}.

Lemma file_environment_id cfg id e : file_environment cfg id = Some e -> env_id e = id.
Proof.
  unfold file_environment. destruct (fc_environments cfg !! id); [naive_solver|].
  case_bool_decide; naive_solver.
Qed.

Lemma loaded_ok cfg g :
  map_Forall (fun _ e => Is_true (valid_entry cfg e)) (fc_workspaces cfg) ->
  (forall id, rg_environments g !! id = file_environment cfg id) ->
  (forall id, match fc_workspaces cfg !! id with
              | Some e => exists w, rg_workspaces g !! id = Some w /\ loaded_as cfg id e w
              | None => rg_workspaces g !! id = None
              end) -> registry_ok g.
Proof.
  intros Hv He Hl.
  assert (Hw : forall id w, rg_workspaces g !! id = Some w ->
             exists e, valid_entry cfg e /\ loaded_as cfg id e w).
  { intros id w Hw. specialize (Hl id). destruct (fc_workspaces cfg !! id) as [e|] eqn:E;
      [|congruence]. destruct Hl as (w' & Hw' & Hl). simplify_eq. exists e. split; [|done].
    by apply (Hv _ _ E). }
  split.
  - by intros id w (e & _ & env & _ & ->)%Hw.
  - intros id e. rewrite He. apply file_environment_id.
  - intros id w (e & Hval & env & _ & ->)%Hw. cbn. unfold valid_entry in Hval. naive_solver.
  - intros id w (e & _ & env & Henv & ->)%Hw. cbn. rewrite He.
    pose proof (file_environment_id _ _ _ Henv) as Hid. rewrite Hid. by destruct env; cbn in *; subst.
  - intros id w q (e & Hval & env & _ & ->)%Hw. cbn. unfold valid_entry in Hval.
    intros Hq. rewrite Hq in Hval. naive_solver.
Qed.

(** C30: The configuration is accepted exactly when every workspace in it has an absolute root,
    a known environment and positive resource quantities. What is then registered is
    well formed: the file's workspaces and no others, each under its own id with its settings
    unchanged and the kind of the environment that it names. *)
Theorem load_json_loads_valid cfg :
  match load_json (Ok cfg) with
  | Ok g =>
      map_Forall (fun _ e => Is_true (valid_entry cfg e)) (fc_workspaces cfg) /\
      registry_ok g /\
      forall id, match fc_workspaces cfg !! id with
                 | Some e => exists w, get g id = Ok w /\ loaded_as cfg id e w
                 | None => is_ok (get g id) = false
                 end
  | Err _ => exists id e, fc_workspaces cfg !! id = Some e /\ valid_entry cfg e = false
  end.
Proof.
  unfold load_json. cbn [mbind result_bind].
  pose proof (load_workspaces_spec cfg (btree_iter (fc_workspaces cfg)) _
    (btree_iter_nodup _) (base_environments cfg)) as H.
  destruct (load_workspaces _ _) as [g|msg].
  - destruct H as (Hv & He & Hl). rewrite btree_iter_map in Hl.
    rewrite load_environments_workspaces in Hl.
    apply (btree_iter_Forall (fun e => Is_true (valid_entry cfg e))) in Hv.
    assert (forall id, rg_environments g !! id = file_environment cfg id)
      by (intros id; rewrite He; apply base_environments).
    split; [done|split; [by eapply loaded_ok|]].
    intros id. specialize (Hl id). unfold get.
    destruct (fc_workspaces cfg !! id); [destruct Hl as (w & -> & ?); by exists w|].
    by rewrite Hl.
  - apply Exists_exists in H as ([id e] & Hin%btree_iter_elem & Hv). eauto.
Qed.
