(* ===== verification/Authority.v ===== *)
(** The adapter to the resource authority (the crate [devguard], with the reports of
    [runner/registration.rs] and [domain/resource_authority.rs]): the private files it trusts, the
    sessions of an execution owner, the answers it makes of them, and the owner's one identity.
    What DevGuard's own client and contract do is an argument: a [Session] is what the authority
    answered, step by step. *)
From S2P Require Import Prelude Domain Policy.

(** * Codes and reports ([devguard/lib.rs], [domain/resource_authority.rs]) *)

(** [devguard::ErrorCode], which has the variants of the contract's. *)
Inductive DgErrorCode :=
  | DgUnauthorized | DgInvalidRequest | DgAttemptConflict | DgResourceUnavailable
  | DgResourceControlUnavailable | DgResourcePolicyUnsupported | DgInvalidTransition
  | DgNotFound | DgReconciliationRequired | DgJournalInvalid.

#[export] Instance DgErrorCode_eq_dec : EqDecision DgErrorCode.
Proof. solve_decision. Defined.

Definition dg_code_wire_name (c : DgErrorCode) : string :=
  match c with
  | DgUnauthorized => "unauthorized"
  | DgInvalidRequest => "invalid_request"
  | DgAttemptConflict => "attempt_conflict"
  | DgResourceUnavailable => "resource_unavailable"
  | DgResourceControlUnavailable => "resource_control_unavailable"
  | DgResourcePolicyUnsupported => "resource_policy_unsupported"
  | DgInvalidTransition => "invalid_transition"
  | DgNotFound => "not_found"
  | DgReconciliationRequired => "reconciliation_required"
  | DgJournalInvalid => "journal_invalid"
  end.

Inductive DgCapability :=
  | DgDurableAdmission | DgFencedLaunch | DgPerResourceEvidence | DgStaticControlReservations
  | DgMacosCooperative | DgLinuxCgroupV2 | DgParentLease | DgUpgradeDrain.

#[export] Instance DgCapability_eq_dec : EqDecision DgCapability.
Proof. solve_decision. Defined.

Definition dg_capability_wire_name (c : DgCapability) : string :=
  match c with
  | DgDurableAdmission => "durable_admission"
  | DgFencedLaunch => "fenced_launch"
  | DgPerResourceEvidence => "per_resource_evidence"
  | DgStaticControlReservations => "static_control_reservations"
  | DgMacosCooperative => "macos_cooperative"
  | DgLinuxCgroupV2 => "linux_cgroup_v2"
  | DgParentLease => "parent_lease"
  | DgUpgradeDrain => "upgrade_drain"
  end.

Inductive DgRole := DgWorkload | DgControlService | DgAdministrator.

#[export] Instance DgRole_eq_dec : EqDecision DgRole.
Proof. solve_decision. Defined.

Definition dg_role_wire_name (r : DgRole) : string :=
  match r with
  | DgWorkload => "workload"
  | DgControlService => "control_service"
  | DgAdministrator => "administrator"
  end.

Inductive DgState :=
  | StAvailable | StUnavailable | StUntrustedAuthority | StIncompatible | StCredentialRefused
  | StCredentialUnavailable.

#[export] Instance DgState_eq_dec : EqDecision DgState.
Proof. solve_decision. Defined.

Record Report := mkReport {
  rp_protocol : Z;
  rp_capabilities : list DgCapability;
  rp_role : DgRole;
  rp_storage_validated : bool;
  rp_registration_ready : bool;
  rp_execution_ready : bool
}.

Record Status := mkStatus {
  st_state : DgState;
  st_error_code : option DgErrorCode;
  st_report : option Report
}.

(** Where a session stopped. *)
Inductive Step := StepCredential | StepConnect | StepAuthenticate | StepStatus.

#[export] Instance Step_eq_dec : EqDecision Step.
Proof. solve_decision. Defined.

Definition classify (step : Step) (code : DgErrorCode) : DgState :=
  match step, code with
  | StepCredential, _ => StCredentialUnavailable
  | StepConnect, DgUnauthorized => StUntrustedAuthority
  | StepConnect, DgResourcePolicyUnsupported => StIncompatible
  | StepAuthenticate, DgUnauthorized => StCredentialRefused
  | _, _ => StUnavailable
  end.

Definition failed_status (step : Step) (code : DgErrorCode) : Status :=
  mkStatus (classify step code)
    (if bool_decide (step = StepCredential) then None else Some code) None.

(** * Sessions

    What DevGuard's client establishes and answers in one session, step by step. *)
Record Hello := mkHello { he_protocol : Z; he_capabilities : list DgCapability }.

Record ServiceStatus := mkServiceStatus {
  sv_storage_validated : bool;
  sv_registration_ready : bool;
  sv_execution_ready : bool
}.

(** A registered instance: [ii_process] is what else DevGuard knows its process by. *)
Record InstanceIdentity := mkInstanceIdentity {
  ii_instance_id : string;
  ii_pid : Z;
  ii_process : string
}.

#[export] Instance InstanceIdentity_eq_dec : EqDecision InstanceIdentity.
Proof. solve_decision. Defined.

(** What DevGuard has to offer for a session: one protocol, and these capabilities. *)
Definition Compatibility := list DgCapability.

Definition status_only : Compatibility := [].
Definition registration : Compatibility := [DgStaticControlReservations].
Definition admission_compatibility : Compatibility :=
  [DgStaticControlReservations; DgDurableAdmission].
Definition launch_compatibility : Compatibility :=
  [DgStaticControlReservations; DgDurableAdmission; DgFencedLaunch].

Record Handshake := mkHandshake {
  ss_connect : Compatibility -> result DgErrorCode Hello;
  ss_authenticate : result DgErrorCode DgRole;
  ss_status : result DgErrorCode ServiceStatus;
  ss_register : result DgErrorCode InstanceIdentity
}.

Definition report_of (hello : Hello) (role : DgRole) (status : ServiceStatus) : Report :=
  mkReport (he_protocol hello) (he_capabilities hello) role (sv_storage_validated status)
    (sv_registration_ready status) (sv_execution_ready status).

(** [probe_with]; [credential] is whether the credential could be read. *)
Definition probe (credential : result DgErrorCode unit) (ss : Handshake) : Status :=
  match credential with
  | Err code => failed_status StepCredential code
  | Ok _ =>
      match ss_connect ss status_only with
      | Err code => failed_status StepConnect code
      | Ok hello =>
          match ss_authenticate ss with
          | Err code => failed_status StepAuthenticate code
          | Ok role =>
              match ss_status ss with
              | Err code => failed_status StepStatus code
              | Ok status => mkStatus StAvailable None (Some (report_of hello role status))
              end
          end
      end
  end.

(** * Registration ([devguard/registration.rs]) *)

Record OwnerSettings := mkOwnerSettings {
  os_socket : string;
  os_consumer : string;
  os_generation : string
}.

Inductive RegistrationState :=
  | RgRegistered | RgUnavailable | RgUntrustedAuthority | RgIncompatible
  | RgCredentialUnavailable | RgCredentialRefused | RgRoleMismatch | RgNotReady | RgRefused
  | RgOwnerMismatch.

#[export] Instance RegistrationState_eq_dec : EqDecision RegistrationState.
Proof. solve_decision. Defined.

Record Registration := mkRegistration {
  rg_status : Status;
  rg_state : RegistrationState;
  rg_error_code : option DgErrorCode;
  rg_pid : option Z
}.

Record Owner := mkOwner {
  ow_settings : OwnerSettings;
  ow_instance_id : string;
  ow_pid : Z;
  ow_registered : option InstanceIdentity
}.

Definition failed_registration (step : Step) (code : DgErrorCode) : Registration :=
  let status := failed_status step code in
  mkRegistration status
    match classify step code with
    | StAvailable | StUnavailable => RgUnavailable
    | StUntrustedAuthority => RgUntrustedAuthority
    | StIncompatible => RgIncompatible
    | StCredentialRefused => RgCredentialRefused
    | StCredentialUnavailable => RgCredentialUnavailable
    end (st_error_code status) None.

Definition refusal (code : DgErrorCode) : RegistrationState :=
  match code with
  | DgUnauthorized | DgAttemptConflict | DgResourceUnavailable | DgInvalidRequest
  | DgResourcePolicyUnsupported => RgRefused
  | _ => RgUnavailable
  end.

Definition with_registered (o : Owner) (identity : InstanceIdentity) : Owner :=
  mkOwner (ow_settings o) (ow_instance_id o) (ow_pid o) (Some identity).

(** [Owner::open_with]: the owner as it is after the session, and the registration, an error
    unless the session is open for one more request. *)
Definition open_with (credential : result DgErrorCode unit) (ss : Handshake)
    (compatibility : Compatibility) (o : Owner)
    : Owner * result Registration Registration :=
  match credential with
  | Err code => (o, Err (failed_registration StepCredential code))
  | Ok _ =>
  match ss_connect ss compatibility with
  | Err code => (o, Err (failed_registration StepConnect code))
  | Ok hello =>
  match ss_authenticate ss with
  | Err code => (o, Err (failed_registration StepAuthenticate code))
  | Ok role =>
  match ss_status ss with
  | Err code => (o, Err (failed_registration StepStatus code))
  | Ok service =>
      let status := mkStatus StAvailable None (Some (report_of hello role service)) in
      if bool_decide (role <> DgControlService)
      then (o, Err (mkRegistration status RgRoleMismatch None None))
      else if negb (sv_registration_ready service)
      then (o, Err (mkRegistration status RgNotReady None None))
      else
        match ss_register ss with
        | Err code => (o, Err (mkRegistration status (refusal code) (Some code) None))
        | Ok instance =>
            if bool_decide (ii_instance_id instance <> ow_instance_id o)
               || bool_decide (ii_pid instance <> ow_pid o)
            then (o, Err (mkRegistration status RgOwnerMismatch None None))
            else
              match ow_registered o with
              | Some first =>
                  if bool_decide (first = instance)
                  then (o, Ok (mkRegistration status RgRegistered None (Some (ii_pid instance))))
                  else (o, Err (mkRegistration status RgOwnerMismatch None None))
              | None =>
                  (with_registered o instance,
                   Ok (mkRegistration status RgRegistered None (Some (ii_pid instance))))
              end
        end
  end end end end.

(** [Owner::register]. *)
Definition register (credential : result DgErrorCode unit) (ss : Handshake) (o : Owner)
    : Owner * Registration :=
  match open_with credential ss registration o with (o, Ok r) | (o, Err r) => (o, r) end.

(** * Admission ([devguard/admission.rs]) *)

Inductive Phase :=
  | Denied | Prepared | LaunchCommitted | ScopeBound | RunAuthorized | Draining | Suspect
  | PhaseReleased | PhaseCancelled | PhaseExpired.

#[export] Instance Phase_eq_dec : EqDecision Phase.
Proof. solve_decision. Defined.

Inductive Method := Accounting | QosAndPriority | CgroupV2.

Inductive ScopeKind := ObservedProcessGroup | ContainedCgroup.

Record Quantities := mkQuantities {
  qt_cpu_milli : Z;
  qt_memory_bytes : Z;
  qt_tasks : Z
}.

Record Levels := mkLevels {
  lv_cpu : EnforcementLevel;
  lv_memory : EnforcementLevel;
  lv_pids : EnforcementLevel
}.

Record DgResourceRequest := mkDgResourceRequest {
  dr_requested : Quantities;
  dr_minimum : Levels
}.

Record Meaning := mkMeaning {
  mn_executable : string;
  mn_cwd : string;
  mn_argv : list string;
  mn_environment : gmap string string;
  mn_tty : bool;
  mn_timeout_ms : Z;
  mn_resources : DgResourceRequest
}.

Record Admission := mkAdmission {
  ad_attempt_id : string;
  ad_digest : string;
  ad_resources : DgResourceRequest
}.

Record Planned := mkPlanned { pn_level : EnforcementLevel; pn_method : Method }.

Record Plan := mkPlan {
  pl_scope : ScopeKind;
  pl_cpu : Planned;
  pl_memory : Planned;
  pl_pids : Planned
}.

Record Reservation := mkReservation {
  rs_quantities : Quantities;
  rs_prepared_ttl_ms : Z
}.

Record Scope := mkScope { sc_kind : ScopeKind; sc_root_pid : Z }.

Inductive Application :=
  | ApplicationPlanned | ApplicationApplied | ApplicationUnsupported | ApplicationFailed.

Record Applied := mkApplied {
  ap_cpu : Application;
  ap_memory : Application;
  ap_pids : Application
}.

Inductive Release := ScopeTerminated | NoHelperCreated | PreviousBoot.

#[export] Instance Release_eq_dec : EqDecision Release.
Proof. solve_decision. Defined.

Record Attempt := mkAttempt {
  at_phase : Phase;
  at_denial : option DgErrorCode;
  at_plan : option Plan;
  at_reservation : option Reservation;
  at_scope : option Scope;
  at_applied : option Applied;
  at_release : option Release;
  at_tracking_lost : bool;
  at_known_not_started : bool
}.

Inductive Answer :=
  | NotSent (r : Registration)
  | AnswerRefused (code : DgErrorCode)
  | AnswerAttempt (a : Attempt)
  | AnswerUnknown.

Inductive Abandon := SpawnFailed | HelperExited | GrantNotReceived.

#[export] Instance Abandon_eq_dec : EqDecision Abandon.
Proof. solve_decision. Defined.

Inductive AttemptRequest :=
  | RequestAdmit | RequestLookup | RequestCancel | RequestAbandon (reason : Abandon)
  | RequestObserve.

(** The profile of interactive executions. *)
Definition PROFILE : string := "interactive".

Record AttemptKey := mkAttemptKey {
  ky_consumer_id : string;
  ky_consumer_generation : string;
  ky_attempt_id : string
}.

#[export] Instance AttemptKey_eq_dec : EqDecision AttemptKey.
Proof. solve_decision. Defined.

Record WireAdmission := mkWireAdmission {
  wa_key : AttemptKey;
  wa_execution_digest : string;
  wa_profile : string;
  wa_resources : DgResourceRequest
}.

(** What the adapter reads of a record: its reservation is held from [wr_prepared_at_ms] to
    [wr_prepare_deadline_ms]. *)
Record WireReservation := mkWireReservation {
  wr_quantities : Quantities;
  wr_prepared_at_ms : Z;
  wr_prepare_deadline_ms : Z
}.

Record AttemptRecord := mkAttemptRecord {
  ar_key : AttemptKey;
  ar_request_fingerprint : string;
  ar_owner : InstanceIdentity;
  ar_phase : Phase;
  ar_denial : option DgErrorCode;
  ar_plan : option Plan;
  ar_reservation : option WireReservation;
  ar_scope : option Scope;
  ar_applied : option Applied;
  ar_release_reason : option Release;
  ar_tracking_lost : bool;
  ar_known_not_started : bool
}.

Definition wire_of (o : Owner) (admission : Admission) : WireAdmission :=
  mkWireAdmission
    (mkAttemptKey (os_consumer (ow_settings o)) (os_generation (ow_settings o))
       (ad_attempt_id admission))
    (ad_digest admission) PROFILE (ad_resources admission).

(** [Owner::attempt]: the record, when it is this owner's, of this attempt, for this meaning. *)
Definition read_record (o : Owner) (record : AttemptRecord) (key : AttemptKey)
    (fingerprint : string) : Answer :=
  if bool_decide (ar_key record <> key)
     || bool_decide (ar_request_fingerprint record <> fingerprint)
     || bool_decide (ow_registered o <> Some (ar_owner record))
  then AnswerUnknown
  else
    AnswerAttempt
      (mkAttempt (ar_phase record) (ar_denial record) (ar_plan record)
         ((fun r => mkReservation (wr_quantities r)
                      (saturating_sub (wr_prepare_deadline_ms r) (wr_prepared_at_ms r)))
            <$> ar_reservation record)
         (ar_scope record) (ar_applied record) (ar_release_reason record)
         (ar_tracking_lost record) (ar_known_not_started record)).

(** [answered_error]. *)
Definition answered_error (code : DgErrorCode) : Answer :=
  match code with
  | DgResourceControlUnavailable => AnswerUnknown
  | code => AnswerRefused code
  end.

Section adapter.
(** What DevGuard's contract makes of an admission: whether it is valid, its fingerprint, and the
    digest of a meaning. *)
Context (validate : WireAdmission -> bool) (fingerprint : WireAdmission -> option string).

(** [Owner::wire], with the fingerprint that every request but [terminate] takes of it. *)
Definition wire (o : Owner) (admission : Admission) : option WireAdmission :=
  let w := wire_of o admission in if validate w then Some w else None.

(** The owner's session for a request: the owner after it, and why the request was not sent, or
    the wire admission and its fingerprint. *)
Definition session_for (credential : result DgErrorCode unit) (ss : Handshake)
    (compatibility : Compatibility) (admission : Admission) (o : Owner)
    : Owner * (Answer + WireAdmission * string) :=
  match wire o admission with
  | None => (o, inl (AnswerRefused DgInvalidRequest))
  | Some w =>
      match fingerprint w with
      | None => (o, inl (AnswerRefused DgInvalidRequest))
      | Some fp =>
          match open_with credential ss compatibility o with
          | (o, Err registration) => (o, inl (NotSent registration))
          | (o, Ok _) => (o, inr (w, fp))
          end
      end
  end.

Definition request_compatibility (request : AttemptRequest) : Compatibility :=
  match request with
  | RequestAbandon _ | RequestObserve => launch_compatibility
  | RequestAdmit | RequestLookup | RequestCancel => admission_compatibility
  end.

(** [attempt_request]; [answer] is what DevGuard answers to the request. *)
Definition attempt_request (credential : result DgErrorCode unit) (ss : Handshake)
    (answer : AttemptRequest -> AttemptKey -> result DgErrorCode AttemptRecord)
    (request : AttemptRequest) (admission : Admission) (o : Owner) : Owner * Answer :=
  match session_for credential ss (request_compatibility request) admission o with
  | (o, inl answered) => (o, answered)
  | (o, inr (w, fp)) =>
      (o, match answer request (wa_key w) with
          | Ok record => read_record o record (wa_key w) fp
          | Err code => answered_error code
          end)
  end.

(** [Owner::terminate]. *)
Inductive Termination :=
  | Signalled (signalled : Z) (complete : bool)
  | NotSignalled.

Definition terminate (credential : result DgErrorCode unit) (ss : Handshake)
    (answer : AttemptKey -> result DgErrorCode (Z * bool)) (admission : Admission) (o : Owner)
    : Owner * Termination :=
  match wire o admission with
  | None => (o, NotSignalled)
  | Some w =>
      match open_with credential ss launch_compatibility o with
      | (o, Err _) => (o, NotSignalled)
      | (o, Ok _) =>
          (o, match answer (wa_key w) with
              | Ok (signalled, complete) => Signalled signalled complete
              | Err _ => NotSignalled
              end)
      end
  end.

(** * Launch ([devguard/launch.rs]) *)

Definition Permit := string.

Inductive LaunchAnswer :=
  | Granted (a : Attempt) (permit : Permit)
  | LaunchNotCommitted (code : DgErrorCode)
  | LaunchNotSent (r : Registration)
  | LaunchAnswerUnknown.

(** [begin_launch_after]; [answer] is the grant: the record and the permit with it. *)
Definition begin_launch (credential : result DgErrorCode unit) (ss : Handshake)
    (answer : AttemptKey -> result DgErrorCode (AttemptRecord * option Permit))
    (admission : Admission) (o : Owner) : Owner * LaunchAnswer :=
  match session_for credential ss launch_compatibility admission o with
  | (o, inl (AnswerRefused code)) => (o, LaunchNotCommitted code)
  | (o, inl (NotSent registration)) => (o, LaunchNotSent registration)
  | (o, inl _) => (o, LaunchAnswerUnknown)
  | (o, inr (w, fp)) =>
      (o, match answer (wa_key w) with
          | Err code =>
              match answered_error code with
              | AnswerRefused code => LaunchNotCommitted code
              | _ => LaunchAnswerUnknown
              end
          | Ok (record, permit) =>
              match read_record o record (wa_key w) fp, permit with
              | AnswerAttempt attempt, Some permit =>
                  if bool_decide (at_phase attempt = LaunchCommitted)
                  then Granted attempt permit else LaunchAnswerUnknown
              | _, _ => LaunchAnswerUnknown
              end
          end)
  end.
End adapter.

(** The number after a flag among the helper's arguments. *)
Fixpoint after_flag (flag : string) (args : list string) : option string :=
  match args with
  | [] => None
  | a :: args => if bool_decide (a = flag) then head args else after_flag flag args
  end.

(** Whose grant a helper presents, and where. *)
Record LaunchTicket := mkLaunchTicket {
  lt_endpoint : string;
  lt_consumer : string;
  lt_generation : string;
  lt_attempt_id : string;
  lt_instance_id : string
}.

Record HelperTicket := mkHelperTicket {
  ht_endpoint : string;
  ht_key : AttemptKey;
  ht_instance_id : string
}.

Record HelperInvocation := mkHelperInvocation {
  hi_helper : string;
  hi_args : list string;
  hi_descriptors : Z * Z
}.

Section helper.
(** DevGuard's [helper_command]: the arguments of the helper that it made, with the two
    descriptors it created; and how a descriptor's number is read. *)
Context (helper_command : string -> HelperTicket -> Permit -> string -> list string ->
          result DgErrorCode (list string)).
Context (parse : string -> option Z).

(** [HelperInvocation::new]. *)
Definition invocation_new (helper : string) (ticket : LaunchTicket) (permit : Permit)
    (program : string) (args : list string) : result DgErrorCode HelperInvocation :=
  let ticket :=
    mkHelperTicket (lt_endpoint ticket)
      (mkAttemptKey (lt_consumer ticket) (lt_generation ticket) (lt_attempt_id ticket))
      (lt_instance_id ticket) in
  args ← helper_command helper ticket permit program args;
  match after_flag "--permit-fd" args ≫= parse, after_flag "--report-fd" args ≫= parse with
  | Some permit_fd, Some report_fd => Ok (mkHelperInvocation helper args (permit_fd, report_fd))
  | _, _ => Err DgInvalidRequest
  end.

(** [Owner::helper]. *)
Definition owner_helper (o : Owner) (helper : string) (admission : Admission) (permit : Permit)
    (program : string) (args : list string) : result DgErrorCode HelperInvocation :=
  invocation_new helper
    (mkLaunchTicket (os_socket (ow_settings o)) (os_consumer (ow_settings o))
       (os_generation (ow_settings o)) (ad_attempt_id admission) (ow_instance_id o))
    permit program args.
End helper.

Inductive HelperStage := StageScope | StageClamp | StageReport | StagePermit | StageConnect
  | StageOther.

Inductive TranscriptEnd :=
  | Started
  | ExecFailedEnd (errno : Z)
  | RefusedEnd (code : DgErrorCode)
  | FailedEnd (stage : HelperStage)
  | EndedBeforeReady
  | Uncertain.

(** What DevGuard's client makes of a helper's report. *)
Inductive HelperPhase :=
  | HelperRefusedPhase (code : DgErrorCode)
  | HelperFailedPhase (stage : string)
  | OtherHelperPhase.

Inductive LaunchOutcome :=
  | OutcomeStarted
  | OutcomeExecFailed (errno : Z)
  | OutcomeNotStarted (phase : HelperPhase)
  | OutcomeLost (ready : bool).

Definition stage_of (stage : string) : HelperStage :=
  if bool_decide (stage = "scope") then StageScope
  else if bool_decide (stage = "clamp") then StageClamp
  else if bool_decide (stage = "report") then StageReport
  else if bool_decide (stage = "permit") then StagePermit
  else if bool_decide (stage = "connect") then StageConnect
  else StageOther.

Definition transcript_end (outcome : LaunchOutcome) : TranscriptEnd :=
  match outcome with
  | OutcomeStarted => Started
  | OutcomeExecFailed errno => ExecFailedEnd errno
  | OutcomeNotStarted (HelperRefusedPhase code) => RefusedEnd code
  | OutcomeNotStarted (HelperFailedPhase stage) => FailedEnd (stage_of stage)
  | OutcomeNotStarted OtherHelperPhase => Uncertain
  | OutcomeLost false => EndedBeforeReady
  | OutcomeLost true => Uncertain
  end.

(** [Transcript::read]. *)
Definition read_transcript (read : option LaunchOutcome) : TranscriptEnd :=
  match read with Some outcome => transcript_end outcome | None => Uncertain end.

(** * Private files *)

(** What [symlink_metadata] tells of a path. *)
Record FileMeta := mkFileMeta {
  fm_is_dir : bool;
  fm_is_file : bool;
  fm_uid : Z;
  fm_gid : Z;
  fm_mode : Z;
  fm_nlink : Z
}.

(** [Path::parent] of a path's components. *)
Definition parent_of (path : list Component) : option (list Component) :=
  match path with [] | [RootDir] => None | _ => Some (removelast path) end.

Definition any_of (mode mask : Z) : bool := negb (bool_decide (Z.land mode mask = 0%Z)).

Section files.
(** The file system; this process's effective user. *)
Context (symlink_metadata : list Component -> option FileMeta) (uid : Z).

(** A sticky [/tmp] of root's. *)
Definition shared_tmp (path : list Component) (meta : FileMeta) : bool :=
  (bool_decide (path = [RootDir; Normal "tmp"])
   || bool_decide (path = [RootDir; Normal "private"; Normal "tmp"]))
  && bool_decide (fm_uid meta = 0%Z) && any_of (fm_mode meta) 512.

(** The loop over the directories above a file: [current] is the path so far. *)
Fixpoint check_directories {E} (check : list Component -> FileMeta -> bool)
    (not_a_path refused : E) (current rest : list Component) : result E unit :=
  match rest with
  | [] => Ok tt
  | c :: rest =>
      match c with
      | RootDir | Normal _ =>
          let current := current ++ [c] in
          match symlink_metadata current with
          | None => Err refused
          | Some meta =>
              if check current meta
              then check_directories check not_a_path refused current rest
              else Err refused
          end
      | CurDir | ParentDir => Err not_a_path
      end
  end.

(** ** The launch helper ([devguard/launch.rs]) *)

Inductive HelperProblem := HelperNotAbsolute | HelperNotAFile | HelperNotExecutable
  | HelperNotPrivate.

Definition describe_problem (p : HelperProblem) : string :=
  match p with
  | HelperNotAbsolute => "the launch helper path is not absolute"
  | HelperNotAFile => "the launch helper is not a regular file"
  | HelperNotExecutable => "the launch helper is not executable"
  | HelperNotPrivate =>
      "the launch helper, or a directory on its path, can be replaced by another user"
  end.

Definition trusted_owner (meta : FileMeta) : bool :=
  bool_decide (fm_uid meta = uid) || bool_decide (fm_uid meta = 0%Z).

(** Others never write it; a group does only when it is root's. *)
Definition writable_by_others (meta : FileMeta) : bool :=
  any_of (fm_mode meta) 2 || (any_of (fm_mode meta) 16 && negb (bool_decide (fm_gid meta = 0%Z))).

Definition helper_directory (path : list Component) (meta : FileMeta) : bool :=
  fm_is_dir meta && trusted_owner meta && (shared_tmp path meta || negb (writable_by_others meta)).

Definition check_helper (path : string) : result HelperProblem unit :=
  match is_absolute path, parent_of (components path) with
  | true, Some parent =>
      match check_directories helper_directory HelperNotAbsolute HelperNotPrivate [] parent with
      | Err problem => Err problem
      | Ok _ =>
          if match file_name (components path) with
             | None => true
             | Some name => bool_decide (name = ".") || bool_decide (name = "..")
             end
          then Err HelperNotAbsolute
          else
            match symlink_metadata (components path) with
            | None => Err HelperNotAFile
            | Some meta =>
                if negb (fm_is_file meta) then Err HelperNotAFile
                else if negb (trusted_owner meta) || writable_by_others meta
                then Err HelperNotPrivate
                else if negb (any_of (fm_mode meta) 73) then Err HelperNotExecutable
                else Ok tt
            end
      end
  | _, _ => Err HelperNotAbsolute
  end.

(** ** The credential ([devguard/lib.rs]) *)

Definition not_private : DgErrorCode := DgInvalidRequest.

Definition credential_directory (parent path : list Component) (meta : FileMeta) : bool :=
  fm_is_dir meta && trusted_owner meta
  && (shared_tmp path meta || negb (any_of (fm_mode meta) 18))
  && (negb (bool_decide (path = parent)) || bool_decide (fm_uid meta = uid)).

Definition secure_directories (path : string) : result DgErrorCode unit :=
  match is_absolute path, parent_of (components path), file_name (components path) with
  | true, Some parent, Some _ =>
      check_directories (credential_directory parent) not_private not_private [] parent
  | _, _, _ => Err not_private
  end.

(** [open_private] of the file that was opened without following a link; [opened] is its
    metadata. *)
Definition open_private (opened : option FileMeta) : result DgErrorCode unit :=
  match opened with
  | None => Err not_private
  | Some meta =>
      if negb (fm_is_file meta) || bool_decide (fm_uid meta <> uid)
         || any_of (fm_mode meta) 63 || bool_decide (fm_nlink meta <> 1%Z)
      then Err not_private else Ok tt
  end.

(** [credential]: the identifiers, the directories, the file and its 64 bytes. *)
Definition read_credential (validate_id : string -> result DgErrorCode unit)
    (settings : OwnerSettings) (file : string) (opened : option FileMeta)
    (read : result DgErrorCode unit) : result DgErrorCode unit :=
  _ ← validate_id (os_consumer settings);
  _ ← validate_id (os_generation settings);
  _ ← secure_directories file;
  _ ← open_private opened;
  read.
End files.

(** * Properties *)

Section file_properties.
Context (symlink_metadata : list Component -> option FileMeta) (uid : Z).

(** Whether user [u] of the groups [gs] may write what [meta] describes. *)
Definition may_write (u : Z) (gs : gset Z) (meta : FileMeta) : Prop :=
  (fm_uid meta = u /\ any_of (fm_mode meta) 128 = true) \/
  (fm_gid meta ∈ gs /\ any_of (fm_mode meta) 16 = true) \/
  any_of (fm_mode meta) 2 = true.

Lemma check_directories_ok {E} check (not_a_path refused : E) current rest :
  check_directories symlink_metadata check not_a_path refused current rest = Ok tt ->
  forall dir, dir <> [] -> dir `prefix_of` rest ->
  exists meta, symlink_metadata (current ++ dir) = Some meta /\ check (current ++ dir) meta = true.
Proof.
  revert current. induction rest as [|c rest IH]; intros current Hc dir Hne [tail Hd].
  - by destruct dir.
  - destruct dir as [|c' dir]; [done|]. injection Hd as <- Hd.
    assert (Hstep : exists meta, symlink_metadata (current ++ [c]) = Some meta /\
              check (current ++ [c]) meta = true /\
              check_directories symlink_metadata check not_a_path refused (current ++ [c]) rest = Ok tt).
    { cbn in Hc. destruct c; try done; destruct (symlink_metadata _) as [meta|] eqn:Hm; try done;
        destruct (check _ meta) eqn:Hk; try done; eauto. }
    destruct Hstep as (meta & Hm & Hk & Hrest).
    destruct dir as [|c' dir]; [by eauto|]. rewrite cons_middle, app_assoc.
    apply IH; [done|done|]. by exists tail.
Qed.

Lemma not_writable u gs meta :
  trusted_owner uid meta = true -> writable_by_others meta = false ->
  u <> uid -> u <> 0%Z -> 0%Z ∉ gs -> ~ may_write u gs meta.
Proof.
  unfold trusted_owner, writable_by_others, may_write.
  intros Ho%orb_true_iff Hw%orb_false_iff Hu Hr Hg. rewrite !bool_decide_eq_true in Ho.
  destruct Hw as [H2 Hgr]. intros [[<- _]|[[Hin H16]|Hother]]; [tauto| |congruence].
  rewrite H16 in Hgr. cbn in Hgr. apply negb_false_iff, bool_decide_eq_true in Hgr. congruence.
Qed.

(** A launch helper that is accepted can be replaced by nobody else: every directory on its
    path is a directory that another user than this one or root, outside root's group, cannot
    write, or root's sticky [/tmp], and such a user cannot write the helper itself, which is an
    executable regular file of this user's or root's. *)
Theorem accepted_helper_is_private (path : string)
    (Hc : check_helper symlink_metadata uid path = Ok tt) (u : Z) (gs : gset Z)
    (Hu : u <> uid) (Hroot : u <> 0%Z) (Hgs : 0%Z ∉ gs) :
  (exists meta, symlink_metadata (components path) = Some meta /\ fm_is_file meta = true /\
     (fm_uid meta = uid \/ fm_uid meta = 0%Z) /\ any_of (fm_mode meta) 73 = true /\
     ~ may_write u gs meta) /\
  forall dir, dir <> [] -> dir <> components path -> dir `prefix_of` components path ->
    exists meta, symlink_metadata dir = Some meta /\ fm_is_dir meta = true /\
      (may_write u gs meta -> shared_tmp dir meta = true).
Proof.
  unfold check_helper in Hc. destruct (is_absolute path); [|done].
  destruct (parent_of (components path)) as [parent|] eqn:Hp; [|done].
  destruct (check_directories _ _ _ _ _ _) as [[]|] eqn:Hd; [|done].
  destruct (match file_name _ with None => true | Some _ => _ end); [done|].
  destruct (symlink_metadata (components path)) as [meta|] eqn:Hm; [|done].
  destruct (fm_is_file meta) eqn:Hf; [|done]. cbn [negb] in Hc.
  destruct (trusted_owner uid meta) eqn:Ho; [|done].
  destruct (writable_by_others meta) eqn:Hw; [done|]. cbn [negb orb] in Hc.
  destruct (any_of (fm_mode meta) 73) eqn:Hx; [|done]. split.
  - exists meta. split_and!; try done.
    + unfold trusted_owner in Ho. rewrite orb_true_iff, !bool_decide_eq_true in Ho. done.
    + by apply not_writable.
  - intros dir Hne Hnf [tail Htail].
    assert (Hpre : dir `prefix_of` parent).
    { destruct tail as [|t tail _] using rev_ind; [by rewrite app_nil_r in Htail|].
      rewrite app_assoc in Htail. exists tail. rewrite Htail in Hp. unfold parent_of in Hp.
      assert (Some (removelast ((dir ++ tail) ++ [t])) = Some parent) as [= <-].
      { revert Hp. destruct ((dir ++ tail) ++ [t]) as [|[] [|]] eqn:E; try done. }
      by rewrite removelast_last. }
    destruct (check_directories_ok _ _ _ _ _ Hd dir Hne Hpre) as (m & Hdm & Hk). cbn in Hdm, Hk.
    exists m. unfold helper_directory in Hk. rewrite !andb_true_iff, orb_true_iff in Hk.
    destruct Hk as [[Hdir Hown] Hsh]. split_and!; [done..|]. intros Hmay.
    destruct Hsh as [Hsh|Hsh%negb_true_iff]; [done|]. by destruct (not_writable u gs m).
Qed.
End file_properties.

Section session_properties.
Context (validate : WireAdmission -> bool) (fingerprint : WireAdmission -> option string).

(** The sessions of one owner. *)
Inductive SessionOp :=
  | SRegister
  | SRequest (request : AttemptRequest) (admission : Admission)
      (answer : AttemptRequest -> AttemptKey -> result DgErrorCode AttemptRecord)
  | SBegin (admission : Admission)
      (answer : AttemptKey -> result DgErrorCode (AttemptRecord * option Permit))
  | STerminate (admission : Admission) (answer : AttemptKey -> result DgErrorCode (Z * bool)).

Record OwnerSession := mkOwnerSession {
  on_credential : result DgErrorCode unit;
  on_handshake : Handshake;
  on_op : SessionOp
}.

Definition session_run (s : OwnerSession) (o : Owner) : Owner :=
  match on_op s with
  | SRegister => fst (register (on_credential s) (on_handshake s) o)
  | SRequest request admission answer =>
      fst (attempt_request validate fingerprint (on_credential s) (on_handshake s) answer request
             admission o)
  | SBegin admission answer =>
      fst (begin_launch validate fingerprint (on_credential s) (on_handshake s) answer admission o)
  | STerminate admission answer =>
      fst (terminate validate (on_credential s) (on_handshake s) answer admission o)
  end.

Definition sessions_run (l : list OwnerSession) (o : Owner) : Owner :=
  foldl (fun o s => session_run s o) o l.

(** The record that a session's answer was made of, with its admission: an answer of an attempt,
    or a grant. *)
Definition accepted (s : OwnerSession) (o : Owner) : option (Admission * AttemptRecord) :=
  match on_op s with
  | SRequest request admission answer =>
      match attempt_request validate fingerprint (on_credential s) (on_handshake s) answer request
              admission o with
      | (_, AnswerAttempt _) =>
          match answer request (wa_key (wire_of o admission)) with
          | Ok record => Some (admission, record) | Err _ => None end
      | _ => None
      end
  | SBegin admission answer =>
      match begin_launch validate fingerprint (on_credential s) (on_handshake s) answer admission o with
      | (_, Granted _ _) =>
          match answer (wa_key (wire_of o admission)) with
          | Ok (record, _) => Some (admission, record) | Err _ => None end
      | _ => None
      end
  | _ => None
  end.

(** The owner stays who it is, and its identity is its own. *)
Definition same_owner (o o' : Owner) : Prop :=
  ow_settings o' = ow_settings o /\ ow_instance_id o' = ow_instance_id o /\ ow_pid o' = ow_pid o /\
  (forall i, ow_registered o = Some i -> ow_registered o' = Some i).

Definition own_identity (o : Owner) : Prop :=
  forall i, ow_registered o = Some i -> ii_instance_id i = ow_instance_id o /\ ii_pid i = ow_pid o.

#[local] Instance same_owner_preorder : PreOrder same_owner.
Proof.
  unfold same_owner. split; [done|]. intros x y z (? & ? & ? & ?) (? & ? & ? & ?).
  split_and!; [congruence..|auto].
Qed.

(** What every session leaves of its owner. *)
Definition session_ok (o : Owner) (x : Owner * result Registration Registration) : Prop :=
  same_owner o x.1 /\ own_identity x.1 /\
  (forall r, x.2 = Ok r -> rg_state r = RgRegistered /\ ow_registered x.1 <> None) /\
  (forall r, x.2 = Err r -> rg_state r <> RgRegistered).

Lemma open_with_owner credential ss compatibility o :
  own_identity o -> session_ok o (open_with credential ss compatibility o).
Proof.
  intros Hown. unfold open_with.
  assert (Hend : forall r, rg_state r <> RgRegistered -> session_ok o (o, Err r)).
  { intros r Hr. unfold session_ok. cbn. split_and!; try done. by intros r' [= <-]. }
  assert (Hf : forall step code, session_ok o (o, Err (failed_registration step code))).
  { intros step code. apply Hend. unfold failed_registration. cbv zeta. cbn [rg_state].
    by destruct (classify step code). }
  destruct credential; [|apply Hf]. destruct (ss_connect ss _); [|apply Hf].
  destruct (ss_authenticate ss); [|apply Hf]. destruct (ss_status ss); [|apply Hf].
  cbv zeta. case_bool_decide; [by apply Hend|]. destruct (negb _); [by apply Hend|].
  destruct (ss_register ss) as [i|code]; [|apply Hend; by destruct code].
  destruct (bool_decide (ii_instance_id i <> _) || _) eqn:Hi; [by apply Hend|].
  apply orb_false_iff in Hi as [Hid%bool_decide_eq_false Hpid%bool_decide_eq_false].
  apply dec_stable in Hid, Hpid.
  destruct (ow_registered o) as [first|] eqn:Hreg.
  - case_bool_decide; [|by apply Hend]. unfold session_ok. cbn. split_and!; try done.
    intros r [= <-]. split; [done|]. by rewrite Hreg.
  - unfold session_ok, same_owner, own_identity. cbn. split_and!; try done; try congruence.
    + by intros i' [= <-].
    + by intros r [= <-].
Qed.

Lemma session_for_owner credential ss compatibility admission o :
  own_identity o ->
  let x := session_for validate fingerprint credential ss compatibility admission o in
  same_owner o x.1 /\ own_identity x.1.
Proof.
  intros Hown. unfold session_for, wire. cbv zeta. destruct (validate _); [|done].
  destruct (fingerprint _); [|done].
  destruct (open_with_owner credential ss compatibility o Hown) as (H1 & H2 & _).
  by destruct (open_with credential ss compatibility o) as [o' []].
Qed.

Lemma session_run_owner s o :
  own_identity o -> same_owner o (session_run s o) /\ own_identity (session_run s o).
Proof.
  intros Hown. unfold session_run.
  destruct (on_op s) as [|request admission answer|admission answer|admission answer].
  - unfold register.
    destruct (open_with_owner (on_credential s) (on_handshake s) registration o Hown) as (? & ? & _).
    by destruct (open_with _ _ _ o) as [o' []].
  - unfold attempt_request.
    destruct (session_for_owner (on_credential s) (on_handshake s) (request_compatibility request)
                admission o Hown) as [H3 H4].
    by destruct (session_for _ _ _ _ _ _ _) as [o' [|[]]].
  - unfold begin_launch.
    destruct (session_for_owner (on_credential s) (on_handshake s) launch_compatibility admission o
                Hown) as [H3 H4].
    by destruct (session_for _ _ _ _ _ _ _) as [o' [[]|[]]].
  - unfold terminate. destruct (wire _ _ _); [|done].
    destruct (open_with_owner (on_credential s) (on_handshake s) launch_compatibility o Hown)
      as (? & ? & _).
    by destruct (open_with _ _ _ o) as [o' []].
Qed.

Lemma sessions_run_owner l o :
  own_identity o -> same_owner o (sessions_run l o) /\ own_identity (sessions_run l o).
Proof.
  revert o. induction l as [|s l IH]; intros o Hown; [done|]. cbn.
  destruct (session_run_owner s o Hown) as [H1 H2]. destruct (IH _ H2) as [H3 H4].
  split; [by etrans|done].
Qed.

Lemma read_record_attempt o record key fp a :
  read_record o record key fp = AnswerAttempt a ->
  ar_key record = key /\ ar_request_fingerprint record = fp /\
  ow_registered o = Some (ar_owner record) /\ at_phase a = ar_phase record.
Proof.
  unfold read_record. destruct (_ || _) eqn:E; [done|].
  rewrite !orb_false_iff, !bool_decide_eq_false in E. destruct E as [[H1 H2] H3].
  intros [= <-]. cbn. split_and!; try done; by apply dec_stable.
Qed.

Lemma accepted_record s o admission record :
  own_identity o -> accepted s o = Some (admission, record) ->
  ow_registered (session_run s o) = Some (ar_owner record) /\
  ar_key record = wa_key (wire_of o admission) /\
  fingerprint (wire_of o admission) = Some (ar_request_fingerprint record).
Proof.
  intros Hown. unfold accepted, session_run.
  destruct (on_op s) as [|request adm answer|adm answer|]; try done.
  - unfold attempt_request, session_for, wire. cbv zeta. destruct (validate _); [|done].
    destruct (fingerprint _) as [fp|] eqn:Hfp; [|done].
    destruct (open_with _ _ _ o) as [o' [r0|]]; [|done].
    destruct (answer _ _) as [r|code]; [|by destruct code].
    destruct (read_record _ _ _ _) as [| |a|] eqn:Hr; try done. intros [= <- <-].
    destruct (read_record_attempt _ _ _ _ _ Hr) as (? & ? & ? & _). cbn. by subst.
  - unfold begin_launch, session_for, wire. cbv zeta. destruct (validate _); [|done].
    destruct (fingerprint _) as [fp|] eqn:Hfp; [|done].
    destruct (open_with _ _ _ o) as [o' [r0|]]; [|done].
    destruct (answer _) as [[r p]|code]; [|by destruct code].
    destruct (read_record _ _ _ _) as [| |a|] eqn:Hr; try done.
    destruct p as [p|]; [|done]. case_bool_decide; [|done]. intros [= <- <-].
    destruct (read_record_attempt _ _ _ _ _ Hr) as (? & ? & ? & _). cbn. by subst.
Qed.

(** What an owner takes for the state of an attempt is DevGuard's record of that attempt,
    with its meaning's fingerprint, held by this owner: over all of its sessions it has one
    identity, its own instance with its own process, and a record of any other is not taken. *)
Theorem accepted_records_are_the_owners (o : Owner) (Ho : ow_registered o = None)
    (before after : list OwnerSession) (s : OwnerSession) (admission : Admission)
    (record : AttemptRecord)
    (Ha : accepted s (sessions_run before o) = Some (admission, record)) :
  ow_registered (sessions_run (before ++ s :: after) o) = Some (ar_owner record) /\
  ii_instance_id (ar_owner record) = ow_instance_id o /\ ii_pid (ar_owner record) = ow_pid o /\
  ky_attempt_id (ar_key record) = ad_attempt_id admission /\
  ky_consumer_id (ar_key record) = os_consumer (ow_settings o) /\
  fingerprint (wire_of o admission) = Some (ar_request_fingerprint record).
Proof.
  assert (Hown : own_identity o) by (intros i Hi; congruence).
  destruct (sessions_run_owner before o Hown) as [(Hs & Hi & Hp & _) Hb].
  destruct (accepted_record s _ _ _ Hb Ha) as (Hr & Hk & Hf).
  destruct (session_run_owner s _ Hb) as [_ Hb'].
  destruct (sessions_run_owner after _ Hb') as [(_ & Hi2 & Hp2 & Hkeep) Hown2].
  assert (Hfinal : ow_registered (sessions_run (before ++ s :: after) o) = Some (ar_owner record)).
  { unfold sessions_run. rewrite foldl_app. cbn [foldl]. by apply Hkeep. }
  destruct (Hb' _ Hr) as [Hid Hpid].
  destruct (session_run_owner s _ Hb) as [(_ & Hi3 & Hp3 & _) _].
  unfold wire_of in *. rewrite Hk. cbn in *. rewrite Hs in *. split_and!; congruence.
Qed.

(** What a request's answer says of it: refused only by DevGuard's own answer, which changed
    nothing, or before any session, when it is invalid; not sent when the owner's session ended
    before it, unregistered; and no answer that a failed transport may have lost is either. *)
Theorem answers_are_definite (credential : result DgErrorCode unit) (ss : Handshake)
    (answer : AttemptRequest -> AttemptKey -> result DgErrorCode AttemptRecord)
    (request : AttemptRequest) (admission : Admission) (o : Owner) :
  let w := wire_of o admission in
  match snd (attempt_request validate fingerprint credential ss answer request admission o) with
  | AnswerRefused code =>
      (validate w = false \/ fingerprint w = None) /\ code = DgInvalidRequest \/
      answer request (wa_key w) = Err code /\ code <> DgResourceControlUnavailable
  | NotSent r =>
      snd (open_with credential ss (request_compatibility request) o) = Err r /\
      (own_identity o -> rg_state r <> RgRegistered)
  | AnswerAttempt a => exists record, answer request (wa_key w) = Ok record /\
      at_phase a = ar_phase record
  | AnswerUnknown => exists r, snd (open_with credential ss (request_compatibility request) o) = Ok r
  end.
Proof.
  intros w. unfold attempt_request, session_for, wire. cbv zeta. fold w. clearbody w.
  destruct (validate w); [|by left; auto]. destruct (fingerprint w) as [fp|]; [|by left; auto].
  pose proof (open_with_owner credential ss (request_compatibility request) o) as Ho.
  destruct (open_with credential ss (request_compatibility request) o) as [o' [r|r]]; cbn.
  - destruct (answer request (wa_key w)) as [record|code].
    + destruct (read_record o' record (wa_key w) fp) as [| |a|] eqn:Hr; cbn; [..|by eauto].
      * unfold read_record in Hr. by destruct (_ || _).
      * unfold read_record in Hr. by destruct (_ || _).
      * exists record. split; [done|]. by apply read_record_attempt in Hr as (_ & _ & _ & ->).
    + destruct code; cbn; eauto; by right.
  - split; [done|]. intros Hown. destruct (Ho Hown) as (_ & _ & _ & He). by apply He.
Qed.
End session_properties.

(** * Witnesses *)

Definition concrete_metadata (path : list Component) : option FileMeta :=
  if bool_decide (path = [RootDir] \/ path = [RootDir; Normal "opt"])
  then Some (mkFileMeta true false 0 0 493 2)
  else if bool_decide (path = [RootDir; Normal "opt"; Normal "devguard-launch"])
  then Some (mkFileMeta false true 501 20 493 1)
  else None.

Lemma accepted_helper_is_private_witness :
  exists meta, concrete_metadata [RootDir; Normal "opt"; Normal "devguard-launch"] = Some meta /\
    ~ may_write 502 {[20%Z]} meta.
Proof.
  destruct (accepted_helper_is_private concrete_metadata 501 "/opt/devguard-launch"
              ltac:(vm_compute; reflexivity) 502 {[20%Z]} ltac:(done) ltac:(done)
              ltac:(set_solver)) as [(meta & Hm & _ & _ & _ & Hw) _].
  exists meta. split; [exact Hm|exact Hw].
Defined.

Definition concrete_owner : Owner :=
  mkOwner (mkOwnerSettings "/private/tmp/devguard-501/authority.sock" "codespace" "g1")
    "codespace-00" 4242 None.
Definition concrete_identity : InstanceIdentity := mkInstanceIdentity "codespace-00" 4242 "boot".
Definition concrete_handshake : Handshake :=
  mkHandshake (fun capabilities => Ok (mkHello 1 capabilities)) (Ok DgControlService)
    (Ok (mkServiceStatus true true true)) (Ok concrete_identity).
Definition concrete_admission : Admission :=
  mkAdmission "cs-attempt-1" "digest"
    (mkDgResourceRequest (mkQuantities 1000 1024 16) (mkLevels Accounted Accounted Accounted)).
Definition concrete_fingerprint (w : WireAdmission) : option string :=
  Some (wa_execution_digest w).
Definition concrete_record : AttemptRecord :=
  mkAttemptRecord (mkAttemptKey "codespace" "g1" "cs-attempt-1") "digest" concrete_identity
    Prepared None None None None None None false true.
Definition concrete_session : OwnerSession :=
  mkOwnerSession (Ok tt) concrete_handshake
    (SRequest RequestAdmit concrete_admission (fun _ _ => Ok concrete_record)).

Lemma accepted_records_are_the_owners_witness :
  ow_registered (sessions_run (fun _ => true) concrete_fingerprint
                   ([] ++ concrete_session :: []) concrete_owner) = Some concrete_identity.
Proof.
  destruct (accepted_records_are_the_owners (fun _ => true) concrete_fingerprint concrete_owner
              eq_refl [] [] concrete_session concrete_admission concrete_record
              ltac:(vm_compute; reflexivity)) as (H & _).
  exact H.
Defined.
