(* ===== verification/Registration.v ===== *)
(** The execution owner's registration with the resource authority, as the gateway reports it
    ([domain/resource_authority.rs], [runner/registration.rs] and the reports of
    [server/devguard.rs]): the values that reach a client, how each is made of what
    [Authority] found, and which session a report is of. *)
From S2P Require Import Prelude Domain Policy Authority.

(** * What a client sees ([domain/resource_authority.rs]) *)

Inductive ResourceAuthorityProvider := ProviderDevguard.

Inductive ResourceParticipation := ParticipationStatus | ParticipationRegistration.

Inductive ResourceOwner := OwnerInProcess | OwnerWorker.

Inductive ResourceRegistrationState :=
  | RrRegistered | RrUnavailable | RrUntrustedAuthority | RrIncompatible
  | RrCredentialUnavailable | RrCredentialRefused | RrRoleMismatch | RrNotReady | RrRefused
  | RrOwnerMismatch | RrOwnerUnreachable | RrUnsupportedMode.

#[export] Instance ResourceRegistrationState_eq_dec : EqDecision ResourceRegistrationState.
Proof. solve_decision. Defined.

Inductive ResourceAuthorityState :=
  | RaAvailable | RaUnavailable | RaUntrustedAuthority | RaIncompatible | RaCredentialRefused
  | RaCredentialUnavailable.

Inductive ResourceAuthorityErrorCode :=
  | RaUnauthorized | RaInvalidRequest | RaAttemptConflict | RaResourceUnavailable
  | RaResourceControlUnavailable | RaResourcePolicyUnsupported | RaInvalidTransition
  | RaNotFound | RaReconciliationRequired | RaJournalInvalid.

#[export] Instance ResourceAuthorityErrorCode_eq_dec : EqDecision ResourceAuthorityErrorCode.
Proof. solve_decision. Defined.

Inductive ResourceAuthorityCapability :=
  | RaDurableAdmission | RaFencedLaunch | RaPerResourceEvidence | RaStaticControlReservations
  | RaMacosCooperative | RaLinuxCgroupV2 | RaParentLease | RaUpgradeDrain.

Inductive ResourceAuthorityRole := RaWorkload | RaControlService | RaAdministrator.

Record ResourceRegistrationInfo := mkResourceRegistrationInfo {
  ri_owner : ResourceOwner;
  ri_state : ResourceRegistrationState;
  ri_error_code : option ResourceAuthorityErrorCode;
  ri_pid : option Z
}.

Record ResourceAuthorityReport := mkResourceAuthorityReport {
  rr_protocol : Z;
  rr_capabilities : list ResourceAuthorityCapability;
  rr_role : ResourceAuthorityRole;
  rr_storage_validated : bool;
  rr_registration_ready : bool;
  rr_execution_ready : bool
}.

Record ResourceAuthorityInfo := mkResourceAuthorityInfo {
  rai_provider : ResourceAuthorityProvider;
  rai_participation : ResourceParticipation;
  rai_governs_execution : bool;
  rai_state : ResourceAuthorityState;
  rai_error_code : option ResourceAuthorityErrorCode;
  rai_report : option ResourceAuthorityReport;
  rai_registration : option ResourceRegistrationInfo
}.

(** What [rename_all = "snake_case"] makes of the variants. *)
Definition ra_code_wire_name (c : ResourceAuthorityErrorCode) : string :=
  match c with
  | RaUnauthorized => "unauthorized"
  | RaInvalidRequest => "invalid_request"
  | RaAttemptConflict => "attempt_conflict"
  | RaResourceUnavailable => "resource_unavailable"
  | RaResourceControlUnavailable => "resource_control_unavailable"
  | RaResourcePolicyUnsupported => "resource_policy_unsupported"
  | RaInvalidTransition => "invalid_transition"
  | RaNotFound => "not_found"
  | RaReconciliationRequired => "reconciliation_required"
  | RaJournalInvalid => "journal_invalid"
  end.

Definition rr_wire_name (s : ResourceRegistrationState) : string :=
  match s with
  | RrRegistered => "registered"
  | RrUnavailable => "unavailable"
  | RrUntrustedAuthority => "untrusted_authority"
  | RrIncompatible => "incompatible"
  | RrCredentialUnavailable => "credential_unavailable"
  | RrCredentialRefused => "credential_refused"
  | RrRoleMismatch => "role_mismatch"
  | RrNotReady => "not_ready"
  | RrRefused => "refused"
  | RrOwnerMismatch => "owner_mismatch"
  | RrOwnerUnreachable => "owner_unreachable"
  | RrUnsupportedMode => "unsupported_mode"
  end.

Definition ra_capability_wire_name (c : ResourceAuthorityCapability) : string :=
  match c with
  | RaDurableAdmission => "durable_admission"
  | RaFencedLaunch => "fenced_launch"
  | RaPerResourceEvidence => "per_resource_evidence"
  | RaStaticControlReservations => "static_control_reservations"
  | RaMacosCooperative => "macos_cooperative"
  | RaLinuxCgroupV2 => "linux_cgroup_v2"
  | RaParentLease => "parent_lease"
  | RaUpgradeDrain => "upgrade_drain"
  end.

Definition ra_role_wire_name (r : ResourceAuthorityRole) : string :=
  match r with
  | RaWorkload => "workload"
  | RaControlService => "control_service"
  | RaAdministrator => "administrator"
  end.

(** * The reports ([runner/registration.rs]) *)

Definition registration_state (state : RegistrationState) : ResourceRegistrationState :=
  match state with
  | RgRegistered => RrRegistered
  | RgUnavailable => RrUnavailable
  | RgUntrustedAuthority => RrUntrustedAuthority
  | RgIncompatible => RrIncompatible
  | RgCredentialUnavailable => RrCredentialUnavailable
  | RgCredentialRefused => RrCredentialRefused
  | RgRoleMismatch => RrRoleMismatch
  | RgNotReady => RrNotReady
  | RgRefused => RrRefused
  | RgOwnerMismatch => RrOwnerMismatch
  end.

Definition error_code (code : DgErrorCode) : ResourceAuthorityErrorCode :=
  match code with
  | DgUnauthorized => RaUnauthorized
  | DgInvalidRequest => RaInvalidRequest
  | DgAttemptConflict => RaAttemptConflict
  | DgResourceUnavailable => RaResourceUnavailable
  | DgResourceControlUnavailable => RaResourceControlUnavailable
  | DgResourcePolicyUnsupported => RaResourcePolicyUnsupported
  | DgInvalidTransition => RaInvalidTransition
  | DgNotFound => RaNotFound
  | DgReconciliationRequired => RaReconciliationRequired
  | DgJournalInvalid => RaJournalInvalid
  end.

Definition capability (capability : DgCapability) : ResourceAuthorityCapability :=
  match capability with
  | DgDurableAdmission => RaDurableAdmission
  | DgFencedLaunch => RaFencedLaunch
  | DgPerResourceEvidence => RaPerResourceEvidence
  | DgStaticControlReservations => RaStaticControlReservations
  | DgMacosCooperative => RaMacosCooperative
  | DgLinuxCgroupV2 => RaLinuxCgroupV2
  | DgParentLease => RaParentLease
  | DgUpgradeDrain => RaUpgradeDrain
  end.

Definition role (role : DgRole) : ResourceAuthorityRole :=
  match role with
  | DgWorkload => RaWorkload
  | DgControlService => RaControlService
  | DgAdministrator => RaAdministrator
  end.

Definition authority_state (state : DgState) : ResourceAuthorityState :=
  match state with
  | StAvailable => RaAvailable
  | StUnavailable => RaUnavailable
  | StUntrustedAuthority => RaUntrustedAuthority
  | StIncompatible => RaIncompatible
  | StCredentialRefused => RaCredentialRefused
  | StCredentialUnavailable => RaCredentialUnavailable
  end.

Definition authority_info (status : Status) (participation : ResourceParticipation)
    (registration : option ResourceRegistrationInfo) : ResourceAuthorityInfo :=
  mkResourceAuthorityInfo ProviderDevguard participation false (authority_state (st_state status))
    (error_code <$> st_error_code status)
    ((fun report => mkResourceAuthorityReport (rp_protocol report)
        (capability <$> rp_capabilities report) (role (rp_role report))
        (rp_storage_validated report) (rp_registration_ready report) (rp_execution_ready report))
       <$> st_report status)
    registration.

Definition status_info (status : Status) : ResourceAuthorityInfo :=
  authority_info status ParticipationStatus None.

Definition registration_info (registration : Registration) (owner : ResourceOwner)
    : ResourceAuthorityInfo :=
  authority_info (rg_status registration) ParticipationRegistration
    (Some (mkResourceRegistrationInfo owner (registration_state (rg_state registration))
             (error_code <$> rg_error_code registration) (rg_pid registration))).

Definition not_registered (owner : ResourceOwner) (state : ResourceRegistrationState)
    : ResourceAuthorityInfo :=
  mkResourceAuthorityInfo ProviderDevguard ParticipationRegistration false RaUnavailable None None
    (Some (mkResourceRegistrationInfo owner state None None)).

(** ** Whose session a report is of *)

(** One call under the mutex of [OwnerRegistration], or of the gateway's [ResourceAuthority]: when
    it arrived, when the session that it would run starts, and what that session finds, if the
    thread that runs it finishes. *)
Record Asked (S : Type) := mkAsked {
  ak_arrived : Z;
  ak_started : Z;
  ak_session : option S
}.
Arguments mkAsked {S} _ _ _.
Arguments ak_arrived {S} _.
Arguments ak_started {S} _.
Arguments ak_session {S} _.

Abbreviation Last := (option (Z * ResourceAuthorityInfo)).

Definition cached (arrived : Z) (last : Last) : option ResourceAuthorityInfo :=
  match last with
  | Some (started, info) => if bool_decide (arrived <= started)%Z then Some info else None
  | None => None
  end.

(** [OwnerRegistration::report]. *)
Definition found_by (kind : ResourceOwner) (session : option Registration)
    : ResourceAuthorityInfo :=
  match session with
  | Some registration => registration_info registration kind
  | None => not_registered kind RrUnavailable
  end.

Definition report (kind : ResourceOwner) (a : Asked Registration) (last : Last)
    : ResourceAuthorityInfo * Last :=
  match cached (ak_arrived a) last with
  | Some info => (info, last)
  | None =>
      let info := found_by kind (ak_session a) in
      (info, Some (ak_started a, info))
  end.

(** [ResourceAuthority::status] of the gateway. *)
Definition probed (session : option Status) : ResourceAuthorityInfo :=
  status_info (default (mkStatus StUnavailable None None) session).

Definition status (a : Asked Status) (last : Last) : ResourceAuthorityInfo * Last :=
  match cached (ak_arrived a) last with
  | Some info => (info, last)
  | None =>
      let info := probed (ak_session a) in
      (info, Some (ak_started a, info))
  end.

(** The calls in the order in which they got the mutex. *)
Fixpoint reports (kind : ResourceOwner) (calls : list (Asked Registration)) (last : Last)
    : list ResourceAuthorityInfo * Last :=
  match calls with
  | [] => ([], last)
  | a :: calls =>
      let (info, last) := report kind a last in
      let (infos, last) := reports kind calls last in (info :: infos, last)
  end.

(** * Properties *)

(** Every value that reaches a client keeps DevGuard's name. *)
Lemma names_are_devguards (c : DgErrorCode) (k : DgCapability) (r : DgRole) :
  ra_code_wire_name (error_code c) = dg_code_wire_name c /\
  ra_capability_wire_name (capability k) = dg_capability_wire_name k /\
  ra_role_wire_name (role r) = dg_role_wire_name r.
Proof. by destruct c, k, r. Qed.

Lemma authority_state_available st :
  authority_state st = RaAvailable <-> st = StAvailable.
Proof. by destruct st. Qed.

(** What a mutex holds is what one of the calls' sessions found. *)
Definition from_session (kind : ResourceOwner) (ran : list (Asked Registration)) (last : Last)
    : Prop :=
  match last with
  | None => True
  | Some (started, info) =>
      exists a, a ∈ ran /\ ak_started a = started /\ info = found_by kind (ak_session a)
  end.

Lemma report_fresh kind ran a last :
  from_session kind ran last -> (ak_arrived a <= ak_started a)%Z ->
  from_session kind (ran ++ [a]) (report kind a last).2 /\
  exists b, b ∈ ran ++ [a] /\ (ak_arrived a <= ak_started b)%Z /\
    (report kind a last).1 = found_by kind (ak_session b).
Proof.
  intros Hl Ha. unfold report.
  assert (Hnew : from_session kind (ran ++ [a])
                   (Some (ak_started a, found_by kind (ak_session a)))).
  { exists a. set_solver. }
  destruct last as [[t info]|]; cbn [cached].
  - destruct Hl as (b & Hb & <- & ->). case_bool_decide; cbn.
    + split; [exists b; set_solver|]. exists b. set_solver.
    + split; [done|]. exists a. set_solver.
  - cbn. split; [done|]. exists a. set_solver.
Qed.

(** Every report of the owner's registration is of a session that started after its call
    arrived, whatever calls wait for one another: with a clock that no call's session starts
    before the call, the [i]-th report is what the session of some call up to the [i]-th found,
    and that session started no earlier than the [i]-th call arrived. *)
Theorem reports_are_fresh (kind : ResourceOwner) (calls : list (Asked Registration))
    (Hclock : forall a, a ∈ calls -> (ak_arrived a <= ak_started a)%Z)
    (i : nat) (a : Asked Registration) (Hi : calls !! i = Some a) :
  exists b, b ∈ take (S i) calls /\ (ak_arrived a <= ak_started b)%Z /\
    (reports kind calls None).1 !! i = Some (found_by kind (ak_session b)).
Proof.
  enough (forall ran last, from_session kind ran last ->
            exists b, b ∈ ran ++ take (S i) calls /\ (ak_arrived a <= ak_started b)%Z /\
              (reports kind calls last).1 !! i = Some (found_by kind (ak_session b))) as H
    by exact (H [] None I).
  revert i Hi. induction calls as [|c calls IH]; intros i Hi ran last Hl; [done|]. cbn.
  destruct (report_fresh kind ran c last Hl) as [Hl' Hb]; [apply Hclock; set_solver|].
  destruct (report kind c last) as [info last'] eqn:Hr. cbn in Hl', Hb.
  destruct (reports kind calls last') as [infos last''] eqn:Hrs.
  destruct i as [|i]; cbn in Hi |- *.
  - injection Hi as ->. destruct Hb as (b & ? & ? & ->). exists b. set_solver.
  - destruct (IH ltac:(set_solver) i Hi (ran ++ [c]) last' Hl') as (b & Hin & ? & Hlook).
    rewrite Hrs in Hlook. exists b. rewrite <- app_assoc in Hin. cbn in Hin. done.
Qed.

Lemma reports_are_fresh_witness :
  exists b, b ∈ take 2 [mkAsked 1 3 None; mkAsked 2 4 None] /\ (2 <= ak_started b)%Z /\
    (reports OwnerWorker [mkAsked 1 3 None; mkAsked 2 4 None] None).1 !! 1
      = Some (found_by OwnerWorker (ak_session b)).
Proof.
  apply (reports_are_fresh OwnerWorker [mkAsked 1 3 None; mkAsked 2 4 None]) with (a := mkAsked 2 4 None).
  - intros a Ha. repeat (apply elem_of_cons in Ha as [->|Ha]; [cbn; lia|]).
    by apply elem_of_nil in Ha.
  - reflexivity.
Defined.
