(* ===== verification/Resource.v ===== *)
(** The in-memory resource serializer of [crates/store/src/resource.rs] and its tickets and
    guards in [crates/store/src/lib.rs]: exclusive and shared holders, the per-resource FIFO of
    waiters, and the oneshot channels a waiter is answered on. *)
From S2P Require Import Prelude Domain.

(** * Data *)

Inductive Resource :=
  | Environment (id : string)
  | Workspace (id : string)
  | Path (workspace path : string)
  | Process (id : string)
  | Operation (id : string)
  | Watch (id : string).

#[export] Instance Resource_eq_dec : EqDecision Resource.
Proof. solve_decision. Defined.

#[export] Instance Resource_countable : Countable Resource.
Proof.
  refine (inj_countable'
    (fun r => match r with
              | Environment s => (0, s, "") | Workspace s => (1, s, "")
              | Path w p => (2, w, p) | Process s => (3, s, "")
              | Operation s => (4, s, "") | Watch s => (5, s, "") end)
    (fun t => match t with
              | (0, s, _) => Environment s | (1, s, _) => Workspace s
              | (2, w, p) => Path w p | (3, s, _) => Process s
              | (4, s, _) => Operation s | (_, s, _) => Watch s end) _).
  by intros [].
Defined.

Inductive LockMode := Exclusive | SharedRead.

#[export] Instance LockMode_eq_dec : EqDecision LockMode.
Proof. solve_decision. Defined.

(** [Process] of the source's holder is [HeldProcess] here. *)
Inductive ExclusiveHolder :=
  | Request
  | Spawning (process_id : string)
  | HeldProcess (process_id : string).

#[export] Instance ExclusiveHolder_eq_dec : EqDecision ExclusiveHolder.
Proof. solve_decision. Defined.

Record Waiter := mkWaiter {
  wt_id : Z;
  wt_mode : LockMode;
  wt_owner : ExclusiveHolder;
  (** The sending end of the waiter's oneshot channel. *)
  wt_tx : nat
}.

(** A [tokio::sync::oneshot] channel: nothing sent yet, a value waiting for its receiver, the
    value received, the sender dropped unused, or the receiver dropped. *)
Inductive Channel :=
  | ChanOpen
  | ChanSent (value : res unit)
  | ChanReceived
  | ChanSenderGone
  | ChanReceiverGone.

(** [ResourceSerializer], with the heap of the channels it created. *)
Record Serializer := mkSerializer {
  exclusive : gmap Resource ExclusiveHolder;
  shared : gmap Resource Z;
  waiters : gmap Resource (list Waiter);
  next_waiter : Z;
  channels : gmap nat Channel;
  next_channel : nat
}.

Definition serializer_default : Serializer := mkSerializer ∅ ∅ ∅ 0 ∅ 0.

Inductive AcquireOutcome :=
  | OGranted
  | OBusy (e : ErrorBody)
  | OWaiting (id : Z) (rx : nat).

Definition set_exclusive (s : Serializer) (m : gmap Resource ExclusiveHolder) : Serializer :=
  mkSerializer m (shared s) (waiters s) (next_waiter s) (channels s) (next_channel s).
Definition set_shared (s : Serializer) (m : gmap Resource Z) : Serializer :=
  mkSerializer (exclusive s) m (waiters s) (next_waiter s) (channels s) (next_channel s).
Definition set_waiters (s : Serializer) (m : gmap Resource (list Waiter)) : Serializer :=
  mkSerializer (exclusive s) (shared s) m (next_waiter s) (channels s) (next_channel s).
Definition set_channels (s : Serializer) (m : gmap nat Channel) : Serializer :=
  mkSerializer (exclusive s) (shared s) (waiters s) (next_waiter s) m (next_channel s).

(** * Errors *)

Definition MAX_WAITERS_PER_RESOURCE : nat := 64.

Definition busy (r : Resource) : ErrorBody :=
  error_body WorkspaceBusy
    match r with
    | Workspace _ => "workspace write lock is held"
    | Environment _ => "environment lock is held"
    | Path _ _ => "path lock is held"
    | Process _ => "process lock is held"
    | Operation _ => "operation lock is held"
    | Watch _ => "watch lock is held"
    end.

Definition shell_busy : ErrorBody := error_body WorkspaceBusy "workspace has a busy shell".

Definition queue_full : ErrorBody :=
  error_body ResourceQueueFull "resource waiter queue exceeds 64".

Definition process_held_busy (r : Resource) : ErrorBody :=
  match r with Workspace _ => shell_busy | _ => busy r end.

Definition write_lock_held : ErrorBody :=
  error_body WorkspaceBusy "workspace write lock is held".

Definition waiter_closed_error : ErrorBody := error_body Internal "resource waiter closed".

(** * Queries *)

Definition queue_of (s : Serializer) (r : Resource) : list Waiter :=
  default [] (waiters s !! r).

Definition shared_count (s : Serializer) (r : Resource) : Z := default 0%Z (shared s !! r).

Definition waiter_count_unlocked (s : Serializer) (r : Resource) : nat :=
  length (queue_of s r).

Definition has_waiters (s : Serializer) (r : Resource) : bool :=
  bool_decide (0 < waiter_count_unlocked s r).

Definition has_exclusive_waiter (s : Serializer) (r : Resource) : bool :=
  existsb (fun w => bool_decide (wt_mode w = Exclusive)) (queue_of s r).

Definition process_held (s : Serializer) (r : Resource) : bool :=
  match r, exclusive s !! r with
  | Workspace _, Some (HeldProcess _) => true
  | _, _ => false
  end.

Definition can_grant (s : Serializer) (r : Resource) (mode : LockMode) : bool :=
  match mode with
  | SharedRead => is_none (exclusive s !! r)
  | Exclusive => is_none (exclusive s !! r) && bool_decide (shared_count s r = 0%Z)
  end.

Definition can_try_grant (s : Serializer) (r : Resource) (mode : LockMode) : bool :=
  match mode with
  | SharedRead => can_grant s r mode && negb (has_exclusive_waiter s r)
  | Exclusive => can_grant s r mode && negb (has_waiters s r)
  end.

(** * Granting, waking and releasing *)

Definition grant (s : Serializer) (r : Resource) (mode : LockMode) (owner : ExclusiveHolder)
    : Serializer :=
  match mode with
  | SharedRead => set_shared s (<[r := (shared_count s r + 1)%Z]> (shared s))
  | Exclusive => set_exclusive s (<[r := owner]> (exclusive s))
  end.

(** [oneshot::Sender::send]: fails when the receiver is gone. *)
Definition send (s : Serializer) (tx : nat) (v : res unit) : bool * Serializer :=
  match channels s !! tx with
  | Some ChanOpen => (true, set_channels s (<[tx := ChanSent v]> (channels s)))
  | _ => (false, s)
  end.

Definition unlock_silent (s : Serializer) (r : Resource) (mode : LockMode) : Serializer :=
  match mode with
  | SharedRead =>
      match shared s !! r with
      | Some count =>
          let count' := saturating_sub count 1 in
          set_shared s (if bool_decide (count' = 0%Z) then delete r (shared s)
                        else <[r := count']> (shared s))
      | None => s
      end
  | Exclusive => set_exclusive s (delete r (exclusive s))
  end.

(** The loop of [wake] on the resource's queue: what is left of the queue, and the state. *)
Fixpoint wake_queue (r : Resource) (q : list Waiter) (s : Serializer)
    : list Waiter * Serializer :=
  match q with
  | [] => ([], s)
  | w :: q' =>
      if can_grant s r (wt_mode w) then
        let s1 := grant s r (wt_mode w) (wt_owner w) in
        let (sent, s2) := send s1 (wt_tx w) (Ok tt) in
        if negb sent then wake_queue r q' (unlock_silent s2 r (wt_mode w))
        else match wt_mode w with
             | Exclusive => (q', s2)
             | SharedRead => wake_queue r q' s2
             end
      else (w :: q', s)
  end.

(** An emptied queue leaves the map. *)
Definition put_queue (s : Serializer) (r : Resource) (q : list Waiter) : Serializer :=
  set_waiters s match q with [] => delete r (waiters s) | _ => <[r := q]> (waiters s) end.

Definition wake (s : Serializer) (r : Resource) : Serializer :=
  let (rest, s') := wake_queue r (queue_of s r) s in put_queue s' r rest.

Definition send_all (v : res unit) (q : list Waiter) (s : Serializer) : Serializer :=
  foldl (fun s w => (send s (wt_tx w) v).2) s q.

Definition fail_waiters (s : Serializer) (r : Resource) (e : ErrorBody) : Serializer :=
  match waiters s !! r with
  | None => s
  | Some q => send_all (Err e) q (set_waiters s (delete r (waiters s)))
  end.

Definition enqueue (s : Serializer) (r : Resource) (mode : LockMode) (owner : ExclusiveHolder)
    : Z * nat * Serializer :=
  let id := next_waiter s in
  let tx := next_channel s in
  let w := mkWaiter id mode owner tx in
  (id, tx,
   mkSerializer (exclusive s) (shared s) (<[r := queue_of s r ++ [w]]> (waiters s))
     (as_u64 (id + 1)) (<[tx := ChanOpen]> (channels s)) (S tx)).

Definition acquire (s : Serializer) (r : Resource) (mode : LockMode) (owner : ExclusiveHolder)
    : AcquireOutcome * Serializer :=
  if process_held s r then (OBusy (process_held_busy r), s)
  else
    let fairness_blocks := bool_decide (mode = SharedRead) && has_exclusive_waiter s r in
    if can_grant s r mode && negb fairness_blocks
       && (bool_decide (mode = SharedRead) || negb (has_waiters s r))
    then (OGranted, grant s r mode owner)
    else if bool_decide (MAX_WAITERS_PER_RESOURCE <= waiter_count_unlocked s r)
    then (OBusy queue_full, s)
    else let '(id, rx, s') := enqueue s r mode owner in (OWaiting id rx, wake s' r).

(** * Operations *)

Definition try_exclusive_write (s : Serializer) (workspace_id : string)
    : res unit * Serializer :=
  let r := Workspace workspace_id in
  let s := wake s r in
  if process_held s r then (Err shell_busy, s)
  else if is_some (exclusive s !! r) || bool_decide (0 < shared_count s r)%Z || has_waiters s r
  then (Err write_lock_held, s)
  else (Ok tt, grant s r Exclusive Request).

Definition acquire_exclusive_write (s : Serializer) (workspace_id : string)
    : AcquireOutcome * Serializer :=
  acquire s (Workspace workspace_id) Exclusive Request.

Definition release_write (s : Serializer) (workspace_id : string) : Serializer :=
  let r := Workspace workspace_id in
  match exclusive s !! r with
  | Some Request => wake (set_exclusive s (delete r (exclusive s))) r
  | _ => s
  end.

Definition mark_shell_busy (s : Serializer) (workspace_id process_id : string)
    : res unit * Serializer :=
  let r := Workspace workspace_id in
  let s := wake s r in
  if is_some (exclusive s !! r) || bool_decide (0 < shared_count s r)%Z || has_waiters s r
  then (Err write_lock_held, s)
  else (Ok tt, grant s r Exclusive (HeldProcess process_id)).

Definition acquire_shell_busy (s : Serializer) (workspace_id process_id : string)
    : AcquireOutcome * Serializer :=
  acquire s (Workspace workspace_id) Exclusive (Spawning process_id).

(** The resources that an [exclusive] entry satisfying [p] holds. *)
Definition holding (p : ExclusiveHolder -> bool) (s : Serializer) : list Resource :=
  (map_to_list (filter (fun kv => p kv.2) (exclusive s))).*1.

Definition confirm_holder (process_id : string) (h : ExclusiveHolder) : ExclusiveHolder :=
  if bool_decide (h = Spawning process_id) then HeldProcess process_id else h.

Definition confirm_process (s : Serializer) (process_id : string) : Serializer :=
  let targets := holding (fun h => bool_decide (h = Spawning process_id)) s in
  let s := set_exclusive s (confirm_holder process_id <$> exclusive s) in
  foldl (fun s r => fail_waiters s r shell_busy) s targets.

Definition hold_process (s : Serializer) (workspace_id process_id : string)
    : res unit * Serializer :=
  let r := Workspace workspace_id in
  let take := fail_waiters (grant s r Exclusive (HeldProcess process_id)) r shell_busy in
  match exclusive s !! r with
  | Some (HeldProcess id) =>
      if bool_decide (id = process_id) then (Ok tt, s) else (Err (busy r), s)
  | Some (Spawning id) =>
      if bool_decide (id = process_id) then (Ok tt, take) else (Err (busy r), s)
  | Some Request => (Err (busy r), s)
  | None => if bool_decide (0 < shared_count s r)%Z then (Err (busy r), s) else (Ok tt, take)
  end.

Definition clear_shell (s : Serializer) (workspace_id : string) : Serializer :=
  let r := Workspace workspace_id in
  match exclusive s !! r with
  | Some (HeldProcess _) => wake (set_exclusive s (delete r (exclusive s))) r
  | _ => s
  end.

(** [release_matching], then [wake] of each released resource. *)
Definition release_matching (p : ExclusiveHolder -> bool) (s : Serializer)
    : list Resource * Serializer :=
  (holding p s, set_exclusive s (filter (fun kv => negb (p kv.2)) (exclusive s))).

Definition wake_all (s : Serializer) (rs : list Resource) : Serializer := foldl wake s rs.

Definition is_process_holder (h : ExclusiveHolder) : bool :=
  match h with Spawning _ | HeldProcess _ => true | Request => false end.

Definition held_by (process_id : string) (h : ExclusiveHolder) : bool :=
  match h with
  | Spawning id | HeldProcess id => bool_decide (id = process_id)
  | Request => false
  end.

Definition release_process (s : Serializer) (process_id : string) : Serializer :=
  let (released, s) := release_matching (held_by process_id) s in wake_all s released.

Definition release_all_processes (s : Serializer) : Serializer :=
  let (released, s) := release_matching is_process_holder s in wake_all s released.

Definition try_lock (s : Serializer) (r : Resource) (mode : LockMode) : res unit * Serializer :=
  let s := wake s r in
  if can_try_grant s r mode then (Ok tt, grant s r mode Request) else (Err (busy r), s).

Definition acquire_lock (s : Serializer) (r : Resource) (mode : LockMode)
    : AcquireOutcome * Serializer :=
  acquire s r mode Request.

Definition unlock (s : Serializer) (r : Resource) (mode : LockMode) : Serializer :=
  wake (unlock_silent s r mode) r.

(** Removing a waiter drops its sender. *)
Definition drop_senders (q : list Waiter) (s : Serializer) : Serializer :=
  set_channels s
    (foldl (fun m w => match m !! wt_tx w with
                       | Some ChanOpen => <[wt_tx w := ChanSenderGone]> m
                       | _ => m
                       end) (channels s) q).

Definition cancel_waiter (s : Serializer) (r : Resource) (id : Z) : bool * Serializer :=
  match waiters s !! r with
  | None => (false, s)
  | Some q =>
      let kept := filter (fun w => wt_id w <> id) q in
      let gone := filter (fun w => wt_id w = id) q in
      let removed := bool_decide (length kept <> length q) in
      let s := drop_senders gone (put_queue s r kept) in
      (removed, if removed then wake s r else s)
  end.

(** * Tickets and guards ([lib.rs]) *)

Record WaitTicket := mkWaitTicket {
  tk_resource : Resource;
  tk_mode : LockMode;
  tk_id : Z;
  tk_rx : nat
}.

(** One poll of [WaitTicket::wait]: the value its channel holds, if one arrived. *)
Definition ticket_poll (s : Serializer) (t : WaitTicket) : option (res unit * Serializer) :=
  match channels s !! tk_rx t with
  | Some (ChanSent v) => Some (v, set_channels s (<[tk_rx t := ChanReceived]> (channels s)))
  | Some ChanSenderGone => Some (Err waiter_closed_error, s)
  | _ => None
  end.

(** [Drop] of a ticket that has not finished: the waiter leaves its queue, or the lock that was
    granted to it unnoticed is given back; then the receiver is gone. *)
Definition ticket_drop (s : Serializer) (t : WaitTicket) : Serializer :=
  let (removed, s1) := cancel_waiter s (tk_resource t) (tk_id t) in
  let s2 :=
    if removed then s1
    else match channels s1 !! tk_rx t with
         | Some (ChanSent (Ok _)) => unlock s1 (tk_resource t) (tk_mode t)
         | _ => s1
         end in
  set_channels s2 (<[tk_rx t := ChanReceiverGone]> (channels s2)).

(** [complete_acquire] with the ticket's wait left to the caller. *)
Definition complete_acquire (r : Resource) (mode : LockMode) (outcome : AcquireOutcome)
    : res unit + WaitTicket :=
  match outcome with
  | OGranted => inl (Ok tt)
  | OBusy e => inl (Err e)
  | OWaiting id rx => inr (mkWaitTicket r mode id rx)
  end.

Inductive ReservationPhase := PreDispatch | Dispatching | Confirmed | Aborted.

Record ProcessReservation := mkProcessReservation {
  rv_process_id : string;
  rv_phase : ReservationPhase
}.

Definition arm_dispatch (rv : ProcessReservation) : ProcessReservation :=
  match rv_phase rv with
  | PreDispatch => mkProcessReservation (rv_process_id rv) Dispatching
  | _ => rv
  end.

Definition reservation_drop (s : Serializer) (rv : ProcessReservation) : Serializer :=
  match rv_phase rv with
  | PreDispatch => release_process s (rv_process_id rv)
  | _ => s
  end.

(** [confirm] and [abort] consume the reservation, so its [drop] follows in its new phase. *)
Definition reservation_confirm (s : Serializer) (rv : ProcessReservation) : Serializer :=
  reservation_drop (confirm_process s (rv_process_id rv))
    (mkProcessReservation (rv_process_id rv) Confirmed).

Definition reservation_abort (s : Serializer) (rv : ProcessReservation) : Serializer :=
  reservation_drop (release_process s (rv_process_id rv))
    (mkProcessReservation (rv_process_id rv) Aborted).

(** * The invariant *)

(** A queued waiter never asks to become a confirmed process, and asks to spawn one only on a
    workspace, exclusively. *)
Definition waiter_ok (r : Resource) (w : Waiter) : Prop :=
  match wt_owner w with
  | Request => True
  | Spawning _ => wt_mode w = Exclusive /\ exists ws, r = Workspace ws
  | HeldProcess _ => False
  end.

Definition holder_ok (r : Resource) (h : ExclusiveHolder) : Prop :=
  is_process_holder h -> exists ws, r = Workspace ws.

(** What holds at one resource, whatever the others are. *)
Record local_ok (r : Resource) (e : option ExclusiveHolder) (n : option Z)
    (q : option (list Waiter)) : Prop := {
  lo_disjoint : e = None \/ n = None;
  lo_shared : forall k, n = Some k -> (0 < k)%Z;
  lo_nonempty : q <> Some [];
  lo_bound : length (default [] q) <= MAX_WAITERS_PER_RESOURCE;
  lo_waiters : Forall (waiter_ok r) (default [] q);
  lo_holder : forall h, e = Some h -> holder_ok r h;
  lo_barrier : forall p, e = Some (HeldProcess p) -> q = None
}.

(** No wakeup is lost: the first waiter of a queue could not be granted now. *)
Definition front_blocked (s : Serializer) (r : Resource) : Prop :=
  match queue_of s r with
  | [] => True
  | w :: _ => can_grant s r (wt_mode w) = false
  end.

(** [serializer_inv F]: the invariant, where the resources in [F] still wait to be woken. *)
Record serializer_inv (F : Resource -> Prop) (s : Serializer) : Prop := {
  si_local : forall r, local_ok r (exclusive s !! r) (shared s !! r) (waiters s !! r);
  si_front : forall r, ~ F r -> front_blocked s r;
  si_open : forall r w, w ∈ queue_of s r -> channels s !! wt_tx w = Some ChanOpen;
  si_nodup : forall r, NoDup (wt_tx <$> queue_of s r);
  si_apart : forall r1 r2 w1 w2, w1 ∈ queue_of s r1 -> w2 ∈ queue_of s r2 ->
    wt_tx w1 = wt_tx w2 -> r1 = r2;
  si_fresh : forall c, is_Some (channels s !! c) -> c < next_channel s
}.

Abbreviation none_exempt := (fun _ : Resource => False).

Lemma serializer_inv_mono F G s :
  (forall r, F r -> G r) -> serializer_inv F s -> serializer_inv G s.
Proof. intros HFG []; split; auto. Qed.

Lemma can_grant_ext s s' r m :
  exclusive s !! r = exclusive s' !! r -> shared s !! r = shared s' !! r ->
  can_grant s r m = can_grant s' r m.
Proof. intros He Hs. unfold can_grant, shared_count. by rewrite He, Hs. Qed.

Lemma send_frame s tx v b s' :
  send s tx v = (b, s') ->
  exclusive s' = exclusive s /\ shared s' = shared s /\ waiters s' = waiters s /\
  next_waiter s' = next_waiter s /\ next_channel s' = next_channel s /\
  (forall c, c <> tx -> channels s' !! c = channels s !! c) /\
  (channels s !! tx = Some ChanOpen ->
   b = true /\ channels s' !! tx = Some (ChanSent v)) /\
  (forall c, is_Some (channels s' !! c) <-> is_Some (channels s !! c)).
Proof.
  unfold send. intros Hs.
  destruct (channels s !! tx) as [[]|] eqn:E; simplify_eq; cbn; split_and!; auto; try done.
  - intros c Hc. by rewrite lookup_insert_ne.
  - intros _. by rewrite lookup_insert_eq.
  - intros c. destruct (decide (c = tx)) as [->|]; [|by rewrite lookup_insert_ne].
    rewrite lookup_insert_eq, E. split; eauto.
Qed.

Lemma grant_frame s r m o :
  waiters (grant s r m o) = waiters s /\ channels (grant s r m o) = channels s /\
  next_waiter (grant s r m o) = next_waiter s /\
  next_channel (grant s r m o) = next_channel s /\
  (forall r', r' <> r -> exclusive (grant s r m o) !! r' = exclusive s !! r') /\
  (forall r', r' <> r -> shared (grant s r m o) !! r' = shared s !! r').
Proof.
  unfold grant. destruct m; cbn; split_and!; auto; intros r' Hr'; by rewrite lookup_insert_ne.
Qed.

Lemma grant_here s r m o :
  match m with
  | Exclusive => exclusive (grant s r m o) !! r = Some o /\
                 shared (grant s r m o) !! r = shared s !! r
  | SharedRead => exclusive (grant s r m o) !! r = exclusive s !! r /\
                 shared (grant s r m o) !! r = Some (shared_count s r + 1)%Z
  end.
Proof. destruct m; cbn; by rewrite lookup_insert_eq. Qed.

Lemma can_grant_free s r m :
  can_grant s r m = true ->
  exclusive s !! r = None /\
  (m = Exclusive -> (forall k, shared s !! r = Some k -> (0 < k)%Z) -> shared s !! r = None).
Proof.
  unfold can_grant, is_none, shared_count.
  destruct m; destruct (exclusive s !! r) eqn:E; try done; cbn.
  rewrite bool_decide_eq_true. intros H0. split; [done|]. intros _ Hp.
  destruct (shared s !! r) as [k|] eqn:Es; [|done]. specialize (Hp k eq_refl). cbn in H0. lia.
Qed.

(** Granting keeps a resource well formed and never unblocks a front waiter. *)
Lemma grant_local s r m o q :
  can_grant s r m = true -> q <> Some [] -> holder_ok r o ->
  (forall p, m = Exclusive -> o = HeldProcess p -> q = None) ->
  local_ok r (exclusive s !! r) (shared s !! r) q ->
  local_ok r (exclusive (grant s r m o) !! r) (shared (grant s r m o) !! r) q.
Proof.
  intros Hg Hq Ho Hb [D S N B W H P].
  destruct (can_grant_free _ _ _ Hg) as [He Hs].
  pose proof (grant_here s r m o) as Hh. destruct m; destruct Hh as [-> ->].
  - specialize (Hs eq_refl S). rewrite Hs in *. split; auto.
    + intros h [= <-]; done.
    + intros p [= ->]. by apply (Hb p).
  - rewrite He in *. split; auto.
    intros k [= <-]. unfold shared_count.
    destruct (shared s !! r) as [k|]; cbn; [specialize (S k eq_refl)|]; lia.
Qed.

Lemma grant_blocks s r m o r' m' :
  (forall k, shared s !! r = Some k -> (0 < k)%Z) ->
  can_grant s r' m' = false -> can_grant (grant s r m o) r' m' = false.
Proof.
  intros Hp Hb. destruct (decide (r' = r)) as [->|Hne].
  - pose proof (grant_here s r m o) as Hh. unfold can_grant, shared_count in *.
    destruct m; destruct Hh as [-> ->]; destruct m'; auto.
    destruct (exclusive s !! r); [done|]. cbn in *.
    apply bool_decide_eq_false. unfold shared_count.
    destruct (shared s !! r) as [k|]; cbn; [specialize (Hp k eq_refl)|]; lia.
  - destruct (grant_frame s r m o) as (_ & _ & _ & _ & He & Hs).
    rewrite (can_grant_ext _ s); auto.
Qed.

(** What waking a queue does: a prefix of it is granted, in order, each waiter told so on its
    channel; the rest stays, its first waiter blocked; nothing else changes. *)
Record wake_queue_result (r : Resource) (q : list Waiter) (s : Serializer)
    (rest : list Waiter) (s' : Serializer) (g : list Waiter) : Prop := {
  wq_split : q = g ++ rest;
  wq_waiters : waiters s' = waiters s;
  wq_next : next_waiter s' = next_waiter s /\ next_channel s' = next_channel s;
  wq_else : forall r', r' <> r ->
    exclusive s' !! r' = exclusive s !! r' /\ shared s' !! r' = shared s !! r';
  wq_local : local_ok r (exclusive s' !! r) (shared s' !! r) None;
  wq_front : match rest with [] => True | w :: _ => can_grant s' r (wt_mode w) = false end;
  wq_other : forall c, c ∉ wt_tx <$> g -> channels s' !! c = channels s !! c;
  wq_told : forall w, w ∈ g -> channels s' !! wt_tx w = Some (ChanSent (Ok tt));
  wq_holder : forall h, exclusive s' !! r = Some h ->
    exclusive s !! r = Some h \/ exists w, w ∈ g /\ wt_owner w = h /\ wt_mode w = Exclusive;
  wq_dom : forall c, is_Some (channels s' !! c) <-> is_Some (channels s !! c)
}.

Lemma waiter_holder_ok r w : waiter_ok r w -> holder_ok r (wt_owner w).
Proof. unfold waiter_ok, holder_ok. destruct (wt_owner w); cbn; tauto. Qed.

Lemma wake_queue_nothing r q s :
  local_ok r (exclusive s !! r) (shared s !! r) None ->
  match q with [] => True | w :: _ => can_grant s r (wt_mode w) = false end ->
  wake_queue_result r q s q s [].
Proof. intros Hl Hf. split; try done; auto. intros w Hw. by apply elem_of_nil in Hw. Qed.

Lemma wake_queue_step r w q s s1 s2 rest s' g :
  s1 = grant s r (wt_mode w) (wt_owner w) ->
  channels s !! wt_tx w = Some ChanOpen ->
  s2 = (send s1 (wt_tx w) (Ok tt)).2 ->
  (wt_mode w = SharedRead -> exclusive s1 !! r = exclusive s !! r) ->
  wt_tx w ∉ wt_tx <$> q ->
  wake_queue_result r q s2 rest s' g ->
  wake_queue_result r (w :: q) s rest s' (w :: g).
Proof.
  intros -> Hopen -> Hsh Hnin [Hs Hw [Hn1 Hn2] He Hl Hf Ho Ht Hh Hd].
  destruct (grant_frame s r (wt_mode w) (wt_owner w)) as (Gw & Gc & Gn1 & Gn2 & Ge & Gs).
  destruct (send _ _ _) as [b s2] eqn:Esend; cbn in *.
  destruct (send_frame _ _ _ _ _ Esend) as (Se & Ss & Sw & Sn1 & Sn2 & Sc & So & Sd).
  rewrite Gc in So. destruct (So Hopen) as [-> Hsent].
  assert (Hng : wt_tx w ∉ wt_tx <$> g).
  { intros Hin. apply Hnin. rewrite Hs, fmap_app. by apply elem_of_app; left. }
  split.
  - by rewrite Hs.
  - congruence.
  - split; congruence.
  - intros r' Hr'. destruct (He r' Hr') as [-> ->]. rewrite Se, Ss. auto.
  - done.
  - done.
  - intros c Hc. rewrite fmap_cons, not_elem_of_cons in Hc. destruct Hc as [Hc1 Hc2].
    rewrite Ho by done. rewrite Sc by done. by rewrite Gc.
  - intros w' [->|Hw']%elem_of_cons; [|by apply Ht]. by rewrite Ho.
  - intros h Hex. destruct (Hh h Hex) as [Hex2|(w' & Hw' & ? & ?)].
    + rewrite Se in Hex2. pose proof (grant_here s r (wt_mode w) (wt_owner w)) as Hg.
      destruct (wt_mode w) eqn:Em.
      * destruct Hg as [Hg _]. right. exists w. rewrite Hg in Hex2. simplify_eq.
        split; [by left|done].
      * left. rewrite <- Hsh; done.
    + right. exists w'. split; [by right|done].
  - intros c. rewrite Hd, Sd. by rewrite Gc.
Qed.

Lemma wake_queue_ok r q s :
  Forall (fun w => channels s !! wt_tx w = Some ChanOpen) q ->
  NoDup (wt_tx <$> q) -> Forall (waiter_ok r) q ->
  local_ok r (exclusive s !! r) (shared s !! r) None ->
  exists rest s' g, wake_queue r q s = (rest, s') /\ wake_queue_result r q s rest s' g.
Proof.
  revert s. induction q as [|w q IH]; intros s Hopen Hnd Hok Hl; cbn.
  { exists [], s, []. split; [done|]. by apply wake_queue_nothing. }
  apply Forall_cons in Hopen as [Hw Hopen]. apply Forall_cons in Hok as [Hwok Hok].
  apply NoDup_cons in Hnd as [Hnin Hnd].
  destruct (can_grant s r (wt_mode w)) eqn:Hcg.
  2: { exists (w :: q), s, []. split; [done|]. by apply wake_queue_nothing. }
  set (s1 := grant s r (wt_mode w) (wt_owner w)).
  destruct (grant_frame s r (wt_mode w) (wt_owner w)) as (Gw & Gc & _).
  destruct (send s1 (wt_tx w) (Ok tt)) as [b s2] eqn:Esend.
  destruct (send_frame _ _ _ _ _ Esend) as (Se & Ss & Sw & _ & _ & Sc & So & Sd).
  destruct (So ltac:(by unfold s1; rewrite Gc)) as [-> Hsent]. cbn.
  assert (Hl2 : local_ok r (exclusive s2 !! r) (shared s2 !! r) None).
  { rewrite Se, Ss. apply grant_local; auto. by apply waiter_holder_ok. }
  pose proof (grant_here s r (wt_mode w) (wt_owner w)) as Hg. fold s1 in Hg.
  destruct (wt_mode w) eqn:Em.
  - exists q, s2, [w]. split; [done|].
    apply wake_queue_step with s1 s2; rewrite ?Em; auto.
    { by rewrite Esend. } { done. }
    apply wake_queue_nothing; [done|]. destruct q as [|w' q]; [done|].
    unfold can_grant. rewrite Se. destruct Hg as [-> _]. by destruct (wt_mode w').
  - destruct (IH s2) as (rest & s' & g & Hrun & Hres); auto.
    { apply Forall_forall. intros w' Hw'. rewrite Sc.
      - unfold s1. rewrite Gc. rewrite Forall_forall in Hopen. by apply Hopen.
      - intros Heq. apply Hnin. rewrite <- Heq. by apply list_elem_of_fmap_2. }
    exists rest, s', (w :: g). split; [done|].
    apply wake_queue_step with s1 s2; rewrite ?Em; auto.
    { by rewrite Esend. }
Qed.

Lemma queue_of_put s r q r' :
  queue_of (put_queue s r q) r' = if decide (r' = r) then q else queue_of s r'.
Proof.
  unfold queue_of, put_queue. cbn. destruct q; case_decide as Hr; subst.
  - by rewrite lookup_delete_eq.
  - by rewrite lookup_delete_ne.
  - by rewrite lookup_insert_eq.
  - by rewrite lookup_insert_ne.
Qed.

Lemma waiters_put s r q :
  waiters (put_queue s r q) !! r = match q with [] => None | _ => Some q end.
Proof. destruct q; cbn; [apply lookup_delete_eq|apply lookup_insert_eq]. Qed.

Lemma waiters_put_ne s r q r' :
  r' <> r -> waiters (put_queue s r q) !! r' = waiters s !! r'.
Proof. intros. destruct q; cbn; [by apply lookup_delete_ne|by apply lookup_insert_ne]. Qed.

Lemma local_ok_queue r e n q q' :
  local_ok r e n q ->
  q' <> Some [] -> length (default [] q') <= MAX_WAITERS_PER_RESOURCE ->
  Forall (waiter_ok r) (default [] q') ->
  (forall p, e = Some (HeldProcess p) -> q' = None) ->
  local_ok r e n q'.
Proof. intros [] ????. by split. Qed.

(** What [wake] does at one resource. *)
Record wake_result (r : Resource) (s s' : Serializer) (g : list Waiter) : Prop := {
  wr_run : wake_queue_result r (queue_of s r) s (queue_of s' r)
             (set_waiters s' (waiters s)) g;
  wr_else : forall r', r' <> r -> waiters s' !! r' = waiters s !! r'
}.

Lemma wake_ok F s r : serializer_inv F s -> exists g, wake_result r s (wake s r) g.
Proof.
  intros [L _ O N _ _]. unfold wake.
  destruct (wake_queue_ok r (queue_of s r) s) as (rest & s' & g & -> & Hres).
  - apply Forall_forall. intros w Hw. by apply (O r).
  - apply N.
  - apply (lo_waiters _ _ _ _ (L r)).
  - eapply local_ok_queue; [apply L|done|cbn; lia|constructor|done].
  - exists g. split.
    + rewrite queue_of_put, decide_True by done.
      destruct Hres as [? Hw [??] ? ? ? ? ? ? ?]. split; cbn; done.
    + intros r' Hr'. rewrite waiters_put_ne by done. by rewrite (wq_waiters _ _ _ _ _ _ Hres).
Qed.

Lemma wake_inv F s r :
  serializer_inv F s -> serializer_inv (fun r' => F r' /\ r' <> r) (wake s r).
Proof.
  intros Hinv. destruct (wake_ok F s r Hinv) as [g [Hres Helse]].
  destruct Hinv as [L Fr O N A D].
  destruct Hres as [Hsplit _ [Hn1 Hn2] He Hl Hf Ho Ht Hh Hd]; cbn in *.
  assert (Hq : forall r', r' <> r -> queue_of (wake s r) r' = queue_of s r').
  { intros r' Hr'. unfold queue_of. by rewrite Helse. }
  assert (Hsub : forall r' w, w ∈ queue_of (wake s r) r' -> w ∈ queue_of s r').
  { intros r' w Hw. destruct (decide (r' = r)) as [->|]; [|by rewrite <- Hq].
    rewrite Hsplit. apply elem_of_app; by right. }
  assert (Hng : forall r' w, w ∈ queue_of (wake s r) r' -> wt_tx w ∉ wt_tx <$> g).
  { intros r' w Hw (w' & Heq & Hw')%list_elem_of_fmap.
    assert (w' ∈ queue_of s r) by (rewrite Hsplit; apply elem_of_app; by left).
    destruct (decide (r' = r)) as [->|Hne].
    - specialize (N r). rewrite Hsplit, fmap_app in N.
      apply NoDup_app in N as (_ & N & _). apply (N (wt_tx w)).
      + rewrite Heq. by apply list_elem_of_fmap_2.
      + by apply list_elem_of_fmap_2.
    - apply Hne. by apply (A r' r w w'); [apply Hsub| |]. }
  split.
  - intros r'. destruct (decide (r' = r)) as [->|Hne].
    + destruct (L r) as [_ _ B1 B2 B3 _ B4].
      assert (Hrest : waiters (wake s r) !! r
                      = match queue_of (wake s r) r with [] => None | q => Some q end).
      { unfold wake. destruct (wake_queue _ _ _) as [rest s']. rewrite waiters_put.
        rewrite queue_of_put, decide_True by done. by destruct rest. }
      fold (queue_of s r) in B2, B3. rewrite Hsplit in B2, B3.
      rewrite length_app in B2. apply Forall_app in B3 as [B3g B3r].
      eapply local_ok_queue; [exact Hl|..]; rewrite Hrest.
      * by destruct (queue_of (wake s r) r).
      * destruct (queue_of (wake s r) r); cbn in *; lia.
      * by destruct (queue_of (wake s r) r).
      * intros p Hp. destruct (Hh _ Hp) as [Hp'|(w & Hw & Hown & _)].
        -- apply B4 in Hp'. unfold queue_of in Hsplit. rewrite Hp' in Hsplit.
           symmetry in Hsplit. apply app_eq_nil in Hsplit as [_ Hnil].
           unfold queue_of. by rewrite Hnil.
        -- exfalso. rewrite Forall_forall in B3g. specialize (B3g w Hw).
           unfold waiter_ok in B3g. by rewrite Hown in B3g.
    + destruct (He r' Hne) as [-> ->]. rewrite Helse by done. apply L.
  - intros r' HF. destruct (decide (r' = r)) as [->|Hne].
    + exact Hf.
    + unfold front_blocked. rewrite Hq by done.
      assert (Hb : front_blocked s r') by (apply Fr; tauto). unfold front_blocked in Hb.
      destruct (queue_of s r') as [|w q]; [done|].
      destruct (He r' Hne) as [He1 He2].
      by rewrite (can_grant_ext _ s) by (by rewrite ?He1, ?He2).
  - intros r' w Hw. rewrite Ho by (by apply (Hng r')). apply (O r'). by apply Hsub.
  - intros r'. destruct (decide (r' = r)) as [->|Hne].
    + specialize (N r). rewrite Hsplit, fmap_app in N. by apply NoDup_app in N as (_ & _ & N).
    + by rewrite Hq.
  - intros r1 r2 w1 w2 H1 H2. apply A; by apply Hsub.
  - intros c Hc. rewrite Hn2. apply D. by apply Hd.
Qed.

(** ** Primitive moves *)

Lemma set_exclusive_inv (F G : Resource -> Prop) s m :
  serializer_inv F s ->
  (forall r, local_ok r (m !! r) (shared s !! r) (waiters s !! r)) ->
  (forall r, ~ G r -> ~ F r /\ (is_Some (exclusive s !! r) -> is_Some (m !! r))) ->
  serializer_inv G (set_exclusive s m).
Proof.
  intros [L Fr O N A D] Hl HG. split; try done.
  intros r Hr. destruct (HG r Hr) as [HF Hsome]. specialize (Fr r HF).
  unfold front_blocked, queue_of in *; cbn.
  destruct (default [] (waiters s !! r)) as [|w q]; [done|].
  unfold can_grant, shared_count, is_none in *; cbn.
  destruct (exclusive s !! r), (m !! r); destruct (wt_mode w); try done;
    by destruct (Hsome ltac:(eauto)).
Qed.

Lemma grant_inv F s r m o :
  serializer_inv F s -> can_grant s r m = true -> holder_ok r o ->
  (forall p, o = HeldProcess p -> waiters s !! r = None) ->
  serializer_inv F (grant s r m o).
Proof.
  intros Hinv Hg Ho Hb. pose proof Hinv as [L Fr O N A D].
  destruct (grant_frame s r m o) as (Gw & Gc & _ & Gn & Ge & Gs).
  split; unfold queue_of; rewrite ?Gw, ?Gc, ?Gn; try done.
  - intros r'. destruct (decide (r' = r)) as [->|Hne].
    + apply grant_local; auto; [apply (lo_nonempty _ _ _ _ (L r))|eauto].
    + rewrite Ge, Gs by done. apply L.
  - intros r' HF. specialize (Fr r' HF). unfold front_blocked, queue_of in *. rewrite Gw.
    destruct (default [] (waiters s !! r')) as [|w q]; [done|].
    apply grant_blocks; [|done]. apply (lo_shared _ _ _ _ (L r)).
Qed.

Lemma unlock_silent_inv F s r m :
  serializer_inv F s -> serializer_inv (fun r' => F r' \/ r' = r) (unlock_silent s r m).
Proof.
  intros Hinv. destruct m; cbn.
  - apply (set_exclusive_inv F); [done|..].
    + intros r'. destruct Hinv as [L _ _ _ _ _]. destruct (L r') as [? ? ? ? ? ? ?].
      destruct (decide (r' = r)) as [->|Hne].
      * rewrite lookup_delete_eq. split; auto; by intros.
      * rewrite lookup_delete_ne by done. by split.
    + intros r' Hr'. split; [tauto|].
      by rewrite lookup_delete_ne by (intros <-; tauto).
  - destruct (shared s !! r) as [k|] eqn:Ek.
    2: { eapply serializer_inv_mono, Hinv. tauto. }
    destruct Hinv as [L Fr O N A D].
    set (m' := if bool_decide _ then _ else _).
    assert (Hne : forall r', r' <> r -> m' !! r' = shared s !! r').
    { intros r' Hr'. unfold m'. case_bool_decide;
        [by rewrite lookup_delete_ne|by rewrite lookup_insert_ne]. }
    split; try done.
    + intros r'. cbn. destruct (decide (r' = r)) as [->|Hr']; [|rewrite Hne by done; apply L].
      destruct (L r) as [D1 S1 ? ? ? ? ?]. specialize (S1 k Ek).
      unfold m'. case_bool_decide as H0.
      * rewrite lookup_delete_eq. split; auto. by intros.
      * rewrite lookup_insert_eq. unfold saturating_sub in *. split; auto.
        -- destruct D1 as [?|HD]; [by left|]. by rewrite Ek in HD.
        -- intros k' [= <-]. lia.
    + intros r' HF. assert (Hr' : r' <> r) by tauto.
      assert (Hb : front_blocked s r') by (apply Fr; tauto).
      unfold front_blocked, queue_of in *; cbn in *.
      destruct (default [] (waiters s !! r')) as [|w q]; [done|].
      rewrite (can_grant_ext _ s); [done|done|]. cbn. by apply Hne.
Qed.

Lemma unlock_inv F s r m : serializer_inv F s -> serializer_inv F (unlock s r m).
Proof.
  intros H. unfold unlock. eapply serializer_inv_mono; [|by apply wake_inv, unlock_silent_inv].
  intros r'. cbn. tauto.
Qed.

Lemma wake_keeps F s r : serializer_inv F s -> serializer_inv F (wake s r).
Proof. intros H. eapply serializer_inv_mono; [|by apply wake_inv]. cbn. tauto. Qed.

Lemma wake_all_inv F s rs :
  serializer_inv F s -> serializer_inv (fun r => F r /\ r ∉ rs) (wake_all s rs).
Proof.
  revert F s. induction rs as [|r rs IH]; intros F s H; cbn.
  - eapply serializer_inv_mono, H. intros r Hr. split; [done|apply not_elem_of_nil].
  - eapply serializer_inv_mono; [|apply (IH (fun r' => F r' /\ r' <> r)); by apply wake_inv].
    cbn. intros r' [[? ?] ?]. split; [done|]. rewrite not_elem_of_cons. tauto.
Qed.

Lemma send_all_frame v q s :
  exclusive (send_all v q s) = exclusive s /\ shared (send_all v q s) = shared s /\
  waiters (send_all v q s) = waiters s /\ next_waiter (send_all v q s) = next_waiter s /\
  next_channel (send_all v q s) = next_channel s /\
  (forall c, c ∉ wt_tx <$> q -> channels (send_all v q s) !! c = channels s !! c) /\
  (forall c, is_Some (channels (send_all v q s) !! c) <-> is_Some (channels s !! c)).
Proof.
  revert s. induction q as [|w q IH]; intros s; [done|].
  unfold send_all; cbn [foldl]. fold (send_all v q (send s (wt_tx w) v).2).
  destruct (send s (wt_tx w) v) as [b s1] eqn:E; cbn.
  destruct (send_frame _ _ _ _ _ E) as (S1 & S2 & S3 & S4 & S5 & S6 & _ & S7).
  destruct (IH s1) as (-> & -> & -> & -> & -> & I6 & I7).
  split_and!; auto.
  - intros c Hc. rewrite not_elem_of_cons in Hc. destruct Hc. rewrite I6 by done. by apply S6.
  - intros c. by rewrite I7, S7.
Qed.

(** Failing a queue's waiters empties it and leaves every other resource as it was. *)
Lemma fail_waiters_inv F s r e :
  serializer_inv F s ->
  serializer_inv F (fail_waiters s r e) /\ waiters (fail_waiters s r e) !! r = None /\
  exclusive (fail_waiters s r e) = exclusive s /\ shared (fail_waiters s r e) = shared s /\
  (forall r', waiters s !! r' = None -> waiters (fail_waiters s r e) !! r' = None).
Proof.
  intros Hinv. unfold fail_waiters. destruct (waiters s !! r) as [q|] eqn:Eq; [|done].
  set (s1 := set_waiters s (delete r (waiters s))).
  destruct (send_all_frame (Err e) q s1) as (Se & Ss & Sw & Sn & Sc & Sch & Sd).
  rewrite Sw. split_and!; try done; [|apply lookup_delete_eq|].
  2: { cbn. intros r' Hr'. destruct (decide (r' = r)) as [->|];
         [apply lookup_delete_eq|by rewrite lookup_delete_ne]. }
  destruct Hinv as [L Fr O N A D].
  assert (Hq : forall r', r' <> r -> queue_of (send_all (Err e) q s1) r' = queue_of s r').
  { intros r' Hr'. unfold queue_of. rewrite Sw. cbn. by rewrite lookup_delete_ne. }
  assert (Hq0 : queue_of (send_all (Err e) q s1) r = []).
  { unfold queue_of. rewrite Sw. cbn. by rewrite lookup_delete_eq. }
  assert (Hsub : forall r' w, w ∈ queue_of (send_all (Err e) q s1) r' ->
                   r' <> r /\ w ∈ queue_of s r').
  { intros r' w Hw. destruct (decide (r' = r)) as [->|Hne].
    - rewrite Hq0 in Hw. by apply elem_of_nil in Hw.
    - by rewrite <- Hq. }
  split.
  - intros r'. rewrite Se, Ss, Sw. cbn. destruct (decide (r' = r)) as [->|Hne].
    + rewrite lookup_delete_eq. eapply local_ok_queue; [apply L|done|cbn; lia|constructor|done].
    + rewrite lookup_delete_ne by done. apply L.
  - intros r' HF. unfold front_blocked. destruct (decide (r' = r)) as [->|Hne]; [by rewrite Hq0|].
    rewrite Hq by done. specialize (Fr r' HF). unfold front_blocked in Fr.
    destruct (queue_of s r') as [|w q']; [done|].
    rewrite (can_grant_ext _ s); [done|by rewrite Se|by rewrite Ss].
  - intros r' w Hw. apply Hsub in Hw as [Hne Hw]. rewrite Sch; [by apply (O r')|].
    intros (w' & Heq & Hw')%list_elem_of_fmap. apply Hne. apply (A r' r w w'); [done| |done].
    unfold queue_of. by rewrite Eq.
  - intros r'. destruct (decide (r' = r)) as [->|Hne]; [rewrite Hq0; constructor|].
    rewrite Hq by done. apply N.
  - intros r1 r2 w1 w2 [_ H1]%Hsub [_ H2]%Hsub. by apply A.
  - intros c Hc. rewrite Sc. apply D. by apply Sd.
Qed.

Lemma queue_of_enqueue s r m o r' :
  queue_of (enqueue s r m o).2 r'
  = if decide (r' = r) then queue_of s r ++ [mkWaiter (next_waiter s) m o (next_channel s)]
    else queue_of s r'.
Proof.
  unfold enqueue, queue_of; cbn. case_decide as Hr; subst.
  - by rewrite lookup_insert_eq.
  - by rewrite lookup_insert_ne.
Qed.

Lemma queued_tx_fresh F s r w :
  serializer_inv F s -> w ∈ queue_of s r -> wt_tx w < next_channel s.
Proof. intros [L Fr O N A D] Hw. apply D. rewrite (O r w Hw). eauto. Qed.

Lemma enqueue_inv F s r m o :
  serializer_inv F s -> waiter_count_unlocked s r < MAX_WAITERS_PER_RESOURCE ->
  waiter_ok r (mkWaiter (next_waiter s) m o (next_channel s)) ->
  (forall p, exclusive s !! r <> Some (HeldProcess p)) ->
  serializer_inv (fun r' => F r' \/ r' = r) (enqueue s r m o).2.
Proof.
  intros Hinv Hlen Hok Hnp. pose proof (fun r w => queued_tx_fresh F s r w Hinv) as Hfresh.
  destruct Hinv as [L Fr O N A D].
  set (nw := mkWaiter (next_waiter s) m o (next_channel s)) in *.
  assert (Hin : forall r' w, w ∈ queue_of (enqueue s r m o).2 r' ->
            w ∈ queue_of s r' \/ (r' = r /\ w = nw)).
  { intros r' w. rewrite queue_of_enqueue. case_decide as Hr; [subst r'|by left].
    rewrite elem_of_app, list_elem_of_singleton. intros [?| ->]; [by left|by right]. }
  split.
  - intros r'. unfold enqueue; cbn [exclusive shared waiters snd].
    destruct (decide (r' = r)) as [->|Hne].
    2: { rewrite lookup_insert_ne by done. apply L. }
    rewrite lookup_insert_eq. eapply local_ok_queue; [apply L|..].
    + intros [= Hnil]. by destruct (queue_of s r).
    + cbn. rewrite length_app. unfold waiter_count_unlocked in Hlen. cbn. lia.
    + cbn. apply Forall_app; split; [apply (lo_waiters _ _ _ _ (L r))|by repeat constructor].
    + intros p Hp. by destruct (Hnp p).
  - intros r' HF. assert (Hb : front_blocked s r') by (apply Fr; tauto).
    unfold front_blocked in *. rewrite queue_of_enqueue. case_decide; [tauto|done].
  - intros r' w [Hw|[-> ->]]%Hin; unfold enqueue; cbn.
    + rewrite lookup_insert_ne; [by apply (O r')|]. specialize (Hfresh r' w Hw). lia.
    + by rewrite lookup_insert_eq.
  - intros r'. rewrite queue_of_enqueue. case_decide as Hr; [|apply N]. subst r'.
    rewrite fmap_app. apply NoDup_app. split_and!; [apply N| |apply NoDup_singleton].
    intros c (w & -> & Hw)%list_elem_of_fmap. cbn. rewrite list_elem_of_singleton.
    specialize (Hfresh r w Hw). lia.
  - intros r1 r2 w1 w2 [H1|[-> ->]]%Hin [H2|[-> ->]]%Hin; cbn; try done.
    + by apply A.
    + specialize (Hfresh _ _ H1). lia.
    + specialize (Hfresh _ _ H2). lia.
  - intros c. unfold enqueue; cbn. intros [x [[<- ?]|[? Hc]]%lookup_insert_Some]; [lia|].
    specialize (D c ltac:(eauto)). lia.
Qed.

Lemma not_held_process F s r p :
  serializer_inv F s -> process_held s r = false -> exclusive s !! r <> Some (HeldProcess p).
Proof.
  intros [L _ _ _ _ _] Hph Hex. destruct (lo_holder _ _ _ _ (L r) _ Hex) as [ws ->]; [done|].
  unfold process_held in Hph. by rewrite Hex in Hph.
Qed.

Lemma can_grant_no_process s r m p :
  can_grant s r m = true -> exclusive s !! r <> Some (HeldProcess p).
Proof. intros Hg Hex. apply can_grant_free in Hg as [Hn _]. congruence. Qed.

Lemma acquire_inv F s r m o :
  serializer_inv F s -> waiter_ok r (mkWaiter (next_waiter s) m o (next_channel s)) ->
  serializer_inv F (acquire s r m o).2.
Proof.
  intros Hinv Hok. unfold acquire. destruct (process_held s r) eqn:Hph; [done|].
  case_match eqn:Hg.
  - apply andb_prop in Hg as [[Hg _]%andb_prop _]. cbn. apply grant_inv; auto.
    + by apply waiter_holder_ok in Hok.
    + intros p ->. by destruct Hok.
  - clear Hg. destruct (decide (MAX_WAITERS_PER_RESOURCE <= waiter_count_unlocked s r)) as [Hf|Hf].
    { by rewrite bool_decide_eq_true_2. }
    rewrite bool_decide_eq_false_2 by done.
    destruct (enqueue s r m o) as [[id rx] s'] eqn:He. cbn.
    replace s' with (enqueue s r m o).2 by (by rewrite He).
    eapply serializer_inv_mono; [|apply wake_inv, (enqueue_inv F)]; auto.
    + cbn. tauto.
    + lia.
    + intros p. by apply (not_held_process F).
Qed.

(** Removing a waiter from its queue leaves every other waiter's channel open. *)
Lemma drop_senders_frame q s :
  exclusive (drop_senders q s) = exclusive s /\ shared (drop_senders q s) = shared s /\
  waiters (drop_senders q s) = waiters s /\
  next_channel (drop_senders q s) = next_channel s /\
  (forall c, c ∉ wt_tx <$> q -> channels (drop_senders q s) !! c = channels s !! c) /\
  (forall c, is_Some (channels (drop_senders q s) !! c) <-> is_Some (channels s !! c)).
Proof.
  unfold drop_senders; cbn. split_and!; try done; generalize (channels s).
  - induction q as [|w q IH]; intros m c Hc; cbn; [done|].
    rewrite fmap_cons, not_elem_of_cons in Hc. destruct Hc as [Hc1 Hc2].
    rewrite IH by done. repeat case_match; try done. by rewrite lookup_insert_ne.
  - induction q as [|w q IH]; intros m c; cbn; [done|].
    rewrite IH. destruct (m !! wt_tx w) as [[]|] eqn:Em; try done.
    destruct (decide (c = wt_tx w)) as [->|]; [|by rewrite lookup_insert_ne].
    rewrite lookup_insert_eq. split; eauto.
Qed.

Lemma waiter_same_tx F s r w1 w2 :
  serializer_inv F s -> w1 ∈ queue_of s r -> w2 ∈ queue_of s r -> wt_tx w1 = wt_tx w2 -> w1 = w2.
Proof.
  intros [_ _ _ N _ _] [i Hi]%list_elem_of_lookup [j Hj]%list_elem_of_lookup Heq.
  specialize (N r). rewrite NoDup_alt in N. assert (i = j) as ->; [|congruence].
  apply (N i j (wt_tx w1)); rewrite list_lookup_fmap, ?Hi, ?Hj; cbn; congruence.
Qed.

(** Taking the waiters with [id] out of a resource's queue, before the wake that follows. *)
Definition cancelled (s : Serializer) (r : Resource) (id : Z) (q : list Waiter) : Serializer :=
  drop_senders (filter (fun w => wt_id w = id) q)
    (put_queue s r (filter (fun w => wt_id w <> id) q)).

Lemma cancelled_frame s r id q :
  exclusive (cancelled s r id q) = exclusive s /\ shared (cancelled s r id q) = shared s /\
  next_channel (cancelled s r id q) = next_channel s /\
  (forall r', queue_of (cancelled s r id q) r'
     = if decide (r' = r) then filter (fun w => wt_id w <> id) q else queue_of s r').
Proof.
  unfold cancelled.
  destruct (drop_senders_frame (filter (fun w => wt_id w = id) q)
              (put_queue s r (filter (fun w => wt_id w <> id) q)))
    as (He & Hs & Hw & Hn & _).
  rewrite He, Hs, Hn. split_and!; try done.
  intros r'. unfold queue_of at 1. rewrite Hw. apply queue_of_put.
Qed.

Lemma cancelled_inv F s r id :
  serializer_inv F s ->
  serializer_inv (fun r' => F r' \/ r' = r) (cancelled s r id (queue_of s r)).
Proof.
  intros Hinv. pose proof (fun w1 w2 => waiter_same_tx F s r w1 w2 Hinv) as Hsame.
  destruct (cancelled_frame s r id (queue_of s r)) as (He & Hs & Hn & Hq).
  pose proof (drop_senders_frame (filter (fun w => wt_id w = id) (queue_of s r))
    (put_queue s r (filter (fun w => wt_id w <> id) (queue_of s r))))
    as (_ & _ & Hw & _ & Hch & Hd).
  fold (cancelled s r id (queue_of s r)) in Hw, Hch, Hd.
  destruct Hinv as [L Fr O N A D].
  assert (Hsub : forall r' w, w ∈ queue_of (cancelled s r id (queue_of s r)) r' ->
            w ∈ queue_of s r' /\ (r' = r -> wt_id w <> id)).
  { intros r' w. rewrite Hq. case_decide as Hr; [subst r'|naive_solver].
    rewrite list_elem_of_filter. tauto. }
  split.
  - intros r'. rewrite He, Hs, Hw. destruct (decide (r' = r)) as [->|Hne].
    2: { rewrite waiters_put_ne by done. apply L. }
    rewrite waiters_put. destruct (L r) as [_ _ B1 B2 B3 _ B4].
    fold (queue_of s r) in B2, B3.
    pose proof (length_filter (fun w => wt_id w <> id) (queue_of s r)) as Hlen.
    eapply local_ok_queue; [apply L|..].
    + by destruct (filter _ _).
    + destruct (filter _ _); cbn in *; lia.
    + assert (Hf : Forall (waiter_ok r) (filter (fun w => wt_id w <> id) (queue_of s r))).
      { rewrite Forall_forall in B3 |- *. intros w [_ ?]%list_elem_of_filter. by apply B3. }
      by destruct (filter _ _).
    + intros p Hp. specialize (B4 p Hp). unfold queue_of. by rewrite B4.
  - intros r' HF. assert (Hb : front_blocked s r') by (apply Fr; tauto).
    unfold front_blocked in *. rewrite Hq. case_decide; [tauto|].
    destruct (queue_of s r') as [|w q]; [done|].
    by rewrite (can_grant_ext _ s) by (by rewrite ?He, ?Hs).
  - intros r' w Hw'. destruct (Hsub r' w Hw') as [Hin Hid]. rewrite Hch; [by apply (O r')|].
    intros (w' & Heq & [Hid' Hin']%list_elem_of_filter)%list_elem_of_fmap.
    assert (r' = r) as -> by (by apply (A r' r w w')).
    apply Hid; [done|]. by rewrite (Hsame w w').
  - intros r'. rewrite Hq. case_decide; [subst r'|apply N].
    eapply sublist_NoDup; [apply N|apply fmap_sublist, sublist_filter].
  - intros r1 r2 w1 w2 [H1 _]%Hsub [H2 _]%Hsub. by apply A.
  - intros c Hc. rewrite Hn. apply D. by apply Hd in Hc.
Qed.

Lemma cancel_waiter_inv F s r id :
  serializer_inv F s -> serializer_inv F (cancel_waiter s r id).2.
Proof.
  intros Hinv. unfold cancel_waiter. destruct (waiters s !! r) as [q|] eqn:Eq; [|done].
  pose proof (cancelled_inv F s r id Hinv) as Hc.
  assert (Hqq : queue_of s r = q) by (unfold queue_of; by rewrite Eq).
  rewrite Hqq in Hc. fold (cancelled s r id q). cbn [snd].
  destruct (decide (length (filter (fun w => wt_id w <> id) q) = length q)) as [Hl|Hl].
  - rewrite bool_decide_eq_false_2 by tauto.
    assert (Hf : filter (fun w => wt_id w <> id) q = q).
    { by apply filter_full_length. }
    destruct (cancelled_frame s r id q) as (He & Hs & _ & Hq).
    destruct Hc as [L Fr O N A D]. split; try done.
    intros r' HF. unfold front_blocked. rewrite Hq, Hf.
    destruct Hinv as [_ Fr' _ _ _ _]. specialize (Fr' r' HF). unfold front_blocked in Fr'.
    case_decide; subst; destruct (queue_of s _) as [|w q']; try done;
      by rewrite (can_grant_ext _ s) by (by rewrite ?He, ?Hs).
  - rewrite bool_decide_eq_true_2 by tauto.
    eapply serializer_inv_mono; [|by apply wake_inv]. cbn. tauto.
Qed.

(** ** Operations *)

Lemma elem_of_holding p s r :
  r ∈ holding p s <-> exists h, exclusive s !! r = Some h /\ p h = true.
Proof.
  unfold holding. rewrite list_elem_of_fmap. split.
  - intros ([r' h] & -> & Hin). apply elem_of_map_to_list, map_lookup_filter_Some in Hin.
    destruct Hin as [Hin Hp]. exists h. split; [done|]. by apply Is_true_true.
  - intros (h & Hx & Hp). exists (r, h). split; [done|].
    apply elem_of_map_to_list, map_lookup_filter_Some. cbn. by rewrite Hp.
Qed.

(** Dropping holders leaves the invariant to the wakeups that follow. *)
Lemma released_inv F p s :
  serializer_inv F s ->
  serializer_inv (fun r => F r \/ r ∈ holding p s) (release_matching p s).2.
Proof.
  intros Hinv. unfold release_matching.
  apply (set_exclusive_inv F (fun r => F r \/ r ∈ holding p s)); [done|..].
  - intros r. destruct Hinv as [L _ _ _ _ _]. destruct (L r) as [D1 ? ? ? ? H B].
    destruct (filter _ (exclusive s) !! r) as [h|] eqn:Ef.
    + apply map_lookup_filter_Some in Ef as [Ef _]. rewrite Ef in *. by split.
    + split; auto; by intros.
  - intros r Hr. split; [tauto|]. intros [h Hh]. exists h.
    apply map_lookup_filter_Some. split; [done|]. cbn.
    destruct (p h) eqn:Ep; [|done]. exfalso. apply Hr. right. apply elem_of_holding. eauto.
Qed.

Lemma release_matching_inv F p s :
  serializer_inv F s ->
  serializer_inv F (let (released, s') := release_matching p s in wake_all s' released).
Proof.
  intros Hinv. eapply serializer_inv_mono; [|apply wake_all_inv, (released_inv F p s Hinv)].
  cbn. tauto.
Qed.

Lemma release_process_inv F s p : serializer_inv F s -> serializer_inv F (release_process s p).
Proof. apply release_matching_inv. Qed.

Lemma release_all_processes_inv F s :
  serializer_inv F s -> serializer_inv F (release_all_processes s).
Proof. apply release_matching_inv. Qed.

Lemma release_one_inv F s r :
  serializer_inv F s ->
  serializer_inv F (wake (set_exclusive s (delete r (exclusive s))) r).
Proof. intros H. apply (unlock_inv F s r Exclusive H). Qed.

Lemma release_write_inv F s ws : serializer_inv F s -> serializer_inv F (release_write s ws).
Proof. intros H. unfold release_write. repeat case_match; auto. by apply release_one_inv. Qed.

Lemma clear_shell_inv F s ws : serializer_inv F s -> serializer_inv F (clear_shell s ws).
Proof. intros H. unfold clear_shell. repeat case_match; auto. by apply release_one_inv. Qed.

(** A refused [try] finds the resource taken; otherwise nobody waits and it is free. *)
Lemma free_can_grant F s r :
  serializer_inv F s ->
  is_some (exclusive s !! r) || bool_decide (0 < shared_count s r)%Z || has_waiters s r = false ->
  can_grant s r Exclusive = true /\ waiters s !! r = None.
Proof.
  intros [L _ _ _ _ _] Hb. apply orb_false_iff in Hb as [[He Hs]%orb_false_iff Hw].
  destruct (L r) as [_ S B _ _ _ _]. split.
  - unfold can_grant, is_some, shared_count in *. destruct (is_none _); [|done].
    apply bool_decide_eq_true. apply bool_decide_eq_false in Hs.
    destruct (shared s !! r) as [k|]; cbn in *; [specialize (S k eq_refl)|]; lia.
  - unfold has_waiters, waiter_count_unlocked, queue_of in Hw.
    apply bool_decide_eq_false in Hw. destruct (waiters s !! r) as [[|]|]; cbn in *; [done|lia|done].
Qed.

Lemma try_exclusive_write_inv F s ws :
  serializer_inv F s -> serializer_inv F (try_exclusive_write s ws).2.
Proof.
  intros H. unfold try_exclusive_write. cbv zeta. apply (wake_keeps F s (Workspace ws)) in H.
  destruct (process_held _ _); [done|]. case_match eqn:Hb; [done|]. cbn [snd].
  destruct (free_can_grant F _ _ H Hb). apply grant_inv; auto. by intros ?.
Qed.

Lemma mark_shell_busy_inv F s ws p :
  serializer_inv F s -> serializer_inv F (mark_shell_busy s ws p).2.
Proof.
  intros H. unfold mark_shell_busy. cbv zeta. apply (wake_keeps F s (Workspace ws)) in H.
  case_match eqn:Hb; [done|]. cbn [snd].
  destruct (free_can_grant F _ _ H Hb). apply grant_inv; auto. intros _. by exists ws.
Qed.

Lemma try_lock_inv F s r m : serializer_inv F s -> serializer_inv F (try_lock s r m).2.
Proof.
  intros H. unfold try_lock. cbv zeta. apply (wake_keeps F s r) in H.
  destruct (can_try_grant _ _ _) eqn:Hg; [|done]. cbn [snd].
  apply grant_inv; [done| |by intros ?|done].
  unfold can_try_grant in Hg. by destruct m; apply andb_prop in Hg as [].
Qed.

Lemma fail_all_inv F s rs e :
  serializer_inv F s ->
  let s' := foldl (fun s r => fail_waiters s r e) s rs in
  serializer_inv F s' /\ exclusive s' = exclusive s /\ shared s' = shared s /\
  (forall r, waiters s !! r = None -> waiters s' !! r = None) /\
  (forall r, r ∈ rs -> waiters s' !! r = None).
Proof.
  revert s. induction rs as [|r rs IH]; intros s H; cbn.
  { split_and!; try done. intros r Hr. by apply elem_of_nil in Hr. }
  destruct (fail_waiters_inv F s r e H) as (H1 & H2 & H3 & H4 & H5).
  destruct (IH _ H1) as (I1 & I2 & I3 & I4 & I5).
  split_and!; try done; try congruence.
  - intros r' Hr'. apply I4. by apply H5.
  - intros r' [->|Hr']%elem_of_cons; [by apply I4|by apply I5].
Qed.

(** Failing waiters reads and changes no holder. *)
Lemma fail_waiters_set_exclusive s r e m :
  fail_waiters (set_exclusive s m) r e = set_exclusive (fail_waiters s r e) m.
Proof.
  unfold fail_waiters; cbn. destruct (waiters s !! r) as [q|]; [|done].
  set (s1 := set_waiters s _).
  change (set_waiters (set_exclusive s m) _) with (set_exclusive s1 m). clearbody s1.
  unfold send_all. revert s1. induction q as [|w q IH]; intros s1; cbn; [done|].
  rewrite <- IH. f_equal. unfold send; cbn. by destruct (channels s1 !! wt_tx w) as [[]|].
Qed.

Lemma fail_all_set_exclusive s rs e m :
  foldl (fun s r => fail_waiters s r e) (set_exclusive s m) rs
  = set_exclusive (foldl (fun s r => fail_waiters s r e) s rs) m.
Proof.
  revert s. induction rs as [|r rs IH]; intros s; cbn; [done|].
  by rewrite fail_waiters_set_exclusive, IH.
Qed.

Lemma confirm_process_inv F s p :
  serializer_inv F s -> serializer_inv F (confirm_process s p).
Proof.
  intros Hinv. unfold confirm_process. rewrite fail_all_set_exclusive.
  set (rs := holding _ s).
  destruct (fail_all_inv F s rs shell_busy Hinv) as (H1 & H2 & H3 & H4 & H5).
  apply (set_exclusive_inv F); [done|..].
  - intros r. pose proof (si_local _ _ H1 r) as Hl. rewrite H2, H3 in *.
    rewrite lookup_fmap. destruct (exclusive s !! r) as [h|] eqn:Eh; [|done]. cbn.
    unfold confirm_holder. case_bool_decide as Hh; [|done]. subst h.
    rewrite H5 in * by (apply elem_of_holding; eexists; split; [done|by apply bool_decide_eq_true]).
    destruct Hl as [[?|?] S B1 B2 B3 Ho B4]; [done|]. split; auto.
    intros h [= <-] _. by apply (Ho _ eq_refl).
  - intros r Hr. split; [done|]. rewrite H2, lookup_fmap. intros [h ->]. eauto.
Qed.

Lemma hold_process_inv F s ws p :
  serializer_inv F s -> serializer_inv F (hold_process s ws p).2.
Proof.
  intros Hinv. set (r := Workspace ws).
  assert (Hset : shared s !! r = None -> serializer_inv F
    (fail_waiters (grant s r Exclusive (HeldProcess p)) r shell_busy)).
  { intros Hns. unfold grant. rewrite fail_waiters_set_exclusive.
    destruct (fail_waiters_inv F s r shell_busy Hinv) as (H1 & H2 & H3 & H4 & H5).
    apply (set_exclusive_inv F); [done|..].
    - intros r'. pose proof (si_local _ _ H1 r') as Hl. rewrite H3, H4 in *.
      destruct (decide (r' = r)) as [->|Hne]; [|by rewrite lookup_insert_ne].
      rewrite lookup_insert_eq, H2, Hns in *. destruct Hl. split; auto.
      intros h [= <-] _. by exists ws.
    - intros r' Hr'. split; [done|]. rewrite H3. intros [h Hh].
      destruct (decide (r' = r)) as [->|Hne]; [rewrite lookup_insert_eq; eauto|].
      rewrite lookup_insert_ne by done. eauto. }
  unfold hold_process. fold r. destruct (si_local _ _ Hinv r) as [D1 S1 _ _ _ _ _].
  destruct (exclusive s !! r) as [[]|] eqn:Ee; try done; try (case_bool_decide; [|done]).
  - apply Hset. by destruct D1.
  - done.
  - case_bool_decide as Hs; [done|]. apply Hset. unfold shared_count in Hs.
    destruct (shared s !! r) as [k|]; [|done]. specialize (S1 k eq_refl). cbn in Hs. lia.
Qed.

(** * The system: a serializer and the tickets of the requests that wait *)

(** Every call that does not wait, as a label. *)
Inductive SerializerOp :=
  | OpTryWrite (ws : string)
  | OpReleaseWrite (ws : string)
  | OpMarkShellBusy (ws p : string)
  | OpConfirmProcess (p : string)
  | OpHoldProcess (ws p : string)
  | OpClearShell (ws : string)
  | OpReleaseProcess (p : string)
  | OpReleaseAll
  | OpTryLock (r : Resource) (m : LockMode)
  | OpUnlock (r : Resource) (m : LockMode).

Definition run_op (op : SerializerOp) (s : Serializer) : Serializer :=
  match op with
  | OpTryWrite ws => (try_exclusive_write s ws).2
  | OpReleaseWrite ws => release_write s ws
  | OpMarkShellBusy ws p => (mark_shell_busy s ws p).2
  | OpConfirmProcess p => confirm_process s p
  | OpHoldProcess ws p => (hold_process s ws p).2
  | OpClearShell ws => clear_shell s ws
  | OpReleaseProcess p => release_process s p
  | OpReleaseAll => release_all_processes s
  | OpTryLock r m => (try_lock s r m).2
  | OpUnlock r m => unlock s r m
  end.

Lemma run_op_inv F op s : serializer_inv F s -> serializer_inv F (run_op op s).
Proof.
  destruct op; cbn [run_op];
    eauto using try_exclusive_write_inv, release_write_inv, mark_shell_busy_inv,
      confirm_process_inv, hold_process_inv, clear_shell_inv, release_process_inv,
      release_all_processes_inv, try_lock_inv, unlock_inv.
Qed.

(** The calls that may wait: [acquire_exclusive_write], [acquire_shell_busy], [acquire_lock]. *)
Inductive AcquireOp :=
  | AcqWrite (ws : string)
  | AcqShell (ws p : string)
  | AcqLock (r : Resource) (m : LockMode).

Definition acq_resource (a : AcquireOp) : Resource :=
  match a with AcqWrite ws | AcqShell ws _ => Workspace ws | AcqLock r _ => r end.
Definition acq_mode (a : AcquireOp) : LockMode :=
  match a with AcqLock _ m => m | _ => Exclusive end.
Definition acq_owner (a : AcquireOp) : ExclusiveHolder :=
  match a with AcqShell _ p => Spawning p | _ => Request end.

Definition run_acquire (a : AcquireOp) (s : Serializer) : AcquireOutcome * Serializer :=
  match a with
  | AcqWrite ws => acquire_exclusive_write s ws
  | AcqShell ws p => acquire_shell_busy s ws p
  | AcqLock r m => acquire_lock s r m
  end.

Lemma run_acquire_eq a s :
  run_acquire a s = acquire s (acq_resource a) (acq_mode a) (acq_owner a).
Proof. by destruct a. Qed.

Record System := mkSystem { serializer : Serializer; tickets : list WaitTicket }.

Definition ticket_for (a : AcquireOp) (oc : AcquireOutcome) : list WaitTicket :=
  match complete_acquire (acq_resource a) (acq_mode a) oc with
  | inl _ => []
  | inr t => [t]
  end.

Inductive system_step : System -> System -> Prop :=
  | sys_op op s T : system_step (mkSystem s T) (mkSystem (run_op op s) T)
  | sys_acquire a s T oc s' :
      run_acquire a s = (oc, s') ->
      system_step (mkSystem s T) (mkSystem s' (ticket_for a oc ++ T))
  | sys_poll s T1 t T2 v s' :
      ticket_poll s t = Some (v, s') ->
      system_step (mkSystem s (T1 ++ t :: T2)) (mkSystem s' (T1 ++ T2))
  | sys_cancel s T1 t T2 :
      system_step (mkSystem s (T1 ++ t :: T2)) (mkSystem (ticket_drop s t) (T1 ++ T2)).

Definition system_start : System := mkSystem serializer_default [].

Abbreviation system_reachable := (rtc system_step system_start).

(** Queues only lose waiters. *)
Definition shrinks (s s' : Serializer) : Prop :=
  (forall r w, w ∈ queue_of s' r -> w ∈ queue_of s r) /\ next_channel s <= next_channel s'.

#[local] Instance shrinks_preorder : PreOrder shrinks.
Proof.
  split; [by split|]. intros s1 s2 s3 [H1 H2] [H3 H4]. split; [auto|lia].
Qed.

Lemma wake_queue_suffix r q s rest s' :
  wake_queue r q s = (rest, s') ->
  rest `suffix_of` q /\ waiters s' = waiters s /\ next_channel s' = next_channel s.
Proof.
  revert s. induction q as [|w q IH]; intros s; cbn; [by intros; simplify_eq|].
  destruct (can_grant _ _ _); [|by intros; simplify_eq].
  destruct (grant_frame s r (wt_mode w) (wt_owner w)) as (Gw & _ & _ & Gn & _).
  destruct (send _ _ _) as [b s2] eqn:Es.
  destruct (send_frame _ _ _ _ _ Es) as (_ & _ & Sw & _ & Sn & _).
  assert (Hu : waiters (unlock_silent s2 r (wt_mode w)) = waiters s2 /\
               next_channel (unlock_silent s2 r (wt_mode w)) = next_channel s2).
  { unfold unlock_silent. by repeat case_match. }
  destruct Hu as [Hu1 Hu2]. intros Hrun.
  assert (rest `suffix_of` q /\ waiters s' = waiters s2 /\ next_channel s' = next_channel s2)
    as (Hsuf & -> & ->).
  { destruct b; cbn in Hrun; [destruct (wt_mode w)|].
    - by simplify_eq.
    - by apply IH.
    - destruct (IH _ Hrun) as (? & -> & ->). by rewrite Hu1, Hu2. }
  split_and!; try congruence. by apply suffix_cons_r.
Qed.

Lemma suffix_elem {A} (l1 l2 : list A) x : l1 `suffix_of` l2 -> x ∈ l1 -> x ∈ l2.
Proof. intros [k ->] Hx. apply elem_of_app. by right. Qed.

Lemma wake_shrinks s r : shrinks s (wake s r).
Proof.
  unfold wake. destruct (wake_queue _ _ _) as [rest s'] eqn:E.
  destruct (wake_queue_suffix _ _ _ _ _ E) as (Hsuf & Hw & Hn). split; [|cbn; lia].
  intros r' w. rewrite queue_of_put. case_decide; [subst|].
  - by apply suffix_elem.
  - unfold queue_of. by rewrite Hw.
Qed.

Lemma set_exclusive_shrinks s m : shrinks s (set_exclusive s m).
Proof. by split. Qed.

Lemma grant_shrinks s r m o : shrinks s (grant s r m o).
Proof. by destruct m. Qed.

Lemma unlock_silent_shrinks s r m : shrinks s (unlock_silent s r m).
Proof. unfold unlock_silent. repeat case_match; done. Qed.

Lemma fail_waiters_shrinks s r e : shrinks s (fail_waiters s r e).
Proof.
  unfold fail_waiters. destruct (waiters s !! r) as [q|]; [|done].
  set (s1 := set_waiters s (delete r (waiters s))).
  destruct (send_all_frame (Err e) q s1) as (_ & _ & Sw & _ & Sn & _).
  split; [|rewrite Sn; cbn; lia]. intros r' w. unfold queue_of. rewrite Sw. cbn.
  destruct (decide (r' = r)) as [->|]; [|by rewrite lookup_delete_ne].
  rewrite lookup_delete_eq. cbn. by intros ?%elem_of_nil.
Qed.

Lemma foldl_shrinks {A} (f : Serializer -> A -> Serializer) l s :
  (forall s x, shrinks s (f s x)) -> shrinks s (foldl f s l).
Proof.
  intros Hf. revert s. induction l as [|x l IH]; intros s; cbn; [done|].
  etransitivity; [apply Hf|apply IH].
Qed.

Create HintDb serializer.
#[local] Hint Resolve wake_shrinks set_exclusive_shrinks grant_shrinks unlock_silent_shrinks
  fail_waiters_shrinks foldl_shrinks : serializer.

Ltac shrinks_step :=
  first [ done | solve [auto with serializer]
        | etransitivity; [|solve [auto with serializer]] ].

Lemma run_op_shrinks op s : shrinks s (run_op op s).
Proof.
  destruct op; cbn [run_op];
    unfold try_exclusive_write, release_write, mark_shell_busy, confirm_process, hold_process,
      clear_shell, release_process, release_all_processes, release_matching, wake_all, try_lock,
      unlock; cbv zeta; repeat case_match; cbn [snd]; repeat shrinks_step.
Qed.

Lemma cancelled_shrinks s r id q :
  waiters s !! r = Some q -> shrinks s (cancelled s r id q).
Proof.
  intros Eq. destruct (cancelled_frame s r id q) as (_ & _ & Hn & Hq).
  split; [|rewrite Hn; lia]. intros r' w. rewrite Hq. case_decide; [subst|done].
  rewrite list_elem_of_filter. unfold queue_of. rewrite Eq. by intros [_ ?].
Qed.

Lemma cancel_waiter_shrinks s r id : shrinks s (cancel_waiter s r id).2.
Proof.
  unfold cancel_waiter. destruct (waiters s !! r) as [q|] eqn:Eq; [|done].
  fold (cancelled s r id q). cbn [snd]. pose proof (cancelled_shrinks s r id q Eq).
  case_bool_decide; [|done]. etransitivity; [done|apply wake_shrinks].
Qed.

Lemma cancel_waiter_gone s r id w :
  w ∈ queue_of (cancel_waiter s r id).2 r -> wt_id w <> id.
Proof.
  unfold cancel_waiter. destruct (waiters s !! r) as [q|] eqn:Eq; cbn.
  - fold (cancelled s r id q). destruct (cancelled_frame s r id q) as (_ & _ & _ & Hq).
    intros Hw. assert (w ∈ queue_of (cancelled s r id q) r) as Hin.
    { revert Hw. case_bool_decide; [|done]. apply wake_shrinks. }
    rewrite Hq, decide_True in Hin by done. by apply list_elem_of_filter in Hin as [].
  - unfold queue_of. rewrite Eq. by intros ?%elem_of_nil.
Qed.

Lemma unlock_shrinks s r m : shrinks s (unlock s r m).
Proof. etransitivity; [apply unlock_silent_shrinks|apply wake_shrinks]. Qed.

(** A ticket's receiver belongs to no queued waiter but its own. *)
Definition ticket_ok (s : Serializer) (t : WaitTicket) : Prop :=
  tk_rx t < next_channel s /\
  forall r w, w ∈ queue_of s r -> wt_tx w = tk_rx t -> r = tk_resource t /\ wt_id w = tk_id t.

Lemma ticket_ok_shrinks s s' t : shrinks s s' -> ticket_ok s t -> ticket_ok s' t.
Proof. intros [Hq Hn] [Hlt Ht]. split; [lia|]. intros r w Hw. by apply Ht, Hq. Qed.

Lemma tickets_ok_shrinks s s' T : shrinks s s' -> Forall (ticket_ok s) T -> Forall (ticket_ok s') T.
Proof. intros Hs HT. eapply Forall_impl; [exact HT|]. intros t. by apply ticket_ok_shrinks. Qed.

Lemma set_channel_inv F s c ch :
  serializer_inv F s -> c < next_channel s ->
  (forall r w, w ∈ queue_of s r -> wt_tx w <> c) ->
  serializer_inv F (set_channels s (<[c := ch]> (channels s))).
Proof.
  intros [L Fr O N A D] Hc Hnot. split; try done; cbn.
  - intros r w Hw. rewrite lookup_insert_ne; [by apply (O r)|]. intros ->. by apply (Hnot r w).
  - intros c'. rewrite lookup_insert_is_Some. intros [<-|[_ ?]]; [done|]. by apply D.
Qed.

Definition system_inv (S : System) : Prop :=
  serializer_inv none_exempt (serializer S) /\ Forall (ticket_ok (serializer S)) (tickets S).

Lemma acq_waiter_ok a id tx : waiter_ok (acq_resource a) (mkWaiter id (acq_mode a) (acq_owner a) tx).
Proof. destruct a; cbn; eauto. Qed.

Lemma acquire_tickets F s a oc s' T :
  serializer_inv F s -> run_acquire a s = (oc, s') ->
  Forall (ticket_ok s) T -> Forall (ticket_ok s') (ticket_for a oc ++ T).
Proof.
  intros Hinv. rewrite run_acquire_eq. unfold acquire, ticket_for.
  generalize (acq_resource a) (acq_mode a) (acq_owner a). intros r m o.
  destruct (process_held s r); [by intros [= <- <-]|].
  case_match eqn:Hg. { intros [= <- <-]. apply tickets_ok_shrinks, grant_shrinks. }
  clear Hg. case_match eqn:Hg. { by intros [= <- <-]. }
  clear Hg.
  destruct (enqueue s r m o) as [[id rx] s1] eqn:He. intros [= <- <-] HT. cbn.
  assert (Hq : forall r' w, w ∈ queue_of s1 r' ->
            w ∈ queue_of s r' \/ (r' = r /\ wt_id w = id /\ wt_tx w = rx)).
  { intros r' w. replace s1 with (enqueue s r m o).2 by (by rewrite He).
    rewrite queue_of_enqueue. case_decide as Hr; [subst r'|by left].
    rewrite elem_of_app, list_elem_of_singleton. intros [?| ->]; [by left|right].
    unfold enqueue in He. simplify_eq. done. }
  assert (Hrx : rx = next_channel s /\ next_channel s1 = S rx)
    by (unfold enqueue in He; by simplify_eq).
  destruct Hrx as [Hrx Hn].
  apply (tickets_ok_shrinks s1); [apply wake_shrinks|]. constructor.
  - split; cbn; [lia|]. intros r' w [Hw|(-> & -> & _)]%Hq Htx; [|done].
    pose proof (queued_tx_fresh F s r' w Hinv Hw). lia.
  - eapply Forall_impl; [exact HT|]. intros t [Hlt Ht]. split; [lia|].
    intros r' w [Hw|(-> & _ & Hw)]%Hq Htx; [by apply Ht|lia].
Qed.

Lemma ticket_drop_inv F s t :
  serializer_inv F s -> ticket_ok s t ->
  serializer_inv F (ticket_drop s t) /\ shrinks s (ticket_drop s t).
Proof.
  intros Hinv [Hlt Hown]. unfold ticket_drop.
  pose proof (cancel_waiter_inv F s (tk_resource t) (tk_id t) Hinv) as H1.
  pose proof (cancel_waiter_shrinks s (tk_resource t) (tk_id t)) as Hs1.
  pose proof (cancel_waiter_gone s (tk_resource t) (tk_id t)) as Hgone.
  destruct (cancel_waiter _ _ _) as [removed s1]; cbn [snd] in *.
  assert (Hnot : forall r w, w ∈ queue_of s1 r -> wt_tx w <> tk_rx t).
  { intros r w Hw Htx. destruct (Hown r w) as [-> Hid]; [by apply Hs1|done|].
    by apply (Hgone w). }
  assert (Hfin : forall s2, serializer_inv F s2 -> shrinks s1 s2 ->
    serializer_inv F (set_channels s2 (<[tk_rx t := ChanReceiverGone]> (channels s2))) /\
    shrinks s (set_channels s2 (<[tk_rx t := ChanReceiverGone]> (channels s2)))).
  { intros s2 H2 Hs2. pose proof (transitivity Hs1 Hs2) as Hs12. split; [|done].
    apply set_channel_inv; [done| |].
    - destruct Hs12. lia.
    - intros r w Hw. apply (Hnot r). by apply Hs2. }
  destruct removed; [by apply Hfin|].
  destruct (channels s1 !! tk_rx t) as [[|[]| | |]|]; try (by apply Hfin).
  apply Hfin; [by apply unlock_inv|apply unlock_shrinks].
Qed.

Lemma ticket_poll_inv F s t v s' :
  serializer_inv F s -> ticket_poll s t = Some (v, s') ->
  serializer_inv F s' /\ shrinks s s'.
Proof.
  intros Hinv. unfold ticket_poll. destruct (channels s !! tk_rx t) as [[]|] eqn:Ec; try done.
  - intros [= -> <-]. split; [|done]. apply set_channel_inv; [done|..].
    + apply (si_fresh _ _ Hinv). eauto.
    + intros r w Hw Heq. pose proof (si_open _ _ Hinv r w Hw) as Ho. rewrite Heq in Ho. congruence.
  - by intros [= <- <-].
Qed.

Lemma system_step_inv S S' : system_step S S' -> system_inv S -> system_inv S'.
Proof.
  intros Hstep [Hinv HT]. destruct Hstep; unfold system_inv; cbn in *.
  - split; [by apply run_op_inv|]. eapply tickets_ok_shrinks; [apply run_op_shrinks|done].
  - split; [|by eapply acquire_tickets].
    replace s' with (run_acquire a s).2 by (by rewrite H).
    rewrite run_acquire_eq. apply acquire_inv; [done|apply acq_waiter_ok].
  - destruct (ticket_poll_inv _ _ _ _ _ Hinv H) as [H1 H2]. split; [done|].
    eapply tickets_ok_shrinks; [done|]. rewrite Forall_app, Forall_cons in *. tauto.
  - rewrite Forall_app, Forall_cons in HT. destruct HT as (HT1 & Ht & HT2).
    destruct (ticket_drop_inv _ _ _ Hinv Ht) as [H1 H2]. split; [done|].
    eapply tickets_ok_shrinks; [done|]. by rewrite Forall_app.
Qed.

Lemma system_start_inv : system_inv system_start.
Proof.
  split; [|constructor]. split; cbn.
  - intros r. rewrite !lookup_empty. split; cbn; auto; try done. unfold MAX_WAITERS_PER_RESOURCE. lia.
  - done.
  - intros r w Hw. by apply elem_of_nil in Hw.
  - intros r. constructor.
  - intros r1 r2 w1 w2 Hw. by apply elem_of_nil in Hw.
  - intros c. rewrite lookup_empty. by intros [].
Qed.

Lemma system_reachable_inv S : system_reachable S -> system_inv S.
Proof.
  intros Hr. pattern S. revert S Hr. apply rtc_ind_r; [apply system_start_inv|].
  intros S S' _ Hstep. by apply system_step_inv.
Qed.

(** * Functional behaviour *)

Lemma send_all_told v q s w :
  NoDup (wt_tx <$> q) -> (forall w, w ∈ q -> channels s !! wt_tx w = Some ChanOpen) ->
  w ∈ q -> channels (send_all v q s) !! wt_tx w = Some (ChanSent v).
Proof.
  revert s. induction q as [|w' q IH]; intros s Hnd Hopen Hin; [by apply elem_of_nil in Hin|].
  unfold send_all; cbn [foldl]. fold (send_all v q (send s (wt_tx w') v).2).
  apply NoDup_cons in Hnd as [Hnin Hnd].
  destruct (send s (wt_tx w') v) as [b s1] eqn:E.
  destruct (send_frame _ _ _ _ _ E) as (_ & _ & _ & _ & _ & S6 & S7 & _).
  destruct (S7 (Hopen w' ltac:(by left))) as [_ Ht]; cbn.
  apply elem_of_cons in Hin as [->|Hin].
  - destruct (send_all_frame v q s1) as (_ & _ & _ & _ & _ & -> & _); done.
  - apply IH; [done| |done]. intros w2 Hw2. rewrite S6.
    + apply Hopen. by right.
    + intros Heq. apply Hnin. rewrite <- Heq. by apply list_elem_of_fmap_2.
Qed.

(** Waking a resource whose first waiter is blocked does nothing. *)
Lemma wake_blocked s r :
  front_blocked s r -> waiters s !! r <> Some [] -> wake s r = s.
Proof.
  unfold front_blocked, wake, queue_of. intros Hb Hn.
  destruct (waiters s !! r) as [[|w q]|] eqn:Eq; cbn in *; [done| |].
  - rewrite Hb. unfold put_queue, set_waiters. rewrite insert_id by done. by destruct s.
  - unfold put_queue, set_waiters. rewrite delete_id by done. by destruct s.
Qed.

(** A request that has to wait is enqueued last, and the wake that follows grants nothing. *)
Lemma acquire_waiting s r m o id rx s' :
  serializer_inv none_exempt s -> acquire s r m o = (OWaiting id rx, s') ->
  s' = (enqueue s r m o).2 /\ id = next_waiter s /\ rx = next_channel s.
Proof.
  intros Hinv. unfold acquire. destruct (process_held s r); [done|].
  case_match eqn:Hg; [done|]. case_match eqn:Hfull; [done|].
  destruct (enqueue s r m o) as [[id' rx'] s1] eqn:He. intros [= -> -> <-].
  assert (Hid : id = next_waiter s /\ rx = next_channel s) by (unfold enqueue in He; by simplify_eq).
  split; [|done]. cbn. replace s1 with (enqueue s r m o).2 by (by rewrite He).
  apply wake_blocked.
  - pose proof (si_front _ _ Hinv r ltac:(tauto)) as Hf. unfold front_blocked in *.
    rewrite queue_of_enqueue, decide_True by done.
    assert (Hcg : forall m', can_grant (enqueue s r m o).2 r m' = can_grant s r m') by done.
    destruct (queue_of s r) as [|w q] eqn:Eq; cbn; rewrite Hcg; [|done].
    unfold has_exclusive_waiter, has_waiters, waiter_count_unlocked in Hg. rewrite Eq in Hg.
    cbn in Hg. rewrite andb_false_r, orb_true_r, !andb_true_r in Hg. done.
  - unfold enqueue; cbn. rewrite lookup_insert_eq. intros [= Hnil].
    by destruct (queue_of s r).
Qed.

(** * Properties *)

(** C5: In every state that the serializer's calls, waits and cancellations reach: no resource
    is held exclusively and shared at once, shared counts are positive, a queue holds at most
    [MAX_WAITERS_PER_RESOURCE] waiters, every queued waiter's channel is still unanswered, a
    workspace that a live process holds has no waiter, only workspaces are held by processes,
    and no wakeup is lost: the first waiter of every queue could not be granted now. *)
Theorem serializer_invariant (S : System) (Hreach : system_reachable S) :
  let s := serializer S in
  forall r,
    (exclusive s !! r = None \/ shared s !! r = None) /\
    (forall n, shared s !! r = Some n -> (0 < n)%Z) /\
    length (queue_of s r) <= MAX_WAITERS_PER_RESOURCE /\
    (forall w, w ∈ queue_of s r -> channels s !! wt_tx w = Some ChanOpen) /\
    (forall p, exclusive s !! r = Some (HeldProcess p) ->
       queue_of s r = [] /\ exists ws, r = Workspace ws) /\
    front_blocked s r.
Proof.
  destruct (system_reachable_inv S Hreach) as [Hinv _]. cbv zeta. clear Hreach.
  revert Hinv. generalize (serializer S). clear S. intros s [L Fr O _ _ _] r.
  destruct (L r) as [D1 S1 B1 B2 B3 Ho B4].
  split_and!; auto; [by apply O|]. intros p Hp. split; [|by apply (Ho _ Hp)].
  unfold queue_of. by rewrite (B4 p Hp).
Qed.

(** Giving a lock back serves the resource's queue in order: a prefix of it is granted and
    told so, the rest keeps its order unanswered with a blocked first waiter, and no other
    resource changes. *)
Theorem unlock_serves_in_order (S : System) (Hreach : system_reachable S) (r : Resource)
    (m : LockMode) :
  let s := serializer S in
  let s' := unlock s r m in
  exists g, queue_of s r = g ++ queue_of s' r /\
    (forall w, w ∈ g -> channels s' !! wt_tx w = Some (ChanSent (Ok tt))) /\
    (forall w, w ∈ queue_of s' r -> channels s' !! wt_tx w = Some ChanOpen) /\
    front_blocked s' r /\
    (forall r', r' <> r -> exclusive s' !! r' = exclusive s !! r' /\
       shared s' !! r' = shared s !! r' /\ queue_of s' r' = queue_of s r').
Proof.
  destruct (system_reachable_inv S Hreach) as [Hinv _]. cbv zeta. clear Hreach.
  revert Hinv. generalize (serializer S). clear S. intros s Hinv.
  pose proof (unlock_silent_inv _ s r m Hinv) as Hu.
  pose proof (unlock_inv _ s r m Hinv) as Hf. 
  destruct (wake_ok _ _ r Hu) as [g [Hrun Helse]].
  fold (unlock s r m) in Hrun, Helse.
  destruct Hrun as [Hs _ _ He _ _ _ Ht _ _]; cbn in *.
  assert (Hframe : waiters (unlock_silent s r m) = waiters s /\ forall r', r' <> r ->
    exclusive (unlock_silent s r m) !! r' = exclusive s !! r' /\
    shared (unlock_silent s r m) !! r' = shared s !! r').
  { unfold unlock_silent. destruct m; [|destruct (shared s !! r)]; cbn; split; try done;
      intros r' Hr'; [by rewrite lookup_delete_ne|split; [done|]].
    destruct (bool_decide _); [by rewrite lookup_delete_ne|by rewrite lookup_insert_ne]. }
  destruct Hframe as [Hw Hframe]. exists g. split_and!; auto.
  - rewrite <- Hs. unfold queue_of. by rewrite Hw.
  - intros w Hw'. by apply (si_open _ _ Hf r).
  - apply (si_front _ _ Hf). tauto.
  - intros r' Hr'. destruct (He r' Hr') as [-> ->]. destruct (Hframe r' Hr') as [-> ->].
    split_and!; try done. unfold queue_of. rewrite Helse by done. by rewrite Hw.
Qed.

(** What an acquire answers: [Busy] exactly when a live process holds the workspace or the
    queue is full, and then nothing changes; [Granted] only when the lock is free for the mode
    and no earlier waiter is overtaken (a shared request may join unless an exclusive one
    waits); otherwise the request is queued last and no holder and no other waiter changes. *)
Theorem acquire_outcomes (S : System) (Hreach : system_reachable S) (a : AcquireOp) :
  let s := serializer S in
  let r := acq_resource a in
  let m := acq_mode a in
  match run_acquire a s with
  | (OBusy e, s') =>
      s' = s /\
      (process_held s r = true /\ e = process_held_busy r \/
       process_held s r = false /\ e = queue_full /\
       length (queue_of s r) = MAX_WAITERS_PER_RESOURCE)
  | (OGranted, s') =>
      process_held s r = false /\ can_grant s r m = true /\
      s' = grant s r m (acq_owner a) /\
      (if decide (m = SharedRead) then has_exclusive_waiter s r = false
       else queue_of s r = [])
  | (OWaiting id rx, s') =>
      process_held s r = false /\
      queue_of s' r = queue_of s r ++ [mkWaiter id m (acq_owner a) rx] /\
      channels s' !! rx = Some ChanOpen /\
      exclusive s' = exclusive s /\ shared s' = shared s /\
      (forall r', r' <> r -> queue_of s' r' = queue_of s r')
  end.
Proof.
  destruct (system_reachable_inv S Hreach) as [Hinv _]. cbv zeta. clear Hreach.
  revert Hinv. generalize (serializer S). clear S. intros s Hinv.
  set (r := acq_resource a). set (m := acq_mode a).
  pose proof (lo_bound _ _ _ _ (si_local _ _ Hinv r)) as Hb. fold (queue_of s r) in Hb.
  rewrite run_acquire_eq. fold r m. destruct (acquire s r m (acq_owner a)) as [[|e|id rx] s'] eqn:Ha.
  - unfold acquire in Ha. destruct (process_held s r); [done|].
    case_match eqn:Hg; [|case_match; [done|by destruct (enqueue _ _ _ _) as [[]]]].
    apply andb_prop in Hg as [[Hg Hf]%andb_prop Hw]. simplify_eq.
    split_and!; try done. case_decide as Hm.
    + rewrite bool_decide_eq_true_2 in Hf by done. by destruct (has_exclusive_waiter s r).
    + rewrite bool_decide_eq_false_2 in Hw by done. unfold has_waiters, waiter_count_unlocked in Hw.
      destruct (queue_of s r); [done|]. cbn in Hw. by rewrite bool_decide_eq_true_2 in Hw by lia.
  - unfold acquire in Ha. destruct (process_held s r); [simplify_eq; auto|].
    case_match; [done|]. case_match eqn:Hfull; [|by destruct (enqueue _ _ _ _) as [[]]].
    simplify_eq. split; [done|]. right. split_and!; try done.
    apply bool_decide_eq_true in Hfull. unfold waiter_count_unlocked in Hfull. lia.
  - destruct (acquire_waiting s r m (acq_owner a) id rx s' Hinv Ha) as (-> & -> & ->).
    unfold acquire in Ha. destruct (process_held s r); [done|]. split; [done|].
    rewrite queue_of_enqueue, decide_True by done. split_and!; try done.
    + unfold enqueue; cbn. by rewrite lookup_insert_eq.
    + intros r' Hr'. by rewrite queue_of_enqueue, decide_False.
Qed.

(** Confirming a spawned process is a barrier: the workspace it was spawning in is held by
    the process, every request that was waiting there is told [WORKSPACE_BUSY], and every later
    acquire of the workspace is refused at once without changing anything. *)
Theorem confirm_process_is_a_barrier (S : System) (Hreach : system_reachable S)
    (ws p : string)
    (Hspawn : exclusive (serializer S) !! Workspace ws = Some (Spawning p)) :
  let s := serializer S in
  let s' := confirm_process s p in
  exclusive s' !! Workspace ws = Some (HeldProcess p) /\
  queue_of s' (Workspace ws) = [] /\
  (forall w, w ∈ queue_of s (Workspace ws) ->
     channels s' !! wt_tx w = Some (ChanSent (Err shell_busy))) /\
  (forall m o, acquire s' (Workspace ws) m o = (OBusy shell_busy, s')).
Proof.
  destruct (system_reachable_inv S Hreach) as [Hinv _]. cbv zeta. clear Hreach.
  revert Hinv Hspawn. generalize (serializer S). clear S. intros s Hinv Hspawn.
  set (r := Workspace ws) in *. unfold confirm_process. rewrite fail_all_set_exclusive.
  set (rs := holding _ s).
  assert (Hr : r ∈ rs).
  { apply elem_of_holding. eexists; split; [done|]. by apply bool_decide_eq_true. }
  destruct (fail_all_inv _ s rs shell_busy Hinv) as (H1 & H2 & H3 & H4 & H5).
  assert (Hex : (confirm_holder p <$> exclusive s) !! r = Some (HeldProcess p)).
  { rewrite lookup_fmap, Hspawn. cbn. unfold confirm_holder. by rewrite bool_decide_eq_true_2. }
  split_and!; [done|unfold queue_of; cbn; by rewrite H5| |].
  - intros w Hw; cbn.
    assert (Hkeep : forall rs s1, serializer_inv none_exempt s1 -> r ∈ rs -> w ∈ queue_of s1 r ->
      channels (foldl (fun s r => fail_waiters s r shell_busy) s1 rs) !! wt_tx w
      = Some (ChanSent (Err shell_busy))); [|by apply Hkeep].
    clear -Hinv. induction rs as [|r1 rs IH]; intros s1 Hs1 Hin Hw; cbn; [by apply elem_of_nil in Hin|].
    destruct (decide (r1 = r)) as [->|Hne].
    + assert (Hsent : channels (fail_waiters s1 r shell_busy) !! wt_tx w
                      = Some (ChanSent (Err shell_busy))).
      { unfold fail_waiters, queue_of in *.
        pose proof (si_nodup _ _ Hs1 r) as Hn. pose proof (si_open _ _ Hs1 r) as Ho.
        unfold queue_of in *. destruct (waiters s1 !! r) as [q|]; [|by apply elem_of_nil in Hw].
        by apply send_all_told. }
      revert Hsent. generalize (fail_waiters s1 r shell_busy). clear.
      induction rs as [|r2 rs IH]; intros s1 Hsent; cbn; [done|]. apply IH.
      unfold fail_waiters. destruct (waiters s1 !! r2) as [q|]; [|done].
      set (s2 := set_waiters _ _). assert (Hs2 : channels s2 !! wt_tx w
                      = Some (ChanSent (Err shell_busy))) by done.
      clearbody s2. clear -Hs2. revert s2 Hs2. unfold send_all.
      induction q as [|w' q IH]; intros s2 Hs2; cbn; [done|]. apply IH.
      unfold send. destruct (channels s2 !! wt_tx w') as [[]|] eqn:E; try done. cbn.
      rewrite lookup_insert_ne; [done|congruence].
    + destruct (fail_waiters_inv _ s1 r1 shell_busy Hs1) as (Hi & _ & _).
      apply IH; [done|by apply elem_of_cons in Hin as [|]|].
      unfold fail_waiters. destruct (waiters s1 !! r1) as [q|]; [|done].
      destruct (send_all_frame (Err shell_busy) q (set_waiters s1 (delete r1 (waiters s1))))
        as (_ & _ & Hsw & _). unfold queue_of. rewrite Hsw. cbn. by rewrite lookup_delete_ne.
  - intros m o. unfold acquire, process_held, r. cbn. fold r. by rewrite Hex.
Qed.

(** * Concrete runs *)

(** Acquires one after the other, keeping the tickets. *)
Fixpoint acquires (l : list AcquireOp) (S : System) : System :=
  match l with
  | [] => S
  | a :: l =>
      let (oc, s) := run_acquire a (serializer S) in
      acquires l (mkSystem s (ticket_for a oc ++ tickets S))
  end.

Lemma acquires_steps l S : rtc system_step S (acquires l S).
Proof.
  revert S. induction l as [|a l IH]; intros [s T]; cbn; [done|].
  destruct (run_acquire a s) as [oc s'] eqn:E.
  eapply rtc_l; [by apply sys_acquire|apply IH].
Qed.

(** A write is under way in "w", an exec and another write wait for it. *)
Definition busy_run : System :=
  acquires [AcqWrite "w"; AcqShell "w" "p"; AcqWrite "w"] system_start.
(** An exec is spawning in "w", and two writes wait for it. *)
Definition spawning_run : System :=
  acquires [AcqShell "w" "p"; AcqWrite "w"; AcqWrite "w"] system_start.

Lemma serializer_invariant_witness :
  system_reachable busy_run /\
  length (queue_of (serializer busy_run) (Workspace "w")) = 2 /\
  front_blocked (serializer busy_run) (Workspace "w").
Proof.
  split; [apply acquires_steps|]. split; [done|].
  apply (serializer_invariant busy_run (acquires_steps _ _) (Workspace "w")).
Defined.

Lemma unlock_serves_in_order_witness :
  exclusive (unlock (serializer busy_run) (Workspace "w") Exclusive) !! Workspace "w"
    = Some (Spawning "p") /\
  front_blocked (unlock (serializer busy_run) (Workspace "w") Exclusive) (Workspace "w").
Proof.
  split; [done|].
  destruct (unlock_serves_in_order busy_run (acquires_steps _ _) (Workspace "w") Exclusive)
    as (g & _ & _ & _ & Hf & _). exact Hf.
Defined.

Lemma acquire_outcomes_witness :
  (run_acquire (AcqWrite "w") (serializer busy_run)).1 = OWaiting 2 2 /\
  length (queue_of (run_acquire (AcqWrite "w") (serializer busy_run)).2 (Workspace "w")) = 3.
Proof.
  pose proof (acquire_outcomes busy_run (acquires_steps _ _) (AcqWrite "w")) as H.
  split; [done|]. cbn zeta in H.
  destruct (run_acquire (AcqWrite "w") (serializer busy_run)) as [[|e|id rx] s'] eqn:E;
    [vm_compute in E; discriminate E|vm_compute in E; discriminate E|].
  cbn [snd]. change (Workspace "w") with (acq_resource (AcqWrite "w")).
  destruct H as (_ & -> & _). by rewrite length_app.
Defined.

Lemma confirm_process_is_a_barrier_witness :
  length (queue_of (serializer spawning_run) (Workspace "w")) = 2 /\
  channels (confirm_process (serializer spawning_run) "p") !! 0 = Some (ChanSent (Err shell_busy)).
Proof.
  split; [done|].
  destruct (confirm_process_is_a_barrier spawning_run (acquires_steps _ _) "w" "p")
    as (_ & _ & H & _); [done|].
  apply (H (mkWaiter 0 Exclusive Request 0)). by left.
Defined.

(** A ticket whose grant has not been looked at gives back whatever is held when it is dropped.
    The first write is released, the spawn "p" is granted; the runner's loss releases every
    process ([release_all_processes]), so the second write is granted; dropping the spawn's
    ticket then takes the second write's lock away, and a third write is granted beside it. *)
Example stale_ticket_releases_another_lock :
  let s := release_write (serializer busy_run) "w" in
  let s := release_all_processes s in
  let second := ticket_poll s (mkWaitTicket (Workspace "w") Exclusive 1 1) in
  let s := default s (snd <$> second) in
  let s := ticket_drop s (mkWaitTicket (Workspace "w") Exclusive 0 0) in
  fst <$> second = Some (Ok tt) /\ (run_acquire (AcqWrite "w") s).1 = OGranted.
Proof. done. Qed.
