(* ===== verification/Ledger.v ===== *)
(** The patch-operation ledger of [crates/store/src/lib.rs]: [begin], [finish], [abandon],
    [get], [status_lookup], [find_operation_by_fingerprint] and [store_id] over the
    [operations] and [store_identity] tables. *)
From S2P Require Import Prelude Domain.

(** * Tables *)

(** A row of [operations], without its primary key. *)
Record OperationRow := mkOperationRow {
  op_operation_key : option string;
  op_workspace_id : string;
  op_fingerprint : string;
  op_status : string;
  op_result_json : string;
  op_created_at : Z;
  op_finished_at : option Z;
  op_events_json : option string
}.

Record LedgerDb := mkLedgerDb {
  operations : gmap string OperationRow;
  (** The single row of [store_identity]: [store_id] and [created_at_ms]. *)
  store_identity : option (string * Z)
}.

Definition ledger_empty : LedgerDb := mkLedgerDb ∅ None.

Definition set_operations (db : LedgerDb) (ops : gmap string OperationRow) : LedgerDb :=
  mkLedgerDb ops (store_identity db).

(** [Row]: the selected columns. *)
Record Row := mkRow {
  row_operation_id : string;
  row_fingerprint : string;
  row_result_json : string;
  row_workspace_id : string;
  row_created_at : Z;
  row_finished_at : option Z;
  row_events_json : option string
}.

Record StoredOperation := mkStoredOperation {
  so_operation_id : string;
  so_status : PatchStatus;
  so_replayed : bool;
  so_result : ApplyPatchResult;
  so_workspace_id : string;
  so_created_at : Z;
  so_finished_at : option Z;
  so_events : list OperationEvent
}.

Inductive Begin :=
  | Fresh (operation_id : string)
  | Replayed (stored : StoredOperation).

Definition status_str (s : PatchStatus) : string :=
  match s with
  | Applied => "applied"
  | Checked => "checked"
  | Rejected => "rejected"
  | FailedRolledBack => "failed_rolled_back"
  | FailedPartial => "failed_partial"
  | PatchUnknown => "unknown"
  end.

(** A failed statement's error: every caller maps it through [sql_err]. *)
Definition sql_err (text : string) : ErrorBody := error_body OperationNotFound text.

Definition operation_key_conflict : ErrorBody :=
  error_body OperationKeyConflict "operation_key reused with a different request".
Definition unknown_operation_id : ErrorBody :=
  error_body OperationNotFound "unknown operation_id".
Definition unknown_operation_key : ErrorBody :=
  error_body OperationNotFound "unknown operation_key".
Definition exactly_one_of : ErrorBody :=
  error_body OperationNotFound "provide exactly one of operation_id or operation_key".

Section ledger.
Context `{Sql : SqlEngine} `{JR : Json ApplyPatchResult} `{JE : Json (list OperationEvent)}.

(** * Reading rows *)

Definition map_operation_row (kv : string * OperationRow) : Row :=
  let (id, r) := kv in
  mkRow id (op_fingerprint r) (op_result_json r) (op_workspace_id r) (op_created_at r)
    (op_finished_at r) (op_events_json r).

Definition row_events (r : Row) : list OperationEvent :=
  match row_events_json r with
  | Some raw => if bool_decide (raw = "") then [] else default [] (of_json raw)
  | None => []
  end.

Definition with_replayed (r : ApplyPatchResult) (b : bool) : ApplyPatchResult :=
  mkApplyPatchResult (ap_status r) (ap_operation_id r) b (ap_files r) (ap_changes r)
    (ap_work_id r) (ap_coordination r).

Definition into_stored (r : Row) (replayed : bool) : StoredOperation :=
  let result := default (apply_patch_result_new PatchUnknown (row_operation_id r))
                  (of_json (row_result_json r)) in
  mkStoredOperation (row_operation_id r) (ap_status result) replayed
    (with_replayed result replayed) (row_workspace_id r) (row_created_at r)
    (row_finished_at r) (row_events r).

Definition key_is (key : string) (kv : string * OperationRow) : Prop :=
  op_operation_key kv.2 = Some key.

#[export] Instance key_is_dec key kv : Decision (key_is key kv).
Proof. unfold key_is. exact _. Defined.

(** [query_row] without [ORDER BY] takes the first row the engine comes to. *)
Definition load_by_key (db : LedgerDb) (key : string) : option Row :=
  map_operation_row <$>
    head (sql_order_by (fun _ _ => true) (filter (key_is key) (map_to_list (operations db)))).

Definition load_by_id (db : LedgerDb) (id : string) : option Row :=
  (fun r => map_operation_row (id, r)) <$> operations db !! id.

(** * Operations *)

(** [INSERT INTO operations]: the primary key and the unique index on the key refuse. *)
Definition insert_operation (db : LedgerDb) (id : string) (r : OperationRow) : res LedgerDb :=
  if is_some (operations db !! id)
  then Err (sql_err (sql_unique_failed "operations.operation_id"))
  else match op_operation_key r with
       | Some key =>
           if bool_decide (filter (key_is key) (map_to_list (operations db)) <> [])
           then Err (sql_err (sql_unique_failed "operations.operation_key"))
           else Ok (set_operations db (<[id := r]> (operations db)))
       | None => Ok (set_operations db (<[id := r]> (operations db)))
       end.

(** [uuid] and [now] are what [Uuid::new_v4] and [now_secs] answer. *)
Definition begin (db : LedgerDb) (operation_key : option string)
    (workspace_id fingerprint uuid : string) (now : Z) : res Begin * LedgerDb :=
  let fresh :=
    let id := "op-" +:+ uuid in
    let pending := apply_patch_result_new PatchUnknown id in
    let r := mkOperationRow operation_key workspace_id fingerprint (status_str PatchUnknown)
               (to_json pending) now None (Some (to_json [event_minted now])) in
    match insert_operation db id r with
    | Ok db' => (Ok (Fresh id), db')
    | Err e => (Err e, db)
    end in
  match operation_key with
  | Some key =>
      match load_by_key db key with
      | Some row =>
          if bool_decide (row_fingerprint row <> fingerprint)
          then (Err operation_key_conflict, db)
          else (Ok (Replayed (into_stored row true)), db)
      | None => fresh
      end
  | None => fresh
  end.

Definition abandon (db : LedgerDb) (id : string) : bool * LedgerDb :=
  match operations db !! id with
  | Some r => if is_none (op_finished_at r)
              then (true, set_operations db (delete id (operations db)))
              else (false, db)
  | None => (false, db)
  end.

(** [now_ms] is the clock's answer in milliseconds: [i64::try_from(..).unwrap_or(i64::MAX)]. *)
Definition store_id (db : LedgerDb) (uuid : string) (now_ms : Z) : string * LedgerDb :=
  match store_identity db with
  | Some (id, _) => (id, db)
  | None =>
      let id := "store-" +:+ uuid in
      (id, mkLedgerDb (operations db) (Some (id, Z.min now_ms i64_max)))
  end.

Definition finish_events (r : Row) (now : Z) (status : PatchStatus) : list OperationEvent :=
  let events := row_events r in
  let events :=
    if existsb (fun e => bool_decide (ev_name e = Minted)) events then events
    else event_minted (row_created_at r) :: events in
  events ++ [event_finished now status].

Definition finish (db : LedgerDb) (id : string) (result : ApplyPatchResult) (now : Z)
    : res unit * LedgerDb :=
  match operations db !! id with
  | None => (Err unknown_operation_id, db)
  | Some r =>
      let events := finish_events (map_operation_row (id, r)) now (ap_status result) in
      let r' := mkOperationRow (op_operation_key r) (op_workspace_id r) (op_fingerprint r)
                  (status_str (ap_status result)) (to_json result) (op_created_at r)
                  (Some now) (Some (to_json events)) in
      (Ok tt, set_operations db (<[id := r']> (operations db)))
  end.

Definition get (db : LedgerDb) (id : string) : res StoredOperation :=
  ok_or unknown_operation_id ((fun row => into_stored row false) <$> load_by_id db id).

Definition to_status (s : StoredOperation) : OperationStatusResult :=
  {| os_operation_id := so_operation_id s; os_status := so_status s; os_replayed := false;
     os_kind := KindPatch; os_workspace_id := so_workspace_id s;
     os_created_at := so_created_at s; os_finished_at := so_finished_at s;
     os_files := ap_files (so_result s); os_changes := ap_changes (so_result s);
     os_events := so_events s |}.

Definition status_lookup (db : LedgerDb) (id key : option string) : res OperationStatusResult :=
  match id, key with
  | Some id, None => to_status <$> get db id
  | None, Some key =>
      to_status <$> ok_or unknown_operation_key
        ((fun row => into_stored row false) <$> load_by_key db key)
  | _, _ => Err exactly_one_of
  end.

Definition fingerprint_is (workspace_id fingerprint : string) (not_before : option Z)
    (kv : string * OperationRow) : Prop :=
  op_workspace_id kv.2 = workspace_id /\ op_fingerprint kv.2 = fingerprint /\
  match not_before with Some t => (t <= op_created_at kv.2)%Z | None => True end.

#[export] Instance fingerprint_is_dec ws fp t kv : Decision (fingerprint_is ws fp t kv).
Proof. unfold fingerprint_is. destruct t; exact _. Defined.

(** [ORDER BY created_at DESC]. *)
Definition newest_first (a b : string * OperationRow) : bool :=
  bool_decide (op_created_at b.2 <= op_created_at a.2)%Z.

Definition find_operation_by_fingerprint (db : LedgerDb) (workspace_id fingerprint : string)
    (created_not_before : option Z) : option StoredOperation :=
  (fun kv => into_stored (map_operation_row kv) false) <$>
    head (sql_order_by newest_first
            (filter (fingerprint_is workspace_id fingerprint created_not_before)
               (map_to_list (operations db)))).

(** * Histories *)

Inductive LedgerOp :=
  | LBegin (key : option string) (workspace_id fingerprint uuid : string) (now : Z)
  | LAbandon (id : string)
  | LFinish (id : string) (result : ApplyPatchResult) (now : Z)
  | LStoreId (uuid : string) (now_ms : Z).

Definition ledger_run (op : LedgerOp) (db : LedgerDb) : LedgerDb :=
  match op with
  | LBegin key ws fp uuid now => (begin db key ws fp uuid now).2
  | LAbandon id => (abandon db id).2
  | LFinish id result now => (finish db id result now).2
  | LStoreId uuid now => (store_id db uuid now).2
  end.

Definition ledger_runs (ops : list LedgerOp) (db : LedgerDb) : LedgerDb :=
  foldl (fun db op => ledger_run op db) db ops.
End ledger.

(** * Lemmas *)

Section facts.
Context `{Sql : SqlEngine} `{JR : Json ApplyPatchResult} `{JE : Json (list OperationEvent)}.
Implicit Types (db : LedgerDb) (r : OperationRow) (id key : string).

Definition unique_keys db : Prop :=
  forall id1 id2 r1 r2 key,
    operations db !! id1 = Some r1 -> operations db !! id2 = Some r2 ->
    op_operation_key r1 = Some key -> op_operation_key r2 = Some key -> id1 = id2.

Lemma key_rows_elem db key kv :
  kv ∈ filter (key_is key) (map_to_list (operations db)) <->
  operations db !! kv.1 = Some kv.2 /\ op_operation_key kv.2 = Some key.
Proof.
  destruct kv as [id r]. rewrite list_elem_of_filter, elem_of_map_to_list.
  unfold key_is; cbn. tauto.
Qed.

Lemma key_rows_nil db key :
  filter (key_is key) (map_to_list (operations db)) = [] <->
  forall id r, operations db !! id = Some r -> op_operation_key r <> Some key.
Proof.
  split.
  - intros Hnil id r Hid Hk. apply (not_elem_of_nil (id, r)). rewrite <- Hnil.
    by apply key_rows_elem.
  - intros Hno. destruct (filter _ _) as [|kv l] eqn:E; [done|].
    assert (Hin : kv ∈ kv :: l) by (by left). rewrite <- E in Hin.
    apply key_rows_elem in Hin as [Hid Hk]. by destruct (Hno _ _ Hid).
Qed.

Lemma load_by_key_none db key :
  load_by_key db key = None <->
  forall id r, operations db !! id = Some r -> op_operation_key r <> Some key.
Proof.
  rewrite <- key_rows_nil. unfold load_by_key. by rewrite fmap_None, sql_head_none.
Qed.

Lemma load_by_key_elem db key row :
  load_by_key db key = Some row ->
  exists id r, operations db !! id = Some r /\ op_operation_key r = Some key /\
    row = map_operation_row (id, r).
Proof.
  unfold load_by_key. rewrite fmap_Some. intros ([id r] & Hh & ->).
  apply sql_head_elem, key_rows_elem in Hh as [??]. eauto.
Qed.

Lemma load_by_key_unique db key id r :
  unique_keys db -> operations db !! id = Some r -> op_operation_key r = Some key ->
  load_by_key db key = Some (map_operation_row (id, r)).
Proof.
  intros Hu Hid Hk. destruct (load_by_key db key) as [row|] eqn:E.
  - apply load_by_key_elem in E as (id' & r' & Hid' & Hk' & ->).
    assert (id' = id) as -> by eauto. by simplify_eq.
  - by destruct (proj1 (load_by_key_none db key) E id r Hid).
Qed.

Lemma row_events_to_json id r l :
  op_events_json r = Some (to_json l) -> row_events (map_operation_row (id, r)) = l.
Proof.
  intros He. unfold row_events; cbn. rewrite He.
  rewrite bool_decide_eq_false_2 by apply to_json_nonempty. by rewrite of_to_json.
Qed.

Lemma into_stored_to_json id r res l b :
  op_result_json r = to_json res -> op_events_json r = Some (to_json l) ->
  into_stored (map_operation_row (id, r)) b =
  mkStoredOperation id (ap_status res) b (with_replayed res b) (op_workspace_id r)
    (op_created_at r) (op_finished_at r) l.
Proof.
  intros Hr He. unfold into_stored. rewrite (row_events_to_json id r l He).
  cbn. rewrite Hr, of_to_json. done.
Qed.

Lemma insert_operation_ok db id r db' :
  insert_operation db id r = Ok db' ->
  operations db !! id = None /\ db' = set_operations db (<[id := r]> (operations db)) /\
  forall key, op_operation_key r = Some key ->
    forall id' r', operations db !! id' = Some r' -> op_operation_key r' <> Some key.
Proof.
  unfold insert_operation. destruct (operations db !! id) eqn:E; [done|]. cbn.
  destruct (op_operation_key r) as [key|] eqn:Ek.
  - case_bool_decide as Hn; [done|]. intros [= <-]. split_and!; [done..|].
    intros key' [= <-]. apply key_rows_nil. by destruct (filter _ _).
  - intros [= <-]. by split_and!.
Qed.

(** The pending row that [begin] inserts. *)
Definition minted_row (key : option string) (ws fp : string) id (now : Z) : OperationRow :=
  mkOperationRow key ws fp (status_str PatchUnknown)
    (to_json (apply_patch_result_new PatchUnknown id)) now None
    (Some (to_json [event_minted now])).

(** [begin] case by case. *)
Lemma begin_cases db (key : option string) ws fp uuid now :
  let id := "op-" +:+ uuid in
  (exists k row, key = Some k /\ load_by_key db k = Some row /\
     begin db key ws fp uuid now =
       (if bool_decide (row_fingerprint row <> fp) then Err operation_key_conflict
        else Ok (Replayed (into_stored row true)), db)) \/
  ((forall k, key = Some k -> load_by_key db k = None) /\
   ((exists e, insert_operation db id (minted_row key ws fp id now) = Err e /\
      begin db key ws fp uuid now = (Err e, db)) \/
    (operations db !! id = None /\
     begin db key ws fp uuid now =
       (Ok (Fresh id),
        set_operations db (<[id := minted_row key ws fp id now]> (operations db)))))).
Proof.
  intros id. unfold begin. fold id. fold (minted_row key ws fp id now).
  assert (Hf : (exists e, insert_operation db id (minted_row key ws fp id now) = Err e) \/
    insert_operation db id (minted_row key ws fp id now)
    = Ok (set_operations db (<[id := minted_row key ws fp id now]> (operations db))) /\
    operations db !! id = None).
  { destruct (insert_operation db id _) as [db'|e] eqn:E; [|eauto].
    apply insert_operation_ok in E as (? & -> & _). auto. }
  destruct key as [k|]; [destruct (load_by_key db k) as [row|] eqn:El|].
  - left. exists k, row. split_and!; [done..|]. by case_bool_decide.
  - right. split; [naive_solver|]. destruct Hf as [[e ->]|[-> ?]]; eauto.
  - right. split; [done|]. destruct Hf as [[e ->]|[-> ?]]; eauto.
Qed.

(** * The invariant *)

Definition finished_events (fins : list (Z * PatchStatus)) : list OperationEvent :=
  (fun p => event_finished p.1 p.2) <$> fins.

(** A row's events are its minting and the times it was finished; its result is the pending
    one until then, and its [status] column names its result's status. *)
Record row_ok id r (fins : list (Z * PatchStatus)) (result : ApplyPatchResult) : Prop := {
  ro_events : op_events_json r =
    Some (to_json (event_minted (op_created_at r) :: finished_events fins));
  ro_finished : op_finished_at r = fst <$> last fins;
  ro_result : op_result_json r = to_json result;
  ro_status : op_status r = status_str (ap_status result);
  ro_last : match last fins with
            | None => result = apply_patch_result_new PatchUnknown id
            | Some (_, s) => ap_status result = s
            end
}.

Record ledger_inv db : Prop := {
  li_keys : unique_keys db;
  li_rows : forall id r, operations db !! id = Some r -> exists fins result, row_ok id r fins result
}.

Lemma minted_row_ok (key : option string) ws fp id now :
  row_ok id (minted_row key ws fp id now) [] (apply_patch_result_new PatchUnknown id).
Proof. by split. Qed.

Definition finished_row r (result : ApplyPatchResult) (now : Z) (events : list OperationEvent) :=
  mkOperationRow (op_operation_key r) (op_workspace_id r) (op_fingerprint r)
    (status_str (ap_status result)) (to_json result) (op_created_at r) (Some now)
    (Some (to_json events)).

Lemma finish_events_minted id r fins now s :
  op_events_json r = Some (to_json (event_minted (op_created_at r) :: finished_events fins)) ->
  finish_events (map_operation_row (id, r)) now s =
  event_minted (op_created_at r) :: finished_events (fins ++ [(now, s)]).
Proof.
  intros He. unfold finish_events. rewrite (row_events_to_json id r _ He). cbn.
  unfold finished_events. by rewrite fmap_app.
Qed.

Lemma finish_row db id r fins result0 result now :
  operations db !! id = Some r -> row_ok id r fins result0 ->
  let r' := finished_row r result now
    (event_minted (op_created_at r) :: finished_events (fins ++ [(now, ap_status result)])) in
  finish db id result now = (Ok tt, set_operations db (<[id := r']> (operations db))) /\
  row_ok id r' (fins ++ [(now, ap_status result)]) result.
Proof.
  intros Hid [He _ _ _ _]. unfold finish. rewrite Hid.
  rewrite (finish_events_minted id r fins now _ He). split; [done|].
  split; cbn; rewrite ?last_snoc; done.
Qed.

Lemma set_operations_inv db id r :
  ledger_inv db -> (exists fins result, row_ok id r fins result) ->
  (forall key id' r', op_operation_key r = Some key -> operations db !! id' = Some r' ->
     op_operation_key r' = Some key -> id' = id) ->
  ledger_inv (set_operations db (<[id := r]> (operations db))).
Proof.
  intros [Hk Hr] Hok Hu. split; unfold unique_keys; cbn.
  - intros id1 id2 r1 r2 key H1 H2 K1 K2.
    apply lookup_insert_Some in H1 as [[<- <-]|[? H1]];
      apply lookup_insert_Some in H2 as [[<- <-]|[? H2]]; eauto.
    symmetry; eauto.
  - intros id' r' [[<- <-]|[? Hid]]%lookup_insert_Some; eauto.
Qed.

Lemma begin_inv db (key : option string) ws fp uuid now :
  ledger_inv db -> ledger_inv (begin db key ws fp uuid now).2.
Proof.
  intros Hinv. destruct (begin_cases db key ws fp uuid now)
    as [(k & row & _ & _ & ->)|[Hnk [(e & _ & ->)|[Hid ->]]]]; [done..|].
  cbn [snd]. apply set_operations_inv; [done|eauto using minted_row_ok|].
  intros k id' r' Hk Hid' Hk'. destruct (proj1 (load_by_key_none db k) (Hnk k Hk) id' r' Hid' Hk').
Qed.

Lemma finish_inv db id result now : ledger_inv db -> ledger_inv (finish db id result now).2.
Proof.
  intros Hinv. destruct (operations db !! id) as [r|] eqn:Hid.
  - destruct (li_rows _ Hinv id r Hid) as (fins & result0 & Hok).
    destruct (finish_row db id r fins result0 result now Hid Hok) as [-> Hok'].
    cbn [snd]. apply set_operations_inv; [done|eauto|].
    intros k id' r' Hk Hid' Hk'. by eapply (li_keys _ Hinv id' id).
  - unfold finish. by rewrite Hid.
Qed.

Lemma abandon_inv db id : ledger_inv db -> ledger_inv (abandon db id).2.
Proof.
  intros [Hk Hr]. unfold abandon. destruct (operations db !! id) as [r|]; [|done].
  destruct (is_none _); [|done]. split; unfold unique_keys; cbn.
  - intros id1 id2 r1 r2 k [_ H1]%lookup_delete_Some [_ H2]%lookup_delete_Some. eauto.
  - intros id' r' [_ H1]%lookup_delete_Some. eauto.
Qed.

Lemma ledger_run_inv op db : ledger_inv db -> ledger_inv (ledger_run op db).
Proof.
  destruct op; cbn [ledger_run]; auto using begin_inv, finish_inv, abandon_inv.
  intros [Hk Hr]. unfold store_id. destruct (store_identity db) as [[]|]; by split.
Qed.

Lemma ledger_runs_inv ops db : ledger_inv db -> ledger_inv (ledger_runs ops db).
Proof.
  revert db. induction ops as [|op ops IH]; intros db Hinv; [done|].
  apply IH, ledger_run_inv, Hinv.
Qed.

Lemma ledger_empty_inv : ledger_inv ledger_empty.
Proof.
  split; unfold unique_keys; cbn.
  - intros id1 id2 r1 r2 k H1. by rewrite lookup_empty in H1.
  - intros id r H1. by rewrite lookup_empty in H1.
Qed.

(** A step that does not finish or abandon an operation leaves its row. *)
Definition leaves id (op : LedgerOp) : Prop :=
  match op with
  | LAbandon id' | LFinish id' _ _ => id' <> id
  | LBegin _ _ _ _ _ | LStoreId _ _ => True
  end.

Lemma ledger_run_leaves id op db r :
  leaves id op -> operations db !! id = Some r -> operations (ledger_run op db) !! id = Some r.
Proof.
  intros Hl Hid. destruct op as [key ws fp uuid now|id'|id' res now|uuid now]; cbn in *.
  - destruct (begin_cases db key ws fp uuid now)
      as [(k & row & _ & _ & ->)|[Hnk [(e & _ & ->)|[Hid' ->]]]]; [done..|].
    cbn. rewrite lookup_insert_ne; [done|congruence].
  - unfold abandon. destruct (operations db !! id') as [r'|]; [|done].
    destruct (is_none _); [|done]. cbn. by rewrite lookup_delete_ne.
  - unfold finish. destruct (operations db !! id') as [r'|]; [|done].
    cbn. by rewrite lookup_insert_ne.
  - unfold store_id. by destruct (store_identity db) as [[]|].
Qed.

Lemma ledger_runs_leave id ops db r :
  Forall (leaves id) ops -> operations db !! id = Some r ->
  operations (ledger_runs ops db) !! id = Some r.
Proof.
  revert db. induction ops as [|op ops IH]; intros db Hl Hid; [done|].
  apply Forall_cons in Hl as [Hl Hls]. apply IH; [done|]. by apply ledger_run_leaves.
Qed.

End facts.

(** * Properties *)

Section properties.
Context `{Sql : SqlEngine} `{JR : Json ApplyPatchResult} `{JE : Json (list OperationEvent)}.

(** Whatever sequence of begins, finishes and abandons the ledger went through: no two
    operations share an operation key; every row's events are its minting followed by the
    times it was finished, its [finished_at] is the last of those, its [result_json] reads back
    and its [status] column names that result's status, the pending one until it is finished. *)
Theorem ledger_invariant (ops : list LedgerOp) :
  let db := ledger_runs ops ledger_empty in
  (forall id1 id2 r1 r2 key,
     operations db !! id1 = Some r1 -> operations db !! id2 = Some r2 ->
     op_operation_key r1 = Some key -> op_operation_key r2 = Some key -> id1 = id2) /\
  (forall id r, operations db !! id = Some r ->
     exists fins result, row_ok id r fins result).
Proof.
  intros db. destruct (ledger_runs_inv ops _ ledger_empty_inv) as [Hk Hr]. by split.
Qed.

(** C9: [begin] with an operation key never starts the same request twice: it replays the
    operation that has the key, unchanged, when the fingerprints agree, refuses with
    [OPERATION_KEY_CONFLICT] when they do not, and mints a fresh operation, unfinished and
    absent before, exactly when no operation has the key and the fresh id is unused. *)
Theorem begin_at_most_once (ops : list LedgerOp) (key ws fp uuid : string) (now : Z) :
  let db := ledger_runs ops ledger_empty in
  let id := "op-" +:+ uuid in
  match begin db (Some key) ws fp uuid now with
  | (Ok (Replayed stored), db') =>
      db' = db /\ exists id0 r, operations db !! id0 = Some r /\
        op_operation_key r = Some key /\ op_fingerprint r = fp /\
        so_operation_id stored = id0 /\ so_replayed stored = true /\
        of_json (op_result_json r) = Some (with_replayed (so_result stored)
          (default false (ap_replayed <$> of_json (op_result_json r))))
  | (Ok (Fresh id'), db') =>
      id' = id /\ operations db !! id = None /\
      (forall id0 r, operations db !! id0 = Some r -> op_operation_key r <> Some key) /\
      operations db' = <[id := minted_row (Some key) ws fp id now]> (operations db)
  | (Err e, db') =>
      db' = db /\
      ((e = operation_key_conflict /\ exists id0 r, operations db !! id0 = Some r /\
          op_operation_key r = Some key /\ op_fingerprint r <> fp) \/
       (e = sql_err (sql_unique_failed "operations.operation_id") /\
          is_Some (operations db !! id)))
  end.
Proof.
  intros db id. pose proof (ledger_runs_inv ops _ ledger_empty_inv) as Hinv. fold db in Hinv.
  destruct (begin_cases db (Some key) ws fp uuid now)
    as [(k & row & [= <-] & Hrow & ->)|[Hnk [(e & He & ->)|[Hid ->]]]].
  - destruct (load_by_key_elem _ _ _ Hrow) as (id0 & r & Hid0 & Hk & ->).
    change (row_fingerprint (map_operation_row (id0, r))) with (op_fingerprint r).
    case_bool_decide as Hfp; [split; [done|]; left; split; [done|]; by exists id0, r|]. split; [done|].
    destruct (li_rows _ Hinv _ _ Hid0) as (fins & result & Hok).
    exists id0, r.
    rewrite (into_stored_to_json id0 r result _ true (ro_result _ _ _ _ Hok)
               (ro_events _ _ _ _ Hok)), (ro_result _ _ _ _ Hok), of_to_json.
    split_and!; try done. by destruct result.
  - split; [done|]. right. specialize (Hnk key eq_refl). fold id in He. revert He.
    unfold insert_operation. destruct (operations db !! id); cbn; [intros [= <-]; eauto|].
    rewrite bool_decide_eq_false_2; [done|]. intros Hne. apply Hne, key_rows_nil.
    by apply load_by_key_none.
  - split_and!; try done. by apply load_by_key_none, Hnk.
Qed.

(** C23: An operation's result is durable under its id and its key: once [begin] minted an
    operation and [finish] recorded a result, whatever else happened before and between on
    other operations, [get] and [status_lookup] report exactly that result, with the minted
    and finished events; every later [begin] with the key replays it or is refused for another
    fingerprint, and [abandon] no longer removes it. *)
Theorem operation_roundtrip (before between after : list LedgerOp)
    (key ws fp uuid : string) (now later : Z) (result : ApplyPatchResult) :
  let db0 := ledger_runs before ledger_empty in
  let id := "op-" +:+ uuid in
  (begin db0 (Some key) ws fp uuid now).1 = Ok (Fresh id) ->
  Forall (leaves id) between -> Forall (leaves id) after ->
  let db1 := ledger_runs between (begin db0 (Some key) ws fp uuid now).2 in
  let db2 := ledger_runs after (finish db1 id result later).2 in
  let stored b := mkStoredOperation id (ap_status result) b (with_replayed result b) ws now
                    (Some later) [event_minted now; event_finished later (ap_status result)] in
  (finish db1 id result later).1 = Ok tt /\
  get db2 id = Ok (stored false) /\
  status_lookup db2 (Some id) None = Ok (to_status (stored false)) /\
  status_lookup db2 None (Some key) = Ok (to_status (stored false)) /\
  (forall ws' fp' uuid' now', begin db2 (Some key) ws' fp' uuid' now' =
     (if bool_decide (fp <> fp') then Err operation_key_conflict
      else Ok (Replayed (stored true)), db2)) /\
  abandon db2 id = (false, db2).
Proof.
  intros db0 id Hb Hl1 Hl2 db1 db2 stored.
  pose proof (ledger_runs_inv before _ ledger_empty_inv) as H0. fold db0 in H0.
  set (r0 := minted_row (Some key) ws fp id now).
  assert (H1 : operations db1 !! id = Some r0).
  { unfold db1. apply ledger_runs_leave; [done|].
    destruct (begin_cases db0 (Some key) ws fp uuid now)
      as [(k & row & _ & _ & E)|[_ [(e & _ & E)|[_ E]]]]; rewrite E in Hb |- *; cbn in Hb |- *.
    - by case_bool_decide.
    - done.
    - by rewrite lookup_insert_eq. }
  destruct (finish_row db1 id r0 [] _ result later H1 (minted_row_ok _ _ _ _ _)) as [Hf Hok].
  set (r1 := finished_row r0 result later _) in *.
  assert (H2 : operations db2 !! id = Some r1).
  { unfold db2. apply ledger_runs_leave; [done|]. rewrite Hf. cbn. by rewrite lookup_insert_eq. }
  assert (Hinv : ledger_inv db2).
  { apply ledger_runs_inv, finish_inv, ledger_runs_inv, begin_inv, H0. }
  assert (Hst : forall b, into_stored (map_operation_row (id, r1)) b = stored b).
  { intros b. by rewrite (into_stored_to_json id r1 result
      [event_minted now; event_finished later (ap_status result)] b). }
  assert (Hk : load_by_key db2 key = Some (map_operation_row (id, r1))).
  { by apply load_by_key_unique; [apply li_keys| |]. }
  assert (Hg : get db2 id = Ok (stored false)).
  { unfold get, load_by_id. rewrite H2. cbn. by rewrite <- Hst. }
  rewrite Hf. split_and!.
  - done.
  - done.
  - cbn. by rewrite Hg.
  - cbn. rewrite Hk. cbn. by rewrite <- Hst.
  - intros ws' fp' uuid' now'. unfold begin. rewrite Hk. rewrite <- Hst. cbn.
    by case_bool_decide.
  - unfold abandon. by rewrite H2.
Qed.

(** [abandon] frees exactly an operation without a result: the row of an unfinished
    operation goes, its id is unknown and its key begins afresh for any request; a finished or
    unknown operation is left and [false] is answered. *)
Theorem abandon_frees_the_key (ops : list LedgerOp) (id : string) :
  let db := ledger_runs ops ledger_empty in
  match operations db !! id with
  | Some r =>
      if decide (op_finished_at r = None) then
        let db' := (abandon db id).2 in
        (abandon db id).1 = true /\ operations db' = delete id (operations db) /\
        get db' id = Err unknown_operation_id /\
        (forall key ws fp uuid now, op_operation_key r = Some key ->
           operations db' !! ("op-" +:+ uuid) = None ->
           (begin db' (Some key) ws fp uuid now).1 = Ok (Fresh ("op-" +:+ uuid)))
      else abandon db id = (false, db)
  | None => abandon db id = (false, db)
  end.
Proof.
  intros db. pose proof (ledger_runs_inv ops _ ledger_empty_inv) as Hinv. fold db in Hinv.
  destruct (operations db !! id) as [r|] eqn:Hid; [|unfold abandon; by rewrite Hid].
  unfold abandon. rewrite Hid. case_decide as Hf.
  - rewrite Hf. cbn [is_none fst snd]. split_and!; try done.
    + unfold get, load_by_id; cbn. by rewrite lookup_delete_eq.
    + intros key ws fp uuid now Hk Hfresh. set (db' := set_operations db _) in *.
      assert (Hno : load_by_key db' key = None).
      { apply load_by_key_none. intros id' r' Hl Hk'.
        change (delete id (operations db) !! id' = Some r') in Hl.
        apply lookup_delete_Some in Hl as [Hne Hid']. apply Hne.
        by eapply (li_keys _ Hinv id id'). }
      destruct (begin_cases db' (Some key) ws fp uuid now)
        as [(k & row & [= <-] & Hrow & _)|[_ [(e & He & _)|[_ ->]]]]; [congruence| |done].
      exfalso. revert He. unfold insert_operation. rewrite Hfresh.
      cbn [is_some is_none negb op_operation_key minted_row]. rewrite bool_decide_eq_false_2; [done|]. intros Hn. apply Hn.
      by apply key_rows_nil, load_by_key_none.
  - by destruct (op_finished_at r).
Qed.

(** [find_operation_by_fingerprint] answers an operation of the workspace with the
    fingerprint, not created before the bound, and none of those was created later; it answers
    nothing only when there is none. *)
Theorem find_by_fingerprint_newest (db : LedgerDb) (ws fp : string) (t : option Z) :
  match find_operation_by_fingerprint db ws fp t with
  | Some stored =>
      exists id r, operations db !! id = Some r /\ fingerprint_is ws fp t (id, r) /\
        so_operation_id stored = id /\ so_created_at stored = op_created_at r /\
        (forall id' r', operations db !! id' = Some r' -> fingerprint_is ws fp t (id', r') ->
           (op_created_at r' <= so_created_at stored)%Z)
  | None => forall id r, operations db !! id = Some r -> ~ fingerprint_is ws fp t (id, r)
  end.
Proof.
  unfold find_operation_by_fingerprint.
  destruct (head (sql_order_by newest_first _)) as [[id r]|] eqn:E; cbn.
  - pose proof (sql_head_elem _ _ _ E) as Hin.
    apply list_elem_of_filter in Hin as [Hfp Hin%elem_of_map_to_list].
    exists id, r. split_and!; try done. intros id' r' Hid' Hfp'.
    assert (Hle : newest_first (id, r) (id', r')).
    { eapply sql_head_least; [| |exact E|].
      - intros a b. unfold newest_first. rewrite !bool_decide_spec. lia.
      - intros a b c. unfold newest_first. rewrite !bool_decide_spec. lia.
      - apply list_elem_of_filter. split; [done|]. by apply elem_of_map_to_list. }
    unfold newest_first in Hle. by rewrite bool_decide_spec in Hle.
  - intros id r Hid Hfp. apply sql_head_none in E.
    apply (not_elem_of_nil (id, r)). rewrite <- E. apply list_elem_of_filter.
    split; [done|]. by apply elem_of_map_to_list.
Qed.
End properties.

(** * A concrete run *)

Definition demo_result : ApplyPatchResult := apply_patch_result_new Applied "op-1".

Lemma operation_roundtrip_witness :
  let Sql := merge_sort_engine in
  let JR : Json ApplyPatchResult := countable_json in
  let JE : Json (list OperationEvent) := countable_json in
  let db := ledger_runs [LBegin (Some "k") "w" "fp" "1" 10; LBegin None "w" "g" "2" 11]
              ledger_empty in
  get (finish db "op-1" demo_result 12).2 "op-1" =
    Ok (mkStoredOperation "op-1" Applied false demo_result "w" 10 (Some 12%Z)
          [event_minted 10; event_finished 12 Applied]).
Proof.
  intros Sql JR JE db.
  apply (operation_roundtrip (Sql := Sql) (JR := JR) (JE := JE)
           [] [LBegin None "w" "g" "2" 11] [] "k" "w" "fp" "1" 10 12 demo_result).
  - vm_compute. reflexivity.
  - repeat constructor.
  - constructor.
Defined.
