(* ===== verification/Approvals.v ===== *)
(** The confirmation holds of [crates/store/src/approvals.rs]: the [approvals] table, the
    set of resumes in flight, and the operations of the store on them. Methods that release
    the connection between statements are split at those points, so that other threads can
    run in between. *)
From S2P Require Import Prelude Domain.

(** * Tables *)

Record ApprovalRow := mkApprovalRow {
  apr_workspace_id : string;
  apr_tool : string;
  apr_fingerprint : string;
  apr_params_json : string;
  apr_state : string;
  apr_created_at : Z;
  apr_resolved_at : option Z;
  apr_result_json : option string
}.

#[export] Instance ApprovalRow_eq_dec : EqDecision ApprovalRow.
Proof. solve_decision. Defined.

(** The [approvals] table, [resume_inflight] and [fail_next_finish]. *)
Record ApprovalsDb := mkApprovalsDb {
  approvals : gmap string ApprovalRow;
  resume_inflight : gset string;
  fail_next_finish : bool
}.

Definition approvals_empty : ApprovalsDb := mkApprovalsDb ∅ ∅ false.

Definition set_approvals (db : ApprovalsDb) (m : gmap string ApprovalRow) : ApprovalsDb :=
  mkApprovalsDb m (resume_inflight db) (fail_next_finish db).
Definition set_inflight (db : ApprovalsDb) (s : gset string) : ApprovalsDb :=
  mkApprovalsDb (approvals db) s (fail_next_finish db).

Record ApprovalRecord := mkApprovalRecord {
  ap_approval_id : string;
  ap_workspace_id : string;
  ap_tool : ApprovalTargetTool;
  ap_fingerprint : string;
  ap_params_json : string;
  ap_state : ApprovalState;
  ap_resolved_at : option Z
}.

(** [ResumeClaim]; the guard an [Execute] or [Reconcile] carries is its id's membership in
    [resume_inflight]. *)
Inductive ResumeClaim :=
  | ReplaySuccess (r : OperationResumeResult)
  | ReplayError (e : ErrorBody)
  | Execute (r : ApprovalRecord)
  | Reconcile (r : ApprovalRecord).

Inductive PersistedResume :=
  | PersistedSuccess (r : OperationResumeResult)
  | PersistedFailed (e : ErrorBody).

(** What [scrubbed_params] writes as JSON, with its constant [scrubbed: true]. *)
Record ScrubbedParams := mkScrubbedParams {
  sp_tool : string;
  sp_workspace_id : string;
  sp_fingerprint : string
}.

(** * Errors *)

Definition not_found (id : string) : ErrorBody :=
  error_body ApprovalNotFound ("unknown approval_id `" +:+ id +:+ "`").
Definition conflict (message : string) : ErrorBody := error_body ApprovalConflict message.
Definition bad_row (message : string) : ErrorBody := error_body ApprovalConflict message.
Definition db_err (text : string) : ErrorBody := error_body ApprovalNotFound ("store: " +:+ text).
Definition unknown_state (other : string) : ErrorBody :=
  conflict ("approval is in an unknown state `" +:+ other +:+ "`").

Definition ambiguous (id message : string) (operation_id : option string) : ErrorBody :=
  let err := with_approval_id (error_body ApprovalAmbiguous message) id in
  match operation_id with Some op => with_operation_id err op | None => err end.

Definition map_err {E E' A} (f : E -> E') (r : result E A) : result E' A :=
  match r with Ok a => Ok a | Err e => Err (f e) end.

(** The errors that leave a queued resume queued. *)
Definition keeps_queued (c : ErrorCode) : bool :=
  match c with
  | WorkspaceBusy | ResourceQueueFull | RecoveryPending | RunnerReconnecting
  | RunnerDisconnected | StaleController => true
  | _ => false
  end.

Section approvals.
Context `{Sql : SqlEngine} `{JP : Json PersistedResume} `{JS : Json ScrubbedParams}.
Implicit Types (db : ApprovalsDb) (id : string) (r : ApprovalRow).

(** [Row::into_record]. *)
Definition into_record (id : string) (r : ApprovalRow) : res ApprovalRecord :=
  tool ← map_err bad_row (target_tool_parse (apr_tool r));
  state ← map_err bad_row (approval_state_parse (apr_state r));
  Ok (mkApprovalRecord id (apr_workspace_id r) tool (apr_fingerprint r) (apr_params_json r)
        state (apr_resolved_at r)).

Definition scrubbed_params (tool workspace_id fingerprint : string) : string :=
  to_json (mkScrubbedParams tool workspace_id fingerprint).

(** The states that the unique index on the fingerprint covers. *)
Definition active_state (state : string) : bool :=
  bool_decide (state ∈ ["pending"; "granted"; "queued"; "resuming"]).

Definition active_fingerprint (ws fp : string) (kv : string * ApprovalRow) : Prop :=
  apr_workspace_id kv.2 = ws /\ apr_fingerprint kv.2 = fp /\ active_state (apr_state kv.2).

#[export] Instance active_fingerprint_dec ws fp kv : Decision (active_fingerprint ws fp kv).
Proof. unfold active_fingerprint. exact _. Defined.

Definition load_active_by_fingerprint db (ws fp : string) : option (string * ApprovalRow) :=
  head (sql_order_by (fun _ _ => true)
          (filter (active_fingerprint ws fp) (map_to_list (approvals db)))).

(** [UPDATE approvals SET .. WHERE approval_id = id AND ..]: whether one row was updated. *)
Definition update_approval db id (where_ : ApprovalRow -> bool) (set : ApprovalRow -> ApprovalRow)
    : bool * ApprovalsDb :=
  match approvals db !! id with
  | Some r => if where_ r then (true, set_approvals db (<[id := set r]> (approvals db)))
              else (false, db)
  | None => (false, db)
  end.

Definition state_is (state : string) (r : ApprovalRow) : bool :=
  bool_decide (apr_state r = state).

Definition set_state (state : string) (r : ApprovalRow) : ApprovalRow :=
  mkApprovalRow (apr_workspace_id r) (apr_tool r) (apr_fingerprint r) (apr_params_json r)
    state (apr_created_at r) (apr_resolved_at r) (apr_result_json r).

(** * Holding and resolving *)

(** [json] is the serialized parameters; [uuid] and [now] are what the generator and the
    clock answer. *)
Definition create_approval db (ws : string) (tool : ApprovalTargetTool) (fp json uuid : string)
    (now : Z) : res ApprovalRecord * ApprovalsDb :=
  match load_active_by_fingerprint db ws fp with
  | Some (id, r) => (into_record id r, db)
  | None =>
      let id := "appr-" +:+ uuid in
      if is_some (approvals db !! id) then
        (* The primary key refuses; no active approval has the fingerprint either. *)
        (Err (conflict "active approval fingerprint conflict"), db)
      else
        let r := mkApprovalRow ws (target_tool_as_str tool) fp json
                   (approval_state_as_str Pending) now None None in
        (Ok (mkApprovalRecord id ws tool fp json Pending None),
         set_approvals db (<[id := r]> (approvals db)))
  end.

Definition resolve_approval db id (decision : ApprovalDecision) (now : Z)
    : res ApprovalResolveResult * ApprovalsDb :=
  match approvals db !! id with
  | None => (Err (not_found id), db)
  | Some row =>
      match approval_state_parse (apr_state row) with
      | Err m => (Err (bad_row m), db)
      | Ok state =>
          if bool_decide (state <> Pending)
          then (Err (conflict "approval is no longer pending"), db)
          else
            let set r :=
              match decision with
              | Grant =>
                  mkApprovalRow (apr_workspace_id r) (apr_tool r) (apr_fingerprint r)
                    (apr_params_json r) (approval_state_as_str Granted) (apr_created_at r)
                    (Some now) (apr_result_json r)
              | Deny =>
                  mkApprovalRow (apr_workspace_id r) (apr_tool r) (apr_fingerprint r)
                    (scrubbed_params (apr_tool row) (apr_workspace_id row) (apr_fingerprint row))
                    (approval_state_as_str Denied) (apr_created_at r) (Some now)
                    (apr_result_json r)
              end in
            match update_approval db id (state_is "pending") set with
            | (true, db') =>
                (Ok {| ar_approval_id := id;
                       ar_state := match decision with Grant => Granted | Deny => Denied end |},
                 db')
            | (false, _) => (Err (conflict "approval is no longer pending"), db)
            end
      end
  end.

(** * Claiming a resume *)

Definition replay_consumed id (result_json : option string) : res ResumeClaim :=
  match result_json with
  | Some raw =>
      match of_json raw with
      | Some (PersistedSuccess result) => Ok (ReplaySuccess result)
      | Some (PersistedFailed err) => Ok (ReplayError err)
      | None => Err (ambiguous id "consumed approval has an unreadable result" None)
      end
  | None => Err (ambiguous id "consumed approval is missing a terminal result" None)
  end.

Definition mark_inflight db id : res unit * ApprovalsDb :=
  if bool_decide (id ∈ resume_inflight db)
  then (Err (conflict "resume already in progress"), db)
  else (Ok tt, set_inflight db ({[id]} ∪ resume_inflight db)).

(** [ResumeInflightGuard::drop]. *)
Definition drop_guard db id : ApprovalsDb := set_inflight db (resume_inflight db ∖ {[id]}).

(** What the first locked section of [claim_resume]'s loop does: return, or go on to mark the
    resume in flight. *)
Definition claim_load db id : res ResumeClaim + unit :=
  match approvals db !! id with
  | None => inl (Err (not_found id))
  | Some row =>
      let s := apr_state row in
      if bool_decide (s = "consumed") then inl (replay_consumed id (apr_result_json row))
      else if bool_decide (s = "pending") then inl (Err (conflict "approval is still pending"))
      else if bool_decide (s = "denied") then inl (Err (conflict "approval was denied"))
      else if bool_decide (s ∈ ["granted"; "queued"; "resuming"]) then inr tt
      else inl (Err (unknown_state s))
  end.

(** A claim keeps its guard, an error drops it. *)
Definition guarded (db : ApprovalsDb) id (claim : res ResumeClaim)
    : res ResumeClaim * ApprovalsDb :=
  (claim, if is_ok claim then db else drop_guard db id).

(** The second locked section, with the guard held: [None] is the loop's [continue]. *)
Definition claim_locked db id : option (res ResumeClaim) * ApprovalsDb :=
  let return_ p := (Some p.1, p.2) in
  match approvals db !! id with
  | None => return_ (guarded db id (Err (not_found id)))
  | Some row =>
      let s := apr_state row in
      if bool_decide (s = "granted") then
        match update_approval db id (state_is "granted") (set_state "queued") with
        | (true, db') => return_ (guarded db' id (Execute <$> into_record id row))
        | (false, _) => (None, drop_guard db id)
        end
      else if bool_decide (s = "queued") then
        return_ (guarded db id (Execute <$> into_record id row))
      else if bool_decide (s = "resuming") then
        return_ (guarded db id (Reconcile <$> into_record id row))
      else if bool_decide (s ∈ ["consumed"; "pending"; "denied"]) then (None, drop_guard db id)
      else return_ (guarded db id (Err (unknown_state s)))
  end.

(** [claim_resume], at most [fuel] rounds. [env k] is what the other threads do the [k]-th time
    that the connection is released. *)
Fixpoint claim_resume (fuel k : nat) (env : nat -> ApprovalsDb -> ApprovalsDb) db id
    : option (res ResumeClaim * ApprovalsDb) :=
  match fuel with
  | 0 => None
  | S fuel =>
      match claim_load db id with
      | inl claim => Some (claim, db)
      | inr _ =>
          match mark_inflight (env k db) id with
          | (Err e, db) => Some (Err e, db)
          | (Ok _, db) =>
              match claim_locked (env (S k) db) id with
              | (Some claim, db) => Some (claim, db)
              | (None, db) => claim_resume fuel (S (S (S k))) env (env (S (S k)) db) id
              end
          end
      end
  end.

(** * Finishing a resume *)

Definition take_fail_next_finish db : bool * ApprovalsDb :=
  (fail_next_finish db, mkApprovalsDb (approvals db) (resume_inflight db) false).

(** [finish_resume] up to its last locked section: [inl] returns, [inr] goes on to persist. *)
Definition finish_load db id (result : res OperationResumeResult)
    : (res unit + unit) * ApprovalsDb :=
  match approvals db !! id with
  | None => (inl (Err (not_found id)), db)
  | Some row =>
      if bool_decide (apr_state row = approval_state_as_str Granted) then (inl (Ok tt), db)
      else
        let queued := bool_decide (apr_state row = approval_state_as_str Queued) in
        let kept := match result with Err err => keeps_queued (code err) | Ok _ => false end in
        if queued && kept then (inl (Ok tt), db)
        else
          let (fail, db) := take_fail_next_finish db in
          if fail then
            (inl (Err (ambiguous id "resume result could not be persisted"
                         match result with
                         | Ok ok => ap_operation_id <$> or_apply_patch ok
                         | Err _ => None
                         end)), db)
          else (inr tt, db)
  end.

Definition persisted (result : res OperationResumeResult) : PersistedResume :=
  match result with Ok success => PersistedSuccess success | Err err => PersistedFailed err end.

(** The last locked section of [finish_resume]. *)
Definition finish_persist db id (result : res OperationResumeResult)
    : res unit * ApprovalsDb :=
  match approvals db !! id with
  | None => (Err (not_found id), db)
  | Some row =>
      let scrubbed :=
        scrubbed_params (apr_tool row) (apr_workspace_id row) (apr_fingerprint row) in
      let set r := mkApprovalRow (apr_workspace_id r) (apr_tool r) (apr_fingerprint r) scrubbed
                     "consumed" (apr_created_at r) (apr_resolved_at r)
                     (Some (to_json (persisted result))) in
      match update_approval db id
              (fun r => bool_decide (apr_state r ∈ ["queued"; "resuming"])) set with
      | (true, db') => (Ok tt, db')
      | (false, _) => (Err (ambiguous id "resume result could not be persisted" None), db)
      end
  end.

(** [finish_resume], [env] being what other threads do while the connection is released. *)
Definition finish_resume (env : ApprovalsDb -> ApprovalsDb) db id
    (result : res OperationResumeResult) : res unit * ApprovalsDb :=
  match finish_load db id result with
  | (inl r, db) => (r, db)
  | (inr _, db) => finish_persist (env db) id result
  end.

Definition return_resume db id : res unit * ApprovalsDb :=
  match update_approval db id (state_is "resuming") (set_state "granted") with
  | (true, db') => (Ok tt, db')
  | (false, _) => (Err (conflict "approval is not being resumed"), db)
  end.

(** [mark_resuming_on], and [mark_resuming] with it. *)
Definition mark_resuming db id : res unit * ApprovalsDb :=
  match approvals db !! id with
  | None => (Err (not_found id), db)
  | Some row =>
      if bool_decide (apr_state row = "resuming") then (Ok tt, db)
      else if bool_decide (apr_state row = "queued") then
        match update_approval db id (state_is "queued") (set_state "resuming") with
        | (true, db') => (Ok tt, db')
        | (false, _) => (Err (conflict "approval is not queued for dispatch"), db)
        end
      else (Err (unknown_state (apr_state row)), db)
  end.

(** [settle_interrupted_resume]; [env1], [env2] and [env3] run while the connection is released. *)
Definition settle_interrupted_resume (env1 env2 env3 : ApprovalsDb -> ApprovalsDb) db id
    (started : option OperationResumeResult) : res bool * ApprovalsDb :=
  match mark_inflight db id with
  | (Err e, db) => (Err e, db)
  | (Ok _, db) =>
      let finish_ (p : res bool * ApprovalsDb) := (p.1, drop_guard p.2 id) in
      match approvals (env1 db) !! id with
      | None => finish_ (Err (not_found id), env1 db)
      | Some row =>
          if bool_decide (apr_state row <> approval_state_as_str Resuming)
          then finish_ (Ok false, env1 db)
          else
            let (r, db) := match started with
                           | Some result => finish_resume env3 (env2 (env1 db)) id (Ok result)
                           | None => return_resume (env2 (env1 db)) id
                           end in
            finish_ (r ≫= fun _ => Ok true, db)
      end
  end.

(** * Inspecting and forcing *)

Definition approval db id : res (option ApprovalRecord) :=
  match approvals db !! id with
  | None => Ok None
  | Some row => Some <$> into_record id row
  end.

Definition inspect_approval db id : res (ApprovalState * string * option string) :=
  row ← ok_or (not_found id) (approvals db !! id);
  state ← map_err bad_row (approval_state_parse (apr_state row));
  Ok (state, apr_params_json row, apr_result_json row).

(** [force_approval_state]: an [UPDATE] that the unique index may refuse. *)
Definition force_approval_state db id (state : ApprovalState) (clear_result : bool)
    : res unit * ApprovalsDb :=
  match approvals db !! id with
  | None => (Err (not_found id), db)
  | Some r =>
      let others := filter (active_fingerprint (apr_workspace_id r) (apr_fingerprint r))
                      (map_to_list (delete id (approvals db))) in
      if active_state (approval_state_as_str state) && bool_decide (apr_fingerprint r <> "")
         && bool_decide (others <> [])
      then (Err (db_err (sql_unique_failed "approvals.workspace_id, approvals.fingerprint")), db)
      else
        let r' := set_state (approval_state_as_str state) r in
        let r' := if clear_result
                  then mkApprovalRow (apr_workspace_id r') (apr_tool r') (apr_fingerprint r')
                         (apr_params_json r') (apr_state r') (apr_created_at r')
                         (apr_resolved_at r') None
                  else r' in
        (Ok tt, set_approvals db (<[id := r']> (approvals db)))
  end.
End approvals.

(** * Row changes *)

Section facts.
Context `{Sql : SqlEngine} `{JP : Json PersistedResume} `{JS : Json ScrubbedParams}.
Implicit Types (db : ApprovalsDb) (id : string) (r : ApprovalRow).

Definition row_scrubbed r : string :=
  scrubbed_params (apr_tool r) (apr_workspace_id r) (apr_fingerprint r).

(** The only ways an approval's row changes. *)
Inductive row_edge : ApprovalRow -> ApprovalRow -> Prop :=
  | edge_grant r now :
      apr_state r = "pending" ->
      row_edge r (mkApprovalRow (apr_workspace_id r) (apr_tool r) (apr_fingerprint r)
                    (apr_params_json r) "granted" (apr_created_at r) (Some now)
                    (apr_result_json r))
  | edge_deny r now :
      apr_state r = "pending" ->
      row_edge r (mkApprovalRow (apr_workspace_id r) (apr_tool r) (apr_fingerprint r)
                    (row_scrubbed r) "denied" (apr_created_at r) (Some now)
                    (apr_result_json r))
  | edge_queue r : apr_state r = "granted" -> row_edge r (set_state "queued" r)
  | edge_resuming r : apr_state r = "queued" -> row_edge r (set_state "resuming" r)
  | edge_return r : apr_state r = "resuming" -> row_edge r (set_state "granted" r)
  | edge_consume r (p : PersistedResume) :
      apr_state r = "queued" \/ apr_state r = "resuming" ->
      row_edge r (mkApprovalRow (apr_workspace_id r) (apr_tool r) (apr_fingerprint r)
                    (row_scrubbed r) "consumed" (apr_created_at r) (apr_resolved_at r)
                    (Some (to_json p))).

Inductive db_change db : ApprovalsDb -> Prop :=
  | change_none db' : approvals db' = approvals db -> db_change db db'
  | change_row db' id r r' :
      approvals db !! id = Some r -> row_edge r r' ->
      approvals db' = <[id := r']> (approvals db) -> db_change db db'
  | change_new db' id ws tool fp json now :
      approvals db !! id = None -> load_active_by_fingerprint db ws fp = None ->
      approvals db' = <[id := mkApprovalRow ws (target_tool_as_str tool) fp json
                                (approval_state_as_str Pending) now None None]> (approvals db) ->
      db_change db db'.

Lemma update_approval_true db id where_ set db' :
  update_approval db id where_ set = (true, db') ->
  exists r, approvals db !! id = Some r /\ where_ r = true /\
    db' = set_approvals db (<[id := set r]> (approvals db)).
Proof.
  unfold update_approval. destruct (approvals db !! id) as [r|]; [|done].
  destruct (where_ r) eqn:E; [|done]. intros [= <-]. eauto.
Qed.

Lemma state_is_true s r : state_is s r = true -> apr_state r = s.
Proof. unfold state_is. apply bool_decide_eq_true. Qed.

Lemma create_approval_change db ws tool fp json uuid now :
  db_change db (create_approval db ws tool fp json uuid now).2.
Proof.
  unfold create_approval. destruct (load_active_by_fingerprint db ws fp) as [[id r]|] eqn:E.
  { by apply change_none. }
  destruct (approvals db !! _) eqn:Ei; cbn; [by apply change_none|]. by eapply change_new.
Qed.

Lemma resolve_approval_change db id d now : db_change db (resolve_approval db id d now).2.
Proof.
  unfold resolve_approval. destruct (approvals db !! id) as [row|] eqn:Er; [|by apply change_none].
  destruct (approval_state_parse _) as [state|m]; [|by apply change_none].
  case_bool_decide; [by apply change_none|].
  destruct (update_approval _ _ _ _) as [[] db'] eqn:Eu; [|by apply change_none].
  apply update_approval_true in Eu as (r & Hr & Hs & ->). apply state_is_true in Hs.
  rewrite Er in Hr. simplify_eq. cbn. destruct d; eapply change_row; try done;
    [by apply edge_grant|by apply (edge_deny r now)].
Qed.

Lemma claim_locked_change db id : db_change db (claim_locked db id).2.
Proof.
  unfold claim_locked. destruct (approvals db !! id) as [row|] eqn:Er; [|by apply change_none].
  assert (Hg : forall db' claim, approvals (guarded db' id claim).2 = approvals db').
  { intros db' claim. cbn. by destruct (is_ok claim). }
  case_bool_decide.
  - destruct (update_approval _ _ _ _) as [[] db'] eqn:Eu; [|by apply change_none].
    apply update_approval_true in Eu as (r & Hr & Hs & ->). apply state_is_true in Hs.
    rewrite Er in Hr. simplify_eq.
    eapply change_row; [done|by apply edge_queue|by cbn [snd]; rewrite Hg].
  - repeat case_bool_decide; apply change_none; cbn [snd]; by rewrite ?Hg.
Qed.

Lemma finish_load_change db id result :
  approvals (finish_load db id result).2 = approvals db /\
  resume_inflight (finish_load db id result).2 = resume_inflight db.
Proof.
  unfold finish_load. destruct (approvals db !! id) as [row|]; [|done].
  case_bool_decide; [done|]. destruct (_ && _); [done|]. cbn.
  by destruct (fail_next_finish db).
Qed.

Lemma finish_persist_change db id result : db_change db (finish_persist db id result).2.
Proof.
  unfold finish_persist. destruct (approvals db !! id) as [row|] eqn:Er; [|by apply change_none].
  destruct (update_approval _ _ _ _) as [[] db'] eqn:Eu; [|by apply change_none].
  apply update_approval_true in Eu as (r & Hr & Hs & ->). rewrite Er in Hr. simplify_eq.
  apply bool_decide_eq_true in Hs.
  eapply change_row; [done| |done]. apply (edge_consume r (persisted result)).
  apply elem_of_cons in Hs as [?|Hs%list_elem_of_singleton]; auto.
Qed.

Lemma return_resume_change db id : db_change db (return_resume db id).2.
Proof.
  unfold return_resume. destruct (update_approval _ _ _ _) as [[] db'] eqn:Eu;
    [|by apply change_none].
  apply update_approval_true in Eu as (r & Hr & Hs & ->). apply state_is_true in Hs.
  eapply change_row; [done|by apply edge_return|done].
Qed.

Lemma mark_resuming_change db id : db_change db (mark_resuming db id).2.
Proof.
  unfold mark_resuming. destruct (approvals db !! id) as [row|] eqn:Er; [|by apply change_none].
  repeat case_bool_decide; try by apply change_none.
  destruct (update_approval _ _ _ _) as [[] db'] eqn:Eu; [|by apply change_none].
  apply update_approval_true in Eu as (r & Hr & Hs & ->). apply state_is_true in Hs.
  eapply change_row; [done|by apply edge_resuming|done].
Qed.

(** * The store under any interleaving *)

(** Every locked section of the approval operations, except [force_approval_state]. *)
Inductive ApprovalsOp :=
  | ACreate (ws : string) (tool : ApprovalTargetTool) (fp json uuid : string) (now : Z)
  | AResolve (id : string) (d : ApprovalDecision) (now : Z)
  | AMarkInflight (id : string)
  | ADropGuard (id : string)
  | AClaimLocked (id : string)
  | AFinishLoad (id : string) (result : res OperationResumeResult)
  | AFinishPersist (id : string) (result : res OperationResumeResult)
  | AReturnResume (id : string)
  | AMarkResuming (id : string)
  | AFailNextFinish.

Definition approvals_run (op : ApprovalsOp) db : ApprovalsDb :=
  match op with
  | ACreate ws tool fp json uuid now => (create_approval db ws tool fp json uuid now).2
  | AResolve id d now => (resolve_approval db id d now).2
  | AMarkInflight id => (mark_inflight db id).2
  | ADropGuard id => drop_guard db id
  | AClaimLocked id => (claim_locked db id).2
  | AFinishLoad id result => (finish_load db id result).2
  | AFinishPersist id result => (finish_persist db id result).2
  | AReturnResume id => (return_resume db id).2
  | AMarkResuming id => (mark_resuming db id).2
  | AFailNextFinish => mkApprovalsDb (approvals db) (resume_inflight db) true
  end.

Definition approvals_runs (ops : list ApprovalsOp) db : ApprovalsDb :=
  foldl (fun db op => approvals_run op db) db ops.

Lemma approvals_run_change op db : db_change db (approvals_run op db).
Proof.
  destruct op; cbn [approvals_run];
    auto using create_approval_change, resolve_approval_change, claim_locked_change,
      finish_persist_change, return_resume_change, mark_resuming_change.
  - apply change_none. unfold mark_inflight. by case_bool_decide.
  - by apply change_none.
  - apply change_none, finish_load_change.
  - by apply change_none.
Qed.

(** * The invariant of a row *)

Record approval_row_ok r : Prop := {
  aro_tool : exists tool, apr_tool r = target_tool_as_str tool;
  aro_state : exists state, apr_state r = approval_state_as_str state;
  aro_resolved : apr_resolved_at r = None <-> apr_state r = "pending";
  aro_result : if bool_decide (apr_state r = "consumed")
               then exists p : PersistedResume, apr_result_json r = Some (to_json p)
               else apr_result_json r = None;
  aro_scrubbed : apr_state r = "denied" \/ apr_state r = "consumed" ->
                 apr_params_json r = row_scrubbed r
}.

Record approvals_inv db : Prop := {
  ai_rows : forall id r, approvals db !! id = Some r -> approval_row_ok r;
  ai_active : forall id1 id2 r1 r2,
    approvals db !! id1 = Some r1 -> approvals db !! id2 = Some r2 ->
    active_state (apr_state r1) -> active_state (apr_state r2) ->
    apr_workspace_id r1 = apr_workspace_id r2 -> apr_fingerprint r1 = apr_fingerprint r2 ->
    id1 = id2
}.

(** What an edge keeps: the row's identity, and that only active rows become active. *)
Lemma row_edge_keeps r r' :
  row_edge r r' ->
  apr_workspace_id r' = apr_workspace_id r /\ apr_fingerprint r' = apr_fingerprint r /\
  apr_tool r' = apr_tool r /\ apr_created_at r' = apr_created_at r /\
  active_state (apr_state r).
Proof.
  intros []; cbn; split_and!; try done; unfold active_state; apply bool_decide_spec;
    try (destruct H as [H|H]); rewrite H; set_solver.
Qed.

Lemma row_edge_ok r r' : row_edge r r' -> approval_row_ok r -> approval_row_ok r'.
Proof.
  intros He [Ht Hs Hr Hj Hp].
  destruct He as [r now H|r now H|r H|r H|r H|r p H]; try (destruct H as [H|H]);
    rewrite H in *; (split; [exact Ht|..]); unfold set_state, row_scrubbed; cbn in *.
  all: try first [by exists Granted|by exists Denied|by exists Queued|by exists Resuming
                 |by exists Consumed].
  all: try (split; intros Hx; try discriminate Hx; by apply Hr in Hx).
  all: try done; try (by intros [?|?]). by exists p. by exists p.
Qed.

Lemma load_active_none db ws fp :
  load_active_by_fingerprint db ws fp = None <->
  forall id r, approvals db !! id = Some r -> ~ active_fingerprint ws fp (id, r).
Proof.
  unfold load_active_by_fingerprint. rewrite sql_head_none. split.
  - intros Hnil id r Hid Ha. apply (not_elem_of_nil (id, r)). rewrite <- Hnil.
    apply list_elem_of_filter. split; [done|]. by apply elem_of_map_to_list.
  - intros Hno. destruct (filter _ _) as [|[id r] l] eqn:E; [done|].
    assert (Hin : (id, r) ∈ (id, r) :: l) by (by left). rewrite <- E in Hin.
    apply list_elem_of_filter in Hin as [Ha Hin%elem_of_map_to_list]. by destruct (Hno id r).
Qed.

Lemma db_change_inv db db' : db_change db db' -> approvals_inv db -> approvals_inv db'.
Proof.
  intros [d' Heq|d' id r r' Hid He Heq|d' id ws tool fp json now Hid Hl Heq] [Hrows Hact];
    split; unfold not; rewrite Heq; eauto.
  - intros id' r1 [[<- <-]|[_ H1]]%lookup_insert_Some; eauto using row_edge_ok.
  - destruct (row_edge_keeps r r' He) as (Ew & Ef & _ & _ & Ha).
    intros id1 id2 r1 r2 H1 H2 A1 A2 W F.
    apply lookup_insert_Some in H1 as [[<- <-]|[? H1]];
      apply lookup_insert_Some in H2 as [[<- <-]|[? H2]]; try done; rewrite ?Ew, ?Ef in *.
    + by eapply (Hact id id2 r r2).
    + by eapply (Hact id1 id r1 r).
    + by eapply (Hact id1 id2 r1 r2).
  - intros id' r1 [[<- <-]|[_ H1]]%lookup_insert_Some; [|eauto].
    split; cbn; [by exists tool|by exists Pending|done|done|by intros [?|?]].
  - pose proof (proj1 (load_active_none _ _ _) Hl) as Hno.
    intros id1 id2 r1 r2 H1 H2 A1 A2 W F.
    apply lookup_insert_Some in H1 as [[<- <-]|[? H1]];
      apply lookup_insert_Some in H2 as [[<- <-]|[? H2]]; try done; cbn in *.
    + by destruct (Hno id2 r2 H2).
    + by destruct (Hno id1 r1 H1).
    + by eapply (Hact id1 id2 r1 r2).
Qed.

Lemma approvals_runs_inv ops db : approvals_inv db -> approvals_inv (approvals_runs ops db).
Proof.
  revert db. induction ops as [|op ops IH]; intros db Hinv; [done|].
  apply IH. eapply db_change_inv; [apply approvals_run_change|done].
Qed.

Lemma approvals_empty_inv : approvals_inv approvals_empty.
Proof. by split; cbn; intros *; rewrite lookup_empty. Qed.
End facts.

(** * Threads that resume *)

(** A thread inside [claim_resume]: before its first section, between the two, with its guard
    before the second, or past it with the claim and its guard. A settlement is at
    [RHolding] once it marked the resume in flight. *)
Inductive ResumeThread :=
  | RClaim (id : string)
  | RMark (id : string)
  | RLocked (id : string)
  | RHolding (id : string).

Definition holds (id : string) (t : ResumeThread) : Prop :=
  match t with RLocked id' | RHolding id' => id' = id | _ => False end.

#[export] Instance holds_dec id t : Decision (holds id t).
Proof. destruct t; cbn; exact _. Defined.

Section threads.
Context `{Sql : SqlEngine} `{JP : Json PersistedResume} `{JS : Json ScrubbedParams}.
Implicit Types (db : ApprovalsDb) (id : string) (r : ApprovalRow) (T : list ResumeThread).

(** The operations that do not touch the guards may run on any thread at any time. *)
Definition unguarded (op : ApprovalsOp) : Prop :=
  match op with AMarkInflight _ | ADropGuard _ | AClaimLocked _ => False | _ => True end.

Inductive resume_step : ApprovalsDb * list ResumeThread -> ApprovalsDb * list ResumeThread -> Prop :=
  | rs_other op db T : unguarded op -> resume_step (db, T) (approvals_run op db, T)
  | rs_spawn id db T : resume_step (db, T) (db, RClaim id :: T)
  | rs_load_return id claim db T1 T2 :
      claim_load db id = inl claim ->
      resume_step (db, T1 ++ RClaim id :: T2) (db, T1 ++ T2)
  | rs_load_go id db T1 T2 :
      claim_load db id = inr tt ->
      resume_step (db, T1 ++ RClaim id :: T2) (db, T1 ++ RMark id :: T2)
  | rs_mark_err id e db db' T1 T2 :
      mark_inflight db id = (Err e, db') ->
      resume_step (db, T1 ++ RMark id :: T2) (db', T1 ++ T2)
  | rs_mark_ok id db db' T1 T2 :
      mark_inflight db id = (Ok tt, db') ->
      resume_step (db, T1 ++ RMark id :: T2) (db', T1 ++ RLocked id :: T2)
  | rs_settle id db db' T :
      mark_inflight db id = (Ok tt, db') -> resume_step (db, T) (db', RHolding id :: T)
  | rs_locked_retry id db db' T1 T2 :
      claim_locked db id = (None, db') ->
      resume_step (db, T1 ++ RLocked id :: T2) (db', T1 ++ RClaim id :: T2)
  | rs_locked_err id e db db' T1 T2 :
      claim_locked db id = (Some (Err e), db') ->
      resume_step (db, T1 ++ RLocked id :: T2) (db', T1 ++ T2)
  | rs_locked_ok id claim db db' T1 T2 :
      claim_locked db id = (Some (Ok claim), db') ->
      resume_step (db, T1 ++ RLocked id :: T2) (db', T1 ++ RHolding id :: T2)
  | rs_drop id db T1 T2 :
      resume_step (db, T1 ++ RHolding id :: T2) (drop_guard db id, T1 ++ T2).

Definition holders id T : nat := length (filter (holds id) T).

(** Each id has one guard when it is in flight, and none otherwise. *)
Definition guards_ok (s : ApprovalsDb * list ResumeThread) : Prop :=
  forall id, holders id s.2 = if bool_decide (id ∈ resume_inflight s.1) then 1 else 0.

Lemma holders_split id T1 t T2 :
  holders id (T1 ++ t :: T2) = (if decide (holds id t) then 1 else 0) + holders id (T1 ++ T2).
Proof.
  unfold holders. rewrite !filter_app, filter_cons.
  case_decide; rewrite !length_app; cbn; lia.
Qed.

Lemma holders_cons id t T : holders id (t :: T) = (if decide (holds id t) then 1 else 0) + holders id T.
Proof. apply (holders_split id []). Qed.

Lemma holders_hold id T : 0 < holders id T -> exists i t, T !! i = Some t /\ holds id t.
Proof.
  unfold holders. destruct (filter (holds id) T) as [|t U] eqn:E; [cbn; lia|]. intros _.
  assert (Hin : t ∈ filter (holds id) T) by (rewrite E; left).
  apply list_elem_of_filter in Hin as [Ht [i Hi]%list_elem_of_lookup]. eauto.
Qed.

Lemma holders_other id T i t : T !! i = Some t -> holds id t -> 0 < holders id T.
Proof.
  intros Hi Ht. rewrite <- (take_drop_middle T i t Hi), holders_split, decide_True by done. lia.
Qed.

Lemma holders_two id T i j t t' :
  T !! i = Some t -> T !! j = Some t' -> i <> j -> holds id t -> holds id t' -> 1 < holders id T.
Proof.
  intros Hi Hj Hne Ht Ht'. rewrite <- (take_drop_middle T i t Hi), holders_split, decide_True by done.
  enough (t' ∈ take i T ++ drop (S i) T) as [k Hk]%list_elem_of_lookup
    by (pose proof (holders_other id _ k t' Hk Ht'); lia).
  apply elem_of_app. destruct (decide (j < i)).
  - left. apply list_elem_of_lookup. exists j. by rewrite lookup_take_lt.
  - right. apply list_elem_of_lookup. exists (j - S i). rewrite lookup_drop, <- Hj. f_equal. lia.
Qed.

Lemma unguarded_inflight op db :
  unguarded op -> resume_inflight (approvals_run op db) = resume_inflight db.
Proof.
  destruct op; cbn [approvals_run unguarded]; try done; intros _.
  - unfold create_approval. by repeat case_match.
  - unfold resolve_approval, update_approval. by repeat case_match; simplify_eq.
  - apply finish_load_change.
  - unfold finish_persist, update_approval. by repeat case_match; simplify_eq.
  - unfold return_resume, update_approval. by repeat case_match; simplify_eq.
  - unfold mark_resuming, update_approval. by repeat case_match; simplify_eq.
Qed.

(** A claim that is returned keeps the guard, anything else drops it. *)
Lemma claim_locked_inflight db id o db' :
  claim_locked db id = (o, db') ->
  resume_inflight db' =
    match o with Some (Ok _) => resume_inflight db | _ => resume_inflight db ∖ {[id]} end.
Proof.
  unfold claim_locked, guarded, update_approval, state_is.
  destruct (approvals db !! id) as [row|] eqn:Er; [|by intros; simplify_eq].
  repeat case_bool_decide; try done; intros; simplify_eq; cbn;
    destruct (into_record id row); done.
Qed.

Lemma resume_step_guards s s' : resume_step s s' -> guards_ok s -> guards_ok s'.
Proof.
  intros Hstep Hok x. specialize (Hok x). revert Hok.
  destruct Hstep; cbn [fst snd];
    rewrite ?holders_split, ?holders_cons; cbn [holds];
    rewrite ?(decide_False (P:=False)) by tauto; cbn [Nat.add].
  - by rewrite unguarded_inflight.
  - done.
  - done.
  - done.
  - unfold mark_inflight in *. case_bool_decide; by simplify_eq.
  - unfold mark_inflight in *. case_bool_decide as Hin; simplify_eq; cbn.
    destruct (decide (id = x)) as [->|].
    + rewrite bool_decide_eq_false_2, bool_decide_eq_true_2 by set_solver. lia.
    + rewrite (bool_decide_ext (x ∈ {[id]} ∪ _) (x ∈ resume_inflight db)) by set_solver. done.
  - unfold mark_inflight in *. case_bool_decide as Hin; simplify_eq; cbn.
    destruct (decide (id = x)) as [->|].
    + rewrite bool_decide_eq_false_2, bool_decide_eq_true_2 by set_solver. lia.
    + rewrite (bool_decide_ext (x ∈ {[id]} ∪ _) (x ∈ resume_inflight db)) by set_solver. done.
  - rewrite (claim_locked_inflight _ _ _ _ H). destruct (decide (id = x)) as [->|].
    + rewrite (bool_decide_eq_false_2 (x ∈ _ ∖ _)) by set_solver. case_bool_decide; lia.
    + rewrite (bool_decide_ext (x ∈ _ ∖ _) (x ∈ resume_inflight db)) by set_solver. done.
  - rewrite (claim_locked_inflight _ _ _ _ H). destruct (decide (id = x)) as [->|].
    + rewrite (bool_decide_eq_false_2 (x ∈ _ ∖ _)) by set_solver. case_bool_decide; lia.
    + rewrite (bool_decide_ext (x ∈ _ ∖ _) (x ∈ resume_inflight db)) by set_solver. done.
  - by rewrite (claim_locked_inflight _ _ _ _ H).
  - cbn. destruct (decide (id = x)) as [->|].
    + rewrite (bool_decide_eq_false_2 (x ∈ _ ∖ _)) by set_solver. case_bool_decide; lia.
    + rewrite (bool_decide_ext (x ∈ _ ∖ _) (x ∈ resume_inflight db)) by set_solver. done.
Qed.

Lemma resume_reachable_guards s :
  rtc resume_step (approvals_empty, []) s -> guards_ok s.
Proof.
  intros Hr. revert s Hr. apply (rtc_ind_r (R := resume_step) guards_ok).
  - intros id. by rewrite bool_decide_eq_false_2 by set_solver.
  - intros s1 s2 _ Hs Hok. by eapply resume_step_guards.
Qed.

(** * How rows evolve *)

Lemma db_change_row db db' id r :
  db_change db db' -> approvals db !! id = Some r ->
  exists r', approvals db' !! id = Some r' /\ (r' = r \/ row_edge r r').
Proof.
  intros [d' Heq|d' id0 r0 r' Hid He Heq|d' id0 ws tool fp json now Hid Hl Heq] Hr; rewrite Heq.
  - eauto.
  - destruct (decide (id0 = id)) as [->|]; [|rewrite lookup_insert_ne; eauto].
    rewrite lookup_insert_eq. simplify_eq. eauto.
  - rewrite lookup_insert_ne by congruence. eauto.
Qed.

Lemma inactive_stays ops db id r :
  approvals db !! id = Some r -> active_state (apr_state r) = false ->
  approvals (approvals_runs ops db) !! id = Some r.
Proof.
  revert db. induction ops as [|op ops IH]; intros db Hr Ha; [done|]. apply IH; [|done].
  destruct (db_change_row _ _ _ _ (approvals_run_change op db) Hr) as (r' & Hr' & [->|He]); [done|].
  apply row_edge_keeps in He as (_ & _ & _ & _ & Hact). by rewrite Ha in Hact.
Qed.

(** An approval that was active never becomes pending again. *)
Lemma not_pending_again ops db id r :
  approvals db !! id = Some r -> apr_state r <> "pending" ->
  exists r', approvals (approvals_runs ops db) !! id = Some r' /\ apr_state r' <> "pending".
Proof.
  revert db r. induction ops as [|op ops IH]; intros db r Hr Hp; [eauto|].
  destruct (db_change_row _ _ _ _ (approvals_run_change op db) Hr) as (r' & Hr' & He).
  apply (IH _ r'); [done|]. destruct He as [->|[]]; done.
Qed.

Lemma approval_row_state_cases r :
  approval_row_ok r ->
  apr_state r = "pending" \/ apr_state r = "granted" \/ apr_state r = "queued" \/
  apr_state r = "resuming" \/ apr_state r = "denied" \/ apr_state r = "consumed".
Proof. intros [_ [[] ->] _ _ _]; cbn; tauto. Qed.

Lemma into_record_ok id r :
  approval_row_ok r ->
  exists tool state, apr_tool r = target_tool_as_str tool /\
    apr_state r = approval_state_as_str state /\
    into_record id r = Ok (mkApprovalRecord id (apr_workspace_id r) tool (apr_fingerprint r)
                             (apr_params_json r) state (apr_resolved_at r)).
Proof.
  intros [[tool Ht] [state Hs] _ _ _]. exists tool, state. split_and!; [done..|].
  unfold into_record. rewrite Ht, Hs. by autorewrite with codespace.
Qed.
End threads.

(** * Properties *)

Section properties.
Context `{Sql : SqlEngine} `{JP : Json PersistedResume} `{JS : Json ScrubbedParams}.

(** C8: A hold is never resumed by two threads at once: however claims, settlements and the
    other approval operations interleave, an id is in [resume_inflight] exactly while some thread
    holds the guard of that approval, and then exactly one thread does. *)
Theorem one_resume_at_a_time (db : ApprovalsDb) (T : list ResumeThread) (id : string)
    (Hreach : rtc resume_step (approvals_empty, []) (db, T)) :
  (id ∈ resume_inflight db <-> exists i t, T !! i = Some t /\ holds id t) /\
  (forall i j t t', T !! i = Some t -> T !! j = Some t' -> holds id t -> holds id t' -> i = j).
Proof.
  pose proof (resume_reachable_guards _ Hreach id) as Hg; cbn [fst snd] in Hg. split; [split|].
  - intros Hin. rewrite bool_decide_eq_true_2 in Hg by done. by apply holders_hold; lia.
  - intros (i & t & Hi & Ht). pose proof (holders_other id T i t Hi Ht) as Hh.
    case_bool_decide; [done|lia].
  - intros i j t t' Hi Hj Ht Ht'. destruct (decide (i = j)) as [|Hne]; [done|].
    pose proof (holders_two id T i j t t' Hi Hj Hne Ht Ht'). case_bool_decide; lia.
Qed.

(** After any sequence of approval operations: every row's tool and state read back; it is
    unresolved exactly while pending; it has a result exactly when consumed, and that result
    reads back; a denied or consumed row keeps nothing of the request's parameters; and no two
    active approvals are for the same workspace and fingerprint. *)
Theorem approvals_invariant (ops : list ApprovalsOp) :
  let db := approvals_runs ops approvals_empty in
  (forall id r, approvals db !! id = Some r -> approval_row_ok r) /\
  (forall id1 id2 r1 r2,
     approvals db !! id1 = Some r1 -> approvals db !! id2 = Some r2 ->
     active_state (apr_state r1) -> active_state (apr_state r2) ->
     apr_workspace_id r1 = apr_workspace_id r2 -> apr_fingerprint r1 = apr_fingerprint r2 ->
     id1 = id2).
Proof.
  intros db. destruct (approvals_runs_inv ops _ approvals_empty_inv) as [Hr Ha]. by split.
Qed.

(** The life of an approval: whatever operation runs, a row keeps its workspace, tool and
    fingerprint and either stays as it is or moves along one of
    pending -> granted | denied, granted -> queued, queued -> resuming | consumed,
    resuming -> granted | consumed; so a denied or consumed row never changes again. *)
Theorem approval_lifecycle (db : ApprovalsDb) (op : ApprovalsOp) (id : string) (r : ApprovalRow)
    (Hr : approvals db !! id = Some r) :
  exists r', approvals (approvals_run op db) !! id = Some r' /\
    apr_workspace_id r' = apr_workspace_id r /\ apr_tool r' = apr_tool r /\
    apr_fingerprint r' = apr_fingerprint r /\ apr_created_at r' = apr_created_at r /\
    (r' = r \/
     (apr_state r, apr_state r') ∈
       [("pending", "granted"); ("pending", "denied"); ("granted", "queued");
        ("queued", "resuming"); ("queued", "consumed"); ("resuming", "granted");
        ("resuming", "consumed")]).
Proof.
  destruct (db_change_row _ _ _ _ (approvals_run_change op db) Hr) as (r' & Hr' & [->|He]).
  - exists r. by split_and!; try left.
  - exists r'. destruct (row_edge_keeps r r' He) as (-> & -> & -> & -> & _).
    split_and!; try done. right. destruct He; cbn; try (destruct H as [H|H]); rewrite H; set_solver.
Qed.

(** [claim_resume] returns, within two rounds of its loop, whatever the other threads'
    approval operations do each time it releases the connection. *)
Theorem claim_resume_returns (ops : list ApprovalsOp) (env : nat -> ApprovalsDb -> ApprovalsDb)
    (k : nat) (id : string)
    (Henv : forall j db, exists ops', approvals (env j db) = approvals (approvals_runs ops' db)) :
  exists claim db', claim_resume 2 k env (approvals_runs ops approvals_empty) id = Some (claim, db').
Proof.
  pose proof (approvals_runs_inv ops _ approvals_empty_inv) as Hinv.
  set (db := approvals_runs _ _) in *. clearbody db. cbn [claim_resume].
  destruct (claim_load db id) as [claim|[]] eqn:El; [eauto|].
  destruct (mark_inflight (env k db) id) as [[[]|e] db1] eqn:Em; [|eauto].
  destruct (claim_locked (env (S k) db1) id) as [[claim|] db2] eqn:Ec; [eauto|].
  (* The loop went round: the row was settled meanwhile, and stays so. *)
  assert (Hrow : exists r, approvals db !! id = Some r /\ apr_state r <> "pending").
  { unfold claim_load in El. destruct (approvals db !! id) as [r|]; [|done].
    exists r. split; [done|]. repeat case_bool_decide; congruence. }
  assert (Hstay : forall j db0 db0', approvals db0' = approvals db0 ->
    (exists r, approvals db0 !! id = Some r /\ apr_state r <> "pending") ->
    exists r, approvals (env j db0') !! id = Some r /\ apr_state r <> "pending").
  { intros j db0 db0' Heq (r & Hr & Hp). destruct (Henv j db0') as [ops' ->].
    apply (not_pending_again ops' db0' id r); congruence. }
  apply (Hstay k db db eq_refl) in Hrow.
  assert (Hdb1 : approvals db1 = approvals (env k db)).
  { unfold mark_inflight in Em. case_bool_decide; by simplify_eq. }
  destruct (Hstay (S k) (env k db) db1 Hdb1 Hrow) as (r & Hr & Hp).
  assert (Hsettled : active_state (apr_state r) = false /\ approvals db2 !! id = Some r).
  { revert Ec. unfold claim_locked. rewrite Hr.
    case_bool_decide as H1.
    - unfold update_approval, state_is. rewrite Hr, bool_decide_eq_true_2 by done. done.
    - repeat case_bool_decide; try done; intros; simplify_eq. split; [|done].
      unfold active_state. apply bool_decide_eq_false. set_solver. }
  destruct Hsettled as [Ha Hr2].
  destruct (Henv (S (S k)) db2) as [ops' Henv2].
  assert (Hr3 : approvals (env (S (S k)) db2) !! id = Some r).
  { rewrite Henv2. by apply inactive_stays. }
  destruct (claim_load (env (S (S k)) db2) id) as [claim|[]] eqn:El2; [eauto|].
  exfalso. revert El2. unfold claim_load. rewrite Hr3. unfold active_state in Ha.
  apply bool_decide_eq_false in Ha. repeat case_bool_decide; try done. set_solver.
Qed.

(** What a claim answers when nothing else runs: unknown, pending and denied holds are
    refused unchanged; a consumed one replays its recorded outcome; one in flight elsewhere is
    refused; a granted one is queued and handed out for execution with its guard, a queued one
    handed out again, a resuming one handed out to be reconciled. *)
Theorem claim_resume_outcomes (ops : list ApprovalsOp) (id : string) :
  let db := approvals_runs ops approvals_empty in
  let run := claim_resume 2 0 (fun _ db => db) db id in
  let held := set_inflight db ({[id]} ∪ resume_inflight db) in
  match approvals db !! id with
  | None => run = Some (Err (not_found id), db)
  | Some r =>
      exists tool state, apr_tool r = target_tool_as_str tool /\
        apr_state r = approval_state_as_str state /\
      let rec := mkApprovalRecord id (apr_workspace_id r) tool (apr_fingerprint r)
                   (apr_params_json r) state (apr_resolved_at r) in
      let claimed claim db' :=
        if bool_decide (id ∈ resume_inflight db)
        then run = Some (Err (conflict "resume already in progress"), db)
        else run = Some (Ok claim, db') in
      match state with
      | Pending => run = Some (Err (conflict "approval is still pending"), db)
      | Denied => run = Some (Err (conflict "approval was denied"), db)
      | Consumed =>
          exists p, apr_result_json r = Some (to_json p) /\
          run = Some (Ok match p with
                         | PersistedSuccess s => ReplaySuccess s
                         | PersistedFailed e => ReplayError e
                         end, db)
      | Granted =>
          claimed (Execute rec)
            (set_approvals held (<[id := set_state "queued" r]> (approvals db)))
      | Queued => claimed (Execute rec) held
      | Resuming => claimed (Reconcile rec) held
      end
  end.
Proof.
  intros db run held. pose proof (approvals_runs_inv ops _ approvals_empty_inv) as Hinv.
  fold db in Hinv. unfold run. cbn [claim_resume]. unfold claim_load.
  destruct (approvals db !! id) as [r|] eqn:Hr; [|done].
  pose proof (ai_rows _ Hinv _ _ Hr) as Hok.
  destruct (into_record_ok id r Hok) as (tool & state & Ht & Hs & Hrec).
  exists tool, state. split; [done|]. split; [done|].
  destruct Hok as [_ _ _ Hj _]. rewrite Hs in *. unfold mark_inflight.
  destruct state; cbn [approval_state_as_str] in *;
    try (destruct (bool_decide (id ∈ resume_inflight db)); [done|]);
    unfold claim_locked, update_approval, state_is; cbn [approvals set_inflight]; try done.
  - rewrite Hr, Hs. cbn. by rewrite Hrec.
  - rewrite Hr, Hs. cbn. by rewrite Hrec.
  - rewrite Hr, Hs. cbn. by rewrite Hrec.
  - rewrite bool_decide_eq_true_2 in Hj by done. destruct Hj as [p Hp]. exists p. split; [done|].
    cbn. rewrite Hp. cbn. rewrite of_to_json. by destruct p.
Qed.

(** A recorded outcome is final and is what every later resume gets: once [finish_resume]
    persisted a result, then whatever operations follow and whatever interleaves, a claim
    replays exactly that result and never hands the approval out for execution again. *)
Theorem finished_resume_replays (db : ApprovalsDb) (id : string)
    (result : res OperationResumeResult) (after : list ApprovalsOp)
    (n k : nat) (env : nat -> ApprovalsDb -> ApprovalsDb) :
  let db1 := (finish_persist db id result).2 in
  let db2 := approvals_runs after db1 in
  (finish_persist db id result).1 = Ok tt ->
  claim_resume (S n) k env db2 id =
    Some (Ok match result with Ok s => ReplaySuccess s | Err e => ReplayError e end, db2) /\
  (exists r, approvals db2 !! id = Some r /\ apr_state r = "consumed" /\
     apr_params_json r = row_scrubbed r).
Proof.
  intros db1 db2 Hok.
  assert (H1 : exists r, approvals db1 !! id = Some r /\ apr_state r = "consumed" /\
    apr_result_json r = Some (to_json (persisted result)) /\ apr_params_json r = row_scrubbed r).
  { unfold db1. revert Hok. unfold finish_persist.
    destruct (approvals db !! id) as [row|] eqn:Er; [|done].
    destruct (update_approval _ _ _ _) as [[] db'] eqn:Eu; [|done]. intros _.
    apply update_approval_true in Eu as (r & Hr & _ & ->). rewrite Er in Hr. simplify_eq.
    cbn. rewrite lookup_insert_eq. eauto. }
  destruct H1 as (r & Hr & Hs & Hj & Hp).
  assert (H2 : approvals db2 !! id = Some r) by (apply inactive_stays; [done|by rewrite Hs]).
  split; [|eauto]. cbn [claim_resume]. unfold claim_load. rewrite H2, Hs. cbn.
  rewrite Hj. cbn. rewrite of_to_json. by destruct result.
Qed.

(** One settlement, step by step. *)
Lemma settle_uninterrupted (db : ApprovalsDb) (id : string)
    (started : option OperationResumeResult) (Hflag : fail_next_finish db = false) :
  let same db := db in
  let out := settle_interrupted_resume same same same db id started in
  if bool_decide (id ∈ resume_inflight db)
  then out = (Err (conflict "resume already in progress"), db)
  else resume_inflight out.2 = resume_inflight db /\
    match approvals db !! id with
    | None => out.1 = Err (not_found id) /\ approvals out.2 = approvals db
    | Some r =>
        if bool_decide (apr_state r = "resuming") then
          out.1 = Ok true /\
          approvals out.2 = <[id := match started with
            | Some s => mkApprovalRow (apr_workspace_id r) (apr_tool r) (apr_fingerprint r)
                (row_scrubbed r) "consumed" (apr_created_at r) (apr_resolved_at r)
                (Some (to_json (PersistedSuccess s)))
            | None => set_state "granted" r
            end]> (approvals db)
        else out.1 = Ok false /\ approvals out.2 = approvals db
    end.
Proof.
  intros same out. unfold out, same, settle_interrupted_resume, mark_inflight.
  case_bool_decide as Hin; [done|]. cbn [approvals set_inflight resume_inflight].
  assert (Hdrop : forall X : gset string, X = resume_inflight db -> ({[id]} ∪ X) ∖ {[id]} = X).
  { intros X ->. set_solver. }
  destruct (approvals db !! id) as [r|] eqn:Hr; [|by cbn; rewrite Hdrop].
  destruct (decide (apr_state r = "resuming")) as [Hs|Hs].
  - rewrite Hs. rewrite bool_decide_eq_false_2, bool_decide_eq_true_2 by naive_solver.
    destruct started as [s|]; cbn.
    + set (h := set_inflight db _).
      assert (Hf : finish_resume (fun d => d) h id (Ok s) =
        (Ok tt, set_approvals h (<[id := mkApprovalRow (apr_workspace_id r) (apr_tool r)
                  (apr_fingerprint r) (row_scrubbed r) "consumed" (apr_created_at r)
                  (apr_resolved_at r) (Some (to_json (PersistedSuccess s)))]> (approvals db)))).
      { unfold finish_resume, finish_load, take_fail_next_finish, h. cbn [approvals set_inflight].
        rewrite Hr, Hs. cbn. rewrite Hflag. unfold finish_persist, update_approval; cbn.
        rewrite !(bool_decide_eq_false_2 (_ = _)) by done. cbn. rewrite Hr, Hs.
        unfold set_approvals, set_inflight; cbn. by rewrite Hflag. }
      rewrite Hf. cbn. by rewrite Hdrop.
    + set (h := set_inflight db _).
      assert (Hf : return_resume h id =
        (Ok tt, set_approvals h (<[id := set_state "granted" r]> (approvals db)))).
      { unfold return_resume, update_approval, state_is, h. cbn [approvals set_inflight].
        by rewrite Hr, Hs. }
      rewrite Hf. cbn. by rewrite Hdrop.
  - rewrite bool_decide_eq_true_2, bool_decide_eq_false_2 by done. cbn. by rewrite Hdrop.
Qed.

(** [settle_interrupted_resume] with nothing interleaved: refused while a resume of the
    approval is in flight, [false] and unchanged unless it is resuming; otherwise it consumes the
    approval with the started execution's result, or gives it back granted, and leaves no
    guard behind. *)
Theorem settle_interrupted_resume_settles (db : ApprovalsDb) (id : string)
    (started : option OperationResumeResult) (Hflag : fail_next_finish db = false) :
  let same db := db in
  let out := settle_interrupted_resume same same same db id started in
  if bool_decide (id ∈ resume_inflight db)
  then out = (Err (conflict "resume already in progress"), db)
  else resume_inflight out.2 = resume_inflight db /\
    match approvals db !! id with
    | None => out.1 = Err (not_found id) /\ approvals out.2 = approvals db
    | Some r =>
        if bool_decide (apr_state r = "resuming") then
          out.1 = Ok true /\
          approvals out.2 = <[id := match started with
            | Some s => mkApprovalRow (apr_workspace_id r) (apr_tool r) (apr_fingerprint r)
                (row_scrubbed r) "consumed" (apr_created_at r) (apr_resolved_at r)
                (Some (to_json (PersistedSuccess s)))
            | None => set_state "granted" r
            end]> (approvals db)
        else out.1 = Ok false /\ approvals out.2 = approvals db
    end.
Proof. apply settle_uninterrupted, Hflag. Qed.
End properties.

(** * Concrete runs *)

#[export] Instance PersistedResume_eq_dec : EqDecision PersistedResume.
Proof. solve_decision. Defined.
#[export] Instance PersistedResume_countable : Countable PersistedResume.
Proof.
  refine (inj_countable'
    (fun p => match p with PersistedSuccess r => inl r | PersistedFailed e => inr e end)
    (fun s => match s with inl r => PersistedSuccess r | inr e => PersistedFailed e end) _).
  by intros [].
Defined.
#[export] Instance ScrubbedParams_eq_dec : EqDecision ScrubbedParams.
Proof. solve_decision. Defined.
#[export] Instance ScrubbedParams_countable : Countable ScrubbedParams.
Proof.
  refine (inj_countable' (fun p => (sp_tool p, sp_workspace_id p, sp_fingerprint p))
    (fun '(t, w, f) => mkScrubbedParams t w f) _).
  by intros [].
Defined.

Section runs.
#[local] Instance demo_sql : SqlEngine := merge_sort_engine.
#[local] Instance demo_persisted : Json PersistedResume := countable_json.
#[local] Instance demo_scrubbed : Json ScrubbedParams := countable_json.

(** A hold that was granted, and one that is being resumed. *)
Definition granted_ops : list ApprovalsOp :=
  [ACreate "w" ToolExecCommand "fp" "{}" "1" 10; AResolve "appr-1" Grant 11].
Definition resuming_ops : list ApprovalsOp :=
  granted_ops ++ [AClaimLocked "appr-1"; AMarkResuming "appr-1"].
Definition resuming_db : ApprovalsDb := approvals_runs resuming_ops approvals_empty.
Definition started_result : OperationResumeResult :=
  {| or_approval_id := "appr-1"; or_state := Consumed; or_apply_patch := None;
     or_exec_command := Some (mkExecCommandResult "p" DispatchConfirmed None) |}.

Lemma one_resume_at_a_time_witness :
  let db := set_inflight approvals_empty {["appr-1"]} in
  rtc resume_step (approvals_empty, []) (db, [] ++ RHolding "appr-1" :: [RClaim "appr-1"]) /\
  "appr-1" ∈ resume_inflight db.
Proof.
  intros db.
  assert (Hreach : rtc resume_step (approvals_empty, [])
                     (db, [] ++ RHolding "appr-1" :: [RClaim "appr-1"])).
  { eapply rtc_l; [apply (rs_spawn "appr-1")|]. apply rtc_once.
    apply (rs_settle "appr-1" approvals_empty db). vm_compute. reflexivity. }
  split; [exact Hreach|].
  apply (one_resume_at_a_time db _ "appr-1" Hreach). by exists 0, (RHolding "appr-1").
Defined.

Lemma approval_lifecycle_witness :
  exists r r', approvals resuming_db !! "appr-1" = Some r /\
    approvals (approvals_run (AReturnResume "appr-1") resuming_db) !! "appr-1" = Some r' /\
    apr_fingerprint r' = apr_fingerprint r.
Proof.
  destruct (approvals resuming_db !! "appr-1") as [r|] eqn:Hr; [|discriminate Hr].
  destruct (approval_lifecycle resuming_db (AReturnResume "appr-1") "appr-1" r Hr)
    as (r' & H & _ & _ & Hf & _).
  exists r, r'. split; [reflexivity|]. split; [exact H|exact Hf].
Defined.

Lemma claim_resume_returns_witness :
  exists claim db',
    claim_resume 2 0 (fun _ db => approvals_run (AMarkResuming "appr-1") db)
      (approvals_runs granted_ops approvals_empty) "appr-1" = Some (claim, db').
Proof.
  apply (claim_resume_returns granted_ops (fun _ db => approvals_run (AMarkResuming "appr-1") db)).
  intros j db. exists [AMarkResuming "appr-1"]. reflexivity.
Defined.

Lemma finished_resume_replays_witness :
  claim_resume 1 0 (fun _ db => db)
    (approvals_runs [AReturnResume "appr-1"]
       (finish_persist resuming_db "appr-1" (Ok started_result)).2) "appr-1" =
  Some (Ok (ReplaySuccess started_result),
        approvals_runs [AReturnResume "appr-1"]
          (finish_persist resuming_db "appr-1" (Ok started_result)).2).
Proof.
  apply (finished_resume_replays resuming_db "appr-1" (Ok started_result)
           [AReturnResume "appr-1"] 0 0 (fun _ db => db)).
  vm_compute. reflexivity.
Defined.

Lemma settle_interrupted_resume_settles_witness :
  let same db := db in
  (settle_interrupted_resume same same same (drop_guard resuming_db "appr-1") "appr-1"
     (Some started_result)).1 = Ok true.
Proof.
  pose proof (settle_interrupted_resume_settles (drop_guard resuming_db "appr-1") "appr-1"
                (Some started_result) ltac:(vm_compute; reflexivity)) as H.
  cbn zeta in H. rewrite bool_decide_eq_false_2 in H by (vm_compute; congruence).
  destruct H as [_ H].
  destruct (approvals (drop_guard resuming_db "appr-1") !! "appr-1") as [r|] eqn:Hr;
    [|vm_compute in Hr; discriminate Hr].
  assert (Hs : apr_state r = "resuming") by (vm_compute in Hr; injection Hr as <-; reflexivity).
  rewrite bool_decide_eq_true_2 in H by exact Hs. exact (proj1 H).
Defined.
End runs.
