(* ===== verification/Coord.v ===== *)
(** Works and user intents: [crates/store/src/coord.rs]. Each method is one transaction; an
    error rolls it back. *)
From S2P Require Import Prelude Domain.

(** * Tables *)

Record WorkRow := mkWorkRow {
  wr_workspace_id : string;
  wr_title : option string;
  wr_state : string;
  wr_queue_revision : Z;
  wr_created_at : Z;
  wr_closed_at : option Z
}.

Record IntentRow := mkIntentRow {
  ir_work_id : option string;
  ir_workspace_id : string;
  ir_position : Z;
  ir_revision : Z;
  ir_kind : string;
  ir_delivery : string;
  ir_body : string;
  ir_state : string;
  ir_created_at : Z;
  ir_updated_at : Z;
  ir_claimed_at : option Z;
  ir_completed_at : option Z
}.

Record CoordDb := mkCoordDb {
  works : gmap string WorkRow;
  intents : gmap string IntentRow
}.

Definition coord_empty : CoordDb := mkCoordDb ∅ ∅.

Definition set_intents (db : CoordDb) (m : gmap string IntentRow) : CoordDb :=
  mkCoordDb (works db) m.
Definition set_works (db : CoordDb) (m : gmap string WorkRow) : CoordDb :=
  mkCoordDb m (intents db).

Record CreateIntent := mkCreateIntent {
  cr_body : string;
  cr_kind : IntentKind;
  cr_delivery : DeliveryPolicy
}.

(** * Errors *)

Definition work_missing (id : string) : ErrorBody :=
  error_body WorkNotFound ("unknown work_id `" +:+ id +:+ "`").
Definition intent_missing (id : string) : ErrorBody :=
  error_body IntentNotFound ("unknown intent_id `" +:+ id +:+ "`").
Definition coord_db_err (text : string) : ErrorBody :=
  error_body WorkNotFound ("store: " +:+ text).
Definition work_closed (m : string) : ErrorBody := error_body WorkClosed m.
Definition not_editable (m : string) : ErrorBody := error_body IntentNotEditable m.
Definition already_claimed : ErrorBody :=
  error_body IntentAlreadyClaimed "this intent was already read; add a new item".
Definition revision_conflict : ErrorBody :=
  error_body IntentRevisionConflict "intent revision does not match".

Section coord.
Context `{Sql : SqlEngine}.
Implicit Types (db : CoordDb).

(** * Rows *)

Definition work_from_row (id : string) (r : WorkRow) : Work :=
  mkWork id (wr_workspace_id r) (wr_title r) (default Active (work_state_parse (wr_state r)))
    (as_u64 (wr_queue_revision r)).

Definition intent_from_row (id : string) (r : IntentRow) : UserIntent :=
  mkUserIntent id (ir_work_id r) (ir_workspace_id r) (ir_position r) (as_u64 (ir_revision r))
    (default FollowUp (intent_kind_parse (ir_kind r)))
    (default delivery_default (delivery_parse (ir_delivery r)))
    (ir_body r) (default IDraft (intent_state_parse (ir_state r))).

Definition load_work db (id : string) : option Work := work_from_row id <$> works db !! id.
Definition load_intent db (id : string) : option UserIntent :=
  intent_from_row id <$> intents db !! id.

Definition bump_revision db (work_id : string) : CoordDb :=
  set_works db
    (alter (fun r => mkWorkRow (wr_workspace_id r) (wr_title r) (wr_state r)
                       (wr_queue_revision r + 1) (wr_created_at r) (wr_closed_at r))
       work_id (works db)).

Definition bump_attached db (work_id : option string) : CoordDb :=
  match work_id with Some id => bump_revision db id | None => db end.

(** The rows of [intents] that satisfy [P]. *)
Definition select_intents db (P : IntentRow -> bool) : list (string * IntentRow) :=
  filter (fun kv => P kv.2) (map_to_list (intents db)).

Definition on_work (work_id : string) (r : IntentRow) : bool :=
  bool_decide (ir_work_id r = Some work_id).
Definition in_state (state : string) (r : IntentRow) : bool := bool_decide (ir_state r = state).
Definition has_delivery (d : string) (r : IntentRow) : bool := bool_decide (ir_delivery r = d).

Definition count_state db (work_id state : string) : Z :=
  count_u32 (select_intents db (fun r => on_work work_id r && in_state state r)).

Definition count_delivery db (work_id state delivery : string) : Z :=
  count_u32 (select_intents db
    (fun r => on_work work_id r && in_state state r && has_delivery delivery r)).

Definition claimable_deliveries (state : WorkState) : list string :=
  match state with
  | Active => ["next_checkpoint"]
  | Closing => ["next_checkpoint"; "after_current_work"]
  | Closed | WCancelled => ["__none__"]
  end.

Definition claimable (work_id : string) (state : WorkState) (r : IntentRow) : bool :=
  on_work work_id r && in_state "queued" r
  && bool_decide (ir_delivery r ∈ claimable_deliveries state).

Definition count_claimable db (work_id : string) (state : WorkState) : Z :=
  count_u32 (select_intents db (claimable work_id state)).

(** [SELECT COALESCE(MAX(position), 0) + 1]. *)
Definition next_position db (work_id : option string) (workspace_id : string) : Z :=
  let rows :=
    match work_id with
    | Some id => select_intents db (on_work id)
    | None => select_intents db (fun r => is_none (ir_work_id r)
                                    && bool_decide (ir_workspace_id r = workspace_id))
    end in
  match (fun kv => ir_position kv.2) <$> rows with
  | [] => 0
  | p :: ps => foldl Z.max p ps
  end + 1.

Definition by_position (a b : string * IntentRow) : bool :=
  bool_decide (ir_position a.2 <= ir_position b.2)%Z.

Definition state_rank (include_draft : bool) (state : string) : Z :=
  if bool_decide (state = "claimed") then 0
  else if bool_decide (state = "queued") then 1
  else if include_draft && bool_decide (state = "draft") then 2
  else 3.

Definition by_rank (include_draft : bool) (a b : string * IntentRow) : bool :=
  let ra := state_rank include_draft (ir_state a.2) in
  let rb := state_rank include_draft (ir_state b.2) in
  bool_decide (ra < rb)%Z || bool_decide (ra = rb) && by_position a b.

Definition list_intents_conn db (work_id workspace_id : string) (include_draft : bool)
    : list UserIntent :=
  let visible r :=
    (on_work work_id r || is_none (ir_work_id r) && bool_decide (ir_workspace_id r = workspace_id))
    && (include_draft || negb (in_state "draft" r)) in
  (fun kv => intent_from_row kv.1 kv.2)
    <$> sql_order_by (by_rank include_draft) (select_intents db visible).

(** * Works *)

Definition intent_editable_row (r : IntentRow) : bool := in_state "draft" r || in_state "queued" r.

Definition attach_to (work_id workspace_id : string) (now : Z) (r : IntentRow) : IntentRow :=
  if bool_decide (ir_workspace_id r = workspace_id) && is_none (ir_work_id r)
     && intent_editable_row r
  then mkIntentRow (Some work_id) (ir_workspace_id r) (ir_position r) (ir_revision r + 1)
         (ir_kind r)
         (if bool_decide (ir_delivery r = "next_work") then "after_current_work"
          else ir_delivery r)
         (ir_body r) (ir_state r) (ir_created_at r) now (ir_claimed_at r) (ir_completed_at r)
  else r.

Definition open_work db (workspace_id : string) (title : option string) (uuid : string) (now : Z)
    : res WorkOpenResult * CoordDb :=
  let id := "work-" +:+ uuid in
  if is_some (works db !! id)
  then (Err (coord_db_err (sql_unique_failed "works.work_id")), db)
  else
    let db1 := mkCoordDb
      (<[id := mkWorkRow workspace_id title (work_state_as_str Active) 0 now None]> (works db))
      (attach_to id workspace_id now <$> intents db) in
    (Ok {| wo_work_id := id; wo_workspace_id := workspace_id; wo_state := Active |},
     bump_revision db1 id).

Definition get_work db (work_id : string) : res Work :=
  ok_or (work_missing work_id) (load_work db work_id).

Definition newest_work (a b : string * WorkRow) : bool :=
  bool_decide (wr_created_at b.2 <= wr_created_at a.2)%Z.
Definition oldest_work (a b : string * WorkRow) : bool :=
  bool_decide (wr_created_at a.2 <= wr_created_at b.2)%Z.

(** [WHERE workspace_id = ?1], when one is asked for. *)
Definition in_workspace (workspace_id : option string) (r : WorkRow) : bool :=
  match workspace_id with
  | Some ws => bool_decide (wr_workspace_id r = ws)
  | None => true
  end.

Definition list_works db (workspace_id : option string) : list Work :=
  (fun kv => work_from_row kv.1 kv.2) <$>
    sql_order_by newest_work
      (filter (fun kv => Is_true (in_workspace workspace_id kv.2)) (map_to_list (works db))).

Definition open_works db (workspace_id : string) : list (string * WorkRow) :=
  filter (fun kv : string * WorkRow =>
            bool_decide (wr_workspace_id kv.2 = workspace_id)
            && bool_decide (wr_state kv.2 ∈ ["active"; "closing"])) (map_to_list (works db)).

Definition unique_open_work db (workspace_id : string) : option Work :=
  match (fun kv => work_from_row kv.1 kv.2)
          <$> sql_order_by oldest_work (open_works db workspace_id) with
  | [w] => Some w
  | _ => None
  end.

Definition is_pending_item (work_id : string) (r : IntentRow) : bool :=
  on_work work_id r && (in_state "queued" r || in_state "claimed" r)
  && negb (has_delivery "next_work" r).

Definition pending_user_items db (work_id : string) : Z :=
  count_u32 (select_intents db (is_pending_item work_id)).

Definition coordination_hint db (workspace_id : string) (work_id : option string)
    : res (option CoordinationHint) :=
  let hint work := Ok (Some {| ch_work_id := w_work_id work;
                               ch_pending_user_items := pending_user_items db (w_work_id work);
                               ch_queue_revision := w_queue_revision work |}) in
  match work_id with
  | Some id =>
      match get_work db id with
      | Ok work =>
          if bool_decide (w_workspace_id work = workspace_id) && is_open (w_state work)
          then hint work else Ok None
      | Err err => if bool_decide (code err = WorkNotFound) then Ok None else Err err
      end
  | None =>
      match unique_open_work db workspace_id with
      | Some work => hint work
      | None => Ok None
      end
  end.

Definition steer_status db (work_id : string) : res SteerStatusResult :=
  work ← ok_or (work_missing work_id) (load_work db work_id);
  Ok {| ss_work_id := w_work_id work; ss_state := w_state work;
        ss_queued := count_state db work_id "queued";
        ss_claimed := count_state db work_id "claimed";
        ss_claimable_now := count_claimable db work_id (w_state work);
        ss_queue_revision := w_queue_revision work |}.

(** * Claiming and completing *)

Definition set_claimed (now : Z) (r : IntentRow) : IntentRow :=
  mkIntentRow (ir_work_id r) (ir_workspace_id r) (ir_position r) (ir_revision r) (ir_kind r)
    (ir_delivery r) (ir_body r) "claimed" (ir_created_at r) now (Some now) (ir_completed_at r).

Definition claim_next db (work_id : string) (now : Z) : res SteerClaimNextResult * CoordDb :=
  match load_work db work_id with
  | None => (Err (work_missing work_id), db)
  | Some work =>
      if negb (accepts_claims (w_state work))
      then (Err (work_closed "work is closed; open a new work_id"), db)
      else
        match head (sql_order_by by_position
                      (select_intents db (claimable work_id (w_state work)))) with
        | None => (Ok None, db)
        | Some (intent_id, r) =>
            match intents db !! intent_id with
            | Some r0 =>
                if in_state "queued" r0 && bool_decide (ir_revision r0 = ir_revision r) then
                  (Ok (Some {| ci_intent_id := intent_id;
                               ci_revision := as_u64 (ir_revision r);
                               ci_kind := default FollowUp (intent_kind_parse (ir_kind r));
                               ci_delivery :=
                                 default delivery_default (delivery_parse (ir_delivery r));
                               ci_content := ir_body r |}),
                   bump_revision
                     (set_intents db (<[intent_id := set_claimed now r0]> (intents db))) work_id)
                else (Ok None, db)
            | None => (Ok None, db)
            end
        end
  end.

Definition with_intent_state (i : UserIntent) (s : IntentState) : UserIntent :=
  mkUserIntent (ui_intent_id i) (ui_work_id i) (ui_workspace_id i) (ui_position i)
    (ui_revision i) (ui_kind i) (ui_delivery i) (ui_body i) s.

Definition set_completed (state : string) (now : Z) (r : IntentRow) : IntentRow :=
  mkIntentRow (ir_work_id r) (ir_workspace_id r) (ir_position r) (ir_revision r) (ir_kind r)
    (ir_delivery r) (ir_body r) state (ir_created_at r) now (ir_claimed_at r) (Some now).

Definition complete_intent db (work_id intent_id : string) (outcome : SteerOutcome) (now : Z)
    : res UserIntent * CoordDb :=
  match load_intent db intent_id with
  | None => (Err (intent_missing intent_id), db)
  | Some intent =>
      if bool_decide (ui_work_id intent <> Some work_id) then (Err (intent_missing intent_id), db)
      else if bool_decide (ui_state intent <> IClaimed)
      then (Err (not_editable "only claimed intents can be completed"), db)
      else
        let next := match outcome with OutcomeDone => IDone | OutcomeBlocked => IBlocked end in
        (Ok (with_intent_state intent next),
         bump_revision
           (set_intents db (alter (set_completed (intent_state_as_str next) now) intent_id
                              (intents db))) work_id)
  end.

(** * Finishing a work *)

Definition detach (work_id : string) (now : Z) (r : IntentRow) : IntentRow :=
  if on_work work_id r && (intent_editable_row r || has_delivery "next_work" r)
  then mkIntentRow None (ir_workspace_id r) (ir_position r) (ir_revision r) (ir_kind r)
         (ir_delivery r) (ir_body r) (ir_state r) (ir_created_at r) now (ir_claimed_at r)
         (ir_completed_at r)
  else r.

Definition set_work_state (state : WorkState) (r : WorkRow) : WorkRow :=
  mkWorkRow (wr_workspace_id r) (wr_title r) (work_state_as_str state) (wr_queue_revision r)
    (wr_created_at r) (wr_closed_at r).

Definition close_work_row (now : Z) (r : WorkRow) : WorkRow :=
  mkWorkRow (wr_workspace_id r) (wr_title r) (work_state_as_str Closed)
    (wr_queue_revision r + 1) (wr_created_at r) (Some now).

Definition finish_work db (work_id : string) (now : Z) : res WorkFinishResult * CoordDb :=
  match load_work db work_id with
  | None => (Err (work_missing work_id), db)
  | Some work =>
      if negb (is_open (w_state work)) then (Err (work_closed "work is already closed"), db)
      else
        let claimed := count_state db work_id "claimed" in
        let queued_checkpoint := count_delivery db work_id "queued" "next_checkpoint" in
        let queued_after := count_delivery db work_id "queued" "after_current_work" in
        let remaining := (claimed + queued_checkpoint + queued_after)%Z in
        let pending queued state :=
          Ok {| wf_work_id := w_work_id work; wf_closed := false;
                wf_reason := Some FINISH_REASON_PENDING; wf_queued := queued;
                wf_state := state |} in
        if bool_decide (0 < claimed)%Z || bool_decide (0 < queued_checkpoint)%Z
        then (pending remaining (w_state work), db)
        else if bool_decide (0 < queued_after)%Z then
          if bool_decide (w_state work = Active)
          then (pending queued_after Closing,
                bump_revision
                  (set_works db (alter (set_work_state Closing) work_id (works db))) work_id)
          else (pending queued_after Closing, db)
        else
          (Ok {| wf_work_id := w_work_id work; wf_closed := true; wf_reason := None;
                 wf_queued := 0; wf_state := Closed |},
           mkCoordDb (alter (close_work_row now) work_id (works db))
             (detach work_id now <$> intents db))
  end.

(** * Writing intents *)

(** Where a new intent of this work goes: its [work_id] column. *)
Definition stored_work_id (work : Work) : option string :=
  if is_open (w_state work) then Some (w_work_id work) else None.

(** [INSERT INTO intents], then [load_intent] on it. *)
Definition insert_intent db (intent_id : string) (r : IntentRow) : res UserIntent * CoordDb :=
  if is_some (intents db !! intent_id)
  then (Err (coord_db_err (sql_unique_failed "intents.intent_id")), db)
  else
    (Ok (intent_from_row intent_id r),
     bump_attached (set_intents db (<[intent_id := r]> (intents db))) (ir_work_id r)).

Definition create_draft db (work_id : string) (create : CreateIntent) (uuid : string) (now : Z)
    : res UserIntent * CoordDb :=
  match load_work db work_id with
  | None => (Err (work_missing work_id), db)
  | Some work =>
      let stored := stored_work_id work in
      let position := next_position db stored (w_workspace_id work) in
      let delivery := if is_open (w_state work) then cr_delivery create else NextWork in
      insert_intent db ("fb-" +:+ uuid)
        (mkIntentRow stored (w_workspace_id work) position 1
           (intent_kind_as_str (cr_kind create)) (delivery_as_str delivery) (cr_body create)
           "draft" now now None None)
  end.

Definition list_intents db (work_id : string) (include_draft : bool) : res (list UserIntent) :=
  work ← ok_or (work_missing work_id) (load_work db work_id);
  Ok (list_intents_conn db (w_work_id work) (w_workspace_id work) include_draft).

Definition set_edited (body delivery : string) (now : Z) (r : IntentRow) : IntentRow :=
  mkIntentRow (ir_work_id r) (ir_workspace_id r) (ir_position r) (ir_revision r + 1) (ir_kind r)
    delivery body (ir_state r) (ir_created_at r) now (ir_claimed_at r) (ir_completed_at r).

(** [UPDATE .. WHERE intent_id = ?], then [bump_revision] and [load_intent]. *)
Definition rewrite_intent db (intent_id : string) (work_id : option string)
    (where_ : IntentRow -> bool) (set : IntentRow -> IntentRow) : res UserIntent * CoordDb :=
  match intents db !! intent_id with
  | Some r =>
      if where_ r then
        (Ok (intent_from_row intent_id (set r)),
         bump_attached (set_intents db (<[intent_id := set r]> (intents db))) work_id)
      else (Err already_claimed, db)
  | None => (Err already_claimed, db)
  end.

Definition edit_intent db (intent_id : string) (revision : Z) (body : string)
    (delivery : option DeliveryPolicy) (now : Z) : res UserIntent * CoordDb :=
  match load_intent db intent_id with
  | None => (Err (intent_missing intent_id), db)
  | Some current =>
      if bool_decide (ui_state current = IClaimed) then (Err already_claimed, db)
      else if negb (is_editable (ui_state current))
      then (Err (not_editable "only draft and queued intents can be edited"), db)
      else if bool_decide (ui_revision current <> revision) then (Err revision_conflict, db)
      else
        rewrite_intent db intent_id (ui_work_id current)
          (fun r => bool_decide (ir_revision r = as_i64 revision) && intent_editable_row r)
          (set_edited body (delivery_as_str (default (ui_delivery current) delivery)) now)
  end.

Definition set_queued (now : Z) (r : IntentRow) : IntentRow :=
  mkIntentRow (ir_work_id r) (ir_workspace_id r) (ir_position r) (ir_revision r + 1) (ir_kind r)
    (ir_delivery r) (ir_body r) "queued" (ir_created_at r) now (ir_claimed_at r)
    (ir_completed_at r).

Definition queue_intent db (intent_id : string) (revision : Z) (now : Z)
    : res UserIntent * CoordDb :=
  match load_intent db intent_id with
  | None => (Err (intent_missing intent_id), db)
  | Some current =>
      if bool_decide (ui_state current <> IDraft)
      then (Err (not_editable "only drafts can be queued"), db)
      else if bool_decide (ui_revision current <> revision) then (Err revision_conflict, db)
      else
        rewrite_intent db intent_id (ui_work_id current)
          (fun r => bool_decide (ir_revision r = as_i64 revision) && in_state "draft" r)
          (set_queued now)
  end.

Definition set_cancelled (now : Z) (r : IntentRow) : IntentRow :=
  mkIntentRow (ir_work_id r) (ir_workspace_id r) (ir_position r) (ir_revision r) (ir_kind r)
    (ir_delivery r) (ir_body r) "cancelled" (ir_created_at r) now (ir_claimed_at r)
    (ir_completed_at r).

Definition cancel_intent db (intent_id : string) (now : Z) : res UserIntent * CoordDb :=
  match load_intent db intent_id with
  | None => (Err (intent_missing intent_id), db)
  | Some current =>
      if negb (is_editable (ui_state current))
      then (Err (not_editable "claimed intents cannot be cancelled; add a new item"), db)
      else
        (Ok (with_intent_state current ICancelled),
         bump_attached (set_intents db (alter (set_cancelled now) intent_id (intents db)))
           (ui_work_id current))
  end.

Definition set_position (position now : Z) (r : IntentRow) : IntentRow :=
  mkIntentRow (ir_work_id r) (ir_workspace_id r) position (ir_revision r) (ir_kind r)
    (ir_delivery r) (ir_body r) (ir_state r) (ir_created_at r) now (ir_claimed_at r)
    (ir_completed_at r).

Definition place (now : Z) (m : gmap string IntentRow) (id : string) (position : Z)
    : gmap string IntentRow :=
  alter (fun r => if in_state "queued" r then set_position position now r else r) id m.

(** The loop that numbers the listed intents from [position]. *)
Fixpoint place_all (now position : Z) (ids : list string) (m : gmap string IntentRow)
    : gmap string IntentRow :=
  match ids with
  | [] => m
  | id :: ids => place_all now (position + 1) ids (place now m id position)
  end.

Definition queued_ids db (work_id : string) : list string :=
  fst <$> sql_order_by by_position
            (select_intents db (fun r => on_work work_id r && in_state "queued" r)).

Definition reorder_queued db (work_id : string) (intent_ids : list string) (now : Z)
    : res (list UserIntent) * CoordDb :=
  match load_work db work_id with
  | None => (Err (work_missing work_id), db)
  | Some work =>
      let existing := queued_ids db work_id in
      if bool_decide (length existing <> length intent_ids)
         || negb (forallb (fun id => bool_decide (id ∈ existing)) intent_ids)
      then (Err (not_editable "reorder must list exactly the queued intents on this work"), db)
      else
        let db1 := bump_revision
                     (set_intents db (place_all now 1 intent_ids (intents db))) work_id in
        (Ok (list_intents_conn db1 (w_work_id work) (w_workspace_id work) true), db1)
  end.

Definition insert_stop_notice db (work_id reason uuid : string) (now : Z)
    : res UserIntent * CoordDb :=
  match load_work db work_id with
  | None => (Err (work_missing work_id), db)
  | Some work =>
      let attach := is_open (w_state work) in
      let stored := stored_work_id work in
      let position := next_position db stored (w_workspace_id work) in
      let body := if is_blank reason then "user stopped current execution"
                  else "user stopped current execution: " +:+ reason in
      insert_intent db ("fb-" +:+ uuid)
        (mkIntentRow stored (w_workspace_id work) position 1 (intent_kind_as_str StopNotice)
           "next_checkpoint" body
           (intent_state_as_str (if attach then IClaimed else IQueued)) now now
           (if attach then Some now else None) None)
  end.

(** * Histories *)

Inductive CoordOp :=
  | COpenWork (ws : string) (title : option string) (uuid : string) (now : Z)
  | CClaimNext (work_id : string) (now : Z)
  | CComplete (work_id intent_id : string) (outcome : SteerOutcome) (now : Z)
  | CFinishWork (work_id : string) (now : Z)
  | CCreateDraft (work_id : string) (create : CreateIntent) (uuid : string) (now : Z)
  | CEdit (intent_id : string) (revision : Z) (body : string) (d : option DeliveryPolicy) (now : Z)
  | CQueue (intent_id : string) (revision now : Z)
  | CCancel (intent_id : string) (now : Z)
  | CReorder (work_id : string) (ids : list string) (now : Z)
  | CStopNotice (work_id reason uuid : string) (now : Z).

Definition coord_run (op : CoordOp) db : CoordDb :=
  match op with
  | COpenWork ws title uuid now => (open_work db ws title uuid now).2
  | CClaimNext w now => (claim_next db w now).2
  | CComplete w i outcome now => (complete_intent db w i outcome now).2
  | CFinishWork w now => (finish_work db w now).2
  | CCreateDraft w create uuid now => (create_draft db w create uuid now).2
  | CEdit i revision body d now => (edit_intent db i revision body d now).2
  | CQueue i revision now => (queue_intent db i revision now).2
  | CCancel i now => (cancel_intent db i now).2
  | CReorder w ids now => (reorder_queued db w ids now).2
  | CStopNotice w reason uuid now => (insert_stop_notice db w reason uuid now).2
  end.

(** A step of a store whose counts fit their [u32]. *)
Definition coord_step db db' : Prop :=
  exists op, db' = coord_run op db /\ (Z.of_nat (size (intents db)) < 2^32)%Z.

Definition coord_reachable db : Prop := rtc coord_step coord_empty db.
End coord.

(** * The invariant *)

(** The states of an intent that somebody may still have to act on. *)
Definition live_state (s : string) : Prop := s = "draft" \/ s = "queued" \/ s = "claimed".

Definition open_state (s : string) : Prop := s = "active" \/ s = "closing".

Definition work_row_ok (r : WorkRow) : Prop := exists s, wr_state r = work_state_as_str s.

Record intent_row_ok (ws : gmap string WorkRow) (r : IntentRow) : Prop := {
  io_state : exists s, ir_state r = intent_state_as_str s;
  io_kind : exists k, ir_kind r = intent_kind_as_str k;
  io_delivery : exists d, ir_delivery r = delivery_as_str d;
  io_taken : ir_delivery r = "next_work" ->
    ir_state r = "draft" \/ ir_state r = "queued" \/ ir_state r = "cancelled";
  io_work : forall w, ir_work_id r = Some w ->
    exists wr, ws !! w = Some wr /\ wr_workspace_id wr = ir_workspace_id r /\
      (live_state (ir_state r) -> open_state (wr_state wr))
}.

Record coord_inv (db : CoordDb) : Prop := {
  co_works : forall id r, works db !! id = Some r -> work_row_ok r;
  co_intents : forall id r, intents db !! id = Some r -> intent_row_ok (works db) r
}.

Section facts.
Context `{Sql : SqlEngine}.
Implicit Types (db : CoordDb).

Lemma work_open_text r :
  work_row_ok r ->
  is_open (default Active (work_state_parse (wr_state r))) = true <-> open_state (wr_state r).
Proof.
  intros [s Hs]. rewrite Hs, work_state_parse_as_str. cbn. unfold open_state.
  destruct s; cbn; split; intros; try done; auto; by destruct H.
Qed.

(** Later work tables: the same works in the same workspaces, and those open before that have
    an intent that needs them open still are. *)
Lemma intent_row_ok_works ws ws' r :
  (forall w wr, ws !! w = Some wr -> exists wr', ws' !! w = Some wr' /\
     wr_workspace_id wr' = wr_workspace_id wr /\
     (open_state (wr_state wr) -> ir_work_id r = Some w -> live_state (ir_state r) ->
      open_state (wr_state wr'))) ->
  intent_row_ok ws r -> intent_row_ok ws' r.
Proof.
  intros Hws [S K D T W]. split; auto. intros w Hw. destruct (W w Hw) as (wr & Hwr & Hsp & Ho).
  destruct (Hws w wr Hwr) as (wr' & Hwr' & Hsp' & Ho'). exists wr'. split_and!; [done|congruence|].
  intros Hl. apply Ho'; auto.
Qed.

Lemma bump_revision_lookup db w id r :
  works (bump_revision db w) !! id = Some r ->
  exists r0, works db !! id = Some r0 /\ wr_state r = wr_state r0 /\
    wr_workspace_id r = wr_workspace_id r0.
Proof.
  cbn. intros Hl.
  destruct (decide (w = id)) as [->|Hne].
  - rewrite lookup_alter_eq in Hl. destruct (works db !! id) as [r0|]; [|done].
    cbn in Hl. simplify_eq. eauto.
  - rewrite lookup_alter_ne in Hl by done. eauto.
Qed.

Lemma bump_revision_keeps db w id r :
  works db !! id = Some r ->
  exists r', works (bump_revision db w) !! id = Some r' /\ wr_state r' = wr_state r /\
    wr_workspace_id r' = wr_workspace_id r.
Proof.
  intros Hr. cbn. destruct (decide (w = id)) as [->|Hne].
  - rewrite lookup_alter_eq, Hr. cbn. eauto.
  - rewrite lookup_alter_ne by done. eauto.
Qed.

Lemma bump_revision_inv db w : coord_inv db -> coord_inv (bump_revision db w).
Proof.
  intros [Hw Hi]. split.
  - intros id r (r0 & Hr0 & Hs & _)%bump_revision_lookup. destruct (Hw id r0 Hr0) as [s ?].
    exists s. congruence.
  - intros id r Hr. eapply intent_row_ok_works; [|by eapply Hi].
    intros w' wr Hwr. destruct (bump_revision_keeps db w w' wr Hwr) as (wr' & Hwr' & Hs & Hsp).
    exists wr'. rewrite Hs. by split_and!.
Qed.

Lemma bump_attached_inv db o : coord_inv db -> coord_inv (bump_attached db o).
Proof. destruct o; [apply bump_revision_inv|done]. Qed.

Lemma bump_attached_intents db o : intents (bump_attached db o) = intents db.
Proof. by destruct o. Qed.

(** Rewriting the intents, row by row. *)
Lemma set_intents_inv db m :
  coord_inv db -> (forall id r, m !! id = Some r -> intent_row_ok (works db) r) ->
  coord_inv (set_intents db m).
Proof. intros [Hw _] Hm. by split. Qed.

Lemma insert_intents_inv db id r :
  coord_inv db -> intent_row_ok (works db) r ->
  coord_inv (set_intents db (<[id := r]> (intents db))).
Proof.
  intros Hinv Hr. apply set_intents_inv; [done|].
  intros id' r' [[<- <-]|[_ H]]%lookup_insert_Some; [done|]. by eapply co_intents.
Qed.

Lemma alter_intents_inv db id f :
  coord_inv db ->
  (forall r, intents db !! id = Some r -> intent_row_ok (works db) r ->
     intent_row_ok (works db) (f r)) ->
  coord_inv (set_intents db (alter f id (intents db))).
Proof.
  intros Hinv Hf. apply set_intents_inv; [done|]. intros id' r'.
  destruct (decide (id = id')) as [->|Hne].
  - rewrite lookup_alter_eq. destruct (intents db !! id') as [r|] eqn:E; [|done].
    cbn. intros [= <-]. apply Hf; [done|]. by eapply co_intents.
  - rewrite lookup_alter_ne by done. by apply co_intents.
Qed.

(** Changing the state column of an intent to one that needs no more of it. *)
Lemma intent_row_ok_state ws r r' :
  intent_row_ok ws r ->
  ir_work_id r' = ir_work_id r -> ir_workspace_id r' = ir_workspace_id r ->
  ir_kind r' = ir_kind r -> (exists d, ir_delivery r' = delivery_as_str d) ->
  (exists s, ir_state r' = intent_state_as_str s) ->
  (live_state (ir_state r') -> live_state (ir_state r)) ->
  (ir_delivery r' = "next_work" ->
   ir_state r' = "draft" \/ ir_state r' = "queued" \/ ir_state r' = "cancelled") ->
  intent_row_ok ws r'.
Proof.
  intros [S K D T W] Hw Hsp Hk Hd Hs Hl Ht. split; [done|by rewrite Hk|done|done|].
  rewrite Hw, Hsp. intros w Hwid. destruct (W w Hwid) as (wr & ? & ? & ?). exists wr. split_and!; auto.
Qed.

Lemma in_state_true s r : in_state s r = true <-> ir_state r = s.
Proof. apply bool_decide_eq_true. Qed.
Lemma on_work_true w r : on_work w r = true <-> ir_work_id r = Some w.
Proof. apply bool_decide_eq_true. Qed.
Lemma has_delivery_true d r : has_delivery d r = true <-> ir_delivery r = d.
Proof. apply bool_decide_eq_true. Qed.
Lemma editable_row_true r :
  intent_editable_row r = true <-> ir_state r = "draft" \/ ir_state r = "queued".
Proof. unfold intent_editable_row. by rewrite orb_true_iff, !in_state_true. Qed.

Lemma select_intents_elem db P id r :
  (id, r) ∈ select_intents db P <-> intents db !! id = Some r /\ P r = true.
Proof.
  unfold select_intents. rewrite list_elem_of_filter, elem_of_map_to_list; cbn.
  rewrite Is_true_true. tauto.
Qed.

Lemma select_intents_nil db P :
  select_intents db P = [] <-> forall id r, intents db !! id = Some r -> P r = false.
Proof.
  split.
  - intros Hn id r Hid. destruct (P r) eqn:E; [|done].
    assert (Hin : (id, r) ∈ select_intents db P) by (by apply select_intents_elem).
    rewrite Hn in Hin. by apply elem_of_nil in Hin.
  - intros Hno. destruct (select_intents db P) as [|[id r] l] eqn:E; [done|].
    assert (Hin : (id, r) ∈ (id, r) :: l) by (by left). rewrite <- E in Hin.
    apply select_intents_elem in Hin as [Hid HP]. by rewrite (Hno id r Hid) in HP.
Qed.

Lemma select_intents_bound db P : length (select_intents db P) <= size (intents db).
Proof.
  unfold select_intents. etransitivity; [apply length_filter|].
  by rewrite length_map_to_list.
Qed.

Lemma count_zero db P :
  (Z.of_nat (size (intents db)) < 2^32)%Z ->
  count_u32 (select_intents db P) = 0%Z <-> select_intents db P = [].
Proof.
  intros Hs. pose proof (select_intents_bound db P).
  rewrite count_u32_small by lia. destruct (select_intents db P); cbn; split; try done; lia.
Qed.

Lemma load_work_inv db id work :
  load_work db id = Some work ->
  exists r, works db !! id = Some r /\ work = work_from_row id r.
Proof. unfold load_work. rewrite fmap_Some. naive_solver. Qed.

Lemma load_intent_inv db id i :
  load_intent db id = Some i ->
  exists r, intents db !! id = Some r /\ i = intent_from_row id r.
Proof. unfold load_intent. rewrite fmap_Some. naive_solver. Qed.

(** Reading a well-formed row back. *)
Lemma intent_from_row_state ws id r s :
  intent_row_ok ws r ->
  ui_state (intent_from_row id r) = s <-> ir_state r = intent_state_as_str s.
Proof.
  intros [[s0 Hs] _ _ _ _]. cbn. rewrite Hs, intent_state_parse_as_str. cbn.
  split; [by intros ->|]. by intros ?%(inj _).
Qed.

Lemma intent_from_row_delivery ws id r d :
  intent_row_ok ws r ->
  ui_delivery (intent_from_row id r) = d <-> ir_delivery r = delivery_as_str d.
Proof.
  intros [_ _ [d0 Hd] _ _]. cbn. rewrite Hd, delivery_parse_as_str. cbn.
  split; [by intros ->|]. by intros ?%(inj _).
Qed.

Lemma stored_work_open db id work :
  coord_inv db -> load_work db id = Some work ->
  w_work_id work = id /\
  (stored_work_id work = Some id /\ exists r, works db !! id = Some r /\
     wr_workspace_id r = w_workspace_id work /\ open_state (wr_state r)) \/
  w_work_id work = id /\ stored_work_id work = None.
Proof.
  intros Hinv Hl. apply load_work_inv in Hl as (r & Hr & ->). unfold stored_work_id; cbn.
  pose proof (work_open_text r (co_works _ Hinv _ _ Hr)) as Ho.
  destruct (is_open _); [left|by right]. split_and!; try done. exists r. split_and!; try done.
  by apply Ho.
Qed.
End facts.

Section steps.
Context `{Sql : SqlEngine}.
Implicit Types (db : CoordDb).

(** * Every operation preserves the invariant *)

Lemma open_work_inv db ws title uuid now :
  coord_inv db -> coord_inv (open_work db ws title uuid now).2.
Proof.
  intros Hinv. unfold open_work. set (id := "work-" +:+ uuid).
  destruct (works db !! id) as [w0|] eqn:Hid; cbn [is_some is_none negb snd]; [done|].
  apply bump_revision_inv. destruct Hinv as [Hw Hi]. split; cbn.
  - intros id' r [[<- <-]|[_ H]]%lookup_insert_Some; [by exists Active|eauto].
  - intros i r' (r & <- & Hr)%lookup_fmap_Some. specialize (Hi i r Hr).
    assert (Hold : intent_row_ok (<[id := mkWorkRow ws title (work_state_as_str Active) 0 now None]>
      (works db)) r).
    { eapply intent_row_ok_works; [|exact Hi]. intros w wr Hwr. exists wr.
      split_and!; try done. rewrite lookup_insert_ne; [done|congruence]. }
    unfold attach_to. destruct (_ && _ && _) eqn:E; [|done].
    apply andb_prop in E as [[Hws%bool_decide_eq_true _]%andb_prop He%editable_row_true].
    destruct Hold as [S K D T _]. split; cbn; auto.
    + case_bool_decide; [by exists AfterCurrentWork|done].
    + intros _. tauto.
    + intros w [= <-]. exists (mkWorkRow ws title (work_state_as_str Active) 0 now None).
      split_and!; [by rewrite lookup_insert_eq|done|]. intros _. by left.
Qed.

Lemma claimable_true w s r :
  claimable w s r = true ->
  ir_work_id r = Some w /\ ir_state r = "queued" /\
  ir_delivery r ∈ claimable_deliveries s.
Proof.
  unfold claimable. intros [[H1 H2]%andb_prop H3]%andb_prop.
  by rewrite on_work_true, in_state_true, bool_decide_eq_true in *.
Qed.

Lemma claim_next_inv db w now : coord_inv db -> coord_inv (claim_next db w now).2.
Proof.
  intros Hinv. unfold claim_next. destruct (load_work db w) as [work|]; [|done].
  destruct (negb _); [done|].
  destruct (head _) as [[id r]|] eqn:Hh; [|done].
  apply sql_head_elem, select_intents_elem in Hh as [Hid Hc].
  rewrite Hid. destruct (_ && _); [|done]. cbn [snd].
  apply bump_revision_inv, insert_intents_inv; [done|].
  apply claimable_true in Hc as (_ & Hs & Hd).
  eapply intent_row_ok_state; [by eapply co_intents|..]; try done; cbn.
  - apply (co_intents _ Hinv _ _ Hid).
  - by exists IClaimed.
  - intros _. right. by left.
  - intros Hn. rewrite Hn in Hd. destruct (w_state work); cbn in Hd; set_solver.
Qed.

Lemma complete_intent_inv db w i outcome now :
  coord_inv db -> coord_inv (complete_intent db w i outcome now).2.
Proof.
  intros Hinv. unfold complete_intent. destruct (load_intent db i) as [cur|] eqn:Hl; [|done].
  case_bool_decide as H1; [done|]. case_bool_decide as H2; [done|]. cbn [snd].
  apply load_intent_inv in Hl as (r & Hr & ->).
  rewrite intent_from_row_state in H2 by by eapply co_intents.
  apply bump_revision_inv, alter_intents_inv; [done|].
  intros r' Hr' Hok. simplify_eq. destruct Hok as [S K D T W] eqn:Hok'.
  eapply intent_row_ok_state; [by eapply co_intents|..]; try done; cbn.
  - by destruct outcome; [exists IDone|exists IBlocked].
  - intros [?|[?|?]]; by destruct outcome.
  - intros Hn. apply T in Hn. rewrite H2 in Hn. naive_solver.
Qed.

Lemma close_inv db w now :
  coord_inv db ->
  (forall r, r ∈ (select_intents db (fun r => on_work w r && in_state "claimed" r)).*2 -> False) ->
  coord_inv (mkCoordDb (alter (close_work_row now) w (works db)) (detach w now <$> intents db)).
Proof.
  intros [Hw Hi] Hnone. split; cbn.
  - intros id r. destruct (decide (w = id)) as [->|Hne].
    + rewrite lookup_alter_eq. intros (r0 & Hr0 & ->)%fmap_Some. by exists Closed.
    + rewrite lookup_alter_ne by done. eauto.
  - intros i r' (r & <- & Hr)%lookup_fmap_Some. specialize (Hi i r Hr).
    unfold detach. destruct (_ && _) eqn:E.
    + destruct Hi as [S K D T _]. by split.
    + apply (intent_row_ok_works (works db)); [|done]. intros w' wr Hwr.
      destruct (decide (w = w')) as [->|Hne].
      * exists (close_work_row now wr). rewrite lookup_alter_eq, Hwr. split_and!; try done.
        intros _ Hw' Hlive. exfalso.
        rewrite (proj2 (on_work_true w' r) Hw') in E. cbn in E.
        apply orb_false_iff in E as [E _].
        destruct Hlive as [Hs|[Hs|Hs]].
        -- rewrite (proj2 (editable_row_true r)) in E by auto. done.
        -- rewrite (proj2 (editable_row_true r)) in E by auto. done.
        -- apply (Hnone r). apply list_elem_of_fmap. exists (i, r). split; [done|].
           apply select_intents_elem. split; [done|].
           by rewrite (proj2 (on_work_true _ _) Hw'), (proj2 (in_state_true _ _) Hs).
      * exists wr. rewrite lookup_alter_ne by done. by split_and!.
Qed.

Lemma alter_work_closing_inv db w :
  coord_inv db -> coord_inv (set_works db (alter (set_work_state Closing) w (works db))).
Proof.
  intros [Hw Hi]. split; cbn.
  - intros id r. destruct (decide (w = id)) as [->|Hne].
    + rewrite lookup_alter_eq. intros (r0 & Hr0 & ->)%fmap_Some. by exists Closing.
    + rewrite lookup_alter_ne by done. eauto.
  - intros i r Hr. eapply intent_row_ok_works; [|by eapply Hi]. intros w' wr Hwr.
    destruct (decide (w = w')) as [->|Hne].
    + exists (set_work_state Closing wr). rewrite lookup_alter_eq, Hwr. split_and!; try done.
      intros _ _ _. by right.
    + exists wr. rewrite lookup_alter_ne by done. by split_and!.
Qed.

Lemma finish_work_inv db w now :
  (Z.of_nat (size (intents db)) < 2^32)%Z ->
  coord_inv db -> coord_inv (finish_work db w now).2.
Proof.
  intros Hsize Hinv. unfold finish_work. destruct (load_work db w) as [work|]; [|done].
  destruct (negb _); [done|]. cbv zeta.
  destruct (bool_decide (0 < count_state db w "claimed")%Z || _) eqn:E1; [done|].
  destruct (bool_decide (0 < count_delivery db w "queued" "after_current_work")%Z);
    [destruct (bool_decide (w_state work = Active)); [|done]|]; cbn [snd].
  - by apply bump_revision_inv, alter_work_closing_inv.
  - apply close_inv; [done|]. intros r Hin.
    apply orb_false_iff in E1 as [E1%bool_decide_eq_false _].
    assert (Hz : count_state db w "claimed" = 0%Z).
    { unfold count_state, count_u32, as_u32 in *.
      pose proof (Z.mod_pos_bound (Z.of_nat (length (select_intents db
        (fun r => on_work w r && in_state "claimed" r)))) (2^32) ltac:(lia)). lia. }
    apply count_zero in Hz; [|done]. rewrite Hz in Hin. by apply elem_of_nil in Hin.
Qed.

Lemma insert_intent_inv db id r :
  coord_inv db -> intent_row_ok (works db) r -> coord_inv (insert_intent db id r).2.
Proof.
  intros Hinv Hr. unfold insert_intent. destruct (is_some _); [done|].
  by apply bump_attached_inv, insert_intents_inv.
Qed.

(** The row of a new intent, attached to its work while that is open. *)
Lemma new_row_ok db w work pos kind d body state now claimed :
  coord_inv db -> load_work db w = Some work ->
  (d = NextWork -> state = IDraft) -> 
  intent_row_ok (works db)
    (mkIntentRow (stored_work_id work) (w_workspace_id work) pos 1 (intent_kind_as_str kind)
       (delivery_as_str d) body (intent_state_as_str state) now now claimed None).
Proof.
  intros Hinv Hl Hd. split; cbn.
  - by exists state.
  - by exists kind.
  - by exists d.
  - intros Hn. left. destruct d; try done. by rewrite Hd.
  - intros w' Hw'. destruct (stored_work_open db w work Hinv Hl)
      as [(_ & Hs & r & Hr & Hsp & Ho)|[_ Hs]]; [|congruence].
    rewrite Hs in Hw'. simplify_eq. eauto.
Qed.

Lemma create_draft_inv db w create uuid now :
  coord_inv db -> coord_inv (create_draft db w create uuid now).2.
Proof.
  intros Hinv. unfold create_draft. destruct (load_work db w) as [work|] eqn:Hl; [|done].
  apply insert_intent_inv; [done|].
  apply (new_row_ok db w work _ _ _ _ IDraft); [done|done|done].
Qed.

Lemma insert_stop_notice_inv db w reason uuid now :
  coord_inv db -> coord_inv (insert_stop_notice db w reason uuid now).2.
Proof.
  intros Hinv. unfold insert_stop_notice. destruct (load_work db w) as [work|] eqn:Hl; [|done].
  apply insert_intent_inv; [done|].
  apply (new_row_ok db w work _ StopNotice NextCheckpoint); [done|done|done].
Qed.

Lemma rewrite_intent_inv db id w where_ set :
  coord_inv db ->
  (forall r, intents db !! id = Some r -> where_ r = true ->
     intent_row_ok (works db) r -> intent_row_ok (works db) (set r)) ->
  coord_inv (rewrite_intent db id w where_ set).2.
Proof.
  intros Hinv Hset. unfold rewrite_intent. destruct (intents db !! id) as [r|] eqn:Hr; [|done].
  destruct (where_ r) eqn:Hw; [|done]. apply bump_attached_inv, insert_intents_inv; [done|].
  apply Hset; [done|done|]. by eapply co_intents.
Qed.

Lemma edit_intent_inv db id revision body d now :
  coord_inv db -> coord_inv (edit_intent db id revision body d now).2.
Proof.
  intros Hinv. unfold edit_intent. destruct (load_intent db id) as [cur|]; [|done].
  case_bool_decide; [done|]. destruct (negb _); [done|]. case_bool_decide; [done|].
  apply rewrite_intent_inv; [done|]. intros r Hr [_ He%editable_row_true]%andb_prop Hok.
  eapply intent_row_ok_state; [exact Hok|..]; try done; cbn; [eauto|apply Hok|tauto].
Qed.

Lemma queue_intent_inv db id revision now :
  coord_inv db -> coord_inv (queue_intent db id revision now).2.
Proof.
  intros Hinv. unfold queue_intent. destruct (load_intent db id) as [cur|]; [|done].
  do 2 (case_bool_decide; [done|]).
  apply rewrite_intent_inv; [done|]. intros r Hr [_ He%in_state_true]%andb_prop Hok.
  eapply intent_row_ok_state; [exact Hok|..]; try done; cbn;
    [apply Hok|by exists IQueued|by left|tauto].
Qed.

Lemma cancel_intent_inv db id now :
  coord_inv db -> coord_inv (cancel_intent db id now).2.
Proof.
  intros Hinv. unfold cancel_intent. destruct (load_intent db id) as [cur|]; [|done].
  destruct (negb _); [done|]. cbn [snd].
  apply bump_attached_inv, alter_intents_inv; [done|]. intros r Hr Hok.
  eapply intent_row_ok_state; [exact Hok|..]; try done; cbn;
    [apply Hok|by exists ICancelled|by intros [?|[?|?]]|tauto].
Qed.

(** Placing changes positions of queued rows, nothing else. *)
Lemma place_all_lookup now pos ids m id r' :
  place_all now pos ids m !! id = Some r' ->
  exists r, m !! id = Some r /\
    (r' = r \/ ir_state r = "queued" /\ exists p, r' = set_position p now r).
Proof.
  revert pos m. induction ids as [|id0 ids IH]; intros pos m; cbn; [eauto|].
  intros (r1 & Hr1 & Hr')%IH. unfold place in Hr1.
  destruct (decide (id0 = id)) as [->|Hne].
  - rewrite lookup_alter_eq in Hr1. destruct (m !! id) as [r|]; [|done]. cbn in Hr1.
    exists r. split; [done|].
    destruct (in_state "queued" r) eqn:Eq; simplify_eq; [|done].
    apply in_state_true in Eq. right. split; [done|].
    destruct Hr' as [->|[_ [p ->]]]; [eauto|]. by exists p.
  - rewrite lookup_alter_ne in Hr1 by done. eauto.
Qed.

Lemma reorder_queued_inv db w ids now :
  coord_inv db -> coord_inv (reorder_queued db w ids now).2.
Proof.
  intros Hinv. unfold reorder_queued. destruct (load_work db w) as [work|]; [|done].
  cbv zeta. destruct (_ || _); [done|]. cbn [snd].
  apply bump_revision_inv, set_intents_inv; [done|]. intros id r' Hr'.
  apply place_all_lookup in Hr' as (r & Hr & [->|[_ [p ->]]]); [by eapply co_intents|].
  pose proof (co_intents _ Hinv _ _ Hr) as Hok.
  eapply intent_row_ok_state; [exact Hok|..]; try done; apply Hok.
Qed.

Lemma coord_run_inv op db :
  (Z.of_nat (size (intents db)) < 2^32)%Z -> coord_inv db -> coord_inv (coord_run op db).
Proof.
  destruct op; cbn [coord_run];
    auto using open_work_inv, claim_next_inv, complete_intent_inv, finish_work_inv,
      create_draft_inv, edit_intent_inv, queue_intent_inv, cancel_intent_inv,
      reorder_queued_inv, insert_stop_notice_inv.
Qed.

Lemma coord_reachable_inv db : coord_reachable db -> coord_inv db.
Proof.
  revert db. apply (rtc_ind_r (R := coord_step) coord_inv).
  - split; cbn; intros id r; by rewrite lookup_empty.
  - intros db1 db2 _ (op & -> & Hs) Hinv. by apply coord_run_inv.
Qed.
End steps.

(** * How an intent evolves *)

Definition intent_edges : list (string * string) :=
  [("draft", "queued"); ("draft", "cancelled"); ("queued", "claimed"); ("queued", "cancelled");
   ("claimed", "done"); ("claimed", "blocked")].

Record intent_moves (r r' : IntentRow) : Prop := {
  im_workspace : ir_workspace_id r' = ir_workspace_id r;
  im_kind : ir_kind r' = ir_kind r;
  im_created : ir_created_at r' = ir_created_at r;
  im_revision : (ir_revision r <= ir_revision r')%Z;
  im_state : ir_state r' = ir_state r \/ (ir_state r, ir_state r') ∈ intent_edges;
  im_text : ~ (ir_state r = "draft" \/ ir_state r = "queued") ->
    ir_body r' = ir_body r /\ ir_delivery r' = ir_delivery r
}.

Section moves.
Context `{Sql : SqlEngine}.
Implicit Types (db : CoordDb).

Lemma moves_refl r : intent_moves r r.
Proof. split; auto. lia. Qed.

Ltac moves := split; cbn; try done; try lia; auto; try (intros ?; tauto).

Lemma alter_moves (m : gmap string IntentRow) f id0 id r :
  (id0 = id -> intent_moves r (f r)) -> m !! id = Some r ->
  exists r', alter f id0 m !! id = Some r' /\ intent_moves r r'.
Proof.
  intros Hf Hr. destruct (decide (id0 = id)) as [->|Hne].
  - rewrite lookup_alter_eq, Hr. cbn. eauto.
  - rewrite lookup_alter_ne by done. eauto using moves_refl.
Qed.

Lemma insert_moves (m : gmap string IntentRow) id0 r0 id r :
  (forall r1, m !! id0 = Some r1 -> intent_moves r1 r0) -> m !! id = Some r ->
  exists r', <[id0 := r0]> m !! id = Some r' /\ intent_moves r r'.
Proof.
  intros Hf Hr. destruct (decide (id0 = id)) as [->|Hne].
  - rewrite lookup_insert_eq. eauto.
  - rewrite lookup_insert_ne by done. eauto using moves_refl.
Qed.

Lemma rewrite_intent_moves db id0 w where_ set id r :
  (forall r0, where_ r0 = true -> intent_moves r0 (set r0)) ->
  intents db !! id = Some r ->
  exists r', intents (rewrite_intent db id0 w where_ set).2 !! id = Some r' /\ intent_moves r r'.
Proof.
  intros Hset Hr. unfold rewrite_intent.
  destruct (intents db !! id0) as [r0|] eqn:Hr0; [|eauto using moves_refl].
  destruct (where_ r0) eqn:Hw; [|eauto using moves_refl]. cbn [snd].
  rewrite bump_attached_intents. apply insert_moves; [|done].
  intros r1 Hr1. simplify_eq. auto.
Qed.

Lemma insert_intent_moves db id0 r0 id r :
  intents db !! id = Some r ->
  exists r', intents (insert_intent db id0 r0).2 !! id = Some r' /\ intent_moves r r'.
Proof.
  intros Hr. unfold insert_intent. destruct (intents db !! id0) eqn:Hr0; cbn [is_some is_none negb snd].
  - eauto using moves_refl.
  - rewrite bump_attached_intents. apply insert_moves; [|done]. cbn. congruence.
Qed.

Lemma set_state_edge_moves r r' :
  ir_workspace_id r' = ir_workspace_id r -> ir_kind r' = ir_kind r ->
  ir_created_at r' = ir_created_at r -> (ir_revision r <= ir_revision r')%Z ->
  (ir_state r, ir_state r') ∈ intent_edges ->
  (ir_body r' = ir_body r /\ ir_delivery r' = ir_delivery r) -> intent_moves r r'.
Proof. by split; auto. Qed.

Lemma place_all_moves now ids : forall pos (m : gmap string IntentRow) id r,
  m !! id = Some r ->
  exists r', place_all now pos ids m !! id = Some r' /\ intent_moves r r'.
Proof.
  induction ids as [|i ids IH]; intros pos m id r Hr; cbn; [eauto using moves_refl|].
  unfold place at 1.
  set (f := fun r => if in_state "queued" r then set_position pos now r else r).
  assert (Hm : forall r0, intent_moves r0 (f r0) /\ ir_state (f r0) = ir_state r0 /\
    ir_body (f r0) = ir_body r0 /\ ir_delivery (f r0) = ir_delivery r0).
  { intros r0. unfold f. destruct (in_state "queued" r0); [|by auto using moves_refl].
    split; [|done]. moves. }
  destruct (decide (i = id)) as [->|Hne]; [|apply IH; by rewrite lookup_alter_ne].
  destruct (IH (pos + 1)%Z (alter f id m) id (f r)) as (r' & Hr' & [M1 M2 M3 M4 M5 M6]).
  { by rewrite lookup_alter_eq, Hr. }
  exists r'. split; [done|]. destruct (Hm r) as ([A1 A2 A3 A4 _ _] & S & B & D).
  split; [congruence|congruence|congruence|lia|by rewrite <- S|].
  rewrite <- S, <- B, <- D. exact M6.
Qed.

Lemma coord_run_moves op db id r :
  coord_inv db -> intents db !! id = Some r ->
  exists r', intents (coord_run op db) !! id = Some r' /\ intent_moves r r'.
Proof.
  intros Hinv Hr.
  assert (Hstay : exists r', intents db !! id = Some r' /\ intent_moves r r')
    by eauto using moves_refl.
  destruct op as [ws title uuid now|w now|w i outcome now|w now|w create uuid now
    |i revision body d now|i revision now|i now|w ids now|w reason uuid now]; cbn [coord_run].
  - unfold open_work. destruct (is_some _); [done|]. cbn.
    rewrite lookup_fmap, Hr. cbn. eexists; split; [done|]. unfold attach_to.
    destruct (_ && _ && _) eqn:E; [|apply moves_refl].
    apply andb_prop in E as [_ He%editable_row_true]. moves.
  - unfold claim_next. destruct (load_work db w) as [work|]; [|done].
    destruct (negb _); [done|]. destruct (head _) as [[i0 r0]|] eqn:Hh; [|done].
    apply sql_head_elem, select_intents_elem in Hh as [Hi0 Hc]. rewrite Hi0.
    destruct (_ && _); [|done]. cbn. apply insert_moves; [|done].
    apply claimable_true in Hc as (_ & Hs & _). intros r1 Hr1. simplify_eq.
    apply set_state_edge_moves; cbn; try done. rewrite Hs. set_solver.
  - unfold complete_intent. destruct (load_intent db i) as [cur|] eqn:Hl; [|done].
    case_bool_decide as H1; [done|]. case_bool_decide as H2; [done|]. cbn [snd].
    apply load_intent_inv in Hl as (r0 & Hr0 & ->).
    rewrite intent_from_row_state in H2 by by eapply co_intents. cbn.
    apply alter_moves; [|done]. intros ->. simplify_eq.
    apply set_state_edge_moves; cbn; try done. rewrite H2. destruct outcome; set_solver.
  - unfold finish_work. destruct (load_work db w) as [work|]; [|done].
    destruct (negb _); [done|]. cbv zeta. destruct (_ || _); [done|].
    destruct (bool_decide _); [by destruct (bool_decide _)|]. cbn.
    rewrite lookup_fmap, Hr. cbn. eexists; split; [done|]. unfold detach.
    destruct (_ && _); [|apply moves_refl]. moves.
  - unfold create_draft. destruct (load_work db w) as [work|]; [|done].
    by apply insert_intent_moves.
  - unfold edit_intent. destruct (load_intent db i) as [cur|]; [|done].
    case_bool_decide; [done|]. destruct (negb _); [done|]. case_bool_decide; [done|].
    apply rewrite_intent_moves; [|done]. intros r0 [_ He%editable_row_true]%andb_prop. moves.
  - unfold queue_intent. destruct (load_intent db i) as [cur|]; [|done].
    do 2 (case_bool_decide; [done|]).
    apply rewrite_intent_moves; [|done]. intros r0 [_ He%in_state_true]%andb_prop.
    apply set_state_edge_moves; cbn; try done; [lia|]. rewrite He. set_solver.
  - unfold cancel_intent. destruct (load_intent db i) as [cur|] eqn:Hl; [|done].
    destruct (is_editable (ui_state cur)) eqn:He; [|done]. cbn [negb snd].
    rewrite bump_attached_intents. cbn. apply alter_moves; [|done]. intros ->.
    apply load_intent_inv in Hl as (r0 & Hr0 & ->). simplify_eq.
    apply set_state_edge_moves; cbn; try done.
    destruct (ui_state (intent_from_row id r)) eqn:Hs; try done;
      apply (intent_from_row_state (works db)) in Hs; [|by eapply co_intents| |by eapply co_intents];
      rewrite Hs; set_solver.
  - unfold reorder_queued. destruct (load_work db w) as [work|]; [|done].
    cbv zeta. destruct (_ || _); [done|]. cbn. by apply place_all_moves.
  - unfold insert_stop_notice. destruct (load_work db w) as [work|]; [|done].
    by apply insert_intent_moves.
Qed.

(** * Counting what is pending *)

Lemma pending_splits db w :
  coord_inv db ->
  length (select_intents db (is_pending_item w)) =
    length (select_intents db (fun r => on_work w r && in_state "claimed" r))
    + length (select_intents db
        (fun r => on_work w r && in_state "queued" r && has_delivery "next_checkpoint" r))
    + length (select_intents db
        (fun r => on_work w r && in_state "queued" r && has_delivery "after_current_work" r)).
Proof.
  intros Hinv. unfold select_intents.
  apply (length_filter_sum3 (fun kv => is_pending_item w kv.2)
    (fun kv => on_work w kv.2 && in_state "claimed" kv.2)
    (fun kv => on_work w kv.2 && in_state "queued" kv.2 && has_delivery "next_checkpoint" kv.2)
    (fun kv => on_work w kv.2 && in_state "queued" kv.2 && has_delivery "after_current_work" kv.2)).
  intros [id r] Hin%elem_of_map_to_list. cbn. destruct (co_intents _ Hinv _ _ Hin) as [S K [d D] T _].
  unfold is_pending_item, in_state, has_delivery. rewrite D.
  destruct (on_work w r); [|done]. cbn [andb].
  destruct (decide (ir_state r = "claimed")) as [Hs|Hs]; [rewrite Hs|].
  - destruct d; try done. exfalso. rewrite D in T. destruct (T eq_refl) as [|[|]]; congruence.
  - rewrite (bool_decide_eq_false_2 (ir_state r = "claimed")) by done. rewrite orb_false_r.
    destruct (bool_decide (ir_state r = "queued")); [|done]. by destruct d.
Qed.

Lemma finish_counts db w :
  (Z.of_nat (size (intents db)) < 2^32)%Z -> coord_inv db ->
  pending_user_items db w =
    (count_state db w "claimed" + count_delivery db w "queued" "next_checkpoint"
     + count_delivery db w "queued" "after_current_work")%Z /\
  (0 <= count_state db w "claimed")%Z /\
  (0 <= count_delivery db w "queued" "next_checkpoint")%Z /\
  (0 <= count_delivery db w "queued" "after_current_work")%Z.
Proof.
  intros Hs Hinv. pose proof (pending_splits db w Hinv) as Hp.
  unfold pending_user_items, count_state, count_delivery.
  pose proof (select_intents_bound db) as Hb.
  rewrite !count_u32_small by (eapply Z.le_lt_trans; [|exact Hs]; apply Nat2Z.inj_le, Hb).
  lia.
Qed.
End moves.

(** * Properties *)

Section properties.
Context `{Sql : SqlEngine}.

Lemma claimable_policy db w work r :
  coord_inv db -> (exists id, intents db !! id = Some r) ->
  claimable w (w_state work) r = true <->
  ir_work_id r = Some w /\ ir_state r = "queued" /\
  exists d, ir_delivery r = delivery_as_str d /\ claimable_in d (w_state work) = true.
Proof.
  intros Hinv [id Hr]. destruct (co_intents _ Hinv _ _ Hr) as [_ _ [d D] _ _].
  unfold claimable. rewrite !andb_true_iff, on_work_true, in_state_true, bool_decide_eq_true.
  rewrite D. assert (Hd : delivery_as_str d ∈ claimable_deliveries (w_state work) <->
    claimable_in d (w_state work) = true).
  { destruct (w_state work), d; cbn; split; intros; try done; set_solver. }
  split.
  - intros [[? ?] Hin]. split_and!; try done. exists d. split; [done|]. by apply Hd.
  - intros (? & ? & d' & Hdd & Hc). split_and!; try done. apply Hd.
    by apply (inj delivery_as_str) in Hdd as ->.
Qed.

(** C24: [claim_next] hands out the right intent: on an open work, the queued intent that its
    delivery policy allows in the work's state and that no other allowed one precedes, marking
    exactly that row claimed; nothing, unchanged, only when no queued intent may be claimed; an
    unknown work is missing and one that is not open is closed. *)
Theorem claim_next_hands_out_first (db : CoordDb) (w : string) (now : Z)
    (Hreach : coord_reachable db) :
  let may_claim work r := ir_work_id r = Some w /\ ir_state r = "queued" /\
    exists d, ir_delivery r = delivery_as_str d /\ claimable_in d (w_state work) = true in
  match load_work db w with
  | None => claim_next db w now = (Err (work_missing w), db)
  | Some work =>
      if accepts_claims (w_state work) then
        match claim_next db w now with
        | (Ok (Some c), db') =>
            exists r, intents db !! ci_intent_id c = Some r /\ may_claim work r /\
              ci_content c = ir_body r /\ ci_revision c = as_u64 (ir_revision r) /\
              (forall id' r', intents db !! id' = Some r' -> may_claim work r' ->
                 (ir_position r <= ir_position r')%Z) /\
              intents db' = <[ci_intent_id c := set_claimed now r]> (intents db)
        | (Ok None, db') =>
            db' = db /\ forall id r, intents db !! id = Some r -> ~ may_claim work r
        | (Err _, _) => False
        end
      else claim_next db w now =
             (Err (work_closed "work is closed; open a new work_id"), db)
  end.
Proof.
  intros may_claim. pose proof (coord_reachable_inv db Hreach) as Hinv. unfold claim_next.
  destruct (load_work db w) as [work|]; [|done].
  destruct (accepts_claims (w_state work)); [|done]. cbn [negb].
  assert (Hpol : forall id r, intents db !! id = Some r ->
    claimable w (w_state work) r = true <-> may_claim work r).
  { intros id r Hr. apply (claimable_policy db w work r Hinv). eauto. }
  destruct (head _) as [[id r]|] eqn:Hh.
  - pose proof (sql_head_elem _ _ _ Hh) as Hin. apply select_intents_elem in Hin as [Hr Hc].
    rewrite Hr. pose proof (claimable_true _ _ _ Hc) as (_ & Hs & _).
    rewrite (proj2 (in_state_true _ _) Hs), bool_decide_eq_true_2 by done. cbn [andb].
    exists r. split_and!; try done; [by apply (Hpol id)|]. intros id' r' Hr' Hm'.
    assert (Hle : by_position (id, r) (id', r')).
    { eapply sql_head_least; [| |exact Hh|].
      - intros a b. unfold by_position. rewrite !bool_decide_spec. lia.
      - intros a b c. unfold by_position. rewrite !bool_decide_spec. lia.
      - apply select_intents_elem. split; [done|]. by apply (Hpol id'). }
    unfold by_position in Hle. by rewrite bool_decide_spec in Hle.
  - split; [done|]. intros id r Hr Hm. apply sql_head_none in Hh.
    pose proof (proj1 (select_intents_nil _ _) Hh id r Hr) as Hf.
    apply (Hpol id r Hr) in Hm. congruence.
Qed.

(** The life of an intent: whatever happens to the store, its row keeps its workspace and
    kind, its revision never decreases, its state moves only along draft -> queued -> claimed ->
    done | blocked and draft | queued -> cancelled, and once it is past queued its body and
    delivery never change: what an agent claimed stays what the user wrote. *)
Theorem intent_lifecycle (db : CoordDb) (op : CoordOp) (id : string) (r : IntentRow)
    (Hreach : coord_reachable db) (Hr : intents db !! id = Some r) :
  exists r', intents (coord_run op db) !! id = Some r' /\
    ir_workspace_id r' = ir_workspace_id r /\ ir_kind r' = ir_kind r /\
    (ir_revision r <= ir_revision r')%Z /\
    (ir_state r' = ir_state r \/
     (ir_state r, ir_state r') ∈
       [("draft", "queued"); ("draft", "cancelled"); ("queued", "claimed");
        ("queued", "cancelled"); ("claimed", "done"); ("claimed", "blocked")]) /\
    (~ (ir_state r = "draft" \/ ir_state r = "queued") ->
     ir_body r' = ir_body r /\ ir_delivery r' = ir_delivery r).
Proof.
  destruct (coord_run_moves op db id r (coord_reachable_inv db Hreach) Hr)
    as (r' & Hr' & [? ? ? ? ? ?]). exists r'. by split_and!.
Qed.

(** [finish_work] closes exactly when the coordination hint would count nothing pending:
    on an open work it reports closed iff [pending_user_items] is zero, and otherwise reports
    that count and leaves every intent alone; when it closes, no draft, queued or claimed intent
    is left on the work, the others keep their state and text, and claims are refused. *)
Theorem finish_work_closes_when_nothing_pending (db : CoordDb) (w : string) (now : Z) (work : Work)
    (Hreach : coord_reachable db) (Hsize : (Z.of_nat (size (intents db)) < 2^32)%Z)
    (Hwork : load_work db w = Some work) (Hopen : is_open (w_state work) = true) :
  let db' := (finish_work db w now).2 in
  exists res, (finish_work db w now).1 = Ok res /\ wf_work_id res = w /\
    (wf_closed res = true <-> pending_user_items db w = 0%Z) /\
    wf_queued res = pending_user_items db w /\
    if wf_closed res then
      wf_state res = Closed /\
      (forall id r, intents db !! id = Some r -> exists r', intents db' !! id = Some r' /\
         ir_state r' = ir_state r /\ ir_body r' = ir_body r /\
         (live_state (ir_state r) -> ir_work_id r' <> Some w)) /\
      claim_next db' w now = (Err (work_closed "work is closed; open a new work_id"), db')
    else intents db' = intents db /\ is_open (wf_state res) = true.
Proof.
  intros db'. pose proof (coord_reachable_inv db Hreach) as Hinv.
  destruct (finish_counts db w Hsize Hinv) as (Hp & H1 & H2 & H3).
  apply load_work_inv in Hwork as (wr & Hwr & ->). unfold db', finish_work, load_work.
  rewrite Hwr. cbn [fmap option_fmap option_map]. rewrite Hopen. cbn [negb]. cbv zeta.
  destruct (bool_decide (0 < count_state db w "claimed")%Z
            || bool_decide (0 < count_delivery db w "queued" "next_checkpoint")%Z) eqn:E1.
  - eexists; split; [done|]. cbn. rewrite orb_true_iff, !bool_decide_eq_true in E1.
    split_and!; try done; lia.
  - apply orb_false_iff in E1 as [E1%bool_decide_eq_false E2%bool_decide_eq_false].
    case_bool_decide as E3.
    + case_bool_decide; (eexists; split; [done|]); cbn; (split_and!; [done| |lia|done|done]);
        split; [done|lia|done|lia].
    + eexists; split; [done|]. cbn [wf_closed wf_work_id wf_queued wf_state snd].
      split_and!; [done| |lia|done| |].
      * split; [lia|done].
      * intros id r Hr. cbn [intents]. rewrite lookup_fmap, Hr. cbn. eexists; split; [done|].
        unfold detach. destruct (_ && _) eqn:Ed; [done|]. split_and!; try done.
        intros Hlive Hid. rewrite (proj2 (on_work_true _ _) Hid) in Ed. cbn in Ed.
        apply orb_false_iff in Ed as [Ed _].
        destruct Hlive as [Hs|[Hs|Hs]].
        -- rewrite (proj2 (editable_row_true r)) in Ed by auto. done.
        -- rewrite (proj2 (editable_row_true r)) in Ed by auto. done.
        -- assert (Hz : count_state db w "claimed" = 0%Z) by lia.
           apply (count_zero db _ Hsize), select_intents_nil with (id := id) (r := r) in Hz; [|done].
           by rewrite (proj2 (on_work_true _ _) Hid), (proj2 (in_state_true _ _) Hs) in Hz.
      * unfold claim_next, load_work; cbn. by rewrite lookup_alter_eq, Hwr.
Qed.

(** Nothing a user queued is lost when its work closes: an intent left without a work in a
    workspace, as [finish_work] leaves the drafts and queued ones, is attached by the next
    [open_work] of that workspace with its text and state, one meant for the next work becoming
    claimable after the current one, and it is claimed again once that work is closing. *)
Theorem open_work_adopts_left_intents (db : CoordDb) (ws : string) (title : option string)
    (uuid : string) (now : Z) (id : string) (r : IntentRow)
    (Hr : intents db !! id = Some r) (Hleft : ir_work_id r = None)
    (Hws : ir_workspace_id r = ws) (Hs : ir_state r = "draft" \/ ir_state r = "queued")
    (Hfresh : works db !! ("work-" +:+ uuid) = None) :
  let new := "work-" +:+ uuid in
  let db' := (open_work db ws title uuid now).2 in
  exists r', intents db' !! id = Some r' /\ ir_work_id r' = Some new /\
    ir_state r' = ir_state r /\ ir_body r' = ir_body r /\
    ir_delivery r' = (if bool_decide (ir_delivery r = "next_work") then "after_current_work"
                      else ir_delivery r) /\
    (ir_state r = "queued" -> (exists d, ir_delivery r = delivery_as_str d) ->
     claimable new Closing r' = true) /\
    exists work, load_work db' new = Some work /\ w_state work = Active.
Proof.
  intros new db'. unfold db', open_work. fold new in Hfresh |- *. rewrite Hfresh. cbn [is_some is_none negb snd].
  cbn [intents bump_revision set_works]. rewrite lookup_fmap, Hr. cbn [fmap option_fmap option_map].
  eexists; split; [done|]. unfold attach_to.
  rewrite bool_decide_eq_true_2, Hleft by done. cbn [is_none andb].
  rewrite (proj2 (editable_row_true r)) by done. cbn [ir_work_id ir_state ir_body ir_delivery].
  split_and!; try done.
  - intros Hq [d Hd]. unfold claimable, on_work, in_state; cbn. rewrite Hd, Hq.
    rewrite bool_decide_eq_true_2 by done. by destruct d.
  - unfold load_work; cbn. rewrite lookup_alter_eq, lookup_insert_eq. cbn. eauto.
Qed.

(** Edits are guarded by the revision the user saw: editing an intent succeeds exactly on a
    draft or queued row whose revision is the one given, and then writes the text and moves the
    revision on by one, so the same revision is never accepted twice; a claimed intent, a
    settled one and another revision are refused, unchanged, each with its own error. *)
Theorem edit_intent_checks_revision (db : CoordDb) (id : string) (revision : Z) (body : string)
    (d : option DeliveryPolicy) (now : Z) (r : IntentRow)
    (Hreach : coord_reachable db) (Hr : intents db !! id = Some r)
    (Hrange : (0 <= ir_revision r < 2^63)%Z) :
  let out := edit_intent db id revision body d now in
  (ir_state r = "claimed" -> out = (Err already_claimed, db)) /\
  (ir_state r <> "claimed" -> ir_state r <> "draft" -> ir_state r <> "queued" ->
   out = (Err (not_editable "only draft and queued intents can be edited"), db)) /\
  (ir_state r = "draft" \/ ir_state r = "queued" ->
   if bool_decide (revision = ir_revision r) then
     exists r', intents out.2 = <[id := r']> (intents db) /\
       out.1 = Ok (intent_from_row id r') /\ ir_body r' = body /\ ir_state r' = ir_state r /\
       ir_revision r' = (ir_revision r + 1)%Z
   else out = (Err revision_conflict, db)).
Proof.
  intros out. pose proof (co_intents _ (coord_reachable_inv db Hreach) _ _ Hr) as Hok.
  unfold out, edit_intent, load_intent. rewrite Hr. cbn [fmap option_fmap option_map].
  pose proof (intent_from_row_state (works db) id r) as Hst.
  destruct (io_state _ _ Hok) as [s Hs].
  assert (Hus : ui_state (intent_from_row id r) = s) by by apply Hst.
  rewrite Hus. rewrite Hs. split_and!.
  - intros Hc. destruct s; try discriminate Hc. done.
  - intros N1 N2 N3. by destruct s.
  - intros He. assert (Hed : is_editable s = true /\ s <> IClaimed).
    { by destruct s, He as [He|He]. }
    destruct Hed as [Hed Hn]. rewrite (bool_decide_eq_false_2 (s = IClaimed)), Hed by done. cbn [negb].
    cbn [ui_revision intent_from_row]. rewrite as_u64_id by lia.
    destruct (decide (revision = ir_revision r)) as [->|Hne].
    + rewrite (bool_decide_eq_true_2 (ir_revision r = ir_revision r)) by done.
      rewrite (bool_decide_eq_false_2 (ir_revision r <> ir_revision r)) by naive_solver.
      unfold rewrite_intent. rewrite Hr.
      assert (Hi : as_i64 (ir_revision r) = ir_revision r).
      { rewrite <- (as_u64_id (ir_revision r)) at 1 by lia. apply as_i64_as_u64. lia. }
      rewrite Hi, bool_decide_eq_true_2, (proj2 (editable_row_true r)) by (done || by rewrite Hs).
      cbn [andb fst snd]. rewrite bump_attached_intents. eexists. split; [done|].
      split; [done|]. cbn. by rewrite Hs.
    + rewrite (bool_decide_eq_false_2 (revision = ir_revision r)) by done.
      by rewrite (bool_decide_eq_true_2 (ir_revision r <> revision)) by done.
Qed.

(** C25: The tables stay consistent: in every reachable store, every text column reads back, an
    attached intent's work exists and is of its workspace, a draft, queued or claimed intent is
    attached only to an open work, and an intent meant for the next work was never claimed. *)
Theorem coordination_invariant (db : CoordDb) (Hreach : coord_reachable db) :
  (forall id r, works db !! id = Some r -> exists s, wr_state r = work_state_as_str s) /\
  (forall id r, intents db !! id = Some r ->
     (exists s k d, ir_state r = intent_state_as_str s /\ ir_kind r = intent_kind_as_str k /\
        ir_delivery r = delivery_as_str d) /\
     (forall w, ir_work_id r = Some w -> exists wr, works db !! w = Some wr /\
        wr_workspace_id wr = ir_workspace_id r /\
        (live_state (ir_state r) -> wr_state wr = "active" \/ wr_state wr = "closing")) /\
     (ir_delivery r = "next_work" ->
      ir_state r = "draft" \/ ir_state r = "queued" \/ ir_state r = "cancelled")).
Proof.
  destruct (coord_reachable_inv db Hreach) as [Hw Hi]. split; [done|].
  intros id r Hr. destruct (Hi id r Hr) as [[s S] [k K] [d D] T W]. split_and!; [by exists s, k, d|done|done].
Qed.

End properties.

(** * Reordering *)

Section reorder.
Context `{Sql : SqlEngine}.
Implicit Types (db : CoordDb).

Lemma place_all_at now ids : forall pos (m : gmap string IntentRow) i id r,
  NoDup ids -> ids !! i = Some id -> m !! id = Some r -> ir_state r = "queued" ->
  place_all now pos ids m !! id = Some (set_position (pos + Z.of_nat i) now r).
Proof.
  induction ids as [|id0 ids IH]; intros pos m i id r Hnd Hi Hr Hq; [done|].
  apply NoDup_cons in Hnd as [Hnin Hnd]. cbn [place_all]. destruct i as [|i]; cbn in Hi.
  - simplify_eq.
    assert (Hkeep : forall ids pos m, id ∉ ids ->
      place_all now pos ids m !! id = m !! id); [|rewrite Hkeep by done].
    { clear. induction ids as [|i ids IH]; intros pos m Hn; [done|].
      apply not_elem_of_cons in Hn as [Hne Hn]. cbn. rewrite IH by done. unfold place.
      by rewrite lookup_alter_ne. }
    unfold place. rewrite lookup_alter_eq, Hr. cbn. rewrite (proj2 (in_state_true _ _) Hq).
    do 2 f_equal. lia.
  - rewrite (IH (pos + 1)%Z (place now m id0 pos) i id r); try done; [do 2 f_equal; lia|].
    unfold place. rewrite lookup_alter_ne; [done|]. intros ->. apply Hnin.
    by eapply list_elem_of_lookup_2.
Qed.

Lemma queued_ids_elem db w id :
  id ∈ queued_ids db w <->
  exists r, intents db !! id = Some r /\ ir_work_id r = Some w /\ ir_state r = "queued".
Proof.
  unfold queued_ids. rewrite list_elem_of_fmap. split.
  - intros ([id' r] & -> & Hin). apply sql_order_by_elem, select_intents_elem in Hin as [Hr Hc].
    apply andb_prop in Hc as [?%on_work_true ?%in_state_true]. eauto.
  - intros (r & Hr & Hw & Hs). exists (id, r). split; [done|].
    apply sql_order_by_elem, select_intents_elem. split; [done|].
    by rewrite (proj2 (on_work_true _ _) Hw), (proj2 (in_state_true _ _) Hs).
Qed.

Lemma queued_ids_nodup db w : NoDup (queued_ids db w).
Proof.
  unfold queued_ids. rewrite sql_order_by_perm. unfold select_intents.
  eapply sublist_NoDup; [|apply fmap_sublist, sublist_filter].
  apply NoDup_fst_map_to_list.
Qed.

(** The position an id's row has, for sorting ids by it. *)
Definition position_of db (id : string) : Z := default 0%Z (ir_position <$> intents db !! id).

Lemma queued_ids_sorted db w :
  StronglySorted (fun a b => (position_of db a <= position_of db b)%Z) (queued_ids db w).
Proof.
  unfold queued_ids.
  assert (Hs : StronglySorted (fun a b => by_position a b) (sql_order_by by_position
    (select_intents db (fun r => on_work w r && in_state "queued" r)))).
  { apply sql_order_by_sorted; unfold by_position; intros *; rewrite !bool_decide_spec; lia. }
  assert (Hin : forall kv, kv ∈ sql_order_by by_position
    (select_intents db (fun r => on_work w r && in_state "queued" r)) ->
    position_of db kv.1 = ir_position kv.2).
  { intros [id r] [Hr _]%sql_order_by_elem%select_intents_elem. unfold position_of; cbn. by rewrite Hr. }
  induction Hs as [|kv l Hs IH Hall]; cbn; constructor.
  - apply IH. intros kv' Hkv'. apply Hin. by right.
  - apply Forall_fmap. apply Forall_forall. intros kv' Hkv'. cbn.
    rewrite !Hin by (by left || by right). rewrite Forall_forall in Hall.
    specialize (Hall kv' Hkv'). unfold by_position in Hall. by rewrite bool_decide_spec in Hall.
Qed.

Lemma index_sorted db (ids : list string) n :
  (forall i id, ids !! i = Some id -> position_of db id = (n + Z.of_nat i)%Z) ->
  StronglySorted (fun a b => (position_of db a <= position_of db b)%Z) ids.
Proof.
  revert n. induction ids as [|id ids IH]; intros n Hp; constructor.
  - apply (IH (n + 1)%Z). intros i id' Hi. rewrite (Hp (S i)) by done. lia.
  - apply Forall_forall. intros id' [i Hi]%list_elem_of_lookup_1.
    rewrite (Hp 0 id) by done. rewrite (Hp (S i) id') by done. lia.
Qed.

(** The queue after its ids were placed in some order: that order. *)
Lemma queued_ids_placed db w ids now :
  NoDup ids -> ids ≡ₚ queued_ids db w ->
  queued_ids (set_intents db (place_all now 1 ids (intents db))) w = ids.
Proof.
  intros Hnd Hperm. set (db' := set_intents db _).
  assert (Hrow : forall i id, ids !! i = Some id -> exists r, intents db !! id = Some r /\
    ir_work_id r = Some w /\ ir_state r = "queued" /\
    intents db' !! id = Some (set_position (1 + Z.of_nat i) now r)).
  { intros i id Hi. assert (Hin : id ∈ queued_ids db w).
    { rewrite <- Hperm. by eapply list_elem_of_lookup_2. }
    apply queued_ids_elem in Hin as (r & Hr & Hw & Hs). exists r. split_and!; try done.
    by apply place_all_at. }
  assert (Hpos : forall i id, ids !! i = Some id -> position_of db' id = (1 + Z.of_nat i)%Z).
  { intros i id Hi. destruct (Hrow i id Hi) as (r & _ & _ & _ & Hr). unfold position_of.
    by rewrite Hr. }
  assert (Hset : forall id, id ∈ queued_ids db' w <-> id ∈ ids).
  { intros id. rewrite queued_ids_elem. split.
    - intros (r' & Hr' & Hw & Hs). rewrite Hperm. apply queued_ids_elem.
      apply place_all_lookup in Hr' as (r & Hr & [->|[? [p ->]]]); eauto.
    - intros [i Hi]%list_elem_of_lookup_1. destruct (Hrow i id Hi) as (r & _ & Hw & Hs & Hr).
      by eexists. }
  symmetry. eapply (StronglySorted_unique_strong
    (fun a b => (position_of db' a <= position_of db' b)%Z)).
  - intros x1 x2 H1 H2 L1 L2. apply Hset in H2.
    apply list_elem_of_lookup_1 in H1 as [i Hi]. apply list_elem_of_lookup_1 in H2 as [j Hj].
    rewrite (Hpos i x1 Hi), (Hpos j x2 Hj) in L1, L2. assert (i = j) as -> by lia. congruence.
  - by apply (index_sorted db' ids 1).
  - apply queued_ids_sorted.
  - apply list.NoDup_Permutation; [done|apply queued_ids_nodup|]. intros id. by rewrite Hset.
Qed.
End reorder.

Section reordering.
Context `{Sql : SqlEngine}.

(** [reorder_queued] with distinct ids succeeds exactly when they are the work's queued
    intents, and then the queue is served in the listed order; otherwise it is refused and
    nothing changes. *)
Theorem reorder_queued_sets_the_order (db : CoordDb) (w : string) (ids : list string) (now : Z)
    (work : Work) (Hwork : load_work db w = Some work) (Hnd : NoDup ids) :
  let out := reorder_queued db w ids now in
  (ids ≡ₚ queued_ids db w -> is_ok out.1 = true /\ queued_ids out.2 w = ids) /\
  (~ ids ≡ₚ queued_ids db w ->
   out = (Err (not_editable "reorder must list exactly the queued intents on this work"), db)).
Proof.
  intros out. unfold out, reorder_queued. rewrite Hwork. cbv zeta.
  set (bad := bool_decide (length (queued_ids db w) <> length ids) || _).
  assert (Hbad : bad = false <-> ids ≡ₚ queued_ids db w).
  { unfold bad. rewrite orb_false_iff, bool_decide_eq_false, negb_false_iff, forallb_forall.
    split.
    - intros [Hlen Hall]. apply submseteq_length_Permutation; [|lia].
      apply NoDup_submseteq; [done|]. intros id Hid.
      apply list_elem_of_In, Hall, bool_decide_eq_true in Hid. done.
    - intros Hp. split; [rewrite Hp; lia|]. intros id Hid.
      apply bool_decide_eq_true. rewrite <- Hp. by apply list_elem_of_In. }
  split.
  - intros Hp. rewrite (proj2 Hbad Hp). cbn [fst snd is_ok]. split; [done|].
    by apply queued_ids_placed.
  - intros Hn. destruct bad; [done|]. by destruct Hn; apply Hbad.
Qed.

(** The listed ids are only counted and looked up, not compared as a set: naming one of two
    queued intents twice is accepted, leaves the other unlisted and gives both the same position,
    so which of the two is claimed next is left to the database. *)
Theorem reorder_accepts_a_repeated_id (db : CoordDb) (w a b : string) (ra rb : IntentRow)
    (now : Z) (work : Work) (Hwork : load_work db w = Some work) (Hab : a <> b)
    (Ha : intents db !! a = Some ra) (Hb : intents db !! b = Some rb)
    (Hpb : ir_position rb = 2%Z)
    (Hq : queued_ids db w = [a; b]) :
  let out := reorder_queued db w [a; a] now in
  is_ok out.1 = true /\
  ir_position <$> intents out.2 !! a = Some 2%Z /\ ir_position <$> intents out.2 !! b = Some 2%Z.
Proof.
  intros out. unfold out, reorder_queued. rewrite Hwork, Hq. cbn [length forallb].
  assert (Hqa : ir_state ra = "queued").
  { assert (Hin : a ∈ queued_ids db w) by (rewrite Hq; by left).
    apply queued_ids_elem in Hin as (r & Hr & _ & Hs). congruence. }
  rewrite (bool_decide_eq_true_2 (a ∈ [a; b])) by by left. cbn.
  rewrite (bool_decide_eq_false_2 (2 <> 2)) by lia. cbn. unfold place.
  rewrite !lookup_alter_eq, !lookup_alter_ne, Ha, Hb by done. cbn.
  unfold in_state. rewrite Hqa, (bool_decide_eq_true_2 ("queued" = "queued")) by done. cbn.
  rewrite Hqa, (bool_decide_eq_true_2 ("queued" = "queued")) by done. cbn. by rewrite Hpb.
Qed.
End reordering.

(** * A concrete run *)

Section runs.
#[local] Instance demo_sql : SqlEngine := merge_sort_engine.

Fixpoint coord_play (ops : list CoordOp) (db : CoordDb) : option CoordDb :=
  match ops with
  | [] => Some db
  | op :: ops =>
      if (Z.of_nat (size (intents db)) <? 2^32)%Z then coord_play ops (coord_run op db) else None
  end.

Lemma coord_play_reachable ops db db' :
  coord_reachable db -> coord_play ops db = Some db' -> coord_reachable db'.
Proof.
  revert db. induction ops as [|op ops IH]; intros db Hr; cbn; [by intros [= <-]|].
  destruct (Z.ltb_spec (Z.of_nat (size (intents db))) (2^32)); [|done].
  apply IH. eapply rtc_r; [exact Hr|]. by exists op.
Qed.

(** A work with a queued checkpoint, a queued follow-up and a note for the next work. *)
Definition demo_ops : list CoordOp :=
  [COpenWork "ws" None "1" 1;
   CCreateDraft "work-1" (mkCreateIntent "later" FollowUp AfterCurrentWork) "a" 2;
   CCreateDraft "work-1" (mkCreateIntent "now" FollowUp NextCheckpoint) "b" 3;
   CCreateDraft "work-1" (mkCreateIntent "next" Note NextWork) "c" 4;
   CQueue "fb-a" 1 5; CQueue "fb-b" 1 6; CQueue "fb-c" 1 7].
Definition demo_db : CoordDb := default coord_empty (coord_play demo_ops coord_empty).

Lemma demo_reachable : coord_reachable demo_db.
Proof. apply (coord_play_reachable demo_ops coord_empty); [constructor|vm_compute; reflexivity]. Qed.

(** The same work once its two items were claimed and done. *)
Definition settled_ops : list CoordOp :=
  demo_ops ++ [CClaimNext "work-1" 8; CComplete "work-1" "fb-b" OutcomeDone 9;
               CFinishWork "work-1" 10; CClaimNext "work-1" 11;
               CComplete "work-1" "fb-a" OutcomeBlocked 12].
Definition settled_db : CoordDb := default coord_empty (coord_play settled_ops coord_empty).

Lemma settled_reachable : coord_reachable settled_db.
Proof.
  apply (coord_play_reachable settled_ops coord_empty); [constructor|vm_compute; reflexivity].
Qed.

Definition row_of (db : CoordDb) (id : string) : IntentRow :=
  default (mkIntentRow None "" 0 0 "" "" "" "" 0 0 None None) (intents db !! id).

Lemma claim_next_hands_out_first_witness :
  exists c, (claim_next demo_db "work-1" 8).1 = Ok (Some c) /\ ci_intent_id c = "fb-b" /\
    ci_content c = ir_body (row_of demo_db "fb-b").
Proof.
  pose proof (claim_next_hands_out_first demo_db "work-1" 8 demo_reachable) as H.
  cbn zeta in H.
  replace (load_work demo_db "work-1") with (Some (mkWork "work-1" "ws" None Active 7)) in H
    by (vm_compute; reflexivity).
  cbn [accepts_claims w_state] in H.
  destruct (claim_next demo_db "work-1" 8) as [[[c|]|e] db'] eqn:E; [..|destruct H].
  - destruct H as (r & Hr & _ & Hb & _). exists c. split; [reflexivity|].
    assert (Hc : ci_intent_id c = "fb-b") by (vm_compute in E; injection E as <- <-; reflexivity).
    split; [exact Hc|]. rewrite Hb. unfold row_of. rewrite <- Hc, Hr. reflexivity.
  - vm_compute in E. discriminate E.
Defined.

Lemma intent_lifecycle_witness :
  exists r', intents (coord_run (CCancel "fb-a" 8) demo_db) !! "fb-a" = Some r' /\
    ir_kind r' = ir_kind (row_of demo_db "fb-a").
Proof.
  destruct (intent_lifecycle demo_db (CCancel "fb-a" 8) "fb-a" (row_of demo_db "fb-a")
              demo_reachable ltac:(vm_compute; reflexivity)) as (r' & H & _ & Hk & _).
  exists r'. split; [exact H|exact Hk].
Defined.

Lemma finish_work_closes_when_nothing_pending_witness :
  pending_user_items settled_db "work-1" = 0%Z /\
  exists res, (finish_work settled_db "work-1" 20).1 = Ok res /\ wf_closed res = true.
Proof.
  assert (H0 : pending_user_items settled_db "work-1" = 0%Z) by (vm_compute; reflexivity).
  split; [exact H0|].
  destruct (finish_work_closes_when_nothing_pending settled_db "work-1" 20
    (mkWork "work-1" "ws" None Closing 12) settled_reachable ltac:(vm_compute; reflexivity)
    ltac:(vm_compute; reflexivity) ltac:(reflexivity)) as (res & Hr & _ & Hc & _).
  exists res. split; [exact Hr|]. apply Hc. exact H0.
Defined.

Lemma open_work_adopts_left_intents_witness :
  let db := (finish_work settled_db "work-1" 20).2 in
  exists r', intents (open_work db "ws" None "2" 21).2 !! "fb-c" = Some r' /\
    ir_work_id r' = Some "work-2" /\ ir_delivery r' = "after_current_work".
Proof.
  intros db.
  destruct (open_work_adopts_left_intents db "ws" None "2" 21 "fb-c" (row_of db "fb-c")
    ltac:(vm_compute; reflexivity) ltac:(vm_compute; reflexivity) ltac:(vm_compute; reflexivity)
    ltac:(right; vm_compute; reflexivity) ltac:(vm_compute; reflexivity))
    as (r' & H & Hw & _ & _ & Hd & _).
  exists r'. split; [exact H|]. split; [exact Hw|]. rewrite Hd. vm_compute. reflexivity.
Defined.

Lemma edit_intent_checks_revision_witness :
  edit_intent demo_db "fb-a" 1 "text" None 9 = (Err revision_conflict, demo_db).
Proof.
  destruct (edit_intent_checks_revision demo_db "fb-a" 1 "text" None 9 (row_of demo_db "fb-a")
    demo_reachable ltac:(vm_compute; reflexivity)
    ltac:(vm_compute; split; [discriminate|reflexivity])) as (_ & _ & H).
  specialize (H ltac:(right; vm_compute; reflexivity)).
  rewrite bool_decide_eq_false_2 in H by (vm_compute; discriminate). exact H.
Defined.

Lemma coordination_invariant_witness :
  exists wr, works demo_db !! "work-1" = Some wr /\
    wr_workspace_id wr = ir_workspace_id (row_of demo_db "fb-c").
Proof.
  destruct (coordination_invariant demo_db demo_reachable) as [_ Hi].
  destruct (Hi "fb-c" (row_of demo_db "fb-c") ltac:(vm_compute; reflexivity)) as (_ & Hw & _).
  destruct (Hw "work-1" ltac:(vm_compute; reflexivity)) as (wr & H & Hs & _).
  exists wr. split; [exact H|exact Hs].
Defined.

Lemma reorder_queued_sets_the_order_witness :
  queued_ids (reorder_queued demo_db "work-1" ["fb-c"; "fb-a"; "fb-b"] 9).2 "work-1" =
  ["fb-c"; "fb-a"; "fb-b"].
Proof.
  destruct (reorder_queued_sets_the_order demo_db "work-1" ["fb-c"; "fb-a"; "fb-b"] 9
    (mkWork "work-1" "ws" None Active 7) ltac:(vm_compute; reflexivity)
    ltac:(repeat constructor; set_solver)) as [H _].
  apply H. replace (queued_ids demo_db "work-1") with ["fb-a"; "fb-b"; "fb-c"]
    by (vm_compute; reflexivity).
  apply (Permutation_cons_append ["fb-a"; "fb-b"] "fb-c").
Defined.

Definition two_queued_db : CoordDb := coord_run (CCancel "fb-c" 8) demo_db.

Lemma reorder_accepts_a_repeated_id_witness :
  ir_position <$> intents (reorder_queued two_queued_db "work-1" ["fb-a"; "fb-a"] 9).2 !! "fb-a"
  = Some 2%Z.
Proof.
  destruct (reorder_accepts_a_repeated_id two_queued_db "work-1" "fb-a" "fb-b"
    (row_of two_queued_db "fb-a") (row_of two_queued_db "fb-b") 9
    (mkWork "work-1" "ws" None Active 8) ltac:(vm_compute; reflexivity) ltac:(discriminate)
    ltac:(vm_compute; reflexivity) ltac:(vm_compute; reflexivity) ltac:(vm_compute; reflexivity)
    ltac:(vm_compute; reflexivity)) as (_ & H & _).
  exact H.
Defined.
End runs.
