(* ===== verification/Processes.v ===== *)
(** Process records: [crates/store/src/processes.rs]. The [processes] table, what an
    execution's record learns from the Runner, and what becomes of it when that Runner is lost. *)
From S2P Require Import Prelude Domain Approvals.

(** * Values *)

Record RunnerRef := mkRunnerRef {
  rr_boot_id : option string;
  rr_pid : Z;
  rr_started_at_ms : Z;
  rr_nonce : string
}.

#[export] Instance RunnerRef_eq_dec : EqDecision RunnerRef.
Proof. solve_decision. Defined.

Inductive ProcessPhase := PhDispatching | PhRunning | PhTerminal | PhUnknown.

#[export] Instance ProcessPhase_eq_dec : EqDecision ProcessPhase.
Proof. solve_decision. Defined.

Definition phase_as_str (p : ProcessPhase) : string :=
  match p with
  | PhDispatching => "dispatching" | PhRunning => "running" | PhTerminal => "terminal"
  | PhUnknown => "unknown"
  end.

Definition phase_parse (raw : string) : option ProcessPhase :=
  if bool_decide (raw = "dispatching") then Some PhDispatching
  else if bool_decide (raw = "running") then Some PhRunning
  else if bool_decide (raw = "terminal") then Some PhTerminal
  else if bool_decide (raw = "unknown") then Some PhUnknown
  else None.

Inductive ProcessLoss := RunnerLost | HostRebooted.

#[export] Instance ProcessLoss_eq_dec : EqDecision ProcessLoss.
Proof. solve_decision. Defined.

Definition loss_as_str (l : ProcessLoss) : string :=
  match l with RunnerLost => "runner_lost" | HostRebooted => "host_rebooted" end.

Definition loss_parse (raw : string) : option ProcessLoss :=
  if bool_decide (raw = "runner_lost") then Some RunnerLost
  else if bool_decide (raw = "host_rebooted") then Some HostRebooted
  else None.

(** [ProcessLoss::of]. *)
Definition loss_of (lost : RunnerRef) (boot_id : option string) : ProcessLoss :=
  match rr_boot_id lost, boot_id with
  | Some then_, Some now => if bool_decide (then_ <> now) then HostRebooted else RunnerLost
  | _, _ => RunnerLost
  end.

Inductive RecordedParticipation := PartOff | PartRequired.

#[export] Instance RecordedParticipation_eq_dec : EqDecision RecordedParticipation.
Proof. solve_decision. Defined.

Definition participation_as_str (p : RecordedParticipation) : string :=
  match p with PartOff => "off" | PartRequired => "required" end.

Definition participation_parse (raw : string) : option RecordedParticipation :=
  if bool_decide (raw = "off") then Some PartOff
  else if bool_decide (raw = "required") then Some PartRequired
  else None.

Record NewProcessRecord := mkNewProcessRecord {
  np_process_id : string;
  np_runner : RunnerRef;
  np_controller_epoch : option Z;
  np_workspace_id : string;
  np_approval_id : option string;
  np_attempt_id : option string;
  np_participation : RecordedParticipation;
  np_tty : bool;
  np_argv : list string
}.

Record RootProcess := mkRootProcess { root_pid : Z; root_started : option string }.

#[export] Instance RootProcess_eq_dec : EqDecision RootProcess.
Proof. solve_decision. Defined.

(** [RootProcess::is]. *)
Definition root_is (root observed : RootProcess) : bool :=
  bool_decide (root_pid root = root_pid observed) && is_some (root_started root)
  && bool_decide (root_started root = root_started observed).

Inductive ProcessEnd :=
  | NotStarted
  | Ended (termination : option ProcessTermination) (exit_code signal output_total : option Z).

Inductive ProcessOutcome :=
  | OutNotStarted
  | OutEnded (t : ProcessTermination).

#[export] Instance ProcessOutcome_eq_dec : EqDecision ProcessOutcome.
Proof. solve_decision. Defined.

Definition outcome_as_str (o : ProcessOutcome) : string :=
  match o with
  | OutNotStarted => "not_started"
  | OutEnded TExited => "exited"
  | OutEnded TSignaled => "signaled"
  | OutEnded TTimeout => "timeout"
  | OutEnded TTerminated => "terminated"
  | OutEnded TUnknown => "unknown"
  end.

Definition outcome_parse (raw : string) : option ProcessOutcome :=
  if bool_decide (raw = "not_started") then Some OutNotStarted
  else if bool_decide (raw = "exited") then Some (OutEnded TExited)
  else if bool_decide (raw = "signaled") then Some (OutEnded TSignaled)
  else if bool_decide (raw = "timeout") then Some (OutEnded TTimeout)
  else if bool_decide (raw = "terminated") then Some (OutEnded TTerminated)
  else if bool_decide (raw = "unknown") then Some (OutEnded TUnknown)
  else None.

Record ProcessRecord := mkProcessRecord {
  pc_process_id : string;
  pc_runner : RunnerRef;
  pc_controller_epoch : option Z;
  pc_workspace_id : string;
  pc_approval_id : option string;
  pc_attempt_id : option string;
  pc_participation : RecordedParticipation;
  pc_tty : bool;
  pc_argv_digest : string;
  pc_phase : ProcessPhase;
  pc_deadline_at_ms : option Z;
  pc_root : option RootProcess;
  pc_outcome : option ProcessOutcome;
  pc_exit_code : option Z;
  pc_signal : option Z;
  pc_output_cursor : option Z;
  pc_created_at_ms : Z;
  pc_updated_at_ms : Z;
  pc_lost : option ProcessLoss;
  pc_released_at_ms : option Z
}.

#[export] Instance ProcessRecord_eq_dec : EqDecision ProcessRecord.
Proof. solve_decision. Defined.

(** What a change of a record may set; the rest stays. *)
Definition with_progress (r : ProcessRecord) (phase : ProcessPhase) (deadline : option Z)
    (root : option RootProcess) (outcome : option ProcessOutcome)
    (exit_code signal cursor : option Z) : ProcessRecord :=
  mkProcessRecord (pc_process_id r) (pc_runner r) (pc_controller_epoch r) (pc_workspace_id r)
    (pc_approval_id r) (pc_attempt_id r) (pc_participation r) (pc_tty r) (pc_argv_digest r)
    phase deadline root outcome exit_code signal cursor (pc_created_at_ms r)
    (pc_updated_at_ms r) (pc_lost r) (pc_released_at_ms r).

(** * What a record learns *)

Definition or_else {A} (o o' : option A) : option A :=
  match o with Some a => Some a | None => o' end.

(** [ProcessRecord::started]. *)
Definition started (r : ProcessRecord) (root : option RootProcess) (deadline : option Z)
    : ProcessRecord :=
  with_progress r
    (if bool_decide (pc_phase r = PhDispatching) then PhRunning else pc_phase r)
    (or_else (pc_deadline_at_ms r) deadline) (or_else (pc_root r) root)
    (pc_outcome r) (pc_exit_code r) (pc_signal r) (pc_output_cursor r).

(** The cursor after [observed_output]. *)
Definition advance_cursor (seen : option Z) (cursor : Z) : option Z :=
  match seen with
  | Some n => if bool_decide (n < cursor)%Z then Some cursor else Some n
  | None => Some cursor
  end.

Definition observed_output (r : ProcessRecord) (cursor : Z) : ProcessRecord :=
  with_progress r (pc_phase r) (pc_deadline_at_ms r) (pc_root r) (pc_outcome r)
    (pc_exit_code r) (pc_signal r) (advance_cursor (pc_output_cursor r) cursor).

(** [ProcessRecord::ended]. *)
Definition ended (r : ProcessRecord) (end_ : ProcessEnd) : ProcessRecord :=
  match end_ with
  | NotStarted =>
      if bool_decide (pc_phase r = PhDispatching)
      then with_progress r PhTerminal (pc_deadline_at_ms r) (pc_root r) (Some OutNotStarted)
             (pc_exit_code r) (pc_signal r) (pc_output_cursor r)
      else r
  | Ended termination exit_code signal output_total =>
      if bool_decide (pc_outcome r = Some OutNotStarted) then r
      else
        let r1 :=
          match pc_outcome r, termination with
          | None, Some t =>
              with_progress r PhTerminal (pc_deadline_at_ms r) (pc_root r) (Some (OutEnded t))
                exit_code signal (pc_output_cursor r)
          | _, _ =>
              with_progress r PhTerminal (pc_deadline_at_ms r) (pc_root r) (pc_outcome r)
                (pc_exit_code r) (pc_signal r) (pc_output_cursor r)
          end in
        match output_total with Some total => observed_output r1 total | None => r1 end
  end.

Definition awaits_release (r : ProcessRecord) : bool :=
  bool_decide (pc_phase r = PhUnknown) && is_none (pc_released_at_ms r).

(** * The table *)

Definition to_sql (value : Z) : Z := if bool_decide (value <= i64_max)%Z then value else i64_max.
Definition from_sql (value : Z) : Z := if bool_decide (0 <= value)%Z then value else 0%Z.

Record ProcessRow := mkProcessRow {
  pr_runner_boot_id : option string;
  pr_runner_pid : Z;
  pr_runner_started_at_ms : Z;
  pr_runner_nonce : string;
  pr_controller_epoch : option Z;
  pr_workspace_id : string;
  pr_approval_id : option string;
  pr_attempt_id : option string;
  pr_participation : string;
  pr_tty : bool;
  pr_argv_digest : string;
  pr_phase : string;
  pr_deadline_at_ms : option Z;
  pr_root_pid : option Z;
  pr_root_started : option string;
  pr_termination : option string;
  pr_exit_code : option Z;
  pr_signal : option Z;
  pr_output_cursor : option Z;
  pr_created_at_ms : Z;
  pr_updated_at_ms : Z;
  pr_lost : option string;
  pr_released_at_ms : option Z
}.

(** The [processes] table. *)
Abbreviation ProcessTable := (gmap string ProcessRow).

Definition record_err (text : string) : ErrorBody :=
  error_body Internal ("process record: " +:+ text).

Definition unreadable (process_id what value : string) : ErrorBody :=
  error_body Internal ("the record of process `" +:+ process_id +:+ "` has an unknown "
                       +:+ what +:+ " `" +:+ value +:+ "`").

(** A nullable text column read through its parser. *)
Definition parse_column {A} (parse : string -> option A) (process_id what : string)
    (raw : option string) : res (option A) :=
  match raw with
  | None => Ok None
  | Some raw => Some <$> ok_or (unreadable process_id what raw) (parse raw)
  end.

Definition row_runner (r : ProcessRow) : RunnerRef :=
  mkRunnerRef (pr_runner_boot_id r) (pr_runner_pid r) (from_sql (pr_runner_started_at_ms r))
    (pr_runner_nonce r).

Definition map_record (process_id : string) (r : ProcessRow) : res ProcessRecord :=
  participation ← ok_or (unreadable process_id "participation" (pr_participation r))
                    (participation_parse (pr_participation r));
  phase ← ok_or (unreadable process_id "phase" (pr_phase r)) (phase_parse (pr_phase r));
  outcome ← parse_column outcome_parse process_id "termination" (pr_termination r);
  lost ← parse_column loss_parse process_id "loss" (pr_lost r);
  Ok (mkProcessRecord process_id (row_runner r) (from_sql <$> pr_controller_epoch r)
        (pr_workspace_id r) (pr_approval_id r) (pr_attempt_id r) participation (pr_tty r)
        (pr_argv_digest r) phase (from_sql <$> pr_deadline_at_ms r)
        ((fun pid => mkRootProcess pid (pr_root_started r)) <$> pr_root_pid r)
        outcome (pr_exit_code r) (pr_signal r) (from_sql <$> pr_output_cursor r)
        (from_sql (pr_created_at_ms r)) (from_sql (pr_updated_at_ms r)) lost
        (from_sql <$> pr_released_at_ms r)).

Definition load_record (t : ProcessTable) (process_id : string) : res (option ProcessRecord) :=
  match t !! process_id with
  | None => Ok None
  | Some r => Some <$> map_record process_id r
  end.

Section processes.
Context `{Sql : SqlEngine} `{JA : Json (list string)}.
(** The hex SHA-256 of a text. *)
Context (sha256_hex : string -> string).
Implicit Types (t : ProcessTable).

Definition hash_canonical (argv : list string) : string := "sha256:" +:+ sha256_hex (to_json argv).

(** * Operations *)

(** The row [record_dispatch] inserts at [now] milliseconds. *)
Definition dispatch_row (n : NewProcessRecord) (now : Z) : ProcessRow :=
  mkProcessRow (rr_boot_id (np_runner n)) (rr_pid (np_runner n))
    (to_sql (rr_started_at_ms (np_runner n))) (rr_nonce (np_runner n))
    (to_sql <$> np_controller_epoch n) (np_workspace_id n) (np_approval_id n) (np_attempt_id n)
    (participation_as_str (np_participation n)) (np_tty n) (hash_canonical (np_argv n))
    (phase_as_str PhDispatching) None None None None None None None (to_sql now) (to_sql now)
    None None.

(** One transaction over both tables: an error rolls both back. *)
Definition record_dispatch (adb : ApprovalsDb) t (n : NewProcessRecord) (now : Z)
    : res unit * ApprovalsDb * ProcessTable :=
  let marked := match np_approval_id n with
                | Some id => mark_resuming adb id
                | None => (Ok tt, adb)
                end in
  match marked with
  | (Err e, _) => (Err e, adb, t)
  | (Ok _, adb') =>
      if is_some (t !! np_process_id n)
      then (Err (record_err (sql_unique_failed "processes.process_id")), adb, t)
      else (Ok tt, adb', <[np_process_id n := dispatch_row n now]> t)
  end.

Definition sent_to (runner : RunnerRef) (r : ProcessRow) : bool :=
  bool_decide (pr_runner_boot_id r = rr_boot_id runner)
  && bool_decide (pr_runner_pid r = rr_pid runner)
  && bool_decide (pr_runner_started_at_ms r = to_sql (rr_started_at_ms runner))
  && bool_decide (pr_runner_nonce r = rr_nonce runner).

(** The columns that [change_record] writes. *)
Definition write_progress (record : ProcessRecord) (now : Z) (r : ProcessRow) : ProcessRow :=
  mkProcessRow (pr_runner_boot_id r) (pr_runner_pid r) (pr_runner_started_at_ms r)
    (pr_runner_nonce r) (pr_controller_epoch r) (pr_workspace_id r) (pr_approval_id r)
    (pr_attempt_id r) (pr_participation r) (pr_tty r) (pr_argv_digest r)
    (phase_as_str (pc_phase record)) (to_sql <$> pc_deadline_at_ms record)
    (root_pid <$> pc_root record) (pc_root record ≫= root_started)
    (outcome_as_str <$> pc_outcome record) (pc_exit_code record) (pc_signal record)
    (to_sql <$> pc_output_cursor record) (pr_created_at_ms r) (to_sql now) (pr_lost r)
    (pr_released_at_ms r).

Definition change_record t (runner : RunnerRef) (process_id : string)
    (change : ProcessRecord -> ProcessRecord) (now : Z) : res bool * ProcessTable :=
  match load_record t process_id with
  | Err e => (Err e, t)
  | Ok None => (Ok false, t)
  | Ok (Some before) =>
      if bool_decide (pc_runner before <> runner) then (Ok false, t)
      else
        let record := change before in
        if bool_decide (record = before) then (Ok false, t)
        else match t !! process_id with
             | Some r =>
                 if sent_to runner r
                 then (Ok true, <[process_id := write_progress record now r]> t)
                 else (Ok false, t)
             | None => (Ok false, t)
             end
  end.

Definition record_running t runner process_id (root : option RootProcess)
    (deadline : option Z) (now : Z) : res bool * ProcessTable :=
  change_record t runner process_id (fun r => started r root deadline) now.

Definition record_end t runner process_id (end_ : ProcessEnd) (now : Z)
    : res bool * ProcessTable :=
  change_record t runner process_id (fun r => ended r end_) now.

Definition record_output t runner process_id (cursor now : Z) : res bool * ProcessTable :=
  change_record t runner process_id (fun r => observed_output r cursor) now.

Definition process_record t process_id : res (option ProcessRecord) := load_record t process_id.

(** [ORDER BY created_at_ms, process_id]. *)
Definition oldest_first (a b : string * ProcessRow) : bool :=
  bool_decide (pr_created_at_ms a.2 < pr_created_at_ms b.2)%Z
  || bool_decide (pr_created_at_ms a.2 = pr_created_at_ms b.2) && string_le a.1 b.1.

Definition select_processes t (P : ProcessRow -> bool) : list (string * ProcessRow) :=
  sql_order_by oldest_first (filter (fun kv => Is_true (P kv.2)) (map_to_list t)).

(** The records of the selected rows, or the first that cannot be read. *)
Fixpoint collect_records (rows : list (string * ProcessRow)) : res (list ProcessRecord) :=
  match rows with
  | [] => Ok []
  | (id, r) :: rows =>
      record ← map_record id r;
      records ← collect_records rows;
      Ok (record :: records)
  end.

Definition phase_in (phases : list string) (r : ProcessRow) : bool :=
  bool_decide (pr_phase r ∈ phases).

(** [approval_id IN (SELECT approval_id FROM approvals WHERE state = 'resuming')]. *)
Definition approval_resuming (adb : ApprovalsDb) (r : ProcessRow) : bool :=
  match pr_approval_id r with
  | Some id => match approvals adb !! id with
               | Some a => bool_decide (apr_state a = "resuming")
               | None => false
               end
  | None => false
  end.

Definition sent_under (epoch : Z) (r : ProcessRow) : bool :=
  match pr_controller_epoch r with
  | Some e => bool_decide (to_sql epoch <= e)%Z
  | None => false
  end.

Definition to_reconcile (adb : ApprovalsDb) (runner : RunnerRef) (epoch : Z) (r : ProcessRow)
    : bool :=
  (phase_in ["dispatching"; "running"; "unknown"] r || approval_resuming adb r)
  && is_none (pr_released_at_ms r) && negb (sent_to runner r && sent_under epoch r).

Definition records_to_reconcile (adb : ApprovalsDb) t runner (epoch : Z)
    : res (list ProcessRecord) :=
  collect_records (select_processes t (to_reconcile adb runner epoch)).

Definition records_of_approval t (approval_id : string) : res (list ProcessRecord) :=
  collect_records
    (select_processes t (fun r => bool_decide (pr_approval_id r = Some approval_id))).

(** * Losing a Runner *)

Definition unended_of (lost : RunnerRef) (r : ProcessRow) : bool :=
  sent_to lost r && phase_in ["dispatching"; "running"] r.

Definition set_lost (loss : ProcessLoss) (now : Z) (r : ProcessRow) : ProcessRow :=
  mkProcessRow (pr_runner_boot_id r) (pr_runner_pid r) (pr_runner_started_at_ms r)
    (pr_runner_nonce r) (pr_controller_epoch r) (pr_workspace_id r) (pr_approval_id r)
    (pr_attempt_id r) (pr_participation r) (pr_tty r) (pr_argv_digest r) "unknown"
    (pr_deadline_at_ms r) (pr_root_pid r) (pr_root_started r) (pr_termination r)
    (pr_exit_code r) (pr_signal r) (pr_output_cursor r) (pr_created_at_ms r) (to_sql now)
    (Some (loss_as_str loss)) (pr_released_at_ms r).

Definition record_runner_lost t (lost : RunnerRef) (loss : ProcessLoss) (now : Z)
    : list string * ProcessTable :=
  (fst <$> select_processes t (unended_of lost),
   (fun r => if unended_of lost r then set_lost loss now r else r) <$> t).

Definition set_released (now : Z) (r : ProcessRow) : ProcessRow :=
  mkProcessRow (pr_runner_boot_id r) (pr_runner_pid r) (pr_runner_started_at_ms r)
    (pr_runner_nonce r) (pr_controller_epoch r) (pr_workspace_id r) (pr_approval_id r)
    (pr_attempt_id r) (pr_participation r) (pr_tty r) (pr_argv_digest r) (pr_phase r)
    (pr_deadline_at_ms r) (pr_root_pid r) (pr_root_started r) (pr_termination r)
    (pr_exit_code r) (pr_signal r) (pr_output_cursor r) (pr_created_at_ms r) (to_sql now)
    (pr_lost r) (Some (to_sql now)).

Definition release_record t (process_id : string) (now : Z) : bool * ProcessTable :=
  match t !! process_id with
  | Some r =>
      if phase_in ["unknown"] r && is_none (pr_released_at_ms r)
      then (true, <[process_id := set_released now r]> t)
      else (false, t)
  | None => (false, t)
  end.

Definition is_unsettled (r : ProcessRow) : bool :=
  phase_in ["dispatching"; "running"; "unknown"] r && is_none (pr_released_at_ms r).

Definition unsettled t : res (list ProcessRecord) :=
  collect_records (select_processes t is_unsettled).
End processes.

(** * Reading rows back *)

Lemma phase_parse_as_str p : phase_parse (phase_as_str p) = Some p.
Proof. by destruct p. Qed.
Lemma loss_parse_as_str l : loss_parse (loss_as_str l) = Some l.
Proof. by destruct l. Qed.
Lemma participation_parse_as_str p : participation_parse (participation_as_str p) = Some p.
Proof. by destruct p. Qed.
Lemma outcome_parse_as_str o : outcome_parse (outcome_as_str o) = Some o.
Proof. by destruct o as [|[]]. Qed.

#[export] Hint Rewrite phase_parse_as_str loss_parse_as_str participation_parse_as_str
  outcome_parse_as_str : codespace.

#[export] Instance phase_as_str_inj : Inj (=) (=) phase_as_str.
Proof. intros [] []; done. Qed.

(** What a [u64] reads back as after a column held it. *)
Definition stored (v : Z) : Z := from_sql (to_sql v).

Definition in_column (v : Z) : Prop := (0 <= v <= i64_max)%Z.

Lemma stored_id v : in_column v -> stored v = v.
Proof.
  unfold in_column, stored, to_sql. intros [H0 H1]. rewrite bool_decide_eq_true_2 by lia.
  unfold from_sql. by rewrite bool_decide_eq_true_2 by lia.
Qed.

Lemma stored_bounds v : in_column (stored v).
Proof.
  unfold in_column, stored, to_sql, i64_max.
  case_bool_decide; unfold from_sql; case_bool_decide; lia.
Qed.

Lemma stored_mono v w : (v <= w)%Z -> (stored v <= stored w)%Z.
Proof.
  unfold stored, to_sql, i64_max. intros.
  repeat case_bool_decide; unfold from_sql; repeat case_bool_decide; lia.
Qed.

Lemma from_to_sql v : from_sql (to_sql v) = stored v.
Proof. done. Qed.

Record process_row_ok (r : ProcessRow) : Prop := {
  po_participation : exists p, pr_participation r = participation_as_str p;
  po_phase : exists p, pr_phase r = phase_as_str p;
  po_termination : exists o : option ProcessOutcome, pr_termination r = outcome_as_str <$> o;
  po_lost : exists l : option ProcessLoss, pr_lost r = loss_as_str <$> l;
  po_unlost : pr_phase r = "dispatching" \/ pr_phase r = "running" -> pr_lost r = None;
  po_unknown : pr_phase r = "unknown" -> is_Some (pr_lost r);
  po_unended : pr_phase r <> "terminal" -> pr_termination r = None;
  po_unreleased : is_Some (pr_released_at_ms r) -> is_Some (pr_lost r);
  po_deadline : forall v, pr_deadline_at_ms r = Some v -> in_column (from_sql v);
  po_cursor : forall v, pr_output_cursor r = Some v -> in_column (from_sql v)
}.

Lemma parse_column_as_str {A} (parse : string -> option A) (as_str : A -> string) id what o :
  (forall a, parse (as_str a) = Some a) -> parse_column parse id what (as_str <$> o) = Ok o.
Proof. intros Hp. destruct o as [a|]; cbn; [|done]. by rewrite Hp. Qed.

(** A well-formed row is read, and this is what is read. *)
Lemma map_record_ok id r :
  process_row_ok r ->
  exists part phase outcome lost,
    pr_participation r = participation_as_str part /\ pr_phase r = phase_as_str phase /\
    pr_termination r = outcome_as_str <$> outcome /\ pr_lost r = loss_as_str <$> lost /\
    map_record id r =
      Ok (mkProcessRecord id (row_runner r) (from_sql <$> pr_controller_epoch r)
            (pr_workspace_id r) (pr_approval_id r) (pr_attempt_id r) part (pr_tty r)
            (pr_argv_digest r) phase (from_sql <$> pr_deadline_at_ms r)
            ((fun pid => mkRootProcess pid (pr_root_started r)) <$> pr_root_pid r)
            outcome (pr_exit_code r) (pr_signal r) (from_sql <$> pr_output_cursor r)
            (from_sql (pr_created_at_ms r)) (from_sql (pr_updated_at_ms r)) lost
            (from_sql <$> pr_released_at_ms r)).
Proof.
  intros [[part Hp] [phase Hph] [outcome Ho] [lost Hl] _ _ _ _ _ _].
  exists part, phase, outcome, lost. split_and!; [done..|].
  unfold map_record. rewrite Hp, Hph, Ho, Hl. autorewrite with codespace. cbn.
  rewrite !parse_column_as_str by (intros; by autorewrite with codespace). done.
Qed.

Record reads_as (id : string) (r : ProcessRow) (rec : ProcessRecord) : Prop := {
  ra_id : pc_process_id rec = id;
  ra_runner : pc_runner rec = row_runner r;
  ra_phase : pr_phase r = phase_as_str (pc_phase rec);
  ra_outcome : pr_termination r = outcome_as_str <$> pc_outcome rec;
  ra_lost : pr_lost r = loss_as_str <$> pc_lost rec;
  ra_deadline : pc_deadline_at_ms rec = from_sql <$> pr_deadline_at_ms r;
  ra_cursor : pc_output_cursor rec = from_sql <$> pr_output_cursor r
}.

Lemma map_record_reads id r rec :
  process_row_ok r -> map_record id r = Ok rec -> reads_as id r rec.
Proof.
  intros Hok Hr. destruct (map_record_ok id r Hok) as (p & ph & o & l & Hp & Hph & Ho & Hl & Hm).
  rewrite Hm in Hr. injection Hr as <-. by split.
Qed.

(** Writing a record's progress back and reading it again. *)
Lemma map_record_write id r before phase dl root out ec sg cur now :
  process_row_ok r -> map_record id r = Ok before ->
  map_record id
    (write_progress (with_progress before phase dl root out ec sg cur) now r) =
  Ok (mkProcessRecord (pc_process_id before) (pc_runner before) (pc_controller_epoch before)
        (pc_workspace_id before) (pc_approval_id before) (pc_attempt_id before)
        (pc_participation before) (pc_tty before) (pc_argv_digest before)
        phase (stored <$> dl) root out ec sg (stored <$> cur) (pc_created_at_ms before)
        (stored now) (pc_lost before) (pc_released_at_ms before)).
Proof.
  intros Hok Hr. destruct (map_record_ok id r Hok) as (p & ph & o & l & Hp & Hph & Ho & Hl & Hm).
  rewrite Hm in Hr. injection Hr as <-. unfold map_record, write_progress, with_progress. cbn -[phase_parse].
  rewrite Hp, Hl. autorewrite with codespace. cbn.
  rewrite !parse_column_as_str by (intros; by autorewrite with codespace). cbn.
  rewrite <- !option_fmap_compose. by destruct root as [[]|].
Qed.

(** * How a record evolves *)

(** What never changes, and what only moves forward. *)
Record record_moves (r r' : ProcessRecord) : Prop := {
  rm_identity :
    (pc_process_id r', pc_runner r', pc_controller_epoch r', pc_workspace_id r',
     pc_approval_id r', pc_attempt_id r', pc_argv_digest r', pc_created_at_ms r') =
    (pc_process_id r, pc_runner r, pc_controller_epoch r, pc_workspace_id r,
     pc_approval_id r, pc_attempt_id r, pc_argv_digest r, pc_created_at_ms r);
  rm_phase : pc_phase r' = pc_phase r \/
    (pc_phase r, pc_phase r') ∈
      [(PhDispatching, PhRunning); (PhDispatching, PhTerminal); (PhDispatching, PhUnknown);
       (PhRunning, PhTerminal); (PhRunning, PhUnknown); (PhUnknown, PhTerminal)];
  rm_outcome : forall o, pc_outcome r = Some o ->
    pc_outcome r' = Some o /\ pc_exit_code r' = pc_exit_code r /\ pc_signal r' = pc_signal r;
  rm_root : forall p, pc_root r = Some p -> pc_root r' = Some p;
  rm_deadline : forall d, pc_deadline_at_ms r = Some d -> pc_deadline_at_ms r' = Some d;
  rm_cursor : forall n, pc_output_cursor r = Some n ->
    exists n', pc_output_cursor r' = Some n' /\ (n <= n')%Z;
  rm_lost : forall l, pc_lost r = Some l -> pc_lost r' = Some l
}.

(** The record with its numbers as the columns hold them. *)
Definition stored_record (r : ProcessRecord) (now : Z) : ProcessRecord :=
  mkProcessRecord (pc_process_id r) (pc_runner r) (pc_controller_epoch r) (pc_workspace_id r)
    (pc_approval_id r) (pc_attempt_id r) (pc_participation r) (pc_tty r) (pc_argv_digest r)
    (pc_phase r) (stored <$> pc_deadline_at_ms r) (pc_root r) (pc_outcome r) (pc_exit_code r)
    (pc_signal r) (stored <$> pc_output_cursor r) (pc_created_at_ms r) (stored now)
    (pc_lost r) (pc_released_at_ms r).

(** A change of a record that [change_record] is given. *)
Inductive record_change : (ProcessRecord -> ProcessRecord) -> Prop :=
  | change_started root deadline : record_change (fun r => started r root deadline)
  | change_ended end_ : record_change (fun r => ended r end_)
  | change_output cursor : record_change (fun r => observed_output r cursor).

(** Every change sets progress columns only. *)
Lemma record_change_shape f r :
  record_change f ->
  exists phase dl root out ec sg cur, f r = with_progress r phase dl root out ec sg cur.
Proof.
  assert (Hid : r = with_progress r (pc_phase r) (pc_deadline_at_ms r) (pc_root r) (pc_outcome r)
    (pc_exit_code r) (pc_signal r) (pc_output_cursor r)) by by destruct r.
  intros [root deadline|end_|cursor].
  - do 7 eexists. reflexivity.
  - destruct end_ as [|term ec sg total]; cbn.
    + case_bool_decide; [do 7 eexists; reflexivity|]. do 7 eexists. exact Hid.
    + case_bool_decide; [do 7 eexists; exact Hid|].
      destruct (pc_outcome r), term, total; do 7 eexists; reflexivity.
  - do 7 eexists. reflexivity.
Qed.

Lemma or_else_Some {A} (o o' : option A) a : o = Some a -> or_else o o' = Some a.
Proof. by intros ->. Qed.

Lemma advance_cursor_mono seen cursor n :
  seen = Some n -> exists n', advance_cursor seen cursor = Some n' /\ (n <= n')%Z.
Proof. intros ->. cbn. case_bool_decide; eexists; split; try done; lia. Qed.

Lemma record_change_moves f r now :
  record_change f ->
  (pc_phase r = PhDispatching -> pc_outcome r = None) ->
  (forall d, pc_deadline_at_ms r = Some d -> in_column d) ->
  (forall n, pc_output_cursor r = Some n -> in_column n) ->
  record_moves r (stored_record (f r) now).
Proof.
  intros Hf Hout Hd Hc.
  assert (Hcur : forall o n, pc_output_cursor r = Some n ->
    (exists n', o = Some n' /\ (n <= n')%Z) ->
    exists n', stored <$> o = Some n' /\ (n <= n')%Z).
  { intros o n Hn (n' & -> & Hle). exists (stored n'). split; [done|].
    rewrite <- (stored_id n) by auto. by apply stored_mono. }
  assert (Hdl : forall o d, pc_deadline_at_ms r = Some d -> o = Some d -> stored <$> o = Some d).
  { intros o d Hr ->. cbn. by rewrite stored_id by auto. }
  assert (Hsame : forall n, pc_output_cursor r = Some n ->
    exists n', pc_output_cursor r = Some n' /\ (n <= n')%Z) by (intros n ->; eauto using Z.le_refl).
  destruct Hf as [root deadline|[|term ec sg total]|cursor].
  - split; cbn; eauto using or_else_Some.
    case_bool_decide as Hp; [rewrite Hp; right; set_solver|by left].
  - unfold ended. case_bool_decide as Hp; (split; cbn; eauto).
    + rewrite Hp. right. set_solver.
    + intros o Ho. rewrite Hout in Ho by done. done.
  - assert (Hph : pc_phase r = PhTerminal \/ (pc_phase r, PhTerminal) ∈
      [(PhDispatching, PhRunning); (PhDispatching, PhTerminal); (PhDispatching, PhUnknown);
       (PhRunning, PhTerminal); (PhRunning, PhUnknown); (PhUnknown, PhTerminal)]).
    { destruct (pc_phase r); set_solver. }
    unfold ended. case_bool_decide as Hp; [split; cbn; eauto|].
    destruct (pc_outcome r) as [o|] eqn:Ho, term as [t|], total as [n|]; split; cbn;
      rewrite ?Ho; eauto using advance_cursor_mono; try done; destruct Hph as [->|]; auto.
  - split; cbn; eauto using advance_cursor_mono.
Qed.

(** * Selections *)

Definition process_table_ok (t : ProcessTable) : Prop :=
  forall id r, t !! id = Some r -> process_row_ok r.

Section selection.
Context `{Sql : SqlEngine}.
Implicit Types (t : ProcessTable).

Lemma load_record_Some t id rec :
  load_record t id = Ok (Some rec) <-> exists r, t !! id = Some r /\ map_record id r = Ok rec.
Proof.
  unfold load_record. destruct (t !! id) as [r|]; [|split; [done|by intros (r & ? & _)]].
  split.
  - destruct (map_record id r) as [rec'|e] eqn:E; cbn; [intros [= ->]; eauto|done].
  - intros (r' & [= <-] & ->). done.
Qed.

Lemma collect_records_ok rows :
  Forall (fun kv => process_row_ok kv.2) rows ->
  exists recs, collect_records rows = Ok recs /\
    Forall2 (fun kv rec => map_record kv.1 kv.2 = Ok rec) rows recs.
Proof.
  induction 1 as [|[id r] rows Hr Hrows (recs & IH & Hf)]; cbn.
  - exists []. by split.
  - destruct (map_record_ok id r Hr) as (p & ph & o & l & _ & _ & _ & _ & Hm). rewrite Hm. cbn.
    rewrite IH. cbn. eexists. split; [reflexivity|]. by constructor.
Qed.

Lemma select_processes_elem t P id r :
  (id, r) ∈ select_processes t P <-> t !! id = Some r /\ P r = true.
Proof.
  unfold select_processes. rewrite sql_order_by_elem, list_elem_of_filter, elem_of_map_to_list.
  cbn. rewrite Is_true_true. tauto.
Qed.

Lemma select_processes_rows t P :
  process_table_ok t -> Forall (fun kv => process_row_ok kv.2) (select_processes t P).
Proof.
  intros Hok. apply Forall_forall. intros [id r] [Hr _]%select_processes_elem. by apply (Hok id).
Qed.
End selection.

(** * Rows that operations write *)

Lemma phase_terminal_dec p : {p = PhTerminal} + {p <> PhTerminal}.
Proof. apply decide. exact _. Qed.

(** What a change does to the phase and the outcome of a record. *)
Lemma record_change_phase f r :
  record_change f ->
  (pc_phase (f r) <> PhTerminal ->
   pc_phase r <> PhTerminal /\ pc_outcome (f r) = pc_outcome r /\
   (pc_phase (f r) = PhUnknown <-> pc_phase r = PhUnknown)).
Proof.
  intros [root deadline|[|term ec sg total]|cursor]; cbn.
  - case_bool_decide as Hp; [|done]. rewrite Hp. done.
  - case_bool_decide; done.
  - case_bool_decide as Hp; [done|].
    destruct (pc_outcome r), term, total; cbn; done.
  - done.
Qed.

Lemma write_progress_ok id r before f now :
  process_row_ok r -> map_record id r = Ok before -> record_change f ->
  process_row_ok (write_progress (f before) now r).
Proof.
  intros Hok Hr Hf. pose proof (record_change_phase f before Hf) as Hph.
  pose proof (map_record_reads id r before Hok Hr) as [_ _ Rph Ro _ _ _].
  destruct Hok as [Kp _ _ Kl Hun Huk Hend Hrel _ _].
  split; cbn [write_progress pr_participation pr_phase pr_termination pr_lost pr_released_at_ms
              pr_deadline_at_ms pr_output_cursor]; try done.
  - by eexists.
  - by eexists.
  - intros Hs. destruct (phase_terminal_dec (pc_phase (f before))) as [Ht|Ht].
    { rewrite Ht in Hs. by destruct Hs. }
    destruct (Hph Ht) as (Hnt & _ & Hu). apply Hun. rewrite Rph.
    destruct (pc_phase before); cbn; auto; [done|]. rewrite (proj2 Hu) in Hs by done. by destruct Hs.
  - intros Hs. change "unknown" with (phase_as_str PhUnknown) in Hs. apply (inj phase_as_str) in Hs.
    destruct (Hph ltac:(by rewrite Hs)) as (_ & _ & Hu). apply Huk. rewrite Rph.
    by rewrite (proj1 Hu Hs).
  - intros Hs. destruct (Hph ltac:(intros Ht; by rewrite Ht in Hs)) as (Hnt & Hout & _).
    rewrite Hout, <- Ro. apply Hend. rewrite Rph. by destruct (pc_phase before).
  - intros v (d & Hd & ->)%fmap_Some. rewrite from_to_sql. apply stored_bounds.
  - intros v (d & Hd & ->)%fmap_Some. rewrite from_to_sql. apply stored_bounds.
Qed.

Lemma record_moves_refl r : record_moves r r.
Proof. split; auto. intros n ->. eauto using Z.le_refl. Qed.

(** Setting a row's loss, release and update time is read as that. *)
Lemma map_record_lost id r loss now rec :
  process_row_ok r -> map_record id r = Ok rec ->
  pc_phase rec = PhDispatching \/ pc_phase rec = PhRunning ->
  exists rec', map_record id (set_lost loss now r) = Ok rec' /\ record_moves rec rec' /\
    pc_phase rec' = PhUnknown /\ pc_lost rec' = Some loss.
Proof.
  intros Hok Hr Hph. destruct (map_record_ok id r Hok) as (p & ph & o & l & Hp & Hphase & Ho & Hl & Hm).
  rewrite Hm in Hr. injection Hr as <-. cbn in Hph.
  assert (Hln : l = None).
  { assert (Hn : pr_lost r = None).
    { apply (po_unlost _ Hok). rewrite Hphase. destruct Hph as [->| ->]; auto. }
    rewrite Hn in Hl. by destruct l. }
  unfold map_record, set_lost. cbn -[phase_parse loss_parse]. rewrite Hp, Ho.
  autorewrite with codespace. cbn -[loss_parse].
  rewrite parse_column_as_str by (intros; by autorewrite with codespace). cbn -[loss_parse].
  autorewrite with codespace. cbn. eexists. split; [reflexivity|]. split_and!; try done.
  split; cbn; auto.
  - right. destruct Hph as [->| ->]; set_solver.
  - intros n ->. eauto using Z.le_refl.
  - by rewrite Hln.
Qed.

Lemma map_record_released id r now rec :
  process_row_ok r -> map_record id r = Ok rec ->
  exists rec', map_record id (set_released now r) = Ok rec' /\ record_moves rec rec' /\
    pc_phase rec' = pc_phase rec /\ pc_released_at_ms rec' = Some (stored now).
Proof.
  intros Hok Hr. destruct (map_record_ok id r Hok) as (p & ph & o & l & Hp & Hphase & Ho & Hl & Hm).
  rewrite Hm in Hr. injection Hr as <-.
  unfold map_record, set_released. cbn -[phase_parse]. rewrite Hp, Hphase, Ho, Hl.
  autorewrite with codespace. cbn.
  rewrite !parse_column_as_str by (intros; by autorewrite with codespace). cbn.
  eexists. split; [reflexivity|]. split_and!; try done.
  split; cbn; auto. intros n ->. eauto using Z.le_refl.
Qed.

Lemma map_record_changed id r before f now :
  process_row_ok r -> map_record id r = Ok before -> record_change f ->
  map_record id (write_progress (f before) now r) = Ok (stored_record (f before) now) /\
  record_moves before (stored_record (f before) now).
Proof.
  intros Hok Hm Hf. pose proof (map_record_reads id r before Hok Hm) as [_ _ Rph Ro _ Rd Rc].
  split.
  - destruct (record_change_shape f before Hf) as (phase & dl & root & out & ec & sg & cur & E).
    rewrite E. rewrite (map_record_write id r before) by done. done.
  - apply record_change_moves; [done|..].
    + intros Hp. assert (Ht : pr_termination r = None).
      { apply (po_unended _ Hok). by rewrite Rph, Hp. }
      rewrite Ht in Ro. by destruct (pc_outcome before).
    + intros d. rewrite Rd. intros (v & Hv & ->)%fmap_Some. by apply (po_deadline _ Hok).
    + intros n. rewrite Rc. intros (v & Hv & ->)%fmap_Some. by apply (po_cursor _ Hok).
Qed.

Lemma change_record_cases t runner id f now :
  process_table_ok t -> record_change f ->
  match t !! id with
  | None => change_record t runner id f now = (Ok false, t)
  | Some r => exists before, map_record id r = Ok before /\
      (change_record t runner id f now = (Ok false, t) \/
       pc_runner before = runner /\ f before <> before /\
       change_record t runner id f now =
         (Ok true, <[id := write_progress (f before) now r]> t))
  end.
Proof.
  intros Hok Hf. unfold change_record, load_record. destruct (t !! id) as [r|] eqn:Hr; [|done].
  destruct (map_record_ok id r (Hok _ _ Hr)) as (p & ph & o & l & _ & _ & _ & _ & Hm).
  rewrite Hm. eexists. split; [reflexivity|]. cbn [fmap result_fmap].
  case_bool_decide as H1; [by left|].
  case_bool_decide as H2; [by left|]. destruct (sent_to runner r); [|by left].
  right. split_and!; [|done|done]. by destruct (decide (row_runner r = runner)).
Qed.

(** * Histories *)

Section histories.
Context `{Sql : SqlEngine} `{JA : Json (list string)} (sha256_hex : string -> string).
Implicit Types (t : ProcessTable).

(** Every operation that writes the table; [record_dispatch] with the approvals as they are. *)
Inductive ProcessOp :=
  | PDispatch (adb : ApprovalsDb) (n : NewProcessRecord) (now : Z)
  | PChange (runner : RunnerRef) (id : string) (f : ProcessRecord -> ProcessRecord)
      (Hf : record_change f) (now : Z)
  | PRunnerLost (lost : RunnerRef) (loss : ProcessLoss) (now : Z)
  | PRelease (id : string) (now : Z).

Definition process_run (op : ProcessOp) t : ProcessTable :=
  match op with
  | PDispatch adb n now => (record_dispatch sha256_hex adb t n now).2
  | PChange runner id f _ now => (change_record t runner id f now).2
  | PRunnerLost lost loss now => (record_runner_lost t lost loss now).2
  | PRelease id now => (release_record t id now).2
  end.

Definition process_runs (ops : list ProcessOp) t : ProcessTable :=
  foldl (fun t op => process_run op t) t ops.

Lemma dispatch_row_ok n now : process_row_ok (dispatch_row sha256_hex n now).
Proof.
  split; cbn; first [done | by eexists | by exists PhDispatching | by exists None
                    | by intros [? ?]].
Qed.

Lemma process_run_ok op t : process_table_ok t -> process_table_ok (process_run op t).
Proof.
  intros Hok. destruct op as [adb n now|runner id f Hf now|lost loss now|id now]; cbn [process_run].
  - unfold record_dispatch. destruct (match np_approval_id n with Some _ => _ | _ => _ end) as [[[]|e] a];
      [|done]. destruct (is_some _); [done|]. cbn.
    intros id r [[<- <-]|[_ H]]%lookup_insert_Some; [apply dispatch_row_ok|eauto].
  - pose proof (change_record_cases t runner id f now Hok Hf) as Hc.
    destruct (t !! id) as [r|] eqn:Hr; [|by rewrite Hc].
    destruct Hc as (before & Hm & [->|(_ & _ & ->)]); [done|]. cbn.
    intros id' r' [[<- <-]|[_ H]]%lookup_insert_Some; [|eauto].
    apply (write_progress_ok id); eauto.
  - cbn. intros id r' (r & <- & Hr)%lookup_fmap_Some.
    destruct (unended_of lost r) eqn:Hu; [|eauto].
    destruct (Hok id r Hr) as [P Ph T L U K E R D C]. split; cbn; eauto.
    + by exists PhUnknown.
    + by exists (Some loss).
    + intros [?|?]; done.
    + intros _. apply E. intros Ht. unfold unended_of, phase_in in Hu.
      apply andb_prop in Hu as [_ Hu%bool_decide_eq_true]. rewrite Ht in Hu. set_solver.
  - unfold release_record. destruct (t !! id) as [r|] eqn:Hr; [|done].
    destruct (_ && _) eqn:Hu; [|done]. cbn.
    intros id' r' [[<- <-]|[_ H]]%lookup_insert_Some; [|eauto].
    destruct (Hok id r Hr) as [P Ph T L U K E R D C]. split; cbn; eauto.
    intros _. apply K. apply andb_prop in Hu as [Hu%bool_decide_eq_true _].
    by apply list_elem_of_singleton in Hu.
Qed.

Lemma process_runs_ok ops t : process_table_ok t -> process_table_ok (process_runs ops t).
Proof.
  revert t. induction ops as [|op ops IH]; intros t Hok; [done|].
  by apply IH, process_run_ok.
Qed.

Lemma process_empty_ok : process_table_ok ∅.
Proof. intros id r. by rewrite lookup_empty. Qed.

Lemma process_run_moves op t id r rec :
  process_table_ok t -> t !! id = Some r -> map_record id r = Ok rec ->
  exists r' rec', process_run op t !! id = Some r' /\ map_record id r' = Ok rec' /\
    record_moves rec rec'.
Proof.
  intros Hok Hr Hm. pose proof (Hok id r Hr) as Hrow.
  destruct op as [adb n now|runner id0 f Hf now|lost loss now|id0 now]; cbn [process_run].
  - unfold record_dispatch. destruct (match np_approval_id n with Some _ => _ | _ => _ end) as [[[]|e] a];
      [|eauto using record_moves_refl].
    destruct (t !! np_process_id n) eqn:Hn; cbn; [eauto using record_moves_refl|].
    rewrite lookup_insert_ne by congruence. eauto using record_moves_refl.
  - pose proof (change_record_cases t runner id0 f now Hok Hf) as Hc.
    destruct (t !! id0) as [r0|] eqn:Hr0; [|rewrite Hc; eauto using record_moves_refl].
    destruct Hc as (before & Hb & [->|(_ & _ & ->)]); [eauto using record_moves_refl|]. cbn.
    destruct (decide (id0 = id)) as [->|Hne]; [|rewrite lookup_insert_ne by done; eauto using record_moves_refl].
    rewrite lookup_insert_eq. assert (r0 = r) as -> by congruence.
    assert (before = rec) as -> by congruence.
    destruct (map_record_changed id r rec f now Hrow Hm Hf) as [? ?].
    do 2 eexists. split_and!; [done|eassumption|done].
  - cbn. rewrite lookup_fmap, Hr. cbn.
    destruct (unended_of lost r) eqn:Hu; [|eauto using record_moves_refl].
    apply andb_prop in Hu as [_ Hu%bool_decide_eq_true].
    rewrite (ra_phase _ _ _ (map_record_reads id r rec Hrow Hm)) in Hu.
    destruct (map_record_lost id r loss now rec Hrow Hm) as (rec' & Hm' & Hmv & _ & _); [|eauto].
    destruct (pc_phase rec); auto; set_solver.
  - unfold release_record. destruct (t !! id0) as [r0|] eqn:Hr0; [|eauto using record_moves_refl].
    destruct (_ && _); [|eauto using record_moves_refl]. cbn.
    destruct (decide (id0 = id)) as [->|Hne]; [|rewrite lookup_insert_ne by done; eauto using record_moves_refl].
    rewrite lookup_insert_eq. simplify_eq.
    destruct (map_record_released id r now rec Hrow Hm) as (rec' & Hm' & Hmv & _ & _). eauto.
Qed.

End histories.

(** * The order of creation *)

Section order.
Context `{Sql : SqlEngine}.

Lemma oldest_first_total a b : oldest_first a b \/ oldest_first b a.
Proof.
  unfold oldest_first. rewrite !orb_True, !andb_True, !bool_decide_spec.
  destruct (string_le_total a.1 b.1),
    (Z.lt_trichotomy (pr_created_at_ms a.2) (pr_created_at_ms b.2)) as [?|[?|?]]; auto.
Qed.

Lemma oldest_first_trans a b c : oldest_first a b -> oldest_first b c -> oldest_first a c.
Proof.
  unfold oldest_first. rewrite !orb_True, !andb_True, !bool_decide_spec.
  intros [H1|[H1 H2]] [H3|[H3 H4]]; try (left; lia).
  right. split; [lia|]. by eapply string_le_trans.
Qed.

Lemma collect_sorted (t : ProcessTable) P recs :
  Forall2 (fun kv rec => map_record kv.1 kv.2 = Ok rec) (select_processes t P) recs ->
  StronglySorted (fun a b => (pc_created_at_ms a <= pc_created_at_ms b)%Z) recs.
Proof.
  assert (Hs : StronglySorted (fun a b => oldest_first a b) (select_processes t P)).
  { apply sql_order_by_sorted; [apply oldest_first_total|apply oldest_first_trans]. }
  assert (Hcreated : forall kv rec, map_record kv.1 kv.2 = Ok rec ->
    pc_created_at_ms rec = from_sql (pr_created_at_ms kv.2)).
  { intros [id r] rec. unfold map_record; cbn. rewrite bind_Ok. intros (? & _ & H).
    apply bind_Ok in H as (? & _ & H). apply bind_Ok in H as (? & _ & H).
    apply bind_Ok in H as (? & _ & H). by simplify_eq. }
  intros Hf. revert Hs. induction Hf as [|kv rec rows recs Hm Hf IH]; intros Hs; constructor.
  - apply IH. by apply StronglySorted_inv in Hs as [? _].
  - apply StronglySorted_inv in Hs as [_ Hall]. apply Forall_forall. intros rec' Hin.
    apply list_elem_of_lookup_1 in Hin as [i Hi].
    destruct (Forall2_lookup_r _ _ _ _ _ Hf Hi) as (kv' & Hkv' & Hm').
    rewrite (Hcreated _ _ Hm), (Hcreated _ _ Hm').
    rewrite Forall_forall in Hall. specialize (Hall kv' (list_elem_of_lookup_2 _ _ _ Hkv')).
    unfold oldest_first in Hall. rewrite orb_True, andb_True, !bool_decide_spec in Hall.
    unfold from_sql. repeat case_bool_decide; lia.
Qed.
End order.

(** * Properties *)

Section properties.
Context `{Sql : SqlEngine} `{JA : Json (list string)} (sha256_hex : string -> string).

(** C21: A record only moves forward: whatever operation runs on a table that any history made,
    a record stays readable, keeps the execution's identity, moves along dispatching -> running
    -> terminal, with unknown reachable before the end and left only to terminal; and the root,
    the deadline, the outcome with its exit code and signal and the reason of a loss, once
    recorded, never change, while the output cursor never goes back. *)
Theorem process_record_lifecycle (ops : list ProcessOp) (op : ProcessOp) (id : string)
    (rec : ProcessRecord)
    (Hrec : process_record (process_runs sha256_hex ops ∅) id = Ok (Some rec)) :
  exists rec', process_record (process_run sha256_hex op (process_runs sha256_hex ops ∅)) id
                 = Ok (Some rec') /\ record_moves rec rec'.
Proof.
  apply load_record_Some in Hrec as (r & Hr & Hm).
  destruct (process_run_moves sha256_hex op _ id r rec
    (process_runs_ok sha256_hex ops ∅ process_empty_ok) Hr Hm) as (r' & rec' & Hr' & Hm' & Hmv).
  exists rec'. split; [|done]. apply load_record_Some. eauto.
Qed.

(** Recording a dispatch is atomic and reads back: an error leaves both tables as they
    were; otherwise the execution was not recorded before, its approval, if it resumes one, is
    now resuming, and its record is the dispatch as it was sent, with no outcome, root or loss. *)
Theorem record_dispatch_is_atomic (adb : ApprovalsDb) (t : ProcessTable) (n : NewProcessRecord)
    (now : Z) (Hnow : in_column now) (Hstart : in_column (rr_started_at_ms (np_runner n)))
    (Hepoch : forall e, np_controller_epoch n = Some e -> in_column e) :
  let '(out, adb', t') := record_dispatch sha256_hex adb t n now in
  match out with
  | Err _ => adb' = adb /\ t' = t
  | Ok _ =>
      t !! np_process_id n = None /\
      (forall id, np_approval_id n = Some id -> exists a, approvals adb' !! id = Some a /\
         apr_state a = "resuming") /\
      (np_approval_id n = None -> adb' = adb) /\
      process_record t' (np_process_id n) =
        Ok (Some (mkProcessRecord (np_process_id n) (np_runner n) (np_controller_epoch n)
          (np_workspace_id n) (np_approval_id n) (np_attempt_id n) (np_participation n)
          (np_tty n) (hash_canonical sha256_hex (np_argv n)) PhDispatching None None None None
          None None now now None None))
  end.
Proof.
  unfold record_dispatch.
  destruct (match np_approval_id n with Some _ => _ | _ => _ end) as [[u|e] adb'] eqn:Em; [|done].
  destruct (t !! np_process_id n) eqn:Ht; cbn [is_some is_none negb]; [done|]. split_and!; [done| | |].
  - intros id Hid. rewrite Hid in Em. revert Em. unfold mark_resuming, update_approval, state_is.
    destruct (approvals adb !! id) as [row|] eqn:Er; [|done].
    case_bool_decide; [intros [= <- <-]; eauto|].
    case_bool_decide; [|done]. intros [= <- <-]. cbn. rewrite lookup_insert_eq. eauto.
  - intros Hn. rewrite Hn in Em. by simplify_eq.
  - apply load_record_Some. eexists. rewrite lookup_insert_eq. split; [done|].
    assert (He : from_sql <$> (to_sql <$> np_controller_epoch n) = np_controller_epoch n).
    { destruct (np_controller_epoch n) as [e|]; cbn; [|done].
      by rewrite from_to_sql, stored_id by auto. }
    unfold map_record, dispatch_row; cbn. autorewrite with codespace. cbn.
    unfold row_runner; cbn. rewrite !from_to_sql, !stored_id, He by done.
    by destruct (np_runner n).
Qed.

(** Only the Runner an execution was sent to can change its record: a report naming another
    Runner, or an execution nobody recorded, answers [false] and changes nothing. *)
Theorem other_runners_change_nothing (ops : list ProcessOp) (id : string) (runner : RunnerRef)
    (f : ProcessRecord -> ProcessRecord) (now : Z) (Hf : record_change f)
    (Hother : forall rec, process_record (process_runs sha256_hex ops ∅) id = Ok (Some rec) ->
       pc_runner rec <> runner) :
  let t := process_runs sha256_hex ops ∅ in
  change_record t runner id f now = (Ok false, t).
Proof.
  intros t. pose proof (process_runs_ok sha256_hex ops ∅ process_empty_ok) as Hok. fold t in Hok.
  pose proof (change_record_cases t runner id f now Hok Hf) as Hc.
  destruct (t !! id) as [r|] eqn:Hr; [|done].
  destruct Hc as (before & Hm & [Hc|(Hrun & _)]); [done|].
  destruct (Hother before); [|done]. apply load_record_Some. eauto.
Qed.

(** Losing a Runner makes exactly its executions that had not ended unknown, and they hold
    their workspaces until released: the answered ids are theirs, each such record becomes
    unknown for the given reason and stays unsettled, every other row is untouched, and a
    release is accepted once and settles the record without making it anything but unknown. *)
Theorem runner_lost_holds_until_released (ops : list ProcessOp) (lost : RunnerRef)
    (loss : ProcessLoss) (now later : Z) :
  let t := process_runs sha256_hex ops ∅ in
  let (ids, t') := record_runner_lost t lost loss now in
  forall id r, t !! id = Some r ->
    (id ∈ ids <-> unended_of lost r = true) /\
    if unended_of lost r then
      exists rec, process_record t' id = Ok (Some rec) /\ pc_phase rec = PhUnknown /\
        pc_lost rec = Some loss /\
        (pr_released_at_ms r = None -> awaits_release rec = true /\
           exists t2 r2, release_record t' id later = (true, t2) /\
             release_record t2 id later = (false, t2) /\
             t2 !! id = Some r2 /\ is_unsettled r2 = false /\ pr_phase r2 = "unknown")
    else t' !! id = Some r.
Proof.
  intros t. pose proof (process_runs_ok sha256_hex ops ∅ process_empty_ok) as Hok. fold t in Hok.
  cbn. intros id r Hr. split.
  - rewrite list_elem_of_fmap. split.
    + intros ([id' r'] & Hid & Hin). cbn in Hid. subst id'.
      apply select_processes_elem in Hin as [Hr' Hu]. congruence.
    + intros Hu. exists (id, r). split; [done|]. by apply select_processes_elem.
  - rewrite lookup_fmap, Hr. cbn. destruct (unended_of lost r) eqn:Hu; [|done].
    destruct (map_record_ok id r (Hok _ _ Hr)) as (p & ph & o & l & _ & Hph & _ & _ & Hm).
    destruct (map_record_lost id r loss now _ (Hok _ _ Hr) Hm) as (rec & Hm' & _ & Hp & Hl).
    { apply andb_prop in Hu as [_ Hu%bool_decide_eq_true]. rewrite Hph in Hu. cbn.
      destruct ph; auto; set_solver. }
    exists rec. split_and!; [|done|done|].
    + apply load_record_Some. exists (set_lost loss now r). rewrite lookup_fmap, Hr. cbn.
      by rewrite Hu.
    + intros Hnr. split.
      * assert (Hrel : pc_released_at_ms rec = None).
        { revert Hm'. unfold map_record. rewrite !bind_Ok. intros (? & _ & Hm2).
          apply bind_Ok in Hm2 as (? & _ & Hm2). apply bind_Ok in Hm2 as (? & _ & Hm2).
          apply bind_Ok in Hm2 as (? & _ & Hm2). simplify_eq. cbn. by rewrite Hnr. }
        unfold awaits_release. by rewrite Hp, Hrel.
      * unfold release_record. rewrite lookup_fmap, Hr. cbn. rewrite Hu. cbn. rewrite Hnr. cbn.
        do 2 eexists. split; [done|]. rewrite lookup_insert_eq. cbn. by split_and!.
Qed.

(** What a gateway reconciles after claiming its Runner: reading succeeds, and a record is
    in the answer exactly when its execution has not ended as far as it says, or its approval is
    still being resumed, it was not released, and it was not sent to this very Runner under this
    or a later epoch; the answer is ordered by creation. *)
Theorem records_to_reconcile_selects (ops : list ProcessOp) (adb : ApprovalsDb)
    (runner : RunnerRef) (epoch : Z) :
  let t := process_runs sha256_hex ops ∅ in
  exists recs, records_to_reconcile adb t runner epoch = Ok recs /\
    (forall rec, rec ∈ recs <-> exists r, t !! pc_process_id rec = Some r /\
       map_record (pc_process_id rec) r = Ok rec /\
       (pc_phase rec <> PhTerminal \/ approval_resuming adb r = true) /\
       pr_released_at_ms r = None /\
       ~ (sent_to runner r = true /\ sent_under epoch r = true)) /\
    StronglySorted (fun a b => (pc_created_at_ms a <= pc_created_at_ms b)%Z) recs.
Proof.
  intros t. pose proof (process_runs_ok sha256_hex ops ∅ process_empty_ok) as Hok. fold t in Hok.
  unfold records_to_reconcile. set (P := to_reconcile adb runner epoch).
  destruct (collect_records_ok _ (select_processes_rows t P Hok)) as (recs & -> & Hf).
  exists recs. split; [done|].
  assert (Hsel : forall id r rec, process_row_ok r -> map_record id r = Ok rec ->
    P r = true <-> (pc_phase rec <> PhTerminal \/ approval_resuming adb r = true) /\
       pr_released_at_ms r = None /\ ~ (sent_to runner r = true /\ sent_under epoch r = true)).
  { intros id r rec Hrow Hm. unfold P, to_reconcile, phase_in.
    rewrite (ra_phase _ _ _ (map_record_reads id r rec Hrow Hm)).
    rewrite !andb_true_iff, orb_true_iff, negb_true_iff, andb_false_iff, bool_decide_eq_true.
    assert (Hph : phase_as_str (pc_phase rec) ∈ ["dispatching"; "running"; "unknown"] <->
      pc_phase rec <> PhTerminal) by (destruct (pc_phase rec); set_solver).
    rewrite Hph. destruct (pr_released_at_ms r), (sent_to runner r), (sent_under epoch r); cbn;
      intuition congruence. }
  split.
  - intros rec. split.
    + intros [i Hi]%list_elem_of_lookup_1.
      destruct (Forall2_lookup_r _ _ _ _ _ Hf Hi) as ([id r] & Hkv & Hm). cbn in Hm.
      apply list_elem_of_lookup_2 in Hkv. apply select_processes_elem in Hkv as [Hr HP].
      pose proof (map_record_reads id r rec (Hok _ _ Hr) Hm) as [<- _ _ _ _ _ _].
      exists r. split_and!; try done; by apply (Hsel _ _ _ (Hok _ _ Hr) Hm).
    + intros (r & Hr & Hm & Hc).
      assert (Hin : (pc_process_id rec, r) ∈ select_processes t P).
      { apply select_processes_elem. split; [done|]. by apply (Hsel _ _ _ (Hok _ _ Hr) Hm). }
      apply list_elem_of_lookup_1 in Hin as [i Hi].
      destruct (Forall2_lookup_l _ _ _ _ _ Hf Hi) as (rec' & Hrec' & Hm'). cbn in Hm'.
      rewrite Hm in Hm'. simplify_eq. by eapply list_elem_of_lookup_2.
  - by apply (collect_sorted t P recs).
Qed.
End properties.

(** * A concrete run *)

Section runs.
#[local] Instance demo_sql : SqlEngine := merge_sort_engine.
#[local] Instance demo_argv : Json (list string) := countable_json.
Definition demo_digest (s : string) : string := s.

Definition demo_runner : RunnerRef := mkRunnerRef (Some "boot") 7 1000 "n".
Definition other_runner : RunnerRef := mkRunnerRef (Some "boot") 8 1000 "m".
Definition demo_new : NewProcessRecord :=
  mkNewProcessRecord "p" demo_runner (Some 3%Z) "w" None None PartOff false ["ls"].
Definition demo_history : list ProcessOp :=
  [PDispatch approvals_empty demo_new 2000;
   PChange demo_runner "p" _ (change_started (Some (mkRootProcess 9 (Some "t"))) (Some 9000%Z)) 2001].
Definition demo_table : ProcessTable := process_runs demo_digest demo_history ∅.
Definition demo_record : ProcessRecord :=
  mkProcessRecord "p" demo_runner (Some 3%Z) "w" None None PartOff false
    (hash_canonical demo_digest ["ls"]) PhRunning (Some 9000%Z)
    (Some (mkRootProcess 9 (Some "t"))) None None None None 2000 2001 None None.

Lemma demo_reads : process_record demo_table "p" = Ok (Some demo_record).
Proof. vm_compute. reflexivity. Qed.

Lemma process_record_lifecycle_witness :
  exists rec', process_record
      (process_run demo_digest (PRunnerLost demo_runner HostRebooted 3000) demo_table) "p"
    = Ok (Some rec') /\ pc_root rec' = Some (mkRootProcess 9 (Some "t")).
Proof.
  destruct (process_record_lifecycle demo_digest demo_history
    (PRunnerLost demo_runner HostRebooted 3000) "p" demo_record demo_reads)
    as (rec' & H & [_ _ _ Hroot _ _ _]).
  exists rec'. split; [exact H|]. apply Hroot. reflexivity.
Defined.

Lemma record_dispatch_is_atomic_witness :
  process_record (record_dispatch demo_digest approvals_empty ∅ demo_new 2000).2 "p" =
  Ok (Some (mkProcessRecord "p" demo_runner (Some 3%Z) "w" None None PartOff false
    (hash_canonical demo_digest ["ls"]) PhDispatching None None None None None None 2000 2000
    None None)).
Proof.
  pose proof (record_dispatch_is_atomic demo_digest approvals_empty ∅ demo_new 2000
    ltac:(vm_compute; split; discriminate) ltac:(vm_compute; split; discriminate)
    ltac:(intros e He; vm_compute in He; injection He as <-; vm_compute; split; discriminate)) as H.
  destruct (record_dispatch demo_digest approvals_empty ∅ demo_new 2000) as [[[u|e] a] t'] eqn:E.
  - destruct H as (_ & _ & _ & H). exact H.
  - vm_compute in E. discriminate E.
Defined.

Lemma other_runners_change_nothing_witness :
  change_record demo_table other_runner "p" (fun r => ended r NotStarted) 2002
  = (Ok false, demo_table).
Proof.
  apply (other_runners_change_nothing demo_digest demo_history "p" other_runner
    (fun r => ended r NotStarted) 2002 (change_ended NotStarted)).
  intros rec Hrec. fold demo_table in Hrec. rewrite demo_reads in Hrec.
  injection Hrec as <-. discriminate.
Defined.
End runs.
