(* ===== verification/Output.v ===== *)
(** The captured output of a managed process: [crates/runner/src/process.rs]. The bounded
    buffer its pumps fill, the window a read returns, and [String::from_utf8_lossy], which
    makes text of it. *)
From S2P Require Import Prelude Domain.

(** * Bytes to text

    [String::from_utf8_lossy]: every maximal prefix of an ill-formed sequence becomes one
    U+FFFD. Bytes are [ascii] values; a text is its UTF-8 bytes. *)
Definition byte_in (lo hi : N) (a : ascii) : bool :=
  let n := N_of_ascii a in (lo <=? n)%N && (n <=? hi)%N.

Definition is_continuation : ascii -> bool := byte_in 128 191.

Definition utf8_char_width (a : ascii) : nat :=
  if byte_in 0 127 a then 1
  else if byte_in 194 223 a then 2
  else if byte_in 224 239 a then 3
  else if byte_in 240 244 a then 4
  else 0.

(** The second byte that may follow a three- or four-byte lead. *)
Definition second3 (a b : ascii) : bool :=
  if byte_in 224 224 a then byte_in 160 191 b
  else if byte_in 237 237 a then byte_in 128 159 b
  else is_continuation b.

Definition second4 (a b : ascii) : bool :=
  if byte_in 240 240 a then byte_in 144 191 b
  else if byte_in 244 244 a then byte_in 128 143 b
  else is_continuation b.

(** U+FFFD. *)
Definition REPLACEMENT : list ascii := [ascii_of_N 239; ascii_of_N 191; ascii_of_N 189].

Fixpoint from_utf8_lossy (s : list ascii) : list ascii :=
  match s with
  | [] => []
  | a :: s1 =>
      match utf8_char_width a with
      | 1 => a :: from_utf8_lossy s1
      | 2 =>
          match s1 with
          | b :: s2 =>
              if is_continuation b then a :: b :: from_utf8_lossy s2
              else REPLACEMENT ++ from_utf8_lossy s1
          | [] => REPLACEMENT
          end
      | 3 =>
          match s1 with
          | b :: s2 =>
              if second3 a b then
                match s2 with
                | c :: s3 =>
                    if is_continuation c then a :: b :: c :: from_utf8_lossy s3
                    else REPLACEMENT ++ from_utf8_lossy s2
                | [] => REPLACEMENT
                end
              else REPLACEMENT ++ from_utf8_lossy s1
          | [] => REPLACEMENT
          end
      | 4 =>
          match s1 with
          | b :: s2 =>
              if second4 a b then
                match s2 with
                | c :: s3 =>
                    if is_continuation c then
                      match s3 with
                      | d :: s4 =>
                          if is_continuation d then a :: b :: c :: d :: from_utf8_lossy s4
                          else REPLACEMENT ++ from_utf8_lossy s3
                      | [] => REPLACEMENT
                      end
                    else REPLACEMENT ++ from_utf8_lossy s2
                | [] => REPLACEMENT
                end
              else REPLACEMENT ++ from_utf8_lossy s1
          | [] => REPLACEMENT
          end
      | _ => REPLACEMENT ++ from_utf8_lossy s1
      end
  end.

Lemma from_utf8_lossy_ascii s : Forall (fun a => byte_in 0 127 a) s -> from_utf8_lossy s = s.
Proof.
  induction 1 as [|a s Ha _ IH]; [done|]. cbn. unfold utf8_char_width.
  apply Is_true_true in Ha. by rewrite Ha, IH.
Qed.

(** * The buffer *)

Record OutputBuf := mkOutputBuf {
  ob_dropped : Z;
  ob_total : Z;
  ob_bytes : list ascii;
  ob_eof : bool;
  ob_timed_out : bool
}.

(** [OutputBuf::default]. *)
Definition output_default : OutputBuf := mkOutputBuf 0 0 [] false false.

(** [spawn_slotted]'s bound on the buffer. *)
Definition output_cap (output_bytes_cap : Z) : nat := Z.to_nat (Z.max output_bytes_cap 1).

(** One chunk of [pump_chunks], and one read of [pump_reader]. *)
Definition pump (cap : nat) (chunk : list ascii) (out : OutputBuf) : OutputBuf :=
  let total := as_u64 (ob_total out + Z.of_nat (length chunk)) in
  let bytes := ob_bytes out ++ chunk in
  if bool_decide (cap < length bytes) then
    let extra := length bytes - cap in
    {| ob_dropped := as_u64 (ob_dropped out + Z.of_nat extra); ob_total := total;
       ob_bytes := drop extra bytes; ob_eof := ob_eof out;
       ob_timed_out := ob_timed_out out |}
  else
    {| ob_dropped := ob_dropped out; ob_total := total; ob_bytes := bytes;
       ob_eof := ob_eof out; ob_timed_out := ob_timed_out out |}.

(** The reaper's [buf.eof = true], and the timeout's [buf.timed_out = true]. *)
Definition set_eof (out : OutputBuf) : OutputBuf :=
  {| ob_dropped := ob_dropped out; ob_total := ob_total out; ob_bytes := ob_bytes out;
     ob_eof := true; ob_timed_out := ob_timed_out out |}.

Definition set_timed_out (out : OutputBuf) : OutputBuf :=
  {| ob_dropped := ob_dropped out; ob_total := ob_total out; ob_bytes := ob_bytes out;
     ob_eof := ob_eof out; ob_timed_out := true |}.

Record RunnerReadResult := mkRunnerReadResult {
  rr_process_id : string;
  rr_cursor : Z;
  rr_chunk : list ascii;
  rr_eof : bool;
  rr_output_lost : bool;
  rr_retained_from : Z
}.

(** What [read_host_process] does with the buffer of the process it found. *)
Definition read_output (process_id : string) (cursor : Z) (buf : OutputBuf)
    : res RunnerReadResult :=
  if ob_timed_out buf && bool_decide (ob_total buf <= cursor)%Z
  then Err (error_body Timeout "managed process exceeded time limit")
  else
    let start := Z.max cursor (ob_dropped buf) in
    let skip := Z.to_nat (start - ob_dropped buf) in
    let chunk :=
      if bool_decide (length (ob_bytes buf) <= skip) then []
      else drop skip (ob_bytes buf) in
    let next := as_u64 (start + Z.of_nat (length chunk)) in
    Ok {| rr_process_id := process_id; rr_cursor := next;
          rr_chunk := from_utf8_lossy chunk;
          rr_eof := ob_eof buf && bool_decide (ob_total buf <= next)%Z;
          rr_output_lost := bool_decide (0 < ob_dropped buf)%Z;
          rr_retained_from := ob_dropped buf |}.

(** The answer of the [read_process] tool, from the Runner's ([server/src/mcp.rs]). *)
Definition read_process_result (r : RunnerReadResult) (hint : option CoordinationHint)
    : ReadProcessResult :=
  {| rp_process_id := rr_process_id r; rp_cursor := rr_cursor r;
     rp_chunk := String.string_of_list_ascii (rr_chunk r); rp_eof := rr_eof r;
     rp_output_lost := rr_output_lost r; rp_retained_from := rr_retained_from r;
     rp_lost_reason := if rr_output_lost r then Some RingOverflow else None;
     rp_coordination := hint |}.

(** * What the buffer holds *)

(** [out] holds the newest bytes of [stream], and counts all of them. *)
Record window (cap : nat) (stream : list ascii) (out : OutputBuf) : Prop := {
  win_total : ob_total out = Z.of_nat (length stream);
  win_dropped : ob_dropped out = Z.of_nat (length stream - Nat.min cap (length stream));
  win_bytes : ob_bytes out = drop (length stream - Nat.min cap (length stream)) stream
}.

Lemma window_default cap : window cap [] output_default.
Proof. by split; cbn; rewrite ?Nat.min_0_r. Qed.

Lemma window_eof cap stream out : window cap stream out -> window cap stream (set_eof out).
Proof. by intros [? ? ?]. Qed.

Lemma window_timed_out cap stream out :
  window cap stream out -> window cap stream (set_timed_out out).
Proof. by intros [? ? ?]. Qed.

Lemma window_pump cap stream out chunk :
  (Z.of_nat (length (stream ++ chunk)) < 2^64)%Z ->
  window cap stream out -> window cap (stream ++ chunk) (pump cap chunk out).
Proof.
  intros Hl [Ht Hd Hb]. rewrite length_app in Hl. unfold pump.
  rewrite Ht, Hd, Hb. set (k := length stream - Nat.min cap (length stream)).
  assert (Hk : k <= length stream) by lia.
  rewrite !length_app, length_drop.
  case_bool_decide as Hc; split; cbn; rewrite ?length_app.
  - rewrite as_u64_id by lia. lia.
  - rewrite as_u64_id by lia. lia.
  - rewrite <- drop_app_le by done. rewrite drop_drop. f_equal. lia.
  - rewrite as_u64_id by lia. lia.
  - lia.
  - rewrite <- drop_app_le by done. f_equal. lia.
Qed.

(** A [read] of a process whose buffer holds [stream]. *)
Lemma read_output_window pid cap stream out cursor :
  (0 <= cursor < 2^64)%Z -> (Z.of_nat (length stream) < 2^64)%Z -> window cap stream out ->
  read_output pid cursor out =
    if ob_timed_out out && bool_decide (Z.of_nat (length stream) <= cursor)%Z
    then Err (error_body Timeout "managed process exceeded time limit")
    else Ok {| rr_process_id := pid;
               rr_cursor := Z.max cursor (Z.of_nat (length stream));
               rr_chunk :=
                 from_utf8_lossy
                   (drop (Nat.max (Z.to_nat cursor) (length stream - cap)) stream);
               rr_eof := ob_eof out;
               rr_output_lost := bool_decide (cap < length stream);
               rr_retained_from := Z.of_nat (length stream - cap) |}.
Proof.
  intros Hc Hl [Ht Hd Hb]. unfold read_output. rewrite Ht, Hd, Hb.
  destruct (_ && _); [done|].
  replace (length stream - Nat.min cap (length stream)) with (length stream - cap) by lia.
  set (k := length stream - cap). rewrite length_drop, drop_drop.
  replace (k + Z.to_nat (Z.max cursor (Z.of_nat k) - Z.of_nat k))
    with (Nat.max (Z.to_nat cursor) k) by lia.
  set (m := Nat.max (Z.to_nat cursor) k).
  assert (Hchunk : (if bool_decide (length stream - k <=
                          Z.to_nat (Z.max cursor (Z.of_nat k) - Z.of_nat k))
                    then [] else drop m stream) = drop m stream).
  { case_bool_decide; [|done]. symmetry. apply drop_ge. lia. }
  rewrite Hchunk, length_drop.
  replace (as_u64 (Z.max cursor (Z.of_nat k) + Z.of_nat (length stream - m)))
    with (Z.max cursor (Z.of_nat (length stream)))
    by (rewrite as_u64_id; lia).
  rewrite (bool_decide_eq_true_2 (Z.of_nat (length stream) <= Z.max _ _)%Z) by lia.
  rewrite andb_true_r. do 2 f_equal. apply bool_decide_ext. lia.
Qed.

(** * A client that polls *)

Inductive OutputOp :=
  | Pumped (chunk : list ascii)
  | EndOfOutput
  | TimeLimit
  | Polled.

Record Poller := mkPoller {
  po_out : OutputBuf;
  po_cursor : Z;
  po_text : list ascii;
  po_gap : bool
}.

Definition poller_new : Poller := mkPoller output_default 0%Z [] false.

(** A client reads from its cursor, appends what it gets and takes the answered cursor. It
    sees a gap when the answer's window starts after its cursor. *)
Definition poll_step (cap : nat) (p : Poller) (op : OutputOp) : Poller :=
  let with_out out := mkPoller out (po_cursor p) (po_text p) (po_gap p) in
  match op with
  | Pumped chunk => with_out (pump cap chunk (po_out p))
  | EndOfOutput => with_out (set_eof (po_out p))
  | TimeLimit => with_out (set_timed_out (po_out p))
  | Polled =>
      match read_output "" (po_cursor p) (po_out p) with
      | Ok r =>
          mkPoller (po_out p) (rr_cursor r) (po_text p ++ rr_chunk r)
            (po_gap p || bool_decide (po_cursor p < rr_retained_from r)%Z)
      | Err _ => p
      end
  end.

Definition polling (cap : nat) (ops : list OutputOp) : Poller :=
  foldl (poll_step cap) poller_new ops.

Definition written (op : OutputOp) : list ascii :=
  match op with Pumped chunk => chunk | _ => [] end.

(** What the process wrote. *)
Definition stream_of (ops : list OutputOp) : list ascii := ops ≫= written.

Lemma stream_of_snoc ops op : stream_of (ops ++ [op]) = stream_of ops ++ written op.
Proof. unfold stream_of. rewrite bind_app. cbn. by rewrite app_nil_r. Qed.

Record polled (cap : nat) (stream : list ascii) (p : Poller) : Prop := {
  pd_window : window cap stream (po_out p);
  pd_cursor : (0 <= po_cursor p <= Z.of_nat (length stream))%Z;
  pd_text : po_gap p = false -> po_text p = take (Z.to_nat (po_cursor p)) stream
}.

Lemma polled_step cap stream p op :
  (Z.of_nat (length (stream ++ written op)) < 2^64)%Z ->
  Forall (fun a => byte_in 0 127 a) (stream ++ written op) ->
  polled cap stream p -> polled cap (stream ++ written op) (poll_step cap p op).
Proof.
  intros Hl Ha [Hw Hc Ht]. destruct op as [chunk| | |]; cbn [written poll_step] in *.
  - split; cbn; [by apply window_pump|rewrite length_app; lia|].
    intros Hg. rewrite take_app_le by lia. auto.
  - rewrite app_nil_r in *. split; cbn; auto using window_eof.
  - rewrite app_nil_r in *. split; cbn; auto using window_timed_out.
  - rewrite app_nil_r in *. rewrite (read_output_window _ cap stream) by (done || lia).
    destruct (_ && _); [done|]. split; cbn; [done|lia|].
    intros [Hg Hk]%orb_false_iff. apply bool_decide_eq_false in Hk.
    rewrite Ht by done. rewrite Nat.max_l by lia.
    rewrite from_utf8_lossy_ascii by (by apply Forall_drop).
    rewrite take_drop. rewrite Z.max_r by lia. by rewrite take_ge by lia.
Qed.

Lemma polled_run cap ops :
  (Z.of_nat (length (stream_of ops)) < 2^64)%Z ->
  Forall (fun a => byte_in 0 127 a) (stream_of ops) ->
  polled cap (stream_of ops) (polling cap ops).
Proof.
  induction ops as [|op ops IH] using rev_ind.
  { intros _ _. split; cbn; [apply window_default|lia|done]. }
  unfold polling. rewrite stream_of_snoc, foldl_snoc. intros Hl Ha.
  apply polled_step; [done..|]. apply IH.
  - rewrite length_app in Hl. lia.
  - by apply Forall_app in Ha as [? _].
Qed.

(** * Properties *)

(** However the output arrives, the buffer counts every byte of it, keeps the newest
    [cap] of them in order, and counts the others as dropped. *)
Theorem buffer_keeps_the_newest_output cap chunks :
  (Z.of_nat (length (mjoin chunks)) < 2^64)%Z ->
  let out := foldl (fun out chunk => pump cap chunk out) output_default chunks in
  let stream := mjoin chunks in
  ob_total out = Z.of_nat (length stream) /\
  ob_dropped out = Z.of_nat (length stream - cap) /\
  ob_bytes out = drop (length stream - cap) stream /\
  length (ob_bytes out) = Nat.min cap (length stream).
Proof.
  intros Hl. cbn zeta.
  assert (Hw : window cap (mjoin chunks)
                 (foldl (fun out chunk => pump cap chunk out) output_default chunks)).
  { induction chunks as [|c chunks IH] using rev_ind; [apply window_default|].
    rewrite join_app, foldl_snoc in *. cbn in *. rewrite app_nil_r in *.
    apply window_pump; [done|]. apply IH. rewrite length_app in Hl. lia. }
  destruct Hw as [Ht Hd Hb]. rewrite Ht, Hd, Hb, length_drop.
  repeat split; try lia. f_equal. lia.
Qed.

Lemma buffer_keeps_the_newest_output_witness :
  let chunks := [String.list_ascii_of_string "one "; String.list_ascii_of_string "two ";
     String.list_ascii_of_string "three"] in
  ob_bytes (foldl (fun out chunk => pump 7 chunk out) output_default chunks) =
    String.list_ascii_of_string "o three".
Proof.
  cbn zeta.
  destruct (buffer_keeps_the_newest_output 7
    [String.list_ascii_of_string "one "; String.list_ascii_of_string "two ";
     String.list_ascii_of_string "three"] ltac:(vm_compute; reflexivity))
    as (_ & _ & Hb & _).
  rewrite Hb. vm_compute. reflexivity.
Defined.

(** A read answers exactly the retained output from its cursor on, and the cursor after
    it; it says that output was lost exactly when the buffer no longer holds all of it, and
    where the retained output starts. A timed-out process answers its retained output first,
    then the timeout. *)
Theorem read_answers_the_retained_output pid cap chunks out cursor eof timed_out :
  (0 <= cursor < 2^64)%Z -> (Z.of_nat (length (mjoin chunks)) < 2^64)%Z ->
  out = foldl (fun out chunk => pump cap chunk out)
          (mkOutputBuf 0%Z 0%Z [] eof timed_out) chunks ->
  let stream := mjoin chunks in
  read_output pid cursor out =
    if timed_out && bool_decide (Z.of_nat (length stream) <= cursor)%Z
    then Err (error_body Timeout "managed process exceeded time limit")
    else Ok {| rr_process_id := pid;
               rr_cursor := Z.max cursor (Z.of_nat (length stream));
               rr_chunk :=
                 from_utf8_lossy
                   (drop (Nat.max (Z.to_nat cursor) (length stream - cap)) stream);
               rr_eof := eof;
               rr_output_lost := bool_decide (cap < length stream);
               rr_retained_from := Z.of_nat (length stream - cap) |}.
Proof.
  intros Hc Hl -> stream.
  assert (Hw : forall out, out = foldl (fun out chunk => pump cap chunk out)
                 (mkOutputBuf 0%Z 0%Z [] eof timed_out) chunks ->
               window cap stream out /\ ob_eof out = eof /\ ob_timed_out out = timed_out).
  { intros out ->. subst stream. induction chunks as [|c chunks IH] using rev_ind.
    - split; [|done]. split; cbn; by rewrite ?Nat.min_0_r.
    - rewrite join_app, foldl_snoc in *. cbn in *. rewrite app_nil_r in *.
      rewrite length_app in Hl. destruct IH as (Hw & He & Htm); [lia|].
      split; [apply window_pump; [by rewrite length_app|done]|].
      unfold pump. by case_bool_decide. }
  destruct (Hw _ eq_refl) as (Hwin & He & Htm).
  rewrite (read_output_window _ cap stream) by done. by rewrite He, Htm.
Qed.

Lemma read_answers_the_retained_output_witness :
  let out := foldl (fun out chunk => pump 4 chunk out) (mkOutputBuf 0%Z 0%Z [] true false)
               [String.list_ascii_of_string "abc"; String.list_ascii_of_string "def"] in
  read_output "p" 1%Z out =
    Ok {| rr_process_id := "p"; rr_cursor := 6%Z; rr_chunk := String.list_ascii_of_string "cdef";
          rr_eof := true; rr_output_lost := true; rr_retained_from := 2%Z |}.
Proof.
  cbn zeta.
  rewrite (read_answers_the_retained_output "p" 4
    [String.list_ascii_of_string "abc"; String.list_ascii_of_string "def"] _ 1%Z true false
    ltac:(lia) ltac:(vm_compute; reflexivity) eq_refl).
  vm_compute. reflexivity.
Defined.

(** C26: A client that polls from the cursor it was last answered, and is never answered a
    window that starts after it, has read the whole ASCII output once its last poll is
    answered, each byte once and in order, however its polls interleave with the output. *)
Theorem polling_reassembles_the_output cap ops :
  (Z.of_nat (length (stream_of ops)) < 2^64)%Z ->
  Forall (fun a => byte_in 0 127 a) (stream_of ops) ->
  po_gap (polling cap (ops ++ [Polled])) = false ->
  po_text (polling cap (ops ++ [Polled])) = stream_of ops.
Proof.
  intros Hl Ha Hg.
  destruct (polled_run cap ops Hl Ha) as [Hw Hc _].
  assert (Hs : stream_of (ops ++ [Polled]) = stream_of ops)
    by (rewrite stream_of_snoc; apply app_nil_r).
  destruct (polled_run cap (ops ++ [Polled])) as [_ _ Ht]; [by rewrite Hs..|].
  rewrite Ht, Hs by done. apply take_ge.
  unfold polling. rewrite foldl_snoc. fold (polling cap ops). cbn.
  rewrite (read_output_window _ cap (stream_of ops)) by (done || lia).
  destruct (_ && _) eqn:E; cbn; [|lia].
  apply andb_true_iff in E as [_ E%bool_decide_eq_true]. lia.
Qed.

Lemma polling_reassembles_the_output_witness :
  let ops := [Pumped (String.list_ascii_of_string "ab"); Polled; Pumped (String.list_ascii_of_string "cd");
              Pumped (String.list_ascii_of_string "e"); EndOfOutput] in
  po_text (polling 4 (ops ++ [Polled])) = String.list_ascii_of_string "abcde".
Proof.
  cbn zeta. rewrite polling_reassembles_the_output.
  - vm_compute. reflexivity.
  - vm_compute. reflexivity.
  - repeat (apply Forall_cons; split; [vm_compute; exact I|]). apply Forall_nil. exact I.
  - vm_compute. reflexivity.
Defined.

(** A character that two polls split reads as replacement characters on both sides, although
    no output was lost and nothing in the answers says so. *)
Example split_character_is_replaced :
  let e_acute := [ascii_of_N 195; ascii_of_N 169] in
  let p := polling 16 [Pumped (take 1 e_acute); Polled; Pumped (drop 1 e_acute); Polled] in
  po_gap p = false /\ ob_dropped (po_out p) = 0%Z /\
  from_utf8_lossy e_acute = e_acute /\ po_text p = REPLACEMENT ++ REPLACEMENT.
Proof. vm_compute. repeat split. Qed.
