(* ===== verification/Supervisor.v ===== *)
(** The in-process runner: [InProcessRunner] of [crates/runner/src/process.rs]. Its process
    slots and their limit, how a process's end is recorded, the tasks a spawn starts, kills,
    the retention of ended processes and what an independent Runner remembers. *)
From S2P Require Import Prelude Domain Output.

(** * What is outside

    A [HashMap] iterates in an order of its own. *)
Class HashOrder := {
  hash_iter {A : Type} : gmap string A -> list (string * A);
  hash_iter_perm {A : Type} (m : gmap string A) : hash_iter m ≡ₚ map_to_list m
}.

(** A concrete order, for evaluating. *)
Definition map_order : HashOrder :=
  {| hash_iter A := map_to_list; hash_iter_perm A m := reflexivity _ |}.

(** What [waitid(P_PID, pid, WEXITED | WNOHANG | WNOWAIT)] answers: an errno, or the
    [si_pid] it fills in. *)
Inductive WaitId := WaitFailed (errno : Z) | WaitInfo (si_pid : Z).

Definition ECHILD : Z := 10.

(** A pipe root as the process sees it at one moment: [Child::id], [waitid] and the error of
    [Child::start_kill]. *)
Record Child := mkChild {
  ch_id : option Z;
  ch_waitid : WaitId;
  ch_start_kill : option string
}.

(** A PTY session at one moment: [PtySession::has_exited] and the error of [resize]. *)
Record PtySession := mkPtySession {
  pty_has_exited : bool;
  pty_resize : option string
}.

(** The operating system at one moment, for each process by its index in [rn_procs]. *)
Record World := mkWorld {
  w_child : nat -> Child;
  w_session : nat -> PtySession
}.

(** What the runner does to the outside: killing the descendants of a sandboxed root, the root
    itself, a PTY's process group, and running a kill hook. *)
Inductive Effect :=
  | KillDescendants (p : nat)
  | KillRoot (p : nat)
  | KillSession (p : nat)
  | RunHook (p : nat).

(** * Lifecycle *)

Record LifecycleSnapshot := mkSnapshot {
  sn_state : ProcessState;
  sn_exit_code : option Z;
  sn_termination : option ProcessTermination;
  sn_signal : option Z
}.

Inductive KillIntent := IntentTimeout | IntentTerminated.

#[export] Instance KillIntent_eq_dec : EqDecision KillIntent.
Proof. solve_decision. Defined.

Record Lifecycle := mkLifecycle {
  lf_finished : bool;
  lf_exited : bool;
  lf_kill_intent : option KillIntent;
  lf_snapshot : LifecycleSnapshot
}.

(** [Lifecycle::new]. *)
Definition lifecycle_new : Lifecycle :=
  mkLifecycle false false None (mkSnapshot PRunning None None None).

Definition note_kill (intent : KillIntent) (life : Lifecycle) : Lifecycle :=
  match lf_kill_intent life with
  | None => mkLifecycle (lf_finished life) (lf_exited life) (Some intent) (lf_snapshot life)
  | Some _ => life
  end.

(** [life.exited = true]. *)
Definition set_exited (life : Lifecycle) : Lifecycle :=
  mkLifecycle (lf_finished life) true (lf_kill_intent life) (lf_snapshot life).

Definition finish_wait (code signal : option Z) (life : Lifecycle) : Lifecycle :=
  if lf_finished life then life
  else
    mkLifecycle true (lf_exited life) (lf_kill_intent life)
      match lf_kill_intent life with
      | Some IntentTimeout => mkSnapshot PExited None (Some TTimeout) None
      | Some IntentTerminated => mkSnapshot PExited None (Some TTerminated) None
      | None =>
          if is_some signal then mkSnapshot PExited None (Some TSignaled) signal
          else mkSnapshot PExited code (Some TExited) None
      end.

Definition finish_lost (life : Lifecycle) : Lifecycle :=
  if lf_finished life then life
  else
    let termination :=
      match lf_kill_intent life with
      | Some IntentTimeout => TTimeout
      | Some IntentTerminated => TTerminated
      | None => TUnknown
      end in
    mkLifecycle true (lf_exited life) (lf_kill_intent life)
      (mkSnapshot PExited None (Some termination) None).

Definition exited_unreaped (child : Child) : bool :=
  match ch_id child with
  | None => true
  | Some _ =>
      match ch_waitid child with
      | WaitFailed errno => bool_decide (errno = ECHILD)
      | WaitInfo si_pid => bool_decide (si_pid <> 0%Z)
      end
  end.

(** The standard signals' numbers on Linux, with their names. *)
Definition NAMES : list (Z * string) :=
  [(1, "SIGHUP"); (2, "SIGINT"); (3, "SIGQUIT"); (4, "SIGILL"); (5, "SIGTRAP");
   (6, "SIGABRT"); (7, "SIGBUS"); (8, "SIGFPE"); (9, "SIGKILL"); (10, "SIGUSR1");
   (11, "SIGSEGV"); (12, "SIGUSR2"); (13, "SIGPIPE"); (14, "SIGALRM"); (15, "SIGTERM");
   (24, "SIGXCPU"); (25, "SIGXFSZ"); (26, "SIGVTALRM"); (27, "SIGPROF"); (29, "SIGIO");
   (31, "SIGSYS")]%Z.

Definition process_signal (number : Z) : ProcessSignal :=
  {| sig_number := number;
     sig_name := snd <$> head (filter (fun known => known.1 = number) NAMES) |}.

(** * The runner's state

    What a spawn shares with its tasks through [Arc]s: its output, lifecycle, completion time
    and stdin, together with what the tasks captured and how far each has come. *)
Inductive ReaperState :=
  | RpLooking        (** polling for the root's exit *)
  | RpObserved       (** a pipe root was seen exited; the observer runs before the reap *)
  | RpJoining        (** reaped; the pumps are joined *)
  | RpEof            (** the output is marked ended *)
  | RpDone.          (** the completion time is set and [on_release] called *)

#[export] Instance ReaperState_eq_dec : EqDecision ReaperState.
Proof. solve_decision. Defined.

Inductive TimerState := TmSleeping | TmFired | TmDone.

Record Proc := mkProc {
  pr_tty : bool;
  pr_sandboxed : bool;
  pr_hook : bool;
  pr_cap : nat;
  pr_output : OutputBuf;
  pr_completed_at : option Z;
  pr_lifecycle : Lifecycle;
  pr_stdin : bool;
  pr_pumps : nat;
  pr_reaper : ReaperState;
  pr_timer : TimerState
}.

Inductive SessionIo :=
  | Pipe (sandboxed : bool)
  | Pty
  | Released.

#[export] Instance SessionIo_eq_dec : EqDecision SessionIo.
Proof. solve_decision. Defined.

Record Slot := mkSlot {
  sl_workspace_id : string;
  sl_io : SessionIo;
  sl_proc : nat;  (** the shared state of its process, in [rn_procs] *)
  sl_on_kill : bool;
  sl_acknowledged : option Z
}.

Record RetentionPolicy := mkRetention { rt_ttl : Z; rt_max_completed : nat }.

Definition DEFAULT_COMPLETED_TTL : Z := 15 * 60 * 1000000000.
Definition DEFAULT_MAX_COMPLETED : nat := 64.
Definition DEFAULT_MAX_PROCESSES : Z := 8.

Definition retention_default : RetentionPolicy :=
  mkRetention DEFAULT_COMPLETED_TTL DEFAULT_MAX_COMPLETED.

Inductive Received := Executed | Refused.

#[export] Instance Received_eq_dec : EqDecision Received.
Proof. solve_decision. Defined.

Record Memory := mkMemory { mm_keep : option nat; mm_received : gmap string Received }.

Record Runner := mkRunner {
  rn_inner : gmap string Slot;
  rn_reserved : gset string;
  rn_memory : Memory;
  rn_max_processes : option Z;
  rn_retention : RetentionPolicy;
  rn_procs : list Proc
}.

Definition with_inner (r : Runner) (m : gmap string Slot) : Runner :=
  mkRunner m (rn_reserved r) (rn_memory r) (rn_max_processes r) (rn_retention r) (rn_procs r).
Definition with_reserved (r : Runner) (s : gset string) : Runner :=
  mkRunner (rn_inner r) s (rn_memory r) (rn_max_processes r) (rn_retention r) (rn_procs r).
Definition with_memory (r : Runner) (m : Memory) : Runner :=
  mkRunner (rn_inner r) (rn_reserved r) m (rn_max_processes r) (rn_retention r) (rn_procs r).
Definition with_procs (r : Runner) (ps : list Proc) : Runner :=
  mkRunner (rn_inner r) (rn_reserved r) (rn_memory r) (rn_max_processes r) (rn_retention r) ps.

(** [InProcessRunner::with_retention] and [new]. *)
Definition with_retention (retention : RetentionPolicy) : Runner :=
  mkRunner ∅ ∅ (mkMemory None ∅) None retention [].

Definition runner_new : Runner := with_retention retention_default.

Definition with_max_processes (r : Runner) (limit : Z) : Runner :=
  mkRunner (rn_inner r) (rn_reserved r) (rn_memory r) (Some (Z.max limit 1)) (rn_retention r)
    (rn_procs r).

(** [str::parse::<usize>]: digits, after at most one [+], that fit. *)
Definition digit_value (a : ascii) : option Z :=
  let n := Z.of_N (N_of_ascii a) in
  if bool_decide (48 <= n <= 57)%Z then Some (n - 48)%Z else None.

Fixpoint parse_digits (acc : Z) (s : string) : option Z :=
  match s with
  | "" => Some acc
  | String a s =>
      d ← digit_value a;
      let acc := (acc * 10 + d)%Z in
      if bool_decide (acc <= u64_max)%Z then parse_digits acc s else None
  end.

Definition parse_usize (s : string) : option Z :=
  match s with
  | "" => None
  | String a "" => if bool_decide (a = "+"%char) then None else parse_digits 0 s
  | String a t => parse_digits 0 (if bool_decide (a = "+"%char) then t else s)
  end.

(** [max_processes] reads [CODESPACE_MAX_PROCESSES]: [env] is its value, when it is set. *)
Definition max_processes (env : option string) : Z :=
  match env ≫= parse_usize with
  | Some n => if bool_decide (0 < n)%Z then n else DEFAULT_MAX_PROCESSES
  | None => DEFAULT_MAX_PROCESSES
  end.

Definition limit (env : option string) (r : Runner) : Z :=
  default (max_processes env) (rn_max_processes r).

(** The state of the process behind an index. A slot's index is always in range. *)
Definition proc_default : Proc :=
  mkProc false false false 1 output_default None lifecycle_new true 0 RpLooking TmSleeping.

Definition proc_at (ps : list Proc) (p : nat) : Proc := default proc_default (ps !! p).

Definition completed_at (ps : list Proc) (s : Slot) : option Z :=
  pr_completed_at (proc_at ps (sl_proc s)).

Definition is_live (ps : list Proc) (s : Slot) : bool :=
  negb (ob_eof (pr_output (proc_at ps (sl_proc s)))).

Definition live_count (ps : list Proc) (m : gmap string Slot) : nat :=
  length (filter (fun e : string * Slot => is_live ps e.2 = true) (map_to_list m)).

Definition is_released (s : Slot) : bool :=
  match sl_io s with Released => true | _ => false end.

(** * Retention *)

Section operations.
Context `{Order : HashOrder}.

(** [sort_by_key(|(_, at)| *at)]. *)
Definition no_later (a b : string * Z) : Prop := (a.2 <= b.2)%Z.

#[local] Instance no_later_dec : RelDecision no_later.
Proof. intros a b. unfold no_later. exact _. Defined.

Definition by_time (l : list (string * Z)) : list (string * Z) := merge_sort no_later l.

(** The ended processes that satisfy [P], with when each ended, in the map's order. *)
Definition ended_slots (ps : list Proc) (P : Slot -> bool) (m : gmap string Slot)
    : list (string * Z) :=
  omap (fun e : string * Slot =>
          if P e.2 then (fun at_ => (e.1, at_)) <$> completed_at ps e.2 else None)
    (hash_iter m).

Definition release_handle (s : Slot) : Slot :=
  mkSlot (sl_workspace_id s) Released (sl_proc s) false (sl_acknowledged s).

Definition evict_one (keep : option nat) (m : gmap string Slot) (id : string)
    : gmap string Slot :=
  match m !! id with
  | Some slot =>
      if is_some keep && is_none (sl_acknowledged slot) then <[id := release_handle slot]> m
      else delete id m
  | None => delete id m
  end.

Fixpoint evict_ended (now ttl : Z) (keep : option nat) (over index : nat)
    (ended : list (string * Z)) (m : gmap string Slot) : gmap string Slot :=
  match ended with
  | [] => m
  | (id, at_) :: ended =>
      evict_ended now ttl keep over (S index) ended
        (if bool_decide (over <= index) && bool_decide (saturating_sub now at_ <= ttl)%Z
         then m else evict_one keep m id)
  end.

(** An acknowledged process whose handle was released, past its time. *)
Definition expired (now ttl : Z) (s : Slot) : bool :=
  is_released s
  && match sl_acknowledged s with
     | Some at_ => bool_decide (ttl < saturating_sub now at_)%Z
     | None => false
     end.

Definition drop_oldest (n : nat) (released : list (string * Z)) (m : gmap string Slot)
    : gmap string Slot :=
  foldl (fun m (e : string * Z) => delete e.1 m) m (take n released).

(** [InProcessRunner::evict_completed]. *)
Definition evict_completed (now : Z) (r : Runner) : Runner :=
  let ttl := rt_ttl (rn_retention r) in
  let ps := rn_procs r in
  let ended := by_time (ended_slots ps (fun s => negb (is_released s)) (rn_inner r)) in
  let over := length ended - rt_max_completed (rn_retention r) in
  let m := evict_ended now ttl (mm_keep (rn_memory r)) over 0 ended (rn_inner r) in
  match mm_keep (rn_memory r) with
  | None => with_inner r m
  | Some keep =>
      let m := filter (fun e : string * Slot => expired now ttl e.2 = false) m in
      let released := ended_slots ps is_released m in
      if bool_decide (length released <= keep) then with_inner r m
      else with_inner r (drop_oldest (length released - keep) (by_time released) m)
  end.

(** * Slots *)

Definition reserve_slot (env : option string) (now : Z) (process_id : string) (r : Runner)
    : Runner * res unit :=
  let r := evict_completed now r in
  if bool_decide (process_id ∈ rn_reserved r)
  then (r, Err (error_body InvalidCommand
                  ("process_id `" +:+ process_id +:+ "` is already in use")))
  else if bool_decide (limit env r <=
            Z.of_nat (live_count (rn_procs r) (rn_inner r) + size (rn_reserved r)))%Z
  then (r, Err (error_body WorkspaceBusy "live process limit reached"))
  else (with_reserved r ({[process_id]} ∪ rn_reserved r), Ok tt).

(** [SlotReservation]'s [Drop]. *)
Definition drop_reservation (process_id : string) (r : Runner) : Runner :=
  with_reserved r (rn_reserved r ∖ {[process_id]}).

Definition occupied_slots (now : Z) (r : Runner) : Runner * nat :=
  let r := evict_completed now r in
  (r, live_count (rn_procs r) (rn_inner r) + size (rn_reserved r)).

Definition remember (process_id : string) (received : Received) (r : Runner) : Runner :=
  let mem := rn_memory r in
  match mm_keep mem with
  | None => r
  | Some _ =>
      let known := default received (mm_received mem !! process_id) in
      let known := match received with Executed => Executed | Refused => known end in
      with_memory r (mkMemory (mm_keep mem) (<[process_id := known]> (mm_received mem)))
  end.

(** [InProcessRunner::fill] with [SlotReservation::fill], which drops the reservation once the
    slot is in the map. *)
Definition fill (now : Z) (process_id : string) (slot : Slot) (r : Runner) : Runner :=
  let r := evict_completed now r in
  let r := with_inner r (<[process_id := slot]> (rn_inner r)) in
  let r := drop_reservation process_id r in
  remember process_id Executed r.

Definition keep_until_acknowledged (keep : nat) (r : Runner) : Runner :=
  with_memory r (mkMemory (Some (Nat.max keep 1)) (mm_received (rn_memory r))).

Definition note_received (process_id : string) (r : Runner) : Runner :=
  remember process_id Refused r.

Definition acknowledge_one (now : Z) (ps : list Proc) (m : gmap string Slot) (id : string)
    : gmap string Slot :=
  match m !! id with
  | Some slot =>
      if is_none (sl_acknowledged slot) && is_some (completed_at ps slot)
      then <[id := mkSlot (sl_workspace_id slot) (sl_io slot) (sl_proc slot) (sl_on_kill slot)
                     (Some now)]> m
      else m
  | None => m
  end.

Definition acknowledge (now : Z) (process_ids : list string) (r : Runner) : Runner :=
  evict_completed now
    (with_inner r (foldl (acknowledge_one now (rn_procs r)) (rn_inner r) process_ids)).

(** * Spawning *)

(** [spawn_host] before its process is created: the policy's [require_exec], the argv and the
    slot. *)
Definition spawn_begin (env : option string) (now : Z) (require_exec : res unit)
    (process_id : string) (argv : list string) (r : Runner) : Runner * res unit :=
  match require_exec with
  | Err e => (r, Err e)
  | Ok _ =>
      match argv with
      | [] | "" :: _ =>
          (r, Err (error_body InvalidCommand "command must be a non-empty argv (no shell)"))
      | _ => reserve_slot env now process_id r
      end
  end.

(** A process that [spawn_pipe] or [spawn_pty] created: the two share what follows. *)
Record Spawned := mkSpawned {
  sw_workspace_id : string;
  sw_tty : bool;
  sw_sandboxed : bool;
  sw_cap : Z;
  sw_on_kill : bool
}.

Definition spawned_proc (sw : Spawned) : Proc :=
  {| pr_tty := sw_tty sw; pr_sandboxed := sw_sandboxed sw; pr_hook := sw_on_kill sw;
     pr_cap := output_cap (sw_cap sw); pr_output := output_default; pr_completed_at := None;
     pr_lifecycle := lifecycle_new; pr_stdin := true;
     pr_pumps := if sw_tty sw then 1 else 2; pr_reaper := RpLooking;
     pr_timer := TmSleeping |}.

(** The rest of [spawn_pipe] and [spawn_pty]: a failed spawn drops the reservation, a created
    process fills it and its tasks start. *)
Definition spawn_end (now : Z) (process_id : string) (spawned : res Spawned) (r : Runner)
    : Runner * res unit :=
  match spawned with
  | Err e => (drop_reservation process_id r, Err e)
  | Ok sw =>
      let slot :=
        {| sl_workspace_id := sw_workspace_id sw;
           sl_io := if sw_tty sw then Pty else Pipe (sw_sandboxed sw);
           sl_proc := length (rn_procs r); sl_on_kill := sw_on_kill sw;
           sl_acknowledged := None |} in
      (fill now process_id slot (with_procs r (rn_procs r ++ [spawned_proc sw])), Ok tt)
  end.

(** * A spawn's tasks *)

(** What [try_wait] of an exited child answers. *)
Inductive TryWait :=
  | WaitStatus (code signal : option Z)
  | WaitPending
  | WaitError.

Inductive Task :=
  | Pump (chunk : list ascii)            (** a pump received or read a chunk *)
  | PumpEnd                              (** a pump ended *)
  | ReapLook                             (** one turn of [reap_child]'s loop, to its observer *)
  | ReapWait (answer : TryWait)          (** its second half: the reap *)
  | PtyWindow                            (** the PTY's exit window opened *)
  | PtyExit (code : option Z)            (** the PTY's exit channel answered, or was lost *)
  | JoinOutput                           (** the pumps are joined: [buf.eof = true] *)
  | Complete                             (** [completed_at = now] and [on_release] *)
  | TimerFire                            (** the timeout elapsed *)
  | TimerMark.                           (** [buf.timed_out = true] *)

Definition with_output (pr : Proc) (out : OutputBuf) : Proc :=
  mkProc (pr_tty pr) (pr_sandboxed pr) (pr_hook pr) (pr_cap pr) out (pr_completed_at pr)
    (pr_lifecycle pr) (pr_stdin pr) (pr_pumps pr) (pr_reaper pr) (pr_timer pr).
Definition with_lifecycle (pr : Proc) (life : Lifecycle) : Proc :=
  mkProc (pr_tty pr) (pr_sandboxed pr) (pr_hook pr) (pr_cap pr) (pr_output pr)
    (pr_completed_at pr) life (pr_stdin pr) (pr_pumps pr) (pr_reaper pr) (pr_timer pr).
Definition with_reaper (pr : Proc) (rp : ReaperState) : Proc :=
  mkProc (pr_tty pr) (pr_sandboxed pr) (pr_hook pr) (pr_cap pr) (pr_output pr)
    (pr_completed_at pr) (pr_lifecycle pr) (pr_stdin pr) (pr_pumps pr) rp (pr_timer pr).
Definition with_timer (pr : Proc) (tm : TimerState) : Proc :=
  mkProc (pr_tty pr) (pr_sandboxed pr) (pr_hook pr) (pr_cap pr) (pr_output pr)
    (pr_completed_at pr) (pr_lifecycle pr) (pr_stdin pr) (pr_pumps pr) (pr_reaper pr) tm.
Definition with_pumps (pr : Proc) (n : nat) : Proc :=
  mkProc (pr_tty pr) (pr_sandboxed pr) (pr_hook pr) (pr_cap pr) (pr_output pr)
    (pr_completed_at pr) (pr_lifecycle pr) (pr_stdin pr) n (pr_reaper pr) (pr_timer pr).
Definition with_completed (pr : Proc) (now : Z) : Proc :=
  mkProc (pr_tty pr) (pr_sandboxed pr) (pr_hook pr) (pr_cap pr) (pr_output pr)
    (Some now) (pr_lifecycle pr) (pr_stdin pr) (pr_pumps pr) (pr_reaper pr) (pr_timer pr).
Definition with_stdin (pr : Proc) (held : bool) : Proc :=
  mkProc (pr_tty pr) (pr_sandboxed pr) (pr_hook pr) (pr_cap pr) (pr_output pr)
    (pr_completed_at pr) (pr_lifecycle pr) held (pr_pumps pr) (pr_reaper pr) (pr_timer pr).

(** Whether the root has exited, as a kill sees it under the locks it holds. *)
Definition root_exited (w : World) (p : nat) (tty : bool) (life : Lifecycle) : bool :=
  if tty then lf_exited life || pty_has_exited (w_session w p)
  else exited_unreaped (w_child w p).

(** [kill_pipe_root] on Linux, and [session.kill()]: what is sent, and the error. *)
Definition kill_root (w : World) (p : nat) (tty sandboxed : bool)
    : list Effect * option string :=
  if tty then ([KillSession p], None)
  else
    ((if sandboxed && is_some (ch_id (w_child w p)) then [KillDescendants p] else [])
       ++ [KillRoot p],
     ch_start_kill (w_child w p)).

Definition after_kill (hook : bool) (p : nat) : list Effect :=
  if hook then [RunHook p] else [].

(** One step of one of a process's tasks. A step that its task is not at does nothing. *)
Definition task_step (w : World) (now : Z) (p : nat) (t : Task) (pr : Proc)
    : Proc * list Effect :=
  let life := pr_lifecycle pr in
  match t with
  | Pump chunk =>
      match pr_pumps pr with
      | 0 => (pr, [])
      | S _ => (with_output pr (pump (pr_cap pr) chunk (pr_output pr)), [])
      end
  | PumpEnd => (with_pumps pr (Nat.pred (pr_pumps pr)), [])
  | ReapLook =>
      match pr_tty pr, pr_reaper pr with
      | false, RpLooking =>
          if lf_finished life then (with_reaper pr RpJoining, [])
          else if exited_unreaped (w_child w p) then (with_reaper pr RpObserved, [])
          else (pr, [])
      | _, _ => (pr, [])
      end
  | ReapWait answer =>
      match pr_reaper pr with
      | RpObserved =>
          match answer with
          | WaitStatus code signal =>
              (with_reaper (with_lifecycle pr (finish_wait code signal life)) RpJoining, [])
          | WaitPending => (with_reaper pr RpLooking, [])
          | WaitError => (with_reaper (with_lifecycle pr (finish_lost life)) RpJoining, [])
          end
      | _ => (pr, [])
      end
  | PtyWindow => if pr_tty pr then (with_lifecycle pr (set_exited life), []) else (pr, [])
  | PtyExit code =>
      match pr_tty pr, pr_reaper pr with
      | true, RpLooking =>
          let life :=
            match code with
            | Some code => finish_wait (Some code) None life
            | None => finish_lost life
            end in
          (with_reaper (with_lifecycle pr life) RpJoining, [])
      | _, _ => (pr, [])
      end
  | JoinOutput =>
      match pr_reaper pr, pr_pumps pr with
      | RpJoining, 0 => (with_reaper (with_output pr (set_eof (pr_output pr))) RpEof, [])
      | _, _ => (pr, [])
      end
  | Complete =>
      match pr_reaper pr with
      | RpEof => (with_reaper (with_completed pr now) RpDone, [])
      | _ => (pr, [])
      end
  | TimerFire =>
      match pr_timer pr with
      | TmSleeping =>
          if lf_finished life || root_exited w p (pr_tty pr) life
          then (with_timer pr TmDone, [])
          else
            (with_timer (with_lifecycle pr (note_kill IntentTimeout life)) TmFired,
             fst (kill_root w p (pr_tty pr) (pr_sandboxed pr)) ++ after_kill (pr_hook pr) p)
      | _ => (pr, [])
      end
  | TimerMark =>
      match pr_timer pr with
      | TmFired => (with_timer (with_output pr (set_timed_out (pr_output pr))) TmDone, [])
      | _ => (pr, [])
      end
  end.

Definition run_task (w : World) (now : Z) (p : nat) (t : Task) (r : Runner) : Runner :=
  with_procs r (alter (fun pr => fst (task_step w now p t pr)) p (rn_procs r)).

(** * Requests on a process *)

Definition missing (id : string) : ErrorBody :=
  error_body ProcessNotFound ("unknown process_id `" +:+ id +:+ "`").

Definition not_running : ErrorBody := error_body ProcessNotRunning "process is not running".

Definition stdin_closed : ErrorBody := error_body ProcessNotFound "stdin is closed".

(** The slot of a request, found after an eviction. *)
Definition find_slot (process_id : string) (r : Runner) : res Slot :=
  ok_or (missing process_id) (rn_inner r !! process_id).

Record RunnerProcessStatus := mkRunnerProcessStatus {
  rs_process_id : string;
  rs_state : ProcessState;
  rs_exit_code : option Z;
  rs_termination : option ProcessTermination;
  rs_signal : option ProcessSignal;
  rs_output_total : Z;
  rs_output_retained_from : Z;
  rs_eof : bool
}.

Definition slot_status (ps : list Proc) (process_id : string) (s : Slot)
    : RunnerProcessStatus :=
  let snap := lf_snapshot (pr_lifecycle (proc_at ps (sl_proc s))) in
  let buf := pr_output (proc_at ps (sl_proc s)) in
  {| rs_process_id := process_id; rs_state := sn_state snap;
     rs_exit_code := sn_exit_code snap; rs_termination := sn_termination snap;
     rs_signal := process_signal <$> sn_signal snap; rs_output_total := ob_total buf;
     rs_output_retained_from := ob_dropped buf; rs_eof := ob_eof buf |}.

(** The answer of the [process_status] tool, from the Runner's ([server/src/mcp.rs]). *)
Definition process_status_result (s : RunnerProcessStatus) (hint : option CoordinationHint)
    : ProcessStatusResult :=
  {| ps_process_id := rs_process_id s; ps_state := rs_state s; ps_exit_code := rs_exit_code s;
     ps_termination := rs_termination s; ps_signal := rs_signal s;
     ps_output_total := rs_output_total s;
     ps_output_retained_from := rs_output_retained_from s; ps_eof := rs_eof s;
     ps_lost_reason :=
       if bool_decide (0 < rs_output_retained_from s)%Z then Some RingOverflow else None;
     ps_coordination := hint |}.

Definition host_process_status (now : Z) (process_id : string) (r : Runner)
    : Runner * res RunnerProcessStatus :=
  let r := evict_completed now r in
  (r, slot ← find_slot process_id r; Ok (slot_status (rn_procs r) process_id slot)).

Definition read_host_process (now : Z) (process_id : string) (cursor : Z) (r : Runner)
    : Runner * res RunnerReadResult :=
  let r := evict_completed now r in
  (r, slot ← find_slot process_id r;
      read_output process_id cursor (pr_output (proc_at (rn_procs r) (sl_proc slot)))).

Definition host_workspace_of (now : Z) (process_id : string) (r : Runner)
    : Runner * option string :=
  let r := evict_completed now r in
  (r, sl_workspace_id <$> rn_inner r !! process_id).

Definition inventory_le (a b : string * RunnerProcessStatus) : Prop :=
  string_le (rs_process_id a.2) (rs_process_id b.2).

#[local] Instance inventory_le_dec : RelDecision inventory_le.
Proof. intros a b. unfold inventory_le. exact _. Defined.

Definition inventory (now : Z) (r : Runner)
    : Runner * list (string * RunnerProcessStatus) :=
  let r := evict_completed now r in
  (r, merge_sort inventory_le
        ((fun e : string * Slot =>
            (sl_workspace_id e.2, slot_status (rn_procs r) e.1 e.2))
           <$> hash_iter (rn_inner r))).

Inductive Recalled :=
  | NotReceived
  | RefusedStart
  | Held (workspace_id : string) (status : RunnerProcessStatus)
  | Dropped.

Definition recall (now : Z) (process_id : string) (r : Runner) : Runner * Recalled :=
  let r := evict_completed now r in
  (r, match rn_inner r !! process_id with
      | Some slot => Held (sl_workspace_id slot) (slot_status (rn_procs r) process_id slot)
      | None =>
          match mm_received (rn_memory r) !! process_id with
          | Some Executed => Dropped
          | Some Refused => RefusedStart
          | None => NotReceived
          end
      end).

Definition host_resize (w : World) (now : Z) (process_id : string) (rows cols : Z)
    (r : Runner) : Runner * res (Z * Z) :=
  if bool_decide (rows = 0%Z) || bool_decide (cols = 0%Z)
  then (r, Err (error_body InvalidCommand "rows and cols must be at least 1"))
  else
    let r := evict_completed now r in
    (r, slot ← find_slot process_id r;
        let snap := lf_snapshot (pr_lifecycle (proc_at (rn_procs r) (sl_proc slot))) in
        if bool_decide (sn_state snap <> PRunning) then Err not_running
        else
          match sl_io slot with
          | Pipe _ => Err (error_body ProcessNotTty "process is not attached to a PTY")
          | Released => Err not_running
          | Pty =>
              let session := w_session w (sl_proc slot) in
              if pty_has_exited session then Err not_running
              else
                match pty_resize session with
                | Some err => Err (error_body InvalidCommand ("PTY resize failed: " +:+ err))
                | None => Ok (rows, cols)
                end
          end).

(** Where [write_host_stdin] writes. *)
Inductive WriteTarget := WritePipe (p : nat) | WritePty (p : nat).

Definition write_target (now : Z) (process_id : string) (r : Runner)
    : Runner * res WriteTarget :=
  let r := evict_completed now r in
  (r, slot ← find_slot process_id r;
      match sl_io slot with
      | Pipe _ => Ok (WritePipe (sl_proc slot))
      | Pty => Ok (WritePty (sl_proc slot))
      | Released => Err stdin_closed
      end).

(** A pipe write takes the process's stdin and puts it back once it is written. *)
Definition take_stdin (p : nat) (r : Runner) : Runner * res unit :=
  if pr_stdin (proc_at (rn_procs r) p)
  then (with_procs r (alter (fun pr => with_stdin pr false) p (rn_procs r)), Ok tt)
  else (r, Err stdin_closed).

Definition put_stdin (p : nat) (io_error : option string) (r : Runner) : Runner * res unit :=
  (with_procs r (alter (fun pr => with_stdin pr true) p (rn_procs r)),
   match io_error with
   | Some err => Err (error_body InvalidPatch err)
   | None => Ok tt
   end).

(** * Kills *)

Definition request_kill (w : World) (s : Slot) (ps : list Proc)
    : list Proc * list Effect * res bool :=
  let p := sl_proc s in
  let life := pr_lifecycle (proc_at ps p) in
  let killed tty sandboxed :=
    if lf_finished life || root_exited w p tty life then (ps, [], Ok false)
    else
      let ps :=
        alter (fun pr => with_lifecycle pr (note_kill IntentTerminated (pr_lifecycle pr))) p ps
      in
      match kill_root w p tty sandboxed with
      | (sent, Some err) => (ps, sent, Err (error_body InvalidPatch err))
      | (sent, None) => (ps, sent ++ after_kill (sl_on_kill s) p, Ok true)
      end in
  match sl_io s with
  | Pipe sandboxed => killed false sandboxed
  | Pty => killed true false
  | Released => (ps, [], Ok false)
  end.

Definition kill_host (w : World) (now : Z) (process_id : string) (r : Runner)
    : Runner * list Effect * res unit :=
  let r := evict_completed now r in
  match find_slot process_id r with
  | Err e => (r, [], Err e)
  | Ok slot =>
      let '(ps, sent, killed) := request_kill w slot (rn_procs r) in
      (with_procs r ps, sent, (fun _ => tt) <$> killed)
  end.

(** [kill_host_workspace]'s loop over the slots, which an error ends. *)
Fixpoint kill_slots (w : World) (workspace_id : string) (slots : list Slot) (killed : Z)
    (ps : list Proc) : list Proc * list Effect * res Z :=
  match slots with
  | [] => (ps, [], Ok killed)
  | slot :: slots =>
      if bool_decide (sl_workspace_id slot <> workspace_id)
      then kill_slots w workspace_id slots killed ps
      else
        match request_kill w slot ps with
        | (ps, sent, Err e) => (ps, sent, Err e)
        | (ps, sent, Ok one) =>
            let '(ps, rest, n) :=
              kill_slots w workspace_id slots (if one then as_u32 (killed + 1) else killed) ps
            in (ps, sent ++ rest, n)
        end
  end.

Definition kill_host_workspace (w : World) (now : Z) (workspace_id : string) (r : Runner)
    : Runner * list Effect * res Z :=
  let r := evict_completed now r in
  let '(ps, sent, n) :=
    kill_slots w workspace_id (snd <$> hash_iter (rn_inner r)) 0 (rn_procs r) in
  (with_procs r ps, sent, n).

Fixpoint terminate_slots (w : World) (slots : list Slot) (ps : list Proc)
    : list Proc * list Effect * nat :=
  match slots with
  | [] => (ps, [], 0)
  | slot :: slots =>
      let unasked := is_none (lf_kill_intent (pr_lifecycle (proc_at ps (sl_proc slot)))) in
      let '(ps, sent, killed) := request_kill w slot ps in
      let '(ps, rest, n) := terminate_slots w slots ps in
      let counted := match killed with Ok one => one && unasked | Err _ => false end in
      (ps, sent ++ rest, if counted then S n else n)
  end.

Definition terminate_all (w : World) (now : Z) (r : Runner) : Runner * list Effect * Z :=
  let r := evict_completed now r in
  let '(ps, sent, n) := terminate_slots w (snd <$> hash_iter (rn_inner r)) (rn_procs r) in
  (with_procs r ps, sent, as_u32 (Z.of_nat n)).

Definition live_processes (now : Z) (r : Runner) : Runner * Z :=
  let r := evict_completed now r in
  (r, as_u32 (Z.of_nat (live_count (rn_procs r) (rn_inner r)))).

(** * Runs

    Every entry point and every step of a process's tasks holds the runner's locks while it
    changes anything, so a run is a sequence of them, in any order and at any times. *)
Inductive Op :=
  | OpSpawnBegin (require_exec : res unit) (process_id : string) (argv : list string)
  | OpReserve (process_id : string)
  | OpDropReservation (process_id : string)
  | OpSpawnEnd (process_id : string) (spawned : res Spawned)
  | OpTask (p : nat) (t : Task)
  | OpQuery                               (** any request that only reads, after an eviction *)
  | OpTakeStdin (p : nat)
  | OpPutStdin (p : nat) (io_error : option string)
  | OpKill (process_id : string)
  | OpKillWorkspace (workspace_id : string)
  | OpTerminateAll
  | OpAcknowledge (process_ids : list string)
  | OpNoteReceived (process_id : string)
  | OpKeep (keep : nat).

Record Moment := mkMoment { mo_now : Z; mo_world : World; mo_op : Op }.

(** A reservation is a value that only [reserve_slot] makes and [fill] or its drop consumes, so
    a spawn ends only for a [process_id] that is reserved. *)
Definition step (env : option string) (r : Runner) (m : Moment) : Runner :=
  let now := mo_now m in
  let w := mo_world m in
  match mo_op m with
  | OpSpawnBegin require_exec id argv => fst (spawn_begin env now require_exec id argv r)
  | OpReserve id => fst (reserve_slot env now id r)
  | OpDropReservation id => drop_reservation id r
  | OpSpawnEnd id spawned =>
      if bool_decide (id ∈ rn_reserved r) then fst (spawn_end now id spawned r) else r
  | OpTask p t => run_task w now p t r
  | OpQuery => evict_completed now r
  | OpTakeStdin p => fst (take_stdin p r)
  | OpPutStdin p io_error => fst (put_stdin p io_error r)
  | OpKill id => fst (fst (kill_host w now id r))
  | OpKillWorkspace ws => fst (fst (kill_host_workspace w now ws r))
  | OpTerminateAll => fst (fst (terminate_all w now r))
  | OpAcknowledge ids => acknowledge now ids r
  | OpNoteReceived id => note_received id r
  | OpKeep keep => keep_until_acknowledged keep r
  end.

Definition run (env : option string) (r : Runner) (ms : list Moment) : Runner :=
  foldl (step env) r ms.

End operations.

(** * How a process changes *)

Definition running_snapshot : LifecycleSnapshot := mkSnapshot PRunning None None None.

(** A lifecycle reports what ended it: CodeSpace's first kill, when there was one, and
    otherwise how the root was reaped. *)
Definition life_ok (life : Lifecycle) : Prop :=
  if lf_finished life then
    match lf_kill_intent life with
    | Some IntentTimeout => lf_snapshot life = mkSnapshot PExited None (Some TTimeout) None
    | Some IntentTerminated =>
        lf_snapshot life = mkSnapshot PExited None (Some TTerminated) None
    | None =>
        (exists code, lf_snapshot life = mkSnapshot PExited code (Some TExited) None) \/
        (exists n, lf_snapshot life = mkSnapshot PExited None (Some TSignaled) (Some n)) \/
        lf_snapshot life = mkSnapshot PExited None (Some TUnknown) None
    end
  else lf_snapshot life = running_snapshot.

Definition reaped (rp : ReaperState) : bool :=
  match rp with RpLooking | RpObserved => false | _ => true end.

Definition output_ended (rp : ReaperState) : bool :=
  match rp with RpEof | RpDone => true | _ => false end.

Record proc_ok (pr : Proc) : Prop := {
  ok_life : life_ok (pr_lifecycle pr);
  ok_finished : lf_finished (pr_lifecycle pr) = reaped (pr_reaper pr);
  ok_eof : ob_eof (pr_output pr) = output_ended (pr_reaper pr);
  ok_completed : is_some (pr_completed_at pr) = bool_decide (pr_reaper pr = RpDone);
  ok_pumps : output_ended (pr_reaper pr) = true -> pr_pumps pr = 0
}.

(** What no later step takes back. *)
Record proc_mono (a b : Proc) : Prop := {
  mono_completed t : pr_completed_at a = Some t -> pr_completed_at b = Some t;
  mono_eof : ob_eof (pr_output a) = true ->
    ob_eof (pr_output b) = true /\ ob_bytes (pr_output b) = ob_bytes (pr_output a) /\
    ob_total (pr_output b) = ob_total (pr_output a) /\
    ob_dropped (pr_output b) = ob_dropped (pr_output a);
  mono_finished : lf_finished (pr_lifecycle a) = true ->
    lf_finished (pr_lifecycle b) = true /\
    lf_snapshot (pr_lifecycle b) = lf_snapshot (pr_lifecycle a);
  mono_intent i : lf_kill_intent (pr_lifecycle a) = Some i ->
    lf_kill_intent (pr_lifecycle b) = Some i
}.

#[export] Instance proc_mono_preorder : PreOrder proc_mono.
Proof.
  split.
  - intros a. split; auto.
  - intros a b c [H1 H2 H3 H4] [J1 J2 J3 J4]. split; eauto.
    + intros He. destruct (H2 He) as (He' & ? & ? & ?).
      destruct (J2 He') as (? & ? & ? & ?). split_and!; congruence.
    + intros Hf. destruct (H3 Hf) as (Hf' & <-). auto.
Qed.

Lemma note_kill_ok i life : life_ok life -> lf_finished life = false -> life_ok (note_kill i life).
Proof.
  unfold life_ok, note_kill. intros Hl Hf. rewrite Hf in Hl.
  destruct (lf_kill_intent life); cbn; by rewrite Hf.
Qed.

Lemma note_kill_flags i life :
  lf_finished (note_kill i life) = lf_finished life /\
  lf_exited (note_kill i life) = lf_exited life /\
  lf_snapshot (note_kill i life) = lf_snapshot life /\
  lf_kill_intent (note_kill i life) = Some (default i (lf_kill_intent life)).
Proof. unfold note_kill. destruct (lf_kill_intent life) eqn:E; cbn; by rewrite ?E. Qed.

Lemma finish_wait_ok code signal life : life_ok life -> life_ok (finish_wait code signal life).
Proof.
  unfold finish_wait. destruct (lf_finished life) eqn:Hf; [done|]. intros _.
  unfold life_ok. cbn. destruct (lf_kill_intent life) as [[]|]; [done..|].
  destruct signal; cbn; eauto.
Qed.

Lemma finish_lost_ok life : life_ok life -> life_ok (finish_lost life).
Proof.
  unfold finish_lost. destruct (lf_finished life) eqn:Hf; [done|]. intros _.
  unfold life_ok. cbn. destruct (lf_kill_intent life) as [[]|]; auto.
Qed.

Lemma finish_flags code signal life :
  lf_finished (finish_wait code signal life) = true /\
  lf_finished (finish_lost life) = true /\
  lf_kill_intent (finish_wait code signal life) = lf_kill_intent life /\
  lf_kill_intent (finish_lost life) = lf_kill_intent life.
Proof. unfold finish_wait, finish_lost. destruct (lf_finished life) eqn:Hf; auto. Qed.

Lemma spawned_proc_ok sw : proc_ok (spawned_proc sw).
Proof. by split. Qed.

(** A kill records its intent; nothing else of the process changes. *)
Lemma with_note_kill_ok i pr :
  lf_finished (pr_lifecycle pr) = false -> proc_ok pr ->
  proc_ok (with_lifecycle pr (note_kill i (pr_lifecycle pr))) /\
  proc_mono pr (with_lifecycle pr (note_kill i (pr_lifecycle pr))).
Proof.
  intros Hf [H1 H2 H3 H4 H5]. destruct (note_kill_flags i (pr_lifecycle pr)) as (F1 & F2 & F3 & F4).
  split; split; cbn; try done.
  - by apply note_kill_ok.
  - by rewrite F1.
  - by rewrite Hf.
  - intros j Hj. by rewrite F4, Hj.
Qed.

Lemma pump_eof cap chunk out : ob_eof (pump cap chunk out) = ob_eof out.
Proof. unfold pump. by case_bool_decide. Qed.

Ltac proc_cases :=
  repeat (case_match; cbn; try done).

Lemma task_step_ok w now p t pr :
  proc_ok pr ->
  proc_ok (fst (task_step w now p t pr)) /\ proc_mono pr (fst (task_step w now p t pr)).
Proof.
  intros Hok. pose proof Hok as [H1 H2 H3 H4 H5].
  destruct (finish_flags None None (pr_lifecycle pr)) as (_ & Fl & _ & Kl).
  destruct t as [chunk| | |answer| |code| | | |]; cbn.
  - destruct (pr_pumps pr) eqn:Hp; cbn; [done|].
    assert (He : output_ended (pr_reaper pr) = false)
      by (destruct (output_ended _); [by specialize (H5 eq_refl)|done]).
    split; split; cbn; try done; rewrite ?pump_eof; intros; congruence.
  - split; split; cbn; try done. intros He. by rewrite H5.
  - proc_cases; split; try done; split; cbn; auto; intros; congruence.
  - destruct (pr_reaper pr) eqn:Hr; try done. cbn in *.
    destruct answer as [code signal| |]; cbn.
    + destruct (finish_flags code signal (pr_lifecycle pr)) as (Fw & _ & Kw & _).
      split; split; cbn; auto using finish_wait_ok; intros; congruence.
    + split; split; cbn; auto; intros; congruence.
    + split; split; cbn; auto using finish_lost_ok; intros; congruence.
  - destruct (pr_tty pr); cbn; [|done]. by split; split; cbn.
  - destruct (pr_tty pr), (pr_reaper pr) eqn:Hr; try done. cbn in *. destruct code as [code|].
    + destruct (finish_flags (Some code) None (pr_lifecycle pr)) as (Fw & _ & Kw & _).
      split; split; cbn; auto using finish_wait_ok; intros; congruence.
    + split; split; cbn; auto using finish_lost_ok; intros; congruence.
  - destruct (pr_reaper pr) eqn:Hr, (pr_pumps pr) eqn:Hp; done.
  - destruct (pr_reaper pr) eqn:Hr; try done. cbn in *.
    split; split; cbn; auto; intros; try congruence.
    match goal with H : pr_completed_at pr = Some _ |- _ => by rewrite H in H4 end.
  - destruct (pr_timer pr); try done.
    destruct (_ || _) eqn:E; cbn; [done|].
    apply orb_false_iff in E as [E _].
    destruct (with_note_kill_ok IntentTimeout pr E Hok) as [[] []]. by split; split.
  - by destruct (pr_timer pr).
Qed.

(** * The processes' states together *)

Definition procs_mono (ps qs : list Proc) : Prop :=
  forall p pr, ps !! p = Some pr -> exists pr', qs !! p = Some pr' /\ proc_mono pr pr'.

#[export] Instance procs_mono_preorder : PreOrder procs_mono.
Proof.
  split.
  - intros ps p pr Hp. exists pr. by split.
  - intros a b c H1 H2 p pr Hp. destruct (H1 p pr Hp) as (pr' & Hp' & M1).
    destruct (H2 p pr' Hp') as (pr'' & ? & M2). exists pr''. split; [done|by etrans].
Qed.

Lemma procs_mono_at ps qs p :
  procs_mono ps qs -> p < length ps ->
  p < length qs /\ proc_mono (proc_at ps p) (proc_at qs p).
Proof.
  intros H Hp. apply lookup_lt_is_Some in Hp as [pr Hpr].
  destruct (H p pr Hpr) as (pr' & Hpr' & M). unfold proc_at. rewrite Hpr, Hpr'.
  split; [by eapply lookup_lt_Some|done].
Qed.

Lemma procs_mono_app ps qs : procs_mono ps (ps ++ qs).
Proof. intros p pr Hp. exists pr. split; [by apply lookup_app_l_Some|done]. Qed.

Lemma alter_ok (f : Proc -> Proc) p ps :
  Forall proc_ok ps ->
  (forall pr, ps !! p = Some pr -> proc_ok pr -> proc_ok (f pr) /\ proc_mono pr (f pr)) ->
  Forall proc_ok (alter f p ps) /\ procs_mono ps (alter f p ps).
Proof.
  intros Hall Hf. split.
  - apply Forall_lookup. intros q pr Hq. destruct (decide (q = p)) as [->|Hn].
    + rewrite list_lookup_alter_eq in Hq. apply fmap_Some in Hq as (pr0 & Hq & ->).
      apply Hf; [done|]. by eapply Forall_lookup.
    + rewrite list_lookup_alter_ne in Hq by done. by eapply Forall_lookup.
  - intros q pr Hq. destruct (decide (q = p)) as [->|Hn].
    + exists (f pr). rewrite list_lookup_alter_eq, Hq. split; [done|].
      apply Hf; [done|]. by eapply Forall_lookup.
    + exists pr. by rewrite list_lookup_alter_ne.
Qed.

Lemma proc_at_ok ps p : Forall proc_ok ps -> proc_ok (proc_at ps p).
Proof.
  intros Hall. unfold proc_at. destruct (ps !! p) eqn:E; cbn.
  - by eapply Forall_lookup.
  - by split.
Qed.

(** An ended process's output has ended. *)
Lemma completed_not_live ps s :
  Forall proc_ok ps -> is_some (completed_at ps s) = true ->
  is_live ps s = false /\ lf_finished (pr_lifecycle (proc_at ps (sl_proc s))) = true.
Proof.
  intros Hall Hc. destruct (proc_at_ok ps (sl_proc s) Hall) as [_ H2 H3 H4 _].
  unfold completed_at in Hc. rewrite Hc in H4. symmetry in H4.
  apply bool_decide_eq_true in H4. unfold is_live. by rewrite H2, H3, H4.
Qed.

(** * Slots *)

Record slot_ok (ps : list Proc) (s : Slot) : Prop := {
  so_proc : sl_proc s < length ps;
  so_released : is_released s = true -> is_some (completed_at ps s) = true;
  so_acknowledged : is_some (sl_acknowledged s) = true -> is_some (completed_at ps s) = true
}.

Lemma completed_mono ps qs s :
  procs_mono ps qs -> sl_proc s < length ps ->
  is_some (completed_at ps s) = true -> completed_at qs s = completed_at ps s.
Proof.
  intros H Hp Hc. destruct (procs_mono_at _ _ _ H Hp) as [_ [M _ _ _]].
  unfold completed_at in *. destruct (pr_completed_at (proc_at ps (sl_proc s))); [|done].
  by apply M.
Qed.

Lemma slot_ok_mono ps qs s : procs_mono ps qs -> slot_ok ps s -> slot_ok qs s.
Proof.
  intros H [H1 H2 H3]. split.
  - by apply (procs_mono_at _ _ _ H H1).
  - intros Hr. rewrite (completed_mono ps qs) by auto. auto.
  - intros Ha. rewrite (completed_mono ps qs) by auto. auto.
Qed.

Record runner_ok (r : Runner) : Prop := {
  rk_procs : Forall proc_ok (rn_procs r);
  rk_slots id s : rn_inner r !! id = Some s -> slot_ok (rn_procs r) s
}.

(** The same process in the same workspace. *)
Definition same_process (s t : Slot) : Prop :=
  sl_proc s = sl_proc t /\ sl_workspace_id s = sl_workspace_id t.

#[export] Instance same_process_preorder : PreOrder same_process.
Proof. split; [by split|]. intros a b c [H1 H2] [H3 H4]. split; congruence. Qed.

(** * Eviction *)

(** What an eviction may do to a slot. *)
Inductive evicted (ps : list Proc) (keep : option nat) (s : Slot) : option Slot -> Prop :=
  | ev_kept : evicted ps keep s (Some s)
  | ev_released :
      is_some (completed_at ps s) = true -> is_some keep = true ->
      sl_acknowledged s = None -> evicted ps keep s (Some (release_handle s))
  | ev_gone : is_some (completed_at ps s) = true -> evicted ps keep s None.

Definition evicted_map (ps : list Proc) (keep : option nat) (m m' : gmap string Slot) : Prop :=
  forall id,
    match m !! id with
    | Some s => evicted ps keep s (m' !! id)
    | None => m' !! id = None
    end.

Lemma evicted_map_refl ps keep m : evicted_map ps keep m m.
Proof. intros id. destruct (m !! id); constructor. Qed.

Lemma evicted_map_trans ps keep a b c :
  evicted_map ps keep a b -> evicted_map ps keep b c -> evicted_map ps keep a c.
Proof.
  intros H1 H2 id. specialize (H1 id). specialize (H2 id).
  destruct (a !! id) as [s|]; [|by rewrite H1 in H2].
  inversion H1 as [E|Hc Hk Ha E|Hc E]; rewrite <- E in H2; [done|..].
  - inversion H2; first [by apply (ev_released ps keep s) | by apply ev_gone].
  - rewrite H2. by constructor.
Qed.

Lemma evicted_map_delete ps keep m id s :
  m !! id = Some s -> is_some (completed_at ps s) = true ->
  evicted_map ps keep m (delete id m).
Proof.
  intros Hs Hc j. destruct (decide (j = id)) as [->|Hn].
  - rewrite Hs, lookup_delete_eq. by constructor.
  - rewrite lookup_delete_ne by done. destruct (m !! j); constructor.
Qed.

Section evictions.
Context `{Order : HashOrder}.

Lemma evict_one_evicts ps keep m id s :
  m !! id = Some s -> is_some (completed_at ps s) = true ->
  evicted_map ps keep m (evict_one keep m id).
Proof.
  intros Hs Hc. unfold evict_one. rewrite Hs.
  destruct (is_some keep && _) eqn:E; [|by eapply evicted_map_delete].
  apply andb_true_iff in E as [Hk Ha]. intros j. destruct (decide (j = id)) as [->|Hn].
  - rewrite Hs, lookup_insert_eq. constructor; [done..|].
    by destruct (sl_acknowledged s).
  - rewrite lookup_insert_ne by done. destruct (m !! j); constructor.
Qed.

Lemma evict_one_other keep m id j : j <> id -> evict_one keep m id !! j = m !! j.
Proof.
  intros Hn. unfold evict_one. destruct (m !! id) as [s|]; [destruct (_ && _)|].
  - by rewrite lookup_insert_ne.
  - by rewrite lookup_delete_ne.
  - by rewrite lookup_delete_ne.
Qed.

Lemma hash_iter_elem (m : gmap string Slot) id s :
  (id, s) ∈ hash_iter m <-> m !! id = Some s.
Proof. rewrite hash_iter_perm. apply elem_of_map_to_list. Qed.

Lemma hash_iter_nodup (m : gmap string Slot) : NoDup (hash_iter m).*1.
Proof. rewrite hash_iter_perm. apply NoDup_fst_map_to_list. Qed.

Lemma ended_slots_elem ps P m id at_ :
  (id, at_) ∈ ended_slots ps P m <->
  exists s, m !! id = Some s /\ P s = true /\ completed_at ps s = Some at_.
Proof.
  unfold ended_slots. rewrite list_elem_of_omap. split.
  - intros ([j s] & Hin & He). cbn in He. destruct (P s) eqn:HP; [|done].
    apply fmap_Some in He as (t & Ht & [= -> ->]). apply hash_iter_elem in Hin. eauto.
  - intros (s & Hs & HP & Hc). exists (id, s). cbn. rewrite HP, Hc. split; [|done].
    by apply hash_iter_elem.
Qed.

Lemma omap_fst_nodup {A B} (f : string * A -> option (string * B)) (l : list (string * A)) :
  (forall x y, f x = Some y -> y.1 = x.1) -> NoDup l.*1 -> NoDup (omap f l).*1.
Proof.
  intros Hf. induction l as [|x l IH]; cbn; [done|]. intros [Hx Hl]%NoDup_cons.
  destruct (f x) as [y|] eqn:E; cbn; [|auto]. apply NoDup_cons. split; [|auto].
  rewrite (Hf _ _ E). intros (z & Hz & Hin)%list_elem_of_fmap.
  apply list_elem_of_omap in Hin as (x' & Hx' & E'). apply Hx.
  apply list_elem_of_fmap. exists x'. split; [|done]. rewrite Hz. by apply Hf.
Qed.

Lemma ended_slots_nodup ps P m : NoDup (ended_slots ps P m).*1.
Proof.
  apply omap_fst_nodup; [|apply hash_iter_nodup].
  intros [j s] y. cbn. destruct (P s); [|done]. intros (t & _ & ->)%fmap_Some. done.
Qed.

Lemma by_time_perm l : by_time l ≡ₚ l.
Proof. apply merge_sort_Permutation. Qed.

Lemma by_time_sorted l : StronglySorted no_later (by_time l).
Proof.
  apply StronglySorted_merge_sort; unfold no_later.
  - intros a b c ? ?. lia.
  - intros a b. lia.
Qed.

(** The loop decides each listed process alone. *)
Lemma evict_ended_other now ttl keep over index l m id :
  id ∉ l.*1 -> evict_ended now ttl keep over index l m !! id = m !! id.
Proof.
  revert index m. induction l as [|[j at_] l IH]; intros index m Hn; [done|]. cbn.
  apply not_elem_of_cons in Hn as [Hj Hl]. rewrite IH by done.
  destruct (_ && _); [done|]. by apply evict_one_other.
Qed.

Lemma evict_ended_at now ttl keep over index l m i id at_ :
  NoDup l.*1 -> l !! i = Some (id, at_) ->
  evict_ended now ttl keep over index l m !! id =
    if bool_decide (over <= index + i) && bool_decide (saturating_sub now at_ <= ttl)%Z
    then m !! id else evict_one keep m id !! id.
Proof.
  revert index m i. induction l as [|[j a] l IH]; intros index m i Hnd Hi; [done|].
  cbn in Hnd. apply NoDup_cons in Hnd as [Hj Hnd]. cbn [evict_ended].
  destruct i as [|i]; cbn in Hi.
  - simplify_eq. rewrite evict_ended_other by done. rewrite Nat.add_0_r.
    by destruct (_ && _).
  - rewrite (IH (S index) _ i) by done. rewrite <- Nat.add_succ_comm.
    assert (Hne : id <> j).
    { intros ->. apply Hj. apply list_elem_of_fmap. exists (j, at_).
      split; [done|]. by eapply list_elem_of_lookup_2. }
    assert (Ho : forall m', m' !! id = m !! id ->
                   evict_one keep m' id !! id = evict_one keep m id !! id).
    { intros m' E. unfold evict_one. rewrite E. destruct (m !! id); [destruct (_ && _)|].
      all: by rewrite ?lookup_insert_eq, ?lookup_delete_eq. }
    destruct (bool_decide (over <= index) && _).
    + done.
    + rewrite evict_one_other by done. destruct (_ && _); [done|].
      apply Ho. by rewrite evict_one_other.
Qed.

Lemma evict_ended_evicts ps now ttl keep over index l m :
  NoDup l.*1 ->
  (forall id at_, (id, at_) ∈ l -> exists s, m !! id = Some s /\ completed_at ps s = Some at_) ->
  evicted_map ps keep m (evict_ended now ttl keep over index l m).
Proof.
  intros Hnd Hl id. destruct (decide (id ∈ l.*1)) as [Hin|Hn].
  - apply list_elem_of_fmap in Hin as ([j at_] & -> & Hin). cbn.
    destruct (Hl _ _ Hin) as (s & Hs & Hc). apply list_elem_of_lookup_1 in Hin as [i Hi].
    rewrite (evict_ended_at _ _ _ _ _ _ _ i j at_) by done.
    destruct (_ && _).
    + rewrite Hs. constructor.
    + apply (evict_one_evicts ps keep m j s Hs). by rewrite Hc.
  - rewrite evict_ended_other by done. destruct (m !! id); constructor.
Qed.

Lemma drop_oldest_lookup n l m id :
  drop_oldest n l m !! id = if bool_decide (id ∈ (take n l).*1) then None else m !! id.
Proof.
  unfold drop_oldest. revert m. induction (take n l) as [|[j a] l' IH]; intros m; [done|].
  cbn. rewrite IH. destruct (decide (id = j)) as [->|Hn].
  - rewrite lookup_delete_eq, (bool_decide_eq_true_2 (j ∈ j :: _)) by left.
    by case_bool_decide.
  - rewrite lookup_delete_ne by done.
    do 2 case_bool_decide; set_solver.
Qed.

(** The three phases of an eviction. *)
Definition ended_of (r : Runner) : list (string * Z) :=
  by_time (ended_slots (rn_procs r) (fun s => negb (is_released s)) (rn_inner r)).

Definition phase1 (now : Z) (r : Runner) : gmap string Slot :=
  evict_ended now (rt_ttl (rn_retention r)) (mm_keep (rn_memory r))
    (length (ended_of r) - rt_max_completed (rn_retention r)) 0 (ended_of r) (rn_inner r).

Definition phase2 (now : Z) (r : Runner) : gmap string Slot :=
  filter (fun e : string * Slot => expired now (rt_ttl (rn_retention r)) e.2 = false)
    (phase1 now r).

Definition released_of (now : Z) (r : Runner) : list (string * Z) :=
  ended_slots (rn_procs r) is_released (phase2 now r).

Lemma evict_completed_phases now r :
  rn_inner (evict_completed now r) =
    match mm_keep (rn_memory r) with
    | None => phase1 now r
    | Some keep =>
        drop_oldest (length (released_of now r) - keep) (by_time (released_of now r))
          (phase2 now r)
    end.
Proof.
  unfold evict_completed. fold (ended_of r). fold (phase1 now r). fold (phase2 now r).
  fold (released_of now r). destruct (mm_keep (rn_memory r)) as [keep|] eqn:Hk; cbn;
    [|by unfold phase1; rewrite Hk].
  unfold released_of, phase2, phase1 in *. rewrite Hk.
  case_bool_decide; [|done]. cbn. by replace (_ - keep) with 0 by lia.
Qed.

Lemma evict_completed_frame now r :
  rn_reserved (evict_completed now r) = rn_reserved r /\
  rn_memory (evict_completed now r) = rn_memory r /\
  rn_max_processes (evict_completed now r) = rn_max_processes r /\
  rn_retention (evict_completed now r) = rn_retention r /\
  rn_procs (evict_completed now r) = rn_procs r.
Proof.
  unfold evict_completed. destruct (mm_keep (rn_memory r)); [case_bool_decide|]; done.
Qed.

Lemma ended_of_elem r id at_ :
  (id, at_) ∈ ended_of r <->
  exists s, rn_inner r !! id = Some s /\ is_released s = false /\
            completed_at (rn_procs r) s = Some at_.
Proof.
  unfold ended_of. rewrite by_time_perm, ended_slots_elem. by setoid_rewrite negb_true_iff.
Qed.

Lemma ended_of_nodup r : NoDup (ended_of r).*1.
Proof. unfold ended_of. rewrite by_time_perm. apply ended_slots_nodup. Qed.

Lemma phase1_evicts now r :
  evicted_map (rn_procs r) (mm_keep (rn_memory r)) (rn_inner r) (phase1 now r).
Proof.
  apply evict_ended_evicts; [apply ended_of_nodup|].
  intros id at_ (s & Hs & _ & Hc)%ended_of_elem. eauto.
Qed.

Lemma phase2_evicts now r :
  runner_ok r ->
  evicted_map (rn_procs r) (mm_keep (rn_memory r)) (rn_inner r) (phase2 now r).
Proof.
  intros [Hp Hs]. eapply evicted_map_trans; [apply (phase1_evicts now r)|].
  intros id. unfold phase2. rewrite map_lookup_filter.
  pose proof (phase1_evicts now r id) as H1. destruct (rn_inner r !! id) as [s|] eqn:E.
  - destruct (phase1 now r !! id) as [s'|] eqn:E'; cbn; [|done].
    case_guard as Hg; cbn; [constructor|]. apply ev_gone.
    apply not_false_is_true in Hg. unfold expired in Hg. apply andb_true_iff in Hg as [Hr _].
    inversion H1; subst; [|done]. by apply (Hs id s' E).
  - by rewrite H1.
Qed.

Lemma evict_completed_evicts now r :
  runner_ok r ->
  evicted_map (rn_procs r) (mm_keep (rn_memory r)) (rn_inner r)
    (rn_inner (evict_completed now r)).
Proof.
  intros Hok. rewrite evict_completed_phases.
  destruct (mm_keep (rn_memory r)) as [keep|] eqn:Hk.
  - rewrite <- Hk. eapply evicted_map_trans; [by apply (phase2_evicts now r)|].
    intros id. rewrite drop_oldest_lookup. destruct (phase2 now r !! id) as [s|] eqn:E.
    + case_bool_decide as Hin; [|constructor]. apply ev_gone.
      apply list_elem_of_fmap in Hin as ([j a] & -> & Hin). cbn in E.
      assert (Hin' : (j, a) ∈ released_of now r).
      { rewrite <- (by_time_perm (released_of now r)).
        rewrite <- (take_drop (length (released_of now r) - keep)
                      (by_time (released_of now r))).
        apply elem_of_app. by left. }
      apply ended_slots_elem in Hin' as (s' & Hs' & _ & Hc). simplify_eq. by rewrite Hc.
    + by case_bool_decide.
  - rewrite <- Hk. apply phase1_evicts.
Qed.

(** An eviction keeps the invariant, and every process that has not ended. *)
Lemma evicted_slot_ok ps keep s s' :
  slot_ok ps s -> evicted ps keep s (Some s') ->
  slot_ok ps s' /\ sl_proc s' = sl_proc s /\ sl_workspace_id s' = sl_workspace_id s /\
  sl_acknowledged s' = sl_acknowledged s.
Proof.
  intros [H1 H2 H3] He. inversion He; subst; [done|]. by repeat split.
Qed.

Lemma evict_completed_ok now r : runner_ok r -> runner_ok (evict_completed now r).
Proof.
  intros Hok. destruct (evict_completed_frame now r) as (_ & _ & _ & _ & Hps).
  pose proof Hok as [Hp Hs].
  split; rewrite Hps; [done|]. intros id s' Hs'.
  pose proof (evict_completed_evicts now r Hok id) as He. rewrite Hs' in He.
  destruct (rn_inner r !! id) as [s|] eqn:E; [|done].
  by destruct (evicted_slot_ok _ _ s s' (Hs id s E) He) as [? _].
Qed.

Lemma evict_keeps_running now r id s :
  runner_ok r -> rn_inner r !! id = Some s -> completed_at (rn_procs r) s = None ->
  rn_inner (evict_completed now r) !! id = Some s.
Proof.
  intros Hok Hs Hc. pose proof (evict_completed_evicts now r Hok id) as He.
  rewrite Hs in He. inversion He as [E|Hn _ _ E|Hn E]; [done|..]; by rewrite Hc in Hn.
Qed.

Lemma evict_from now r id s' :
  runner_ok r -> rn_inner (evict_completed now r) !! id = Some s' ->
  exists s, rn_inner r !! id = Some s /\ evicted (rn_procs r) (mm_keep (rn_memory r)) s (Some s').
Proof.
  intros Hok Hs'. pose proof (evict_completed_evicts now r Hok id) as He.
  rewrite Hs' in He. destruct (rn_inner r !! id) as [s|]; [eauto|done].
Qed.

Lemma inner_phase1 now r id s :
  rn_inner (evict_completed now r) !! id = Some s -> phase1 now r !! id = Some s.
Proof.
  rewrite evict_completed_phases. destruct (mm_keep (rn_memory r)); [|done].
  rewrite drop_oldest_lookup. case_bool_decide; [done|]. unfold phase2.
  by intros [? _]%map_lookup_filter_Some.
Qed.

(** The ended processes whose handles an eviction keeps are recent, and the newest. *)
Lemma ended_after_eviction now r id at_ :
  (id, at_) ∈ ended_of (evict_completed now r) ->
  (saturating_sub now at_ <= rt_ttl (rn_retention r))%Z /\
  (id, at_) ∈ drop (length (ended_of r) - rt_max_completed (rn_retention r)) (ended_of r).
Proof.
  destruct (evict_completed_frame now r) as (_ & _ & _ & _ & Hps).
  intros (s & Hs & Hr & Hc)%ended_of_elem. rewrite Hps in Hc.
  apply inner_phase1 in Hs. pose proof (phase1_evicts now r id) as He. rewrite Hs in He.
  destruct (rn_inner r !! id) as [s0|] eqn:E0; [|done].
  assert (s0 = s) as -> by (inversion He; subst; [done|by cbn in Hr]).
  assert (Hin : (id, at_) ∈ ended_of r) by (apply ended_of_elem; eauto).
  pose proof Hin as [i Hi]%list_elem_of_lookup_1.
  unfold phase1 in Hs. rewrite (evict_ended_at _ _ _ _ _ _ _ i id at_) in Hs
    by (done || apply ended_of_nodup).
  destruct (_ && _) eqn:Hb.
  - apply andb_true_iff in Hb as [Hb1%bool_decide_eq_true Hb2%bool_decide_eq_true].
    split; [done|]. apply list_elem_of_lookup.
    exists (i - (length (ended_of r) - rt_max_completed (rn_retention r))).
    rewrite lookup_drop. by rewrite Nat.add_comm, Nat.sub_add by lia.
  - exfalso. unfold evict_one in Hs. rewrite E0 in Hs.
    destruct (is_some _ && _).
    + rewrite lookup_insert_eq in Hs. injection Hs as Hs. by rewrite <- Hs in Hr.
    + by rewrite lookup_delete_eq in Hs.
Qed.

Lemma nodup_incl_length {A} (l k : list A) :
  NoDup l -> (forall x, x ∈ l -> x ∈ k) -> length l <= length k.
Proof. intros Hl Hi. apply submseteq_length. by apply NoDup_submseteq. Qed.

Lemma ended_after_eviction_length now r :
  length (ended_of (evict_completed now r)) <= rt_max_completed (rn_retention r).
Proof.
  etrans; [apply (nodup_incl_length _
    (drop (length (ended_of r) - rt_max_completed (rn_retention r)) (ended_of r)))|].
  - eapply NoDup_fmap_1. apply ended_of_nodup.
  - intros [id at_] Hin. by apply ended_after_eviction in Hin as [_ ?].
  - rewrite length_drop. lia.
Qed.

(** The released processes an eviction keeps are the newest. *)
Lemma released_after_eviction now r keep :
  mm_keep (rn_memory r) = Some keep ->
  ended_slots (rn_procs r) is_released (rn_inner (evict_completed now r)) ≡ₚ
    drop (length (released_of now r) - keep) (by_time (released_of now r)).
Proof.
  intros Hk. set (n := length (released_of now r) - keep).
  assert (Hnd : NoDup (by_time (released_of now r)).*1)
    by (rewrite by_time_perm; apply ended_slots_nodup).
  rewrite <- (take_drop n (by_time (released_of now r))) in Hnd.
  rewrite fmap_app in Hnd. apply NoDup_app in Hnd as (_ & Hdis & Hnd).
  apply list.NoDup_Permutation.
  - eapply NoDup_fmap_1. apply ended_slots_nodup.
  - by eapply NoDup_fmap_1.
  - intros [id at_]. rewrite ended_slots_elem, evict_completed_phases, Hk.
    fold n. setoid_rewrite drop_oldest_lookup.
    assert (Hmem : (id, at_) ∈ take n (by_time (released_of now r)) \/
                   (id, at_) ∈ drop n (by_time (released_of now r)) <->
                   exists s, phase2 now r !! id = Some s /\ is_released s = true /\
                             completed_at (rn_procs r) s = Some at_).
    { rewrite <- elem_of_app, take_drop, by_time_perm. apply ended_slots_elem. }
    split.
    + intros (s & Hs & Hr & Hc). case_bool_decide as Hn; [done|].
      destruct Hmem as [_ Hmem]. destruct Hmem as [Ht|]; [eauto| |done].
      exfalso. apply Hn. apply list_elem_of_fmap. by exists (id, at_).
    + intros Hd. destruct Hmem as [Hmem _]. destruct Hmem as (s & Hs & Hr & Hc); [auto|].
      exists s. case_bool_decide as Hn; [|done]. exfalso. apply (Hdis id Hn).
      apply list_elem_of_fmap. by exists (id, at_).
Qed.

(** An unacknowledged ended process is dropped only beyond the [keep] newest. *)
Lemma unacknowledged_dropped now r keep id s :
  runner_ok r -> mm_keep (rn_memory r) = Some keep ->
  rn_inner r !! id = Some s -> sl_acknowledged s = None ->
  rn_inner (evict_completed now r) !! id = None ->
  exists at_, completed_at (rn_procs r) s = Some at_ /\
    length (ended_slots (rn_procs r) is_released (rn_inner (evict_completed now r))) = keep /\
    forall id' at', (id', at') ∈
      ended_slots (rn_procs r) is_released (rn_inner (evict_completed now r)) ->
      (at_ <= at')%Z.
Proof.
  intros Hok Hk Hs Ha Hgone. set (n := length (released_of now r) - keep).
  pose proof (phase1_evicts now r id) as H1. rewrite Hs in H1.
  assert (exists s2, phase2 now r !! id = Some s2 /\ sl_proc s2 = sl_proc s) as (s2 & Hs2 & Hp2).
  { assert (exists s1, phase1 now r !! id = Some s1 /\ sl_proc s1 = sl_proc s /\
              sl_acknowledged s1 = None) as (s1 & Hs1 & Hp1 & Ha1).
    { inversion H1 as [E|_ _ _ E|Hc E]; [eauto..|]. exfalso.
      destruct (decide (id ∈ (ended_of r).*1)) as [Hin|Hn].
      - apply list_elem_of_fmap in Hin as ([j a] & -> & [i Hi]%list_elem_of_lookup_1).
        cbn in *. unfold phase1 in E.
        rewrite (evict_ended_at _ _ _ _ _ _ _ i j a) in E by (done || apply ended_of_nodup).
        unfold evict_one in E. rewrite Hs, Hk, Ha in E. cbn in E.
        rewrite lookup_insert_eq in E. by destruct (_ && _).
      - unfold phase1 in E. by rewrite evict_ended_other, Hs in E. }
    exists s1. split; [|done]. unfold phase2. apply map_lookup_filter_Some.
    split; [done|]. unfold expired. cbn. by rewrite Ha1, andb_false_r. }
  rewrite evict_completed_phases, Hk, drop_oldest_lookup, Hs2 in Hgone.
  fold n in Hgone. case_bool_decide as Hin; [|done].
  apply list_elem_of_fmap in Hin as ([j at_] & -> & Hin). cbn in *.
  assert (Hrel : (j, at_) ∈ released_of now r).
  { rewrite <- (by_time_perm (released_of now r)), <- (take_drop n (by_time _)).
    apply elem_of_app. by left. }
  apply ended_slots_elem in Hrel as (s2' & Hs2' & _ & Hc). simplify_eq.
  exists at_. split; [by unfold completed_at in *; rewrite <- Hp2|]. split.
  - rewrite (released_after_eviction now r keep) by done.
    rewrite length_drop, (Permutation_length (by_time_perm (released_of now r))).
    assert (0 < n); [|unfold n in *; lia].
    destruct n; [by apply not_elem_of_nil in Hin|lia].
  - intros id' at'. rewrite (released_after_eviction now r keep) by done. fold n.
    intros Hd. pose proof (by_time_sorted (released_of now r)) as Hsort.
    rewrite <- (take_drop n (by_time (released_of now r))) in Hsort.
    exact (StronglySorted_app_1_elem_of no_later _ _ (j, at_) (id', at') Hsort Hin Hd).
Qed.

End evictions.

(** * Every step keeps the invariant *)

Section steps.
Context `{Order : HashOrder}.

Lemma with_procs_ok r ps :
  runner_ok r -> Forall proc_ok ps -> procs_mono (rn_procs r) ps -> runner_ok (with_procs r ps).
Proof.
  intros [Hp Hs] Hps Hm. split; cbn; [done|]. intros id s Hid.
  eapply slot_ok_mono; [done|]. eauto.
Qed.

Lemma request_kill_ok w s ps :
  Forall proc_ok ps ->
  Forall proc_ok (request_kill w s ps).1.1 /\ procs_mono ps (request_kill w s ps).1.1.
Proof.
  intros Hall. unfold request_kill.
  assert (Hk : forall tty, lf_finished (pr_lifecycle (proc_at ps (sl_proc s))) ||
                root_exited w (sl_proc s) tty (pr_lifecycle (proc_at ps (sl_proc s))) = false ->
              let qs := alter (fun pr => with_lifecycle pr
                          (note_kill IntentTerminated (pr_lifecycle pr))) (sl_proc s) ps in
              Forall proc_ok qs /\ procs_mono ps qs).
  { intros tty [Hf _]%orb_false_iff. apply alter_ok; [done|]. intros pr Hpr Hok.
    unfold proc_at in Hf. rewrite Hpr in Hf. by apply with_note_kill_ok. }
  destruct (sl_io s); cbn zeta; [..|done]; destruct (_ || _) eqn:E; try done;
    destruct (kill_root _ _ _ _) as [sent [err|]]; by eapply Hk.
Qed.

Lemma kill_slots_ok w ws slots n ps :
  Forall proc_ok ps ->
  Forall proc_ok (kill_slots w ws slots n ps).1.1 /\
  procs_mono ps (kill_slots w ws slots n ps).1.1.
Proof.
  revert n ps. induction slots as [|s slots IH]; intros n ps Hall; cbn; [done|].
  case_bool_decide; [by apply IH|].
  destruct (request_kill_ok w s ps Hall) as [H1 H2].
  destruct (request_kill w s ps) as [[qs sent] [one|e]]; cbn in *; [|done].
  destruct (IH (if one then as_u32 (n + 1) else n) qs H1) as [H3 H4].
  destruct (kill_slots w ws slots _ qs) as [[rs rest] k]. cbn in *. split; [done|by etrans].
Qed.

Lemma terminate_slots_ok w slots ps :
  Forall proc_ok ps ->
  Forall proc_ok (terminate_slots w slots ps).1.1 /\
  procs_mono ps (terminate_slots w slots ps).1.1.
Proof.
  revert ps. induction slots as [|s slots IH]; intros ps Hall; cbn; [done|].
  destruct (request_kill_ok w s ps Hall) as [H1 H2].
  destruct (request_kill w s ps) as [[qs sent] killed]. cbn in *.
  destruct (IH qs H1) as [H3 H4].
  destruct (terminate_slots w slots qs) as [[rs rest] k]. cbn in *. split; [done|by etrans].
Qed.

Lemma evict_completed_procs now r : rn_procs (evict_completed now r) = rn_procs r.
Proof. apply evict_completed_frame. Qed.

Lemma acknowledge_one_ok now ps m id :
  (forall j s, m !! j = Some s -> slot_ok ps s) ->
  (forall j s, acknowledge_one now ps m id !! j = Some s -> slot_ok ps s) /\
  (forall j s, acknowledge_one now ps m id !! j = Some s ->
    exists s0, m !! j = Some s0 /\ same_process s0 s).
Proof.
  intros Hm.
  assert (Hsame : forall j s, m !! j = Some s -> exists s0, m !! j = Some s0 /\ same_process s0 s)
    by (intros j s; exists s; by split).
  unfold acknowledge_one. destruct (m !! id) as [s0|] eqn:E; [|done].
  destruct (_ && _) eqn:Hb; [|done]. apply andb_true_iff in Hb as [_ Hc]. split.
  - intros j s [[-> <-]|[_ Hs]]%lookup_insert_Some; [|by eapply Hm].
    destruct (Hm _ _ E) as [H1 H2 H3]. by split.
  - intros j s [[-> <-]|[_ Hs]]%lookup_insert_Some; [|by apply Hsame]. by exists s0.
Qed.

Lemma acknowledge_map_ok now ps ids m :
  (forall j s, m !! j = Some s -> slot_ok ps s) ->
  (forall j s, foldl (acknowledge_one now ps) m ids !! j = Some s -> slot_ok ps s) /\
  (forall j s, foldl (acknowledge_one now ps) m ids !! j = Some s ->
    exists s0, m !! j = Some s0 /\ same_process s0 s).
Proof.
  revert m. induction ids as [|id ids IH]; intros m Hm; cbn.
  { split; [done|]. intros j s Hs. by exists s. }
  destruct (acknowledge_one_ok now ps m id Hm) as [H1 H2].
  destruct (IH _ H1) as [H3 H4]. split; [done|]. intros j s Hs.
  destruct (H4 j s Hs) as (s1 & Hs1 & Hw). destruct (H2 _ _ Hs1) as (s0 & Hs0 & Hw').
  exists s0. split; [done|by etrans].
Qed.

Lemma new_slot_ok sw ps :
  slot_ok (ps ++ [spawned_proc sw])
    {| sl_workspace_id := sw_workspace_id sw;
       sl_io := if sw_tty sw then Pty else Pipe (sw_sandboxed sw);
       sl_proc := length ps; sl_on_kill := sw_on_kill sw; sl_acknowledged := None |}.
Proof.
  split; cbn; [rewrite length_app; cbn; lia| |done].
  unfold is_released. cbn. by destruct (sw_tty sw).
Qed.

Lemma spawned_procs_ok sw r : runner_ok r -> runner_ok (with_procs r (rn_procs r ++ [spawned_proc sw])).
Proof.
  intros Hok. apply with_procs_ok; [done| |apply procs_mono_app]. destruct Hok as [Hp _].
  apply Forall_app. split; [done|]. apply Forall_singleton. apply spawned_proc_ok.
Qed.

Lemma remember_frame id k r :
  rn_inner (remember id k r) = rn_inner r /\ rn_procs (remember id k r) = rn_procs r /\
  rn_reserved (remember id k r) = rn_reserved r /\
  rn_max_processes (remember id k r) = rn_max_processes r /\
  rn_retention (remember id k r) = rn_retention r.
Proof. unfold remember. by destruct (mm_keep _). Qed.

Lemma runner_ok_frame r r' :
  rn_inner r' = rn_inner r -> rn_procs r' = rn_procs r -> runner_ok r -> runner_ok r'.
Proof. intros Hi Hp [H1 H2]. split; [by rewrite Hp|]. intros id s. rewrite Hi, Hp. apply H2. Qed.

Lemma spawn_end_ok now id sw r :
  runner_ok r ->
  runner_ok (spawn_end now id sw r).1 /\ procs_mono (rn_procs r) (rn_procs (spawn_end now id sw r).1).
Proof.
  intros Hok. destruct sw as [sw|e]; cbn; [|split; [|done]; by apply (runner_ok_frame r)].
  unfold fill. set (r1 := with_procs r _).
  assert (Hr1 : runner_ok r1) by (by apply spawned_procs_ok).
  destruct (evict_completed_frame now r1) as (_ & _ & _ & _ & Hps).
  pose proof (evict_completed_ok now r1 Hr1) as [H1 H2].
  set (r2 := drop_reservation _ _). destruct (remember_frame id Executed r2) as (Hi & Hp & _).
  split.
  - eapply (runner_ok_frame r2); [done..|]. split; cbn; [done|].
    intros j s [[-> <-]|[_ Hs]]%lookup_insert_Some; [|by eapply H2].
    rewrite Hps. apply new_slot_ok.
  - rewrite Hp. cbn. rewrite Hps. apply procs_mono_app.
Qed.

Lemma reserve_slot_inner env now id r :
  rn_inner (reserve_slot env now id r).1 = rn_inner (evict_completed now r) /\
  rn_procs (reserve_slot env now id r).1 = rn_procs r.
Proof.
  unfold reserve_slot. cbn zeta. case_bool_decide; [|case_bool_decide]; cbn;
    by rewrite ?evict_completed_procs.
Qed.

Lemma step_ok env r m :
  runner_ok r ->
  runner_ok (step env r m) /\ procs_mono (rn_procs r) (rn_procs (step env r m)).
Proof.
  intros Hok. pose proof Hok as [Hp Hs].
  pose proof (evict_completed_ok (mo_now m) r Hok) as Hev.
  pose proof (evict_completed_procs (mo_now m) r) as Hevp.
  assert (Hres : forall id, runner_ok (reserve_slot env (mo_now m) id r).1 /\
            procs_mono (rn_procs r) (rn_procs (reserve_slot env (mo_now m) id r).1)).
  { intros id. destruct (reserve_slot_inner env (mo_now m) id r) as [Hi Hq].
    rewrite Hq. split; [|done]. eapply (runner_ok_frame (evict_completed (mo_now m) r)); [done| |done].
    by rewrite Hq, Hevp. }
  unfold step. destruct (mo_op m) as [re id argv|id|id|id sw|p t| |p|p ioe|id|ws| |ids|id|k].
  - unfold spawn_begin. destruct re; [|done]. destruct argv as [|[|chr x] argv]; [done..|apply Hres].
  - apply Hres.
  - split; [|done]. by apply (runner_ok_frame r).
  - case_bool_decide; [|done]. by apply spawn_end_ok.
  - destruct (alter_ok (fun pr => fst (task_step (mo_world m) (mo_now m) p t pr)) p (rn_procs r))
      as [H1 H2]; [done|intros; by apply task_step_ok|].
    split; [by apply with_procs_ok|done].
  - by rewrite Hevp.
  - unfold take_stdin. destruct (pr_stdin _); [|done].
    destruct (alter_ok (fun pr => with_stdin pr false) p (rn_procs r)) as [H1 H2]; [done| |].
    { intros pr _ [? ? ? ? ?]. by split; split. }
    split; [by apply with_procs_ok|done].
  - unfold put_stdin.
    destruct (alter_ok (fun pr => with_stdin pr true) p (rn_procs r)) as [H1 H2]; [done| |].
    { intros pr _ [? ? ? ? ?]. by split; split. }
    split; [by apply with_procs_ok|done].
  - unfold kill_host. destruct (find_slot id _) as [s|e]; cbn; rewrite Hevp; [|done].
    destruct (request_kill_ok (mo_world m) s (rn_procs r) Hp) as [H1 H2].
    destruct (request_kill _ _ _) as [[qs sent] k]. cbn in *.
    split; [|done]. apply with_procs_ok; [done..|by rewrite Hevp].
  - unfold kill_host_workspace. rewrite Hevp.
    destruct (kill_slots_ok (mo_world m) ws
      (snd <$> hash_iter (rn_inner (evict_completed (mo_now m) r))) 0 (rn_procs r) Hp) as [H1 H2].
    destruct (kill_slots _ _ _ _ _) as [[qs sent] k]. cbn in *.
    split; [|done]. apply with_procs_ok; [done..|by rewrite Hevp].
  - unfold terminate_all. rewrite Hevp.
    destruct (terminate_slots_ok (mo_world m)
      (snd <$> hash_iter (rn_inner (evict_completed (mo_now m) r))) (rn_procs r) Hp) as [H1 H2].
    destruct (terminate_slots _ _ _) as [[qs sent] k]. cbn in *.
    split; [|done]. apply with_procs_ok; [done..|by rewrite Hevp].
  - unfold acknowledge. rewrite evict_completed_procs. split; [|done].
    apply evict_completed_ok. split; cbn; [done|]. by apply acknowledge_map_ok.
  - destruct (remember_frame id Refused r) as (Hi & Hq & _). unfold note_received.
    rewrite Hq. split; [|done]. by apply (runner_ok_frame r).
  - split; [|done]. by apply (runner_ok_frame r).
Qed.

Lemma run_ok env r ms :
  runner_ok r -> runner_ok (run env r ms) /\ procs_mono (rn_procs r) (rn_procs (run env r ms)).
Proof.
  revert r. induction ms as [|m ms IH]; intros r Hok; cbn; [done|].
  destruct (step_ok env r m Hok) as [H1 H2]. destruct (IH _ H1) as [H3 H4].
  split; [done|by etrans].
Qed.

(** A runner that has started nothing yet. *)
Definition fresh (r : Runner) : Prop :=
  rn_inner r = ∅ /\ rn_reserved r = ∅ /\ rn_procs r = [] /\ mm_received (rn_memory r) = ∅.

Lemma fresh_ok r : fresh r -> runner_ok r.
Proof. intros (Hi & _ & Hp & _). split; [by rewrite Hp|]. intros id s. by rewrite Hi. Qed.

(** * The live process limit *)

Definition live_ids (ps : list Proc) (m : gmap string Slot) : list string :=
  (filter (fun e : string * Slot => is_live ps e.2 = true) (map_to_list m)).*1.

Lemma live_count_ids ps m : live_count ps m = length (live_ids ps m).
Proof. unfold live_ids. by rewrite length_fmap. Qed.

Lemma live_ids_elem ps m id :
  id ∈ live_ids ps m <-> exists s, m !! id = Some s /\ is_live ps s = true.
Proof.
  unfold live_ids. rewrite list_elem_of_fmap. split.
  - intros ([j s] & -> & Hin). apply list_elem_of_filter in Hin as [Hl Hin].
    apply elem_of_map_to_list in Hin. eauto.
  - intros (s & Hs & Hl). exists (id, s). split; [done|]. apply list_elem_of_filter.
    split; [done|]. by apply elem_of_map_to_list.
Qed.

Lemma filter_fst_nodup {A} (P : string * A -> Prop) `{!forall e, Decision (P e)}
    (l : list (string * A)) : NoDup l.*1 -> NoDup (filter P l).*1.
Proof.
  induction l as [|e l IH]; [done|]. rewrite fmap_cons. intros [He Hl]%NoDup_cons.
  rewrite filter_cons. case_decide; [|auto]. rewrite fmap_cons. apply NoDup_cons. split; [|auto].
  intros (e' & Hee & Hin)%list_elem_of_fmap. apply list_elem_of_filter in Hin as [_ Hin].
  apply He. rewrite Hee. by apply list_elem_of_fmap_2.
Qed.

Lemma live_ids_nodup ps m : NoDup (live_ids ps m).
Proof. apply filter_fst_nodup. apply NoDup_fst_map_to_list. Qed.

Lemma live_count_incl ps m ps' m' :
  (forall id s, m' !! id = Some s -> is_live ps' s = true ->
     exists s0, m !! id = Some s0 /\ is_live ps s0 = true) ->
  live_count ps' m' <= live_count ps m.
Proof.
  intros H. rewrite !live_count_ids. apply nodup_incl_length; [apply live_ids_nodup|].
  intros id. rewrite !live_ids_elem. intros (s & Hs & Hl). eauto.
Qed.

Lemma live_count_insert ps m ps' id s :
  (forall j s0, m !! j = Some s0 -> is_live ps' s0 = true -> is_live ps s0 = true) ->
  live_count ps' (<[id := s]> m) <= S (live_count ps m).
Proof.
  intros H. rewrite !live_count_ids. change (S (length ?l)) with (length (id :: l)).
  apply nodup_incl_length; [apply live_ids_nodup|].
  intros j. rewrite elem_of_cons, !live_ids_elem.
  intros (s0 & [[-> _]|[_ Hs]]%lookup_insert_Some & Hl); eauto.
Qed.

Lemma is_live_mono ps qs s :
  procs_mono ps qs -> sl_proc s < length ps -> is_live qs s = true -> is_live ps s = true.
Proof.
  intros H Hp Hl. destruct (procs_mono_at _ _ _ H Hp) as [_ [_ M _ _]].
  unfold is_live in *. apply negb_true_iff in Hl. apply negb_true_iff.
  destruct (ob_eof (pr_output (proc_at ps _))); [|done].
  destruct (M eq_refl) as [He _]. congruence.
Qed.

(** An eviction keeps every live process, and only those count. *)
Lemma evict_live now r :
  runner_ok r ->
  live_count (rn_procs r) (rn_inner (evict_completed now r)) <= live_count (rn_procs r) (rn_inner r).
Proof.
  intros Hok. apply live_count_incl. intros id s' Hs' Hl.
  destruct (evict_from now r id s' Hok Hs') as (s & Hs & He). exists s. split; [done|].
  by inversion He; subst.
Qed.

(** The processes and reservations that count against the limit. *)
Definition occupied (r : Runner) : nat :=
  live_count (rn_procs r) (rn_inner r) + size (rn_reserved r).

Lemma occupied_procs r ps :
  runner_ok r -> procs_mono (rn_procs r) ps -> occupied (with_procs r ps) <= occupied r.
Proof.
  intros [_ Hs] H. unfold occupied. cbn.
  assert (live_count ps (rn_inner r) <= live_count (rn_procs r) (rn_inner r)); [|lia].
  apply live_count_incl. intros id s Hid Hl. exists s. split; [done|].
  eapply is_live_mono; [done| |done]. by apply (Hs id s Hid).
Qed.

Lemma occupied_evict now r :
  runner_ok r -> occupied (evict_completed now r) <= occupied r.
Proof.
  intros Hok. destruct (evict_completed_frame now r) as (Hr & _ & _ & _ & Hp).
  unfold occupied. rewrite Hr, Hp. pose proof (evict_live now r Hok). lia.
Qed.

Lemma size_remove (s : gset string) id : id ∈ s -> S (size (s ∖ {[id]})) = size s.
Proof.
  intros Hin. rewrite size_difference by set_solver. rewrite size_singleton.
  enough (size s <> 0) by lia. intros Hz. apply size_empty_inv in Hz. set_solver.
Qed.

Lemma occupied_spawn_end now id sw r :
  runner_ok r -> id ∈ rn_reserved r -> occupied (spawn_end now id sw r).1 <= occupied r.
Proof.
  intros Hok Hin. pose proof (size_remove _ _ Hin) as Hsz. destruct sw as [sw|e]; cbn.
  - unfold fill. set (r1 := with_procs r _).
    assert (Hr1 : runner_ok r1) by (by apply spawned_procs_ok).
    destruct (evict_completed_frame now r1) as (Hres & _ & _ & _ & Hps).
    set (r2 := drop_reservation _ _). destruct (remember_frame id Executed r2) as (Hi & Hq & Hr & _).
    unfold occupied. rewrite Hi, Hq, Hr. cbn. rewrite Hres, Hps. cbn.
    pose proof (occupied_evict now r1 Hr1) as Ho. unfold occupied in Ho.
    rewrite Hres, Hps in Ho.
    pose proof (occupied_procs r (rn_procs r1) Hok (procs_mono_app _ _)) as Ho'.
    unfold occupied in Ho'. cbn in Ho, Ho'.
    pose proof (live_count_insert (rn_procs r ++ [spawned_proc sw])
      (rn_inner (evict_completed now r1)) (rn_procs r ++ [spawned_proc sw]) id
      {| sl_workspace_id := sw_workspace_id sw;
         sl_io := if sw_tty sw then Pty else Pipe (sw_sandboxed sw);
         sl_proc := length (rn_procs r); sl_on_kill := sw_on_kill sw;
         sl_acknowledged := None |} (fun _ _ _ H => H)) as Hins.
    lia.
  - unfold occupied. cbn. lia.
Qed.

Lemma occupied_reserve env now id r :
  runner_ok r ->
  occupied (reserve_slot env now id r).1 <= occupied r \/
  (Z.of_nat (occupied (reserve_slot env now id r).1) <= limit env r)%Z.
Proof.
  intros Hok. pose proof (occupied_evict now r Hok) as He.
  destruct (evict_completed_frame now r) as (Hr & _ & Hm & _ & Hp).
  unfold reserve_slot. cbn zeta. case_bool_decide as Hn; [auto|].
  case_bool_decide as Hl; cbn; [auto|]. right.
  unfold limit in *. rewrite Hm in Hl. unfold occupied. cbn.
  rewrite size_union by set_solver. rewrite size_singleton. lia.
Qed.

Lemma step_limit env r m : limit env (step env r m) = limit env r.
Proof.
  assert (He : forall r', rn_max_processes (evict_completed (mo_now m) r') = rn_max_processes r')
    by (intros; apply evict_completed_frame).
  assert (Hr : forall id, rn_max_processes (reserve_slot env (mo_now m) id r).1 = rn_max_processes r).
  { intros id. unfold reserve_slot. cbn zeta. case_bool_decide; [|case_bool_decide]; apply He. }
  unfold limit. f_equal.
  unfold step. destruct (mo_op m) as [re id argv|id|id|id sw|p t| |p|p ioe|id|ws| |ids|id|k]; try done.
  - unfold spawn_begin. destruct re; [|done]. by destruct argv as [|[|chr x] argv].
  - case_bool_decide; [|done]. destruct sw as [sw|e]; [|done]. cbn. unfold fill.
    destruct (remember_frame id Executed (drop_reservation id (with_inner
      (evict_completed (mo_now m) (with_procs r (rn_procs r ++ [spawned_proc sw])))
      (<[id := {| sl_workspace_id := sw_workspace_id sw;
                 sl_io := if sw_tty sw then Pty else Pipe (sw_sandboxed sw);
                 sl_proc := length (rn_procs r); sl_on_kill := sw_on_kill sw;
                 sl_acknowledged := None |}]>
        (rn_inner (evict_completed (mo_now m)
           (with_procs r (rn_procs r ++ [spawned_proc sw]))))))))
      as (_ & _ & _ & Hm & _).
    rewrite Hm. cbn. by rewrite He.
  - unfold take_stdin. by destruct (pr_stdin _).
  - unfold kill_host. destruct (find_slot id _); cbn; [|apply He].
    destruct (request_kill _ _ _) as [[] ?]; cbn. apply He.
  - unfold kill_host_workspace. destruct (kill_slots _ _ _ _ _) as [[] ?]; cbn. apply He.
  - unfold terminate_all. destruct (terminate_slots _ _ _) as [[] ?]; cbn. apply He.
  - unfold acknowledge. by rewrite He.
  - unfold note_received. by destruct (remember_frame id Refused r) as (_ & _ & _ & -> & _).
Qed.

Lemma occupied_step env r m :
  runner_ok r ->
  occupied (step env r m) <= occupied r \/
  (Z.of_nat (occupied (step env r m)) <= limit env r)%Z.
Proof.
  intros Hok. destruct (step_ok env r m Hok) as [_ Hmono]. revert Hmono.
  pose proof (occupied_evict (mo_now m) r Hok) as Hev.
  pose proof (evict_completed_ok (mo_now m) r Hok) as Hevok.
  unfold step. destruct (mo_op m) as [re id argv|id|id|id sw|p t| |p|p ioe|id|ws| |ids|id|k];
    intros Hmono.
  - unfold spawn_begin. destruct re; [|auto].
    destruct argv as [|[|chr x] argv]; [auto..|by apply occupied_reserve].
  - by apply occupied_reserve.
  - left. unfold occupied, drop_reservation. cbn.
    enough (size (rn_reserved r ∖ {[id]}) <= size (rn_reserved r)) by lia.
    apply subseteq_size. set_solver.
  - case_bool_decide; [|auto]. left. by apply occupied_spawn_end.
  - left. by apply occupied_procs.
  - auto.
  - left. unfold take_stdin in *. destruct (pr_stdin _); [|done]. by apply occupied_procs.
  - left. by apply occupied_procs.
  - left. unfold kill_host in *. destruct (find_slot id _); cbn in *; [|done].
    destruct (request_kill _ _ _) as [[qs ?] ?]. cbn in *. etrans; [|done].
    apply occupied_procs; [done|]. by rewrite evict_completed_procs.
  - left. unfold kill_host_workspace in *. destruct (kill_slots _ _ _ _ _) as [[qs ?] ?]. cbn in *.
    etrans; [|done]. apply occupied_procs; [done|]. by rewrite evict_completed_procs.
  - left. unfold terminate_all in *. destruct (terminate_slots _ _ _) as [[qs ?] ?]. cbn in *.
    etrans; [|done]. apply occupied_procs; [done|]. by rewrite evict_completed_procs.
  - left. unfold acknowledge. destruct Hok as [Hp Hs].
    destruct (acknowledge_map_ok (mo_now m) (rn_procs r) ids (rn_inner r) Hs) as [H1 H2].
    etrans; [apply occupied_evict; by split|]. unfold occupied. cbn.
    enough (live_count (rn_procs r) (foldl (acknowledge_one (mo_now m) (rn_procs r)) (rn_inner r) ids)
              <= live_count (rn_procs r) (rn_inner r)) by lia.
    apply live_count_incl. intros j s Hj Hl. destruct (H2 j s Hj) as (s0 & Hs0 & [E _]).
    exists s0. split; [done|]. unfold is_live in *. by rewrite E.
  - left. unfold note_received, occupied.
    by destruct (remember_frame id Refused r) as (-> & -> & -> & _).
  - by left.
Qed.

Lemma occupied_run env r ms :
  runner_ok r -> (Z.of_nat (occupied r) <= limit env r)%Z ->
  (Z.of_nat (occupied (run env r ms)) <= limit env r)%Z.
Proof.
  revert r. induction ms as [|m ms IH]; intros r Hok Hl; cbn; [done|].
  rewrite <- (step_limit env r m). destruct (step_ok env r m Hok) as [Hok' _].
  apply IH; [done|]. rewrite step_limit. destruct (occupied_step env r m Hok); lia.
Qed.

(** * What is remembered *)

(** [m] creates the process [id], in the state [r]; [m] notes a request to start it. *)
Definition creates (r : Runner) (m : Moment) (id : string) : bool :=
  match mo_op m with
  | OpSpawnEnd j (Ok _) => bool_decide (j = id) && bool_decide (j ∈ rn_reserved r)
  | _ => false
  end.

Definition notes (m : Moment) (id : string) : bool :=
  match mo_op m with OpNoteReceived j => bool_decide (j = id) | _ => false end.

Fixpoint ever_created (env : option string) (r : Runner) (ms : list Moment) (id : string)
    : bool :=
  match ms with
  | [] => false
  | m :: ms => creates r m id || ever_created env (step env r m) ms id
  end.

Definition ever_noted (ms : list Moment) (id : string) : bool :=
  existsb (fun m => notes m id) ms.

Definition remembered_as (before : option Received) (created noted : bool) : option Received :=
  if created then Some Executed
  else if noted then Some (default Refused before) else before.

Lemma remember_memory id k r keep :
  mm_keep (rn_memory r) = Some keep ->
  mm_keep (rn_memory (remember id k r)) = Some keep /\
  mm_received (rn_memory (remember id k r)) !! id =
    Some (match k with Executed => Executed
          | Refused => default Refused (mm_received (rn_memory r) !! id) end) /\
  forall j, j <> id ->
    mm_received (rn_memory (remember id k r)) !! j = mm_received (rn_memory r) !! j.
Proof.
  intros Hk. unfold remember. rewrite Hk. cbn. split; [done|]. split.
  - rewrite lookup_insert_eq. by destruct k.
  - intros j Hj. by rewrite lookup_insert_ne.
Qed.

Lemma evict_completed_memory now r : rn_memory (evict_completed now r) = rn_memory r.
Proof. apply evict_completed_frame. Qed.

Lemma step_memory env r m id :
  is_some (mm_keep (rn_memory r)) = true ->
  is_some (mm_keep (rn_memory (step env r m))) = true /\
  mm_received (rn_memory (step env r m)) !! id =
    remembered_as (mm_received (rn_memory r) !! id) (creates r m id) (notes m id).
Proof.
  intros Hk. destruct (mm_keep (rn_memory r)) as [keep|] eqn:Hkeep; [|done].
  assert (Hres : forall j, rn_memory (reserve_slot env (mo_now m) j r).1 = rn_memory r).
  { intros j. unfold reserve_slot. cbn zeta. case_bool_decide; [|case_bool_decide]; cbn;
      apply evict_completed_memory. }
  unfold creates, notes, remembered_as, step.
  destruct (mo_op m) as [re j argv|j|j|j sw|p t| |p|p ioe|j|ws| |ids|j|k]; cbn.
  - unfold spawn_begin. destruct re; [destruct argv as [|[|chr x] argv]|]; cbn [fst];
      by rewrite ?Hres, Hkeep.
  - by rewrite Hres, Hkeep.
  - by rewrite Hkeep.
  - destruct sw as [sw|e]; cbn.
    2: { case_bool_decide; cbn; by rewrite Hkeep. }
    case_bool_decide as Hin; [|rewrite andb_false_r; by rewrite Hkeep].
    rewrite andb_true_r. unfold fill.
    edestruct remember_memory as (H1 & H2 & H3); [|rewrite H1; split; [done|]].
    { cbn. rewrite evict_completed_memory. exact Hkeep. }
    case_bool_decide as Hj; [by subst; rewrite H2|].
    rewrite H3 by done. cbn. by rewrite evict_completed_memory.
  - by rewrite Hkeep.
  - by rewrite evict_completed_memory, Hkeep.
  - unfold take_stdin. destruct (pr_stdin _); cbn [fst]; [cbn|]; by rewrite Hkeep.
  - by rewrite Hkeep.
  - unfold kill_host. destruct (find_slot j _); cbn;
      [destruct (request_kill _ _ _) as [[] ?]; cbn|]; by rewrite evict_completed_memory, Hkeep.
  - unfold kill_host_workspace. destruct (kill_slots _ _ _ _ _) as [[] ?]. cbn.
    by rewrite evict_completed_memory, Hkeep.
  - unfold terminate_all. destruct (terminate_slots _ _ _) as [[] ?]. cbn.
    by rewrite evict_completed_memory, Hkeep.
  - unfold acknowledge. rewrite evict_completed_memory. cbn. by rewrite Hkeep.
  - destruct (remember_memory j Refused r keep Hkeep) as (H1 & H2 & H3).
    unfold note_received. rewrite H1. split; [done|].
    case_bool_decide as Hj; [by subst; rewrite H2|]. by rewrite H3 by done.
  - done.
Qed.

Lemma remembered_as_twice o c1 n1 c2 n2 :
  remembered_as (remembered_as o c1 n1) c2 n2 = remembered_as o (c1 || c2) (n1 || n2).
Proof. by destruct o as [[]|], c1, n1, c2, n2. Qed.

Lemma run_memory env r ms id :
  is_some (mm_keep (rn_memory r)) = true ->
  mm_received (rn_memory (run env r ms)) !! id =
    remembered_as (mm_received (rn_memory r) !! id) (ever_created env r ms id) (ever_noted ms id).
Proof.
  revert r. induction ms as [|m ms IH]; intros r Hk; [done|].
  destruct (step_memory env r m id Hk) as [Hk' Hm].
  change (run env r (m :: ms)) with (run env (step env r m) ms).
  rewrite (IH _ Hk'), Hm. apply remembered_as_twice.
Qed.

(** A slot was there before, or is the one of the process that was just created. *)
Lemma step_slot_origin env r m id s :
  runner_ok r -> rn_inner (step env r m) !! id = Some s ->
  (exists s0, rn_inner r !! id = Some s0 /\ same_process s0 s) \/
  (exists sw, mo_op m = OpSpawnEnd id (Ok sw) /\ id ∈ rn_reserved r /\
     sl_workspace_id s = sw_workspace_id sw /\ sl_proc s = length (rn_procs r)).
Proof.
  intros Hok.
  assert (Hev : forall r' s, runner_ok r' ->
            rn_inner (evict_completed (mo_now m) r') !! id = Some s ->
            exists s0, rn_inner r' !! id = Some s0 /\ same_process s0 s).
  { intros r' s' Hr' Hs'. destruct (evict_from _ _ _ _ Hr' Hs') as (s0 & Hs0 & He).
    exists s0. split; [done|]. by inversion He; subst. }
  assert (Hsame : forall s, rn_inner r !! id = Some s ->
            exists s0, rn_inner r !! id = Some s0 /\ same_process s0 s)
    by (intros s0; exists s0; by split).
  assert (Hleft : forall m' : gmap string Slot,
            (m' = rn_inner r \/ m' = rn_inner (evict_completed (mo_now m) r)) ->
            m' !! id = Some s -> exists s0, rn_inner r !! id = Some s0 /\ same_process s0 s).
  { intros m' [->| ->]; [apply Hsame|by apply Hev]. }
  unfold step. destruct (mo_op m) as [re j argv|j|j|j sw|p t| |p|p ioe|j|ws| |ids|j|k].
  - unfold spawn_begin. destruct re; [|eauto]. destruct argv as [|[|chr x] argv]; [eauto..|].
    destruct (reserve_slot_inner env (mo_now m) j r) as [-> _]. eauto 6.
  - destruct (reserve_slot_inner env (mo_now m) j r) as [-> _]. eauto 6.
  - eauto.
  - case_bool_decide as Hin; [|eauto]. destruct sw as [sw|e]; cbn; [|eauto].
    unfold fill. edestruct remember_frame as (-> & _). cbn.
    intros [[<- <-]|[_ Hs]]%lookup_insert_Some; [right; eauto|left].
    apply Hev in Hs; [done|]. by apply spawned_procs_ok.
  - eauto.
  - eauto 6.
  - unfold take_stdin. destruct (pr_stdin _); eauto.
  - eauto.
  - unfold kill_host. destruct (find_slot j _); cbn;
      [destruct (request_kill _ _ _) as [[] ?]; cbn|]; eauto 6.
  - unfold kill_host_workspace. destruct (kill_slots _ _ _ _ _) as [[] ?]. cbn. eauto 6.
  - unfold terminate_all. destruct (terminate_slots _ _ _) as [[] ?]. cbn. eauto 6.
  - unfold acknowledge. intros Hs. left. destruct Hok as [Hp Hsl].
    destruct (acknowledge_map_ok (mo_now m) (rn_procs r) ids (rn_inner r) Hsl) as [H1 H2].
    apply Hev in Hs as (s1 & Hs1 & Hw); [|by split]. destruct (H2 _ _ Hs1) as (s0 & Hs0 & Hw').
    exists s0. split; [done|by etrans].
  - unfold note_received. destruct (remember_frame j Refused r) as (-> & _). eauto.
  - eauto.
Qed.

(** Only a created process gets a slot. *)
Lemma step_slots env r m id s :
  runner_ok r -> rn_inner (step env r m) !! id = Some s ->
  is_Some (rn_inner r !! id) \/ creates r m id = true.
Proof.
  intros Hok Hs. destruct (step_slot_origin env r m id s Hok Hs)
    as [(s0 & -> & _)|(sw & Hm & Hin & _)]; [eauto|]. right. unfold creates. rewrite Hm.
  by rewrite !bool_decide_eq_true_2.
Qed.

Lemma run_slots env r ms id s :
  runner_ok r -> rn_inner (run env r ms) !! id = Some s ->
  is_Some (rn_inner r !! id) \/ ever_created env r ms id = true.
Proof.
  revert r. induction ms as [|m ms IH]; intros r Hok Hs; [eauto|].
  change (run env r (m :: ms)) with (run env (step env r m) ms) in Hs. cbn.
  destruct (step_ok env r m Hok) as [Hok' _].
  destruct (IH _ Hok' Hs) as [[s1 Hs1]| ->]; [|right; apply orb_true_r].
  destruct (step_slots env r m id s1 Hok Hs1) as [?| ->]; auto.
Qed.

(** * Live processes have slots

    Of the processes created so far, those whose output has not ended. *)
Definition live_procs (ps : list Proc) : list nat :=
  filter (fun p => ob_eof (pr_output (proc_at ps p)) = false) (seq 0 (length ps)).

(** The ids under which the steps [ms] create processes. *)
Fixpoint created_ids (env : option string) (r : Runner) (ms : list Moment) : list string :=
  match ms with
  | [] => []
  | m :: ms =>
      match mo_op m with
      | OpSpawnEnd id (Ok _) => if bool_decide (id ∈ rn_reserved r) then [id] else []
      | _ => []
      end ++ created_ids env (step env r m) ms
  end.

Definition seated (r : Runner) : Prop :=
  forall p, p ∈ live_procs (rn_procs r) ->
    exists id s, rn_inner r !! id = Some s /\ sl_proc s = p.

Lemma live_procs_elem ps p :
  p ∈ live_procs ps <-> ob_eof (pr_output (proc_at ps p)) = false /\ p < length ps.
Proof. unfold live_procs. rewrite list_elem_of_filter, elem_of_seq. intuition lia. Qed.

Lemma seated_counts r :
  seated r -> length (live_procs (rn_procs r)) <= live_count (rn_procs r) (rn_inner r).
Proof.
  intros Hs. rewrite live_count_ids.
  set (proc_of id := default 0 (sl_proc <$> rn_inner r !! id)).
  rewrite <- (length_fmap proc_of (live_ids _ _)). apply nodup_incl_length.
  - apply NoDup_filter, NoDup_seq.
  - intros p Hp. destruct (Hs p Hp) as (id & s & Hid & <-). apply live_procs_elem in Hp as [Hl _].
    apply list_elem_of_fmap. exists id. unfold proc_of. rewrite Hid. split; [done|].
    apply live_ids_elem. exists s. split; [done|]. unfold is_live. by rewrite Hl.
Qed.

Lemma request_kill_length w s ps : length (request_kill w s ps).1.1 = length ps.
Proof.
  unfold request_kill. destruct (sl_io s); cbn zeta; [..|done]; destruct (_ || _); try done;
    destruct (kill_root _ _ _ _) as [sent [err|]]; apply length_alter.
Qed.

Lemma kill_slots_length w ws slots n ps : length (kill_slots w ws slots n ps).1.1 = length ps.
Proof.
  revert n ps. induction slots as [|s slots IH]; intros n ps; cbn; [done|].
  case_bool_decide; [apply IH|]. pose proof (request_kill_length w s ps) as Hl.
  destruct (request_kill w s ps) as [[qs sent] [one|e]]; cbn in *; [|done].
  specialize (IH (if one then as_u32 (n + 1) else n) qs).
  destruct (kill_slots w ws slots _ qs) as [[rs rest] k]. cbn in *. congruence.
Qed.

Lemma terminate_slots_length w slots ps : length (terminate_slots w slots ps).1.1 = length ps.
Proof.
  revert ps. induction slots as [|s slots IH]; intros ps; cbn; [done|].
  pose proof (request_kill_length w s ps) as Hl.
  destruct (request_kill w s ps) as [[qs sent] killed]. cbn in *. specialize (IH qs).
  destruct (terminate_slots w slots qs) as [[rs rest] k]. cbn in *. congruence.
Qed.

Lemma step_procs_length env r m :
  (forall id sw, mo_op m <> OpSpawnEnd id (Ok sw)) ->
  length (rn_procs (step env r m)) = length (rn_procs r).
Proof.
  intros Hn. unfold step.
  destruct (mo_op m) as [re id argv|id|id|id sw|p t| |p|p ioe|id|ws| |ids|id|k];
    rewrite ?evict_completed_procs; try done.
  - unfold spawn_begin. destruct re; [|done]. destruct argv as [|[|chr x] argv]; [done..|].
    by destruct (reserve_slot_inner env (mo_now m) id r) as [_ ->].
  - by destruct (reserve_slot_inner env (mo_now m) id r) as [_ ->].
  - destruct sw as [sw|e]; [by destruct (Hn id sw)|]. by case_bool_decide.
  - apply length_alter.
  - unfold take_stdin. destruct (pr_stdin _); [|done]. apply length_alter.
  - apply length_alter.
  - unfold kill_host. destruct (find_slot id _) as [s|e]; cbn; rewrite evict_completed_procs;
      [|done]. pose proof (request_kill_length (mo_world m) s (rn_procs r)) as Hl.
    by destruct (request_kill _ _ _) as [[qs sent] k].
  - unfold kill_host_workspace. rewrite evict_completed_procs.
    match goal with |- context [kill_slots ?w ?v ?l ?n ?ps] =>
      pose proof (kill_slots_length w v l n ps) as Hl;
      by destruct (kill_slots w v l n ps) as [[qs sent] k] end.
  - unfold terminate_all. rewrite evict_completed_procs.
    match goal with |- context [terminate_slots ?w ?l ?ps] =>
      pose proof (terminate_slots_length w l ps) as Hl;
      by destruct (terminate_slots w l ps) as [[qs sent] k] end.
  - unfold acknowledge. by rewrite evict_completed_procs.
  - unfold note_received. by destruct (remember_frame id Refused r) as (_ & -> & _).
Qed.

Lemma evict_keeps_live now r id s :
  runner_ok r -> rn_inner r !! id = Some s -> is_live (rn_procs r) s = true ->
  rn_inner (evict_completed now r) !! id = Some s.
Proof.
  intros Hok Hs Hl. apply evict_keeps_running; [done..|].
  destruct (completed_at (rn_procs r) s) eqn:E; [|done].
  destruct (completed_not_live (rn_procs r) s) as [Hn _]; [apply Hok|by rewrite E|congruence].
Qed.

Lemma acknowledge_keeps now ps ids m id s :
  m !! id = Some s ->
  exists s', foldl (acknowledge_one now ps) m ids !! id = Some s' /\ sl_proc s' = sl_proc s.
Proof.
  revert m s. induction ids as [|j ids IH]; intros m s Hs; cbn; [eauto|].
  assert (exists s1, acknowledge_one now ps m j !! id = Some s1 /\ sl_proc s1 = sl_proc s)
    as (s1 & Hs1 & <-); [|by apply IH].
  unfold acknowledge_one. destruct (m !! j) as [s0|] eqn:E; [|eauto].
  destruct (_ && _); [|eauto]. destruct (decide (id = j)) as [->|Hn].
  - rewrite lookup_insert_eq. simplify_eq. eauto.
  - rewrite lookup_insert_ne by done. eauto.
Qed.

(** A live process keeps its slot, unless a process of the same id is created. *)
Lemma step_keeps_live env r m id s :
  runner_ok r -> creates r m id = false ->
  rn_inner r !! id = Some s -> is_live (rn_procs r) s = true ->
  exists s', rn_inner (step env r m) !! id = Some s' /\ sl_proc s' = sl_proc s.
Proof.
  intros Hok Hn Hs Hl.
  pose proof (evict_keeps_live (mo_now m) r id s Hok Hs Hl) as Hev.
  unfold step. destruct (mo_op m) as [re j argv|j|j|j sw|p t| |p|p ioe|j|ws| |ids|j|k] eqn:Hm.
  - unfold spawn_begin. destruct re; [|eauto]. destruct argv as [|[|chr x] argv]; [eauto..|].
    destruct (reserve_slot_inner env (mo_now m) j r) as [-> _]. eauto.
  - destruct (reserve_slot_inner env (mo_now m) j r) as [-> _]. eauto.
  - eauto.
  - case_bool_decide as Hin; [|eauto]. destruct sw as [sw|e]; cbn; [|eauto].
    assert (j <> id).
    { intros ->. unfold creates in Hn. rewrite Hm in Hn. by rewrite !bool_decide_eq_true_2 in Hn. }
    unfold fill. edestruct remember_frame as (-> & _). cbn.
    rewrite lookup_insert_ne by done. exists s. split; [|done].
    apply evict_keeps_live; [by apply spawned_procs_ok|done|]. cbn.
    destruct Hok as [_ Hsl]. pose proof (so_proc _ _ (Hsl id s Hs)).
    unfold is_live, proc_at in *. by rewrite lookup_app_l.
  - eauto.
  - eauto.
  - unfold take_stdin. destruct (pr_stdin _); eauto.
  - eauto.
  - unfold kill_host. destruct (find_slot j _); cbn;
      [destruct (request_kill _ _ _) as [[] ?]; cbn|]; eauto.
  - unfold kill_host_workspace. destruct (kill_slots _ _ _ _ _) as [[] ?]. cbn. eauto.
  - unfold terminate_all. destruct (terminate_slots _ _ _) as [[] ?]. cbn. eauto.
  - unfold acknowledge. destruct Hok as [Hp Hsl].
    destruct (acknowledge_map_ok (mo_now m) (rn_procs r) ids (rn_inner r) Hsl) as [H1 _].
    destruct (acknowledge_keeps (mo_now m) (rn_procs r) ids _ id s Hs) as (s1 & Hs1 & E).
    exists s1. split; [|done]. apply evict_keeps_live; [by split|done|].
    unfold is_live in *. cbn. by rewrite E.
  - unfold note_received. destruct (remember_frame j Refused r) as (-> & _). eauto.
  - eauto.
Qed.

Lemma creates_ids env r m ms id :
  creates r m id = true -> created_ids env r (m :: ms) = id :: created_ids env (step env r m) ms.
Proof.
  unfold creates. cbn. destruct (mo_op m) as [| | |j [sw|e]| | | | | | | | | |]; try done.
  by intros [->%bool_decide_eq_true ->]%andb_true_iff.
Qed.

(** A step that creates no process whose id has a slot leaves every live process seated. *)
Lemma step_seated env r m :
  runner_ok r -> seated r ->
  (forall id, creates r m id = true -> rn_inner r !! id = None) -> seated (step env r m).
Proof.
  intros Hok Hs Hnew p [Hl Hp]%live_procs_elem.
  destruct (step_ok env r m Hok) as [_ Hm].
  destruct (decide (p < length (rn_procs r))) as [Hlt|Hge].
  - destruct (Hs p) as (id & s & Hid & <-).
    { apply live_procs_elem. split; [|done]. pose proof (is_live_mono _ _ (mkSlot "" Pty p false None)
        Hm Hlt) as Hlm. unfold is_live in Hlm. cbn in Hlm. rewrite Hl in Hlm.
      by apply negb_true_iff, Hlm. }
    destruct (creates r m id) eqn:E; [by rewrite (Hnew id E) in Hid|].
    exists id. eapply step_keeps_live; [done..|]. eapply is_live_mono; [done|done|].
    unfold is_live. by rewrite Hl.
  - destruct (mo_op m) as [| | |id [sw|e]| | | | | | | | | |] eqn:Ho;
      try (rewrite step_procs_length in Hp by (by rewrite Ho); lia).
    unfold step in *. rewrite Ho in *. case_bool_decide as Hin; [|lia]. cbn in *.
    unfold fill in *. edestruct remember_frame as (Hi & Hq & _). rewrite Hi. rewrite Hq in Hp.
    cbn in *. rewrite evict_completed_procs in Hp. cbn in Hp. rewrite length_app in Hp.
    cbn in Hp. eexists id, _. rewrite lookup_insert_eq. split; [done|]. cbn. lia.
Qed.

Lemma run_seated env r ms :
  runner_ok r -> seated r -> NoDup (created_ids env r ms) ->
  (forall id, id ∈ created_ids env r ms -> rn_inner r !! id = None) -> seated (run env r ms).
Proof.
  revert r. induction ms as [|m ms IH]; intros r Hok Hs Hnd Hnew; [done|].
  change (run env r (m :: ms)) with (run env (step env r m) ms).
  destruct (step_ok env r m Hok) as [Hok' _]. apply IH; [done| | |].
  - apply step_seated; [done..|]. intros id Hc. apply Hnew.
    rewrite (creates_ids env r m ms id Hc). by left.
  - cbn in Hnd. by apply NoDup_app in Hnd as (_ & _ & ?).
  - intros id Hin. destruct (rn_inner (step env r m) !! id) as [s|] eqn:E; [|done].
    destruct (step_slots env r m id s Hok E) as [[s0 Hs0]|Hc].
    + rewrite Hnew in Hs0; [done|]. cbn. apply elem_of_app. by right.
    + rewrite (creates_ids env r m ms id Hc) in Hnd. by apply NoDup_cons in Hnd as [? _].
Qed.

(** * Whom a kill reaches *)

(** The root, in the state [ps] and as the OS answers, is one that its reaper has not reaped
    and that has not exited. *)
Definition reaches (w : World) (ps : list Proc) (e : Effect) : Prop :=
  match e with
  | KillDescendants p | KillRoot p =>
      lf_finished (pr_lifecycle (proc_at ps p)) = false /\
      exited_unreaped (w_child w p) = false
  | KillSession p =>
      lf_finished (pr_lifecycle (proc_at ps p)) = false /\
      lf_exited (pr_lifecycle (proc_at ps p)) = false /\
      pty_has_exited (w_session w p) = false
  | RunHook p => lf_finished (pr_lifecycle (proc_at ps p)) = false
  end.

Definition same_flags (ps qs : list Proc) : Prop :=
  forall p, lf_finished (pr_lifecycle (proc_at qs p)) = lf_finished (pr_lifecycle (proc_at ps p)) /\
            lf_exited (pr_lifecycle (proc_at qs p)) = lf_exited (pr_lifecycle (proc_at ps p)).

#[local] Instance same_flags_preorder : PreOrder same_flags.
Proof.
  split; [by intros ps p|]. intros a b c H1 H2 p. specialize (H1 p). specialize (H2 p).
  intuition congruence.
Qed.

Lemma reaches_flags w ps qs e : same_flags ps qs -> reaches w qs e -> reaches w ps e.
Proof.
  intros H. destruct e as [p|p|p|p]; cbn; destruct (H p) as [E1 E2]; by rewrite ?E1, ?E2.
Qed.

(** What a process in a slot is, when a kill finds it. *)
Definition killable (w : World) (ps : list Proc) (s : Slot) : bool :=
  let life := pr_lifecycle (proc_at ps (sl_proc s)) in
  negb (lf_finished life) &&
  match sl_io s with
  | Pipe _ => negb (root_exited w (sl_proc s) false life)
  | Pty => negb (root_exited w (sl_proc s) true life)
  | Released => false
  end.

Definition kill_of (s : Slot) : Effect :=
  match sl_io s with Pty => KillSession (sl_proc s) | _ => KillRoot (sl_proc s) end.

Lemma note_kill_at i p q ps :
  let qs := alter (fun pr => with_lifecycle pr (note_kill i (pr_lifecycle pr))) p ps in
  lf_finished (pr_lifecycle (proc_at qs q)) = lf_finished (pr_lifecycle (proc_at ps q)) /\
  lf_exited (pr_lifecycle (proc_at qs q)) = lf_exited (pr_lifecycle (proc_at ps q)).
Proof.
  cbn zeta. unfold proc_at. destruct (decide (q = p)) as [->|Hn].
  - rewrite list_lookup_alter_eq. destruct (ps !! p) as [pr|]; [|done]. cbn.
    by destruct (note_kill_flags i (pr_lifecycle pr)) as (-> & -> & _).
  - by rewrite list_lookup_alter_ne.
Qed.

Lemma request_kill_reaches w s ps :
  same_flags ps (request_kill w s ps).1.1 /\
  (forall e, e ∈ (request_kill w s ps).1.2 -> reaches w ps e).
Proof.
  unfold request_kill. destruct (sl_io s); cbn zeta.
  3: { split; [done|]. intros e. by intros ?%elem_of_nil. }
  all: destruct (_ || _) eqn:E; [split; [done|]; intros e He; by apply elem_of_nil in He|].
  all: apply orb_false_iff in E as [Hf He].
  - unfold kill_root. destruct (ch_start_kill _); cbn; (split; [intros p; apply note_kill_at|]);
      intros e Hin; unfold after_kill in Hin; destruct (_ && _), (sl_on_kill s); cbn in Hin;
      rewrite ?elem_of_cons, ?elem_of_nil in Hin; naive_solver.
  - apply orb_false_iff in He as [He1 He2]. split; [intros p; apply note_kill_at|].
    intros e Hin. unfold after_kill in Hin. destruct (sl_on_kill s); cbn in Hin;
      rewrite ?elem_of_cons, ?elem_of_nil in Hin; naive_solver.
Qed.

Lemma request_kill_kills w s ps :
  sl_proc s < length ps -> killable w ps s = true ->
  kill_of s ∈ (request_kill w s ps).1.2 /\
  is_some (lf_kill_intent (pr_lifecycle (proc_at (request_kill w s ps).1.1 (sl_proc s)))) = true.
Proof.
  intros Hp. unfold killable, kill_of, request_kill. cbn zeta.
  intros [Hf%negb_true_iff Hk]%andb_true_iff. rewrite Hf. cbn [orb].
  assert (Hi : is_some (lf_kill_intent (pr_lifecycle (proc_at
    (alter (fun pr => with_lifecycle pr (note_kill IntentTerminated (pr_lifecycle pr)))
       (sl_proc s) ps) (sl_proc s)))) = true).
  { unfold proc_at. rewrite list_lookup_alter_eq.
    apply lookup_lt_is_Some in Hp as [pr ->]. cbn.
    by destruct (note_kill_flags IntentTerminated (pr_lifecycle pr)) as (_ & _ & _ & ->). }
  destruct (sl_io s) as [sandboxed| |]; [..|done]; apply negb_true_iff in Hk; rewrite Hk; unfold kill_root.
  - unfold after_kill. destruct (ch_start_kill _), (sandboxed && _), (sl_on_kill s); cbn in *;
      (split; [|done]); rewrite ?elem_of_cons; auto.
  - cbn. split; [|done]. by left.
Qed.

Lemma killable_flags w ps qs s : same_flags ps qs -> killable w qs s = killable w ps s.
Proof.
  intros H. unfold killable, root_exited. destruct (H (sl_proc s)) as [-> Hx].
  destruct (sl_io s); [done| |done]. by rewrite Hx.
Qed.

Lemma terminate_slots_reaches w slots ps :
  Forall proc_ok ps -> Forall (fun s => sl_proc s < length ps) slots ->
  let '(qs, sent, _) := terminate_slots w slots ps in
  (forall e, e ∈ sent -> reaches w ps e) /\
  (forall s, s ∈ slots -> killable w ps s = true ->
     kill_of s ∈ sent /\
     is_some (lf_kill_intent (pr_lifecycle (proc_at qs (sl_proc s)))) = true).
Proof.
  revert ps. induction slots as [|s slots IH]; intros ps Hall Hlen; cbn.
  { split; [by intros e ?%elem_of_nil|by intros s ?%elem_of_nil]. }
  apply Forall_cons in Hlen as [Hs Hlen].
  destruct (request_kill_ok w s ps Hall) as [H1 H2].
  destruct (request_kill_reaches w s ps) as [H3 H4].
  pose proof (request_kill_kills w s ps Hs) as H5.
  destruct (request_kill w s ps) as [[qs sent] killed]. cbn in *.
  specialize (IH qs H1). pose proof (terminate_slots_ok w slots qs H1) as [H6 H7].
  destruct (terminate_slots w slots qs) as [[rs rest] k]. cbn in *.
  destruct IH as [I1 I2].
  { eapply Forall_impl; [exact Hlen|]. intros s' Hl. by apply (procs_mono_at _ _ _ H2 Hl). }
  split.
  - intros e [He|He]%elem_of_app; [auto|]. eapply reaches_flags; eauto.
  - intros s' [->|Hin]%elem_of_cons Hk.
    + destruct (H5 Hk) as [Hsent Hint]. split; [apply elem_of_app; by left|].
      destruct (procs_mono_at _ _ _ H2 Hs) as [Hl _].
      destruct (procs_mono_at _ _ _ H7 Hl) as [_ [_ _ _ M]].
      destruct (lf_kill_intent _) as [i|] eqn:Ei in Hint; [|done]. by rewrite (M i Ei).
    + destruct (I2 s' Hin) as [? ?]; [by rewrite (killable_flags w ps)|].
      split; [apply elem_of_app; by right|done].
Qed.

(** * Properties *)

Definition termination_of (i : KillIntent) : ProcessTermination :=
  match i with IntentTimeout => TTimeout | IntentTerminated => TTerminated end.

Lemma reachable_ok env r ms : fresh r -> runner_ok (run env r ms).
Proof. intros Hf. apply run_ok. by apply fresh_ok. Qed.

Lemma exited_finished pr :
  life_ok (pr_lifecycle pr) ->
  sn_state (lf_snapshot (pr_lifecycle pr)) = PExited <-> lf_finished (pr_lifecycle pr) = true.
Proof.
  unfold life_ok. destruct (lf_finished _); [|intros ->; by split].
  intros H. split; [done|]. intros _.
  destruct (lf_kill_intent _) as [[]|]; [by rewrite H..|].
  by destruct H as [[? ->]|[[? ->]| ->]].
Qed.

Lemma exited_as_intended pr i :
  life_ok (pr_lifecycle pr) -> lf_kill_intent (pr_lifecycle pr) = Some i ->
  sn_state (lf_snapshot (pr_lifecycle pr)) = PExited ->
  sn_termination (lf_snapshot (pr_lifecycle pr)) = Some (termination_of i).
Proof.
  intros Hl Hi He. apply exited_finished in He; [|done]. unfold life_ok in Hl.
  rewrite He, Hi in Hl. destruct i; by rewrite Hl.
Qed.

Lemma life_contract pr id hint s ps :
  life_ok (pr_lifecycle pr) -> proc_at ps (sl_proc s) = pr ->
  invariants_hold (process_status_result (slot_status ps id s) hint) = true.
Proof.
  intros Hl Hp. unfold invariants_hold, process_status_result, slot_status. cbn. rewrite Hp.
  unfold life_ok in Hl. destruct (lf_finished _).
  - destruct (lf_kill_intent _) as [[]|]; [by rewrite Hl..|].
    by destruct Hl as [[? ->]|[[? ->]| ->]].
  - rewrite Hl. cbn. by case_bool_decide.
Qed.

(** C20: The status of a process the runner holds satisfies the tools' status contract. Why
    CodeSpace first asked a process to end, its timeout or a termination, is never replaced
    by a later reason: whenever the process is reported exited afterwards, it reports
    [timeout], or [terminated], accordingly. Once a process is reported exited, no later step
    changes how it ended, and once its output is reported ended, no later step changes the
    output. *)
Theorem process_status_is_truthful env r ms1 ms2 id s s' hint :
  fresh r ->
  let a := run env r ms1 in
  let b := run env a ms2 in
  rn_inner a !! id = Some s -> rn_inner b !! id = Some s' -> sl_proc s' = sl_proc s ->
  let st := slot_status (rn_procs a) id s in
  let st' := slot_status (rn_procs b) id s' in
  let intent (r : Runner) := lf_kill_intent (pr_lifecycle (proc_at (rn_procs r) (sl_proc s))) in
  invariants_hold (process_status_result st hint) = true /\
  (forall i, intent a = Some i ->
     intent b = Some i /\
     (rs_state st' = PExited -> rs_termination st' = Some (termination_of i))) /\
  (rs_state st = PExited ->
     (forall i, intent a = Some i -> rs_termination st = Some (termination_of i)) /\
     rs_state st' = PExited /\ rs_exit_code st' = rs_exit_code st /\
     rs_termination st' = rs_termination st /\ rs_signal st' = rs_signal st) /\
  (rs_eof st = true ->
     rs_eof st' = true /\ rs_output_total st' = rs_output_total st /\
     rs_output_retained_from st' = rs_output_retained_from st).
Proof.
  intros Hf a b Hs Hs' Hp st st' intent.
  assert (Ha : runner_ok a) by (by apply reachable_ok).
  destruct (run_ok env a ms2 Ha) as [[Hprocs' _] Hm]. fold b in Hm, Hprocs'.
  pose proof Ha as [Hprocs Hslots].
  destruct (procs_mono_at _ _ _ Hm (so_proc _ _ (Hslots id s Hs))) as [_ [_ M2 M3 M4]].
  pose proof (proc_at_ok (rn_procs a) (sl_proc s) Hprocs) as [Hl _ _ _ _].
  pose proof (proc_at_ok (rn_procs b) (sl_proc s) Hprocs') as [Hl' _ _ _ _].
  subst st st' intent. unfold slot_status. cbn. rewrite Hp. split_and!.
  - by eapply life_contract; [exact Hl|].
  - intros i Hi. specialize (M4 i Hi). split; [done|].
    intros He. exact (exited_as_intended _ i Hl' M4 He).
  - intros He. split; [intros i Hi; exact (exited_as_intended _ i Hl Hi He)|].
    destruct M3 as [_ ->]; [by apply exited_finished|done].
  - intros He. destruct (M2 He) as (-> & _ & -> & ->). done.
Qed.

(** C22: The processes that have not ended and the slots reserved for processes not yet
    created never exceed the limit together, whatever requests, spawns, ends and evictions
    interleave, as long as no two processes are created under one id, as the server's ids
    are. What the limit is checked against, the live processes' slots and the reservations,
    stays within it whatever the ids are. *)
Theorem processes_stay_within_the_limit env r ms now :
  fresh r -> (0 <= limit env r)%Z ->
  let b := run env r ms in
  (Z.of_nat (snd (occupied_slots now b)) <= limit env r)%Z /\
  (NoDup (created_ids env r ms) ->
   (Z.of_nat (length (live_procs (rn_procs b)) + size (rn_reserved b)) <= limit env r)%Z).
Proof.
  intros Hf Hl b. pose proof (reachable_ok env r ms Hf) as Hok. fold b in Hok.
  destruct Hf as (Hi & Hr & Hps & Hrest). assert (Hf : fresh r) by done.
  assert (Hz : (Z.of_nat (occupied r) <= limit env r)%Z).
  { unfold occupied. by rewrite Hi, Hr. }
  pose proof (occupied_run env r ms (fresh_ok r Hf) Hz) as Ho. fold b in Ho. split.
  - pose proof (occupied_evict now _ Hok). unfold occupied_slots, occupied in *. cbn. lia.
  - intros Hnd. assert (Hs : seated b).
    { apply run_seated; [by apply fresh_ok| |done|].
      - intros p [_ Hp]%live_procs_elem. rewrite Hps in Hp. cbn in Hp. lia.
      - intros id _. by rewrite Hi. }
    apply seated_counts in Hs. unfold occupied in Ho. lia.
Qed.

(** An eviction leaves every process that has not ended as it is. Of the ended processes
    whose handles are held, it keeps at most [max_completed], the newest, each ended at most
    [ttl] ago; and it changes nothing of a slot it keeps but its handle. *)
Theorem eviction_keeps_running_and_newest env r ms now :
  fresh r ->
  let a := run env r ms in
  let b := evict_completed now a in
  (forall id s, rn_inner a !! id = Some s -> completed_at (rn_procs a) s = None ->
     rn_inner b !! id = Some s) /\
  length (ended_of b) <= rt_max_completed (rn_retention a) /\
  (forall id at_, (id, at_) ∈ ended_of b ->
     (saturating_sub now at_ <= rt_ttl (rn_retention a))%Z /\
     (id, at_) ∈ drop (length (ended_of a) - rt_max_completed (rn_retention a)) (ended_of a)) /\
  (forall id s', rn_inner b !! id = Some s' ->
     exists s, rn_inner a !! id = Some s /\ sl_proc s' = sl_proc s /\
       sl_workspace_id s' = sl_workspace_id s /\ sl_acknowledged s' = sl_acknowledged s /\
       (sl_io s' = sl_io s \/ sl_io s' = Released)).
Proof.
  intros Hf a b. assert (Ha : runner_ok a) by (by apply reachable_ok). split_and!.
  - intros id s. by apply evict_keeps_running.
  - apply ended_after_eviction_length.
  - intros id at_. apply ended_after_eviction.
  - intros id s' Hs'. destruct (evict_from now a id s' Ha Hs') as (s & Hs & He).
    exists s. inversion He; subst; cbn; split_and!; auto.
Qed.

(** An independent runner drops an ended process that no controller acknowledged only when
    it keeps [keep] other processes with released handles, none of which ended earlier. *)
Theorem unacknowledged_processes_are_kept env r ms now keep id s :
  fresh r ->
  let a := run env r ms in
  let b := evict_completed now a in
  mm_keep (rn_memory a) = Some keep -> rn_inner a !! id = Some s ->
  sl_acknowledged s = None -> rn_inner b !! id = None ->
  exists at_, completed_at (rn_procs a) s = Some at_ /\
    length (ended_slots (rn_procs a) is_released (rn_inner b)) = keep /\
    forall id' at', (id', at') ∈ ended_slots (rn_procs a) is_released (rn_inner b) ->
      (at_ <= at')%Z.
Proof.
  intros Hf a b Hk Hs Hn Hb. apply (unacknowledged_dropped now a keep id s); [|done..].
  by apply reachable_ok.
Qed.

(** What is recalled, against the history. *)
Lemma recall_history env r ms now id :
  fresh r -> is_some (mm_keep (rn_memory r)) = true ->
  let a := run env r ms in
  match snd (recall now id a) with
  | NotReceived => ever_created env r ms id = false /\ ever_noted ms id = false
  | RefusedStart => ever_created env r ms id = false /\ ever_noted ms id = true
  | Held _ st => ever_created env r ms id = true /\ rs_process_id st = id
  | Dropped =>
      ever_created env r ms id = true /\
      forall s, rn_inner a !! id = Some s ->
        is_some (completed_at (rn_procs a) s) = true
  end.
Proof.
  intros Hf Hk a. assert (Ha : runner_ok a) by (by apply reachable_ok).
  pose proof (run_memory env r ms id Hk) as Hm.
  destruct Hf as (Hi & Hr & Hp & Hrec) eqn:E. clear E. rewrite Hrec, lookup_empty in Hm.
  fold a in Hm. unfold recall. cbn.
  destruct (rn_inner (evict_completed now a) !! id) as [s|] eqn:Hs.
  - destruct (evict_from now a id s Ha Hs) as (s0 & Hs0 & _).
    destruct (run_slots env r ms id s0) as [[s1 Hs1]|Hc]; [by apply fresh_ok|done| |done].
    by rewrite Hi, lookup_empty in Hs1.
  - rewrite evict_completed_memory, Hm. unfold remembered_as.
    destruct (ever_created env r ms id), (ever_noted ms id); cbn; [..|done|done].
    all: split; [done|]; intros s Hs0.
    all: destruct (completed_at (rn_procs a) s) eqn:Hc; [done|].
    all: by rewrite (evict_keeps_running now a id s Ha Hs0 Hc) in Hs.
Qed.

(** What an independent runner recalls is true of its whole lifetime: [NotReceived] only
    of an ID that it neither created a process for nor answered a start request of, [Refused]
    only of one it answered and created none for, and [Dropped] only of one it created a
    process for, whose process, when it was still held, had ended. *)
Theorem recall_is_truthful env r ms now id :
  fresh r -> is_some (mm_keep (rn_memory r)) = true ->
  let a := run env r ms in
  match snd (recall now id a) with
  | NotReceived => ever_created env r ms id = false /\ ever_noted ms id = false
  | RefusedStart => ever_created env r ms id = false /\ ever_noted ms id = true
  | Held _ st => ever_created env r ms id = true /\ rs_process_id st = id
  | Dropped =>
      ever_created env r ms id = true /\
      forall s, rn_inner a !! id = Some s ->
        is_some (completed_at (rn_procs a) s) = true
  end.
Proof. apply recall_history. Qed.

(** Terminating everything sends a kill to no process that its reaper has reaped or that
    has already exited, reaches the root of every other process the runner holds, and records
    that its end was asked for. *)
Theorem terminate_all_reaches_exactly_the_running env r ms w now :
  fresh r ->
  let a := run env r ms in
  let '(b, sent, _) := terminate_all w now a in
  (forall e, e ∈ sent -> reaches w (rn_procs a) e) /\
  (forall id s, rn_inner a !! id = Some s -> killable w (rn_procs a) s = true ->
     rn_inner b !! id = Some s /\ kill_of s ∈ sent /\
     is_some (lf_kill_intent (pr_lifecycle (proc_at (rn_procs b) (sl_proc s)))) = true).
Proof.
  intros Hf a. assert (Ha : runner_ok a) by (by apply reachable_ok).
  pose proof Ha as [Hprocs Hslots]. unfold terminate_all. rewrite evict_completed_procs.
  pose proof (evict_completed_ok now a Ha) as [_ Hslots']. rewrite evict_completed_procs in Hslots'.
  pose proof (terminate_slots_reaches w (snd <$> hash_iter (rn_inner (evict_completed now a)))
    (rn_procs a) Hprocs) as Ht.
  destruct (terminate_slots _ _ _) as [[qs sent] n]. cbn. destruct Ht as [T1 T2].
  { apply Forall_fmap, Forall_forall. intros [id s] Hin%hash_iter_elem. cbn.
    by apply (Hslots' id s). }
  split; [done|]. intros id s Hs Hk.
  assert (Hkept : rn_inner (evict_completed now a) !! id = Some s).
  { apply evict_keeps_running; [done..|]. destruct (completed_at (rn_procs a) s) eqn:Hc; [|done].
    destruct (completed_not_live (rn_procs a) s Hprocs) as [_ Hfin]; [by rewrite Hc|].
    unfold killable in Hk. by rewrite Hfin in Hk. }
  split; [done|]. apply T2; [|done]. apply list_elem_of_fmap. exists (id, s).
  split; [done|]. by apply hash_iter_elem.
Qed.

End steps.

(** * Concrete runs *)

#[local] Existing Instance map_order.

Definition world_running : World :=
  mkWorld (fun _ => mkChild (Some 7%Z) (WaitInfo 0%Z) None) (fun _ => mkPtySession false None).
Definition world_exited : World :=
  mkWorld (fun _ => mkChild (Some 7%Z) (WaitInfo 7%Z) None) (fun _ => mkPtySession true None).

Definition at_ (w : World) (now : Z) (op : Op) : Moment := mkMoment now w op.

(** [id] is spawned in a pipe. *)
Definition spawn_run (now : Z) (id : string) : list Moment :=
  [at_ world_running now (OpSpawnBegin (Ok tt) id ["sleep"]);
   at_ world_running now (OpSpawnEnd id (Ok (mkSpawned "w" false false 16 false)));
   at_ world_running now (OpNoteReceived id)].

(** The process at [p] writes, exits with [code] or [signal], and its tasks end. *)
Definition end_run (now : Z) (p : nat) (code signal : option Z) : list Moment :=
  at_ world_exited now ∘ OpTask p <$>
    [Pump ["o"; "k"]%char; ReapLook; ReapWait (WaitStatus code signal); PumpEnd; PumpEnd;
     JoinOutput; Complete].

(** An independent runner of two processes that keeps one ended process's handle for ten
    nanoseconds, and one released process until it is acknowledged. *)
Definition small_runner : Runner :=
  with_max_processes (keep_until_acknowledged 1 (with_retention (mkRetention 10 1))) 2.

Lemma small_runner_fresh : fresh small_runner.
Proof. repeat split. Defined.

(** [p]'s timeout ends it; then it is terminated, too, and reaped, killed by signal 9. *)
Lemma process_status_is_truthful_witness :
  let a := run None small_runner (spawn_run 0 "p" ++ [at_ world_running 1 (OpTask 0 TimerFire)]) in
  let b := run None a ([at_ world_running 2 (OpKill "p")] ++ end_run 2 0 None (Some 9%Z)) in
  exists s s', rn_inner a !! "p" = Some s /\ rn_inner b !! "p" = Some s' /\
    rs_state (slot_status (rn_procs a) "p" s) = PRunning /\
    rs_termination (slot_status (rn_procs b) "p" s') = Some TTimeout /\
    invariants_hold (process_status_result (slot_status (rn_procs a) "p" s) None) = true.
Proof.
  cbn zeta. do 2 eexists.
  do 2 (split; [vm_compute; reflexivity|]). split; [vm_compute; reflexivity|].
  pose proof (process_status_is_truthful None small_runner
    (spawn_run 0 "p" ++ [at_ world_running 1 (OpTask 0 TimerFire)])
    ([at_ world_running 2 (OpKill "p")] ++ end_run 2 0 None (Some 9%Z)) "p"
    (mkSlot "w" (Pipe false) 0 false None) (mkSlot "w" (Pipe false) 0 false None) None
    small_runner_fresh) as H.
  cbv zeta in H. specialize (H ltac:(vm_compute; reflexivity) ltac:(vm_compute; reflexivity)
    eq_refl). destruct H as (Hc & Hi & _). split; [|exact Hc].
  destruct (Hi IntentTimeout ltac:(vm_compute; reflexivity)) as [_ Ht].
  exact (Ht ltac:(vm_compute; reflexivity)).
Defined.

(** Two processes fill the limit; a third request is refused. *)
Lemma processes_stay_within_the_limit_witness :
  let ms := spawn_run 0 "p" ++ spawn_run 1 "q" ++ spawn_run 2 "x" in
  let r := run None small_runner ms in
  created_ids None small_runner ms = ["p"; "q"] /\ live_procs (rn_procs r) = [0; 1] /\
  (Z.of_nat (length (live_procs (rn_procs r)) + size (rn_reserved r)) <= 2)%Z.
Proof.
  cbv zeta. split; [vm_compute; reflexivity|]. split; [vm_compute; reflexivity|].
  apply (processes_stay_within_the_limit None small_runner
    (spawn_run 0 "p" ++ spawn_run 1 "q" ++ spawn_run 2 "x") 3 small_runner_fresh
    ltac:(vm_compute; discriminate)).
  apply (bool_decide_unpack _). vm_compute. exact I.
Defined.

(** [p] ends, [q] runs on. *)
Lemma eviction_keeps_running_and_newest_witness :
  let a := run None small_runner (spawn_run 0 "p" ++ spawn_run 1 "q" ++
             end_run 2 0 (Some 0%Z) None) in
  let b := evict_completed 100 a in
  is_some (rn_inner b !! "q") = true /\ length (ended_of b) <= 1.
Proof.
  pose proof (eviction_keeps_running_and_newest None small_runner
    (spawn_run 0 "p" ++ spawn_run 1 "q" ++ end_run 2 0 (Some 0%Z) None) 100
    small_runner_fresh) as H.
  cbv zeta in H |- *. destruct H as (Hrun & Hlen & _). split; [|exact Hlen].
  specialize (Hrun "q" (mkSlot "w" (Pipe false) 1 false None)
    ltac:(vm_compute; reflexivity) ltac:(vm_compute; reflexivity)).
  rewrite Hrun. reflexivity.
Defined.

(** Two unacknowledged processes are past their time; the newer one is kept. *)
Lemma unacknowledged_processes_are_kept_witness :
  let a := run None small_runner (spawn_run 0 "p" ++ spawn_run 1 "q" ++
             end_run 2 0 (Some 0%Z) None ++ end_run 3 1 (Some 0%Z) None) in
  length (ended_slots (rn_procs a) is_released (rn_inner (evict_completed 100 a))) = 1.
Proof.
  pose proof (unacknowledged_processes_are_kept None small_runner
    (spawn_run 0 "p" ++ spawn_run 1 "q" ++
       end_run 2 0 (Some 0%Z) None ++ end_run 3 1 (Some 0%Z) None) 100 1 "p"
    (mkSlot "w" (Pipe false) 0 false None) small_runner_fresh) as H.
  cbv zeta in H |- *. specialize (H ltac:(vm_compute; reflexivity)
    ltac:(vm_compute; reflexivity) eq_refl ltac:(vm_compute; reflexivity)).
  destruct H as (t & _ & Hlen & _). exact Hlen.
Defined.

(** A third spawn is over the limit and is remembered as refused. *)
Lemma recall_is_truthful_witness :
  let ms := spawn_run 0 "p" ++ spawn_run 1 "q" ++ spawn_run 2 "x" in
  snd (recall 3 "x" (run None small_runner ms)) = RefusedStart /\
  ever_created None small_runner ms "x" = false /\ ever_noted ms "x" = true.
Proof.
  cbn zeta. split; [vm_compute; reflexivity|].
  pose proof (recall_is_truthful None small_runner
    (spawn_run 0 "p" ++ spawn_run 1 "q" ++ spawn_run 2 "x") 3 "x" small_runner_fresh eq_refl)
    as H.
  cbv zeta in H. replace (snd (recall _ _ _)) with RefusedStart in H by (vm_compute; reflexivity).
  exact H.
Defined.

Lemma terminate_all_reaches_exactly_the_running_witness :
  let a := run None small_runner (spawn_run 0 "p" ++ spawn_run 1 "q" ++
             end_run 2 0 (Some 0%Z) None) in
  kill_of (mkSlot "w" (Pipe false) 1 false None) ∈ snd (fst (terminate_all world_running 3 a)).
Proof.
  cbn zeta.
  pose proof (terminate_all_reaches_exactly_the_running None small_runner
    (spawn_run 0 "p" ++ spawn_run 1 "q" ++ end_run 2 0 (Some 0%Z) None) world_running 3
    small_runner_fresh) as H.
  cbv zeta in H. destruct (terminate_all _ _ _) as [[b sent] n]. destruct H as [_ H].
  destruct (H "q" (mkSlot "w" (Pipe false) 1 false None)
    ltac:(vm_compute; reflexivity) ltac:(vm_compute; reflexivity)) as (_ & Hs & _).
  exact Hs.
Defined.
