(* ===== verification/Api.v ===== *)
(** What crosses the boundary between a gateway and its Runner: the requests and results of
    [crates/runner/src/api.rs], the listing and reading results of [domain/src/files.rs], the
    Runner's identity ([runner/src/lifecycle.rs]) and the answer to a Claim
    ([runner/src/wire.rs]). The process results are in [Output] and [Supervisor], where they
    are made. *)
From S2P Require Import Prelude Domain Policy Output Supervisor.

(** * Requests *)

Definition MAX_OUTPUT_BYTES : Z := 256 * 1024.
Definition DEFAULT_TIMEOUT_MS : Z := 30000.

Record RunnerExecPolicy := mkRunnerExecPolicy {
  xp_workspace_profile : Profile;
  xp_network : NetworkAxis
}.

Inductive RunnerCwd := WorkspaceRoot.

Record RunnerExecEnv := mkRunnerExecEnv {
  xe_use_runner_defaults : bool;
  xe_overrides : gmap string string
}.

Record RunnerExecRequest := mkRunnerExecRequest {
  xr_argv : list string;
  xr_process_id : string;
  xr_cwd : RunnerCwd;
  xr_env : RunnerExecEnv;
  xr_timeout_ms : Z;
  xr_output_bytes_cap : Z;
  xr_tty : bool;
  xr_policy : RunnerExecPolicy
}.

(** [str::parse::<u64>] reads text as [parse_usize] does: both are 64 bits wide.
    [saturating_mul] stops at the largest [u64]. *)
Definition default_exec_timeout_ms (env : option string) : Z :=
  match env ≫= parse_usize with
  | Some secs =>
      if bool_decide (0 < secs)%Z then Z.min (secs * 1000) u64_max else DEFAULT_TIMEOUT_MS
  | None => DEFAULT_TIMEOUT_MS
  end.

(** [RunnerExecRequest::for_host]; [env] is [CODESPACE_PROCESS_TIMEOUT_SECS]. *)
Definition for_host (env : option string) (argv : list string) (process_id : string)
    (profile : Profile) : RunnerExecRequest :=
  {| xr_argv := argv; xr_process_id := process_id; xr_cwd := WorkspaceRoot;
     xr_env := mkRunnerExecEnv true ∅; xr_timeout_ms := default_exec_timeout_ms env;
     xr_output_bytes_cap := MAX_OUTPUT_BYTES; xr_tty := false;
     xr_policy := mkRunnerExecPolicy profile NetRestricted |}.

Record RunnerWriteStdin := mkRunnerWriteStdin { wi_process_id : string; wi_data : string }.

Record RunnerReadProcess := mkRunnerReadProcess { rd_process_id : string; rd_cursor : Z }.

Record RunnerApplyPatchRequest := mkRunnerApplyPatchRequest {
  aq_patch : string;
  aq_expected_versions : gmap string string;
  aq_check_only : bool
}.

(** * Results *)

Record RunnerProcessRoot := mkRunnerProcessRoot {
  xroot_pid : Z;
  xroot_started : option string
}.

Record RunnerExecResult := mkRunnerExecResult {
  xs_process_id : string;
  xs_root : option RunnerProcessRoot;
  xs_deadline_at_ms : option Z
}.

Record RunnerResizeResult := mkRunnerResizeResult { rz_rows : Z; rz_cols : Z }.

Record RunnerApplyPatchResult := mkRunnerApplyPatchResult {
  as_status : PatchStatus;
  as_files : list string;
  as_changes : list FileChange
}.

(** [ReadResult] and [FindResult]. *)
Record ReadResult := mkReadResult {
  rdr_path : string;
  rdr_content : list ascii;
  rdr_version : string;
  rdr_truncated : bool;
  rdr_offset : Z;
  rdr_byte_count : Z;
  rdr_content_lossy : bool;
  rdr_next_offset : option Z;
  rdr_coordination : option CoordinationHint
}.

Record FindResult := mkFindResult {
  fnd_paths : list string;
  fnd_truncated : bool;
  fnd_offset : Z;
  fnd_incomplete : bool;
  fnd_listing_version : string;
  fnd_next_offset : option Z;
  fnd_coordination : option CoordinationHint
}.

(** * Errors of a Runner *)

Inductive RunnerError :=
  | RunnerExecution (body : ErrorBody)
  | TransportBeforeDispatch (text : string)
  | TransportAmbiguous (text : string).

Definition as_execution (err : RunnerError) : option ErrorBody :=
  match err with RunnerExecution body => Some body | _ => None end.

Definition into_error_body (err : RunnerError) : ErrorBody :=
  match err with
  | RunnerExecution body => body
  | TransportBeforeDispatch text =>
      error_body Timeout ("runner transport failed before dispatch: " +:+ text)
  | TransportAmbiguous text =>
      error_body Timeout ("runner transport result is ambiguous: " +:+ text)
  end.

(** * A Runner's identity and its answer to a Claim *)

Inductive RunnerLifecycle := Managed | Independent.

#[export] Instance RunnerLifecycle_eq_dec : EqDecision RunnerLifecycle.
Proof. solve_decision. Defined.

Definition lifecycle_as_str (l : RunnerLifecycle) : string :=
  match l with Managed => "managed" | Independent => "independent" end.

Record RunnerIdentity := mkRunnerIdentity {
  ri_boot_id : option string;
  ri_pid : Z;
  ri_started_at_ms : Z;
  ri_nonce : string
}.

(** [RunnerInventoryEntry] and [RunnerClaim]. *)
Record InventoryEntry := mkEntry { ie_workspace_id : string; ie_status : RunnerProcessStatus }.

Record RunnerClaim := mkClaim {
  cl_epoch : Z;
  cl_previous_controller : bool;
  cl_barrier : list string;
  cl_processes : list InventoryEntry;
  cl_events_through : Z
}.

Record RecalledProcess := mkRecalledProcess { rcp_process_id : string; rcp_recalled : Recalled }.
