(* ===== verification/Files.v ===== *)
(** Files of a workspace: the file system adapter ([crates/file-system]), the sandbox that
    resolves a model's paths ([runner/lib.rs]) and the reading, versioning and finding of files
    in windows ([runner/files.rs]).

    The operating system's files are a [Disk]; each operation is given the disk that it sees. *)
From S2P Require Import Prelude Domain Policy Output Api.

(** * Text *)

Definition text (s : string) : list ascii := String.list_ascii_of_string s.
Definition of_text (l : list ascii) : string := String.string_of_list_ascii l.

Definition ends_with (suffix s : string) : bool :=
  bool_decide (text suffix `suffix_of` text s).

Fixpoint contains (needle s : string) : bool :=
  String.prefix needle s ||
  match s with "" => false | String _ s => contains needle s end.

(** [str::replace] of a character. *)
Definition replace_char (a : ascii) (by_ s : string) : string :=
  of_text (text s ≫= fun b => if bool_decide (b = a) then text by_ else [b]).

Definition to_ascii_lowercase (s : string) : string :=
  of_text ((fun a => let n := N_of_ascii a in
    if bool_decide (65 <= n <= 90)%N then ascii_of_N (n + 32) else a) <$> text s).

(** [String::from_utf8_lossy] and whether bytes are UTF-8 as they are. *)
Definition lossy (bytes : list ascii) : list ascii := from_utf8_lossy bytes.

(** * The operating system

    What a path names, without following it; [Path]s are component lists. *)

Abbreviation Path := (list Component).

Inductive NodeKind := KFile | KDir | KSymlink | KSpecial.

#[export] Instance NodeKind_eq_dec : EqDecision NodeKind.
Proof. solve_decision. Defined.

Inductive Errno := ENOENT | ENOTDIR | ELOOP | EOTHER.
Inductive IoKind := IoNotFound | IoNotADirectory | IoOther.

#[export] Instance Errno_eq_dec : EqDecision Errno.
Proof. solve_decision. Defined.
#[export] Instance IoKind_eq_dec : EqDecision IoKind.
Proof. solve_decision. Defined.

Record IoError := mkIoError {
  io_kind : IoKind;
  io_errno : option Errno;
  io_text : string
}.

Record FileMeta := mkFileMeta { is_file : bool; is_dir : bool; is_symlink : bool }.

(** A [Disk], and what the code asks of the standard library ([fs_*]), of [rustix] ([sys_*]) and
    of Codex's local file system without following links ([local_*]). A change gives the disk
    after it, also when it fails. *)
Class FileSystem := {
  Disk : Type;
  (** [Path::canonicalize], [fs::symlink_metadata], [Path::exists], [fs::read] and
      [fs::read_to_string]. *)
  fs_canonicalize : Disk -> string -> result string string;
  fs_symlink_metadata : Disk -> Path -> option NodeKind;
  fs_exists : Disk -> Path -> bool;
  fs_read_bytes : Disk -> Path -> result string (list ascii);
  (** [PathUri::from_host_native_path]. *)
  path_uri : Path -> result string unit;
  local_metadata : Disk -> Path -> result IoError FileMeta;
  local_read_file : Disk -> Path -> result IoError (list ascii);
  local_write_file : Disk -> Path -> list ascii -> Disk * result IoError unit;
  local_create_directory : Disk -> Path -> Disk * result IoError unit;
  local_remove : Disk -> Path -> Disk * result IoError unit;
  (** The entries that a walk of the given bounds lists, each with whether it is a file, and
      whether a bound stopped it. *)
  local_walk : Disk -> Path -> nat -> nat -> nat -> result IoError (list (Path * bool) * bool);
  (** [statat] without following, [openat] of a directory, and of a file with its [fchmod]. *)
  sys_statat : Disk -> Path -> result IoError (NodeKind * Z);
  sys_open_directory : Disk -> Path -> result IoError unit;
  sys_fchmod : Disk -> Path -> Z -> Disk * result IoError unit
}.

(** SHA-256 as a hex digest of bytes. *)
Class Sha256 := sha256_hex : list ascii -> string.

(** * The file system adapter ([file-system/lib.rs] and [unix.rs]) *)

Definition MAX_WALK_DEPTH : nat := 64.
Definition MAX_WALK_DIRECTORIES : Z := 10000.
Definition MAX_WALK_ENTRIES : Z := 50000.

Inductive FsError :=
  | FsNotFound | FsSymlinkRejected | FsNotRegularFile | FsNotDirectory | FsIo (text : string).

#[export] Instance FsError_eq_dec : EqDecision FsError.
Proof. solve_decision. Defined.

Definition fs_error_message (e : FsError) : string :=
  match e with
  | FsNotFound => "file not found"
  | FsSymlinkRejected => "symlink files are rejected"
  | FsNotRegularFile => "not a regular file"
  | FsNotDirectory => "not a directory"
  | FsIo text => text
  end.

Definition is_errno (err : IoError) (code : Errno) : bool :=
  bool_decide (io_errno err = Some code).

Definition looks_like_not_directory (err : IoError) (lower : string) : bool :=
  bool_decide (io_kind err = IoNotADirectory) || is_errno err ENOTDIR
  || contains "not a directory" lower.

Definition looks_like_symlink_denied (err : IoError) (lower : string) : bool :=
  is_errno err ELOOP || contains "path contains a symbolic link" lower
  || contains "symbolic link" lower || contains "symlink" lower
  || contains "too many levels" lower.

(** [components] of [unix.rs]: the names of an absolute path without [.] and [..]. *)
Fixpoint normal_names (path : Path) : option (list string) :=
  match path with
  | [] => Some []
  | Normal name :: path => cons name <$> normal_names path
  | RootDir :: path => normal_names path
  | _ => None
  end.

Definition unix_components (path : Path) : result IoError (list string) :=
  match path with
  | RootDir :: _ =>
      ok_or (mkIoError IoOther None "no-follow filesystem operations require a normalized path")
        (normal_names path)
  | _ => Err (mkIoError IoOther None "no-follow filesystem operations require an absolute path")
  end.

Section adapter.
Context `{FS : FileSystem}.

(** [classify_after_failed_io]: each component is looked at before it is opened. *)
Fixpoint classify_from (disk : Disk) (directory : Path) (names : list string) : option FsError :=
  match names with
  | [] => None
  | name :: rest =>
      let path := directory ++ [Normal name] in
      match sys_statat disk path with
      | Err _ => None
      | Ok (KSymlink, _) => Some FsSymlinkRejected
      | Ok (KDir, _) =>
          match rest with
          | [] => None
          | _ => match sys_open_directory disk path with
                 | Ok _ => classify_from disk path rest
                 | Err _ => None
                 end
          end
      | Ok (_, _) => Some FsNotDirectory
      end
  end.

Definition classify_after_failed_io (disk : Disk) (path : Path) : option FsError :=
  match unix_components path with
  | Ok names => classify_from disk [RootDir] names
  | Err _ => None
  end.

Definition map_io (disk : Disk) (path : Path) (err : IoError) : FsError :=
  if bool_decide (io_kind err = IoNotFound) || is_errno err ENOENT then FsNotFound
  else
    let lower := to_ascii_lowercase (io_text err) in
    if contains "not a regular file" lower then FsNotRegularFile
    else
      let enotdir := looks_like_not_directory err lower in
      let symlink_denied := looks_like_symlink_denied err lower in
      if enotdir || symlink_denied then
        match classify_after_failed_io disk path with
        | Some classified => classified
        | None => if symlink_denied then FsSymlinkRejected else FsNotDirectory
        end
      else FsIo (io_text err).

Definition map_err {E F A} (f : E -> F) (r : result E A) : result F A :=
  match r with Ok a => Ok a | Err e => Err (f e) end.

Definition uri (path : Path) : result FsError unit := map_err FsIo (path_uri path).

Definition read (disk : Disk) (path : Path) : result FsError (list ascii) :=
  _ ← uri path; map_err (map_io disk path) (local_read_file disk path).

Definition metadata (disk : Disk) (path : Path) : result FsError FileMeta :=
  _ ← uri path; map_err (map_io disk path) (local_metadata disk path).

(** A change of the disk: the error is classified on the disk after it. *)
Definition changed (path : Path) (disk : Disk) (change : Disk * result IoError unit)
    : Disk * result FsError unit :=
  match uri path with
  | Err e => (disk, Err e)
  | Ok _ => let '(disk, r) := change in (disk, map_err (map_io disk path) r)
  end.

Definition write (disk : Disk) (path : Path) (bytes : list ascii) : Disk * result FsError unit :=
  changed path disk (local_write_file disk path bytes).
Definition create_dir_all (disk : Disk) (path : Path) : Disk * result FsError unit :=
  changed path disk (local_create_directory disk path).
Definition remove_file (disk : Disk) (path : Path) : Disk * result FsError unit :=
  changed path disk (local_remove disk path).

(** [parent] of [unix.rs] opens every directory above the path's last name. *)
Fixpoint open_directories (disk : Disk) (directory : Path) (names : list string)
    : result IoError unit :=
  match names with
  | [] => Ok tt
  | name :: names =>
      let path := directory ++ [Normal name] in
      _ ← sys_open_directory disk path; open_directories disk path names
  end.

Definition open_parent (disk : Disk) (path : Path) : result IoError unit :=
  names ← unix_components path;
  match names with
  | [] => Err (mkIoError IoOther None "path must name an entry")
  | _ => open_directories disk [RootDir] (removelast names)
  end.

(** The checks that [unix_mode] and [set_unix_mode] share: the node's mode. *)
Definition no_follow_mode (disk : Disk) (path : Path) : result FsError Z :=
  _ ← map_err (map_io disk path) (open_parent disk path);
  node ← map_err (map_io disk path) (sys_statat disk path);
  if bool_decide (node.1 = KSymlink) then Err FsSymlinkRejected else Ok node.2.

Definition unix_mode (disk : Disk) (path : Path) : result FsError Z := no_follow_mode disk path.

Definition set_unix_mode (disk : Disk) (path : Path) (mode : Z) : Disk * result FsError unit :=
  match no_follow_mode disk path with
  | Err e => (disk, Err e)
  | Ok _ => let '(disk, r) := sys_fchmod disk path mode in (disk, map_err (map_io disk path) r)
  end.

Record WalkResult := mkWalkResult { wk_files : list Path; wk_truncated : bool }.

Definition walk_files_limited (disk : Disk) (root : Path)
    (max_depth max_directories max_entries : nat) : result FsError WalkResult :=
  _ ← uri root;
  outcome ← map_err (map_io disk root)
              (local_walk disk root max_depth max_directories max_entries);
  Ok (mkWalkResult (fst <$> List.filter snd outcome.1) outcome.2).

Definition walk_files (disk : Disk) (root : Path) : result FsError WalkResult :=
  walk_files_limited disk root MAX_WALK_DEPTH (Z.to_nat MAX_WALK_DIRECTORIES)
    (Z.to_nat MAX_WALK_ENTRIES).

End adapter.

Definition fs_error_body (e : FsError) : ErrorBody :=
  match e with
  | FsNotFound => error_body FileNotFound (fs_error_message e)
  | FsNotDirectory => error_body PathNotDirectory (fs_error_message e)
  | FsSymlinkRejected => error_body SymlinkRejected (fs_error_message e)
  | FsNotRegularFile => error_body SpecialFileRejected (fs_error_message e)
  | FsIo text => error_body FileOperationFailed text
  end.

(** * The path sandbox ([runner/lib.rs]) *)

(** [Path::parent]: a root has none. *)
Definition parent (path : Path) : option Path :=
  match path with
  | [] | [RootDir] => None
  | _ => Some (removelast path)
  end.

Section sandbox.
Context `{FS : FileSystem}.

Definition canonicalized (disk : Disk) (s : string) : option string :=
  match fs_canonicalize disk s with Ok p => Some p | Err _ => None end.

(** The walk from the path up to the root, or to the root of the file system: each step takes a
    component, so the path's length is enough fuel. *)
Fixpoint reject_links (refusal : Path -> string) (fuel : nat) (disk : Disk)
    (root current : Path) : res unit :=
  match fuel with
  | 0 => Ok tt
  | S fuel =>
      if bool_decide (current = root) then Ok tt
      else if bool_decide (fs_symlink_metadata disk current = Some KSymlink)
      then Err (error_body SymlinkRejected (refusal current))
      else match parent current with
           | Some up => reject_links refusal fuel disk root up
           | None => Ok tt
           end
  end.

Definition reject_symlink_ancestors (disk : Disk) (workspace : Workspace) (dest : Path)
    : res unit :=
  reject_links (fun _ => "symlink files are rejected") (S (length dest)) disk
    (canonical_root (canonicalized disk) workspace) dest.

Definition resolve (disk : Disk) (workspace : Workspace) (relative : string) : res Path :=
  path ← resolve_path (canonicalized disk) workspace relative;
  _ ← reject_symlink_ancestors disk workspace path;
  match fs_symlink_metadata disk path with
  | Some KSymlink => Err (error_body SymlinkRejected "symlink files are rejected")
  | Some KSpecial => Err (error_body SpecialFileRejected "special files are rejected")
  | _ => Ok path
  end.

(** * Reading, versions and finding ([runner/files.rs]) *)

Context {Sha : Sha256}.

Definition VERSION_ABSENT : string := "absent".
Definition DEFAULT_READ_LIMIT : Z := 1024 * 1024.
Definition DEFAULT_FIND_LIMIT : Z := 10000.

Definition version_of (bytes : list ascii) : string := "sha256:" +:+ sha256_hex bytes.

Definition version (disk : Disk) (workspace : Workspace) (relative : string) : res string :=
  path ← resolve disk workspace relative;
  match metadata disk path with
  | Err FsNotFound => Ok VERSION_ABSENT
  | Err err => Err (fs_error_body err)
  | Ok _ =>
      bytes ← map_err fs_error_body (read disk path);
      Ok (version_of bytes)
  end.

Definition resolve_limit (requested : option Z) (max : Z) (what : string) : res Z :=
  let limit := default max requested in
  if bool_decide (limit = 0)%Z || bool_decide (max < limit)%Z
  then Err (error_body OutputLimit
              (what +:+ " limit must be between 1 and " +:+ pretty max))
  else Ok limit.

(** [start.saturating_add(limit).min(len)]. *)
Definition window_end (start limit len : Z) : Z := Z.min (Z.min u64_max (start + limit)) len.

Definition slice {A} (start stop : Z) (l : list A) : list A :=
  take (Z.to_nat (stop - start)) (drop (Z.to_nat start) l).

Definition byte_window (bytes : list ascii) (offset limit : Z) : list ascii * bool :=
  let len := Z.of_nat (length bytes) in
  if bool_decide (len <= offset)%Z then ([], false)
  else
    let stop := window_end offset limit len in
    (slice offset stop bytes, bool_decide (stop < len)%Z).

(** [normalize_rel]. *)
Definition normalize_rel (relative : string) : string := replace_char "\"%char "/" relative.

Definition read_file_window (disk : Disk) (workspace : Workspace) (relative : string)
    (offset limit : option Z) : res ReadResult :=
  limit ← resolve_limit limit DEFAULT_READ_LIMIT "read";
  let offset := default 0%Z offset in
  path ← resolve disk workspace relative;
  meta ← map_err fs_error_body (metadata disk path);
  if is_symlink meta then Err (error_body SymlinkRejected "symlink files are rejected")
  else if negb (is_file meta) then Err (error_body SpecialFileRejected "not a regular file")
  else
    bytes ← map_err fs_error_body (read disk path);
    let '(slice, truncated) := byte_window bytes offset limit in
    Ok {| rdr_path := normalize_rel relative; rdr_content := lossy slice;
          rdr_version := version_of bytes; rdr_truncated := truncated; rdr_offset := offset;
          rdr_byte_count := Z.of_nat (length slice);
          rdr_content_lossy := negb (bool_decide (lossy slice = slice));
          rdr_next_offset := if truncated then Some (offset + Z.of_nat (length slice))%Z else None;
          rdr_coordination := None |}.

Definition glob_match (pat path : string) : bool :=
  if bool_decide (pat = "*") || bool_decide (pat = "**") || bool_decide (pat = "**/*") then true
  else if String.prefix "*." pat
  then ends_with ("." +:+ of_text (drop 2 (text pat))) path
  else if negb (contains "*" pat)
  then bool_decide (path = pat) || ends_with ("/" +:+ pat) path
  else
    let needle := replace_char "*"%char "" pat in
    bool_decide (needle = "") || contains needle path.

Record PathPage := mkPathPage {
  pg_paths : list string;
  pg_truncated : bool;
  pg_incomplete : bool;
  pg_next_offset : option Z
}.

Definition path_window (paths : list string) (offset limit : Z) (walk_truncated : bool)
    : PathPage :=
  let incomplete := walk_truncated in
  let len := Z.of_nat (length paths) in
  if bool_decide (len <= offset)%Z then mkPathPage [] false incomplete None
  else
    let remaining := (len - offset)%Z in
    let truncated := bool_decide (limit < remaining)%Z in
    let page := slice offset (window_end offset limit len) paths in
    mkPathPage page truncated incomplete
      (if truncated then Some (offset + Z.of_nat (length page))%Z else None).

(** The bytes that a listing's version hashes. *)
Definition listing_bytes (paths : list string) (incomplete : bool) : list ascii :=
  text (if incomplete then "incomplete" else "complete") ++ [Ascii.zero] ++
  (paths ≫= fun path => text path ++ [Ascii.zero]).

Definition listing_version (paths : list string) (incomplete : bool) : string :=
  "sha256:" +:+ sha256_hex (listing_bytes paths incomplete).

(** [strip_prefix], [to_string_lossy] and the separators of a path below the root. *)
Definition strip_prefix (root path : Path) : option Path :=
  if starts_with path root then Some (drop (length root) path) else None.

(** [PathBuf::join]: an absolute path replaces what it is joined to. *)
Definition join_path (base : Path) (path : string) : Path :=
  if is_absolute path then components path
  else base ++ filter (fun c => c <> CurDir) (components path).

Definition component_text (c : Component) : string :=
  match c with RootDir => "/" | CurDir => "." | ParentDir => ".." | Normal s => s end.

Definition path_text (path : Path) : string :=
  of_text (lossy (text
    match path with
    | RootDir :: path => "/" +:+ String.concat "/" (component_text <$> path)
    | _ => String.concat "/" (component_text <$> path)
    end)).

Fixpoint relative_paths (root : Path) (files : list Path) : res (list string) :=
  match files with
  | [] => Ok []
  | abs :: files =>
      rel ← ok_or (error_body PathEscape "find left workspace") (strip_prefix root abs);
      rels ← relative_paths root files;
      Ok (replace_char "\"%char "/" (path_text rel) :: rels)
  end.

Definition matching (glob : option string) (paths : list string) : list string :=
  match glob with
  | Some pat => if bool_decide (pat = "") then paths
                else List.filter (glob_match pat) paths
  | None => paths
  end.

Definition text_order (a b : string) : Prop := string_le a b.

#[export] Instance text_order_dec : RelDecision text_order.
Proof. intros a b. unfold text_order. exact _. Defined.

Definition find_window (disk : Disk) (workspace : Workspace) (glob : option string)
    (offset limit : option Z) : res FindResult :=
  limit ← resolve_limit limit DEFAULT_FIND_LIMIT "find";
  let offset := default 0%Z offset in
  root ← map_err (fun err => fs_error_body (FsIo err)) (fs_canonicalize disk (ws_root workspace));
  let root := components root in
  walked ← map_err fs_error_body (walk_files disk root);
  rels ← relative_paths root (wk_files walked);
  let paths := merge_sort text_order (matching glob rels) in
  let page := path_window paths offset limit (wk_truncated walked) in
  Ok {| fnd_paths := pg_paths page; fnd_truncated := pg_truncated page; fnd_offset := offset;
        fnd_incomplete := pg_incomplete page;
        fnd_listing_version := listing_version paths (pg_incomplete page);
        fnd_next_offset := pg_next_offset page; fnd_coordination := None |}.

End sandbox.

(** * Windows

    A client follows [next_offset] from the first window until there is none. *)

Fixpoint follow {P} (fuel : nat) (next : P -> option Z) (fetch : option Z -> res P)
    (offset : option Z) : res (list P) :=
  match fuel with
  | 0 => Ok []
  | S fuel =>
      page ← fetch offset;
      match next page with
      | None => Ok [page]
      | Some offset => pages ← follow fuel next fetch (Some offset); Ok (page :: pages)
      end
  end.

(** The same where what is fetched may change from one page to the next. *)
Fixpoint follow_pages {P} (page_no fuel : nat) (next : P -> option Z) (fetch : nat -> option Z -> res P)
    (offset : option Z) : res (list P) :=
  match fuel with
  | 0 => Ok []
  | S fuel =>
      page ← fetch page_no offset;
      match next page with
      | None => Ok [page]
      | Some offset => pages ← follow_pages (S page_no) fuel next fetch (Some offset); Ok (page :: pages)
      end
  end.

(** Pages that could all have been fetched from one place were followed there. *)
Lemma follow_pages_same {P} page_no fuel next (fetch : nat -> option Z -> res P) (fetch0 : option Z -> res P)
    (same : P -> Prop) offset pages :
  (forall k o page, fetch k o = Ok page -> same page -> fetch0 o = Ok page) ->
  follow_pages page_no fuel next fetch offset = Ok pages -> Forall same pages ->
  follow fuel next fetch0 offset = Ok pages.
Proof.
  intros Hsame. revert page_no offset pages. induction fuel as [|fuel IH]; intros k offset pages; [done|].
  cbn [follow_pages follow]. intros (page & Hp & Hrest)%bind_Ok Hall.
  assert (Hin : same page -> fetch0 offset = Ok page) by (intros Hs; by eapply Hsame).
  destruct (next page) as [o|] eqn:Hn.
  - apply bind_Ok in Hrest as (rest & Hr & [= <-]). apply Forall_cons in Hall as [Hp0 Hall].
    rewrite (Hin Hp0). cbn [mbind result_bind]. rewrite Hn. by rewrite (IH _ _ _ Hr Hall).
  - injection Hrest as <-. apply Forall_cons in Hall as [Hall _]. rewrite (Hin Hall).
    cbn [mbind result_bind]. by rewrite Hn.
Qed.

Lemma follow_pages_const {P} page_no fuel next (fetch : nat -> option Z -> res P) (fetch0 : option Z -> res P) offset :
  (forall k o, fetch k o = fetch0 o) ->
  follow_pages page_no fuel next fetch offset = follow fuel next fetch0 offset.
Proof.
  intros Hf. revert page_no offset. induction fuel as [|fuel IH]; intros k offset; [done|]. cbn.
  rewrite Hf. destruct (fetch0 offset) as [page|]; [|done]. cbn. destruct (next page); [|done]. by rewrite IH.
Qed.

Lemma slice_window {A} (l : list A) offset limit :
  (0 <= offset)%Z -> (0 <= limit)%Z -> (Z.of_nat (length l) <= u64_max)%Z ->
  slice offset (window_end offset limit (Z.of_nat (length l))) l
    = take (Z.to_nat limit) (drop (Z.to_nat offset) l).
Proof.
  intros Ho Hl Hu. unfold slice, window_end.
  destruct (decide (offset + limit <= Z.of_nat (length l))%Z) as [H|H].
  - f_equal. lia.
  - rewrite !take_ge; [done|rewrite length_drop; lia..].
Qed.

Section windows.
Context {A P : Type} (l : list A) (limit : Z) (body : P -> list A) (next : P -> option Z)
  (fetch : option Z -> res P).
Hypothesis limit_pos : (0 < limit)%Z.

(** [page] is the window of [l] at [offset]. *)
Definition window_at (offset : Z) (page : P) : Prop :=
  body page = take (Z.to_nat limit) (drop (Z.to_nat offset) l) /\
  next page = if bool_decide (offset + limit < Z.of_nat (length l))%Z
              then Some (offset + limit)%Z else None.

Hypothesis fetch_window : forall offset, (0 <= default 0%Z offset)%Z ->
  exists page, fetch offset = Ok page /\ window_at (default 0%Z offset) page.

(** Following to the end gives the windows in order, the last one without a next offset, and
    their bodies make up the list. *)
Lemma follow_windows fuel offset :
  (0 <= default 0%Z offset)%Z -> fuel <> 0 ->
  (Z.of_nat (length l) - default 0%Z offset <= limit * Z.of_nat fuel)%Z ->
  exists pages, follow fuel next fetch offset = Ok pages /\
    mjoin (body <$> pages) = drop (Z.to_nat (default 0%Z offset)) l /\
    next <$> last pages = Some None /\
    Forall (fun page => exists o, (0 <= default 0%Z o)%Z /\ fetch o = Ok page) pages.
Proof.
  revert offset. induction fuel as [|fuel IH]; intros offset Ho Hf Hlen; [done|].
  destruct (fetch_window offset Ho) as (page & Hp & Hb & Hn). cbn [follow].
  rewrite Hp. cbn [mbind result_bind]. rewrite Hn. case_bool_decide as Hmore.
  - assert (Hfu : fuel <> 0) by (intros ->; lia).
    destruct (IH (Some (default 0 offset + limit)%Z)) as (pages & Hr & Hj & Hl & Ha);
      [cbn; lia|done|cbn; lia|].
    cbn [default] in Hj. exists (page :: pages). rewrite Hr. split; [done|]. split; [|split].
    + cbn [fmap list_fmap]. rewrite mjoin_cons, Hb, Hj.
      rewrite <- (take_drop (Z.to_nat limit) (drop (Z.to_nat (default 0%Z offset)) l)) at 2.
      f_equal. rewrite drop_drop. f_equal. cbn. lia.
    + destruct pages; [done|]. exact Hl.
    + constructor; [by exists offset|done].
  - exists [page]. split; [done|]. split; [|split; [cbn; by rewrite Hn|]].
    + cbn. rewrite app_nil_r, Hb. apply take_ge. rewrite length_drop. lia.
    + constructor; [by exists offset|constructor].
Qed.

(** Whatever was followed to its end makes up the list. *)
Lemma follow_to_the_end fuel offset pages :
  (0 <= default 0%Z offset)%Z -> follow fuel next fetch offset = Ok pages ->
  next <$> last pages = Some None ->
  mjoin (body <$> pages) = drop (Z.to_nat (default 0%Z offset)) l.
Proof.
  revert offset pages. induction fuel as [|fuel IH]; intros offset pages Ho; [by intros [= <-]|].
  destruct (fetch_window offset Ho) as (page & Hp & Hb & Hn). cbn [follow].
  rewrite Hp. cbn [mbind result_bind]. rewrite Hn. case_bool_decide as Hmore.
  - intros (rest & Hr & [= <-])%bind_Ok Hlast.
    assert (Hend : next <$> last rest = Some None).
    { destruct rest; [|exact Hlast]. cbn in Hlast. by rewrite Hn in Hlast. }
    assert (Ho' : (0 <= default 0%Z (Some (default 0 offset + limit)))%Z) by (cbn; lia).
    pose proof (IH _ rest Ho' Hr Hend) as Hj. cbn [default from_option] in Hj.
    cbn [fmap list_fmap]. rewrite mjoin_cons, Hb, Hj.
    rewrite <- (take_drop (Z.to_nat limit) (drop (Z.to_nat (default 0%Z offset)) l)) at 2.
    f_equal. rewrite drop_drop. f_equal. cbn. lia.
  - intros [= <-] _. cbn. rewrite app_nil_r, Hb. apply take_ge. rewrite length_drop. lia.
Qed.
End windows.

Lemma byte_window_eq bytes offset limit :
  (0 <= offset)%Z -> (0 <= limit)%Z -> (Z.of_nat (length bytes) <= u64_max)%Z ->
  byte_window bytes offset limit =
    (take (Z.to_nat limit) (drop (Z.to_nat offset) bytes),
     bool_decide (offset + limit < Z.of_nat (length bytes))%Z).
Proof.
  intros Ho Hl Hu. unfold byte_window. case_bool_decide as H.
  - rewrite drop_ge by lia. rewrite bool_decide_eq_false_2 by lia. by rewrite take_nil.
  - rewrite slice_window by done. f_equal. apply bool_decide_ext. unfold window_end. lia.
Qed.

Lemma path_window_eq paths offset limit incomplete :
  (0 <= offset)%Z -> (0 <= limit)%Z -> (Z.of_nat (length paths) <= u64_max)%Z ->
  let more := bool_decide (offset + limit < Z.of_nat (length paths))%Z in
  path_window paths offset limit incomplete =
    mkPathPage (take (Z.to_nat limit) (drop (Z.to_nat offset) paths)) more incomplete
      (if more then Some (offset + limit)%Z else None).
Proof.
  intros Ho Hl Hu. cbn zeta. unfold path_window. case_bool_decide as H.
  - rewrite drop_ge by lia. rewrite bool_decide_eq_false_2 by lia. by rewrite take_nil.
  - rewrite slice_window by done.
    replace (bool_decide (limit < Z.of_nat (length paths) - offset)%Z)
      with (bool_decide (offset + limit < Z.of_nat (length paths))%Z) by (apply bool_decide_ext; lia).
    case_bool_decide as Hm; [|done]. do 2 f_equal.
    rewrite length_take, length_drop. lia.
Qed.

Lemma resolve_limit_Ok requested max what n :
  resolve_limit requested max what = Ok n -> (0 <= default max requested)%Z ->
  n = default max requested /\ (0 < n <= max)%Z.
Proof.
  unfold resolve_limit. intros H Hn.
  destruct (bool_decide_reflect (default max requested = 0%Z)); [done|].
  destruct (bool_decide_reflect (max < default max requested)%Z); [done|].
  cbn in H. simplify_eq. lia.
Qed.

Section reading.
Context `{FS : FileSystem} {Sha : Sha256}.

(** [path] names the regular file [bytes], and [relative] resolves to it. *)
Record reads_as (disk : Disk) (workspace : Workspace) (relative : string) (bytes : list ascii)
    : Prop := {
  ra_path : exists path, resolve disk workspace relative = Ok path /\
    read disk path = Ok bytes /\
    exists dir, metadata disk path = Ok (mkFileMeta true dir false);
  ra_length : (Z.of_nat (length bytes) <= u64_max)%Z
}.

Lemma read_window disk workspace relative bytes offset limit n :
  reads_as disk workspace relative bytes -> (0 <= default 0%Z offset)%Z -> (0 < n)%Z ->
  resolve_limit limit DEFAULT_READ_LIMIT "read" = Ok n ->
  let slice := take (Z.to_nat n) (drop (Z.to_nat (default 0%Z offset)) bytes) in
  let more := bool_decide (default 0 offset + n < Z.of_nat (length bytes))%Z in
  read_file_window disk workspace relative offset limit = Ok
    {| rdr_path := normalize_rel relative; rdr_content := lossy slice;
       rdr_version := version_of bytes; rdr_truncated := more;
       rdr_offset := default 0%Z offset; rdr_byte_count := Z.of_nat (length slice);
       rdr_content_lossy := negb (bool_decide (lossy slice = slice));
       rdr_next_offset := if more then Some (default 0 offset + n)%Z else None;
       rdr_coordination := None |}.
Proof.
  intros [(path & Hp & Hr & dir & Hm) Hu] Ho Hn Hl. cbn zeta. unfold read_file_window.
  rewrite Hl. cbn [mbind result_bind]. rewrite Hp. cbn [mbind result_bind].
  rewrite Hm. cbn [map_err mbind result_bind is_symlink is_file negb]. rewrite Hr.
  cbn [map_err mbind result_bind]. rewrite byte_window_eq by lia.
  case_bool_decide as Hmore; [|done]. do 3 f_equal. rewrite length_take, length_drop. lia.
Qed.

Lemma resolve_limit_positive limit max what n :
  (forall l, limit = Some l -> (0 <= l)%Z) -> (0 <= max)%Z ->
  resolve_limit limit max what = Ok n -> (0 < n)%Z.
Proof.
  intros Hl Hm H. apply resolve_limit_Ok in H; [lia|]. destruct limit; cbn; [by apply Hl|done].
Qed.

(** A client that reads a file by windows of any admitted size, from its start and then at
    each [next_offset], comes to an end within one window per byte, and has the whole file once:
    every answer states the file's version and its own place, the windows' bytes in order are
    the file, and if no answer says that its text was altered, the texts are the file too. *)
Theorem reading_by_windows_gives_the_file disk workspace relative bytes limit n :
  reads_as disk workspace relative bytes -> (forall l, limit = Some l -> (0 <= l)%Z) ->
  resolve_limit limit DEFAULT_READ_LIMIT "read" = Ok n ->
  exists pages,
    follow (S (length bytes)) rdr_next_offset
      (fun offset => read_file_window disk workspace relative offset limit) None = Ok pages /\
    rdr_next_offset <$> last pages = Some None /\
    mjoin ((fun page => take (Z.to_nat (rdr_byte_count page))
                          (drop (Z.to_nat (rdr_offset page)) bytes)) <$> pages) = bytes /\
    Forall (fun page => rdr_version page = version_of bytes /\
      rdr_content page = lossy (take (Z.to_nat (rdr_byte_count page))
                                  (drop (Z.to_nat (rdr_offset page)) bytes))) pages /\
    (Forall (fun page => rdr_content_lossy page = false) pages ->
     mjoin (rdr_content <$> pages) = bytes).
Proof.
  intros Hra Hlim Hl. pose proof (resolve_limit_positive limit DEFAULT_READ_LIMIT _ n Hlim ltac:(done) Hl) as Hn.
  set (body := fun page => take (Z.to_nat (rdr_byte_count page))
                             (drop (Z.to_nat (rdr_offset page)) bytes)).
  assert (Hcut : forall o, take (Z.to_nat (Z.of_nat (length (take (Z.to_nat n) (drop o bytes)))))
                             (drop o bytes) = take (Z.to_nat n) (drop o bytes)).
  { intros o. rewrite Nat2Z.id, length_take.
    destruct (decide (Z.to_nat n <= length (drop o bytes))).
    - by rewrite Nat.min_l.
    - rewrite Nat.min_r by lia. rewrite !take_ge; [done|lia..]. }
  destruct (follow_windows bytes n body rdr_next_offset
    (fun offset => read_file_window disk workspace relative offset limit) Hn) with
    (fuel := S (length bytes)) (offset := @None Z) as (pages & Hf & Hj & Hlast & Hall);
    [|done|done|cbn [default]; nia|].
  - intros offset Ho. eexists. split; [by apply (read_window _ _ _ bytes _ _ n)|].
    split; [|done]. unfold body. cbn. apply Hcut.
  - cbn in Hj. rewrite drop_0 in Hj. exists pages. split; [done|]. split; [done|]. split; [done|].
    assert (Hpages : Forall (fun page => rdr_version page = version_of bytes /\
      rdr_content page = lossy (body page) /\
      (rdr_content_lossy page = false -> rdr_content page = body page)) pages).
    { eapply Forall_impl; [exact Hall|]. intros page (o & Ho & Hp).
      rewrite (read_window _ _ _ bytes _ _ n) in Hp by done. injection Hp as <-. unfold body. cbn.
      rewrite Hcut. split; [done|]. split; [done|]. by case_bool_decide. }
    split; [eapply Forall_impl; [exact Hpages|]; by intros page (? & ? & _)|].
    intros Hno. rewrite <- Hj. f_equal. apply list_fmap_ext. intros i page Hi.
    rewrite Forall_lookup in Hpages, Hno. by apply (Hpages i page Hi), (Hno i).
Qed.
End reading.

(** * Listings *)

Section finding.
Context `{FS : FileSystem} {Sha : Sha256}.

#[local] Instance text_order_total : Total text_order.
Proof. exact string_le_total. Qed.
#[local] Instance text_order_trans : Transitive text_order.
Proof. intros a b c. apply string_le_trans. Qed.

(** The sorted matching paths that a find answers from, and whether the walk was stopped. *)
Definition listing (disk : Disk) (workspace : Workspace) (glob : option string)
    : res (list string * bool) :=
  root ← map_err (fun err => fs_error_body (FsIo err)) (fs_canonicalize disk (ws_root workspace));
  walked ← map_err fs_error_body (walk_files disk (components root));
  rels ← relative_paths (components root) (wk_files walked);
  Ok (merge_sort text_order (matching glob rels), wk_truncated walked).

Lemma find_window_eq disk workspace glob offset limit paths incomplete n :
  listing disk workspace glob = Ok (paths, incomplete) ->
  (0 <= default 0%Z offset)%Z -> (0 < n)%Z -> (Z.of_nat (length paths) <= u64_max)%Z ->
  resolve_limit limit DEFAULT_FIND_LIMIT "find" = Ok n ->
  let more := bool_decide (default 0 offset + n < Z.of_nat (length paths))%Z in
  find_window disk workspace glob offset limit = Ok
    {| fnd_paths := take (Z.to_nat n) (drop (Z.to_nat (default 0%Z offset)) paths);
       fnd_truncated := more; fnd_offset := default 0%Z offset; fnd_incomplete := incomplete;
       fnd_listing_version := listing_version paths incomplete;
       fnd_next_offset := if more then Some (default 0 offset + n)%Z else None;
       fnd_coordination := None |}.
Proof.
  intros Hls Ho Hn Hu Hl. cbn zeta. unfold find_window, listing in *. rewrite Hl.
  cbn [mbind result_bind]. destruct (map_err _ (fs_canonicalize _ _)) as [root|]; [|done].
  cbn [mbind result_bind] in *. destruct (map_err _ (walk_files _ _)) as [walked|]; [|done].
  cbn [mbind result_bind] in *. destruct (relative_paths _ _) as [rels|]; [|done].
  cbn [mbind result_bind] in *. injection Hls as <- <-.
  by rewrite path_window_eq by lia.
Qed.

(** ** What a listing's version identifies *)

Definition nul_free (path : string) : Prop := Ascii.zero ∉ text path.

Lemma text_inj a b : text a = text b -> a = b.
Proof.
  intros H. rewrite <- (String.string_of_list_ascii_of_string a),
    <- (String.string_of_list_ascii_of_string b). unfold text in H. by rewrite H.
Qed.

(** Words that end at their first NUL are read off one by one. *)
Lemma nul_ended_inj (a b k l : list ascii) :
  Ascii.zero ∉ a -> Ascii.zero ∉ b ->
  a ++ [Ascii.zero] ++ k = b ++ [Ascii.zero] ++ l -> a = b /\ k = l.
Proof.
  revert b. induction a as [|x a IH]; intros [|y b] Ha Hb H; cbn in H; simplify_eq.
  - done.
  - by destruct Hb; left.
  - by destruct Ha; left.
  - destruct (IH b) as [-> ->]; [set_solver..|done|done].
Qed.

Lemma listed_inj ps qs :
  Forall nul_free ps -> Forall nul_free qs ->
  (ps ≫= fun path => text path ++ [Ascii.zero]) = (qs ≫= fun path => text path ++ [Ascii.zero]) ->
  ps = qs.
Proof.
  intros Hp. revert qs. induction Hp as [|p ps Hp Hps IH]; intros qs Hq Heq.
  - destruct qs as [|q qs]; [done|]. cbn in Heq. destruct (text q); done.
  - destruct Hq as [|q qs Hq Hqs]; cbn in Heq; [by destruct (text p)|].
    rewrite <- !app_assoc in Heq. apply nul_ended_inj in Heq as [Ht Hr]; [|done..].
    apply text_inj in Ht as ->. by rewrite (IH qs).
Qed.

(** A listing's version identifies what was listed: as far as SHA-256 does not collide on the
    two listings, the same version means the same paths in the same order and the same
    completeness. No path holds a NUL. *)
Theorem listing_version_identifies ps i qs j :
  Forall nul_free ps -> Forall nul_free qs ->
  (sha256_hex (listing_bytes ps i) = sha256_hex (listing_bytes qs j) ->
   listing_bytes ps i = listing_bytes qs j) ->
  listing_version ps i = listing_version qs j -> ps = qs /\ i = j.
Proof.
  intros Hp Hq Hsha Hv. unfold listing_version in Hv.
  assert (sha256_hex (listing_bytes ps i) = sha256_hex (listing_bytes qs j)) as Hs.
  { apply text_inj. apply (f_equal text) in Hv. by injection Hv. }
  apply Hsha in Hs. unfold listing_bytes in Hs.
  apply nul_ended_inj in Hs as [Hi Hl]; [|by apply (bool_decide_unpack _); destruct i
                                         |by apply (bool_decide_unpack _); destruct j].
  split; [by apply listed_inj|]. by destruct i, j.
Qed.

Lemma listing_sorted disk workspace glob paths incomplete :
  listing disk workspace glob = Ok (paths, incomplete) -> StronglySorted text_order paths.
Proof.
  unfold listing. destruct (map_err _ (fs_canonicalize _ _)) as [root|]; [|done].
  cbn [mbind result_bind]. destruct (map_err _ (walk_files _ _)) as [walked|]; [|done].
  cbn [mbind result_bind]. destruct (relative_paths _ _) as [rels|]; [|done].
  intros [= <- _]. apply (StronglySorted_merge_sort _).
Qed.

(** A find answers from the listing, and states its version. *)
Lemma find_window_listing disk workspace glob offset limit page :
  find_window disk workspace glob offset limit = Ok page ->
  exists paths, listing disk workspace glob = Ok (paths, fnd_incomplete page) /\
    fnd_listing_version page = listing_version paths (fnd_incomplete page).
Proof.
  unfold find_window, listing. intros (n & _ & Hf)%bind_Ok.
  apply bind_Ok in Hf as (root & Hroot & Hf). rewrite Hroot. cbn [mbind result_bind].
  apply bind_Ok in Hf as (walked & Hw & Hf). rewrite Hw. cbn [mbind result_bind].
  apply bind_Ok in Hf as (rels & Hr & Hf). rewrite Hr. cbn [mbind result_bind]. injection Hf as <-.
  eexists. cbn. assert (Hi : pg_incomplete (path_window (merge_sort text_order (matching glob rels))
    (default 0%Z offset) n (wk_truncated walked)) = wk_truncated walked)
    by (unfold path_window; by case_bool_decide).
  by rewrite Hi.
Qed.

Lemma find_window_same disk disk' workspace glob offset limit listed :
  listing disk workspace glob = Ok listed -> listing disk' workspace glob = Ok listed ->
  find_window disk workspace glob offset limit = find_window disk' workspace glob offset limit.
Proof.
  unfold find_window, listing. destruct (resolve_limit _ _ _); [|done]. cbn [mbind result_bind].
  intros (root & -> & H)%bind_Ok (root' & -> & H')%bind_Ok. cbn [mbind result_bind] in *.
  apply bind_Ok in H as (walked & Hw & H), H' as (walked' & Hw' & H'). rewrite Hw, Hw'. cbn [mbind result_bind].
  apply bind_Ok in H as (rels & Hr & H), H' as (rels' & Hr' & H'). rewrite Hr, Hr'. cbn [mbind result_bind].
  injection H as <-. by injection H' as -> ->.
Qed.

(** C34: A client that lists files by pages of any admitted size, while the files may change from
    one page to the next: where the pages that it followed to the end all state the same listing
    version, they are pages of one listing, as SHA-256 does not collide on those listed. Their paths
    in order are the sorted matching paths that the walk for the first page saw, each once, the
    version is that list's, and each page states whether that walk saw all files. And while the
    listing does not change, the client comes to the end and every page does state its version. *)
Theorem finding_by_pages_gives_the_listing (disks : nat -> Disk) workspace glob limit n :
  (forall l, limit = Some l -> (0 <= l)%Z) ->
  resolve_limit limit DEFAULT_FIND_LIMIT "find" = Ok n ->
  (forall k paths i, listing (disks k) workspace glob = Ok (paths, i) ->
     Forall nul_free paths /\ (Z.of_nat (length paths) <= u64_max)%Z) ->
  (forall j k ps i qs i', listing (disks j) workspace glob = Ok (ps, i) ->
     listing (disks k) workspace glob = Ok (qs, i') ->
     sha256_hex (listing_bytes ps i) = sha256_hex (listing_bytes qs i') ->
     listing_bytes ps i = listing_bytes qs i') ->
  let fetch k offset := find_window (disks k) workspace glob offset limit in
  (forall fuel pages version,
     follow_pages 0 fuel fnd_next_offset fetch None = Ok pages ->
     fnd_next_offset <$> last pages = Some None ->
     Forall (fun page => fnd_listing_version page = version) pages ->
     exists paths incomplete, listing (disks 0) workspace glob = Ok (paths, incomplete) /\
       mjoin (fnd_paths <$> pages) = paths /\ StronglySorted text_order paths /\
       version = listing_version paths incomplete /\
       Forall (fun page => fnd_incomplete page = incomplete) pages) /\
  (forall paths incomplete,
     (forall k, listing (disks k) workspace glob = Ok (paths, incomplete)) ->
     exists pages, follow_pages 0 (S (length paths)) fnd_next_offset fetch None = Ok pages /\
       fnd_next_offset <$> last pages = Some None /\
       Forall (fun page => fnd_listing_version page = listing_version paths incomplete) pages).
Proof.
  intros Hlim Hl Hpaths Hsha fetch.
  pose proof (resolve_limit_positive limit DEFAULT_FIND_LIMIT _ n Hlim ltac:(done) Hl) as Hn.
  assert (Hwindow : forall paths incomplete, listing (disks 0) workspace glob = Ok (paths, incomplete) ->
    forall offset, (0 <= default 0%Z offset)%Z ->
    exists page, fetch 0 offset = Ok page /\
      window_at paths n fnd_paths fnd_next_offset (default 0%Z offset) page).
  { intros paths incomplete Hls offset Ho. destruct (Hpaths 0 _ _ Hls) as [_ Hu]. eexists.
    split; [by apply (find_window_eq _ _ _ _ _ paths incomplete n)|]. by split. }
  split.
  - intros fuel pages version Hf Hlast Hall.
    destruct pages as [|first pages]; [done|].
    assert (Hfirst : exists offset, fetch 0 offset = Ok first).
    { destruct fuel; [done|]. cbn [follow_pages] in Hf. apply bind_Ok in Hf as (page & Hp & Hrest).
      exists None. destruct (fnd_next_offset page); [apply bind_Ok in Hrest as (? & _ & [= <- _])|injection Hrest as <- _]; done. }
    destruct Hfirst as [offset0 Hfirst].
    apply find_window_listing in Hfirst as (paths & Hls & Hv).
    pose proof (Forall_inv Hall) as Hversion. cbn in Hversion. rewrite Hv in Hversion.
    assert (Hone : forall k offset page, fetch k offset = Ok page -> fnd_listing_version page = version ->
      fetch 0 offset = Ok page /\ fnd_incomplete page = fnd_incomplete first).
    { intros k offset page Hp Hpv. pose proof Hp as (qs & Hqs & Hqv)%find_window_listing.
      rewrite Hqv, <- Hversion in Hpv. destruct (Hpaths k _ _ Hqs) as [Hq _], (Hpaths 0 _ _ Hls) as [H0 _].
      apply listing_version_identifies in Hpv as [-> Hi]; [|done..|by apply (Hsha k 0)].
      rewrite Hi in Hqs. split; [|done]. rewrite <- Hp. by eapply find_window_same. }
    apply (follow_pages_same _ _ _ _ (fetch 0) (fun page => fnd_listing_version page = version)) in Hf;
      [|intros k o page Hp Hpv; by apply (Hone k)|done].
    exists paths, (fnd_incomplete first). split; [done|]. split_and!; [|by eapply listing_sorted|done|].
    + by rewrite (follow_to_the_end paths n fnd_paths fnd_next_offset (fetch 0) Hn (Hwindow _ _ Hls) fuel None) by done.
    + clear -Hf Hall Hone. revert Hf Hall. generalize (@None Z), (first :: pages). 
      induction fuel as [|fuel IH]; intros offset ps; [by intros [= <-] _|].
      cbn [follow]. intros (page & Hp & Hrest)%bind_Ok.
      destruct (fnd_next_offset page).
      * apply bind_Ok in Hrest as (rest & Hr & [= <-]). intros [Hpv Hall]%Forall_cons.
        constructor; [by apply (Hone 0 offset)|by eapply IH].
      * injection Hrest as <-. intros [Hpv _]%Forall_cons. constructor; [by apply (Hone 0 offset)|done].
  - intros paths incomplete Hls. specialize (Hwindow _ _ (Hls 0)).
    destruct (follow_windows paths n fnd_paths fnd_next_offset (fetch 0) Hn Hwindow (S (length paths)) None)
      as (pages & Hf & Hj & Hlast & Hall); [done|done|cbn [default]; nia|].
    exists pages. split; [|split; [done|]].
    + rewrite <- Hf. apply follow_pages_const. intros k o. by eapply find_window_same.
    + eapply Forall_impl; [exact Hall|]. intros page (o & _ & Hp).
      apply find_window_listing in Hp as (qs & Hqs & Hv). rewrite Hls in Hqs. injection Hqs as <- Hi. by rewrite Hv, <- Hi.
Qed.
End finding.

(** * The sandbox *)

Section confinement.
Context `{FS : FileSystem}.

Lemma parent_snoc path c : path <> [] -> parent (path ++ [c]) = Some path.
Proof.
  intros Hp. unfold parent. destruct path as [|x path]; [done|]. cbn.
  destruct (path ++ [c]) eqn:E; [by destruct path|]. rewrite <- E.
  destruct x; by rewrite <- ?E, ?(removelast_last path c).
Qed.

(** The walk up looks at every path between the root and the destination. *)
Lemma reject_links_all refusal fuel disk root names :
  root <> [] -> length names < fuel ->
  reject_links refusal fuel disk root (root ++ names) = Ok tt ->
  forall k, 0 < k <= length names ->
    fs_symlink_metadata disk (root ++ take k names) <> Some KSymlink.
Proof.
  intros Hroot. revert fuel. induction names as [|c names IH] using rev_ind; intros fuel Hf H k Hk.
  { cbn in Hk. lia. }
  destruct fuel as [|fuel]; [lia|]. cbn [reject_links] in H.
  rewrite length_app in Hf, Hk. cbn in Hf, Hk.
  destruct (bool_decide_reflect (root ++ names ++ [c] = root)) as [E|_].
  { apply (f_equal length) in E. rewrite !length_app in E. cbn in E. lia. }
  destruct (bool_decide_reflect (fs_symlink_metadata disk (root ++ names ++ [c]) = Some KSymlink));
    [done|].
  rewrite app_assoc, parent_snoc in H by (by destruct root).
  destruct (decide (k = S (length names))) as [->|Hne].
  - rewrite take_ge; [done|]. rewrite length_app. cbn. lia.
  - rewrite take_app_le by lia. apply (IH fuel); [lia|done|lia].
Qed.

(** C35: A path that the sandbox resolves is under the workspace's canonical root by plain names,
    and neither it nor any directory between the root and it is a symbolic link at that
    moment, nor is it a pipe, a socket or a device. *)
Theorem resolved_paths_follow_no_link disk workspace relative path :
  canonical_root (canonicalized disk) workspace <> [] ->
  resolve disk workspace relative = Ok path ->
  exists names,
    path = canonical_root (canonicalized disk) workspace ++ (Normal <$> names) /\
    Forall is_name names /\
    (forall k, 0 < k <= length names ->
       fs_symlink_metadata disk
         (canonical_root (canonicalized disk) workspace ++ (Normal <$> take k names))
       <> Some KSymlink) /\
    fs_symlink_metadata disk path <> Some KSymlink /\
    fs_symlink_metadata disk path <> Some KSpecial.
Proof.
  intros Hroot Hr. unfold resolve in Hr.
  destruct (resolve_path (canonicalized disk) workspace relative) as [p|e] eqn:E; [|done].
  destruct (resolve_path_names _ _ _ _ E) as (names & -> & Hnames). cbn [mbind result_bind] in Hr.
  set (root := canonical_root _ _) in *. set (p := root ++ _) in *.
  destruct (reject_symlink_ancestors disk workspace p) as [[]|] eqn:Ea; [|done].
  cbn [mbind result_bind] in Hr. exists names.
  assert (path = p /\ fs_symlink_metadata disk p <> Some KSymlink /\
          fs_symlink_metadata disk p <> Some KSpecial) as (-> & H1 & H2)
    by (destruct (fs_symlink_metadata disk p) as [[]|]; by simplify_eq).
  split; [done|]. split; [done|]. split; [|done]. intros k Hk.
  rewrite fmap_take. eapply reject_links_all; [done| |exact Ea|by rewrite length_fmap].
  unfold p. rewrite length_app, length_fmap. lia.
Qed.
End confinement.

(** * A disk as a map

    A concrete file system: a map from absolute paths to what they name, without links in the
    root's own path. *)

Inductive Node := NFile (bytes : list ascii) (mode : Z) | NDir | NLink | NSpecial.

#[export] Instance Component_countable : Countable Component.
Proof.
  refine (inj_countable' (fun c => match c with RootDir => inl 0 | CurDir => inl 1
            | ParentDir => inl 2 | Normal s => inr s end)
          (fun x => match x with inl 0 => RootDir | inl 1 => CurDir | inl _ => ParentDir
            | inr s => Normal s end) _).
  by intros [].
Defined.

Definition node_kind (n : Node) : NodeKind :=
  match n with NFile _ _ => KFile | NDir => KDir | NLink => KSymlink | NSpecial => KSpecial end.

Definition S_IFREG : Z := 32768.

Definition no_entry : IoError := mkIoError IoNotFound (Some ENOENT) "No such file or directory".
Definition not_regular : IoError := mkIoError IoOther None "not a regular file".

Section map_disk.
Abbreviation MapDisk := (gmap Path Node).

Definition map_node (d : MapDisk) (p : Path) : result IoError Node := ok_or no_entry (d !! p).

Definition map_bytes (d : MapDisk) (p : Path) : result IoError (list ascii) :=
  n ← map_node d p; match n with NFile b _ => Ok b | _ => Err not_regular end.

Definition map_write (d : MapDisk) (p : Path) (b : list ascii) : MapDisk * result IoError unit :=
  match d !! p with
  | None => (<[p := NFile b (S_IFREG + 420)]> d, Ok tt)
  | Some (NFile _ m) => (<[p := NFile b m]> d, Ok tt)
  | _ => (d, Err not_regular)
  end.

(** Every missing directory on the way. *)
Definition map_mkdir (d : MapDisk) (p : Path) : MapDisk * result IoError unit :=
  (foldl (fun d k => match d !! take k p with None => <[take k p := NDir]> d | Some _ => d end)
     d (seq 1 (length p)), Ok tt).

Definition map_remove (d : MapDisk) (p : Path) : MapDisk * result IoError unit :=
  match d !! p with
  | Some (NFile _ _) => (delete p d, Ok tt)
  | Some _ => (d, Err not_regular)
  | None => (d, Err no_entry)
  end.

Definition map_chmod (d : MapDisk) (p : Path) (mode : Z) : MapDisk * result IoError unit :=
  match d !! p with
  | Some (NFile b _) => (<[p := NFile b mode]> d, Ok tt)
  | Some _ => (d, Err not_regular)
  | None => (d, Err no_entry)
  end.

Definition is_dir_kind (n : Node) : bool := bool_decide (node_kind n = KDir).

#[export] Instance map_fs : FileSystem := {|
  Disk := MapDisk;
  fs_canonicalize d s :=
    match d !! components s with
    | Some NDir | Some (NFile _ _) => Ok s
    | _ => Err "No such file or directory"
    end;
  fs_symlink_metadata d p := node_kind <$> d !! p;
  fs_exists d p := is_some (d !! p);
  fs_read_bytes d p := match map_bytes d p with Ok b => Ok b | Err e => Err (io_text e) end;
  path_uri p := Ok tt;
  local_metadata d p :=
    n ← map_node d p;
    Ok (mkFileMeta (bool_decide (node_kind n = KFile)) (is_dir_kind n)
          (bool_decide (node_kind n = KSymlink)));
  local_read_file := map_bytes;
  local_write_file := map_write;
  local_create_directory := map_mkdir;
  local_remove := map_remove;
  local_walk d root _ _ _ :=
    Ok ((fun e => (e.1, bool_decide (node_kind e.2 = KFile))) <$>
          List.filter (fun e => starts_with e.1 root) (map_to_list d), false);
  sys_statat d p :=
    n ← map_node d p; Ok (node_kind n, match n with NFile _ m => m | _ => 0%Z end);
  sys_open_directory d p :=
    n ← map_node d p; if is_dir_kind n then Ok tt else Err not_regular;
  sys_fchmod := map_chmod
|}.
End map_disk.

(** A workspace of two files and a link, for the witnesses. *)
Definition demo_workspace : Workspace := workspace_new "w" "/srv" WorkspaceWrite.
Definition demo_path (name : string) : Path := [RootDir; Normal "srv"; Normal name].
Definition demo_disk : gmap Path Node :=
  list_to_map [(demo_path "a.txt", NFile (text "abcde") (S_IFREG + 420));
               (demo_path "b.rs", NFile (text "fg") (S_IFREG + 420));
               (demo_path "link", NLink); ([RootDir; Normal "srv"], NDir)].

(** The digest that keeps its input. *)
Definition transparent_sha : Sha256 := of_text.
#[local] Existing Instance transparent_sha.

(** [a.txt] by windows of two bytes. *)
Lemma reading_by_windows_gives_the_file_witness :
  exists pages,
    follow 6 rdr_next_offset
      (fun offset => read_file_window (FS := map_fs) demo_disk demo_workspace "a.txt" offset (Some 2%Z))
      None = Ok pages /\ length pages = 3 /\ mjoin (rdr_content <$> pages) = text "abcde".
Proof.
  destruct (reading_by_windows_gives_the_file (FS := map_fs) demo_disk demo_workspace "a.txt" (text "abcde")
    (Some 2%Z) 2) as (pages & Hf & _ & _ & _ & Hj).
  - split; [|vm_compute; discriminate]. exists (demo_path "a.txt").
    split; [vm_compute; reflexivity|]. split; [vm_compute; reflexivity|]. by exists false.
  - by intros l [= <-].
  - vm_compute. reflexivity.
  - change (S (length (text "abcde"))) with 6 in Hf. exists pages.
    assert (Hp : pages = match follow 6 rdr_next_offset
      (fun offset => read_file_window (FS := map_fs) demo_disk demo_workspace "a.txt" offset (Some 2%Z))
      None with Ok l => l | Err _ => [] end) by (by rewrite Hf).
    split; [exact Hf|]. split; [rewrite Hp; vm_compute; reflexivity|]. apply Hj.
    rewrite Hp. repeat constructor.
Defined.

(** Both files, one a page. *)
Lemma finding_by_pages_gives_the_listing_witness :
  exists pages,
    follow_pages 0 3 fnd_next_offset
      (fun _ offset => find_window (FS := map_fs) demo_disk demo_workspace None offset (Some 1%Z)) None = Ok pages /\
    mjoin (fnd_paths <$> pages) = ["a.txt"; "b.rs"].
Proof.
  assert (Hls : listing (FS := map_fs) demo_disk demo_workspace None = Ok (["a.txt"; "b.rs"], false))
    by (vm_compute; reflexivity).
  destruct (finding_by_pages_gives_the_listing (FS := map_fs) (fun _ => demo_disk) demo_workspace None (Some 1%Z) 1)
    as [Hone Hends].
  - by intros l [= <-].
  - vm_compute. reflexivity.
  - intros k paths i Hp. rewrite Hls in Hp. injection Hp as <- <-. split.
    + repeat constructor; by apply (bool_decide_unpack _).
    + vm_compute. discriminate.
  - intros j k ps i qs i' Hps Hqs _. rewrite Hls in Hps, Hqs. injection Hps as <- <-. injection Hqs as <- <-. reflexivity.
  - destruct (Hends _ _ (fun _ => Hls)) as (pages & Hf & Hlast & Hv).
    destruct (Hone _ _ _ Hf Hlast Hv) as (paths & incomplete & Hls' & Hj & _).
    rewrite Hls in Hls'. injection Hls' as <- <-. exists pages. by split.
Defined.

(** A file that comes before the others between the two pages: the client has [a.txt] twice, from
    pages that state different versions. *)
Example listings_change_between_pages :
  let before := demo_disk in
  let after : gmap Path Node := <[demo_path "a.a" := NFile (text "new") (S_IFREG + 420)]> demo_disk in
  match follow_pages 0 4 fnd_next_offset
          (fun k offset => find_window (FS := map_fs) (if k then before else after) demo_workspace None
                             offset (Some 1%Z)) None with
  | Ok pages => mjoin (fnd_paths <$> pages) = ["a.txt"; "a.txt"; "b.rs"] /\
                length (remove_dups (fnd_listing_version <$> pages)) = 2
  | Err _ => False
  end.
Proof. vm_compute. by split. Qed.

Lemma listing_version_identifies_witness :
  ["a"; "b"] = ["a"; "b"] /\ true = true.
Proof.
  apply listing_version_identifies; [|..|reflexivity].
  - repeat constructor; by apply (bool_decide_unpack _).
  - repeat constructor; by apply (bool_decide_unpack _).
  - done.
Defined.

Lemma resolved_paths_follow_no_link_witness :
  fs_symlink_metadata (FileSystem := map_fs) demo_disk (demo_path "a.txt") <> Some KSymlink.
Proof.
  destruct (resolved_paths_follow_no_link (FS := map_fs) demo_disk demo_workspace "x/../a.txt"
    (demo_path "a.txt")) as (names & _ & _ & _ & H & _).
  - vm_compute. discriminate.
  - vm_compute. reflexivity.
  - exact H.
Defined.
