(* ===== verification/Contract.v ===== *)
(** The execution contract that [workspace_info] tells a client ([domain/execution.rs],
    [domain/info.rs], [domain/tools.rs] and the part of [server/mcp.rs] that fills it in), and
    that what it says of a workspace is what the policy, the serializer and the file tools do. *)
From S2P Require Import Prelude Domain Policy Registration Resource Files.

(** * The contract's values ([domain/execution.rs]) *)

Definition PTY_INITIAL_ROWS : Z := 24.
Definition PTY_INITIAL_COLS : Z := 80.

Inductive ClientEnvironmentKind := ClientHost | ClientLinuxContainer.

Record EnvironmentExecutionInfo := mkEnvironmentExecutionInfo {
  ee_kind : ClientEnvironmentKind;
  ee_client_selectable : bool;
  ee_exec_supported : bool;
  ee_file_read_supported : bool;
  ee_file_write_supported : bool
}.

Record EffectivePermissionInfo := mkEffectivePermissionInfo {
  ep_read : bool;
  ep_write : bool;
  ep_exec : bool
}.

Inductive ProcessLifetimeOwner := LifetimeRunner.
Inductive ProcessDisconnectAction := KeepRunning | TerminateProcesses.
Inductive ProcessRestartRecovery := NoRecovery.

Record ProcessLifetimeInfo := mkProcessLifetimeInfo {
  pl_owner : ProcessLifetimeOwner;
  pl_client_disconnect : ProcessDisconnectAction;
  pl_runner_disconnect : ProcessDisconnectAction;
  pl_gateway_shutdown : ProcessDisconnectAction;
  pl_restart_recovery : ProcessRestartRecovery
}.

Record PtyCapabilityInfo := mkPtyCapabilityInfo {
  pc_supported : bool;
  pc_default : bool;
  pc_initial_rows : Z;
  pc_initial_cols : Z;
  pc_resize_supported : bool
}.

Record ProcessCapabilityInfo := mkProcessCapabilityInfo {
  pci_handles : bool;
  pci_survives_request_end : bool;
  pci_write_stdin : bool;
  pci_incremental_read : bool;
  pci_terminate : bool;
  pci_output_combined : bool;
  pci_tty : PtyCapabilityInfo;
  pci_lifetime : ProcessLifetimeInfo
}.

Record FileCapabilityInfo := mkFileCapabilityInfo {
  fc_read_range : bool;
  fc_find_pagination : bool;
  fc_read_max_bytes : Z;
  fc_find_max_paths : Z
}.

(** A [FileOperationInfo] is its [available]. *)
Record FileExecutionInfo := mkFileExecutionInfo {
  fe_read : bool;
  fe_find : bool;
  fe_patch : bool;
  fe_capabilities : FileCapabilityInfo
}.

Record ProcessExecutionInfo := mkProcessExecutionInfo {
  pe_available : bool;
  pe_capabilities : option ProcessCapabilityInfo
}.

Inductive SerializationScope := ScopeWorkspace.
Inductive RequestConflictPolicy := WaitFifo.
Inductive ProcessConflictPolicy := Reject.

Record WorkspaceSerializationInfo := mkWorkspaceSerializationInfo {
  ws_scope : SerializationScope;
  ws_request_conflict : RequestConflictPolicy;
  ws_process_conflict : ProcessConflictPolicy;
  ws_queue_durable : bool;
  ws_max_waiters_per_resource : Z;
  ws_live_process_holds_mutation_lease : bool;
  ws_parallel_exec : bool;
  ws_read_while_process_live : bool;
  ws_find_while_process_live : bool;
  ws_patch_while_process_live : bool;
  ws_conflict_error : ErrorCode;
  ws_queue_full_error : ErrorCode
}.

Inductive CommandSandboxState := NoSandbox | LinuxSandbox.

Record IsolationInfo := mkIsolationInfo {
  is_file_tools_workspace_scoped : bool;
  is_command_sandbox : CommandSandboxState
}.

Inductive NetworkPolicyState := PolicyRestricted | PolicyEnabled.
Inductive NetworkEnforcementState := NotEnforced | Enforced.

Record NetworkInfo := mkNetworkInfo {
  ni_policy : NetworkPolicyState;
  ni_enforcement : NetworkEnforcementState;
  ni_client_may_escalate : bool
}.

Record WorkspaceExecutionInfo := mkWorkspaceExecutionInfo {
  we_environment : EnvironmentExecutionInfo;
  we_permissions : EffectivePermissionInfo;
  we_files : FileExecutionInfo;
  we_process : ProcessExecutionInfo;
  we_serialization : WorkspaceSerializationInfo;
  we_isolation : IsolationInfo;
  we_network : NetworkInfo;
  we_approvals : ApprovalsMode
}.

Definition process_capabilities : ProcessCapabilityInfo :=
  {| pci_handles := true; pci_survives_request_end := true; pci_write_stdin := true;
     pci_incremental_read := true; pci_terminate := true; pci_output_combined := true;
     pci_tty := mkPtyCapabilityInfo true false PTY_INITIAL_ROWS PTY_INITIAL_COLS true;
     pci_lifetime := mkProcessLifetimeInfo LifetimeRunner KeepRunning TerminateProcesses
                       TerminateProcesses NoRecovery |}.

Definition serialization_info : WorkspaceSerializationInfo :=
  {| ws_scope := ScopeWorkspace; ws_request_conflict := WaitFifo; ws_process_conflict := Reject;
     ws_queue_durable := false;
     ws_max_waiters_per_resource := Z.of_nat MAX_WAITERS_PER_RESOURCE;
     ws_live_process_holds_mutation_lease := true; ws_parallel_exec := false;
     ws_read_while_process_live := true; ws_find_while_process_live := true;
     ws_patch_while_process_live := false; ws_conflict_error := WorkspaceBusy;
     ws_queue_full_error := ResourceQueueFull |}.

Definition from_effective (environment : EnvironmentExecutionInfo)
    (permissions : EffectivePermissionInfo) (network_policy : NetworkPolicyState)
    : WorkspaceExecutionInfo :=
  let reads := ep_read permissions && ee_file_read_supported environment in
  let process_available := ep_exec permissions && ee_exec_supported environment in
  {| we_environment := environment;
     we_permissions := permissions;
     we_files := mkFileExecutionInfo reads reads
                   (ep_write permissions && ee_file_write_supported environment)
                   (mkFileCapabilityInfo true true DEFAULT_READ_LIMIT DEFAULT_FIND_LIMIT);
     we_process := mkProcessExecutionInfo process_available
                     (if process_available then Some process_capabilities else None);
     we_serialization := serialization_info;
     we_isolation := mkIsolationInfo true NoSandbox;
     we_network := mkNetworkInfo network_policy NotEnforced false;
     we_approvals := ApprovalsOff |}.

Definition with_linux_command_sandbox (info : WorkspaceExecutionInfo) : WorkspaceExecutionInfo :=
  {| we_environment := we_environment info; we_permissions := we_permissions info;
     we_files := we_files info; we_process := we_process info;
     we_serialization := we_serialization info;
     we_isolation := mkIsolationInfo (is_file_tools_workspace_scoped (we_isolation info))
                       LinuxSandbox;
     we_network := mkNetworkInfo (ni_policy (we_network info)) Enforced false;
     we_approvals := we_approvals info |}.

(** * [workspace_info] *)

Definition SERVER_NAME : string := "codespace".
Definition SERVER_VERSION : string := "0.6.0".

Definition LIVE_TOOLS : list string :=
  ["workspace_info"; "read"; "find"; "apply_patch"; "operation_status"; "exec_command";
   "write_stdin"; "read_process"; "process_status"; "process_resize"; "terminate_process";
   "work_open"; "steer_status"; "steer_claim_next"; "steer_complete"; "work_finish";
   "approval_create"; "approval_resolve"; "operation_resume"].

Record WorkspaceInfo := mkWorkspaceInfo {
  wi_server : string;
  wi_version : string;
  wi_internal_model_calls : bool;
  wi_tools_exposed : list string;
  wi_transports : list string;
  wi_workspace_id : option string;
  wi_workspace_id_is_credential : bool;
  wi_note : string;
  wi_profile : option Profile;
  wi_root : option string;
  wi_execution : option WorkspaceExecutionInfo;
  wi_resource_authority : option ResourceAuthorityInfo
}.

Definition info_of (workspace_id : option string) (note : string)
    (about : option Policy.Workspace) (execution : option WorkspaceExecutionInfo)
    (authority : option ResourceAuthorityInfo) : WorkspaceInfo :=
  {| wi_server := SERVER_NAME; wi_version := SERVER_VERSION; wi_internal_model_calls := false;
     wi_tools_exposed := LIVE_TOOLS; wi_transports := ["stdio"; "streamable-http"];
     wi_workspace_id := workspace_id; wi_workspace_id_is_credential := false; wi_note := note;
     wi_profile := ws_profile <$> about; wi_root := ws_root <$> about;
     wi_execution := execution; wi_resource_authority := authority |}.

(** [workspace_info] of [domain/info.rs]. *)
Definition workspace_info (workspace_id : option string) : WorkspaceInfo :=
  info_of workspace_id
    ("workspace_info, read, find, apply_patch, operation_status, process, and work/steer tools " +:+
     "are live. process_id and work_id are server-minted selectors, not credentials.")
    None None None.

Definition client_environment_kind (k : EnvironmentKind) : ClientEnvironmentKind :=
  match k with Host => ClientHost | LinuxContainer => ClientLinuxContainer end.

Definition client_network_policy (n : NetworkAxis) : NetworkPolicyState :=
  match n with NetRestricted => PolicyRestricted | NetEnabled => PolicyEnabled end.

Definition advertise_linux_sandbox (sandbox : bool) (info : WorkspaceExecutionInfo)
    : WorkspaceExecutionInfo :=
  if sandbox then with_linux_command_sandbox info else info.

Definition set_approvals (mode : ApprovalsMode) (info : WorkspaceExecutionInfo)
    : WorkspaceExecutionInfo :=
  {| we_environment := we_environment info; we_permissions := we_permissions info;
     we_files := we_files info; we_process := we_process info;
     we_serialization := we_serialization info; we_isolation := we_isolation info;
     we_network := we_network info; we_approvals := mode |}.

(** [workspace_execution_info]; [sandbox] is whether the Linux command sandbox is available. *)
Definition workspace_execution_info (sandbox : bool) (ws : Policy.Workspace) : WorkspaceExecutionInfo :=
  let profile := from_workspace_profile (ws_profile ws) in
  let policy := mkPermissionProfile (pp_paths profile) (pp_process_exec profile) (ws_network ws) in
  let permissions :=
    mkEffectivePermissionInfo (allows policy ActionRead) (allows policy ActionWrite)
      (allows policy ActionExec) in
  let kind := ws_environment_kind ws in
  let environment :=
    mkEnvironmentExecutionInfo (client_environment_kind kind) false (exec_supported kind)
      (file_read_supported kind) (file_write_supported kind) in
  advertise_linux_sandbox sandbox
    (set_approvals (ws_approvals ws)
       (from_effective environment permissions (client_network_policy (pp_network policy)))).

(** [{:?}] of a profile. *)
Definition profile_debug (p : Profile) : string :=
  match p with ReadOnly => "ReadOnly" | WorkspaceWrite => "WorkspaceWrite" end.

(** [lookup]. *)
Definition lookup_info (sandbox : bool) (registry : Registry) (workspace_id : option string)
    : res WorkspaceInfo :=
  match workspace_id with
  | None | Some "" => Ok (workspace_info None)
  | Some id =>
      ws ← get registry id;
      Ok (info_of (Some id)
            ("workspace_id is a selector, not a credential. profile=" +:+
             profile_debug (ws_profile ws))
            (Some ws) (Some (workspace_execution_info sandbox ws)) None)
  end.

(** ** Process lifetime ([GatewayLifecycle], [CodeSpace::with_lifetime]) *)

Inductive RunnerExitIntent := DetachRunner | StopRunner.
Inductive GatewayLifecycle := ManagedRunner | IndependentRunnerOf (exit_intent : RunnerExitIntent).

Definition lifetime_of (intent : RunnerExitIntent) (l : ProcessLifetimeInfo) : ProcessLifetimeInfo :=
  mkProcessLifetimeInfo (pl_owner l) (pl_client_disconnect l) KeepRunning
    (match intent with DetachRunner => KeepRunning | StopRunner => TerminateProcesses end)
    (pl_restart_recovery l).

Definition set_lifetime (intent : RunnerExitIntent) (c : ProcessCapabilityInfo)
    : ProcessCapabilityInfo :=
  {| pci_handles := pci_handles c; pci_survives_request_end := pci_survives_request_end c;
     pci_write_stdin := pci_write_stdin c; pci_incremental_read := pci_incremental_read c;
     pci_terminate := pci_terminate c; pci_output_combined := pci_output_combined c;
     pci_tty := pci_tty c; pci_lifetime := lifetime_of intent (pci_lifetime c) |}.

Definition set_execution (i : WorkspaceInfo) (e : option WorkspaceExecutionInfo) : WorkspaceInfo :=
  {| wi_server := wi_server i; wi_version := wi_version i;
     wi_internal_model_calls := wi_internal_model_calls i; wi_tools_exposed := wi_tools_exposed i;
     wi_transports := wi_transports i; wi_workspace_id := wi_workspace_id i;
     wi_workspace_id_is_credential := wi_workspace_id_is_credential i; wi_note := wi_note i;
     wi_profile := wi_profile i; wi_root := wi_root i; wi_execution := e;
     wi_resource_authority := wi_resource_authority i |}.

Definition with_lifetime (lifecycle : GatewayLifecycle) (info : WorkspaceInfo) : WorkspaceInfo :=
  match lifecycle with
  | ManagedRunner => info
  | IndependentRunnerOf intent =>
      set_execution info
        ((fun e =>
            {| we_environment := we_environment e; we_permissions := we_permissions e;
               we_files := we_files e;
               we_process := mkProcessExecutionInfo (pe_available (we_process e))
                               (set_lifetime intent <$> pe_capabilities (we_process e));
               we_serialization := we_serialization e; we_isolation := we_isolation e;
               we_network := we_network e; we_approvals := we_approvals e |})
           <$> wi_execution info)
  end.

Definition with_authority (info : WorkspaceInfo) (a : option ResourceAuthorityInfo)
    : WorkspaceInfo :=
  {| wi_server := wi_server info; wi_version := wi_version info;
     wi_internal_model_calls := wi_internal_model_calls info;
     wi_tools_exposed := wi_tools_exposed info; wi_transports := wi_transports info;
     wi_workspace_id := wi_workspace_id info;
     wi_workspace_id_is_credential := wi_workspace_id_is_credential info; wi_note := wi_note info;
     wi_profile := wi_profile info; wi_root := wi_root info; wi_execution := wi_execution info;
     wi_resource_authority := a |}.

(** * What it says is so *)

Section contract.
Context (sandbox : bool) (ws : Policy.Workspace).
Let e := workspace_execution_info sandbox ws.

(** An advertised operation is one that passes the checks of its tool, and no other is. *)
Lemma advertised_patch claims :
  fe_patch (we_files e) = true <->
  allow ws ActionWrite claims = Ok tt /\ ws_require_file_write ws = Ok tt.
Proof using.
  unfold e, workspace_execution_info, advertise_linux_sandbox, allow, ws_require_file_write.
  destruct sandbox, (ws_profile ws), (ws_environment_kind ws); cbn; naive_solver.
Qed.

Lemma advertised_process claims :
  pe_available (we_process e) = true <->
  allow ws ActionExec claims = Ok tt /\ ws_require_exec ws = Ok tt.
Proof using.
  unfold e, workspace_execution_info, advertise_linux_sandbox, allow, ws_require_exec.
  destruct sandbox, (ws_profile ws), (ws_environment_kind ws); cbn; naive_solver.
Qed.

Lemma advertised_read claims :
  fe_read (we_files e) = true <->
  allow ws ActionRead claims = Ok tt /\ ws_require_file_read ws = Ok tt.
Proof using.
  unfold e, workspace_execution_info, advertise_linux_sandbox, allow, ws_require_file_read.
  destruct sandbox, (ws_profile ws), (ws_environment_kind ws); cbn; naive_solver.
Qed.

Lemma advertised_approvals : we_approvals e = ws_approvals ws.
Proof using. unfold e, workspace_execution_info, advertise_linux_sandbox. by destruct sandbox. Qed.

Lemma advertised_network :
  ni_policy (we_network e) = client_network_policy (ws_network ws) /\
  ni_enforcement (we_network e) = (if sandbox then Enforced else NotEnforced) /\
  ni_client_may_escalate (we_network e) = false.
Proof using. unfold e, workspace_execution_info, advertise_linux_sandbox. by destruct sandbox. Qed.

(** The errors that it announces are the serializer's: of a workspace that a live process holds,
    and of a full queue, as long as it says. *)
Lemma advertised_conflicts (s : Serializer) (mode : LockMode) (owner : ExclusiveHolder) :
  let r := Resource.Workspace (ws_id ws) in
  let info := we_serialization e in
  (process_held s r = true ->
     exists err, acquire s r mode owner = (OBusy err, s) /\ code err = ws_conflict_error info) /\
  (process_held s r = false -> can_grant s r mode = false ->
   (ws_max_waiters_per_resource info <= Z.of_nat (waiter_count_unlocked s r))%Z ->
     exists err, acquire s r mode owner = (OBusy err, s) /\ code err = ws_queue_full_error info).
Proof using.
  cbv zeta. assert (Hs : we_serialization e = serialization_info).
  { unfold e, workspace_execution_info, advertise_linux_sandbox. by destruct sandbox. }
  rewrite Hs. cbn [ws_conflict_error ws_queue_full_error ws_max_waiters_per_resource serialization_info].
  unfold acquire. split.
  - intros ->. by eexists.
  - intros -> -> Hfull. cbn [andb]. rewrite bool_decide_eq_true_2 by lia. by eexists.
Qed.
End contract.

(** The lifetime of a gateway with a Runner of its own ends with it, and only a gateway that
    leaves an independent Runner says that its processes outlive it. *)
Lemma advertised_shutdown lifecycle sandbox registry id info e caps :
  lookup_info sandbox registry (Some id) = Ok info ->
  wi_execution (with_lifetime lifecycle info) = Some e -> pe_capabilities (we_process e) = Some caps ->
  (pl_gateway_shutdown (pci_lifetime caps) = KeepRunning <->
   lifecycle = IndependentRunnerOf DetachRunner).
Proof.
  intros Hl. unfold lookup_info in Hl. destruct id as [|c id].
  { injection Hl as <-. by destruct lifecycle. }
  apply bind_Ok in Hl as (ws & _ & [= <-]).
  destruct lifecycle as [|intent]; cbn; intros [= <-]; cbn;
    unfold workspace_execution_info, advertise_linux_sandbox;
    destruct sandbox; cbn; destruct (_ && _); cbn; try done; intros [= <-]; cbn;
    try (by split); destruct intent; by split.
Qed.
