(* ===== verification/Procfs.v ===== *)
(** Which processes of a Linux host run: what [crates/runner/src/lifecycle.rs] reads of
    [/proc/<pid>/stat]. A process is told apart from a later one with its PID by its start time. *)
From S2P Require Import Prelude Supervisor Output Files.

(** * Reading a [stat] line *)

(** [std::fs::read_to_string] fails on bytes that are not UTF-8. *)
Definition is_utf8 (bytes : list ascii) : bool := bool_decide (from_utf8_lossy bytes = bytes).

Definition read_to_string (bytes : list ascii) : option (list ascii) :=
  if is_utf8 bytes then Some bytes else None.

(** What follows the last [a]: [&s[s.rfind(a)? + 1..]]. *)
Fixpoint after_last (a : ascii) (s : list ascii) : option (list ascii) :=
  match s with
  | [] => None
  | b :: s =>
      match after_last a s with
      | Some rest => Some rest
      | None => if bool_decide (b = a) then Some s else None
      end
  end.

Definition is_nil {A} (l : list A) : bool := match l with [] => true | _ => false end.

(** [str::split_whitespace] of text whose white space is ASCII, as it is after the name;
    [word] is the word being read, its last byte first. *)
Fixpoint words_from (word s : list ascii) : list (list ascii) :=
  match s with
  | [] => if is_nil word then [] else [rev word]
  | a :: s =>
      if blank1 a then (if is_nil word then [] else [rev word]) ++ words_from [] s
      else words_from (a :: word) s
  end.

Definition split_whitespace (s : list ascii) : list (list ascii) := words_from [] s.

(** The host: the bytes of each [/proc/<pid>/stat] that can be read, and the clock. *)
Record Host := mkHost { hs_stat : Z -> option (list ascii); hs_now_ms : Z }.

(** The fields after the name, from the third on. *)
Definition stat_fields (h : Host) (pid : Z) : option (list (list ascii)) :=
  stat ← hs_stat h pid ≫= read_to_string;
  split_whitespace <$> after_last ")"%char stat.

Definition parse_ticks (field : list ascii) : option Z := parse_usize (of_text field).

Definition start_identity_text (ticks : Z) : string := "linux-start-ticks:" +:+ pretty ticks.

Definition process_start_identity (h : Host) (pid : Z) : option string :=
  fields ← stat_fields h pid;
  ticks ← fields !! 19 ≫= parse_ticks;
  Some (start_identity_text ticks).

Definition has_exited (state : list ascii) : bool :=
  bool_decide (state ∈ text <$> ["Z"; "X"; "x"]).

Definition process_runs (h : Host) (pid : Z) (started : string) : bool :=
  match stat_fields h pid with
  | None => false
  | Some fields =>
      match head fields, fields !! 19 ≫= parse_ticks with
      | Some state, Some ticks =>
          negb (has_exited state) && bool_decide (start_identity_text ticks = started)
      | _, _ => false
      end
  end.

Definition pid_runs (h : Host) (pid : Z) : bool :=
  match stat_fields h pid ≫= head with
  | None => false
  | Some state => negb (has_exited state)
  end.

(** * What Linux writes there ([proc_pid_stat(5)])

    The name is any bytes, its closing parenthesis the last one of the line: what follows is a
    letter for the state and numbers, of which the nineteenth is the start time. *)
Record LinuxProcess := mkLinuxProcess {
  lp_name : list ascii;
  lp_state : ascii;
  lp_before : list Z;
  lp_start : Z;
  lp_after : list Z
}.

Definition fields_of (p : LinuxProcess) : list (list ascii) :=
  [lp_state p] :: ((fun z => text (pretty z)) <$> lp_before p ++ lp_start p :: lp_after p).

Definition spaced (words : list (list ascii)) : list ascii := words ≫= fun w => " "%char :: w.

Definition stat_line (pid : Z) (p : LinuxProcess) : list ascii :=
  text (pretty pid) ++ [" "%char; "("%char] ++ lp_name p ++ ")"%char :: spaced (fields_of p)
    ++ [ascii_of_N 10].

(** A host that runs these processes. *)
Definition linux_host (processes : gmap Z LinuxProcess) (now : Z) : Host :=
  mkHost (fun pid => stat_line pid <$> processes !! pid) now.

Definition a_letter (a : ascii) : bool := byte_in 65 90 a || byte_in 97 122 a.

(** As the kernel fills it in. *)
Record linux_process_ok (p : LinuxProcess) : Prop := {
  lo_state : a_letter (lp_state p) = true;
  lo_before : length (lp_before p) = 18;
  lo_start : (0 <= lp_start p <= u64_max)%Z
}.

Definition unexited (p : LinuxProcess) : Prop := lp_state p ∉ ["Z"; "X"; "x"]%char.

(** ** Numbers *)

Definition digit (a : ascii) : bool := byte_in 48 57 a.

Lemma pretty_N_char_digit (n : N) : (n < 10)%N ->
  digit (pretty_N_char n) = true /\ digit_value (pretty_N_char n) = Some (Z.of_N n).
Proof.
  intros Hn. destruct n as [|p]; [by split|].
  repeat (destruct p as [p|p|]; try lia; try (by split)).
Qed.

Lemma pretty_N_go_digits x s :
  Forall (fun a => digit a = true) (text s) -> Forall (fun a => digit a = true) (text (pretty_N_go x s)).
Proof.
  revert s. induction (N.lt_wf_0 x) as [x _ IH]. intros s Hs.
  destruct (decide (x = 0)%N) as [->|Hx]; [by rewrite pretty_N_go_0|].
  rewrite pretty_N_go_step by lia. apply IH; [apply N.div_lt; lia|]. constructor; [|done].
  apply pretty_N_char_digit. by apply N.mod_lt.
Qed.

Lemma pretty_N_go_length x s : (String.length s <= String.length (pretty_N_go x s))%nat.
Proof.
  revert s. induction (N.lt_wf_0 x) as [x _ IH]. intros s.
  destruct (decide (x = 0)%N) as [->|Hx]; [by rewrite pretty_N_go_0|].
  rewrite pretty_N_go_step by lia. etrans; [|apply IH; apply N.div_lt; lia]. cbn. lia.
Qed.

Lemma parse_pretty_go x s : (Z.of_N x <= u64_max)%Z ->
  parse_digits 0 (pretty_N_go x s) = parse_digits (Z.of_N x) s.
Proof.
  revert s. induction (N.lt_wf_0 x) as [x _ IH]. intros s Hmax.
  destruct (decide (x = 0)%N) as [->|Hx]; [by rewrite pretty_N_go_0|].
  pose proof (N.div_mod x 10 ltac:(done)) as Hdm.
  pose proof (N.mod_lt x 10 ltac:(done)) as Hlt.
  assert (Hdiv : (x `div` 10 < x)%N) by (apply N.div_lt; lia).
  rewrite pretty_N_go_step by lia. rewrite IH by (done || lia).
  cbn [parse_digits]. destruct (pretty_N_char_digit (x `mod` 10)%N Hlt) as [_ ->].
  cbn [mbind option_bind]. assert (Z.of_N (x `div` 10) * 10 + Z.of_N (x `mod` 10) = Z.of_N x)%Z as -> by lia.
  by rewrite bool_decide_eq_true_2.
Qed.

Lemma pretty_N_digits (n : N) : Forall (fun a => digit a = true) (text (pretty n)) /\ pretty n <> "".
Proof.
  unfold pretty, pretty_N. destruct (decide (n = 0)%N) as [->|Hn]; [by split; [repeat constructor|]|].
  split; [by apply pretty_N_go_digits|]. intros He. rewrite pretty_N_go_step in He by lia.
  pose proof (pretty_N_go_length (n `div` 10) (String (pretty_N_char (n `mod` 10)) "")) as Hl.
  rewrite He in Hl. cbn in Hl. lia.
Qed.

Lemma parse_digits_of s z : Forall (fun a => digit a = true) (text s) -> s <> "" ->
  parse_digits 0 s = Some z -> parse_usize s = Some z.
Proof.
  intros Hd Hne Hp. destruct s as [|a t]; [done|]. unfold text in Hd. cbn in Hd.
  apply Forall_cons in Hd as [Ha _]. assert (a <> "+"%char) by by intros ->.
  unfold parse_usize. destruct t; [by rewrite bool_decide_eq_false_2|].
  by rewrite bool_decide_eq_false_2.
Qed.

Lemma pretty_of_nonneg (z : Z) : (0 <= z)%Z -> pretty z = pretty (Z.to_N z).
Proof. intros Hz. unfold pretty at 1, pretty_Z. by destruct z; [..|lia]. Qed.

Lemma pretty_Z_digits (z : Z) :
  (0 <= z)%Z -> Forall (fun a => digit a = true) (text (pretty z)) /\ pretty z <> "".
Proof. intros Hz. rewrite pretty_of_nonneg by done. apply pretty_N_digits. Qed.

(** A number is read back as it was written. *)
Lemma parse_digits_pretty (z : Z) : (0 <= z <= u64_max)%Z -> parse_digits 0 (pretty z) = Some z.
Proof.
  intros Hz. rewrite pretty_of_nonneg by lia. unfold pretty, pretty_N.
  destruct (decide _) as [H0|Hn]; [assert (z = 0%Z) as -> by lia; done|].
  rewrite parse_pretty_go by lia. cbn. f_equal. lia.
Qed.

Lemma parse_usize_pretty (z : Z) : (0 <= z <= u64_max)%Z -> parse_usize (pretty z) = Some z.
Proof.
  intros Hz. destruct (pretty_Z_digits z) as [Hd Hne]; [lia|].
  apply parse_digits_of; [done..|by apply parse_digits_pretty].
Qed.

(** ** Fields *)

(** A byte of a field: no blank, no parenthesis, and ASCII. *)
Definition plain (a : ascii) : Prop :=
  blank1 a = false /\ a <> ")"%char /\ byte_in 0 127 a = true.

Lemma digit_plain a : digit a = true -> plain a.
Proof.
  unfold digit, plain, byte_in, blank1. rewrite !andb_true_iff, !N.leb_le. intros [H1 H2].
  rewrite orb_false_iff, !bool_decide_eq_false. split_and!; try lia. by intros ->.
Qed.

Lemma letter_plain a : a_letter a = true -> plain a.
Proof.
  unfold a_letter, plain, byte_in, blank1. rewrite orb_true_iff, !andb_true_iff, !N.leb_le. intros H.
  rewrite orb_false_iff, !bool_decide_eq_false. split_and!; try lia. intros ->. cbn in H. lia.
Qed.

Definition plain_field (w : list ascii) : Prop := w <> [] /\ Forall plain w.

Lemma number_plain (z : Z) : plain_field (text (pretty z)).
Proof.
  assert (Hn : forall n : N, plain_field (text (pretty n))).
  { intros n. destruct (pretty_N_digits n) as [Hd Hne]. split; [by destruct (pretty n)|].
    eapply Forall_impl; [exact Hd|]. apply digit_plain. }
  unfold pretty, pretty_Z. destruct z as [|p|p]; [by apply (Hn 0%N)|apply Hn|].
  destruct (Hn (Npos p)) as [_ Hd]. split; [done|]. constructor; [|exact Hd]. by repeat split.
Qed.

Lemma fields_plain p : linux_process_ok p -> Forall plain_field (fields_of p).
Proof.
  intros [Hs _ _]. constructor; [split; [done|]; constructor; [by apply letter_plain|done]|].
  apply Forall_fmap, Forall_forall. intros z _. apply number_plain.
Qed.

Lemma words_from_app word w s :
  Forall plain w -> words_from word (w ++ s) = words_from (rev w ++ word) s.
Proof.
  intros Hw. revert word. induction Hw as [|a w [Ha _] _ IH]; intros word; [done|].
  cbn [app words_from]. rewrite Ha, IH. f_equal. cbn. by rewrite <- app_assoc.
Qed.

Lemma words_from_spaced word words :
  Forall plain_field words ->
  words_from word (spaced words ++ [ascii_of_N 10]) =
  (if is_nil word then [] else [rev word]) ++ words.
Proof.
  intros Hw. revert word. induction Hw as [|w words [Hne Hw] _ IH]; intros word.
  { cbn. by destruct word. }
  cbn [spaced mbind list_bind app words_from]. fold (spaced words).
  change (blank1 " ") with true. cbv iota. f_equal.
  rewrite <- app_assoc, words_from_app, IH by done. rewrite app_nil_r, rev_involutive.
  destruct (rev w) eqn:Hr; [|done]. apply (f_equal (@rev ascii)) in Hr.
  by rewrite rev_involutive in Hr.
Qed.

Lemma after_last_app a l r : a ∉ r -> after_last a (l ++ a :: r) = Some r.
Proof.
  intros Hr. assert (Hn : after_last a r = None).
  { induction r as [|b r IH]; [done|]. apply not_elem_of_cons in Hr as [Hb Hr]. cbn.
    rewrite IH by done. by rewrite bool_decide_eq_false_2. }
  induction l as [|b l IH]; cbn; [by rewrite Hn, bool_decide_eq_true_2|by rewrite IH].
Qed.

Lemma spaced_forall (P : ascii -> Prop) words :
  P " "%char -> Forall (Forall P) words -> Forall P (spaced words).
Proof.
  intros Hs. induction 1 as [|w words Hw _ IH]; [constructor|].
  cbn. constructor; [done|]. by apply Forall_app.
Qed.

(** ** UTF-8 *)

(** The text of bytes that an ASCII byte ends is the text of each part. *)
Lemma lossy_ascii_after c a s :
  byte_in 0 127 a = true -> from_utf8_lossy (c ++ a :: s) = from_utf8_lossy c ++ from_utf8_lossy (a :: s).
Proof.
  intros Ha. assert (Hc : is_continuation a = false /\ (forall x, second3 x a = false) /\
                          (forall x, second4 x a = false)).
  { unfold second3, second4, is_continuation, byte_in in *.
    apply andb_true_iff in Ha as [_ Ha%N.leb_le].
    assert (H : forall lo hi, (127 < lo)%N -> (lo <=? N_of_ascii a)%N && (N_of_ascii a <=? hi)%N = false).
    { intros lo hi Hlo. apply andb_false_iff. left. apply N.leb_gt. lia. }
    split_and!; intros; repeat (case_match; try by apply H); by apply H. }
  destruct Hc as (Hc & H3 & H4).
  remember (length c) as n eqn:Hn. revert c Hn.
  induction (lt_wf n) as [n _ IH]. intros [|x c] ->; [done|].
  cbn [app]. remember (a :: s) as t eqn:Ht.
  assert (IH' : forall d, length d <= length c -> from_utf8_lossy (d ++ t) = from_utf8_lossy d ++ from_utf8_lossy t).
  { intros d Hd. apply (IH (length d)); [cbn; lia|done]. }
  cbn [from_utf8_lossy].
  destruct (utf8_char_width x) as [|[|[|[|[|]]]]]; try (rewrite IH' by lia; by rewrite ?app_assoc).
  - destruct c as [|b c]; cbn [app]; [rewrite Ht; by rewrite Hc|].
    destruct (is_continuation b); [by rewrite IH' by (cbn; lia)|].
    change (b :: c ++ t) with ((b :: c) ++ t). by rewrite IH', app_assoc by lia.
  - destruct c as [|b c]; cbn [app]; [rewrite Ht; by rewrite H3|].
    destruct (second3 x b); [|change (b :: c ++ t) with ((b :: c) ++ t); by rewrite IH', app_assoc by lia].
    destruct c as [|d c]; cbn [app]; [rewrite Ht; by rewrite Hc|].
    destruct (is_continuation d); [by rewrite IH' by (cbn; lia)|].
    change (d :: c ++ t) with ((d :: c) ++ t). by rewrite IH', app_assoc by (cbn; lia).
  - destruct c as [|b c]; cbn [app]; [rewrite Ht; by rewrite H4|].
    destruct (second4 x b); [|change (b :: c ++ t) with ((b :: c) ++ t); by rewrite IH', app_assoc by lia].
    destruct c as [|d c]; cbn [app]; [rewrite Ht; by rewrite Hc|].
    destruct (is_continuation d); [|change (d :: c ++ t) with ((d :: c) ++ t); by rewrite IH', app_assoc by (cbn; lia)].
    destruct c as [|e c]; cbn [app]; [rewrite Ht; by rewrite Hc|].
    destruct (is_continuation e); [by rewrite IH' by (cbn; lia)|].
    change (e :: c ++ t) with ((e :: c) ++ t). by rewrite IH', app_assoc by (cbn; lia).
Qed.

Lemma ascii_utf8 s : Forall (fun a => byte_in 0 127 a = true) s -> from_utf8_lossy s = s.
Proof. intros Hs. apply from_utf8_lossy_ascii. eapply Forall_impl; [done|]. by intros a ->. Qed.

Lemma is_utf8_between l c a r :
  Forall (fun a => byte_in 0 127 a = true) l -> Forall (fun a => byte_in 0 127 a = true) (a :: r) ->
  is_utf8 (l ++ c ++ a :: r) = is_utf8 c.
Proof.
  intros Hl Hr. unfold is_utf8. apply bool_decide_ext.
  assert (Hpre : from_utf8_lossy (l ++ c ++ a :: r) = l ++ from_utf8_lossy c ++ a :: r).
  { rewrite <- (ascii_utf8 (a :: r)) at 2 by done.
    rewrite <- lossy_ascii_after by by inversion Hr.
    induction Hl as [|b l Hb _ IH]; [done|]. cbn [app from_utf8_lossy]. unfold utf8_char_width.
    by rewrite Hb, IH. }
  rewrite Hpre. split; [|by intros ->]. intros H.
  by apply app_inv_head, app_inv_tail in H.
Qed.

Lemma plain_ascii p : linux_process_ok p ->
  Forall (fun a => byte_in 0 127 a = true) (")"%char :: spaced (fields_of p) ++ [ascii_of_N 10]).
Proof.
  intros Hp. constructor; [done|]. apply Forall_app. split; [|by repeat constructor].
  apply spaced_forall; [done|]. eapply Forall_impl; [by apply fields_plain|].
  intros w [_ Hw]. eapply Forall_impl; [exact Hw|]. by intros a (_ & _ & ?).
Qed.

Section linux.
Context (processes : gmap Z LinuxProcess) (now : Z).
Context (Hok : map_Forall (fun _ => linux_process_ok) processes).
Let host := linux_host processes now.

(** The reading of a line that Linux writes, whatever the name holds. *)
Lemma stat_fields_linux pid :
  stat_fields host pid =
  match processes !! pid with
  | Some p => if is_utf8 (lp_name p) then Some (fields_of p) else None
  | None => None
  end.
Proof using Hok.
  unfold stat_fields, host, linux_host, hs_stat. destruct (processes !! pid) as [p|] eqn:Hp; [|done].
  pose proof (Hok pid p Hp) as Hpok. cbn. unfold read_to_string, stat_line. rewrite app_assoc.
  rewrite is_utf8_between; [|apply Forall_app; split; [|by repeat constructor]|by apply plain_ascii].
  2: { destruct (number_plain pid) as [_ Hd]. eapply Forall_impl; [exact Hd|]. by intros a (_ & _ & ?). }
  assert (Hin : ")"%char ∉ spaced (fields_of p) ++ [ascii_of_N 10]).
  { rewrite not_elem_of_app. split; [|by intros H%list_elem_of_singleton].
    assert (Hall : Forall (fun a => a <> ")"%char) (spaced (fields_of p))).
    { apply spaced_forall; [done|]. eapply Forall_impl; [by apply fields_plain|].
      intros w [_ Hw]. eapply Forall_impl; [exact Hw|]. by intros a (_ & ? & _). }
    rewrite Forall_forall in Hall. intros Hin. by apply (Hall _ Hin). }
  destruct (is_utf8 (lp_name p)); [|done]. cbn [mbind option_bind].
  rewrite app_assoc, after_last_app by done. cbn [fmap option_fmap option_map]. f_equal.
  apply (words_from_spaced [] (fields_of p)). by apply fields_plain.
Qed.

Lemma start_field p : linux_process_ok p -> fields_of p !! 19 ≫= parse_ticks = Some (lp_start p).
Proof using.
  intros [_ Hb Hs].
  change (fields_of p !! 19)
    with (((fun z => text (pretty z)) <$> lp_before p ++ lp_start p :: lp_after p) !! 18).
  rewrite list_lookup_fmap, lookup_app_r by lia. rewrite Hb. cbn. unfold parse_ticks, of_text, text.
  rewrite String.string_of_list_ascii_of_string. by apply parse_usize_pretty.
Qed.

Lemma has_exited_unexited p : has_exited [lp_state p] = false <-> unexited p.
Proof using.
  unfold has_exited, unexited. rewrite bool_decide_eq_false. cbn.
  rewrite !not_elem_of_cons. split; intros (H1 & H2 & H3 & _); (split_and!; [..|by intros ?%elem_of_nil]);
    congruence.
Qed.

(** On Linux a process is recognized by its PID and its start time, whatever its name holds - spaces,
    parentheses, digits - as long as the name is UTF-8: its start identity is its own, which a
    later process with the same PID does not share, it runs as itself until it has exited, reaped
    or not, and its PID is held for as long. A process whose name is not UTF-8 is taken for one
    that does not run. *)
Theorem process_runs_as_itself (pid : Z) (started : string) :
  match processes !! pid with
  | Some p =>
      if is_utf8 (lp_name p) then
        process_start_identity host pid = Some (start_identity_text (lp_start p)) /\
        (forall ticks, start_identity_text ticks = start_identity_text (lp_start p) ->
           ticks = lp_start p) /\
        (process_runs host pid started = true <->
           unexited p /\ started = start_identity_text (lp_start p)) /\
        (pid_runs host pid = true <-> unexited p)
      else process_start_identity host pid = None /\ process_runs host pid started = false /\
           pid_runs host pid = false
  | None => process_start_identity host pid = None /\ process_runs host pid started = false /\
            pid_runs host pid = false
  end.
Proof using Hok.
  unfold process_start_identity, process_runs, pid_runs. rewrite stat_fields_linux.
  destruct (processes !! pid) as [p|] eqn:Hp; [|done]. pose proof (Hok pid p Hp) as Hpok.
  destruct (is_utf8 (lp_name p)); [|done].
  assert (Hs : Some (fields_of p) ≫= (fun fields => fields !! 19 ≫= parse_ticks) = Some (lp_start p))
    by by apply start_field.
  cbn [mbind option_bind] in Hs |- *. rewrite Hs. cbn [head fields_of].
  pose proof (has_exited_unexited p) as Ha. split_and!.
  - done.
  - intros ticks H. unfold start_identity_text in H. by apply (inj (String.append _)), (inj pretty) in H.
  - rewrite andb_true_iff, negb_true_iff, bool_decide_eq_true, Ha. by split; intros [? ->].
  - by rewrite negb_true_iff.
Qed.
End linux.

(** * Two processes *)

Definition numbered : list Z := repeat 0%Z 18.
(** The process with PID 9, as it was recorded and as a later one. *)
Definition recorded_root (name : string) : LinuxProcess :=
  mkLinuxProcess (text name) "S" numbered 55 [1%Z].
Definition later_process : LinuxProcess :=
  mkLinuxProcess (text "sh (2) R 1") "S" numbered 77 [1%Z].

Definition running_as (p : LinuxProcess) (now : Z) : Host := linux_host {[9%Z := p]} now.

Lemma process_runs_as_itself_witness :
  process_runs (running_as later_process 3000) 9 (start_identity_text 77) = true.
Proof.
  assert (Hok : map_Forall (fun _ => linux_process_ok) ({[9%Z := later_process]} : gmap Z LinuxProcess)).
  { apply map_Forall_singleton. split; [reflexivity|reflexivity|done]. }
  pose proof (process_runs_as_itself _ 3000 Hok 9 (start_identity_text 77)) as H.
  rewrite lookup_singleton_eq in H.
  assert (Hu : is_utf8 (lp_name later_process) = true) by (vm_compute; reflexivity).
  rewrite Hu in H. destruct H as (_ & _ & H & _). apply H. split; [|reflexivity].
  unfold unexited. cbn. set_solver.
Defined.
