(* ===== verification/Operator.v ===== *)
(** The operator's commands on process records: [crates/server/src/operator.rs]. What
    [records list] shows, and which records [records release] frees. *)
From S2P Require Import Prelude Domain Approvals Processes Procfs.

Inductive Released := ReNow | ReBefore | ReRefused (reason : string).

(** [root_runs]: [None] when the record names no start identity. *)
Definition root_runs (host : Host) (record : ProcessRecord) (root : RootProcess)
    (boot_id : option string) : option bool :=
  if bool_decide (loss_of (pc_runner record) boot_id = HostRebooted) then Some false
  else started ← root_started root; Some (process_runs host (root_pid root) started).

(** [.map_err(|err| err.message)]. *)
Definition in_words {A} (r : res A) : result string A :=
  match r with Ok a => Ok a | Err e => Err (message e) end.

Section operator.
Context `{Sql : SqlEngine}.
Implicit Types (t : ProcessTable) (boot_id : option string).

(** The end of [release_one]: [record] was lost, by now. *)
Definition release_lost (boot_id : option string) (host : Host) t (process_id : string)
    (record : ProcessRecord) : result string Released * ProcessTable :=
  let running :=
    match pc_root record with
    | Some root => if bool_decide (root_runs host record root boot_id = Some true) then Some root
                   else None
    | None => None
    end in
  match running with
  | Some root =>
      (Ok (ReRefused ("its root process " +:+ pretty (root_pid root) +:+
                      " still runs: end it, and what it started, first")), t)
  | None =>
      let (released, t) := release_record t process_id (hs_now_ms host) in
      (Ok (if released then ReNow else ReRefused "its record does not wait for a release"), t)
  end.

(** The arm of [release_one] for a record that may still be held by its Runner. *)
Definition release_unended (boot_id : option string) (seen host : Host) t (process_id : string)
    (record : ProcessRecord) : result string Released * ProcessTable :=
  let loss := loss_of (pc_runner record) boot_id in
  if bool_decide (loss = RunnerLost) && pid_runs seen (rr_pid (pc_runner record)) then
    (Ok (ReRefused
       ("a process with its Runner's PID " +:+ pretty (rr_pid (pc_runner record)) +:+
        " runs, and may be that Runner, which still holds the record: stop that Runner first, " +:+
        "or start the gateway, which marks the record lost when no Runner answers for it")), t)
  else
    let (_, t) := record_runner_lost t (pc_runner record) loss (hs_now_ms seen) in
    match in_words (process_record t process_id) with
    | Err e => (Err e, t)
    | Ok None => (Err "the record disappeared", t)
    | Ok (Some record) => release_lost boot_id host t process_id record
    end.

(** [release_one]. The host is looked at twice: [seen] is what the check of the Runner's PID
    finds, [host] what the check of the root process does. *)
Definition release_one (boot_id : option string) (seen host : Host) t (process_id : string)
    : result string Released * ProcessTable :=
  match in_words (process_record t process_id) with
  | Err e => (Err e, t)
  | Ok None => (Ok (ReRefused "no record has this process ID"), t)
  | Ok (Some record) =>
      if is_some (pc_released_at_ms record) then (Ok ReBefore, t)
      else
        match pc_phase record with
        | PhTerminal => (Ok (ReRefused "its execution ended, so its record holds no workspace"), t)
        | PhDispatching | PhRunning => release_unended boot_id seen host t process_id record
        | PhUnknown => release_lost boot_id host t process_id record
        end
  end.

(** What [release] prints. *)
Record ReleaseReport := mkReleaseReport {
  rp_released : list string;
  rp_already_released : list string;
  rp_refused : list (string * string)
}.

Definition reported (process_id : string) (r : Released) (p : ReleaseReport) : ReleaseReport :=
  match r with
  | ReNow => mkReleaseReport (rp_released p ++ [process_id]) (rp_already_released p) (rp_refused p)
  | ReBefore =>
      mkReleaseReport (rp_released p) (rp_already_released p ++ [process_id]) (rp_refused p)
  | ReRefused reason =>
      mkReleaseReport (rp_released p) (rp_already_released p) (rp_refused p ++ [(process_id, reason)])
  end.

(** The loop of [release]: each process ID with the host as its two checks find it. The first
    error ends it. *)
Fixpoint release_each (boot_id : option string) (process_ids : list (string * (Host * Host)))
    (p : ReleaseReport) t : result string ReleaseReport * ProcessTable :=
  match process_ids with
  | [] => (Ok p, t)
  | (process_id, (seen, host)) :: process_ids =>
      let (r, t) := release_one boot_id seen host t process_id in
      match r with
      | Err e => (Err e, t)
      | Ok released => release_each boot_id process_ids (reported process_id released p) t
      end
  end.

Definition is_done (p : ReleaseReport) : bool :=
  match rp_refused p with [] => true | _ => false end.

(** [release]: [database] is the path, [exists_] whether there is such a file, and [writer] what
    [WriterLock::acquire] answers. *)
Definition release (database : string) (exists_ : bool) (writer : result string unit)
    (boot_id : option string) (process_ids : list (string * (Host * Host))) t
    : result string (ReleaseReport * bool) * ProcessTable :=
  if negb exists_ then (Err ("the operations database " +:+ database +:+ " does not exist"), t)
  else
    match writer with
    | Err e =>
        (Err ("records release changes records only while no gateway runs on the database: " +:+ e), t)
    | Ok _ =>
        let (r, t) := release_each boot_id process_ids (mkReleaseReport [] [] []) t in
        ((fun p => (p, is_done p)) <$> r, t)
    end.

(** ** [records list] *)

Record Described := mkDescribed {
  ds_record : ProcessRecord;
  ds_this_boot : option bool;
  ds_pid_running : bool;
  ds_root_running : option bool
}.

(** [describe]: the record's fields as they are, and what the host says of its processes. *)
Definition describe (host : Host) (boot_id : option string) (record : ProcessRecord) : Described :=
  {| ds_record := record;
     ds_this_boot := then_ ← rr_boot_id (pc_runner record); now ← boot_id;
                     Some (bool_decide (then_ = now));
     ds_pid_running := bool_decide (loss_of (pc_runner record) boot_id <> HostRebooted)
                       && pid_runs host (rr_pid (pc_runner record));
     ds_root_running := root ← pc_root record; root_runs host record root boot_id |}.

(** [list]. *)
Definition list_records (host : Host) (boot_id : option string) t : result string (list Described) :=
  match in_words (unsettled t) with
  | Err e => Err e
  | Ok records => Ok (describe host boot_id <$> records)
  end.
End operator.

(** * What a release does to the table *)

Section releases.
Context `{Sql : SqlEngine}.
Context (boot_id : option string).

(** A release's process IDs, each with the host as its two checks find it. *)
Abbreviation Items := (list (string * (Host * Host))).

(** The Runner of a row is gone: the host restarted since, or a check found its PID free. *)
Definition runner_gone (items : Items) (r : ProcessRow) : Prop :=
  loss_of (row_runner r) boot_id = HostRebooted \/
  exists id seen host, (id, (seen, host)) ∈ items /\ pid_runs seen (pr_runner_pid r) = false.

(** The root process of a row is none that runs on [host]. *)
Definition root_ended (host : Host) (r : ProcessRow) : Prop :=
  forall pid started, pr_root_pid r = Some pid -> pr_root_started r = Some started ->
    loss_of (row_runner r) boot_id = RunnerLost -> process_runs host pid started = false.

(** The release of [id] was in order. *)
Definition in_order (items : Items) (id : string) (r : ProcessRow) : Prop :=
  pr_phase r <> "terminal" /\ (is_Some (pr_lost r) \/ runner_gone items r) /\
  exists seen host, (id, (seen, host)) ∈ items /\ root_ended host r.

Record row_moves (items : Items) (id : string) (r r' : ProcessRow) : Prop := {
  rw_runner : row_runner r' = row_runner r;
  rw_pid : pr_runner_pid r' = pr_runner_pid r;
  rw_root : pr_root_pid r' = pr_root_pid r;
  rw_started : pr_root_started r' = pr_root_started r;
  rw_phase : pr_phase r' = "terminal" <-> pr_phase r = "terminal";
  rw_lost : is_Some (pr_lost r') -> is_Some (pr_lost r) \/ runner_gone items r;
  rw_kept : is_Some (pr_released_at_ms r) -> is_Some (pr_released_at_ms r');
  rw_released : is_Some (pr_released_at_ms r') ->
    is_Some (pr_released_at_ms r) \/ in_order items id r
}.

Definition table_moves (items : Items) (t t' : ProcessTable) : Prop :=
  forall id r, t !! id = Some r -> exists r', t' !! id = Some r' /\ row_moves items id r r'.

Lemma row_moves_refl items id r : row_moves items id r r.
Proof. split; auto. Qed.

Lemma table_moves_refl items t : table_moves items t t.
Proof. intros id r Hr. eauto using row_moves_refl. Qed.

Lemma runner_gone_mono items items' r :
  items ⊆ items' -> runner_gone items r -> runner_gone items' r.
Proof. intros Hs [H|(id & a & b & H & Hp)]; [by left|right; exists id, a, b; auto]. Qed.

Lemma in_order_mono items items' id r :
  items ⊆ items' -> in_order items id r -> in_order items' id r.
Proof.
  intros Hs (Ht & Hg & a & b & H & He). split_and!; [done| |by exists a, b; auto].
  destruct Hg; [by left|right; eauto using runner_gone_mono].
Qed.

Lemma row_moves_trans items items' both id r r1 r2 :
  items ⊆ both -> items' ⊆ both ->
  row_moves items id r r1 -> row_moves items' id r1 r2 -> row_moves both id r r2.
Proof.
  intros Hs Hs' [R P O S T L K E] [R' P' O' S' T' L' K' E'].
  assert (Hgone : runner_gone items' r1 -> runner_gone both r).
  { intros H. apply (runner_gone_mono _ both) in H; [|done]. unfold runner_gone in *.
    by rewrite R, P in H. }
  assert (Hlost : is_Some (pr_lost r1) -> is_Some (pr_lost r) \/ runner_gone both r).
  { intros [?|?]%L; [by left|right; eauto using runner_gone_mono]. }
  split; [congruence..|by rewrite T'| | |].
  - intros [?|?]%L'; auto.
  - auto.
  - intros [[?|?]%E|(Ht & Hg & a & b & H & He)]%E'; [by left|right; eauto using in_order_mono|].
    right. split_and!; [by rewrite <- T|destruct Hg; auto|]. exists a, b. split; [by apply Hs'|].
    unfold root_ended in *. by rewrite O, S, R in He.
Qed.

Lemma table_moves_trans items items' both t t1 t2 :
  items ⊆ both -> items' ⊆ both ->
  table_moves items t t1 -> table_moves items' t1 t2 -> table_moves both t t2.
Proof.
  intros Hs Hs' H H' id r Hr. destruct (H id r Hr) as (r1 & Hr1 & Hm).
  destruct (H' id r1 Hr1) as (r2 & Hr2 & Hm'). eauto using row_moves_trans.
Qed.

(** Losing a Runner that is gone. *)
Lemma lost_moves items t runner loss now :
  (loss_of runner boot_id = HostRebooted \/
   exists id seen host, (id, (seen, host)) ∈ items /\ pid_runs seen (rr_pid runner) = false) ->
  table_moves items t (record_runner_lost t runner loss now).2.
Proof.
  intros Hgone id r Hr. cbn. rewrite lookup_fmap, Hr. cbn. eexists. split; [reflexivity|].
  destruct (unended_of runner r) eqn:Hu; [|apply row_moves_refl].
  apply andb_prop in Hu as [Hsent Hu%bool_decide_eq_true].
  unfold sent_to in Hsent. rewrite !andb_true_iff, !bool_decide_eq_true in Hsent.
  destruct Hsent as [[[Hb Hp] _] _].
  assert (Hg : runner_gone items r).
  { unfold runner_gone, loss_of, row_runner. cbn. by rewrite Hb, Hp. }
  split; auto; cbn. split; [done|]. intros Ht. rewrite Ht in Hu. set_solver.
Qed.

(** Releasing one record in order. *)
Lemma released_moves items t id now :
  (forall r, t !! id = Some r -> pr_phase r = "unknown" -> in_order items id r) ->
  table_moves items t (release_record t id now).2.
Proof.
  intros Ho id' r' Hr'. unfold release_record. destruct (t !! id) as [r|] eqn:Hr; cbn;
    [|eauto using row_moves_refl].
  destruct (_ && _) eqn:Hu; cbn; [|eauto using row_moves_refl].
  destruct (decide (id = id')) as [<-|Hne];
    [|rewrite lookup_insert_ne by done; eauto using row_moves_refl].
  rewrite lookup_insert_eq. assert (r' = r) as -> by congruence.
  eexists. split; [reflexivity|]. apply andb_prop in Hu as [Hu%bool_decide_eq_true _].
  apply list_elem_of_singleton in Hu. split; cbn; eauto.
Qed.

Context `{JA : Json (list string)} (sha256_hex : string -> string).

(** The root process that a record names, checked. *)
Lemma root_checked host id r record :
  process_row_ok r -> map_record id r = Ok record ->
  (forall root, pc_root record = Some root -> root_runs host record root boot_id <> Some true) ->
  root_ended host r.
Proof.
  intros Hok Hm Hroot pid started Hp Hs Hl.
  destruct (map_record_ok id r Hok) as (part & ph & o & l & _ & _ & _ & _ & Hm').
  rewrite Hm in Hm'. injection Hm' as ->. cbn in Hroot. rewrite Hp, Hs in Hroot. cbn in Hroot.
  specialize (Hroot _ eq_refl). unfold root_runs in Hroot. cbn in Hroot.
  rewrite bool_decide_eq_false_2 in Hroot by by rewrite Hl. cbn in Hroot.
  by destruct (process_runs host pid started).
Qed.

Definition now_released (t : ProcessTable) (id : string) : Prop :=
  exists r, t !! id = Some r /\ is_Some (pr_released_at_ms r).

Lemma now_released_moves items t t' id :
  table_moves items t t' -> now_released t id -> now_released t' id.
Proof.
  intros Hm (r & Hr & Hrel). destruct (Hm id r Hr) as (r' & Hr' & Hmv).
  exists r'. split; [done|]. by apply (rw_kept _ _ _ _ Hmv).
Qed.

Lemma release_lost_moves items seen host t id r record out t' :
  process_table_ok t -> t !! id = Some r -> map_record id r = Ok record ->
  (id, (seen, host)) ∈ items -> release_lost boot_id host t id record = (out, t') ->
  table_moves items t t' /\ process_table_ok t' /\ (out = Ok ReNow -> now_released t' id).
Proof using All.
  intros Hok Hr Hm Hin. unfold release_lost.
  assert (Hrel : (forall root, pc_root record = Some root ->
                   root_runs host record root boot_id <> Some true) ->
    (let (released, t0) := release_record t id (hs_now_ms host) in
     (Ok (E := string) (if released then ReNow else ReRefused "its record does not wait for a release"), t0))
      = (out, t') ->
    table_moves items t t' /\ process_table_ok t' /\ (out = Ok ReNow -> now_released t' id)).
  { intros Hroot Heq. destruct (release_record t id (hs_now_ms host)) as [b t0] eqn:Hrr.
    injection Heq as <- <-.
    assert (t0 = (release_record t id (hs_now_ms host)).2) as Ht0 by by rewrite Hrr. split_and!.
    - rewrite Ht0. apply released_moves. intros r' Hr' Hph. rewrite Hr in Hr'. injection Hr' as <-.
      split_and!; [by rewrite Hph|left; by apply (po_unknown _ (Hok _ _ Hr))|].
      exists seen, host. split; [done|]. by eapply root_checked; [apply (Hok _ _ Hr)|..].
    - rewrite Ht0. by apply (process_run_ok sha256_hex (PRelease id (hs_now_ms host))).
    - destruct b; [|done]. intros _. revert Hrr. unfold release_record. rewrite Hr.
      destruct (_ && _); [|done]. intros [= <-]. eexists. rewrite lookup_insert_eq.
      split; [done|]. by eexists. }
  assert (Hnone : forall reason, (Ok (E := string) (ReRefused reason), t) = (out, t') ->
    table_moves items t t' /\ process_table_ok t' /\ (out = Ok ReNow -> now_released t' id)).
  { intros reason [= <- <-]. split_and!; [apply table_moves_refl|done|done]. }
  destruct (pc_root record) as [root|] eqn:Hroot; [|by apply Hrel].
  destruct (bool_decide _) eqn:Hruns; [apply Hnone|]. apply bool_decide_eq_false in Hruns.
  apply Hrel. by intros root' [= <-].
Qed.

Lemma recorded t id record :
  in_words (process_record t id) = Ok (Some record) ->
  exists r, t !! id = Some r /\ map_record id r = Ok record.
Proof.
  intros H. apply load_record_Some. unfold in_words, process_record in H.
  by destruct (load_record t id) as [o|]; [injection H as ->|].
Qed.

Lemma release_unended_moves items seen host t id r record out t' :
  process_table_ok t -> t !! id = Some r -> map_record id r = Ok record ->
  (id, (seen, host)) ∈ items -> release_unended boot_id seen host t id record = (out, t') ->
  table_moves items t t' /\ process_table_ok t' /\ (out = Ok ReNow -> now_released t' id).
Proof using All.
  intros Hok Hr Hm Hin. unfold release_unended. cbv zeta.
  set (loss := loss_of (pc_runner record) boot_id).
  destruct (_ && _) eqn:Hgone.
  { intros [= <- <-]. split_and!; [apply table_moves_refl|done|done]. }
  destruct (record_runner_lost _ _ _ _) as [ids t1] eqn:Hl.
  assert (Ht1 : t1 = (record_runner_lost t (pc_runner record) loss (hs_now_ms seen)).2)
    by by rewrite Hl.
  assert (Hmv : table_moves items t t1).
  { rewrite Ht1. apply lost_moves. apply andb_false_iff in Hgone as [Hr'|Hp].
    - left. apply bool_decide_eq_false in Hr'. fold loss. by destruct loss.
    - right. by exists id, seen, host. }
  assert (Hok1 : process_table_ok t1).
  { rewrite Ht1. by apply (process_run_ok sha256_hex (PRunnerLost (pc_runner record) loss (hs_now_ms seen))). }
  destruct (in_words (process_record t1 id)) as [[record1|]|e] eqn:H1; [|by intros [= <- <-]..].
  apply recorded in H1 as (r1 & Hr1 & Hm1). intros Hend.
  destruct (release_lost_moves items seen host t1 id r1 record1 out t' Hok1 Hr1 Hm1 Hin Hend)
    as (Hmv' & Hok' & Hnow). split_and!; [|done|done].
  by eapply table_moves_trans; [..|exact Hmv|exact Hmv'].
Qed.

Lemma release_one_moves items seen host t id out t' :
  process_table_ok t -> (id, (seen, host)) ∈ items ->
  release_one boot_id seen host t id = (out, t') ->
  table_moves items t t' /\ process_table_ok t' /\ (out = Ok ReNow -> now_released t' id).
Proof using All.
  intros Hok Hin. unfold release_one.
  assert (Hnone : forall o, o <> Ok ReNow -> (o, t) = (out, t') ->
    table_moves items t t' /\ process_table_ok t' /\ (out = Ok ReNow -> now_released t' id)).
  { intros o Ho [= <- <-]. split_and!; [apply table_moves_refl|done|done]. }
  destruct (in_words _) as [[record|]|e] eqn:Hrec; [|by apply Hnone..].
  apply recorded in Hrec as (r & Hr & Hm). destruct (is_some _); [by apply Hnone|].
  destruct (pc_phase record); [| |by apply Hnone|]; intros Hout;
    eauto using release_lost_moves, release_unended_moves.
Qed.

Lemma release_each_moves items process_ids p t out t' :
  process_table_ok t -> process_ids ⊆ items ->
  release_each boot_id process_ids p t = (out, t') ->
  table_moves items t t' /\
  (forall p', out = Ok p' -> forall id, id ∈ rp_released p' -> id ∈ rp_released p \/ now_released t' id).
Proof using All.
  revert p t. induction process_ids as [|[id [seen host]] process_ids IH]; intros p t Hok Hsub.
  { cbn. intros [= <- <-]. split; [apply table_moves_refl|]. intros p' [= <-]. auto. }
  cbn [release_each]. destruct (release_one boot_id seen host t id) as [o t1] eqn:H1.
  apply (release_one_moves items) in H1 as (Hm & Hok1 & Hnow); [|done|set_solver].
  destruct o as [released|e]; [|by intros [= <- <-]]. intros Hout.
  apply IH in Hout as [Hm' Hrel]; [|done|set_solver].
  split; [by eapply table_moves_trans; [..|exact Hm|exact Hm']|].
  intros p' Hp id' Hid. destruct (Hrel p' Hp id' Hid) as [Hin|?]; [|by right].
  destruct released; cbn in Hin; auto. apply elem_of_app in Hin as [?|Hin]; [by left|].
  apply list_elem_of_singleton in Hin as ->. right. eauto using now_released_moves.
Qed.

(** What a record says of its row. *)
Lemma record_row id r rec :
  process_row_ok r -> map_record id r = Ok rec ->
  pc_runner rec = row_runner r /\ (pc_phase rec <> PhTerminal <-> pr_phase r <> "terminal") /\
  (is_Some (pc_lost rec) <-> is_Some (pr_lost r)) /\
  (is_Some (pc_released_at_ms rec) <-> is_Some (pr_released_at_ms r)) /\
  (forall root started, pc_root rec = Some root -> root_started root = Some started ->
     pr_root_pid r = Some (root_pid root) /\ pr_root_started r = Some started).
Proof using.
  intros Hok Hm. destruct (map_record_ok id r Hok) as (part & ph & o & l & _ & Hph & _ & Hl & Hm').
  rewrite Hm in Hm'. injection Hm' as ->. cbn. rewrite Hph, Hl, !fmap_is_Some. split_and!; try done.
  - by destruct ph.
  - intros root started. destruct (pr_root_pid r); [|done]. by intros [= <-].
Qed.

(** Of the host as it was looked at: if its processes were those of a Linux host, each process
    with this PID that [which] holds of had exited, unless its name is not UTF-8 text. *)
Definition ended_at (h : Host) (pid : Z) (which : LinuxProcess -> Prop) : Prop :=
  forall processes now p, h = linux_host processes now ->
    map_Forall (fun _ => linux_process_ok) processes -> processes !! pid = Some p ->
    is_utf8 (lp_name p) = true -> which p -> ~ unexited p.

Lemma pid_ended h pid : pid_runs h pid = false -> ended_at h pid (fun _ => True).
Proof using.
  intros Hr processes now p -> Hok Hp Hu _ Hun.
  pose proof (process_runs_as_itself processes now Hok pid "") as H. rewrite Hp, Hu in H.
  destruct H as (_ & _ & _ & [_ H]). rewrite H in Hr by done. done.
Qed.

Lemma process_ended h pid started :
  process_runs h pid started = false ->
  ended_at h pid (fun p => start_identity_text (lp_start p) = started).
Proof using.
  intros Hr processes now p -> Hok Hp Hu Hs Hun.
  pose proof (process_runs_as_itself processes now Hok pid started) as H. rewrite Hp, Hu in H.
  destruct H as (_ & _ & [_ H] & _). rewrite H in Hr by done. done.
Qed.

(** C13: [records release] frees a record only on what it checked. It changes nothing unless the
    database exists and no gateway holds its writer's lock, and then a record that was not
    released before is released only if it was asked for, its execution had not ended, and its
    Runner is gone: it was recorded lost, the host has restarted, or a check of the Runner's PID
    found no process running there. Where the record names its root process with its start
    identity and the host has not restarted, a check of that found no such process running,
    either. On a Linux host what a check found is so, unless a process's name is not UTF-8 text:
    the process with that PID, and with that start time, had exited. (One whose name is not is
    missed, as [unreadable_names_count_as_ended] shows, and a record that names no start identity
    is released without a look at its root process.) What is reported as released is. *)
Theorem releases_are_in_order (ops : list ProcessOp) (database : string) (exists_ : bool)
    (writer : result string unit) (process_ids : Items)
    (out : result string (ReleaseReport * bool)) (t' : ProcessTable)
    (Hrel : release database exists_ writer boot_id process_ids (Processes.process_runs sha256_hex ops ∅)
              = (out, t')) :
  let t := Processes.process_runs sha256_hex ops ∅ in
  (t' <> t -> exists_ = true /\ writer = Ok tt) /\
  (forall id before, process_record t id = Ok (Some before) -> pc_released_at_ms before = None ->
     forall after, process_record t' id = Ok (Some after) -> is_Some (pc_released_at_ms after) ->
       pc_phase before <> PhTerminal /\
       (is_Some (pc_lost before) \/ loss_of (pc_runner before) boot_id = HostRebooted \/
        exists other seen host, (other, (seen, host)) ∈ process_ids /\
          pid_runs seen (rr_pid (pc_runner before)) = false /\
          ended_at seen (rr_pid (pc_runner before)) (fun _ => True)) /\
       exists seen host, (id, (seen, host)) ∈ process_ids /\
         forall root started, pc_root before = Some root -> root_started root = Some started ->
           loss_of (pc_runner before) boot_id = RunnerLost ->
           process_runs host (root_pid root) started = false /\
           ended_at host (root_pid root) (fun p => start_identity_text (lp_start p) = started)) /\
  (forall p all, out = Ok (p, all) ->
     (all = true <-> rp_refused p = []) /\ forall id, id ∈ rp_released p -> now_released t' id).
Proof using All.
  intros t. pose proof (process_runs_ok sha256_hex ops ∅ process_empty_ok) as Hok. fold t in Hok, Hrel.
  assert (Hm : table_moves process_ids t t' /\
    (forall p all, out = Ok (p, all) ->
       (all = true <-> rp_refused p = []) /\ forall id, id ∈ rp_released p -> now_released t' id) /\
    (t' <> t -> exists_ = true /\ writer = Ok tt)).
  { unfold release in Hrel. destruct exists_; cbn [negb] in Hrel;
      [|injection Hrel as <- <-; split_and!; [apply table_moves_refl|done|done]].
    destruct writer as [[]|e]; [|injection Hrel as <- <-; split_and!; [apply table_moves_refl|done|done]].
    destruct (release_each _ _ _ t) as [o t1] eqn:He.
    apply (release_each_moves process_ids) in He as [Hm Hrep]; [|done|done].
    injection Hrel as <- <-. split_and!; [done| |done]. intros p all Hp.
    destruct o as [p'|]; cbn in Hp; [|done]. injection Hp as -> <-. split.
    - unfold is_done. by destruct (rp_refused p).
    - intros id Hid. destruct (Hrep p eq_refl id Hid) as [Hin|?]; [|done]. by apply elem_of_nil in Hin. }
  destruct Hm as (Hm & Hrep & Hw). split_and!; [done| |done].
  intros id before (r & Hr & Hb)%load_record_Some Hnr after (r' & Hr' & Ha)%load_record_Some Hrel'.
  destruct (record_row id r before (Hok _ _ Hr) Hb) as (Hrun & Hph & Hlost & Hreld & Hroot).
  destruct (Hm id r Hr) as (r1 & Hr1 & Hmv). assert (r1 = r') as -> by congruence.
  assert (Hrow : is_Some (pr_released_at_ms r')).
  { revert Ha Hrel'. unfold map_record. rewrite !bind_Ok. intros (? & _ & Ha).
    apply bind_Ok in Ha as (? & _ & Ha). apply bind_Ok in Ha as (? & _ & Ha).
    apply bind_Ok in Ha as (? & _ & Ha). injection Ha as <-. cbn. by rewrite fmap_is_Some. }
  destruct (rw_released _ _ _ _ Hmv Hrow) as [Hs|(Hnt & Hg & seen & host & Hin & Hended)].
  { apply Hreld in Hs. rewrite Hnr in Hs. by destruct Hs. }
  rewrite Hrun. split_and!; [by apply Hph| |].
  - unfold runner_gone in Hg. rewrite Hlost.
    destruct Hg as [?|[?|(other & seen' & host' & Hin' & Hpid)]]; [auto..|].
    right. right. exists other, seen', host'. eauto using pid_ended.
  - exists seen, host. split; [done|]. intros root started Hr0 Hs0 Hl.
    destruct (Hroot root started Hr0 Hs0) as [Hp Hs].
    pose proof (Hended (root_pid root) started Hp Hs Hl). eauto using process_ended.
Qed.
End releases.

(** * A concrete release *)

Section example.
#[local] Existing Instances demo_sql demo_argv.

Definition held_history : list ProcessOp :=
  [PDispatch approvals_empty demo_new 2000;
   PChange demo_runner "p" _
     (change_started (Some (mkRootProcess 9 (Some (start_identity_text 55)))) (Some 9000%Z)) 2001].
Definition held_table : ProcessTable := Processes.process_runs demo_digest held_history ∅.

Definition asked_of (p : LinuxProcess) : list (string * (Host * Host)) :=
  [("p", (running_as p 3000, running_as p 3001))].

Definition answered_of (p : LinuxProcess) : result string (ReleaseReport * bool) * ProcessTable :=
  release "ops.sqlite" true (Ok tt) (Some "boot") (asked_of p) held_table.

Definition held_record : ProcessRecord :=
  mkProcessRecord "p" demo_runner (Some 3%Z) "w" None None PartOff false
    (hash_canonical demo_digest ["ls"]) PhRunning (Some 9000%Z)
    (Some (mkRootProcess 9 (Some (start_identity_text 55)))) None None None None 2000 2001 None None.

(** While its root runs the record is kept; once another process has its PID it is released, and
    no process there has the root's start time. *)
Lemma releases_are_in_order_witness :
  (exists reason, (answered_of (recorded_root "sh")).1
     = Ok (mkReleaseReport [] [] [("p", reason)], false)) /\
  (answered_of later_process).1 = Ok (mkReleaseReport ["p"] [] [], true) /\
  ended_at (running_as later_process 3001) 9
    (fun p => start_identity_text (lp_start p) = start_identity_text 55).
Proof.
  split; [eexists; vm_compute; reflexivity|]. split; [vm_compute; reflexivity|].
  destruct (releases_are_in_order (Some "boot") demo_digest held_history "ops.sqlite" true (Ok tt)
    (asked_of later_process) (answered_of later_process).1 (answered_of later_process).2)
    as (_ & Hfreed & _); [unfold answered_of, held_table; apply surjective_pairing|].
  destruct (process_record (answered_of later_process).2 "p") as [[after|]|e] eqn:Ha;
    [|vm_compute in Ha; discriminate Ha..].
  destruct (Hfreed "p" held_record) with (after := after) as (_ & _ & seen & host & Hin & Hend).
  - vm_compute. reflexivity.
  - reflexivity.
  - exact Ha.
  - vm_compute in Ha. injection Ha as <-. eexists. reflexivity.
  - apply list_elem_of_singleton in Hin. injection Hin as -> ->.
    apply (Hend (mkRootProcess 9 (Some (start_identity_text 55)))); vm_compute; reflexivity.
Defined.

(** The same root, running on under a name that is not UTF-8, as of a program whose name Linux cut
    within a character: its record is released. *)
Example unreadable_names_count_as_ended :
  let p := recorded_root (String (ascii_of_N 195) "") in
  linux_process_ok p /\ unexited p /\
  (answered_of p).1 = Ok (mkReleaseReport ["p"] [] [], true).
Proof.
  split_and!; [split; [reflexivity|reflexivity|done]|unfold unexited; cbn; set_solver|].
  vm_compute. reflexivity.
Qed.

(** A record that names no start identity is released while its root runs. *)
Example roots_without_a_start_identity_are_not_checked :
  let history := [PDispatch approvals_empty demo_new 2000;
     PChange demo_runner "p" _ (change_started (Some (mkRootProcess 9 None)) (Some 9000%Z)) 2001] in
  (release "ops.sqlite" true (Ok tt) (Some "boot") (asked_of (recorded_root "sh"))
     (Processes.process_runs demo_digest history ∅)).1 = Ok (mkReleaseReport ["p"] [] [], true).
Proof. vm_compute. reflexivity. Qed.
End example.
