(* ===== verification/Patches.v ===== *)
(** Patches: the adapter of Codex's patch format ([crates/patch]) in its helper process, and the
    Runner's side of a patch ([runner/patch_helper.rs], [patch_verify.rs], [rollback.rs],
    [apply.rs]): expected versions, a preflight, snapshots, the patch, its verification against
    the disk, and the restoration of the snapshots when it failed.

    The steps of a patch see the disk one after the other: what other programs write meanwhile is
    not modelled, except that a helper that does not come to its end leaves any disk. *)
From S2P Require Import Prelude Domain Policy Output Api Files.

(** * Hunks

    What Codex's [parse_patch] makes of a patch: paths as text, and of each updated file the
    lines that every chunk replaces. *)
Inductive Hunk :=
  | HunkAdd (path : string)
  | HunkDelete (path : string)
  | HunkUpdate (path : string) (move_path : option string) (chunks : list (list string)).

(** Codex's [parse_patch] and [apply_patch_with_options], in the working directory, with the disk
    that it leaves. *)
Class Codex `{FS : FileSystem} := {
  parse_patch : string -> result string (list Hunk);
  apply_patch_with_options : Disk -> string -> Path -> Disk * result string unit
}.

Record PlannedFile := mkPlannedFile {
  pf_abs : Path;
  pf_relative : string;
  pf_kind : FileChangeKind
}.

Record ApplyOutcome := mkApplyOutcome { ao_files : list string; ao_changes : list FileChange }.

(** [HelperRun]: what becomes of the helper's process. One that is given up is killed, and leaves
    the disk as far as it came. *)
Inductive HelperRun {D : Type} :=
  | HelperMissing
  | SpawnFailed (text : string)
  | StdinFailed (text : string) (left : D)
  | HelperTimedOut (left : D)
  | WaitFailed (text : string) (left : D)
  | HelperFailed (stdout_len stderr_len : Z) (stderr : string) (left : D)
  | HelperEnded (stdout_len stderr_len : Z).
Arguments HelperRun : clear implicits.

Record FileSnapshot := mkFileSnapshot {
  fs_relative : string;
  fs_existed : bool;
  fs_content : option (list ascii);
  fs_mode : option Z
}.

(** Results with the disk after them. *)
Section disk_state.
Context `{FS : FileSystem} {Sha : Sha256} {Cx : Codex}.

Definition with_disk {A B} (r : Disk * res A) (f : Disk -> A -> Disk * res B) : Disk * res B :=
  match r with (disk, Ok a) => f disk a | (disk, Err e) => (disk, Err e) end.

(** * The adapter ([crates/patch/src/lib.rs]) *)

(** [dest] without links between it and the root. *)
Definition patch_reject_ancestors (disk : Disk) (workspace : Workspace) (dest : Path)
    : res unit :=
  reject_links (fun current => path_text current +:+ " is a symlink") (S (length dest)) disk
    (canonical_root (canonicalized disk) workspace) dest.

Definition rel_display (path : string) : string := replace_char "\"%char "/" path.

Definition confined (disk : Disk) (workspace : Workspace) (path : string) : res Path :=
  dest ← resolve_path (canonicalized disk) workspace path;
  _ ← patch_reject_ancestors disk workspace dest;
  Ok dest.

Definition plan_hunk (disk : Disk) (workspace : Workspace) (hunk : Hunk)
    : res (list PlannedFile) :=
  match hunk with
  | HunkAdd path =>
      dest ← confined disk workspace path;
      if fs_exists disk dest then Err (error_body AddFileExists (path +:+ " already exists"))
      else Ok [mkPlannedFile dest (rel_display path) ChangeAdd]
  | HunkDelete path =>
      dest ← confined disk workspace path;
      Ok [mkPlannedFile dest (rel_display path) ChangeDelete]
  | HunkUpdate path move_path _ =>
      dest ← confined disk workspace path;
      match move_path with
      | Some moved =>
          dest_path ← confined disk workspace moved;
          if fs_exists disk dest_path
          then Err (error_body MoveDestinationExists (moved +:+ " already exists"))
          else Ok [mkPlannedFile dest (rel_display path) ChangeDelete;
                   mkPlannedFile dest_path (rel_display moved) ChangeMove]
      | None => Ok [mkPlannedFile dest (rel_display path) ChangeUpdate]
      end
  end.

Fixpoint plan_hunks (disk : Disk) (workspace : Workspace) (hunks : list Hunk)
    : res (list PlannedFile) :=
  match hunks with
  | [] => Ok []
  | hunk :: hunks =>
      files ← plan_hunk disk workspace hunk;
      more ← plan_hunks disk workspace hunks;
      Ok (files ++ more)
  end.

Definition parsed (patch : string) : res (list Hunk) :=
  map_err (error_body InvalidPatch) (parse_patch patch).

Definition plan_files (disk : Disk) (workspace : Workspace) (patch : string)
    : res (list PlannedFile) :=
  hunks ← parsed patch; plan_hunks disk workspace hunks.

Definition parse_and_policy (disk : Disk) (workspace : Workspace) (patch : string)
    : res (list Path) :=
  files ← plan_files disk workspace patch; Ok (pf_abs <$> (files : list PlannedFile)).

(** [read_to_string], or nothing. *)
Definition body_or_default (disk : Disk) (dest : Path) : string :=
  match fs_read_bytes disk dest with
  | Ok bytes => if bool_decide (lossy bytes = bytes) then of_text bytes else ""
  | Err _ => ""
  end.

Definition CR : ascii := ascii_of_N 13.
Definition LF : ascii := ascii_of_N 10.

Definition chunk_matches (body : string) (old_lines : list string) : bool :=
  match old_lines with
  | [] => true
  | _ => contains (String.concat (of_text [LF]) old_lines) body
         || contains (String.concat (of_text [CR; LF]) old_lines) body
  end.

Fixpoint check_hunks (disk : Disk) (workspace : Workspace) (hunks : list Hunk) : res unit :=
  match hunks with
  | [] => Ok tt
  | HunkUpdate path _ chunks :: hunks =>
      dest ← resolve_path (canonicalized disk) workspace path;
      if forallb (chunk_matches (body_or_default disk dest)) chunks
      then check_hunks disk workspace hunks
      else Err (error_body InvalidPatch ("context mismatch in " +:+ path))
  | _ :: hunks => check_hunks disk workspace hunks
  end.

(** [codespace_patch::preflight]. *)
Definition patch_preflight (disk : Disk) (workspace : Workspace) (patch : string)
    : res (list Path) :=
  files ← parse_and_policy disk workspace patch;
  hunks ← parsed patch;
  _ ← check_hunks disk workspace hunks;
  Ok files.

Fixpoint planned_to_changes (disk : Disk) (planned : list PlannedFile) (hash_after : bool)
    : res (list FileChange) :=
  match planned with
  | [] => Ok []
  | file :: planned =>
      after_version ←
        (if negb hash_after || bool_decide (pf_kind file = ChangeDelete) then Ok None
         else bytes ← map_err (fun err => error_body InvalidPatch
                          ("failed to hash " +:+ pf_relative file +:+ ": " +:+ err))
                        (fs_read_bytes disk (pf_abs file));
              Ok (Some (version_of bytes)));
      changes ← planned_to_changes disk planned hash_after;
      Ok (mkFileChange (pf_relative file) None after_version (pf_kind file) :: changes)
  end.

Definition relative_files (root : Path) (files : list Path) : list string :=
  path_text <$> omap (strip_prefix root) files.

Definition apply_in_workspace (disk : Disk) (workspace : Workspace) (patch : string)
    (check_only : bool) : Disk * res ApplyOutcome :=
  with_disk (disk, files ← patch_preflight disk workspace patch;
                   root ← map_err (error_body PathEscape)
                            (fs_canonicalize disk (ws_root workspace));
                   planned ← plan_files disk workspace patch;
                   Ok (files, components root, planned))
    (fun disk '(files, root, planned) =>
       let outcome disk hash_after :=
         changes ← planned_to_changes disk planned hash_after;
         Ok (mkApplyOutcome (relative_files root files) changes) in
       if check_only then (disk, outcome disk false)
       else
         with_disk (disk, map_err (error_body PathEscape) (path_uri root))
           (fun disk _ =>
              match apply_patch_with_options disk patch root with
              | (disk, Err err) => (disk, Err (error_body InvalidPatch err))
              | (disk, Ok _) => (disk, outcome disk true)
              end)).

(** * The helper ([codespace-patch] and [patch_helper.rs]) *)

Definition HELPER_IO_LIMIT : Z := 1024 * 1024.

Inductive HelperOp := OpPreflight | OpApply.

(** [main] of the helper: its request is what the Runner sends, and its answer the outcome, as
    the Runner reads it back. *)
Definition helper_main (disk : Disk) (op : HelperOp) (root patch : string) (check_only : bool)
    : Disk * res ApplyOutcome :=
  let ws := workspace_new "helper" root WorkspaceWrite in
  match op with
  | OpPreflight => apply_in_workspace disk ws patch true
  | OpApply => apply_in_workspace disk ws patch check_only
  end.

(** [invoke]. A helper that only checks writes nothing, wherever it is killed. *)
Definition invoke (disk : Disk) (op : HelperOp) (root patch : string) (check_only : bool)
    (run : HelperRun Disk) : Disk * res ApplyOutcome :=
  let left d := match op with OpPreflight => disk | OpApply => if check_only then disk else d end in
  let too_long (out err : Z) := bool_decide (HELPER_IO_LIMIT < out)%Z
                          || bool_decide (HELPER_IO_LIMIT < err)%Z in
  let limit := Err (error_body OutputLimit "patch helper output exceeded 1 MiB") in
  match run with
  | HelperMissing => (disk, Err (error_body InvalidPatch
      "CODESPACE_PATCH_BIN is unset and codespace-patch was not found next to codespace-mcp"))
  | SpawnFailed text =>
      (disk, Err (error_body InvalidPatch ("failed to spawn patch helper: " +:+ text)))
  | StdinFailed text d | WaitFailed text d => (left d, Err (error_body InvalidPatch text))
  | HelperTimedOut d => (left d, Err (error_body Timeout "patch helper timed out"))
  | HelperFailed out err stderr d =>
      (left d, if too_long out err then limit else Err (error_body InvalidPatch stderr))
  | HelperEnded out err =>
      let '(disk, answer) := helper_main disk op root patch check_only in
      (disk, if too_long out err then limit else answer)
  end.

(** * Verification ([patch_verify.rs]) *)

Fixpoint verify_changes (disk : Disk) (workspace : Workspace) (claimed : list FileChange)
    (before : gmap string string) : res (list FileChange) :=
  match claimed with
  | [] => Ok []
  | change :: claimed =>
      let path := fc_path change in
      actual ← version disk workspace path;
      _ ← match fc_kind change with
          | ChangeDelete =>
              if bool_decide (actual <> VERSION_ABSENT)
              then Err (error_body InvalidPatch
                     ("apply claimed delete of " +:+ path +:+ " but disk still has " +:+ actual))
              else Ok tt
          | _ =>
              match fc_after_version change with
              | None => Err (error_body InvalidPatch ("apply omitted after_version for " +:+ path))
              | Some claimed_after =>
                  if bool_decide (actual <> claimed_after)
                  then Err (error_body InvalidPatch
                         ("disk version " +:+ actual +:+ " != claimed " +:+ claimed_after +:+
                          " for " +:+ path))
                  else Ok tt
              end
          end;
      let present v := if bool_decide (v = VERSION_ABSENT) then None else Some v in
      changes ← verify_changes disk workspace claimed before;
      Ok (mkFileChange path (before !! path ≫= present) (present actual) (fc_kind change)
            :: changes)
  end.

Definition verify_disk_matches_claimed (disk : Disk) (workspace : Workspace)
    (claimed : list FileChange) (before : gmap string string) : res (list FileChange) :=
  match claimed with
  | [] => Err (error_body InvalidPatch "apply claimed no file changes")
  | _ => verify_changes disk workspace claimed before
  end.

Fixpoint overlay_before (disk : Disk) (workspace : Workspace) (changes : list FileChange)
    (before : gmap string string) : res (list FileChange * gmap string string) :=
  match changes with
  | [] => Ok ([], before)
  | change :: changes =>
      v ← version disk workspace (fc_path change);
      rest ← overlay_before disk workspace changes (<[fc_path change := v]> before);
      Ok (mkFileChange (fc_path change) (if bool_decide (v = VERSION_ABSENT) then None else Some v)
            (fc_after_version change) (fc_kind change) :: rest.1, rest.2)
  end.

(** * Rollback ([rollback.rs]) *)

Definition regular (meta : FileMeta) : bool := is_file meta && negb (is_symlink meta).

Definition snapshot_one (disk : Disk) (workspace : Workspace) (relative : string)
    : res FileSnapshot :=
  path ← resolve disk workspace relative;
  match metadata disk path with
  | Ok meta =>
      if regular meta then
        bytes ← map_err fs_error_body (read disk path);
        mode ← map_err fs_error_body (unix_mode disk path);
        Ok (mkFileSnapshot relative true (Some bytes) (Some mode))
      else Ok (mkFileSnapshot relative false None None)
  | Err FsNotFound => Ok (mkFileSnapshot relative false None None)
  | Err err => Err (fs_error_body err)
  end.

Fixpoint snapshot (disk : Disk) (workspace : Workspace) (relatives : list string)
    : res (list FileSnapshot) :=
  match relatives with
  | [] => Ok []
  | relative :: relatives =>
      snap ← snapshot_one disk workspace relative;
      snaps ← snapshot disk workspace relatives;
      Ok (snap :: snaps)
  end.

Definition fs_step (r : Disk * result FsError unit) : Disk * res unit :=
  let '(disk, r) := r in (disk, map_err fs_error_body r).

Definition restore_one (disk : Disk) (workspace : Workspace) (snap : FileSnapshot)
    : Disk * res unit :=
  with_disk (disk, resolve disk workspace (fs_relative snap)) (fun disk path =>
    if fs_existed snap then
      with_disk (match parent path with
                 | Some up => fs_step (create_dir_all disk up)
                 | None => (disk, Ok tt)
                 end)
        (fun disk _ => with_disk (fs_step (write disk path (default [] (fs_content snap))))
          (fun disk _ => match fs_mode snap with
                         | Some mode => fs_step (set_unix_mode disk path mode)
                         | None => (disk, Ok tt)
                         end))
    else
      match metadata disk path with
      | Ok meta => if regular meta then fs_step (remove_file disk path) else (disk, Ok tt)
      | Err FsNotFound => (disk, Ok tt)
      | Err err => (disk, Err (fs_error_body err))
      end).

Fixpoint restore (disk : Disk) (workspace : Workspace) (snaps : list FileSnapshot)
    : Disk * bool :=
  match snaps with
  | [] => (disk, true)
  | snap :: snaps =>
      let '(disk, r) := restore_one disk workspace snap in
      let '(disk, complete) := restore disk workspace snaps in
      (disk, is_ok r && complete)
  end.

(** * One patch ([apply.rs]) *)

Fixpoint check_versions (disk : Disk) (workspace : Workspace) (expected : list (string * string))
    : res unit :=
  match expected with
  | [] => Ok tt
  | (path, expected_version) :: expected =>
      actual ← version disk workspace path;
      if bool_decide (actual = expected_version) then check_versions disk workspace expected
      else Err (error_body VersionConflict ("version conflict for " +:+ path))
  end.

(** Everything up to the helper that applies: what it planned, the versions before, and the
    snapshots. [run] is its preflight. *)
Definition prepare_patch (disk : Disk) (workspace : Workspace) (req : RunnerApplyPatchRequest)
    (run : HelperRun Disk)
    : Disk * res (ApplyOutcome * list FileChange * gmap string string * list FileSnapshot) :=
  with_disk (disk, _ ← ws_require_file_write workspace;
                   check_versions disk workspace (btree_iter (aq_expected_versions req)))
    (fun disk _ =>
       with_disk (invoke disk OpPreflight (ws_root workspace) (aq_patch req) true run)
         (fun disk planned =>
            (disk, overlaid ← overlay_before disk workspace (ao_changes planned) ∅;
                   snaps ← (if aq_check_only req then Ok []
                            else snapshot disk workspace (ao_files planned));
                   Ok (planned, overlaid.1, overlaid.2, snaps)))).

(** [apply_patch_txn]; [runs] are the helper's two runs. *)
Definition apply_patch_txn (disk : Disk) (workspace : Workspace) (req : RunnerApplyPatchRequest)
    (runs : HelperRun Disk * HelperRun Disk) : Disk * res RunnerApplyPatchResult :=
  with_disk (prepare_patch disk workspace req runs.1)
    (fun disk '(planned, overlaid, before, snaps) =>
       if aq_check_only req
       then (disk, Ok (mkRunnerApplyPatchResult Checked (ao_files planned) overlaid))
       else
         match invoke disk OpApply (ws_root workspace) (aq_patch req) false runs.2 with
         | (disk, Ok applied) =>
             (disk, changes ← verify_disk_matches_claimed disk workspace (ao_changes applied) before;
                    Ok (mkRunnerApplyPatchResult Applied (ao_files applied) changes))
         | (disk, Err _) =>
             let '(disk, complete) := restore disk workspace snaps in
             (disk, Ok (mkRunnerApplyPatchResult
                          (if complete then FailedRolledBack else FailedPartial)
                          (ao_files planned) (ao_changes planned)))
         end).

(** [read_file], [find_files] and [file_version] of the Runner. *)
Definition runner_read_file (disk : Disk) (ws : Workspace) (path : string)
    (offset limit : option Z) : res ReadResult :=
  _ ← ws_require_file_read ws; read_file_window disk ws path offset limit.
Definition runner_find_files (disk : Disk) (ws : Workspace) (glob : option string)
    (offset limit : option Z) : res FindResult :=
  _ ← ws_require_file_read ws; find_window disk ws glob offset limit.
Definition runner_file_version (disk : Disk) (ws : Workspace) (path : string) : res string :=
  _ ← ws_require_file_read ws; version disk ws path.

End disk_state.

(** A path names a directory, and [root] is its canonical path. *)
Definition root_at {FS : FileSystem} (d : Disk) (s root : string) : Prop :=
  fs_canonicalize d s = Ok root /\ fs_symlink_metadata d (components root) = Some KDir.

(** * What a disk's files are

    The documented behaviour of the calls that a patch makes, as a view of the regular files:
    a successful write gives the file its content, a removal removes it, a change of mode
    sets a mode that a regular file can have, and nothing reaches another path. *)
Class PosixFiles (FS : FileSystem) := {
  file_at : Disk -> Path -> option (list ascii * Z);
  px_metadata d p m : local_metadata d p = Ok m -> regular m = true <-> is_Some (file_at d p);
  px_missing d p e :
    local_metadata d p = Err e -> io_kind e = IoNotFound \/ io_errno e = Some ENOENT ->
    file_at d p = None;
  px_read d p bytes content mode :
    local_read_file d p = Ok bytes -> file_at d p = Some (content, mode) -> content = bytes;
  px_statat d p k m content mode :
    sys_statat d p = Ok (k, m) -> file_at d p = Some (content, mode) -> mode = m;
  px_write d p bytes d' :
    local_write_file d p bytes = (d', Ok tt) -> exists mode, file_at d' p = Some (bytes, mode);
  px_write_other d p bytes q :
    q <> p -> file_at (local_write_file d p bytes).1 q = file_at d q;
  px_create d p q : file_at (local_create_directory d p).1 q = file_at d q;
  px_remove d p d' : local_remove d p = (d', Ok tt) -> file_at d' p = None;
  px_remove_other d p q : q <> p -> file_at (local_remove d p).1 q = file_at d q;
  px_chmod d p mode d' content old d0 q content0 :
    sys_fchmod d p mode = (d', Ok tt) -> file_at d p = Some (content, old) ->
    file_at d0 q = Some (content0, mode) -> file_at d' p = Some (content, mode);
  px_chmod_other d p mode q : q <> p -> file_at (sys_fchmod d p mode).1 q = file_at d q;
  (** The canonical path of a directory stays what it is when a file is written, has its mode set
      or is removed, and when directories are created. *)
  px_root_write d p bytes s root :
    root_at d s root -> root_at (local_write_file d p bytes).1 s root;
  px_root_create d p s root : root_at d s root -> root_at (local_create_directory d p).1 s root;
  px_root_remove d p s root :
    root_at d s root -> is_Some (file_at d p) -> root_at (local_remove d p).1 s root;
  px_root_chmod d p mode s root :
    root_at d s root -> is_Some (file_at d p) -> root_at (sys_fchmod d p mode).1 s root
}.

Section files_of_a_disk.
Context `{FS : FileSystem} {Px : PosixFiles FS} {Sha : Sha256}.

Lemma classify_from_cases disk directory names e :
  classify_from disk directory names = Some e -> e = FsSymlinkRejected \/ e = FsNotDirectory.
Proof.
  revert directory. induction names as [|name names IH]; intros directory; cbn; [done|].
  destruct (sys_statat _ _) as [[[] m]|]; [by intros [= <-]; right| |by intros [= <-]; left
    |by intros [= <-]; right|done].
  destruct names; [done|]. destruct (sys_open_directory _ _); [apply IH|done].
Qed.

Lemma map_io_not_found disk path e :
  map_io disk path e = FsNotFound -> io_kind e = IoNotFound \/ io_errno e = Some ENOENT.
Proof.
  unfold map_io, is_errno.
  destruct (bool_decide_reflect (io_kind e = IoNotFound)); [by left|].
  destruct (bool_decide_reflect (io_errno e = Some ENOENT)); [by right|]. cbn.
  destruct (contains _ _); [done|]. destruct (_ || _); [|done].
  destruct (classify_after_failed_io disk path) as [c|] eqn:E; [|by destruct (looks_like_symlink_denied _ _)].
  unfold classify_after_failed_io in E. destruct (unix_components path); [|done].
  by apply classify_from_cases in E as [-> | ->].
Qed.

Lemma metadata_file disk path meta :
  metadata disk path = Ok meta -> regular meta = true <-> is_Some (file_at disk path).
Proof.
  unfold metadata. destruct (uri path); [|done]. cbn.
  destruct (local_metadata disk path) eqn:E; [|done]. intros [= <-]. by apply px_metadata.
Qed.

Lemma metadata_missing disk path : metadata disk path = Err FsNotFound -> file_at disk path = None.
Proof.
  unfold metadata, uri. destruct (path_uri path); [|done]. cbn.
  destruct (local_metadata disk path) eqn:E; [done|]. intros [= H].
  eapply px_missing; [done|]. by eapply map_io_not_found.
Qed.

Lemma read_file_at disk path bytes content mode :
  read disk path = Ok bytes -> file_at disk path = Some (content, mode) -> content = bytes.
Proof.
  unfold read. destruct (uri path); [|done]. cbn.
  destruct (local_read_file disk path) eqn:E; [|done]. intros [= <-]. by apply px_read.
Qed.

Lemma no_follow_mode_at disk path m content mode :
  no_follow_mode disk path = Ok m -> file_at disk path = Some (content, mode) -> mode = m.
Proof.
  unfold no_follow_mode. destruct (open_parent disk path); [|done]. cbn.
  destruct (sys_statat disk path) as [[k m']|] eqn:E; [|done]. cbn.
  case_bool_decide; [done|]. intros [= <-]. by eapply px_statat.
Qed.

(** ** What a snapshot holds *)

(** A snapshot of the file, or of its absence, at [path]. *)
Definition snapped (file : option (list ascii * Z)) (snap : FileSnapshot) : Prop :=
  match file with
  | Some (content, mode) =>
      fs_existed snap = true /\ fs_content snap = Some content /\ fs_mode snap = Some mode
  | None => fs_existed snap = false
  end.

Lemma snapshot_one_ok disk ws relative snap :
  snapshot_one disk ws relative = Ok snap ->
  exists path, resolve disk ws relative = Ok path /\ fs_relative snap = relative /\
    snapped (file_at disk path) snap.
Proof.
  unfold snapshot_one. destruct (resolve disk ws relative) as [path|] eqn:Hp; [|done]. cbn.
  intros H. exists path. split; [done|]. destruct (metadata disk path) as [meta|e] eqn:Hm.
  - pose proof (metadata_file _ _ _ Hm) as Hreg. destruct (regular meta).
    + destruct (proj1 Hreg eq_refl) as [[content mode] Hf]. rewrite Hf.
      destruct (read disk path) eqn:Hr; [|done]. cbn in H. unfold unix_mode in H.
      destruct (no_follow_mode disk path) eqn:Hn; [|done]. cbn in H. simplify_eq.
      pose proof (read_file_at _ _ _ _ _ Hr Hf) as ->.
      by pose proof (no_follow_mode_at _ _ _ _ _ Hn Hf) as ->.
    + simplify_eq. split; [done|]. destruct (file_at disk path) as [[]|] eqn:Hf; [|done].
      assert (false = true) by (apply Hreg; by eexists). done.
  - destruct e; try done. simplify_eq. split; [done|]. by rewrite (metadata_missing _ _ Hm).
Qed.

Lemma snapshot_ok disk ws relatives snaps :
  snapshot disk ws relatives = Ok snaps ->
  Forall2 (fun relative snap => exists path, resolve disk ws relative = Ok path /\
    fs_relative snap = relative /\ snapped (file_at disk path) snap) relatives snaps.
Proof.
  revert snaps. induction relatives as [|relative relatives IH]; intros snaps; cbn;
    [by intros [= <-]|].
  destruct (snapshot_one disk ws relative) as [snap|] eqn:E; [|done]. cbn.
  destruct (snapshot disk ws relatives) as [more|]; [|done]. cbn. intros [= <-].
  constructor; [by apply snapshot_one_ok|by apply IH].
Qed.

(** ** What a restoration gives back *)

Lemma with_disk_Ok {A B} (r : Disk * res A) (f : Disk -> A -> Disk * res B) disk b :
  with_disk r f = (disk, Ok b) -> exists disk0 a, r = (disk0, Ok a) /\ f disk0 a = (disk, Ok b).
Proof. destruct r as [d [a|e]]; cbn; [eauto|by intros [=]]. Qed.

Lemma fs_step_Ok r disk : fs_step r = (disk, Ok tt) -> r = (disk, Ok tt).
Proof. destruct r as [d [[]|e]]; by intros [= ->]. Qed.

Lemma changed_Ok path disk change disk' :
  changed path disk change = (disk', Ok tt) -> change = (disk', Ok tt).
Proof.
  unfold changed. destruct (uri path); [|by intros [=]].
  destruct change as [d [[]|e]]; by intros [= ->].
Qed.

Lemma set_mode_Ok disk path mode disk' :
  set_unix_mode disk path mode = (disk', Ok tt) -> sys_fchmod disk path mode = (disk', Ok tt).
Proof.
  unfold set_unix_mode. destruct (no_follow_mode disk path); [|by intros [=]].
  destruct (sys_fchmod disk path mode) as [d [[]|e]]; by intros [= ->].
Qed.

Lemma restore_one_ok disk ws snap disk' path d0 p0 :
  restore_one disk ws snap = (disk', Ok tt) -> resolve disk ws (fs_relative snap) = Ok path ->
  snapped (file_at d0 p0) snap ->
  file_at disk' path = file_at d0 p0 /\ forall q, q <> path -> file_at disk' q = file_at disk q.
Proof.
  intros Hr Hp Hs. unfold restore_one in Hr. rewrite Hp in Hr. cbn [with_disk] in Hr.
  unfold snapped in Hs. destruct (file_at d0 p0) as [[content mode]|] eqn:H0.
  - destruct Hs as (He & Hc & Hm). rewrite He, Hc, Hm in Hr.
    change (default [] (Some content)) with content in Hr.
    apply with_disk_Ok in Hr as (d1 & [] & H1 & Hr).
    assert (F1 : forall q, file_at d1 q = file_at disk q).
    { intros q. destruct (parent path); [|by simplify_eq].
      apply fs_step_Ok, changed_Ok in H1. pose proof (px_create disk l q) as F.
      by rewrite H1 in F. }
    apply with_disk_Ok in Hr as (d2 & [] & H2 & Hr).
    apply fs_step_Ok, changed_Ok in H2. apply fs_step_Ok, set_mode_Ok in Hr.
    destruct (px_write _ _ _ _ H2) as [m F2]. split; [by eapply px_chmod|].
    intros q Hq. pose proof (px_chmod_other d2 path mode q Hq) as F3. rewrite Hr in F3.
    pose proof (px_write_other d1 path content q Hq) as F4. rewrite H2 in F4. cbn in F3, F4.
    by rewrite F3, F4, F1.
  - rewrite Hs in Hr. destruct (metadata disk path) as [meta|e] eqn:Hm.
    + pose proof (metadata_file _ _ _ Hm) as Hreg. destruct (regular meta).
      * apply fs_step_Ok, changed_Ok in Hr. split; [by eapply px_remove|].
        intros q Hq. pose proof (px_remove_other disk path q Hq) as F. by rewrite Hr in F.
      * simplify_eq. split; [|done]. destruct (file_at disk' path) eqn:Hf; [|done].
        assert (false = true) by (apply Hreg; by eexists). done.
    + destruct e; try by simplify_eq. simplify_eq. split; [by apply metadata_missing|done].
Qed.

Lemma resolve_lexical disk ws relative path :
  resolve disk ws relative = Ok path -> resolve_path (canonicalized disk) ws relative = Ok path.
Proof.
  unfold resolve. destruct (resolve_path (canonicalized disk) ws relative) as [p|]; [|done].
  cbn [mbind result_bind]. destruct (reject_symlink_ancestors disk ws p); [|done].
  cbn [mbind result_bind]. by destruct (fs_symlink_metadata disk p) as [[]|]; intros [= ->].
Qed.

Lemma resolve_same d d' ws root relative path path' :
  root_at d (ws_root ws) root -> root_at d' (ws_root ws) root ->
  resolve d ws relative = Ok path -> resolve d' ws relative = Ok path' -> path = path'.
Proof.
  intros [Hc _] [Hc' _] H%resolve_lexical H'%resolve_lexical. rewrite resolve_path_eq in H, H'.
  unfold canonical_root, canonicalized in H, H'. rewrite Hc in H. rewrite Hc' in H'. congruence.
Qed.

(** Restoring a file leaves the root where it is. *)
Lemma restore_one_root disk ws snap disk' root :
  restore_one disk ws snap = (disk', Ok tt) ->
  root_at disk (ws_root ws) root -> root_at disk' (ws_root ws) root.
Proof.
  intros H Hroot. unfold restore_one in H. apply with_disk_Ok in H as (d & p & [= -> Hp] & Hr).
  destruct (fs_existed snap).
  - apply with_disk_Ok in Hr as (d1 & [] & H1 & Hr). apply with_disk_Ok in Hr as (d2 & [] & H2 & Hr).
    assert (R1 : root_at d1 (ws_root ws) root).
    { destruct (parent p) as [up|]; [|by simplify_eq].
      apply fs_step_Ok, changed_Ok in H1. pose proof (px_root_create d up _ _ Hroot) as F.
      by rewrite H1 in F. }
    apply fs_step_Ok, changed_Ok in H2.
    pose proof (px_root_write d1 p (default [] (fs_content snap)) _ _ R1) as R2. rewrite H2 in R2.
    destruct (px_write _ _ _ _ H2) as [m Hf].
    destruct (fs_mode snap) as [mode|]; [|by simplify_eq].
    apply fs_step_Ok, set_mode_Ok in Hr.
    pose proof (px_root_chmod d2 p mode _ _ R2 (mk_is_Some _ _ Hf)) as F. by rewrite Hr in F.
  - destruct (metadata d p) as [meta|e] eqn:Em; [|destruct e; by simplify_eq].
    destruct (regular meta) eqn:Ereg; [|by simplify_eq].
    apply fs_step_Ok, changed_Ok in Hr.
    pose proof (px_root_remove d p _ _ Hroot (proj1 (metadata_file _ _ _ Em) Ereg)) as F.
    by rewrite Hr in F.
Qed.

Lemma restore_ok d0 ws root snaps disk disk' :
  root_at d0 (ws_root ws) root -> root_at disk (ws_root ws) root ->
  Forall (fun snap => exists path, resolve d0 ws (fs_relative snap) = Ok path /\
    snapped (file_at d0 path) snap) snaps ->
  restore disk ws snaps = (disk', true) ->
  forall path, file_at disk path = file_at d0 path \/
    Exists (fun snap => resolve d0 ws (fs_relative snap) = Ok path) snaps ->
    file_at disk' path = file_at d0 path.
Proof.
  intros H0 Hroot Hs. revert disk Hroot. induction Hs as [|snap snaps (p0 & Hp0 & Hsn) Hs IH];
    intros disk Hroot Hr path Hpath; cbn [restore] in Hr.
  { simplify_eq. destruct Hpath as [?|H]; [done|]. by apply Exists_nil in H. }
  destruct (restore_one disk ws snap) as [d1 r] eqn:E1.
  destruct (restore d1 ws snaps) as [d2 complete] eqn:E2.
  injection Hr as <- Hc. apply andb_true_iff in Hc as [Hok ->]. destruct r as [[]|]; [|done].
  pose proof (restore_one_root _ _ _ _ _ E1 Hroot) as Hkept.
  pose proof E1 as E. unfold restore_one in E. apply with_disk_Ok in E as (d & p & [= -> Hp] & _).
  pose proof (resolve_same _ _ _ _ _ _ _ H0 Hroot Hp0 Hp) as ->.
  destruct (restore_one_ok _ _ _ _ _ _ _ E1 Hp Hsn) as [Hat Hframe].
  apply (IH d1 Hkept E2).
  destruct (decide (path = p)) as [->|Hne]; [by left|].
  destruct Hpath as [Hpath|Hpath]; [left; by rewrite Hframe|].
  apply Exists_cons in Hpath as [Hpath|Hpath]; [|by right].
  rewrite Hp0 in Hpath. congruence.
Qed.
End files_of_a_disk.

(** * What a patch does *)

Section patching.
Context `{FS : FileSystem} {Px : PosixFiles FS} {Sha : Sha256} {Cx : Codex}.

Lemma check_only_leaves_disk disk ws patch : (apply_in_workspace disk ws patch true).1 = disk.
Proof. unfold apply_in_workspace. by destruct (_ ≫= _) as [[[files root] planned]|]. Qed.

Lemma preflight_leaves_disk disk root patch run :
  (invoke disk OpPreflight root patch true run).1 = disk.
Proof.
  destruct run; try done. cbn [invoke helper_main].
  pose proof (check_only_leaves_disk disk (workspace_new "helper" root WorkspaceWrite) patch) as H.
  by destruct (apply_in_workspace _ _ _ _).
Qed.

Lemma prepare_leaves_disk disk ws req run : (prepare_patch disk ws req run).1 = disk.
Proof.
  unfold prepare_patch. destruct (_ ≫= _); [|done]. cbn [with_disk].
  pose proof (preflight_leaves_disk disk (ws_root ws) (aq_patch req) run) as H.
  destruct (invoke _ _ _ _ _ _) as [d [planned|e]]; [|done]. cbn in H. by subst.
Qed.

(** An answer is what a helper that came to its end said. *)
Lemma invoke_Ok disk op root patch check_only run disk' outcome :
  invoke disk op root patch check_only run = (disk', Ok outcome) ->
  helper_main disk op root patch check_only = (disk', Ok outcome).
Proof.
  destruct run; try by intros [=].
  - cbn [invoke]. by destruct (_ || _).
  - cbn [invoke]. destruct (helper_main _ _ _ _ _) as [d r]. by destruct (_ || _); intros [=]; subst.
Qed.

Lemma prepare_Ok disk ws req run disk' planned overlaid before snaps :
  prepare_patch disk ws req run = (disk', Ok (planned, overlaid, before, snaps)) ->
  disk' = disk /\
  helper_main disk OpPreflight (ws_root ws) (aq_patch req) true = (disk, Ok planned) /\
  overlay_before disk ws (ao_changes planned) ∅ = Ok (overlaid, before) /\
  (if aq_check_only req then snaps = [] else snapshot disk ws (ao_files planned) = Ok snaps).
Proof.
  intros H. pose proof (prepare_leaves_disk disk ws req run) as Hd. rewrite H in Hd. cbn in Hd.
  subst disk'. split; [done|]. unfold prepare_patch in H. destruct (_ ≫= _); [|done].
  cbn [with_disk] in H.
  pose proof (preflight_leaves_disk disk (ws_root ws) (aq_patch req) run) as Hd.
  destruct (invoke _ _ _ _ _ _) as [d [p|e]] eqn:E; [|done]. cbn in Hd. subst d.
  apply invoke_Ok in E. cbn [with_disk] in H.
  destruct (overlay_before disk ws (ao_changes p) ∅) as [[o b]|] eqn:Eo; [|done].
  cbn [mbind result_bind fst snd] in H. destruct (aq_check_only req).
  - cbn in H. injection H as <- <- <- <-. done.
  - destruct (snapshot disk ws (ao_files p)) as [s|] eqn:Es; [|done]. cbn in H.
    injection H as <- <- <- <-. done.
Qed.

Lemma planned_paths disk planned hash_after changes :
  planned_to_changes disk planned hash_after = Ok changes ->
  fc_path <$> changes = pf_relative <$> planned.
Proof.
  revert changes. induction planned as [|file planned IH]; intros changes; [by intros [= <-]|].
  cbn [planned_to_changes].
  match goal with |- context [mbind _ (if ?b then ?x else ?y)] =>
    destruct (if b then x else y) as [after|]; [|done] end. cbn [mbind result_bind].
  destruct (planned_to_changes disk planned hash_after) as [more|]; [|done]. cbn. intros [= <-].
  cbn. f_equal. by apply IH.
Qed.

(** Both runs of the helper plan the same changes. *)
Lemma same_plan disk ws patch d planned applied :
  apply_in_workspace disk ws patch true = (disk, Ok planned) ->
  apply_in_workspace disk ws patch false = (d, Ok applied) ->
  fc_path <$> ao_changes applied = fc_path <$> ao_changes planned.
Proof.
  unfold apply_in_workspace. destruct (_ ≫= _) as [[[files root] plan]|]; [|done].
  cbn [with_disk]. intros H1 H2.
  destruct (planned_to_changes disk plan false) as [c1|] eqn:E1; [|done]. cbn in H1.
  destruct (map_err _ (path_uri root)); [|done]. cbn [with_disk] in H2.
  destruct (apply_patch_with_options disk patch root) as [d' [[]|err]]; [|done].
  destruct (planned_to_changes d' plan true) as [c2|] eqn:E2; [|done]. cbn in H2. simplify_eq.
  cbn. by rewrite (planned_paths _ _ _ _ E1), (planned_paths _ _ _ _ E2).
Qed.

Lemma overlay_versions disk ws changes acc out before :
  overlay_before disk ws changes acc = Ok (out, before) ->
  (forall path v, acc !! path = Some v -> version disk ws path = Ok v) ->
  (forall path v, before !! path = Some v -> version disk ws path = Ok v) /\
  forall path, path ∈ fc_path <$> changes \/ is_Some (acc !! path) -> is_Some (before !! path).
Proof.
  revert acc out. induction changes as [|change changes IH]; intros acc out; cbn.
  { intros [= _ <-] Hacc. split; [done|]. intros path [?%elem_of_nil|?]; done. }
  destruct (version disk ws (fc_path change)) as [v|] eqn:Ev; [|done]. cbn.
  destruct (overlay_before disk ws changes _) as [[more b]|] eqn:E; [|done]. cbn.
  intros [= _ <-] Hacc. destruct (IH _ _ E) as [H1 H2].
  { intros path v'. intros [[<- <-]|[_ ?]]%lookup_insert_Some; auto. }
  split; [done|]. intros path Hp. apply H2. rewrite elem_of_cons in Hp.
  destruct (decide (path = fc_path change)) as [->|Hne]; [right; by rewrite lookup_insert_eq|].
  rewrite lookup_insert_ne by done. naive_solver.
Qed.

Definition present (v : string) : option string :=
  if bool_decide (v = VERSION_ABSENT) then None else Some v.

Lemma verify_changes_ok disk ws claimed before changes :
  verify_changes disk ws claimed before = Ok changes ->
  Forall2 (fun claim change => fc_path change = fc_path claim /\ fc_kind change = fc_kind claim /\
    fc_before_version change = before !! fc_path claim ≫= present /\
    exists v, version disk ws (fc_path change) = Ok v /\ fc_after_version change = present v /\
      (if bool_decide (fc_kind change = ChangeDelete) then v = VERSION_ABSENT
       else fc_after_version claim = Some v)) claimed changes.
Proof.
  revert changes. induction claimed as [|claim claimed IH]; intros changes; cbn; [by intros [= <-]|].
  destruct (version disk ws (fc_path claim)) as [v|] eqn:Ev; [|done]. cbn.
  intros H. 
  match type of H with context [mbind _ (match fc_kind claim with
      ChangeAdd => ?a | ChangeUpdate => ?b | ChangeDelete => ?c | ChangeMove => ?m end)] =>
    destruct (match fc_kind claim with ChangeAdd => a | ChangeUpdate => b
              | ChangeDelete => c | ChangeMove => m end) as [[]|] eqn:Ek; [|done] end.
  cbn in H. destruct (verify_changes disk ws claimed before) as [more|]; [|done].
  cbn in H. injection H as <-. constructor; [|by apply IH]. cbn.
  split; [done|]. split; [done|]. split; [done|]. exists v. split; [done|]. split; [done|].
  destruct (fc_kind claim); cbn [fc_kind fc_path] in *.
  3: { rewrite bool_decide_eq_true_2 by done.
       destruct (bool_decide_reflect (v <> VERSION_ABSENT)) as [?|Hd]; [done|].
       by apply dec_stable in Hd. }
  all: rewrite bool_decide_eq_false_2 by done;
    destruct (fc_after_version claim) as [a|]; [|done];
    destruct (bool_decide_reflect (v <> a)) as [?|Hd]; [done|]; by apply dec_stable in Hd as ->.
Qed.

(** Only the helper's second run, and what follows it, change the disk. *)
Lemma apply_patch_txn_cases disk ws req runs disk' result :
  apply_patch_txn disk ws req runs = (disk', result) ->
  (disk' = disk /\ match result with Ok r => as_status r = Checked | Err _ => True end /\
     (is_ok result = true -> aq_check_only req = true)) \/
  exists planned overlaid before snaps d1 ran,
    prepare_patch disk ws req runs.1 = (disk, Ok (planned, overlaid, before, snaps)) /\
    aq_check_only req = false /\
    invoke disk OpApply (ws_root ws) (aq_patch req) false runs.2 = (d1, ran) /\
    match ran with
    | Ok applied =>
        disk' = d1 /\
        match verify_disk_matches_claimed d1 ws (ao_changes applied) before with
        | Ok changes => result = Ok (mkRunnerApplyPatchResult Applied (ao_files applied) changes)
        | Err e => result = Err e
        end
    | Err _ =>
        exists complete, restore d1 ws snaps = (disk', complete) /\
          result = Ok (mkRunnerApplyPatchResult
            (if complete then FailedRolledBack else FailedPartial)
            (ao_files planned) (ao_changes planned))
    end.
Proof.
  intros H. unfold apply_patch_txn in H.
  pose proof (prepare_leaves_disk disk ws req runs.1) as Hd.
  destruct (prepare_patch disk ws req runs.1) as [d [[[[planned overlaid] before] snaps]|e]];
    cbn in Hd; subst d; cbn [with_disk] in H; [|by left; simplify_eq].
  destruct (aq_check_only req); [by left; simplify_eq|]. right.
  destruct (invoke disk OpApply _ _ _ _) as [d1 ran] eqn:Ei.
  exists planned, overlaid, before, snaps, d1, ran. do 3 (split; [done|]).
  destruct ran as [applied|e].
  - destruct (verify_disk_matches_claimed _ _ _ _); cbn in H; by simplify_eq.
  - destruct (restore d1 ws snaps) as [d2 complete]. exists complete. by simplify_eq.
Qed.

(** C36: A patch that is answered as failed and rolled back has left every file of its plan as it
    was: wherever the helper stopped, each path that the answer lists holds the same regular
    file, content and mode, as before the patch, or again none. That is said of a workspace whose
    root is a directory, and of a helper whose run left it one, of the same canonical path. *)
Theorem rolled_back_patch_restores_its_files disk ws req runs disk' r relative root :
  root_at disk (ws_root ws) root ->
  root_at (invoke disk OpApply (ws_root ws) (aq_patch req) false runs.2).1 (ws_root ws) root ->
  apply_patch_txn disk ws req runs = (disk', Ok r) -> as_status r = FailedRolledBack ->
  relative ∈ as_files r ->
  exists path, resolve disk ws relative = Ok path /\ file_at disk' path = file_at disk path.
Proof.
  intros H0 Hroot H Hst Hrel.
  apply apply_patch_txn_cases in H as [(_ & Hc & _)|(planned & overlaid & before & snaps & d1 & ran
    & Hp & Hcheck & Hi & H)]; [congruence|].
  apply prepare_Ok in Hp as (_ & _ & _ & Hsnap). rewrite Hcheck in Hsnap.
  destruct ran as [applied|e].
  { destruct H as [_ H]. destruct (verify_disk_matches_claimed _ _ _ _); by simplify_eq. }
  destruct H as ([] & Hre & [= ->]); cbn in Hst, Hrel; [|done].
  apply snapshot_ok in Hsnap. apply list_elem_of_lookup in Hrel as [i Hi'].
  destruct (Forall2_lookup_l _ _ _ _ _ Hsnap Hi') as (snap & Hs & path & Hpath & Hn & Hsn).
  exists path. split; [done|]. rewrite Hi in Hroot. apply (restore_ok disk ws root snaps d1 disk' H0 Hroot); [|done|].
  - eapply Forall2_Forall_r; [exact Hsnap|]. apply Forall_true. intros rel s (p & ? & <- & ?). eauto.
  - right. apply Exists_exists. exists snap. split; [by eapply list_elem_of_lookup_2|]. by rewrite Hn.
Qed.

(** C37: A patch that is answered as applied is what the disk holds: it reports at least one change,
    and of each reported change the version after is that of the file that is there now, or none
    where there is none, as after every deletion, and the version before is the one from before
    the patch. (An update that writes what the file already held is reported too, with two equal
    versions: see an_update_may_leave_its_file_as_it_was.) *)
Theorem applied_patch_states_the_disk disk ws req runs disk' r :
  apply_patch_txn disk ws req runs = (disk', Ok r) -> as_status r = Applied ->
  as_changes r <> [] /\
  Forall (fun change => exists old new,
    version disk ws (fc_path change) = Ok old /\ version disk' ws (fc_path change) = Ok new /\
    fc_before_version change = present old /\ fc_after_version change = present new /\
    (fc_kind change = ChangeDelete -> new = VERSION_ABSENT)) (as_changes r).
Proof.
  intros H Hst.
  apply apply_patch_txn_cases in H as [(_ & Hc & _)|(planned & overlaid & before & snaps & d1 & ran
    & Hp & Hcheck & Hi & H)]; [congruence|].
  apply prepare_Ok in Hp as (_ & Hpre & Hov & _).
  destruct ran as [applied|e]; [|by destruct H as ([] & _ & [= ->])].
  destruct H as [-> H]. destruct (verify_disk_matches_claimed _ _ _ _) as [changes|] eqn:Hv; [|done].
  injection H as ->. cbn. unfold verify_disk_matches_claimed in Hv.
  destruct (ao_changes applied) as [|c cs] eqn:Ea; [done|]. rewrite <- Ea in Hv.
  apply verify_changes_ok in Hv. split.
  { rewrite Ea in Hv. by inversion Hv. }
  apply invoke_Ok in Hi. pose proof (same_plan _ _ _ _ _ _ Hpre Hi) as Hsame.
  destruct (overlay_versions _ _ _ _ _ _ Hov) as [Hb Hdom]; [done|].
  apply Forall_forall. intros change Hin. apply list_elem_of_lookup in Hin as [i Hic].
  destruct (Forall2_lookup_r _ _ _ _ _ Hv Hic) as (claim & Hcl & Hpath & Hkind & Hbef & new & Hnew
    & Haft & Hk).
  destruct (Hdom (fc_path change)) as [old Hold].
  { left. rewrite <- Hsame, Hpath. apply list_elem_of_fmap_2. by eapply list_elem_of_lookup_2. }
  exists old, new. split; [by apply Hb|]. split; [done|]. split.
  { by rewrite Hbef, <- Hpath, Hold. }
  split; [done|]. intros Hdel. rewrite bool_decide_eq_true_2 in Hk by done. done.
Qed.

(** A patch changes the disk only by the helper that applies it: one that is refused because
    the workspace is read-only, an expected version differs, or its preflight or a snapshot
    fails, and one that is only checked, leave the disk as it is. An error after that is
    one of the verification: the patch was applied then, and stays. *)
Theorem refused_patch_changes_nothing disk ws req runs disk' result :
  apply_patch_txn disk ws req runs = (disk', result) ->
  match result with
  | Ok r =>
      (aq_check_only req = true <-> as_status r = Checked) /\
      (aq_check_only req = true -> disk' = disk) /\
      (aq_check_only req = false ->
         as_status r ∈ [Applied; FailedRolledBack; FailedPartial])
  | Err e =>
      disk' = disk \/
      exists applied before,
        helper_main disk OpApply (ws_root ws) (aq_patch req) false = (disk', Ok applied) /\
        verify_disk_matches_claimed disk' ws (ao_changes applied) before = Err e
  end.
Proof.
  intros H. apply apply_patch_txn_cases in H as [(-> & Hst & Hc)|(planned & overlaid & before &
    snaps & d1 & ran & Hp & Hcheck & Hi & H)].
  { destruct result as [r|e]; [|by left]. specialize (Hc eq_refl). rewrite Hc, Hst.
    split; [done|]. by split. }
  destruct ran as [applied|e].
  - destruct H as [-> H]. apply invoke_Ok in Hi.
    destruct (verify_disk_matches_claimed _ _ _ _) as [changes|e] eqn:Hv; subst result.
    + rewrite Hcheck. cbn. split; [by split|]. split; [done|]. intros _. by left.
    + right. by exists applied, before.
  - destruct H as (complete & _ & ->). rewrite Hcheck. cbn. destruct complete;
      (split; [by split|]; split; [done|]; intros _); set_solver.
Qed.

(** What a stale expected version is answered with. *)
Lemma stale_version_conflicts disk ws req runs path expected actual :
  ws_require_file_write ws = Ok tt -> aq_expected_versions req !! path = Some expected ->
  (forall p v, aq_expected_versions req !! p = Some v -> is_ok (version disk ws p) = true) ->
  version disk ws path = Ok actual -> actual <> expected ->
  exists e, apply_patch_txn disk ws req runs = (disk, Err e) /\ code e = VersionConflict.
Proof.
  intros Hw He Hall Hv Hne.
  assert (exists e, check_versions disk ws (btree_iter (aq_expected_versions req)) = Err e /\
            code e = VersionConflict) as (e & Hc & Hcode).
  { assert (Hin : (path, expected) ∈ btree_iter (aq_expected_versions req))
      by (by apply btree_iter_elem).
    assert (Hok : Forall (fun kv => is_ok (version disk ws kv.1) = true)
                    (btree_iter (aq_expected_versions req))).
    { apply Forall_forall. intros [p v] Hp%btree_iter_elem. by apply (Hall p v). }
    induction Hok as [|[p v] l Hp Hok IH]; [by apply elem_of_nil in Hin|].
    cbn [check_versions]. cbn in Hp. destruct (version disk ws p) as [a|] eqn:Ep; [|done].
    cbn [mbind result_bind]. case_bool_decide as Ha; [|by eexists].
    apply elem_of_cons in Hin as [[= <- <-]|Hin]; [congruence|by apply IH]. }
  exists e. split; [|done]. unfold apply_patch_txn, prepare_patch. rewrite Hw.
  cbn [mbind result_bind]. by rewrite Hc.
Qed.
End patching.

(** * On a concrete disk *)

Definition map_file_at (d : gmap Path Node) (p : Path) : option (list ascii * Z) :=
  match d !! p with Some (NFile b m) => Some (b, m) | _ => None end.

Lemma map_file_at_other d p n q : q <> p -> map_file_at (<[p := n]> d) q = map_file_at d q.
Proof. intros H. unfold map_file_at. by rewrite lookup_insert_ne. Qed.

Lemma map_mkdir_keeps d p q n : d !! q = Some n -> (map_mkdir d p).1 !! q = Some n.
Proof.
  intros H. unfold map_mkdir. cbn [fst]. generalize (seq 1 (length p)). intros ks. revert d H.
  induction ks as [|k ks IH]; intros d H; [done|]. cbn [foldl]. apply IH.
  destruct (d !! take k p) eqn:E; [done|]. rewrite lookup_insert_ne; congruence.
Qed.

Lemma map_root_at (d : gmap Path Node) s root :
  root_at (FS := map_fs) d s root <-> s = root /\ d !! components root = Some NDir.
Proof.
  unfold root_at. cbn. split.
  - intros [Hc Hd]. destruct (d !! components s) as [[]|]; try done; injection Hc as ->;
      (split; [done|]); by destruct (d !! components root) as [[]|].
  - intros [-> ->]. done.
Qed.

#[export] Instance map_posix : PosixFiles map_fs.
Proof.
  refine {| file_at := (map_file_at : @Disk map_fs -> Path -> _) |}; cbn; unfold map_file_at.
  - unfold map_node. intros d p m. destruct (d !! p) as [[]|]; cbn; intros [= <-];
      (split; [try done; intros _; by eexists|intros [? ?]; done]).
  - unfold map_node. intros d p e. by destruct (d !! p) as [[]|].
  - unfold map_bytes, map_node. intros d p bytes content mode. by destruct (d !! p) as [[]|]; cbn; intros; simplify_eq.
  - unfold map_node. intros d p k m content mode. by destruct (d !! p) as [[]|]; cbn; intros; simplify_eq.
  - unfold map_write. intros d p bytes d'. destruct (d !! p) as [[]|]; intros [= <-];
      rewrite lookup_insert_eq; by eexists.
  - unfold map_write. intros d p bytes q Hq. destruct (d !! p) as [[]|]; cbn; try done;
      by rewrite lookup_insert_ne.
  - unfold map_mkdir. intros d p q. cbn.
    assert (H : forall l (d0 : gmap Path Node), map_file_at (foldl (fun (d : gmap Path Node) k =>
        match d !! take k p with None => <[take k p := NDir]> d | Some _ => d end) d0 l) q
      = map_file_at d0 q); [|apply H].
    induction l as [|k l IH]; intros d0; [done|]. cbn [foldl]. rewrite IH.
    destruct (d0 !! take k p) eqn:E; [done|]. destruct (decide (q = take k p)) as [->|Hne].
    + unfold map_file_at. by rewrite lookup_insert_eq, E.
    + by apply map_file_at_other.
  - unfold map_remove. intros d p d'. destruct (d !! p) as [[]|]; intros [= <-].
    by rewrite lookup_delete_eq.
  - unfold map_remove. intros d p q Hq. destruct (d !! p) as [[]|]; cbn; try done.
    by rewrite lookup_delete_ne.
  - unfold map_chmod. intros d p mode d' content old d0 q content0.
    destruct (d !! p) as [[]|]; intros [= <-]; rewrite lookup_insert_eq. by intros [= -> _].
  - unfold map_chmod. intros d p mode q Hq. destruct (d !! p) as [[]|]; cbn; try done.
    by rewrite lookup_insert_ne.
  - intros d p bytes s root. rewrite !map_root_at. intros [-> H]. split; [done|]. cbn.
    unfold map_write. destruct (decide (components root = p)) as [<-|Hne]; [by rewrite H|].
    destruct (d !! p) as [[]|]; cbn; try done; by rewrite lookup_insert_ne.
  - intros d p s root. rewrite !map_root_at. intros [-> H]. split; [done|]. by apply map_mkdir_keeps.
  - intros d p s root. rewrite !map_root_at. intros [-> H] _. split; [done|]. cbn.
    unfold map_remove. destruct (decide (components root = p)) as [<-|Hne]; [by rewrite H|].
    destruct (d !! p) as [[]|]; cbn; try done; by rewrite lookup_delete_ne.
  - intros d p mode s root. rewrite !map_root_at. intros [-> H] _. split; [done|]. cbn.
    unfold map_chmod. destruct (decide (components root = p)) as [<-|Hne]; [by rewrite H|].
    destruct (d !! p) as [[]|]; cbn; try done; by rewrite lookup_insert_ne.
Defined.

(** A patch here is the path of a file that it adds; ["update"] replaces [a.txt], ["same"] writes
    what it held, and ["break"] replaces it and then fails. *)
#[local] Instance demo_codex : Codex (FS := map_fs) := {|
  parse_patch patch :=
    if bool_decide (patch ∈ ["update"; "same"; "break"])
    then Ok [HunkUpdate "a.txt" None [["abcde"]]] else Ok [HunkAdd patch];
  apply_patch_with_options disk patch cwd :=
    if bool_decide (patch = "update") then
      ((map_write disk (demo_path "a.txt") (text "new")).1, Ok tt)
    else if bool_decide (patch = "same") then
      ((map_write disk (demo_path "a.txt") (text "abcde")).1, Ok tt)
    else if bool_decide (patch = "break") then
      ((map_write disk (demo_path "a.txt") (text "half")).1, Err "no space left")
    else ((map_write disk (cwd ++ components patch) (text "x")).1, Ok tt)
|}.

#[local] Existing Instance map_fs.
#[local] Existing Instance transparent_sha.

Definition demo_request (patch : string) : RunnerApplyPatchRequest :=
  mkRunnerApplyPatchRequest patch ∅ false.
Definition both_end : HelperRun (gmap Path Node) * HelperRun (gmap Path Node) :=
  (HelperEnded 100 0, HelperEnded 100 0).
Definition demo_patch (patch : string) :=
  apply_patch_txn (FS := map_fs) demo_disk demo_workspace (demo_request patch) both_end.

(** The text of a path on the disk after a patch. *)
Definition after (patch : string) (path : Path) : option (list ascii * Z) :=
  map_file_at (demo_patch patch).1 path.

Lemma rolled_back_patch_restores_its_files_witness :
  after "break" (demo_path "a.txt") = Some (text "abcde", S_IFREG + 420)%Z.
Proof.
  destruct (rolled_back_patch_restores_its_files (FS := map_fs) demo_disk demo_workspace
    (demo_request "break") both_end (demo_patch "break").1
    (mkRunnerApplyPatchResult FailedRolledBack ["a.txt"]
       [mkFileChange "a.txt" None None ChangeUpdate]) "a.txt" "/srv") as (path & Hp & Hf).
  - apply map_root_at. split; [reflexivity|]. vm_compute. reflexivity.
  - apply map_root_at. split; [reflexivity|]. vm_compute. reflexivity.
  - vm_compute. reflexivity.
  - done.
  - by left.
  - assert (path = demo_path "a.txt") as ->.
    { assert (Hr : resolve (FS := map_fs) demo_disk demo_workspace "a.txt" = Ok (demo_path "a.txt"))
        by (vm_compute; reflexivity).
      rewrite Hr in Hp. by injection Hp. }
    exact Hf.
Defined.

Lemma applied_patch_states_the_disk_witness :
  exists r, demo_patch "update" = ((demo_patch "update").1, Ok r) /\ as_changes r <> [].
Proof.
  set (r := mkRunnerApplyPatchResult Applied ["a.txt"]
    [mkFileChange "a.txt" (Some "sha256:abcde") (Some "sha256:new") ChangeUpdate]).
  assert (H : demo_patch "update" = ((demo_patch "update").1, Ok r)) by (vm_compute; reflexivity).
  exists r. split; [exact H|].
  exact (proj1 (applied_patch_states_the_disk (FS := map_fs) demo_disk demo_workspace
    (demo_request "update") both_end (demo_patch "update").1 r H eq_refl)).
Defined.

(** A patch whose helper cannot be started. *)
Lemma refused_patch_changes_nothing_witness :
  let r := apply_patch_txn (FS := map_fs) demo_disk demo_workspace (demo_request "update")
             (HelperMissing, HelperMissing) in
  r.1 = demo_disk \/ exists applied before,
    helper_main (FS := map_fs) demo_disk OpApply "/srv" "update" false = (r.1, Ok applied) /\
    verify_disk_matches_claimed (FS := map_fs) r.1 demo_workspace (ao_changes applied) before
      = Err (error_body InvalidPatch
          "CODESPACE_PATCH_BIN is unset and codespace-patch was not found next to codespace-mcp").
Proof.
  cbv zeta. refine (refused_patch_changes_nothing (FS := map_fs) demo_disk demo_workspace
    (demo_request "update") (HelperMissing, HelperMissing) _ (Err _) _).
  vm_compute. reflexivity.
Defined.

(** An update is answered as applied also where it leaves the file as it was. *)
Example an_update_may_leave_its_file_as_it_was :
  (demo_patch "same").2 = Ok (mkRunnerApplyPatchResult Applied ["a.txt"]
    [mkFileChange "a.txt" (Some "sha256:abcde") (Some "sha256:abcde") ChangeUpdate]) /\
  after "same" (demo_path "a.txt") = Some (text "abcde", S_IFREG + 420)%Z.
Proof. split; vm_compute; reflexivity. Qed.

(** A name with a backslash is applied, and then looked for under another name: the answer is an
    error, and the file stays. *)
Example backslash_is_applied_and_refused :
  (exists e, (demo_patch "a\b").2 = Err e /\ code e = InvalidPatch) /\
  after "a\b" (demo_path "a\b") = Some (text "x", S_IFREG + 420)%Z.
Proof.
  split; [|vm_compute; reflexivity]. eexists. split; [vm_compute; reflexivity|]. reflexivity.
Qed.
