(* ===== verification/Records.v ===== *)
(** A gateway's process records and leases: [crates/server/src/records.rs]. What the gateway
    writes of the executions it sends to one independent Runner, the workspace leases that
    follow their exits, and what it answers from its records when the Runner cannot. *)
From S2P Require Import Prelude Domain Resource Approvals Processes Supervisor Api.

(** * Waiting for an exit *)

(** [status_after_exit]: [answers] are the Runner's answers to the requests that it repeats,
    [None] when they are not enough for it to return. *)
Fixpoint status_after_exit (answers : list (result RunnerError RunnerProcessStatus))
    : option (result RunnerError RunnerProcessStatus) :=
  match answers with
  | [] => None
  | Ok status :: _ => Some (Ok status)
  | Err err :: answers =>
      match as_execution err with
      | Some body =>
          if bool_decide (code body = RunnerReconnecting) then status_after_exit answers
          else Some (Err err)
      | None => Some (Err err)
      end
  end.

(** * Leases *)

Record Leases := mkLeases {
  ls_locks : Serializer;             (** the store's serializer *)
  ls_exited : option (gset string)
}.

Definition lease_release (l : Leases) (process_id : string) : Leases :=
  mkLeases (release_process (ls_locks l) process_id)
    ((fun exited => {[process_id]} ∪ exited) <$> ls_exited l).

Definition note_exits (l : Leases) : Leases := mkLeases (ls_locks l) (Some ∅).

Definition forget_exits (l : Leases) : Leases := mkLeases (ls_locks l) None.

Definition restore (l : Leases) (workspace_id process_id : string) : res bool * Leases :=
  if match ls_exited l with Some exited => bool_decide (process_id ∈ exited) | None => false end
  then (Ok false, l)
  else
    match hold_process (ls_locks l) workspace_id process_id with
    | (Err e, locks) => (Err e, mkLeases locks (ls_exited l))
    | (Ok _, locks) => (Ok true, mkLeases locks (ls_exited l))
    end.

(** * Records *)

Section records.
Context `{Sql : SqlEngine} `{JA : Json (list string)}.
Context (sha256_hex : string -> string).

(** The gateway's [ProcessRecords] with the tables it writes. *)
Record ProcessRecords := mkProcessRecords {
  rc_runner : RunnerRef;
  rc_approvals : ApprovalsDb;
  rc_table : ProcessTable;
  rc_ends : Z;
  rc_lost : bool
}.

Definition with_table (rc : ProcessRecords) (t : ProcessTable) : ProcessRecords :=
  mkProcessRecords (rc_runner rc) (rc_approvals rc) t (rc_ends rc) (rc_lost rc).

(** [ProcessRecords::write]: whether nothing failed. *)
Definition write (rc : ProcessRecords) (written : res bool * ProcessTable)
    : bool * ProcessRecords :=
  (is_ok written.1, with_table rc written.2).

Definition end_record (rc : ProcessRecords) (process_id : string) (end_ : ProcessEnd) (now : Z)
    : bool * ProcessRecords :=
  write rc (record_end (rc_table rc) (rc_runner rc) process_id end_ now).

Definition record_ended (rc : ProcessRecords) (status : RunnerProcessStatus) (now : Z)
    : bool * ProcessRecords :=
  end_record rc (rs_process_id status)
    (Ended (rs_termination status) (rs_exit_code status) (sig_number <$> rs_signal status)
       (Some (rs_output_total status))) now.

Definition record_not_started (rc : ProcessRecords) (process_id : string) (now : Z)
    : bool * ProcessRecords :=
  end_record rc process_id NotStarted now.

Definition record_dropped (rc : ProcessRecords) (process_id : string) (now : Z)
    : bool * ProcessRecords :=
  end_record rc process_id (Ended (Some TUnknown) None None None) now.

Definition found_running (rc : ProcessRecords) (process_id : string) (now : Z)
    : bool * ProcessRecords :=
  write rc (record_running (rc_table rc) (rc_runner rc) process_id None None now).

Definition note_running (rc : ProcessRecords) (process_id : string) (root : option RootProcess)
    (deadline_at_ms : option Z) (now : Z) : ProcessRecords :=
  snd (write rc
    (record_running (rc_table rc) (rc_runner rc) process_id root deadline_at_ms now)).

Definition note_output (rc : ProcessRecords) (process_id : string) (cursor now : Z)
    : ProcessRecords :=
  snd (write rc (record_output (rc_table rc) (rc_runner rc) process_id cursor now)).

(** [ProcessRecords::dispatching]. *)
Definition dispatching (rc : ProcessRecords) (process_id workspace_id : string)
    (command : list string) (tty : bool) (epoch : option Z)
    (participation : RecordedParticipation) (attempt_id resume : option string) (now : Z)
    : res unit * ProcessRecords :=
  let '(written, adb, t) :=
    record_dispatch sha256_hex (rc_approvals rc) (rc_table rc)
      (mkNewProcessRecord process_id (rc_runner rc) epoch workspace_id resume attempt_id
         participation tty command) now in
  (match written with
   | Ok _ => Ok tt
   | Err err =>
       if bool_decide (code err = Internal)
       then Err (error_body Internal
                   ("the execution could not be recorded before it was sent, so nothing was started: "
                    +:+ message err))
       else Err err
   end, mkProcessRecords (rc_runner rc) adb t (rc_ends rc) (rc_lost rc)).

(** The task [ProcessRecords::start] runs for one exit: whether the end was recorded, and the
    Runner is told so. *)
Definition follow_exit (rc : ProcessRecords) (process_id : string)
    (answer : result RunnerError RunnerProcessStatus) (now : Z) : bool * ProcessRecords :=
  let '(recorded, rc) :=
    match answer with
    | Ok status =>
        if bool_decide (rs_state status = PExited) then record_ended rc status now
        else (false, rc)
    | Err _ => end_record rc process_id (Ended None None None None) now
    end in
  (recorded,
   mkProcessRecords (rc_runner rc) (rc_approvals rc) (rc_table rc) (as_u64 (rc_ends rc + 1))
     (rc_lost rc)).

(** [ProcessRecords::stopped]. *)
Definition stopped (rc : ProcessRecords) (processes : list RunnerProcessStatus) (now : Z)
    : ProcessRecords :=
  foldl (fun rc status =>
           if bool_decide (rs_state status = PExited) then snd (record_ended rc status now)
           else rc) rc processes.

(** [ProcessRecords::runner_lost]. *)
Definition runner_lost (rc : ProcessRecords) (now : Z) : list string * ProcessRecords :=
  let (ids, t) := record_runner_lost (rc_table rc) (rc_runner rc) RunnerLost now in
  (ids, mkProcessRecords (rc_runner rc) (rc_approvals rc) t (rc_ends rc) true).

(** * Answers from the records *)

Definition lost_reason (loss : ProcessLoss) : LostReason :=
  match loss with RunnerLost => LostRunnerLost | HostRebooted => LostHostRebooted end.

Record Recorded := mkRecorded { rd_record : ProcessRecord; rd_reason : LostReason }.

(** Why the answer about [record] comes from it, if it does. *)
Definition recorded_reason (runner : RunnerRef) (record : ProcessRecord) (lost_runner : bool)
    : option LostReason :=
  let ours := bool_decide (pc_runner record = runner) in
  let loss_since := loss_of (pc_runner record) (rr_boot_id runner) in
  match pc_lost record, pc_phase record with
  | Some loss, _ => Some (lost_reason loss)
  | None, PhTerminal =>
      if ours && lost_runner then Some LostRunnerLost
      else Some match loss_since with
                | HostRebooted => LostHostRebooted
                | RunnerLost => RetentionExpired
                end
  | None, _ =>
      if ours then if lost_runner then Some LostRunnerLost else None
      else Some (lost_reason loss_since)
  end.

Definition recorded (rc : ProcessRecords) (process_id : string) (err : RunnerError)
    : option Recorded :=
  let answer lost_runner :=
    match process_record (rc_table rc) process_id with
    | Ok (Some record) =>
        if bool_decide (pc_outcome record = Some OutNotStarted) then None
        else mkRecorded record <$> recorded_reason (rc_runner rc) record lost_runner
    | _ => None
    end in
  match code <$> as_execution err with
  | Some ProcessNotFound => answer false
  | Some RunnerDisconnected => if rc_lost rc then answer true else None
  | _ => None
  end.

Definition recorded_total (rd : Recorded) : Z := default 0%Z (pc_output_cursor (rd_record rd)).

Definition recorded_status (rd : Recorded) : ProcessStatusResult :=
  let record := rd_record rd in
  let unknown_end := (PExited, Some TUnknown, None, None) in
  let '(state, termination, exit_code, signal) :=
    match pc_phase record, pc_outcome record with
    | PhTerminal, Some (OutEnded TExited) =>
        (PExited, Some TExited, pc_exit_code record, None)
    | PhTerminal, Some (OutEnded TSignaled) =>
        match pc_signal record with
        | Some number => (PExited, Some TSignaled, None, Some (process_signal number))
        | None => unknown_end
        end
    | PhTerminal, Some (OutEnded termination) => (PExited, Some termination, None, None)
    | PhTerminal, _ => unknown_end
    | _, _ =>
        if bool_decide (rd_reason rd = LostHostRebooted) then unknown_end
        else (PUnknown, None, None, None)
    end in
  {| ps_process_id := pc_process_id record; ps_state := state; ps_exit_code := exit_code;
     ps_termination := termination; ps_signal := signal;
     ps_output_total := recorded_total rd; ps_output_retained_from := recorded_total rd;
     ps_eof := true; ps_lost_reason := Some (rd_reason rd); ps_coordination := None |}.

Definition recorded_read (rd : Recorded) (cursor : Z) : ReadProcessResult :=
  {| rp_process_id := pc_process_id (rd_record rd);
     rp_cursor := Z.max cursor (recorded_total rd); rp_chunk := ""; rp_eof := true;
     rp_output_lost := true; rp_retained_from := recorded_total rd;
     rp_lost_reason := Some (rd_reason rd); rp_coordination := None |}.

End records.

(** * Leases and exits *)

(** What happens to the leases and the serializer while a reconciliation runs. *)
Inductive LeaseStep :=
  | LeaseRelease (process_id : string)
  | LeaseRestore (workspace_id process_id : string)
  | LeaseOther (f : Serializer -> Serializer).  (** another call of the serializer *)

Definition lease_step (l : Leases) (st : LeaseStep) : Leases :=
  match st with
  | LeaseRelease id => lease_release l id
  | LeaseRestore ws id => snd (restore l ws id)
  | LeaseOther f => mkLeases (f (ls_locks l)) (ls_exited l)
  end.

Definition lease_run (l : Leases) (steps : list LeaseStep) : Leases :=
  foldl lease_step l steps.

(** No resource is held for the live process [p]. *)
Definition unheld (p : string) (s : Serializer) : Prop :=
  forall r, exclusive s !! r <> Some (HeldProcess p).

(** A call that keeps the serializer's invariant and holds nothing for [p]. *)
Definition quiet (p : string) (st : LeaseStep) : Prop :=
  match st with
  | LeaseOther f =>
      forall s, serializer_inv none_exempt s ->
        serializer_inv none_exempt (f s) /\ (unheld p s -> unheld p (f s))
  | _ => True
  end.

(** A wakeup grants requests and spawns, never a live process. *)
Lemma wake_unheld F s r p : serializer_inv F s -> unheld p s -> unheld p (wake s r).
Proof.
  intros Hinv Hu r' Hr'. destruct (wake_ok F s r Hinv) as [g [Hrun _]].
  destruct Hrun as [Hsplit _ _ He _ _ _ _ Hh _]. cbn in *.
  destruct (decide (r' = r)) as [->|Hn].
  - destruct (Hh _ Hr') as [Hs|(w & Hw & Ho & _)]; [by apply (Hu r)|].
    pose proof (lo_waiters _ _ _ _ (si_local _ _ Hinv r)) as Hok.
    assert (Hin : w ∈ queue_of s r) by (rewrite Hsplit; apply elem_of_app; by left).
    eapply Forall_forall in Hok; [|exact Hin]. unfold waiter_ok in Hok. by rewrite Ho in Hok.
  - apply (Hu r'). by destruct (He r' Hn) as [<- _].
Qed.

Lemma wake_all_unheld F rs s p :
  serializer_inv F s -> unheld p s -> unheld p (wake_all s rs).
Proof.
  revert s. induction rs as [|r rs IH]; intros s Hinv Hu; cbn; [done|].
  apply IH; [by apply wake_keeps|by eapply wake_unheld].
Qed.

Lemma release_process_unheld s p q :
  serializer_inv none_exempt s -> p = q \/ unheld p s -> unheld p (release_process s q).
Proof.
  intros Hinv Hpq. unfold release_process, release_matching.
  eapply wake_all_unheld; [apply (released_inv none_exempt (held_by q) s Hinv)|].
  intros r. cbn. rewrite map_lookup_filter.
  destruct (exclusive s !! r) as [h|] eqn:E; cbn; [|done].
  case_guard as Hg; cbn; [|done]. intros [= ->]. destruct Hpq as [->|Hu].
  - cbn in Hg. by rewrite bool_decide_eq_true_2 in Hg.
  - by apply (Hu r).
Qed.

Lemma hold_process_unheld s ws p q :
  p <> q -> unheld p s -> unheld p (hold_process s ws q).2.
Proof.
  intros Hn Hu r.
  assert (Ht : exclusive (fail_waiters (grant s (Workspace ws) Exclusive (HeldProcess q))
                 (Workspace ws) shell_busy) !! r <> Some (HeldProcess p)).
  { unfold grant. rewrite fail_waiters_set_exclusive. cbn.
    intros [[_ E]|[_ E]]%lookup_insert_Some; [congruence|by apply (Hu r)]. }
  unfold hold_process. cbn zeta.
  destruct (exclusive s !! Workspace ws) as [[|id|id]|]; cbn; auto; case_bool_decide; cbn; auto.
Qed.

(** What a reconciliation's exits leave: once [p] is noted as exited, nothing is held for it. *)
Record leases_ok (p : string) (l : Leases) : Prop := {
  lk_inv : serializer_inv none_exempt (ls_locks l);
  lk_noting : is_some (ls_exited l) = true;
  lk_unheld exited : ls_exited l = Some exited -> p ∈ exited -> unheld p (ls_locks l)
}.

Lemma lease_step_ok p l st : quiet p st -> leases_ok p l -> leases_ok p (lease_step l st).
Proof.
  intros Hq [Hinv Hs Hu]. destruct l as [locks [exited|]]; [|done].
  destruct st as [q|ws q|f]; cbn in *.
  - split; cbn; [by apply release_process_inv|done|].
    intros ? [= <-] Hp. apply release_process_unheld; [done|].
    apply elem_of_union in Hp as [Hp%elem_of_singleton|Hp]; [by left|right; eauto].
  - unfold restore. cbn. case_bool_decide as Hin; [by split|].
    pose proof (hold_process_inv none_exempt locks ws q Hinv) as Hinv'.
    assert (Hu' : p ∈ exited -> unheld p (hold_process locks ws q).2).
    { intros Hp. apply hold_process_unheld; [by intros ->|eauto]. }
    destruct (hold_process locks ws q) as [[[]|e] locks']; cbn in *; split; cbn; auto;
      by intros ? [= <-].
  - destruct (Hq locks Hinv) as [Hinv' Hu']. split; cbn; eauto.
Qed.

Lemma lease_run_ok p l steps :
  Forall (quiet p) steps -> leases_ok p l -> leases_ok p (lease_run l steps).
Proof.
  revert l. induction steps as [|st steps IH]; intros l Hq Hl; [done|].
  apply Forall_cons in Hq as [Hst Hq]. apply IH; [done|by apply lease_step_ok].
Qed.

Lemma lease_run_exited p l steps exited :
  ls_exited l = Some exited -> p ∈ exited \/ LeaseRelease p ∈ steps ->
  exists exited', ls_exited (lease_run l steps) = Some exited' /\ p ∈ exited'.
Proof.
  revert l exited. induction steps as [|st steps IH]; intros l exited Hl Hp.
  - destruct Hp as [Hp|Hp%elem_of_nil]; [eauto|done].
  - destruct Hp as [Hp|Hp%elem_of_cons];
      (destruct st as [q|ws q|f];
        [apply (IH _ ({[q]} ∪ exited)); [cbn; by rewrite Hl|]
        |apply (IH _ exited);
           [cbn; unfold restore; rewrite Hl; case_bool_decide; [done|];
            by destruct (hold_process _ _ _) as [[]]|]
        |apply (IH _ exited); [done|]]).
    + left. set_solver.
    + by left.
    + by left.
    + destruct Hp as [[= ->]|Hp]; [left; set_solver|by right].
    + destruct Hp as [[=]|Hp]; by right.
    + destruct Hp as [[=]|Hp]; by right.
Qed.

Lemma recorded_reason_why runner record lost_runner reason :
  recorded_reason runner record lost_runner = Some reason ->
  (pc_phase record <> PhTerminal -> reason = LostRunnerLost \/ reason = LostHostRebooted) /\
  (pc_phase record = PhTerminal \/ pc_runner record <> runner \/
   is_some (pc_lost record) = true \/ lost_runner = true).
Proof.
  unfold recorded_reason. cbn zeta. case_bool_decide as Hours.
  - destruct (pc_lost record) as [[]|], (pc_phase record), lost_runner; cbn;
      intros E; inversion E; subst; auto 6; split; auto 6; try done.
  - destruct (pc_lost record) as [[]|], (pc_phase record),
      (loss_of (pc_runner record) (rr_boot_id runner)); cbn;
      intros E; inversion E; subst; auto 6; split; auto 6; try done.
Qed.

Lemma recorded_status_honest rd :
  (pc_phase (rd_record rd) <> PhTerminal ->
     rd_reason rd = LostRunnerLost \/ rd_reason rd = LostHostRebooted) ->
  invariants_hold (recorded_status rd) = true /\ ps_state (recorded_status rd) <> PRunning /\
  (ps_state (recorded_status rd) = PExited ->
     pc_phase (rd_record rd) = PhTerminal \/ rd_reason rd = LostHostRebooted) /\
  (forall t, ps_termination (recorded_status rd) = Some t -> t <> TUnknown ->
     pc_outcome (rd_record rd) = Some (OutEnded t)).
Proof.
  intros Hwhy. unfold recorded_status, invariants_hold. cbn zeta.
  destruct (decide (pc_phase (rd_record rd) = PhTerminal)) as [Ht|Hn].
  - rewrite Ht. destruct (pc_outcome (rd_record rd)) as [[|[]]|];
      try destruct (pc_signal (rd_record rd)); cbn; split_and!; intros; simplify_eq; auto.
  - specialize (Hwhy Hn). case_bool_decide as Hb;
      destruct (pc_phase (rd_record rd)); try done; cbn; split_and!; intros; simplify_eq; auto.
    all: destruct Hwhy as [-> |]; [done|done].
Qed.

(** * Properties *)

(** A process whose exit reached the gateway while it reconciled is never held again: once
    its lease was released since the reconciliation began, no workspace is held for it,
    however restores, other exits and the other requests of the serializer interleave. *)
Theorem exited_process_is_never_held p l steps :
  serializer_inv none_exempt (ls_locks l) -> Forall (quiet p) steps ->
  LeaseRelease p ∈ steps ->
  unheld p (ls_locks (lease_run (note_exits l) steps)).
Proof.
  intros Hinv Hq Hp.
  assert (Hok : leases_ok p (note_exits l)).
  { split; [done..|]. intros ? [= <-]. set_solver. }
  destruct (lease_run_exited p (note_exits l) steps ∅ eq_refl (or_intror Hp))
    as (exited & He & Hin).
  by eapply (lk_unheld p _ (lease_run_ok p _ steps Hq Hok)).
Qed.

(** [p] is reported running, exits, and is then restored by the reconciliation. *)
Lemma exited_process_is_never_held_witness :
  let steps := [LeaseOther (fun s => release_write s "w"); LeaseRelease "p";
                LeaseRestore "w" "p"] in
  exclusive (ls_locks (lease_run (note_exits (mkLeases serializer_default None)) steps))
    !! Workspace "w" <> Some (HeldProcess "p").
Proof.
  cbn zeta. apply (exited_process_is_never_held "p" (mkLeases serializer_default None)).
  - exact (proj1 system_start_inv).
  - apply Forall_cons. split; [|repeat constructor]. intros s Hs.
    split; [by apply release_write_inv|]. intros Hu. unfold release_write.
    destruct (exclusive s !! Workspace "w") as [[| |]|] eqn:E; try done.
    eapply (wake_unheld (fun r => r = Workspace "w")).
    + apply (set_exclusive_inv none_exempt); [done|..].
      * intros r. destruct (si_local _ _ Hs r) as [D ? ? ? ? H B].
        destruct (decide (r = Workspace "w")) as [->|Hr];
          rewrite ?lookup_delete_eq, ?lookup_delete_ne by done; split; auto; by intros.
      * intros r Hr. rewrite lookup_delete_ne by done. auto.
    + intros r. cbn. intros [_ Hr]%lookup_delete_Some. by apply (Hu r).
  - set_solver.
Defined.

(** What the gateway answers from its records is honest. It satisfies the tools' status
    contract, is never [running], and says why; it is an end only when the record says that the
    execution ended or the host restarted since, and names a termination other than [unknown]
    only as the record has it. An execution of the connected Runner that has not ended and was
    not lost is never answered from the records. *)
Theorem recorded_answers_are_honest rc process_id err rd :
  recorded rc process_id err = Some rd ->
  let st := recorded_status rd in
  let record := rd_record rd in
  process_record (rc_table rc) process_id = Ok (Some record) /\
  invariants_hold st = true /\ ps_state st <> PRunning /\
  (ps_state st = PExited ->
     pc_phase record = PhTerminal \/ rd_reason rd = LostHostRebooted) /\
  (forall t, ps_termination st = Some t -> t <> TUnknown ->
     pc_outcome record = Some (OutEnded t)) /\
  (pc_phase record = PhTerminal \/ pc_runner record <> rc_runner rc \/
   is_some (pc_lost record) = true \/ rc_lost rc = true).
Proof.
  intros Hr st record.
  assert (exists lost_runner, (lost_runner = true -> rc_lost rc = true) /\
    process_record (rc_table rc) process_id = Ok (Some record) /\
    recorded_reason (rc_runner rc) record lost_runner = Some (rd_reason rd))
    as (lost_runner & Hlr & Hrec & Hreason).
  { unfold recorded in Hr. destruct (code <$> as_execution err) as [c|]; [|done].
    assert (Ha : forall b, match process_record (rc_table rc) process_id with
              | Ok (Some record) =>
                  if bool_decide (pc_outcome record = Some OutNotStarted) then None
                  else mkRecorded record <$> recorded_reason (rc_runner rc) record b
              | _ => None
              end = Some rd ->
              process_record (rc_table rc) process_id = Ok (Some record) /\
              recorded_reason (rc_runner rc) record b = Some (rd_reason rd)).
    { intros b. destruct (process_record _ _) as [[r|]|]; [|done..].
      case_bool_decide; [done|]. intros (x & Hx & ->)%fmap_Some. done. }
    destruct c; try done.
    - exists false. split; [done|]. by apply Ha.
    - destruct (rc_lost rc) eqn:El; [|done]. exists true. split; [done|]. by apply Ha. }
  destruct (recorded_reason_why _ _ _ _ Hreason) as [Hwhy Hwho].
  destruct (recorded_status_honest rd Hwhy) as (H1 & H2 & H3 & H4).
  split_and!; try done. destruct Hwho as [?|[?|[?|?]]]; auto.
Qed.

(** The Runner of a running execution is lost: the record answers [unknown]. *)
#[local] Existing Instance merge_sort_engine.

Definition lost_records : ProcessRecords :=
  snd (runner_lost (mkProcessRecords demo_runner approvals_empty demo_table 0 false) 3000).

Definition disconnected : RunnerError :=
  RunnerExecution (error_body RunnerDisconnected "the Runner is gone").

Lemma recorded_answers_are_honest_witness :
  exists rd, recorded lost_records "p" disconnected = Some rd /\
    ps_state (recorded_status rd) = PUnknown /\ invariants_hold (recorded_status rd) = true.
Proof.
  eexists. split; [vm_compute; reflexivity|]. split; [vm_compute; reflexivity|].
  apply (recorded_answers_are_honest lost_records "p" disconnected). vm_compute. reflexivity.
Defined.
