(* ===== verification/Recovery.v ===== *)
(** Reconciliation of a gateway with its independent Runner: [crates/server/src/recovery.rs].
    What the gateway decides of each execution that earlier claims left, what it does about it,
    and the gate that refuses new work until a workspace is reconciled. *)
From S2P Require Import Prelude Domain Resource Approvals Processes Supervisor Api Records.

(** * The gate *)

Inductive Bar :=
  | BarPending (reason : string)
  | BarBlocked (reason : string).

#[export] Instance Bar_eq_dec : EqDecision Bar.
Proof. solve_decision. Defined.

Definition is_pending (b : Bar) : bool := match b with BarPending _ => true | _ => false end.

Record Gate := mkGate {
  gt_claimed : option Z;
  gt_unreadable : option string;
  gt_barred : gmap string Bar
}.

Definition gate_default : Gate := mkGate None None ∅.

Record Outcome := mkOutcome { oc_pending : bool; oc_barred : bool }.

(** [Bars::pend] and [Bars::block]. *)
Definition pend (workspace_id reason : string) (bars : gmap string Bar) : gmap string Bar :=
  match bars !! workspace_id with
  | Some _ => bars
  | None => <[workspace_id := BarPending reason]> bars
  end.

Definition block (workspace_id reason : string) (bars : gmap string Bar) : gmap string Bar :=
  match bars !! workspace_id with
  | Some (BarBlocked _) => bars
  | _ => <[workspace_id := BarBlocked reason]> bars
  end.

(** * Decisions *)

Inductive Decision :=
  | DRunning
  | DEnded (status : option RunnerProcessStatus)
  | DNotStarted
  | DSettled (was_started : bool)
  | DPending (reason : string)
  | DBlocked (reason : string).

Inductive Link :=
  | LStarted (process_id : string)
  | LNotStarted
  | LUnknown.

Definition link_process (l : Link) : option string :=
  match l with LStarted p => Some p | _ => None end.

Definition link_not_started (l : Link) : bool :=
  match l with LNotStarted => true | _ => false end.

Definition awaits_operator (record : ProcessRecord) (loss : ProcessLoss) : string :=
  "process `" +:+ pc_process_id record +:+ "` " +:+
  match loss with
  | RunnerLost =>
      "was sent to a Runner that was lost, so what became of it cannot be learned and it may still run"
  | HostRebooted => "was sent to a Runner that the host's restart ended"
  end +:+
  "; an operator confirms that nothing of it runs and releases its record (`codespace-mcp records`)".

Definition recalled_as (recalled : Recalled) : string :=
  match recalled with
  | NotReceived => "never received it"
  | RefusedStart => "created nothing for it"
  | Held _ status =>
      if bool_decide (rs_state status = PRunning) then "holds it running" else "holds it ended"
  | Dropped => "created it and no longer holds it"
  end.

(** [decide]: an execution that takes no part in the resource authority. *)
Definition decide_off (record : ProcessRecord) (recalled : Recalled) : Decision :=
  match recalled with
  | Held workspace_id status =>
      if bool_decide (workspace_id <> pc_workspace_id record)
      then DBlocked ("the Runner holds process `" +:+ pc_process_id record +:+ "` in workspace `"
                     +:+ workspace_id +:+ "`, not where its record says")
      else if bool_decide (rs_state status = PRunning) then DRunning
      else DEnded (Some status)
  | Dropped => DEnded None
  | NotReceived | RefusedStart =>
      if bool_decide (pc_phase record = PhDispatching) then DNotStarted
      else DBlocked ("the record of process `" +:+ pc_process_id record +:+
                     "` says the Runner started it, and the Runner " +:+ recalled_as recalled)
  end.

(** [AttemptState] and [LookedUp] of the Runner, as the resource authority states an attempt. *)
Inductive AttemptState :=
  | AtNotAsked | AtNotRecorded | AtDenied | AtCancelled | AtExpired | AtReleased | AtLaunched
  | AtScopeEnded | AtOther | AtUnknown.

Inductive LookedUp := LkNotAdmitted | LkNotFound | LkFound (state : AttemptState) | LkFailed.

Inductive Attempt := Launched | ScopeEnded | SettledBeforeStart | Absent | Unsettled | Failed.

#[export] Instance Attempt_eq_dec : EqDecision Attempt.
Proof. solve_decision. Defined.

Definition attempt_as_str (a : Attempt) : string :=
  match a with
  | Launched => "launched"
  | ScopeEnded => "released after its scope ended"
  | SettledBeforeStart => "settled before it started"
  | Absent => "absent"
  | Unsettled => "not settled"
  | Failed => "not known"
  end.

Definition attempt_from (found : LookedUp) : Attempt :=
  match found with
  | LkNotAdmitted | LkNotFound => Absent
  | LkFailed => Failed
  | LkFound AtLaunched => Launched
  | LkFound AtScopeEnded => ScopeEnded
  | LkFound (AtDenied | AtCancelled | AtExpired | AtReleased) => SettledBeforeStart
  | LkFound (AtNotAsked | AtNotRecorded) => Absent
  | LkFound (AtOther | AtUnknown) => Unsettled
  end.

(** [decide_required] of a gateway with DevGuard: a governed execution whose record names
    [attempt_id], which the authority states as [attempt]. *)
Definition decide_attempt (record : ProcessRecord) (recalled : Recalled) (attempt_id : string)
    (attempt : Attempt) : Decision :=
  let mismatch :=
    DBlocked ("the Runner and the resource authority do not agree on process `"
              +:+ pc_process_id record +:+ "`: the Runner " +:+ recalled_as recalled
              +:+ ", and attempt `" +:+ attempt_id +:+ "` is " +:+ attempt_as_str attempt) in
  let unsettled :=
    DPending ("the resource authority has not settled attempt `" +:+ attempt_id
              +:+ "` of process `" +:+ pc_process_id record +:+ "` yet") in
  let failed :=
    DPending ("the resource authority could not be asked about attempt `" +:+ attempt_id
              +:+ "` of process `" +:+ pc_process_id record +:+ "`") in
  let settled :=
    match attempt with
    | Failed => failed
    | ScopeEnded | SettledBeforeStart => decide_off record recalled
    | Launched | Unsettled => unsettled
    | Absent => mismatch
    end in
  match recalled with
  | Held workspace_id status =>
      if bool_decide (workspace_id <> pc_workspace_id record) then decide_off record recalled
      else if bool_decide (rs_state status = PRunning)
      then match attempt with
           | Failed => failed
           | Launched => DRunning
           | Unsettled => unsettled
           | _ => mismatch
           end
      else settled
  | Dropped => settled
  | NotReceived | RefusedStart =>
      match attempt with
      | Failed => failed
      | _ =>
          if bool_decide (pc_phase record <> PhDispatching) then decide_off record recalled
          else match attempt with
               | Absent | SettledBeforeStart => DNotStarted
               | Unsettled => unsettled
               | _ => mismatch
               end
      end
  end.

(** [decide_required], with and without the [devguard] feature. *)
Definition decide_required (devguard : bool) (record : ProcessRecord) (recalled : Recalled)
    (attempts : gmap string Attempt) : Decision :=
  if devguard then
    match pc_attempt_id record, attempts !! pc_process_id record with
    | Some attempt_id, Some attempt => decide_attempt record recalled attempt_id attempt
    | _, _ =>
        DBlocked ("process `" +:+ pc_process_id record +:+
                  "` takes part in the resource authority, and its record names no attempt to look up")
    end
  else
    DBlocked ("process `" +:+ pc_process_id record +:+
              "` takes part in the resource authority, which this gateway cannot ask about").

Definition decide_asked (devguard : bool) (record : ProcessRecord) (recalled : Recalled)
    (attempts : gmap string Attempt) : Decision :=
  match pc_participation record with
  | PartOff => decide_off record recalled
  | PartRequired => decide_required devguard record recalled attempts
  end.

(** [consumed_by]. *)
Definition consumed_by (approval_id process_id : string) : OperationResumeResult :=
  {| or_approval_id := approval_id; or_state := Consumed; or_apply_patch := None;
     or_exec_command :=
       Some {| ec_process_id := process_id; ec_dispatch_status := DispatchConfirmed;
               ec_coordination := None |} |}.

(** [proves_started]. *)
Definition proves_started (record : ProcessRecord) : bool :=
  match pc_phase record with
  | PhRunning => true
  | PhTerminal => bool_decide (pc_outcome record <> Some OutNotStarted)
  | PhDispatching | PhUnknown => false
  end.

(** * Reconciling *)

(** What the Runner answers during one reconciliation, and what the gateway's other tasks do
    while it is asked. *)
Record Answers := mkAnswers {
  an_recall : list string -> result string (list (string * Recalled));
  an_look_up : list (string * string) -> option (list (string * LookedUp));
  an_reconciled : list string -> option string;
  an_meanwhile : ProcessRecords * Leases -> ProcessRecords * Leases
}.

(** What a reconciliation has done so far. *)
Record Pass := mkPass {
  pa_records : ProcessRecords;
  pa_leases : Leases;
  pa_bars : gmap string Bar;
  pa_acknowledged : list string
}.

Definition with_bars (p : Pass) (f : gmap string Bar -> gmap string Bar) : Pass :=
  mkPass (pa_records p) (pa_leases p) (f (pa_bars p)) (pa_acknowledged p).

Section recovery.
Context `{Sql : SqlEngine} `{JP : Json PersistedResume} `{JS : Json ScrubbedParams}.
Context (devguard : bool).

Definition unended (record : ProcessRecord) : bool :=
  match pc_phase record with PhDispatching | PhRunning => true | _ => false end.

(** The Runners other than [ours] that unended records were sent to, without repetition. *)
Fixpoint other_runners (ours : RunnerRef) (records : list ProcessRecord) (seen : list RunnerRef)
    : list RunnerRef :=
  match records with
  | [] => seen
  | record :: records =>
      other_runners ours records
        (if unended record && bool_decide (pc_runner record <> ours)
            && bool_decide (pc_runner record ∉ seen)
         then seen ++ [pc_runner record] else seen)
  end.

(** [lose_other_runners]; the statement itself does not fail (see Processes). *)
Definition lose_one (ours : RunnerRef) (records : list ProcessRecord) (now : Z)
    (acc : gmap string (result string ProcessLoss) * ProcessTable) (runner : RunnerRef)
    : gmap string (result string ProcessLoss) * ProcessTable :=
  let loss := loss_of runner (rr_boot_id ours) in
  let '(_, t) := record_runner_lost acc.2 runner loss now in
  (foldl (fun m record => <[pc_process_id record := Ok loss]> m) acc.1
     (filter (fun record => pc_runner record = runner) records), t).

Definition lose_other_runners (rc : ProcessRecords) (records : list ProcessRecord) (now : Z)
    : gmap string (result string ProcessLoss) * ProcessRecords :=
  let '(lost, t) :=
    foldl (lose_one (rc_runner rc) records now) (∅, rc_table rc)
      (other_runners (rc_runner rc) records []) in
  (lost, with_table rc t).

(** What is decided of a record before the Runner is asked; [None] asks it. *)
Definition decide_first (ours : RunnerRef) (lost : gmap string (result string ProcessLoss))
    (record : ProcessRecord) : option Decision :=
  match pc_phase record with
  | PhTerminal => Some (DSettled (bool_decide (pc_outcome record <> Some OutNotStarted)))
  | PhUnknown =>
      Some (DBlocked (awaits_operator record (default RunnerLost (pc_lost record))))
  | PhDispatching | PhRunning =>
      if bool_decide (pc_runner record <> ours) then
        Some match lost !! pc_process_id record with
             | Some (Ok loss) => DBlocked (awaits_operator record loss)
             | Some (Err err) =>
                 DPending ("the Runner that process `" +:+ pc_process_id record +:+
                           "` was sent to is lost, and its record could not say so: " +:+ err)
             | None =>
                 DPending ("the record of process `" +:+ pc_process_id record +:+
                           "` was not marked lost")
             end
      else None
  end.

(** The answers collected into a map: the last one for an ID counts. *)
Definition collect_answers {A} (l : list (string * A)) : gmap string A :=
  foldl (fun m e => <[e.1 := e.2]> m) ∅ l.

(** [look_up]. *)
Definition look_up (an : Answers) (asked : list ProcessRecord) : gmap string Attempt :=
  let attempts :=
    omap (fun record =>
            if bool_decide (pc_participation record = PartRequired)
            then (fun attempt_id => (attempt_id, pc_process_id record)) <$> pc_attempt_id record
            else None) asked in
  match attempts with
  | [] => ∅
  | _ =>
      match an_look_up an attempts with
      | Some found => collect_answers (prod_map id attempt_from <$> found)
      | None => collect_answers ((fun a : string * string => (a.2, Failed)) <$> attempts)
      end
  end.

Definition decide_recalled (recalled : result string (gmap string Recalled))
    (attempts : gmap string Attempt) (record : ProcessRecord) : Decision :=
  match recalled with
  | Ok remembered =>
      match remembered !! pc_process_id record with
      | None => DPending ("the Runner did not answer about process `"
                          +:+ pc_process_id record +:+ "`")
      | Some recalled => decide_asked devguard record recalled attempts
      end
  | Err err => DPending ("the Runner could not be asked about process `"
                         +:+ pc_process_id record +:+ "`: " +:+ err)
  end.

(** [Recovery::apply]. *)
Definition unwritten (record : ProcessRecord) : string :=
  "the record of process `" +:+ pc_process_id record +:+ "` could not be updated".

Definition apply_decision (record : ProcessRecord) (decision : Decision) (now : Z) (p : Pass)
    : Pass * Link :=
  let id := pc_process_id record in
  let ws := pc_workspace_id record in
  match decision with
  | DRunning =>
      let '(written, rc) := found_running (pa_records p) id now in
      let bars := if written then pa_bars p else pend ws (unwritten record) (pa_bars p) in
      let '(held, ls) := restore (pa_leases p) ws id in
      let bars :=
        match held with
        | Ok _ => bars
        | Err err =>
            pend ws ("process `" +:+ id +:+
                     "` runs there, and the workspace could not be held for it: "
                     +:+ message err) bars
        end in
      (mkPass rc ls bars (pa_acknowledged p), LStarted id)
  | DEnded status =>
      let '(written, rc) :=
        match status with
        | Some status => record_ended (pa_records p) status now
        | None => record_dropped (pa_records p) id now
        end in
      let ls := lease_release (pa_leases p) id in
      let bars := if written then pa_bars p else pend ws (unwritten record) (pa_bars p) in
      let acknowledged :=
        if written && is_some status then pa_acknowledged p ++ [id] else pa_acknowledged p in
      (mkPass rc ls bars acknowledged, LStarted id)
  | DNotStarted =>
      let '(written, rc) := record_not_started (pa_records p) id now in
      let ls := lease_release (pa_leases p) id in
      if written then (mkPass rc ls (pa_bars p) (pa_acknowledged p), LNotStarted)
      else (mkPass rc ls (pend ws (unwritten record) (pa_bars p)) (pa_acknowledged p), LUnknown)
  | DSettled true => (p, LStarted id)
  | DSettled false => (p, LNotStarted)
  | DPending reason => (with_bars p (pend ws reason), LUnknown)
  | DBlocked reason => (with_bars p (block ws reason), LUnknown)
  end.

(** [BTreeMap::entry(..).or_insert_with(..).2.push(link)], the map in key order. *)
Fixpoint add_link (approval_id workspace_id : string) (link : Link)
    (l : list (string * (string * list Link))) : list (string * (string * list Link)) :=
  match l with
  | [] => [(approval_id, (workspace_id, [link]))]
  | (id, (ws, links)) :: rest =>
      if bool_decide (id = approval_id) then (id, (ws, links ++ [link])) :: rest
      else if string_le approval_id id then (approval_id, (workspace_id, [link])) :: l
      else (id, (ws, links)) :: add_link approval_id workspace_id link rest
  end.

Fixpoint apply_all (decided : list (ProcessRecord * Decision)) (now : Z) (p : Pass)
    (resumed : list (string * (string * list Link)))
    : Pass * list (string * (string * list Link)) :=
  match decided with
  | [] => (p, resumed)
  | (record, decision) :: decided =>
      let '(p, link) := apply_decision record decision now p in
      apply_all decided now p
        match pc_approval_id record with
        | Some id => add_link id (pc_workspace_id record) link resumed
        | None => resumed
        end
  end.

(** [Recovery::settle]; the approval's own operations do not interleave here (see Approvals). *)
Definition settle (rc : ProcessRecords) (approval_id : string) (links : list Link)
    (reconciled : gset string) : res unit * ProcessRecords :=
  let settled started :=
    let '(r, adb) :=
      settle_interrupted_resume (fun db => db) (fun db => db) (fun db => db) (rc_approvals rc)
        approval_id started in
    ((fun _ => tt) <$> r,
     mkProcessRecords (rc_runner rc) adb (rc_table rc) (rc_ends rc) (rc_lost rc)) in
  match records_of_approval (rc_table rc) approval_id with
  | Err e => (Err e, rc)
  | Ok records =>
      if existsb (fun record => bool_decide (pc_process_id record ∉ reconciled)) records
      then (Ok tt, rc)
      else
        match head (omap link_process links) with
        | Some process_id => settled (Some (consumed_by approval_id process_id))
        | None => if forallb link_not_started links then settled None else (Ok tt, rc)
        end
  end.

Fixpoint settle_all (resumed : list (string * (string * list Link))) (reconciled : gset string)
    (p : Pass) : Pass :=
  match resumed with
  | [] => p
  | (approval_id, (ws, links)) :: resumed =>
      let '(r, rc) := settle (pa_records p) approval_id links reconciled in
      let bars :=
        match r with
        | Ok _ => pa_bars p
        | Err err => pend ws ("approval `" +:+ approval_id +:+ "` could not be settled: "
                              +:+ message err) (pa_bars p)
        end in
      settle_all resumed reconciled (mkPass rc (pa_leases p) bars (pa_acknowledged p))
  end.

(** A running process that no record left to reconcile accounts for. *)
Definition accounted (records : list ProcessRecord) : gset string :=
  list_to_set (pc_process_id <$>
    filter (fun record => pc_phase record <> PhTerminal) records).

Definition is_suspect (records : list ProcessRecord) (entry : InventoryEntry) : bool :=
  bool_decide (rs_state (ie_status entry) = PRunning)
  && bool_decide (rs_process_id (ie_status entry) ∉ accounted records).

Definition judge_suspect (recalled : result string (gmap string Recalled)) (p : Pass)
    (entry : InventoryEntry) : Pass :=
  let id := rs_process_id (ie_status entry) in
  match recalled with
  | Ok remembered =>
      match remembered !! id with
      | Some (Held ws status) =>
          if bool_decide (rs_state status = PRunning)
          then with_bars p (block ws ("process `" +:+ id +:+
                 "` runs there, and no record of this gateway accounts for it"))
          else mkPass (pa_records p) (pa_leases p) (pa_bars p) (pa_acknowledged p ++ [id])
      | _ => p
      end
  | Err err =>
      with_bars p (pend (ie_workspace_id entry)
        ("the Runner could not be asked about process `" +:+ id +:+ "`: " +:+ err))
  end.

(** [Recovery::reconcile]. *)
Definition reconcile (an : Answers) (claim : RunnerClaim) (records : list ProcessRecord)
    (now : Z) (rc : ProcessRecords) (ls : Leases) : Pass :=
  let ours := rc_runner rc in
  let '(lost, rc) := lose_other_runners rc records now in
  let asked := filter (fun record => decide_first ours lost record = None) records in
  let suspects := filter (fun e => is_suspect records e = true) (cl_processes claim) in
  let ids :=
    (pc_process_id <$> asked) ++ ((fun e => rs_process_id (ie_status e)) <$> suspects) in
  let recalled :=
    match ids with [] => Ok ∅ | _ => collect_answers <$> an_recall an ids end in
  let attempts := look_up an asked in
  let '(rc, ls) := an_meanwhile an (rc, ls) in
  let decided :=
    (fun record =>
       (record, default (decide_recalled recalled attempts record)
                  (decide_first ours lost record))) <$> records in
  let '(p, resumed) := apply_all decided now (mkPass rc ls ∅ []) [] in
  let p := settle_all resumed (list_to_set (pc_process_id <$> records)) p in
  let p := foldl (judge_suspect recalled) p suspects in
  let ended :=
    (fun e => rs_process_id (ie_status e)) <$>
      filter (fun e => rs_state (ie_status e) = PExited /\
                       rs_process_id (ie_status e) ∉ accounted records) (cl_processes claim) in
  let reconciled := filter (fun ws => pa_bars p !! ws = None) (cl_barrier claim) in
  let bars :=
    match reconciled with
    | [] => pa_bars p
    | _ =>
        match an_reconciled an reconciled with
        | None => pa_bars p
        | Some err =>
            foldl (fun bars ws =>
                     pend ws ("the Runner could not be told that it is reconciled: " +:+ err) bars)
              (pa_bars p) reconciled
        end
    end in
  mkPass (pa_records p) (pa_leases p) bars (pa_acknowledged p ++ ended).

(** * The gate of a recovery *)

Record Recovery := mkRecovery {
  rv_records : ProcessRecords;
  rv_leases : Leases;
  rv_gate : Gate
}.

Definition with_gate (rv : Recovery) (g : Gate) : Recovery :=
  mkRecovery (rv_records rv) (rv_leases rv) g.

Definition waiting : Bar := BarPending "its reconciliation after the Claim has not finished".

Definition already_claimed (g : Gate) (epoch : Z) : bool :=
  match gt_claimed g with Some claimed => bool_decide (epoch <= claimed)%Z | None => false end.

(** [Recovery::take_account]. *)
Definition take_account (claim : RunnerClaim) (rv : Recovery) : Recovery :=
  if already_claimed (rv_gate rv) (cl_epoch claim) then rv
  else
    let bar ws (m : gmap string Bar) := <[ws := waiting]> m in
    let barred := foldr bar ∅ (cl_barrier claim) in
    let barred :=
      foldr bar barred
        (ie_workspace_id <$>
           filter (fun e => rs_state (ie_status e) = PRunning) (cl_processes claim)) in
    let rc := rv_records rv in
    match records_to_reconcile (rc_approvals rc) (rc_table rc) (rc_runner rc) (cl_epoch claim) with
    | Ok records =>
        with_gate rv (mkGate (Some (cl_epoch claim)) None
                        (foldr bar barred (pc_workspace_id <$> records)))
    | Err err => with_gate rv (mkGate (Some (cl_epoch claim)) (Some (message err)) barred)
    end.

(** [Recovery::pass]; [claimed] is the Runner's current Claim. *)
Definition pass (an : Answers) (claimed : option RunnerClaim) (claim : RunnerClaim) (now : Z)
    (rv : Recovery) : Recovery * Outcome :=
  let epoch := cl_epoch claim in
  let rc := rv_records rv in
  if bool_decide (cl_epoch <$> claimed <> Some epoch) then (rv, mkOutcome true true)
  else
    match records_to_reconcile (rc_approvals rc) (rc_table rc) (rc_runner rc) epoch with
    | Err err =>
        (if bool_decide (gt_claimed (rv_gate rv) = Some epoch)
         then with_gate rv (mkGate (gt_claimed (rv_gate rv)) (Some (message err))
                              (gt_barred (rv_gate rv)))
         else rv, mkOutcome true true)
    | Ok records =>
        let p := reconcile an claim records now rc (note_exits (rv_leases rv)) in
        let bars := pa_bars p in
        let gate :=
          if bool_decide (gt_claimed (rv_gate rv) = Some epoch)
          then mkGate (gt_claimed (rv_gate rv)) None bars else rv_gate rv in
        (mkRecovery (pa_records p) (forget_exits (pa_leases p)) gate,
         mkOutcome (existsb (fun e => is_pending e.2) (map_to_list bars))
           (negb (bool_decide (bars = ∅))))
    end.

Definition recovery_pending (text : string) : ErrorBody := error_body RecoveryPending text.

(** [Recovery::admit_work]; [claimed] is the Runner's current Claim. *)
Definition admit_work (claimed : option RunnerClaim) (workspace_id : string) (epoch : option Z)
    (rv : Recovery) : Recovery * res unit :=
  match epoch with
  | None => (rv, Ok tt)
  | Some epoch =>
      let rv :=
        if already_claimed (rv_gate rv) epoch then rv
        else match claimed with
             | Some claim =>
                 if bool_decide (cl_epoch claim = epoch) then take_account claim rv else rv
             | None => rv
             end in
      let gate := rv_gate rv in
      (rv,
       if bool_decide (gt_claimed gate <> Some epoch)
       then Err (recovery_pending
              "this gateway claimed its independent Runner again and has not taken account of that Claim yet, so nothing new is started; its processes can be queried, read, written to, resized and terminated. Retry shortly")
       else
         match gt_unreadable gate with
         | Some reason =>
             Err (recovery_pending
               ("this gateway could not read its process records to reconcile them with its independent Runner ("
                +:+ reason +:+
                "), so nothing new is started; its processes can be queried, read, written to, resized and terminated, and it tries again by itself"))
         | None =>
             match gt_barred gate !! workspace_id with
             | None => Ok tt
             | Some (BarPending reason) =>
                 Err (recovery_pending
                   ("nothing new is started in workspace `" +:+ workspace_id +:+
                    "` until this gateway reconciled it with its independent Runner: " +:+ reason +:+
                    ". Its processes can be queried, read, written to, resized and terminated, and the gateway tries again by itself"))
             | Some (BarBlocked reason) =>
                 Err (recovery_pending
                   ("nothing new is started in workspace `" +:+ workspace_id +:+ "`: " +:+ reason +:+
                    ", so this gateway cannot reconcile it with its independent Runner until an operator resolves it. Its processes can be queried, read, written to, resized and terminated"))
             end
         end)
  end.

End recovery.

(** * Decisions *)

(** The authority's statement of a governed execution is one of [states]; an ungoverned one has
    none. *)
Definition attempt_in (record : ProcessRecord) (attempts : gmap string Attempt)
    (states : list Attempt) : Prop :=
  pc_participation record = PartRequired ->
  exists a, attempts !! pc_process_id record = Some a /\ a ∈ states.

(** * Bars only grow while a reconciliation runs *)

Definition barred_in (ws : string) (bars : gmap string Bar) : Prop := is_Some (bars !! ws).

Lemma pend_barred ws ws' reason bars :
  barred_in ws bars \/ ws = ws' -> barred_in ws (pend ws' reason bars).
Proof.
  unfold pend, barred_in. destruct (bars !! ws') eqn:E.
  - intros [?| ->]; [done|]. rewrite E. eauto.
  - intros [?| ->]; [|rewrite lookup_insert_eq; eauto].
    rewrite lookup_insert_ne; [done|]. intros ->. rewrite E in *. by destruct H.
Qed.

Lemma block_barred ws ws' reason bars :
  barred_in ws bars \/ ws = ws' -> barred_in ws (block ws' reason bars).
Proof.
  unfold block, barred_in. intros H.
  assert (Hi : is_Some (<[ws' := BarBlocked reason]> bars !! ws)).
  { destruct (decide (ws = ws')) as [->|Hn]; [rewrite lookup_insert_eq; eauto|].
    rewrite lookup_insert_ne by done. by destruct H. }
  destruct (bars !! ws') as [[]|] eqn:E; [done| |done].
  destruct H as [?| ->]; [done|]. rewrite E. eauto.
Qed.

Lemma pend_keeps ws ws' reason bars : barred_in ws bars -> barred_in ws (pend ws' reason bars).
Proof. intros H. apply pend_barred. by left. Qed.

Lemma block_keeps ws ws' reason bars : barred_in ws bars -> barred_in ws (block ws' reason bars).
Proof. intros H. apply block_barred. by left. Qed.

#[export] Hint Resolve pend_keeps block_keeps : codespace.

(** What a decision leaves for an operator or a later answer. *)
Definition undecided (d : Decision) : bool :=
  match d with DPending _ | DBlocked _ => true | _ => false end.

Section reconciling.
Context `{Sql : SqlEngine} `{JP : Json PersistedResume} `{JS : Json ScrubbedParams}.
Context (devguard : bool).

Lemma apply_decision_barred record d now p ws :
  barred_in ws (pa_bars p) \/ undecided d = true /\ ws = pc_workspace_id record ->
  barred_in ws (pa_bars (apply_decision record d now p).1).
Proof.
  intros H. destruct d as [|status| |[]|reason|reason]; cbn [apply_decision].
  - destruct H as [H|[? _]]; [|done]. destruct (found_running (pa_records p) (pc_process_id record) now) as [[] rc];
      destruct (restore (pa_leases p) (pc_workspace_id record) (pc_process_id record)) as [[|] ls]; cbn; auto with codespace.
  - destruct H as [H|[? _]]; [|done].
    destruct (match status with Some _ => _ | None => _ end) as [[] rc]; cbn;
      auto with codespace.
  - destruct H as [H|[? _]]; [|done]. 
    destruct (record_not_started (pa_records p) (pc_process_id record) now) as [[] rc]; cbn;
      auto with codespace.
  - by destruct H as [H|[? _]].
  - by destruct H as [H|[? _]].
  - apply pend_barred. tauto.
  - apply block_barred. tauto.
Qed.

Lemma apply_all_barred decided now p resumed ws :
  barred_in ws (pa_bars p) \/
    (exists record d, (record, d) ∈ decided /\ undecided d = true /\
                      ws = pc_workspace_id record) ->
  barred_in ws (pa_bars (apply_all decided now p resumed).1).
Proof.
  revert p resumed. induction decided as [|[record d] decided IH]; intros p resumed H; cbn.
  { destruct H as [H|(? & ? & Hin & _)]; [done|]. by apply elem_of_nil in Hin. }
  pose proof (apply_decision_barred record d now p ws) as Hd.
  destruct (apply_decision record d now p) as [p' link]. cbn in Hd. apply IH.
  destruct H as [H|(r & d' & Hin & Hu & Hw)]; [auto|].
  apply elem_of_cons in Hin as [[= -> ->]|Hin]; [auto|right; eauto].
Qed.

Lemma settle_all_barred resumed reconciled p ws :
  barred_in ws (pa_bars p) -> barred_in ws (pa_bars (settle_all resumed reconciled p)).
Proof.
  revert p. induction resumed as [|[id [w links]] resumed IH]; intros p H; cbn; [done|].
  destruct (settle (pa_records p) id links reconciled) as [[|] rc]; apply IH; cbn; auto with codespace.
Qed.

Lemma judge_suspect_barred recalled p entry ws :
  barred_in ws (pa_bars p) -> barred_in ws (pa_bars (judge_suspect recalled p entry)).
Proof.
  intros H. unfold judge_suspect. destruct recalled as [remembered|err].
  - destruct (remembered !! _) as [[| |w st|]|]; try done. case_bool_decide; [|done].
    cbn. auto with codespace.
  - cbn. auto with codespace.
Qed.

Lemma judge_suspects_barred recalled entries p ws :
  barred_in ws (pa_bars p) ->
  barred_in ws (pa_bars (foldl (judge_suspect recalled) p entries)).
Proof.
  revert p. induction entries as [|e entries IH]; intros p H; cbn; [done|].
  apply IH. by apply judge_suspect_barred.
Qed.

Lemma pend_all_barred f l bars ws :
  barred_in ws bars -> barred_in ws (foldl (fun bars w => pend w (f w) bars) bars l).
Proof.
  revert bars. induction l as [|w l IH]; intros bars H; cbn; [done|].
  apply IH. apply pend_barred. by left.
Qed.

(** What [reconcile] decides of each record. *)
Definition decisions (an : Answers) (claim : RunnerClaim) (records : list ProcessRecord)
    (now : Z) (rc : ProcessRecords) : list (ProcessRecord * Decision) :=
  let lost := (lose_other_runners rc records now).1 in
  let asked := filter (fun record => decide_first (rc_runner rc) lost record = None) records in
  let suspects := filter (fun e => is_suspect records e = true) (cl_processes claim) in
  let ids :=
    (pc_process_id <$> asked) ++ ((fun e => rs_process_id (ie_status e)) <$> suspects) in
  let recalled :=
    match ids with [] => Ok ∅ | _ => collect_answers <$> an_recall an ids end in
  (fun record =>
     (record, default (decide_recalled devguard recalled (look_up an asked) record)
                (decide_first (rc_runner rc) lost record))) <$> records.

Lemma reconcile_barred an claim records now rc ls ws record d :
  (record, d) ∈ decisions an claim records now rc -> undecided d = true ->
  ws = pc_workspace_id record ->
  barred_in ws (pa_bars (reconcile devguard an claim records now rc ls)).
Proof.
  intros Hin Hu Hw. unfold reconcile, decisions in *.
  destruct (lose_other_runners rc records now) as [lost rc1] eqn:Elost. cbn [fst] in Hin.
  destruct (an_meanwhile an (rc1, ls)) as [rc2 ls2].
  pose proof (apply_all_barred _ now (mkPass rc2 ls2 ∅ []) [] ws
    (or_intror (ex_intro _ record (ex_intro _ d (conj Hin (conj Hu Hw)))))) as Ha.
  destruct (apply_all _ now _ []) as [p resumed]. cbn in Ha.
  apply (settle_all_barred resumed (list_to_set (pc_process_id <$> records))) in Ha.
  set (q := settle_all _ _ _) in *. clearbody q. cbn zeta.
  eapply judge_suspects_barred in Ha. cbn.
  match goal with |- context [match ?l with [] => _ | _ => _ end] => destruct l end; [exact Ha|].
  destruct (an_reconciled an _); [|exact Ha]. by apply pend_all_barred.
Qed.

(** A bar refuses new work under the epoch it is of. *)
Lemma admit_barred claimed ws epoch rv :
  gt_claimed (rv_gate rv) = Some epoch -> barred_in ws (gt_barred (rv_gate rv)) ->
  exists text, admit_work claimed ws (Some epoch) rv = (rv, Err (recovery_pending text)).
Proof.
  intros Hc [b Hb]. unfold admit_work, already_claimed. rewrite Hc.
  rewrite bool_decide_eq_true_2 by lia. cbn zeta. rewrite Hc.
  rewrite bool_decide_eq_false_2 by (intros H; by apply H).
  destruct (gt_unreadable (rv_gate rv)); [eauto|]. rewrite Hb. destruct b; eauto.
Qed.

Lemma foldr_bar_barred ws (l : list string) (m : gmap string Bar) :
  ws ∈ l \/ barred_in ws m ->
  barred_in ws (foldr (fun w (m : gmap string Bar) => <[w := waiting]> m) m l).
Proof.
  intros H. induction l as [|w l IH]; cbn.
  { destruct H as [H|H]; [by apply elem_of_nil in H|done]. }
  unfold barred_in. destruct (decide (ws = w)) as [->|Hn]; [rewrite lookup_insert_eq; eauto|].
  rewrite lookup_insert_ne by done. apply IH.
  destruct H as [[H|H]%elem_of_cons|H]; [done|auto|auto].
Qed.

(** The workspaces that a Claim leaves to reconcile. *)
Definition left_to_reconcile (rc : ProcessRecords) (claim : RunnerClaim) (ws : string) : Prop :=
  ws ∈ cl_barrier claim \/
  (exists entry, entry ∈ cl_processes claim /\ rs_state (ie_status entry) = PRunning /\
     ie_workspace_id entry = ws) \/
  (exists records record,
     records_to_reconcile (rc_approvals rc) (rc_table rc) (rc_runner rc) (cl_epoch claim)
       = Ok records /\ record ∈ records /\ pc_workspace_id record = ws).

Lemma take_account_barred claim rv ws :
  already_claimed (rv_gate rv) (cl_epoch claim) = false ->
  left_to_reconcile (rv_records rv) claim ws ->
  gt_claimed (rv_gate (take_account claim rv)) = Some (cl_epoch claim) /\
  barred_in ws (gt_barred (rv_gate (take_account claim rv))).
Proof.
  intros Hc Hw. unfold take_account. rewrite Hc. cbn zeta.
  set (b1 := foldr _ ∅ (cl_barrier claim)). set (b2 := foldr _ b1 _).
  assert (Hb2 : ws ∈ cl_barrier claim \/
                (exists entry, entry ∈ cl_processes claim /\
                   rs_state (ie_status entry) = PRunning /\ ie_workspace_id entry = ws) ->
                barred_in ws b2).
  { intros [H|(e & He & Hs & Hws)]; apply foldr_bar_barred.
    - right. apply foldr_bar_barred. by left.
    - left. apply list_elem_of_fmap. exists e. split; [done|]. by apply list_elem_of_filter. }
  destruct (records_to_reconcile _ _ _ _) as [records|err] eqn:Hr; cbn; (split; [done|]).
  - apply foldr_bar_barred. destruct Hw as [H|[H|(rs & r & Hrs & Hin & Hws)]]; [auto..|].
    left. apply list_elem_of_fmap. exists r. rewrite Hr in Hrs. injection Hrs as <-. done.
  - destruct Hw as [H|[H|(rs & r & Hrs & _)]]; [auto..|]. by rewrite Hr in Hrs.
Qed.

(** * Properties *)

(** Each decision about an execution that the Runner was asked about follows the evidence.
    It is running only when the Runner holds it running where its record says; ended only when
    the Runner holds it ended there or created and dropped it; not started only when the Runner
    created nothing for it and the record says no more than that it was sent. A governed
    execution is decided so only when the authority states its attempt to match: claimed by a
    launch helper, settled, and absent or settled before it started. *)
Theorem decisions_follow_the_evidence record recalled attempts :
  let d := decide_asked devguard record recalled attempts in
  (d = DRunning ->
     (exists st, recalled = Held (pc_workspace_id record) st /\ rs_state st = PRunning) /\
     attempt_in record attempts [Launched]) /\
  (forall ended, d = DEnded ended ->
     match ended with
     | Some st => recalled = Held (pc_workspace_id record) st /\ rs_state st <> PRunning
     | None => recalled = Dropped
     end /\ attempt_in record attempts [ScopeEnded; SettledBeforeStart]) /\
  (d = DNotStarted ->
     (recalled = NotReceived \/ recalled = RefusedStart) /\ pc_phase record = PhDispatching /\
     attempt_in record attempts [Absent; SettledBeforeStart]) /\
  (forall b, d <> DSettled b).
Proof.
  cbn zeta. unfold decide_asked, decide_required, decide_attempt, decide_off, attempt_in.
  destruct (pc_participation record); [|destruct devguard];
    [|destruct (pc_attempt_id record), (attempts !! pc_process_id record) as [a|]|];
    destruct recalled as [| |ws st|]; repeat case_bool_decide; try destruct a; cbn;
    split_and!; intros; simplify_eq; try done; eauto 10; split_and!; eauto 10;
    intros; try done; eexists; (split; [done|]); set_solver.
Qed.

(** Settling an approval that is being resumed and not in flight follows what the
    reconciliation learned of its executions: with an execution it did not take up, nothing
    changes; otherwise the first one that started consumes it with that process, it is given
    back only when every one is known not to have started, and it is left as it is when that is
    not known. *)
Theorem settlement_follows_the_links rc id links reconciled row records :
  approvals (rc_approvals rc) !! id = Some row -> apr_state row = "resuming" ->
  id ∉ resume_inflight (rc_approvals rc) -> fail_next_finish (rc_approvals rc) = false ->
  records_of_approval (rc_table rc) id = Ok records ->
  let '(r, rc') := settle rc id links reconciled in
  r = Ok tt /\ rc_table rc' = rc_table rc /\
  approvals (rc_approvals rc') =
    if existsb (fun record => bool_decide (pc_process_id record ∉ reconciled)) records
    then approvals (rc_approvals rc)
    else
      match head (omap link_process links) with
      | Some p =>
          <[id := mkApprovalRow (apr_workspace_id row) (apr_tool row) (apr_fingerprint row)
                    (row_scrubbed row) "consumed" (apr_created_at row) (apr_resolved_at row)
                    (Some (to_json (PersistedSuccess (consumed_by id p))))]>
            (approvals (rc_approvals rc))
      | None =>
          if forallb link_not_started links
          then <[id := set_state "granted" row]> (approvals (rc_approvals rc))
          else approvals (rc_approvals rc)
      end.
Proof.
  intros Hrow Hst Hin Hf Hrecs. unfold settle. rewrite Hrecs.
  destruct (existsb _ records); [done|].
  assert (Hs : forall started,
    let out := settle_interrupted_resume (fun db => db) (fun db => db) (fun db => db)
                 (rc_approvals rc) id started in
    out.1 = Ok true /\
    approvals out.2 = <[id := match started with
      | Some s => mkApprovalRow (apr_workspace_id row) (apr_tool row) (apr_fingerprint row)
          (row_scrubbed row) "consumed" (apr_created_at row) (apr_resolved_at row)
          (Some (to_json (PersistedSuccess s)))
      | None => set_state "granted" row
      end]> (approvals (rc_approvals rc))).
  { intros started. pose proof (settle_uninterrupted (rc_approvals rc) id started Hf) as H.
    cbn zeta in H. rewrite bool_decide_eq_false_2 in H by done. destruct H as [_ H].
    rewrite Hrow, bool_decide_eq_true_2 in H by done. exact H. }
  destruct (head (omap link_process links)) as [p|].
  - specialize (Hs (Some (consumed_by id p))). cbn zeta in Hs.
    destruct (settle_interrupted_resume _ _ _ _ _ _) as [r adb]. cbn in Hs.
    destruct Hs as [-> Ha]. done.
  - destruct (forallb _ links); [|done]. specialize (Hs None). cbn zeta in Hs.
    destruct (settle_interrupted_resume _ _ _ _ _ _) as [r adb]. cbn in Hs.
    destruct Hs as [-> Ha]. done.
Qed.

(** New work waits for the reconciliation. Under a Claim that the gateway has not taken
    account of, admission takes account of it and refuses every workspace that the Claim's
    barrier names, where the Runner runs a process, or that a record left to reconcile names.
    And after a reconciliation of the current Claim, it still refuses every workspace with an
    execution that the reconciliation could not decide. *)
Theorem new_work_waits_for_reconciliation claim rv ws :
  (already_claimed (rv_gate rv) (cl_epoch claim) = false ->
   left_to_reconcile (rv_records rv) claim ws ->
   exists rv' e, admit_work (Some claim) ws (Some (cl_epoch claim)) rv = (rv', Err e) /\
     code e = RecoveryPending) /\
  (forall an now records record d claimed,
     gt_claimed (rv_gate rv) = Some (cl_epoch claim) ->
     records_to_reconcile (rc_approvals (rv_records rv)) (rc_table (rv_records rv))
       (rc_runner (rv_records rv)) (cl_epoch claim) = Ok records ->
     (record, d) ∈ decisions an claim records now (rv_records rv) -> undecided d = true ->
     ws = pc_workspace_id record ->
     let rv' := (pass devguard an (Some claim) claim now rv).1 in
     exists e, admit_work claimed ws (Some (cl_epoch claim)) rv' = (rv', Err e) /\
       code e = RecoveryPending).
Proof.
  split.
  - intros Hc Hw. destruct (take_account_barred claim rv ws Hc Hw) as [Hg Hb].
    destruct (admit_barred None ws (cl_epoch claim) (take_account claim rv) Hg Hb) as [text Ha].
    unfold admit_work in *. rewrite Hc, bool_decide_eq_true_2 by done.
    unfold already_claimed in Ha. rewrite Hg, bool_decide_eq_true_2 in Ha by lia.
    eexists _, _. split; [exact Ha|done].
  - intros an now records record d claimed Hg Hr Hin Hu Hw rv'.
    pose proof (reconcile_barred an claim records now (rv_records rv)
      (note_exits (rv_leases rv)) ws record d Hin Hu Hw) as Hb.
    assert (Hrv : gt_claimed (rv_gate rv') = Some (cl_epoch claim) /\
                  barred_in ws (gt_barred (rv_gate rv'))).
    { subst rv'. unfold pass. cbn zeta. rewrite bool_decide_eq_false_2 by (intros H; by apply H).
      rewrite Hr, Hg. cbn. by rewrite bool_decide_eq_true_2. }
    destruct Hrv as [Hg' Hb']. destruct (admit_barred claimed ws _ rv' Hg' Hb') as [text Ha].
    eexists. split; [exact Ha|done].
Qed.

(** C19: The Runner's memory makes giving back safe: when the gateway decides, from what the
    Runner recalls after any history of its own, that an execution never started, the Runner
    never created its process; when it decides that it runs or ended, the Runner created it. *)
Theorem not_started_means_never_created `{Order : HashOrder} env r ms now record attempts :
  fresh r -> is_some (mm_keep (rn_memory r)) = true ->
  let id := pc_process_id record in
  let recalled := snd (recall now id (run env r ms)) in
  match decide_asked devguard record recalled attempts with
  | DNotStarted => ever_created env r ms id = false
  | DRunning | DEnded _ => ever_created env r ms id = true
  | _ => True
  end.
Proof.
  intros Hf Hk id recalled. pose proof (recall_history env r ms now id Hf Hk) as H.
  cbn zeta in H. fold recalled in H. clearbody recalled.
  unfold decide_asked, decide_required, decide_attempt, decide_off.
  destruct (pc_participation record); [|destruct devguard];
    [|destruct (pc_attempt_id record), (attempts !! pc_process_id record) as [a|]|];
    destruct recalled as [| |ws st|]; repeat case_bool_decide; try destruct a; tauto.
Qed.

End reconciling.

(** * Concrete reconciliations *)

Section witnesses.
#[local] Existing Instance merge_sort_engine.
#[local] Existing Instance map_order.
#[local] Instance demo_persisted : Json PersistedResume := countable_json.
#[local] Instance demo_scrubbed : Json ScrubbedParams := countable_json.
#[local] Instance demo_command : Json (list string) := countable_json.

(** An execution sent under the approval ["a"], which is being resumed. *)
Definition resuming_row : ApprovalRow :=
  mkApprovalRow "w" "exec_command" "f" "{}" "resuming" 1 (Some 2%Z) None.

Definition resuming_db : ApprovalsDb := mkApprovalsDb {["a" := resuming_row]} ∅ false.

Definition resuming_table : ProcessTable :=
  process_run demo_digest
    (PDispatch resuming_db
       (mkNewProcessRecord "x" demo_runner (Some 3%Z) "w" (Some "a") None PartOff false ["ls"])
       2000) ∅.

Definition resuming_records : ProcessRecords :=
  mkProcessRecords demo_runner resuming_db resuming_table 0 false.

Definition x_record : ProcessRecord :=
  mkProcessRecord "x" demo_runner (Some 3%Z) "w" (Some "a") None PartOff false
    (hash_canonical demo_digest ["ls"]) PhDispatching None None None None None None 2000 2000
    None None.

Lemma settlement_follows_the_links_witness :
  approvals (rc_approvals (settle resuming_records "a" [LNotStarted] {["x"]}).2) !! "a" =
    Some (set_state "granted" resuming_row).
Proof.
  pose proof (settlement_follows_the_links resuming_records "a" [LNotStarted] {["x"]}
    resuming_row [x_record] eq_refl eq_refl ltac:(apply not_elem_of_empty) eq_refl
    ltac:(vm_compute; reflexivity)) as H.
  destruct (settle resuming_records "a" [LNotStarted] {["x"]}) as [r rc].
  destruct H as (_ & _ & H). cbn [snd]. rewrite H. vm_compute. reflexivity.
Defined.

(** ["x"] was refused by the Runner's limit. *)
Lemma not_started_means_never_created_witness :
  let ms := spawn_run 0 "p" ++ spawn_run 1 "q" ++ spawn_run 2 "x" in
  decide_asked false x_record (snd (recall 3 "x" (run None small_runner ms))) ∅ = DNotStarted /\
  ever_created None small_runner ms "x" = false.
Proof.
  cbn zeta.
  assert (Hd : decide_asked false x_record (snd (recall 3 "x" (run None small_runner
    (spawn_run 0 "p" ++ spawn_run 1 "q" ++ spawn_run 2 "x")))) ∅ = DNotStarted)
    by (vm_compute; reflexivity).
  split; [exact Hd|].
  pose proof (not_started_means_never_created false None small_runner
    (spawn_run 0 "p" ++ spawn_run 1 "q" ++ spawn_run 2 "x") 3 x_record ∅
    small_runner_fresh eq_refl) as H.
  cbv zeta in H. change (pc_process_id x_record) with "x" in H. rewrite Hd in H. exact H.
Defined.

(** A whole reconciliation: the Runner refused ["x"], so its approval is given back, its record
    says that it never started, and its workspace is free. *)
Definition refusing : Answers :=
  mkAnswers (fun ids => Ok ((fun id => (id, RefusedStart)) <$> ids)) (fun _ => None)
    (fun _ => None) (fun s => s).

Example refused_start_is_reconciled :
  let claim := mkClaim 4 true ["w"] [] 0 in
  let rv := take_account claim
              (mkRecovery resuming_records (mkLeases serializer_default None) gate_default) in
  let (rv', outcome) := pass false refusing (Some claim) claim 3000 rv in
  is_ok (admit_work (Some claim) "w" (Some 4%Z) rv).2 = false /\
  is_ok (admit_work (Some claim) "w" (Some 4%Z) rv').2 = true /\
  (apr_state <$> approvals (rc_approvals (rv_records rv')) !! "a") = Some "granted" /\
  (pr_phase <$> rc_table (rv_records rv') !! "x") = Some "terminal" /\
  outcome = mkOutcome false false.
Proof. vm_compute. repeat split. Qed.
End witnesses.
