(* ===== verification/Wire.v ===== *)
(** The Runner wire protocol: [crates/runner/src/wire.rs]. Its requests, answers and envelopes,
    the frames that carry them, and the replay of answers. *)
From S2P Require Import Prelude Domain Policy Output Supervisor Api Recovery.

Definition WIRE_PROTOCOL : Z := 11.
Definition MAX_FRAME_BYTES : Z := 16 * 1024 * 1024.
Definition MAX_REPLAY : nat := 32.
Definition CLAIM_WAIT_BOUND : Z := 10 * 1000000000.

(** * Requests, answers and events *)

(** The reports of a governed execution ([crates/devguard]) travel unchanged. *)
Class Reports := {
  AuthorityInfo : Type;
  Preparation : Type;
  LaunchReport : Type
}.

Inductive WireKind := KindRequest | KindResponse | KindEvent.

#[export] Instance WireKind_eq_dec : EqDecision WireKind.
Proof. solve_decision. Defined.

Inductive RunnerEvent := ProcessExited (process_id : string).

#[export] Instance RunnerEvent_eq_dec : EqDecision RunnerEvent.
Proof. solve_decision. Defined.

Record AttemptRef := mkAttemptRef { ar_attempt_id : string; ar_process_id : string }.

Record AttemptLookup := mkAttemptLookup {
  al_attempt_id : string;
  al_process_id : string;
  al_found : LookedUp
}.

Inductive RunnerOp :=
  | RqRead (workspace : Workspace) (path : string) (offset limit : option Z)
  | RqFind (workspace : Workspace) (glob : option string) (offset limit : option Z)
  | RqVersion (workspace : Workspace) (path : string)
  | RqApplyPatch (workspace : Workspace) (request : RunnerApplyPatchRequest)
  | RqExec (workspace : Workspace) (request : RunnerExecRequest)
  | RqWriteStdin (request : RunnerWriteStdin)
  | RqReadProcess (request : RunnerReadProcess)
  | RqProcessStatus (process_id : string)
  | RqResize (process_id : string) (rows cols : Z)
  | RqTerminate (process_id : string)
  | RqWorkspaceOf (process_id : string)
  | RqTerminateWorkspace (workspace_id : string)
  | RqReplay (request_id : string)
  | RqHello
  | RqClaim (store_id : string)
  | RqDetach
  | RqStop
  | RqRecall (process_ids : list string)
  | RqReconciled (workspace_ids : list string)
  | RqAcknowledge (process_ids : list string)
  | RqRegistration
  | RqPrepare (workspace : Workspace) (request : RunnerExecRequest) (attempt_id : string)
  | RqLaunch (workspace : Workspace) (request : RunnerExecRequest) (attempt_id : string)
  | RqLookup (attempts : list AttemptRef).

Inductive ClaimRefusal :=
  | PeerUid | StoreMismatch | ControllerActive | RequestsRunning | Stopping.

#[export] Instance ClaimRefusal_eq_dec : EqDecision ClaimRefusal.
Proof. solve_decision. Defined.

Definition refusal_as_str (r : ClaimRefusal) : string :=
  match r with
  | PeerUid => "peer_uid" | StoreMismatch => "store_mismatch"
  | ControllerActive => "controller_active" | RequestsRunning => "requests_running"
  | Stopping => "stopping"
  end.

Definition is_transient (r : ClaimRefusal) : bool :=
  match r with ControllerActive | RequestsRunning => true | _ => false end.

Inductive RunnerOpResult `{Reports} :=
  | ResRead (r : ReadResult)
  | ResFind (r : FindResult)
  | ResVersion (version : string)
  | ResApplyPatch (r : RunnerApplyPatchResult)
  | ResExec (r : RunnerExecResult)
  | ResWriteStdin
  | ResReadProcess (r : RunnerReadResult)
  | ResProcessStatus (s : RunnerProcessStatus)
  | ResResize (r : RunnerResizeResult)
  | ResTerminate
  | ResWorkspaceOf (workspace_id : option string)
  | ResTerminateWorkspace (killed : Z)
  | ResHello (protocol : Z) (lifecycle : RunnerLifecycle) (identity : option RunnerIdentity)
      (registration admission launch : bool)
  | ResClaimed (claim : RunnerClaim)
  | ResClaimRefused (refusal : ClaimRefusal) (text : string)
  | ResDetached
  | ResStopped (terminated : Z) (processes : list InventoryEntry)
  | ResRecalled (processes : list RecalledProcess)
  | ResReconciled
  | ResAcknowledged
  | ResRegistration (info : AuthorityInfo)
  | ResPrepared (preparation : Preparation)
  | ResLaunched (report : LaunchReport)
  | ResLookedUp (found : list AttemptLookup).

Record WireEnvelope `{Reports} := mkEnvelope {
  we_protocol : Z;
  we_kind : WireKind;
  we_request_id : option string;
  we_epoch : option Z;
  we_op : option RunnerOp;
  we_ok : option bool;
  we_result : option RunnerOpResult;
  we_error : option ErrorBody;
  we_seq : option Z;
  we_event : option RunnerEvent
}.

Section envelopes.
Context `{Rep : Reports}.

(** [WireEnvelope::request], [with_epoch], [response] and [event]. *)
Definition request (request_id : string) (op : RunnerOp) : WireEnvelope :=
  {| we_protocol := WIRE_PROTOCOL; we_kind := KindRequest; we_request_id := Some request_id;
     we_epoch := None; we_op := Some op; we_ok := None; we_result := None; we_error := None;
     we_seq := None; we_event := None |}.

Definition with_epoch (e : WireEnvelope) (epoch : option Z) : WireEnvelope :=
  {| we_protocol := we_protocol e; we_kind := we_kind e; we_request_id := we_request_id e;
     we_epoch := epoch; we_op := we_op e; we_ok := we_ok e; we_result := we_result e;
     we_error := we_error e; we_seq := we_seq e; we_event := we_event e |}.

Definition response (request_id : string) (result : res RunnerOpResult) : WireEnvelope :=
  let '(ok, value, error) :=
    match result with
    | Ok value => (true, Some value, None)
    | Err error => (false, None, Some error)
    end in
  {| we_protocol := WIRE_PROTOCOL; we_kind := KindResponse; we_request_id := Some request_id;
     we_epoch := None; we_op := None; we_ok := Some ok; we_result := value;
     we_error := error; we_seq := None; we_event := None |}.

Definition event (seq : Z) (e : RunnerEvent) : WireEnvelope :=
  {| we_protocol := WIRE_PROTOCOL; we_kind := KindEvent; we_request_id := None;
     we_epoch := None; we_op := None; we_ok := None; we_result := None; we_error := None;
     we_seq := Some seq; we_event := Some e |}.

(** A cached answer under another request's id. *)
Definition relabelled (request_id : string) (e : WireEnvelope) : WireEnvelope :=
  {| we_protocol := we_protocol e; we_kind := we_kind e; we_request_id := Some request_id;
     we_epoch := we_epoch e; we_op := we_op e; we_ok := we_ok e; we_result := we_result e;
     we_error := we_error e; we_seq := we_seq e; we_event := we_event e |}.

(** [parse_request], of the envelope that [serde_json] read or its error: a request's id, epoch
    and operation, or the response that refuses it. *)
Definition parse_request (payload : result string WireEnvelope)
    : result WireEnvelope (string * option Z * option RunnerOp) :=
  match payload with
  | Err err => Err (response "" (Err (error_body InvalidPatch ("invalid runner rpc: " +:+ err))))
  | Ok e =>
      if bool_decide (we_protocol e <> WIRE_PROTOCOL) || bool_decide (we_kind e <> KindRequest)
      then Err (response (default "" (we_request_id e))
                  (Err (error_body InvalidPatch "runner rpc protocol mismatch")))
      else Ok (default "" (we_request_id e), we_epoch e, we_op e)
  end.

(** [hello], of a worker with DevGuard support; [launches] is whether it registers and has a
    launch helper. *)
Definition hello (launches : bool) (lifecycle : RunnerLifecycle) (identity : RunnerIdentity)
    : RunnerOpResult :=
  ResHello WIRE_PROTOCOL lifecycle (Some identity) true true launches.

End envelopes.

(** [independent_only], [answered_beside], [starts_work], [started_process] and [fenced]. *)
Definition independent_only (op : RunnerOp) : bool :=
  match op with
  | RqClaim _ | RqDetach | RqStop | RqRecall _ | RqReconciled _ | RqAcknowledge _
  | RqLookup _ => true
  | _ => false
  end.

Definition answered_beside (op : RunnerOp) : bool :=
  match op with
  | RqRegistration | RqPrepare _ _ _ | RqLaunch _ _ _ | RqLookup _ => true
  | _ => false
  end.

Definition starts_work (op : RunnerOp) : option string :=
  match op with
  | RqExec ws _ | RqApplyPatch ws _ | RqPrepare ws _ _ | RqLaunch ws _ _ => Some (ws_id ws)
  | _ => None
  end.

Definition started_process (op : RunnerOp) : option string :=
  match op with
  | RqExec _ req | RqPrepare _ req _ | RqLaunch _ req _ => Some (xr_process_id req)
  | _ => None
  end.

Definition fenced (op : RunnerOp) : bool :=
  match op with
  | RqExec _ _ | RqApplyPatch _ _ | RqWriteStdin _ | RqResize _ _ _ | RqTerminate _
  | RqTerminateWorkspace _ | RqStop | RqReconciled _ | RqAcknowledge _
  | RqPrepare _ _ _ | RqLaunch _ _ _ => true
  | _ => false
  end.

(** The refusal of new work until a workspace is reconciled, and of a request that is not its
    controller's. *)
Definition recovery_pending (workspace_id : string) : ErrorBody :=
  error_body RecoveryPending
    ("an earlier gateway started work in workspace `" +:+ workspace_id +:+
     "` on this independent Runner, and this gateway has not reconciled it yet: its processes " +:+
     "can be queried, read, written to, resized and terminated, but nothing new is started there").

Definition stale_controller (text : string) : ErrorBody := error_body StaleController text.

(** * Frames

    A stream is the bytes that are still to be read, up to its end. *)

Definition u32_max : Z := 2^32 - 1.

(** [u32::to_be_bytes] and [u32::from_be_bytes]. *)
Definition byte_at (z k : Z) : ascii := ascii_of_N (Z.to_N (Z.land (Z.shiftr z k) 255)).
Definition to_be_bytes (z : Z) : list ascii :=
  [byte_at z 24; byte_at z 16; byte_at z 8; byte_at z 0].
Definition from_be_bytes (l : list ascii) : Z :=
  foldl (fun acc a => Z.lor (Z.shiftl acc 8) (Z.of_N (N_of_ascii a)))%Z 0%Z l.

(** [write_frame]: the bytes it writes of what [serde_json] made of the envelope. *)
Definition write_frame (json : result string (list ascii)) : result string (list ascii) :=
  payload ← json;
  if bool_decide (Z.of_nat (length payload) <= u32_max)%Z
  then Ok (to_be_bytes (Z.of_nat (length payload)) ++ payload)
  else Err "out of range integral type conversion attempted".

(** [read_exact]: [n] bytes and what follows, or the end of the stream. *)
Definition read_exact (n : nat) (stream : list ascii) : option (list ascii * list ascii) :=
  if bool_decide (n <= length stream) then Some (take n stream, drop n stream) else None.

Inductive FrameRead :=
  | FrameEnd                                       (** [Ok(None)] *)
  | Frame (payload rest : list ascii)              (** [Ok(Some(payload))] *)
  | FrameError (text : string).

Definition read_frame (stream : list ascii) : FrameRead :=
  match read_exact 4 stream with
  | None => FrameEnd
  | Some (len_buf, stream) =>
      let len := from_be_bytes len_buf in
      if bool_decide (len = 0)%Z || bool_decide (MAX_FRAME_BYTES < len)%Z
      then FrameError ("invalid runner frame length " +:+ pretty len)
      else
        match read_exact (Z.to_nat len) stream with
        | Some (payload, rest) => Frame payload rest
        | None => FrameError "early eof"
        end
  end.

(** The frames that a reader takes from a stream, until it ends or cannot be read. Each takes at
    least four bytes, so the stream's length is enough fuel. *)
Fixpoint read_frames (fuel : nat) (stream : list ascii) : list (list ascii) * option string :=
  match fuel with
  | 0 => ([], None)
  | S fuel =>
      match read_frame stream with
      | FrameEnd => ([], None)
      | FrameError text => ([], Some text)
      | Frame payload rest =>
          let '(payloads, ending) := read_frames fuel rest in (payload :: payloads, ending)
      end
  end.

(** * Answers and their replay *)

Section answers.
Context `{Rep : Reports}.

Abbreviation Cache := (list (string * WireEnvelope)).

Definition keep_for_replay (request_id : string) (e : WireEnvelope) (cache : Cache) : Cache :=
  if bool_decide (request_id = "") then cache
  else (if bool_decide (MAX_REPLAY <= length cache) then drop 1 cache else cache)
         ++ [(request_id, e)].

(** [answer], once [dispatch] has its result: [dispatched] is not used for a [Hello], a [Replay]
    or a request without an operation, which ask the Runner nothing. *)
Definition answer (cache : Cache) (request_id : string) (op : option RunnerOp)
    (hello : RunnerOpResult) (dispatched : res RunnerOpResult) : Cache * WireEnvelope :=
  match op with
  | Some (RqReplay original) =>
      (cache,
       match list_find (fun e => e.1 = original) cache with
       | Some (_, (_, cached)) => relabelled request_id cached
       | None => response request_id (Err (error_body InvalidPatch
                   ("unknown runner request_id `" +:+ original +:+ "`")))
       end)
  | Some op =>
      let result := match op with RqHello => Ok hello | _ => dispatched end in
      let envelope := response request_id result in
      (keep_for_replay request_id envelope cache, envelope)
  | None =>
      (cache, response request_id (Err (error_body InvalidPatch "runner rpc missing op")))
  end.

End answers.

(** * Frames read back *)

Definition frame (payload : list ascii) : list ascii :=
  to_be_bytes (Z.of_nat (length payload)) ++ payload.

Definition sendable (payload : list ascii) : Prop :=
  (0 < Z.of_nat (length payload) <= MAX_FRAME_BYTES)%Z.

Lemma byte_at_value z k :
  (0 <= z)%Z -> Z.of_N (N_of_ascii (byte_at z k)) = Z.land (Z.shiftr z k) 255.
Proof.
  intros Hz. unfold byte_at.
  assert (0 <= Z.land (Z.shiftr z k) 255 < 256)%Z as Hb.
  { change 255%Z with (Z.ones 8). rewrite Z.land_ones by lia. apply Z.mod_pos_bound. lia. }
  rewrite N_ascii_embedding by lia. lia.
Qed.


(** A byte shifted in under zero bits is added. *)
Lemma shift_in a b : (0 <= b < 256)%Z -> Z.lor (Z.shiftl a 8) b = (a * 256 + b)%Z.
Proof.
  intros Hb. assert (Hl : (Z.land (Z.shiftl a 8) b = 0)%Z).
  { apply Z.bits_inj'. intros n Hn. rewrite Z.land_spec, Z.bits_0.
    destruct (decide (n < 8)%Z); [by rewrite Z.shiftl_spec_low by lia|].
    rewrite (Z.bits_above_log2 b n), andb_false_r; [done|lia|].
    destruct (decide (b = 0)%Z) as [->|]; [cbn; lia|].
    apply Z.log2_lt_pow2; [lia|]. apply Z.lt_le_trans with (2^8)%Z; [lia|].
    apply Z.pow_le_mono_r; lia. }
  pose proof (Z.add_lor_land (Z.shiftl a 8) b) as H. rewrite Hl, Z.shiftl_mul_pow2 in H by lia.
  rewrite Z.shiftl_mul_pow2 by lia. lia.
Qed.

Lemma be_bytes_roundtrip z : (0 <= z <= u32_max)%Z -> from_be_bytes (to_be_bytes z) = z.
Proof.
  intros Hz. unfold u32_max in Hz. unfold from_be_bytes, to_be_bytes. cbn [foldl].
  rewrite !byte_at_value by lia. change 255%Z with (Z.ones 8).
  rewrite !Z.land_ones, !Z.shiftr_div_pow2 by lia.
  rewrite !shift_in by (apply Z.mod_pos_bound; lia).
  change (2^8)%Z with 256%Z. change (2^0)%Z with 1%Z. change (2^16)%Z with 65536%Z.
  change (2^24)%Z with 16777216%Z. change (2^32)%Z with 4294967296%Z in Hz.
  rewrite Z.div_1_r. Z.to_euclidean_division_equations. lia.
Qed.

Lemma length_to_be_bytes z : length (to_be_bytes z) = 4.
Proof. done. Qed.

Lemma read_exact_app n l rest :
  length l = n -> read_exact n (l ++ rest) = Some (l, rest).
Proof.
  intros <-. unfold read_exact. rewrite bool_decide_eq_true_2 by (rewrite length_app; lia).
  by rewrite take_app_length, drop_app_length.
Qed.

Lemma read_exact_short n l : length l < n -> read_exact n l = None.
Proof. intros H. unfold read_exact. by rewrite bool_decide_eq_false_2 by lia. Qed.

(** A length prefix and what follows it. *)
Lemma read_frame_length len body :
  (0 <= len <= u32_max)%Z ->
  read_frame (to_be_bytes len ++ body) =
  if bool_decide (len = 0)%Z || bool_decide (MAX_FRAME_BYTES < len)%Z
  then FrameError ("invalid runner frame length " +:+ pretty len)
  else match read_exact (Z.to_nat len) body with
       | Some (payload, rest) => Frame payload rest
       | None => FrameError "early eof"
       end.
Proof.
  intros H. unfold read_frame. rewrite read_exact_app by done. by rewrite be_bytes_roundtrip.
Qed.

Lemma sendable_u32 payload : sendable payload -> (Z.of_nat (length payload) <= u32_max)%Z.
Proof. unfold sendable, MAX_FRAME_BYTES, u32_max. lia. Qed.

Lemma read_frame_frame payload rest :
  sendable payload -> read_frame (frame payload ++ rest) = Frame payload rest.
Proof.
  intros H. pose proof (sendable_u32 _ H). unfold frame, sendable in *.
  rewrite <- app_assoc, read_frame_length by lia.
  rewrite !bool_decide_eq_false_2 by lia. cbn.
  by rewrite read_exact_app by (rewrite Nat2Z.id; done).
Qed.

(** A frame that is written reads back as it was, with whatever follows it untouched,
    exactly when its payload is neither empty nor over [MAX_FRAME_BYTES]; a longer payload
    that still fits its length prefix is written all the same, and refused by whoever
    reads it. *)
Theorem frame_roundtrip payload rest :
  match write_frame (Ok payload) with
  | Ok bytes =>
      read_frame (bytes ++ rest) =
      if bool_decide (sendable payload) then Frame payload rest
      else FrameError ("invalid runner frame length " +:+ pretty (Z.of_nat (length payload)))
  | Err _ => (u32_max < Z.of_nat (length payload))%Z
  end.
Proof.
  unfold write_frame. cbn [mbind result_bind]. case_bool_decide as Hlen; [|lia].
  rewrite <- app_assoc, read_frame_length by lia. unfold sendable.
  rewrite read_exact_app by (rewrite Nat2Z.id; done).
  repeat case_bool_decide; cbn; try done; lia.
Qed.

(** The part of a frame that is missing its end. *)
Lemma read_frame_torn payload tail :
  sendable payload -> tail `prefix_of` frame payload -> length tail < length (frame payload) ->
  read_frame tail = if bool_decide (length tail < 4) then FrameEnd else FrameError "early eof".
Proof.
  intros Hs Hp Hlt. case_bool_decide as H4.
  { unfold read_frame. by rewrite read_exact_short by done. }
  assert (exists body, tail = to_be_bytes (Z.of_nat (length payload)) ++ body) as [body ->].
  { exists (drop 4 tail). destruct Hp as [k Hk]. unfold frame in Hk.
    apply (f_equal (take 4)) in Hk. rewrite take_app_le in Hk by (rewrite length_to_be_bytes; lia).
    rewrite take_app_le in Hk by lia. rewrite take_ge in Hk by (by rewrite length_to_be_bytes).
    rewrite Hk. by rewrite take_drop. }
  pose proof (sendable_u32 _ Hs). unfold sendable in Hs. unfold frame in Hlt.
  rewrite !length_app in Hlt. rewrite read_frame_length by lia.
  rewrite !bool_decide_eq_false_2 by lia. cbn. by rewrite read_exact_short by lia.
Qed.

Lemma length_frame payload : length (frame payload) = 4 + length payload.
Proof. unfold frame. by rewrite length_app, length_to_be_bytes. Qed.

Lemma read_frame_shorter stream payload rest :
  read_frame stream = Frame payload rest -> length rest < length stream.
Proof.
  unfold read_frame, read_exact. case_bool_decide as H4; [|done].
  destruct (_ || _); [done|]. case_bool_decide; [|done]. intros [= _ <-].
  rewrite !length_drop. lia.
Qed.

Lemma read_frames_Frame f stream payload rest :
  read_frame stream = Frame payload rest ->
  read_frames (S f) stream = (payload :: (read_frames f rest).1, (read_frames f rest).2).
Proof. intros H. cbn. rewrite H. by destruct (read_frames f rest). Qed.

(** The stream's length is enough fuel. *)
Lemma read_frames_fuel stream f g :
  length stream < f -> length stream < g -> read_frames f stream = read_frames g stream.
Proof.
  revert stream g. induction f as [|f IH]; intros stream [|g]; try lia. intros Hf Hg. cbn.
  destruct (read_frame stream) as [|payload rest|] eqn:E; try done.
  apply read_frame_shorter in E. by rewrite (IH rest g) by lia.
Qed.

Lemma write_frame_Ok payload bytes :
  write_frame (Ok payload) = Ok bytes ->
  bytes = frame payload /\ (Z.of_nat (length payload) <= u32_max)%Z.
Proof. unfold write_frame, frame. cbn [mbind result_bind]. case_bool_decide; [|done]. by intros [= <-]. Qed.

(** How a reader ends at what is left of a stream, the payload of whose next frame is [next]. *)
Definition torn_end (next : option (list ascii)) (tail : list ascii) : option string :=
  if bool_decide (length tail < 4) then None
  else match next with
       | Some p =>
           Some (if bool_decide (sendable p) then "early eof"
                 else "invalid runner frame length " +:+ pretty (Z.of_nat (length p)))
       | None => None
       end.

(** A frame whose payload is empty or over [MAX_FRAME_BYTES] is refused by its length. *)
Lemma read_frame_unsendable payload tail rest cut :
  (Z.of_nat (length payload) <= u32_max)%Z -> ~ sendable payload ->
  cut ++ tail = frame payload ++ rest ->
  read_frame cut = if bool_decide (length cut < 4) then FrameEnd
                   else FrameError ("invalid runner frame length " +:+ pretty (Z.of_nat (length payload))).
Proof.
  intros Hu Hs Hcut. case_bool_decide as H4.
  { unfold read_frame. by rewrite read_exact_short by done. }
  assert (exists body, cut = to_be_bytes (Z.of_nat (length payload)) ++ body) as [body ->].
  { exists (drop 4 cut). unfold frame in Hcut. apply (f_equal (take 4)) in Hcut.
    rewrite take_app_le, <- app_assoc, take_app_le in Hcut by (rewrite ?length_to_be_bytes; lia).
    rewrite (take_ge (to_be_bytes _)) in Hcut by (by rewrite length_to_be_bytes).
    by rewrite <- Hcut, take_drop. }
  rewrite read_frame_length by lia. unfold sendable in Hs. rewrite <- bool_decide_or.
  rewrite bool_decide_eq_true_2 by lia. done.
Qed.

(** C31: However a stream of written frames is cut, the reader takes from it the payloads of the frames
    that are whole in it, in order, up to the first that is empty or over 16 MiB, which is written but
    refused: it ends quietly when the cut falls between frames or in a length prefix, with an error
    when it falls in a payload, and with an error at the length prefix of a payload that is empty or
    over 16 MiB. *)
Theorem cut_stream_reads_whole_frames ps frames cut :
  Forall2 (fun p bytes => write_frame (Ok p) = Ok bytes) ps frames -> cut `prefix_of` mjoin frames ->
  exists k tail,
    cut = mjoin (take k frames) ++ tail /\ Forall sendable (take k ps) /\
    (tail = [] \/ exists p bytes, ps !! k = Some p /\ frames !! k = Some bytes /\
       (sendable p -> tail `prefix_of` bytes /\ length tail < length bytes)) /\
    read_frames (S (length cut)) cut = (take k ps, torn_end (ps !! k) tail).
Proof.
  intros Hw. revert cut. induction Hw as [|p bytes ps frames [-> Hu]%write_frame_Ok Hw IH]; intros cut.
  { intros ->%prefix_nil_inv. exists 0, []. by split_and!; [..|left|]. }
  intros [rest Hk]. rewrite mjoin_cons in Hk. destruct (decide (sendable p)) as [Hp|Hp].
  2: { exists 0, cut. split; [done|]. split; [done|]. split; [right; by eexists _, _|].
    cbn [read_frames]. rewrite (read_frame_unsendable p rest (mjoin frames) cut) by done.
    unfold torn_end. cbn [lookup list_lookup take]. case_bool_decide; [done|].
    by rewrite bool_decide_eq_false_2. }
  destruct (decide (length (frame p) <= length cut)) as [Hle|Hlt].
  - assert (exists cut', cut = frame p ++ cut' /\ mjoin frames = cut' ++ rest) as (cut' & -> & Hcut').
    { apply app_eq_inv in Hk as [(l & Hl & ->)|(l & -> & Hr)]; [|by exists l].
      exists []. rewrite Hl, length_app in Hle. destruct l; [|cbn in Hle; lia].
      rewrite app_nil_r in Hl. by rewrite app_nil_r. }
    destruct (IH cut' ltac:(by exists rest)) as (n & tail & -> & Hsend & Htail & Hr).
    exists (S n), tail. cbn [take lookup list_lookup].
    rewrite mjoin_cons. split; [apply app_assoc|]. split; [by constructor|]. split; [done|].
    rewrite (read_frames_Frame _ _ p (mjoin (take n frames) ++ tail)) by (by apply read_frame_frame).
    rewrite (read_frames_fuel _ _ (S (length (mjoin (take n frames) ++ tail))))
      by (rewrite ?length_app, ?length_frame; lia).
    by rewrite Hr.
  - assert (cut `prefix_of` frame p) as Hpre.
    { apply app_eq_inv in Hk as [(l & -> & _)|(l & -> & _)]; [by exists l|].
      rewrite length_app in Hlt. lia. }
    exists 0, cut. split; [done|]. split; [done|]. split; [right; exists p, (frame p); by split_and!; [..|intros _; split; [|lia]]|].
    cbn [read_frames]. rewrite (read_frame_torn p) by (done || lia).
    unfold torn_end. cbn [lookup list_lookup take]. case_bool_decide; [done|]. by rewrite bool_decide_eq_true_2.
Qed.

(** * What a connection replays *)

Section replay.
Context `{Rep : Reports}.

(** A request that a connection answers in turn, with the [Hello] it would state and what
    [dispatch] makes of it. *)
Record Turn := mkTurn {
  tn_id : string;
  tn_op : option RunnerOp;
  tn_hello : RunnerOpResult;
  tn_dispatched : res RunnerOpResult
}.

Definition serve (turns : list Turn) : list (string * WireEnvelope) :=
  foldl (fun cache t => (answer cache (tn_id t) (tn_op t) (tn_hello t) (tn_dispatched t)).1)
    [] turns.

(** The answer that may be replayed: not a replay, not a refusal of an empty request, and
    under a name. *)
Definition replayable (t : Turn) : option (string * WireEnvelope) :=
  match tn_op t with
  | None | Some (RqReplay _) => None
  | Some op =>
      if bool_decide (tn_id t = "") then None
      else Some (tn_id t, response (tn_id t) (match op with RqHello => Ok (tn_hello t)
                                                          | _ => tn_dispatched t end))
  end.

Definition last_n {A} (n : nat) (l : list A) : list A := drop (length l - n) l.

Lemma last_n_snoc {A} n (l : list A) x :
  (if bool_decide (S n <= length (last_n (S n) l)) then drop 1 (last_n (S n) l)
   else last_n (S n) l) ++ [x] = last_n (S n) (l ++ [x]).
Proof.
  unfold last_n. rewrite length_drop, length_app, Nat.add_1_r. case_bool_decide as H.
  - rewrite drop_drop, drop_app_le by lia. do 2 f_equal. lia.
  - replace (S (length l) - S n) with 0 by lia. by replace (length l - S n) with 0 by lia.
Qed.

Lemma serve_snoc (turns : list Turn) t :
  serve (turns ++ [t])
    = (answer (serve turns) (tn_id t) (tn_op t) (tn_hello t) (tn_dispatched t)).1.
Proof. unfold serve. by rewrite foldl_app. Qed.

Lemma serve_last (turns : list Turn) : serve turns = last_n MAX_REPLAY (omap replayable turns).
Proof.
  induction turns as [|t turns IH] using rev_ind; [done|].
  rewrite serve_snoc, omap_app, IH. unfold replayable. cbn [omap list_omap].
  assert (Hkeep : forall e, keep_for_replay (tn_id t) e (last_n MAX_REPLAY (omap replayable turns))
    = last_n MAX_REPLAY (omap replayable turns ++
        option_list (if bool_decide (tn_id t = "") then None else Some (tn_id t, e)))).
  { intros e. unfold keep_for_replay. case_bool_decide; [by rewrite app_nil_r|].
    apply (last_n_snoc 31). }
  destruct (tn_op t) as [[]|]; cbn [answer fst]; try (by rewrite app_nil_r);
    rewrite Hkeep; by case_bool_decide.
Qed.

(** Whatever a connection answered before, a [Replay] gives again, under its own id, the
    earliest of the last 32 replayable answers to a request of the id that it names: an answer
    to each request but a replay, an empty one and one without an id, in the order answered.
    It is refused exactly when there is none among these, and is not kept itself. *)
Theorem replay_repeats_one_of_the_last_answers (turns : list Turn) (id original : string) h d :
  let kept := last_n MAX_REPLAY (omap replayable turns) in
  let '(cache, e) := answer (serve turns) id (Some (RqReplay original)) h d in
  cache = serve turns /\
  length cache <= MAX_REPLAY /\
  ((exists i given, kept !! i = Some (original, given) /\ e = relabelled id given /\
      forall j x, j < i -> kept !! j = Some x -> x.1 <> original) \/
   ((forall x, x ∈ kept -> x.1 <> original) /\
    e = response id (Err (error_body InvalidPatch
          ("unknown runner request_id `" +:+ original +:+ "`"))))).
Proof.
  cbn zeta. cbn [answer]. split; [done|]. split.
  { rewrite serve_last. unfold last_n. rewrite length_drop. lia. }
  rewrite <- serve_last. destruct (list_find _ (serve turns)) as [[i [name given]]|] eqn:E.
  - apply list_find_Some in E as (Hi & Hn & Hfirst). cbn in Hn. subst name. left.
    exists i, given. split; [done|]. split; [done|]. intros j x Hj Hx. by eapply Hfirst.
  - right. split; [|done]. apply list_find_None in E. by rewrite Forall_forall in E.
Qed.
End replay.

(** Two frames, the second one torn in its payload. *)
Lemma cut_stream_reads_whole_frames_witness :
  let ps := [["a"%char]; ["b"%char; "c"%char]] in
  let cut := take 10 (mjoin (frame <$> ps)) in
  exists k tail,
    cut = mjoin (take k (frame <$> ps)) ++ tail /\
    read_frames (S (length cut)) cut = (take k ps, torn_end (ps !! k) tail).
Proof.
  cbv zeta. destruct (cut_stream_reads_whole_frames [["a"%char]; ["b"%char; "c"%char]]
    (frame <$> [["a"%char]; ["b"%char; "c"%char]]) (take 10 (mjoin (frame <$> [["a"%char]; ["b"%char; "c"%char]]))))
    as (k & tail & Hcut & _ & _ & Hr).
  - repeat constructor.
  - exists ["c"%char]. reflexivity.
  - exists k, tail. split; [exact Hcut|exact Hr].
Defined.
