(* ===== verification/Independent.v ===== *)
(** An independent Runner: [crates/runner/src/wire.rs] above the wire protocol. Its connections,
    which of them controls it and under which epoch, what is refused until a workspace is
    reconciled, its exit events and its stop, as one step per event. The processes themselves
    are [Supervisor]'s.

    Times are nanoseconds, as [Instant]s and [Duration]s are. *)
From S2P Require Import Prelude Domain Policy Output Supervisor Api Recovery Wire.

(** * Who controls an independent Runner

    A [BTreeSet] is a finite set, listed in order. *)

Definition text_le (a b : string) : Prop := string_le a b.

#[export] Instance text_le_dec : RelDecision text_le.
Proof. intros a b. unfold text_le. exact _. Defined.

Definition btree_elements (s : gset string) : list string := merge_sort text_le (elements s).

(** [Controller] names its connection, whose [ended] flag it shares. *)
Record Controller := mkController {
  ct_connection : nat;
  ct_epoch : Z;
  ct_barrier : gset string
}.

Record Control := mkControl {
  co_epoch : Z;
  co_controller : option Controller;
  co_claiming : option nat;
  co_store_id : option string;
  co_started_in : gset string
}.

Definition control_default : Control := mkControl 0 None None None ∅.

Definition set_claiming (c : Control) (claiming : option nat) : Control :=
  mkControl (co_epoch c) (co_controller c) claiming (co_store_id c) (co_started_in c).
Definition set_controller (c : Control) (controller : option Controller) : Control :=
  mkControl (co_epoch c) controller (co_claiming c) (co_store_id c) (co_started_in c).

(** The first part of [take_control]: the refusals that do not wait. [ended] is each
    connection's flag, [peer] the connection's user or why its credentials cannot be read. *)
Definition begin_claim (stopping : bool) (peer : result string Z) (owner_uid : Z)
    (ended : nat -> bool) (connection : nat) (store_id : string) (control : Control)
    : result (ClaimRefusal * string) Control :=
  if stopping then Err (Stopping, "the Runner is stopping")
  else
    _ ← match peer with
        | Ok uid =>
            if bool_decide (uid = owner_uid) then Ok tt
            else Err (PeerUid, "the connection's peer runs as uid " +:+ pretty uid +:+
                               ", and this Runner as uid " +:+ pretty owner_uid)
        | Err err =>
            Err (PeerUid, "the connection's peer credentials could not be read: " +:+ err)
        end;
    if bool_decide (store_id = "")
    then Err (StoreMismatch, "a Claim names the operations database of its gateway")
    else
      _ ← match co_store_id control with
          | Some known =>
              if bool_decide (known = store_id) then Ok tt
              else Err (StoreMismatch, "this Runner was claimed for the operations database " +:+
                                       known +:+ ", not " +:+ store_id)
          | None => Ok tt
          end;
      _ ← match co_controller control with
          | Some controller =>
              if bool_decide (ct_connection controller = connection)
              then Err (ControllerActive, "this connection already controls the Runner, under epoch "
                                          +:+ pretty (ct_epoch controller))
              else if negb (ended (ct_connection controller))
              then Err (ControllerActive, "another connection controls this Runner and is still open")
              else Ok tt
          | None => Ok tt
          end;
      match co_claiming control with
      | Some _ => Err (ControllerActive, "another connection is claiming this Runner")
      | None => Ok (set_claiming control (Some connection))
      end.

(** One turn of [take_control]'s loop. *)
Inductive ClaimTurn :=
  | Granted (epoch : Z) (barrier : gset string) (control : Control)
  | Refusing (refusal : ClaimRefusal) (text : string) (control : Control)
  | Waiting.

Definition turn_claim (stopping own_ended overdue : bool) (claim_wait : Z) (connection : nat)
    (store_id : string) (control : Control) : ClaimTurn :=
  match co_controller control with
  | None =>
      let epoch := (co_epoch control + 1)%Z in
      let barrier := co_started_in control in
      Granted epoch barrier
        (mkControl epoch (Some (mkController connection epoch barrier)) None
           (Some (default store_id (co_store_id control))) (co_started_in control))
  | Some _ =>
      if stopping then Refusing Stopping "the Runner is stopping" (set_claiming control None)
      else if own_ended
      then Refusing RequestsRunning "the connection ended while its Claim waited"
             (set_claiming control None)
      else if overdue
      then Refusing RequestsRunning
             ("the requests of the connection that controlled this Runner did not end within "
                +:+ debug_duration claim_wait)
             (set_claiming control None)
      else Waiting
  end.

Definition not_controlling : ErrorBody := stale_controller
  ("this connection does not control the independent Runner: another connection claimed it, or " +:+
   "this one never did; nothing was started or changed").

(** [Shared::admit]. *)
Definition admit_op (connection : nat) (epoch : option Z) (op : RunnerOp) (control : Control)
    : Control * res unit :=
  match co_controller control with
  | Some controller =>
      if bool_decide (ct_connection controller = connection) then
        let current := ct_epoch controller in
        if fenced op && negb (bool_decide (epoch = Some current)) then
          (control, Err (stale_controller
             ("the request was sent under controller epoch " +:+
              match epoch with None => "none" | Some e => pretty e end +:+
              ", and the Runner is controlled under epoch " +:+ pretty current +:+
              ": nothing was started or changed")))
        else
          match starts_work op with
          | Some ws =>
              if bool_decide (ws ∈ ct_barrier controller)
              then (control, Err (recovery_pending ws))
              else (mkControl (co_epoch control) (co_controller control) (co_claiming control)
                      (co_store_id control) ({[ws]} ∪ co_started_in control), Ok tt)
          | None => (control, Ok tt)
          end
      else (control, Err not_controlling)
  | None => (control, Err not_controlling)
  end.

(** [Shared::reconciled]. *)
Definition reconciled (connection : nat) (workspace_ids : list string) (control : Control)
    : Control :=
  match co_controller control with
  | Some controller =>
      if bool_decide (ct_connection controller = connection)
      then set_controller control
             (Some (mkController connection (ct_epoch controller)
                      (ct_barrier controller ∖ list_to_set workspace_ids)))
      else control
  | None => control
  end.

(** [Shared::release]: what a connection that ended lets go of, and whether it controlled. *)
Definition release (connection : nat) (control : Control) : Control * bool :=
  match co_controller control with
  | Some controller =>
      if bool_decide (ct_connection controller = connection)
      then (set_controller control None, true)
      else (control, false)
  | None => (control, false)
  end.

(** * Connections

    Why a connection stopped reading, and how it ended. *)

Inductive Ending :=
  | EndDetach (request_id : string)
  | EndLost
  | EndStop (request_id : option string).

Inductive Served := ServedDetached | ServedLost | ServedStopped (terminated : Z).

Inductive Phase :=
  | Reading                                        (** waits for its next request *)
  | Claiming (request_id store_id : string) (deadline : Z)
  | Answering (request_id : string) (op : RunnerOp)  (** a request that it answers in turn *)
  | Stopped (ending : Ending)                      (** left its loop *)
  | Draining (ending : Ending)                     (** [ended]; its other requests are awaited *)
  | Closed (served : option Served) (stop_answer : option string).

Section independent.
Context `{Rep : Reports} `{Order : HashOrder}.
(** [CODESPACE_MAX_PROCESSES], the Runner's user, how long a Claim waits, and what its [Hello]
    states. *)
Context (env : option string) (owner_uid claim_wait : Z) (identity : RunnerIdentity)
  (launches : bool).

Record Conn := mkConn {
  cn_peer : result string Z;         (** the peer's user *)
  cn_ended : bool;
  cn_phase : Phase;
  cn_beside : list (string * RunnerOp);
  cn_forwarding : bool;              (** its forwarder runs *)
  cn_cache : list (string * WireEnvelope)
}.

Definition conn_new (peer : result string Z) : Conn := mkConn peer false Reading [] false [].
Definition with_phase (c : Conn) (p : Phase) : Conn :=
  mkConn (cn_peer c) (cn_ended c) p (cn_beside c) (cn_forwarding c) (cn_cache c).
Definition with_ended (c : Conn) : Conn :=
  mkConn (cn_peer c) true (cn_phase c) (cn_beside c) (cn_forwarding c) (cn_cache c).
Definition with_beside (c : Conn) (l : list (string * RunnerOp)) : Conn :=
  mkConn (cn_peer c) (cn_ended c) (cn_phase c) l (cn_forwarding c) (cn_cache c).
Definition with_forwarding (c : Conn) (b : bool) : Conn :=
  mkConn (cn_peer c) (cn_ended c) (cn_phase c) (cn_beside c) b (cn_cache c).
Definition with_cache (c : Conn) (l : list (string * WireEnvelope)) : Conn :=
  mkConn (cn_peer c) (cn_ended c) (cn_phase c) (cn_beside c) (cn_forwarding c) l.

(** The exit events: the processes whose release hook ran, in order, the events that no
    forwarder took yet, and one whose write failed. *)
Record EventHub := mkHub {
  hb_exits : list nat;
  hb_queue : list (Z * string);
  hb_undelivered : option (Z * string)
}.

(** [StopHandle], and what [end_processes] returned. *)
Record StopState := mkStop {
  st_requested : bool;
  st_terminated : Z;
  st_final : option Z
}.

(** The independent Runner: what its connections share, the connections by their number, and
    every frame it wrote, with the connection that it was written to. [iw_names] is the
    [process_id] of each entry of [rn_procs], which the process's tasks hold; [iw_launched]
    the governed processes, whose launches are settled by tasks of their own. *)
Record IndependentRunner := mkIndependent {
  iw_runner : Runner;
  iw_names : list string;
  iw_launched : gset string;
  iw_hub : EventHub;
  iw_control : Control;
  iw_stop : StopState;
  iw_conns : gmap nat Conn;
  iw_next : nat;
  iw_log : list (nat * WireEnvelope)
}.

Definition with_runner (w : IndependentRunner) (r : Runner) : IndependentRunner :=
  mkIndependent r (iw_names w) (iw_launched w) (iw_hub w) (iw_control w) (iw_stop w)
    (iw_conns w) (iw_next w) (iw_log w).
Definition with_names (w : IndependentRunner) (l : list string) : IndependentRunner :=
  mkIndependent (iw_runner w) l (iw_launched w) (iw_hub w) (iw_control w) (iw_stop w)
    (iw_conns w) (iw_next w) (iw_log w).
Definition with_launched (w : IndependentRunner) (l : gset string) : IndependentRunner :=
  mkIndependent (iw_runner w) (iw_names w) l (iw_hub w) (iw_control w) (iw_stop w)
    (iw_conns w) (iw_next w) (iw_log w).
Definition with_hub (w : IndependentRunner) (h : EventHub) : IndependentRunner :=
  mkIndependent (iw_runner w) (iw_names w) (iw_launched w) h (iw_control w) (iw_stop w)
    (iw_conns w) (iw_next w) (iw_log w).
Definition with_control (w : IndependentRunner) (c : Control) : IndependentRunner :=
  mkIndependent (iw_runner w) (iw_names w) (iw_launched w) (iw_hub w) c (iw_stop w)
    (iw_conns w) (iw_next w) (iw_log w).
Definition with_stop (w : IndependentRunner) (s : StopState) : IndependentRunner :=
  mkIndependent (iw_runner w) (iw_names w) (iw_launched w) (iw_hub w) (iw_control w) s
    (iw_conns w) (iw_next w) (iw_log w).
Definition with_next (w : IndependentRunner) (n : nat) : IndependentRunner :=
  mkIndependent (iw_runner w) (iw_names w) (iw_launched w) (iw_hub w) (iw_control w)
    (iw_stop w) (iw_conns w) n (iw_log w).
Definition with_log (w : IndependentRunner) (l : list (nat * WireEnvelope)) : IndependentRunner :=
  mkIndependent (iw_runner w) (iw_names w) (iw_launched w) (iw_hub w) (iw_control w)
    (iw_stop w) (iw_conns w) (iw_next w) l.
Definition with_conn (w : IndependentRunner) (c : nat) (conn : Conn) : IndependentRunner :=
  mkIndependent (iw_runner w) (iw_names w) (iw_launched w) (iw_hub w) (iw_control w)
    (iw_stop w) (<[c := conn]> (iw_conns w)) (iw_next w) (iw_log w).

(** [IndependentRunner::new], over the host worker's runner. *)
Definition DEFAULT_MAX_UNACKNOWLEDGED : nat := 64.

Definition independent_new (r : Runner) : IndependentRunner :=
  mkIndependent (keep_until_acknowledged DEFAULT_MAX_UNACKNOWLEDGED r) [] ∅ (mkHub [] [] None)
    control_default (mkStop false 0 None) ∅ 1 [].

(** [StopHandle::is_requested]. *)
Definition stopping (w : IndependentRunner) : bool := st_requested (iw_stop w).

(** The [ended] flag of each connection. *)
Definition ended_flag (w : IndependentRunner) (c : nat) : bool :=
  match iw_conns w !! c with Some conn => cn_ended conn | None => false end.

(** A response of connection [c]: a write that fails ends the connection's loop. *)
Definition respond (c : nat) (written : bool) (e : WireEnvelope) (next : Conn)
    (w : IndependentRunner) : IndependentRunner :=
  if written then with_conn (with_log w (iw_log w ++ [(c, e)])) c next
  else with_conn w c (with_phase next (Stopped EndLost)).

(** [StopHandle::request] and [terminate]. *)
Definition stop_terminate (world : World) (now : Z) (w : IndependentRunner)
    : IndependentRunner * Z :=
  let '(r, _, n) := terminate_all world now (iw_runner w) in
  let total := as_u32 (st_terminated (iw_stop w) + n) in
  (with_stop (with_runner w r) (mkStop true total (st_final (iw_stop w))), total).

Definition stop_request (world : World) (now : Z) (w : IndependentRunner) : IndependentRunner :=
  fst (stop_terminate world now w).

Definition list_inventory (now : Z) (r : Runner) : Runner * list InventoryEntry :=
  let '(r, l) := inventory now r in (r, (fun e => mkEntry e.1 e.2) <$> l).

(** [Shared::claimed]: the events numbered so far, then every process. *)
Definition claimed (now epoch : Z) (barrier : gset string) (w : IndependentRunner)
    : IndependentRunner * RunnerClaim :=
  let events_through := Z.of_nat (length (hb_exits (iw_hub w))) in
  let '(r, processes) := list_inventory now (iw_runner w) in
  (with_runner w r,
   {| cl_epoch := epoch; cl_previous_controller := negb (bool_decide (barrier = ∅));
      cl_barrier := btree_elements barrier; cl_processes := processes;
      cl_events_through := events_through |}).

(** [Shared::recall]. *)
Fixpoint recall_all (now : Z) (process_ids : list string) (r : Runner)
    : Runner * list RecalledProcess :=
  match process_ids with
  | [] => (r, [])
  | id :: ids =>
      let '(r, recalled) := recall now id r in
      let '(r, l) := recall_all now ids r in
      (r, mkRecalledProcess id recalled :: l)
  end.

Definition note_started (op : RunnerOp) (w : IndependentRunner) : IndependentRunner :=
  match started_process op with
  | Some id => with_runner w (note_received id (iw_runner w))
  | None => w
  end.

(** A request that [connection]'s loop received, at [now]. [written] is whether the response,
    when it writes one, was written. *)
Definition handle_admitted (world : World) (now : Z) (c : nat) (conn : Conn) (request_id : string)
    (op : RunnerOp) (written : bool) (w : IndependentRunner) : IndependentRunner :=
  let answered result w :=
    respond c written (response request_id (Ok result)) conn (note_started op w) in
  match op with
  | RqRecall ids =>
      let '(r, l) := recall_all now ids (iw_runner w) in
      answered (ResRecalled l) (with_runner w r)
  | RqReconciled ids => answered ResReconciled (with_control w (reconciled c ids (iw_control w)))
  | RqAcknowledge ids => answered ResAcknowledged (with_runner w (acknowledge now ids (iw_runner w)))
  | _ =>
      let w := match op with
               | RqLaunch _ req _ => with_launched w ({[xr_process_id req]} ∪ iw_launched w)
               | _ => w
               end in
      if answered_beside op
      then with_conn w c (with_beside conn (cn_beside conn ++ [(request_id, op)]))
      else with_conn w c (with_phase conn (Answering request_id op))
  end.

(** A request without a guard of its own is admitted first; [Err (error_body Internal _)]
    stands for the result that no answer here uses. *)
Definition handle_request (world : World) (now : Z) (c : nat) (conn : Conn)
    (payload : result string WireEnvelope) (written : bool) (w : IndependentRunner)
    : IndependentRunner :=
  match parse_request payload with
  | Err refusal => respond c written refusal (with_phase conn (Stopped EndLost)) w
  | Ok (request_id, epoch, op) =>
      let refuse e w := respond c written (response request_id (Err e)) conn w in
      match op with
      | Some RqDetach => with_conn w c (with_phase conn (Stopped (EndDetach request_id)))
      | Some RqStop =>
          match admit_op c epoch RqStop (iw_control w) with
          | (control, Ok _) =>
              with_conn (stop_request world now (with_control w control)) c
                (with_phase conn (Stopped (EndStop (Some request_id))))
          | (control, Err e) => refuse e (with_control w control)
          end
      | Some (RqClaim store_id) =>
          match begin_claim (stopping w) (cn_peer conn) owner_uid (ended_flag w) c store_id
                  (iw_control w) with
          | Ok control =>
              with_conn (with_control w control) c
                (with_phase conn (Claiming request_id store_id (now + claim_wait)))
          | Err (refusal, text) =>
              respond c written (response request_id (Ok (ResClaimRefused refusal text))) conn w
          end
      | Some RqHello | Some (RqReplay _) | None =>
          let '(cache, e) :=
            answer (cn_cache conn) request_id op (hello launches Independent identity)
              (Err (error_body Internal "")) in
          respond c written e (with_cache conn cache) w
      | Some op =>
          match admit_op c epoch op (iw_control w) with
          | (control, Err e) => refuse e (note_started op (with_control w control))
          | (control, Ok _) =>
              handle_admitted world now c conn request_id op written (with_control w control)
          end
      end
  end.

(** One turn of a waiting Claim, and its answer. *)
Definition handle_turn (now : Z) (c : nat) (conn : Conn) (request_id store_id : string)
    (deadline : Z) (written : bool) (w : IndependentRunner) : IndependentRunner :=
  match turn_claim (stopping w) (cn_ended conn) (bool_decide (deadline <= now)%Z) claim_wait c
          store_id (iw_control w) with
  | Granted epoch barrier control =>
      let '(w, claim) := claimed now epoch barrier (with_control w control) in
      respond c written (response request_id (Ok (ResClaimed claim)))
        (with_forwarding (with_phase conn Reading) written) w
  | Refusing refusal text control =>
      respond c written (response request_id (Ok (ResClaimRefused refusal text)))
        (with_phase conn Reading) (with_control w control)
  | Waiting => w
  end.

(** What [dispatch] and [answer_beside] answer each operation with, when they do not fail. *)
Definition answers_op (op : RunnerOp) (r : RunnerOpResult) : bool :=
  match op, r with
  | RqRead _ _ _ _, ResRead _ | RqFind _ _ _ _, ResFind _ | RqVersion _ _, ResVersion _
  | RqApplyPatch _ _, ResApplyPatch _ | RqExec _ _, ResExec _ | RqWriteStdin _, ResWriteStdin
  | RqReadProcess _, ResReadProcess _ | RqProcessStatus _, ResProcessStatus _
  | RqResize _ _ _, ResResize _ | RqTerminate _, ResTerminate
  | RqWorkspaceOf _, ResWorkspaceOf _ | RqTerminateWorkspace _, ResTerminateWorkspace _
  | RqRegistration, ResRegistration _ | RqPrepare _ _ _, ResPrepared _
  | RqLaunch _ _ _, ResLaunched _ | RqLookup _, ResLookedUp _ => true
  | _, _ => false
  end.

Definition fits (op : RunnerOp) (result : res RunnerOpResult) : bool :=
  match result with Ok r => answers_op op r | Err _ => true end.

(** The end of a request that is answered in turn: [result] is what [dispatch] made of it. *)
Definition handle_answer (c : nat) (conn : Conn) (request_id : string) (op : RunnerOp)
    (result : res RunnerOpResult) (written : bool) (w : IndependentRunner) : IndependentRunner :=
  let '(cache, e) :=
    answer (cn_cache conn) request_id (Some op) (hello launches Independent identity) result in
  respond c written e (with_cache (with_phase conn Reading) cache) (note_started op w).

(** The end of a request that is answered beside the others: a failed write is ignored. *)
Definition handle_beside (c : nat) (conn : Conn) (i : nat) (result : res RunnerOpResult)
    (written : bool) (w : IndependentRunner) : IndependentRunner :=
  match cn_beside conn !! i with
  | Some (request_id, op) =>
      if negb (fits op result) then w else
      let w := note_started op w in
      let w := if written then with_log w (iw_log w ++ [(c, response request_id result)]) else w in
      with_conn w c (with_beside conn (delete i (cn_beside conn)))
  | None => w
  end.

(** After its loop a connection reads no further request and answers its [Detach]. *)
Definition handle_stopped (c : nat) (conn : Conn) (ending : Ending) (written : bool)
    (w : IndependentRunner) : IndependentRunner :=
  let w :=
    match ending with
    | EndDetach request_id =>
        if written then with_log w (iw_log w ++ [(c, response request_id (Ok ResDetached))]) else w
    | _ => w
    end in
  with_conn w c (with_ended (with_phase conn (Draining ending))).

(** Once its other requests ended, its forwarder stops and it lets go of the Runner. *)
Definition handle_close (c : nat) (conn : Conn) (ending : Ending) (w : IndependentRunner)
    : IndependentRunner :=
  match cn_beside conn with
  | _ :: _ => w
  | [] =>
      let '(control, controlled) := release c (iw_control w) in
      let phase :=
        match ending with
        | EndStop (Some request_id) => Closed None (Some request_id)
        | EndDetach _ => Closed (if controlled then Some ServedDetached else None) None
        | EndLost => Closed (if controlled then Some ServedLost else None) None
        | EndStop None => Closed None None
        end in
      with_conn (with_control w control) c (with_forwarding (with_phase conn phase) false)
  end.

(** The event that a forwarder takes next, and the queue after it. *)
Definition next_event (hub : EventHub) : option ((Z * string) * list (Z * string)) :=
  match hb_undelivered hub with
  | Some e => Some (e, hb_queue hub)
  | None => match hb_queue hub with e :: queue => Some (e, queue) | [] => None end
  end.

(** One turn of [forward_events]. *)
Definition handle_forward (c : nat) (conn : Conn) (written : bool) (w : IndependentRunner)
    : IndependentRunner :=
  if cn_forwarding conn then
    let hub := iw_hub w in
    match next_event hub with
    | Some ((seq, id), queue) =>
        if written
        then with_log (with_hub w (mkHub (hb_exits hub) queue None))
               (iw_log w ++ [(c, event seq (ProcessExited id))])
        else with_conn (with_hub w (mkHub (hb_exits hub) queue (Some (seq, id)))) c
               (with_forwarding conn false)
    | None => w
    end
  else w.

(** The release hook of process [p], which its task runs last: the exit event is numbered and
    queued under one lock. *)
Definition handle_exit (p : nat) (w : IndependentRunner) : IndependentRunner :=
  let hub := iw_hub w in
  if is_some (rn_procs (iw_runner w) !! p ≫= pr_completed_at)
     && negb (bool_decide (p ∈ hb_exits hub))
  then
    let exits := hb_exits hub ++ [p] in
    with_hub w (mkHub exits
      (hb_queue hub ++ [(Z.of_nat (length exits), default "" (iw_names w !! p))])
      (hb_undelivered hub))
  else w.

(** Whether every connection ended, as the stop awaits. *)
Definition all_closed (w : IndependentRunner) : bool :=
  forallb (fun e : nat * Conn => match cn_phase e.2 with Closed _ _ => true | _ => false end)
    (map_to_list (iw_conns w)).

(** [end_processes], up to its wait: after every connection ended, whatever still runs is
    terminated. *)
Definition handle_end (world : World) (now : Z) (w : IndependentRunner) : IndependentRunner :=
  if stopping w && all_closed w && is_none (st_final (iw_stop w)) then
    let '(w, total) := stop_terminate world now w in
    with_stop w (mkStop true (st_terminated (iw_stop w)) (Some total))
  else w.

(** After its wait: the inventory, and the answer of a [Stop] that connection [c] sent. *)
Definition handle_stop_answer (c : nat) (conn : Conn) (served : option Served)
    (request_id : string) (now : Z) (written : bool) (w : IndependentRunner)
    : IndependentRunner :=
  match st_final (iw_stop w) with
  | Some total =>
      let '(r, processes) := list_inventory now (iw_runner w) in
      let w := with_conn (with_runner w r) c (with_phase conn (Closed served None)) in
      if written
      then with_log w (iw_log w ++ [(c, response request_id (Ok (ResStopped total processes)))])
      else w
  | None => w
  end.

(** ** What a request may ask of the runner

    [dispatch] and the governed starts: the entry points of [InProcessRunner] that an operation
    in progress reaches. Reads, listings and status queries change nothing but evict, and
    a patch does not reach the runner's processes. *)
Definition reaches_entry (names : list string) (op : RunnerOp) (m : Supervisor.Op) : bool :=
  match op, m with
  | RqExec _ req, OpSpawnBegin _ id argv =>
      bool_decide (id = xr_process_id req) && bool_decide (argv = xr_argv req)
  | RqPrepare _ req _, OpReserve id | RqLaunch _ req _, OpReserve id =>
      bool_decide (id = xr_process_id req)
  | RqExec ws req, OpSpawnEnd id spawned | RqLaunch ws req _, OpSpawnEnd id spawned =>
      bool_decide (id = xr_process_id req) &&
      match spawned with Ok sw => bool_decide (sw_workspace_id sw = ws_id ws) | Err _ => true end
  | RqWriteStdin req, OpTakeStdin p | RqWriteStdin req, OpPutStdin p _ =>
      bool_decide (names !! p = Some (wi_process_id req))
  | RqTerminate id, OpKill id' => bool_decide (id = id')
  | RqTerminateWorkspace ws, OpKillWorkspace ws' => bool_decide (ws = ws')
  | _, _ => false
  end.

(** The operations of a connection that were admitted and have not ended. *)
Definition in_progress (conn : Conn) : list RunnerOp :=
  match cn_phase conn with Answering _ op => [op] | _ => [] end ++ (snd <$> cn_beside conn).

(** What the runner may do at any moment: its processes' own tasks, evictions, the end of a
    reservation, and the kill of a governed process by the task that settles its launch;
    and otherwise what an operation in progress asks of it. *)
Definition may_run (w : IndependentRunner) (m : Supervisor.Op) : bool :=
  match m with
  | OpTask _ _ | OpQuery | OpDropReservation _ => true
  | OpTerminateAll | Supervisor.OpAcknowledge _ | OpNoteReceived _ | OpKeep _ => false
  | _ =>
      match m with OpKill id => bool_decide (id ∈ iw_launched w) | _ => false end
      || existsb (fun e : nat * Conn =>
                    existsb (fun op => reaches_entry (iw_names w) op m) (in_progress e.2))
           (map_to_list (iw_conns w))
  end.

(** A process that is created takes the next index. *)
Definition run_moment (m : Moment) (w : IndependentRunner) : IndependentRunner :=
  if may_run w (mo_op m) then
    let r := Supervisor.step env (iw_runner w) m in
    let w' := with_runner w r in
    match mo_op m with
    | OpSpawnEnd id _ =>
        if bool_decide (length (rn_procs (iw_runner w)) < length (rn_procs r))
        then with_names w' (iw_names w ++ [id]) else w'
    | _ => w'
    end
  else w.

(** ** Steps *)

Inductive Event :=
  | EvAccept (peer : result string Z)            (** the listener yields a connection *)
  | EvStreamEnd (c : nat)                        (** [read_ahead] ends *)
  | EvRequest (c : nat) (world : World) (now : Z) (payload : result string WireEnvelope)
      (written : bool)
  | EvTurn (c : nat) (now : Z) (written : bool)  (** a waiting Claim looks again *)
  | EvAnswer (c : nat) (result : res RunnerOpResult) (written : bool)
  | EvBeside (c i : nat) (result : res RunnerOpResult) (written : bool)
  | EvEnd (c : nat)                              (** no request is left to read *)
  | EvStopSeen (c : nat)
  | EvStopped (c : nat) (written : bool)
  | EvClose (c : nat)
  | EvForward (c : nat) (written : bool)
  | EvExit (p : nat)
  | EvStop (world : World) (now : Z)             (** a signal asks the Runner to stop *)
  | EvEndProcesses (world : World) (now : Z)
  | EvStopAnswer (c : nat) (now : Z) (written : bool)
  | EvMoment (m : Moment).

Definition in_phase (w : IndependentRunner) (c : nat)
    (f : Conn -> Phase -> IndependentRunner) : IndependentRunner :=
  match iw_conns w !! c with Some conn => f conn (cn_phase conn) | None => w end.

(** A request may be received up to the moment a stop is seen, as the two race. *)
Definition wire_step (w : IndependentRunner) (e : Event) : IndependentRunner :=
  match e with
  | EvAccept peer =>
      if stopping w then w
      else with_next (with_conn w (iw_next w) (conn_new peer)) (S (iw_next w))
  | EvStreamEnd c => in_phase w c (fun conn _ => with_conn w c (with_ended conn))
  | EvRequest c world now payload written =>
      in_phase w c (fun conn ph =>
        match ph with
        | Reading => handle_request world now c conn payload written w
        | _ => w
        end)
  | EvTurn c now written =>
      in_phase w c (fun conn ph =>
        match ph with
        | Claiming request_id store_id deadline =>
            handle_turn now c conn request_id store_id deadline written w
        | _ => w
        end)
  | EvAnswer c result written =>
      in_phase w c (fun conn ph =>
        match ph with
        | Answering request_id op =>
            if fits op result then handle_answer c conn request_id op result written w else w
        | _ => w
        end)
  | EvBeside c i result written =>
      in_phase w c (fun conn _ => handle_beside c conn i result written w)
  | EvEnd c =>
      in_phase w c (fun conn ph =>
        match ph with
        | Reading => if cn_ended conn then with_conn w c (with_phase conn (Stopped EndLost)) else w
        | _ => w
        end)
  | EvStopSeen c =>
      in_phase w c (fun conn ph =>
        match ph with
        | Reading => if stopping w then with_conn w c (with_phase conn (Stopped (EndStop None))) else w
        | _ => w
        end)
  | EvStopped c written =>
      in_phase w c (fun conn ph =>
        match ph with Stopped ending => handle_stopped c conn ending written w | _ => w end)
  | EvClose c =>
      in_phase w c (fun conn ph =>
        match ph with Draining ending => handle_close c conn ending w | _ => w end)
  | EvForward c written => in_phase w c (fun conn _ => handle_forward c conn written w)
  | EvExit p => handle_exit p w
  | EvStop world now => stop_request world now w
  | EvEndProcesses world now => handle_end world now w
  | EvStopAnswer c now written =>
      in_phase w c (fun conn ph =>
        match ph with
        | Closed served (Some request_id) =>
            handle_stop_answer c conn served request_id now written w
        | _ => w
        end)
  | EvMoment m => run_moment m w
  end.

Definition wire_run (w : IndependentRunner) (es : list Event) : IndependentRunner :=
  foldl wire_step w es.

End independent.
