(* ===== verification/Control.v ===== *)
(** What an independent Runner ([Independent]) keeps true: who controls it, what its log states,
    where work starts, and how waiting Claims and exit events come to an end. *)
From S2P Require Import Prelude Domain Policy Output Supervisor Api Recovery Wire Independent.

(** * Who controls *)

Section control.
Context `{Rep : Reports} `{Order : HashOrder}.
Context (env : option string) (owner_uid claim_wait : Z) (identity : RunnerIdentity)
  (launches : bool).

Abbreviation step := (wire_step env owner_uid claim_wait identity launches).

Definition controls (k : Control) (c : nat) : Prop := ct_connection <$> co_controller k = Some c.

#[export] Instance controls_dec k c : base.Decision (controls k c).
Proof. unfold controls. exact _. Defined.

Definition is_claiming (conn : Conn) : bool :=
  match cn_phase conn with Claiming _ _ _ => true | _ => false end.
Definition is_closed (conn : Conn) : bool :=
  match cn_phase conn with Closed _ _ => true | _ => false end.

(** A connection with an admitted request in progress, or with a forwarder, controls the
    Runner; the one that is claiming it is recorded; a controller is still there, under
    the last epoch. *)
Record control_ok (k : Control) (m : gmap nat Conn) : Prop := {
  ca_work c conn : m !! c = Some conn -> in_progress conn <> [] -> controls k c;
  ca_forward c conn : m !! c = Some conn -> cn_forwarding conn = true -> controls k c;
  ca_claiming c :
    co_claiming k = Some c <-> exists conn, m !! c = Some conn /\ is_claiming conn = true;
  ca_open ctl : co_controller k = Some ctl ->
    ct_epoch ctl = co_epoch k /\
    exists conn, m !! ct_connection ctl = Some conn /\ is_closed conn = false
}.

(** One connection changes, and the control with it. *)
Lemma control_ok_update k m c k' conn' :
  control_ok k m ->
  (forall d, d <> c -> controls k d -> controls k' d) ->
  (in_progress conn' <> [] -> controls k' c) ->
  (cn_forwarding conn' = true -> controls k' c) ->
  co_claiming k' = (if is_claiming conn' then Some c
                    else if bool_decide (co_claiming k = Some c) then None else co_claiming k) ->
  (is_claiming conn' = true -> co_claiming k = None \/ co_claiming k = Some c) ->
  (forall ctl, co_controller k' = Some ctl -> ct_epoch ctl = co_epoch k' /\
     if bool_decide (ct_connection ctl = c) then is_closed conn' = false
     else controls k (ct_connection ctl)) ->
  control_ok k' (<[c := conn']> m).
Proof.
  intros Hok Hother Hwork Hfwd Hcl Hcl1 Hopen. split.
  - intros d conn [[<- <-]|[Hd Hc]]%lookup_insert_Some; [done|].
    intros Hp. apply Hother; [done|]. by eapply ca_work.
  - intros d conn [[<- <-]|[Hd Hc]]%lookup_insert_Some; [done|].
    intros Hp. apply Hother; [done|]. by eapply ca_forward.
  - intros d. rewrite Hcl. destruct (is_claiming conn') eqn:E.
    + split; [intros [= ->]; exists conn'; by rewrite lookup_insert_eq|].
      intros (conn & [[<- <-]|[Hd Hc]]%lookup_insert_Some & Hc'); [done|].
      assert (co_claiming k = Some d) by (apply (ca_claiming _ _ Hok); eauto).
      destruct (Hcl1 eq_refl); congruence.
    + case_bool_decide as Hk.
      * split; [done|]. intros (conn & [[<- <-]|[Hd Hc]]%lookup_insert_Some & Hc'); [congruence|].
        assert (co_claiming k = Some d) by (apply (ca_claiming _ _ Hok); eauto). congruence.
      * rewrite (ca_claiming _ _ Hok). split; intros (conn & Hc & Hc').
        -- exists conn. rewrite lookup_insert_ne; [done|]. intros ->. apply Hk.
           apply (ca_claiming _ _ Hok). eauto.
        -- apply lookup_insert_Some in Hc as [[<- <-]|[Hd Hc]]; [congruence|eauto].
  - intros ctl Hctl. destruct (Hopen ctl Hctl) as [He Ho]. split; [done|].
    case_bool_decide as Hc.
    + exists conn'. by rewrite Hc, lookup_insert_eq.
    + rewrite lookup_insert_ne by done. unfold controls in Ho.
      destruct (co_controller k) as [ctl'|] eqn:E; [|done]. cbn in Ho. simplify_eq.
      destruct (ca_open _ _ Hok ctl' E) as [_ Ho']. by rewrite Ho in Ho'.
Qed.

(** The control stays, and the connection neither claims nor gains work. *)
Lemma control_ok_same k m c conn conn' :
  control_ok k m -> m !! c = Some conn ->
  (in_progress conn' <> [] -> in_progress conn <> [] \/ controls k c) ->
  (cn_forwarding conn' = true -> cn_forwarding conn = true) ->
  is_claiming conn' = is_claiming conn ->
  (is_closed conn' = true -> is_closed conn = true \/ ~ controls k c) ->
  control_ok k (<[c := conn']> m).
Proof.
  intros Hok Hc Hwork Hfwd Hcl Hclosed.
  pose proof (ca_claiming _ _ Hok c) as Hk. apply (control_ok_update k m); try done.
  - intros Hp. destruct (Hwork Hp) as [?|?]; [by eapply ca_work|done].
  - intros Hf. by eapply ca_forward, Hfwd.
  - rewrite Hcl. destruct (is_claiming conn) eqn:E; [apply Hk; eauto|].
    case_bool_decide as H; [|done]. apply Hk in H as (conn0 & ? & ?). congruence.
  - rewrite Hcl. intros E. right. apply Hk; eauto.
  - intros ctl Hctl. destruct (ca_open _ _ Hok ctl Hctl) as [He (conn0 & Hc0 & Ho)].
    split; [done|]. case_bool_decide as E; [|unfold controls; by rewrite Hctl].
    rewrite E in Hc0. simplify_eq. destruct (is_closed conn') eqn:E'; [|done].
    destruct (Hclosed eq_refl) as [?|Hn]; [congruence|]. destruct Hn. unfold controls.
    by rewrite Hctl.
Qed.

Lemma control_ok_default : control_ok control_default ∅.
Proof. split; try done. intros c. split; [done|]. by intros (conn & ? & _). Qed.

(** A fresh connection. *)
Lemma control_ok_accept k m c peer :
  control_ok k m -> m !! c = None -> control_ok k (<[c := conn_new peer]> m).
Proof.
  intros Hok Hc. apply (control_ok_update k m); try done.
  - cbn. case_bool_decide as H; [|done]. apply (ca_claiming _ _ Hok) in H as (? & ? & _). congruence.
  - intros ctl Hctl. destruct (ca_open _ _ Hok ctl Hctl) as [He (conn0 & Hc0 & Ho)].
    split; [done|]. case_bool_decide as E; [by subst; congruence|]. unfold controls. by rewrite Hctl.
Qed.

(** ** Each step keeps it *)

(** A connection that neither claims nor answers in turn. *)
Definition settled (conn : Conn) : bool :=
  match cn_phase conn with Reading | Stopped _ | Draining _ => true | _ => false end.

Abbreviation ok w := (control_ok (iw_control w) (iw_conns w)).

Lemma control_ok_settled k m c conn next :
  control_ok k m -> m !! c = Some conn -> is_claiming conn = false ->
  settled next = true -> (cn_beside next <> [] -> cn_beside conn <> []) ->
  (cn_forwarding next = true -> cn_forwarding conn = true) ->
  control_ok k (<[c := next]> m).
Proof.
  intros Hok Hc Hcl Hs Hb Hf. unfold settled in Hs.
  apply (control_ok_same k m c conn next Hok Hc); [|done| |].
  - unfold in_progress at 1. intros Hp. left. unfold in_progress.
    assert (cn_beside next <> []) as Hn by (intros E; rewrite E in Hp; by destruct (cn_phase next)).
    apply Hb in Hn. destruct (cn_phase conn); cbn; try done; by destruct (cn_beside conn).
  - rewrite Hcl. unfold is_claiming. by destruct (cn_phase next).
  - unfold is_closed. by destruct (cn_phase next).
Qed.

(** A response of a connection that is not claiming. *)
Lemma respond_ok c written e conn next w :
  ok w -> iw_conns w !! c = Some conn -> is_claiming conn = false ->
  settled next = true -> cn_beside next = cn_beside conn ->
  cn_forwarding next = cn_forwarding conn -> ok (respond c written e next w).
Proof.
  intros Hok Hc Hcl Hs Hb Hf.
  destruct written; cbn; eapply control_ok_settled; eauto; cbn; congruence.
Qed.

Lemma note_started_frame op w :
  iw_control (note_started op w) = iw_control w /\ iw_conns (note_started op w) = iw_conns w /\
  iw_stop (note_started op w) = iw_stop w /\ iw_hub (note_started op w) = iw_hub w /\
  iw_log (note_started op w) = iw_log w /\ iw_names (note_started op w) = iw_names w /\
  iw_next (note_started op w) = iw_next w /\ iw_launched (note_started op w) = iw_launched w.
Proof. unfold note_started. by destruct (started_process op). Qed.

Lemma stop_terminate_frame world now w :
  let w' := (stop_terminate world now w).1 in
  iw_control w' = iw_control w /\ iw_conns w' = iw_conns w /\ iw_hub w' = iw_hub w /\
  iw_log w' = iw_log w /\ iw_names w' = iw_names w /\ iw_next w' = iw_next w /\
  iw_runner w' = Supervisor.step env (iw_runner w) (mkMoment now world OpTerminateAll).
Proof.
  unfold stop_terminate. cbn. by destruct (terminate_all world now (iw_runner w)) as [[r l] n].
Qed.

(** What an admission changes: the workspaces in which work started. *)
Lemma admit_op_frame c epoch op k k' r :
  admit_op c epoch op k = (k', r) ->
  co_epoch k' = co_epoch k /\ co_controller k' = co_controller k /\
  co_claiming k' = co_claiming k /\ co_store_id k' = co_store_id k /\
  co_started_in k ⊆ co_started_in k' /\
  (is_ok r = true -> controls k c /\ (forall ws, starts_work op = Some ws -> ws ∈ co_started_in k')).
Proof.
  unfold admit_op, controls. destruct (co_controller k) as [ctl|] eqn:E;
    [|intros [= <- <-]; by rewrite E].
  destruct (bool_decide_reflect (ct_connection ctl = c)) as [Hc|]; [|intros [= <- <-]; by rewrite E].
  destruct (fenced op && _); [intros [= <- <-]; by rewrite E|].
  destruct (starts_work op) as [ws|] eqn:Ew; [destruct (bool_decide _)|];
    intros [= <- <-]; cbn; rewrite ?E; cbn; rewrite ?Hc;
    repeat split; try done; try set_solver.
Qed.

Lemma control_ok_ext k k' m :
  co_epoch k' = co_epoch k ->
  (fun ctl => (ct_connection ctl, ct_epoch ctl)) <$> co_controller k'
    = (fun ctl => (ct_connection ctl, ct_epoch ctl)) <$> co_controller k ->
  co_claiming k' = co_claiming k -> control_ok k m -> control_ok k' m.
Proof.
  intros He Hc Hcl [H1 H2 H3 H4].
  assert (Hctl : forall c, controls k' c <-> controls k c).
  { intros c. unfold controls. apply (f_equal (fmap fst)) in Hc.
    rewrite <- !option_fmap_compose in Hc.
    change (ct_connection <$> co_controller k' = ct_connection <$> co_controller k) in Hc.
    by rewrite Hc. }
  split; try setoid_rewrite Hctl; try done; [by rewrite Hcl|].
  intros ctl Hk. destruct (co_controller k) as [ctl'|] eqn:E; rewrite Hk in Hc; cbn in Hc;
    simplify_eq. destruct (H4 ctl' eq_refl) as [He' Ho]. by rewrite He, H, H0.
Qed.

Lemma reconciled_frame c ids k m : control_ok k m -> control_ok (reconciled c ids k) m.
Proof.
  unfold reconciled. destruct (co_controller k) as [ctl|] eqn:E; [|done].
  case_bool_decide as Hc; [|done]. apply control_ok_ext; cbn; try done. by rewrite E, <- Hc.
Qed.

Lemma handle_admitted_ok world now c conn id op written w :
  ok w -> iw_conns w !! c = Some conn -> cn_phase conn = Reading ->
  controls (iw_control w) c ->
  ok (handle_admitted world now c conn id op written w).
Proof.
  intros Hok Hc Hph Hctl.
  assert (Hcl : is_claiming conn = false) by (unfold is_claiming; by rewrite Hph).
  assert (Hs : settled conn = true) by (unfold settled; by rewrite Hph).
  assert (Hwork : forall w' conn', iw_control w' = iw_control w -> iw_conns w' = iw_conns w ->
            is_claiming conn' = false -> is_closed conn' = false ->
            cn_forwarding conn' = cn_forwarding conn -> ok (with_conn w' c conn')).
  { intros w' conn' H1 H2 H3 H4 H5. cbn. rewrite H1, H2.
    apply (control_ok_same _ _ _ conn); try done; [auto| | |congruence]; congruence. }
  assert (Hresp : forall result w', iw_control w' = iw_control w -> iw_conns w' = iw_conns w ->
            ok (respond c written (response id (Ok result)) conn (note_started op w'))).
  { intros result w' H1 H2. destruct (note_started_frame op w') as (E1 & E2 & _).
    apply (respond_ok _ _ _ conn); rewrite ?E1, ?E2, ?H1, ?H2; done. }
  assert (Hrec : forall ids result, ok (respond c written (response id (Ok result)) conn
            (note_started op (with_control w (reconciled c ids (iw_control w)))))).
  { intros ids result. destruct (note_started_frame op
      (with_control w (reconciled c ids (iw_control w)))) as (E1 & E2 & _).
    apply (respond_ok _ _ _ conn); rewrite ?E1, ?E2; cbn; try done. by apply reconciled_frame. }
  unfold handle_admitted.
  destruct op; cbn [answered_beside]; try (apply Hwork; cbn; try done;
      unfold is_claiming, is_closed; cbn; by rewrite Hph); auto.
  destruct (recall_all now process_ids (iw_runner w)) as [r l]. by apply Hresp.
Qed.

(** A Claim that waits takes note of its connection. *)
Lemma begin_claim_set stop peer uid ended c store k k' :
  begin_claim stop peer uid ended c store k = Ok k' ->
  k' = set_claiming k (Some c) /\ co_claiming k = None /\ ~ controls k c.
Proof.
  unfold begin_claim, controls. destruct stop; [done|].
  destruct peer as [u|]; cbn; [|done]. destruct (bool_decide (u = uid)); cbn; [|done].
  destruct (bool_decide (store = "")); [done|].
  destruct (co_store_id k) as [known|]; [destruct (bool_decide (known = store)); [|done]|]; cbn;
    (destruct (co_controller k) as [ctl|]; cbn;
      [case_bool_decide; cbn; [done|]; destruct (ended (ct_connection ctl)); cbn; [|done]|]);
    (destruct (co_claiming k); [done|]); intros [= <-]; naive_solver.
Qed.

Lemma begin_claim_ok stop peer uid ended c store k k' m conn id dl :
  control_ok k m -> m !! c = Some conn -> cn_phase conn = Reading ->
  begin_claim stop peer uid ended c store k = Ok k' ->
  control_ok k' (<[c := with_phase conn (Claiming id store dl)]> m).
Proof.
  intros Hok Hc Hph (-> & Hcl & Hn)%begin_claim_set.
  apply (control_ok_update k m); cbn; try done.
  - intros Hp. destruct Hn. apply (ca_work _ _ Hok c conn Hc). unfold in_progress in *.
    by rewrite Hph.
  - intros Hf. exact (ca_forward _ _ Hok c conn Hc Hf).
  - auto.
  - intros ctl Hctl. destruct (ca_open _ _ Hok ctl Hctl) as [He _]. split; [done|].
    case_bool_decide as E; [destruct Hn; unfold controls; by rewrite Hctl, <- E|].
    unfold controls. by rewrite Hctl.
Qed.

Lemma handle_request_ok world now c conn payload written w :
  ok w -> iw_conns w !! c = Some conn -> cn_phase conn = Reading ->
  ok (handle_request owner_uid claim_wait identity launches world now c conn payload written w).
Proof.
  intros Hok Hc Hph.
  assert (Hcl : is_claiming conn = false) by (unfold is_claiming; by rewrite Hph).
  assert (Hs : settled conn = true) by (unfold settled; by rewrite Hph).
  assert (Hadm : forall epoch op k r, admit_op c epoch op (iw_control w) = (k, r) ->
            ok (with_control w k) /\ (is_ok r = true -> controls k c)).
  { intros epoch op k r Hk. destruct (admit_op_frame _ _ _ _ _ _ Hk) as (E1 & E2 & E3 & _ & _ & H).
    split; [apply (control_ok_ext (iw_control w)); cbn; congruence|].
    intros Hr. destruct (H Hr) as [Hctl _]. unfold controls in *. congruence. }
  unfold handle_request. destruct (parse_request payload) as [[[id epoch] op]|refusal].
  2:{ by apply (respond_ok _ _ _ conn). }
  assert (Hop : forall op', ok
     (match admit_op c epoch op' (iw_control w) with
      | (control, Ok _) =>
          handle_admitted world now c conn id op' written (with_control w control)
      | (control, Err e) => respond c written (response id (Err e)) conn
                              (note_started op' (with_control w control))
      end)).
  { intros op'. destruct (admit_op c epoch op' (iw_control w)) as [k [[]|e]] eqn:E;
      destruct (Hadm _ _ _ _ E) as [Hk Hr].
    - apply handle_admitted_ok; try done. by apply Hr.
    - destruct (note_started_frame op' (with_control w k)) as (E1 & E2 & _).
      apply (respond_ok _ _ _ conn); rewrite ?E1, ?E2; done. }
  assert (Hans : forall op', ok
     (let '(cache, e) := answer (cn_cache conn) id op' (hello launches Independent identity)
        (Err (error_body Internal "")) in respond c written e (with_cache conn cache) w)).
  { intros op'. destruct (answer _ _ _ _ _) as [cache e]. by apply (respond_ok _ _ _ conn). }
  destruct op as [[]|]; try apply Hop; try apply Hans.
  - (* Claim *)
    destruct (begin_claim _ _ _ _ _ _ _) as [k|[refusal text]] eqn:E;
      [|by apply (respond_ok _ _ _ conn)].
    cbn. eapply begin_claim_ok; eauto.
  - (* Detach *)
    cbn. by eapply control_ok_settled.
  - (* Stop *)
    destruct (admit_op c epoch RqStop (iw_control w)) as [k [[]|e]] eqn:E;
      destruct (Hadm _ _ _ _ E) as [Hk Hr]; [|by apply (respond_ok _ _ _ conn)].
    unfold stop_request. destruct (stop_terminate_frame world now (with_control w k)) as (E1 & E2 & _).
    cbn -[stop_terminate]. rewrite E1, E2. by eapply control_ok_settled.
Qed.

Lemma claimed_frame now epoch barrier w :
  let '(w', _) := claimed now epoch barrier w in
  iw_control w' = iw_control w /\ iw_conns w' = iw_conns w /\ iw_hub w' = iw_hub w /\
  iw_log w' = iw_log w /\ iw_names w' = iw_names w /\ iw_next w' = iw_next w /\
  iw_stop w' = iw_stop w /\
  iw_runner w' = evict_completed now (iw_runner w).
Proof. unfold claimed, list_inventory. cbn. done. Qed.

Lemma handle_turn_ok now c conn id store dl written w :
  ok w -> iw_conns w !! c = Some conn -> cn_phase conn = Claiming id store dl ->
  ok (handle_turn claim_wait now c conn id store dl written w).
Proof.
  intros Hok Hc Hph.
  assert (Hcl : co_claiming (iw_control w) = Some c).
  { apply (ca_claiming _ _ Hok). exists conn. split; [done|]. unfold is_claiming. by rewrite Hph. }
  assert (Hnext : forall k next, settled next = true -> cn_beside next = cn_beside conn ->
            (cn_forwarding next = true -> cn_forwarding conn = true) ->
            k = set_claiming (iw_control w) None ->
            control_ok k (<[c := next]> (iw_conns w))).
  { intros k next Hs Hb Hf ->. apply (control_ok_update (iw_control w)); cbn; try done.
    - intros Hp. apply (ca_work _ _ Hok c conn Hc). unfold in_progress, settled in *.
      rewrite Hph, <- Hb. by destruct (cn_phase next).
    - intros Hp. apply (ca_forward _ _ Hok c conn Hc). auto.
    - rewrite Hcl, bool_decide_eq_true_2 by done. unfold settled, is_claiming in *.
      by destruct (cn_phase next).
    - intros _. by right.
    - intros ctl Hctl. destruct (ca_open _ _ Hok ctl Hctl) as [He (conn0 & Hc0 & Ho)].
      split; [done|]. case_bool_decide as E; [|unfold controls; by rewrite Hctl].
      unfold settled, is_closed in *. by destruct (cn_phase next). }
  unfold handle_turn, turn_claim. destruct (co_controller (iw_control w)) as [ctl|] eqn:Ectl.
  { destruct (stopping w); [|destruct (cn_ended conn); [|destruct (bool_decide _); [|done]]];
      (destruct written; cbn; by apply Hnext). }
  set (k := mkControl _ _ _ _ _). set (e := (_ + 1)%Z).
  destruct (claimed now e (co_started_in (iw_control w)) (with_control w k)) as [w' claim] eqn:Ew.
  pose proof (claimed_frame now e (co_started_in (iw_control w)) (with_control w k)) as Hf.
  rewrite Ew in Hf. destruct Hf as (E1 & E2 & _).
  assert (Hnew : forall next, settled next = true ->
            control_ok k (<[c := next]> (iw_conns w))).
  { intros next Hs. apply (control_ok_update (iw_control w)); cbn; try done.
    - intros d Hd Hctl. unfold controls in Hctl. by rewrite Ectl in Hctl.
    - rewrite Hcl, bool_decide_eq_true_2 by done. unfold settled, is_claiming in *.
      by destruct (cn_phase next).
    - intros _. by right.
    - intros ctl' [= <-]. split; [done|]. rewrite bool_decide_eq_true_2 by done.
      unfold settled, is_closed in *. by destruct (cn_phase next). }
  destruct written; cbn; rewrite E1, E2; by apply Hnew.
Qed.

Lemma handle_answer_ok c conn id op result written w :
  ok w -> iw_conns w !! c = Some conn -> cn_phase conn = Answering id op ->
  ok (handle_answer identity launches c conn id op result written w).
Proof.
  intros Hok Hc Hph. unfold handle_answer. destruct (answer _ _ _ _ _) as [cache e].
  destruct (note_started_frame op w) as (E1 & E2 & _).
  apply (respond_ok _ _ _ conn); rewrite ?E1, ?E2; try done.
  unfold is_claiming. by rewrite Hph.
Qed.

Lemma handle_beside_ok c conn i result written w :
  ok w -> iw_conns w !! c = Some conn -> ok (handle_beside c conn i result written w).
Proof.
  intros Hok Hc. unfold handle_beside. destruct (cn_beside conn !! i) as [[id op]|] eqn:Ei; [|done].
  destruct (fits op result); [cbn [negb]|done]. destruct (note_started_frame op w) as (E1 & E2 & _).
  assert (Hn : cn_beside conn <> []) by (intros E; by rewrite E in Ei).
  assert (control_ok (iw_control w)
            (<[c := with_beside conn (delete i (cn_beside conn))]> (iw_conns w))).
  { apply (control_ok_same _ _ _ conn); try done; [|auto].
    intros _. left. unfold in_progress. destruct (cn_phase conn); cbn; try done;
      by destruct (cn_beside conn). }
  destruct written; cbn; by rewrite E1, E2.
Qed.

Lemma handle_close_ok c conn ending w :
  ok w -> iw_conns w !! c = Some conn -> cn_phase conn = Draining ending ->
  ok (handle_close c conn ending w).
Proof.
  intros Hok Hc Hph. unfold handle_close. destruct (cn_beside conn) eqn:Eb; [|done].
  assert (Hrel : forall phase, match phase with Closed _ _ => true | _ => false end = true ->
     control_ok (release c (iw_control w)).1
       (<[c := with_forwarding (with_phase conn phase) false]> (iw_conns w))).
  { intros phase Hp. apply (control_ok_update (iw_control w)); try done.
    - intros d Hd Hctl. unfold release, controls in *.
      destruct (co_controller (iw_control w)) as [ctl|] eqn:E; [|done].
      case_bool_decide; [|by cbn; rewrite E]. cbn in Hctl. simplify_eq.
    - intros H. destruct H. unfold in_progress. cbn. rewrite Eb. by destruct phase.
    - assert (co_claiming (release c (iw_control w)).1 = co_claiming (iw_control w)) as ->.
      { unfold release. destruct (co_controller _); [by case_bool_decide|done]. }
      assert (is_claiming (with_forwarding (with_phase conn phase) false) = false) as ->
        by (unfold is_claiming; cbn; by destruct phase).
      case_bool_decide as H; [|done]. apply (ca_claiming _ _ Hok) in H as (conn0 & ? & H).
      unfold is_claiming in H. simplify_eq. by rewrite Hph in H.
    - unfold is_claiming. cbn. by destruct phase.
    - intros ctl. unfold release. destruct (co_controller (iw_control w)) as [ctl0|] eqn:E;
        [|cbn; by rewrite E].
      case_bool_decide as Hd; [done|]. cbn. rewrite E. intros [= <-].
      destruct (ca_open _ _ Hok ctl0 E) as [He _]. split; [done|].
      rewrite bool_decide_eq_false_2 by done. unfold controls. by rewrite E. }
  destruct (release c (iw_control w)) as [k b] eqn:E. cbn. apply Hrel. by destruct ending as [| |[]].
Qed.

Lemma handle_forward_ok c conn written w :
  ok w -> iw_conns w !! c = Some conn -> ok (handle_forward c conn written w).
Proof.
  intros Hok Hc. unfold handle_forward. destruct (cn_forwarding conn) eqn:E; [|done].
  destruct (next_event (iw_hub w)) as [[[seq id] queue]|]; [|done]. destruct written; [done|]. cbn.
  by apply (control_ok_same _ _ _ conn); auto.
Qed.

Lemma handle_stop_answer_frame c conn served id now written w :
  iw_conns w !! c = Some conn -> cn_phase conn = Closed served (Some id) ->
  ok w -> ok (handle_stop_answer c conn served id now written w).
Proof.
  intros Hc Hph Hok. unfold handle_stop_answer. destruct (st_final (iw_stop w)); [|done].
  cbn. assert (control_ok (iw_control w)
                 (<[c := with_phase conn (Closed served None)]> (iw_conns w))).
  { apply (control_ok_same _ _ _ conn); auto; unfold in_progress, is_claiming, is_closed;
      cbn; rewrite Hph; auto. }
  by destruct written.
Qed.

Lemma run_moment_frame m w :
  iw_control (run_moment env m w) = iw_control w /\ iw_conns (run_moment env m w) = iw_conns w /\
  iw_hub (run_moment env m w) = iw_hub w /\ iw_log (run_moment env m w) = iw_log w /\
  iw_next (run_moment env m w) = iw_next w.
Proof.
  unfold run_moment. destruct (may_run w (mo_op m)); [|done].
  destruct (mo_op m); try done. by destruct (bool_decide _).
Qed.

Lemma handle_end_frame world now w :
  iw_control (handle_end world now w) = iw_control w /\
  iw_conns (handle_end world now w) = iw_conns w /\
  iw_hub (handle_end world now w) = iw_hub w /\ iw_log (handle_end world now w) = iw_log w /\
  iw_names (handle_end world now w) = iw_names w /\ iw_next (handle_end world now w) = iw_next w.
Proof.
  unfold handle_end. destruct (_ && _); [|done].
  destruct (stop_terminate_frame world now w) as (E1 & E2 & E3 & E4 & E5 & E6 & _).
  destruct (stop_terminate world now w) as [w' n]. by cbn in *.
Qed.

(** Which connections there are. *)
Definition numbered_conns (w : IndependentRunner) : Prop :=
  forall c conn, iw_conns w !! c = Some conn -> c < iw_next w.

Lemma step_control_ok w e : ok w -> numbered_conns w -> ok (step w e).
Proof.
  intros Hok Hn.
  assert (Hin : forall c f, (forall conn, iw_conns w !! c = Some conn -> ok (f conn (cn_phase conn))) ->
            ok (in_phase w c f)).
  { intros c f Hf. unfold in_phase. destruct (iw_conns w !! c) eqn:E; [by apply Hf|done]. }
  destruct e as [peer|c|c world now payload written|c now written|c result written
                |c i result written|c|c|c written|c|c written|p|world now|world now|c now written|m];
    unfold wire_step.
  - destruct (stopping w); [done|]. apply control_ok_accept; [done|].
    destruct (iw_conns w !! iw_next w) eqn:E; [|done]. apply Hn in E. lia.
  - apply Hin. intros conn Hc. by apply (control_ok_same _ _ _ conn); auto.
  - apply Hin. intros conn Hc. destruct (cn_phase conn) eqn:Hph; try done.
    by apply handle_request_ok.
  - apply Hin. intros conn Hc. destruct (cn_phase conn) eqn:Hph; try done.
    by apply handle_turn_ok.
  - apply Hin. intros conn Hc. destruct (cn_phase conn) eqn:Hph; try done.
    destruct (fits op result); [by apply handle_answer_ok|done].
  - apply Hin. intros conn Hc. by apply handle_beside_ok.
  - apply Hin. intros conn Hc. destruct (cn_phase conn) eqn:Hph; try done.
    destruct (cn_ended conn); [|done]. apply (control_ok_settled _ _ _ conn); auto.
    unfold is_claiming. by rewrite Hph.
  - apply Hin. intros conn Hc. destruct (cn_phase conn) eqn:Hph; try done.
    destruct (stopping w); [|done]. apply (control_ok_settled _ _ _ conn); auto.
    unfold is_claiming. by rewrite Hph.
  - apply Hin. intros conn Hc. destruct (cn_phase conn) eqn:Hph; try done.
    assert (control_ok (iw_control w)
              (<[c := with_ended (with_phase conn (Draining ending))]> (iw_conns w))).
    { apply (control_ok_settled _ _ _ conn); auto. unfold is_claiming. by rewrite Hph. }
    by destruct ending, written.
  - apply Hin. intros conn Hc. destruct (cn_phase conn) eqn:Hph; try done.
    by apply handle_close_ok.
  - apply Hin. intros conn Hc. by apply handle_forward_ok.
  - unfold handle_exit. by destruct (_ && _).
  - destruct (stop_terminate_frame world now w) as (E1 & E2 & _). unfold stop_request.
    by rewrite E1, E2.
  - destruct (handle_end_frame world now w) as (E1 & E2 & _). by rewrite E1, E2.
  - apply Hin. intros conn Hc.
    destruct (cn_phase conn) as [| | | | |served [id|]] eqn:Hph; try done.
    by apply handle_stop_answer_frame.
  - destruct (run_moment_frame m w) as (E1 & E2 & _). by rewrite E1, E2.
Qed.
End control.

(** * What a step changes *)

Section effects.
Context `{Rep : Reports} `{Order : HashOrder}.
Context (env : option string) (owner_uid claim_wait : Z) (identity : RunnerIdentity)
  (launches : bool).

(** Everything but the creation of a process. *)
Definition quiet (m : Moment) : Prop :=
  match mo_op m with OpSpawnEnd _ _ => False | _ => True end.

(** A frame that a Runner writes: the answer of a request, with its result or its error, or a
    numbered event. *)
Definition well_formed (e : WireEnvelope) : Prop :=
  we_protocol e = WIRE_PROTOCOL /\ we_op e = None /\ we_epoch e = None /\
  match we_kind e with
  | KindResponse =>
      is_Some (we_request_id e) /\ we_seq e = None /\ we_event e = None /\
      ((we_ok e = Some true /\ is_Some (we_result e) /\ we_error e = None) \/
       (we_ok e = Some false /\ we_result e = None /\ is_Some (we_error e)))
  | KindEvent =>
      we_request_id e = None /\ is_Some (we_seq e) /\ is_Some (we_event e) /\
      we_ok e = None /\ we_result e = None /\ we_error e = None
  | KindRequest => False
  end.

(** Not the answer to a Claim, and not an event. *)
Definition unclaimed (e : WireEnvelope) : Prop :=
  well_formed e /\ we_event e = None /\
  match we_result e with Some (ResClaimed _) => False | _ => True end.

Lemma response_well_formed id r : well_formed (response id r).
Proof. destruct r; repeat split; eauto 10. Qed.

Lemma event_well_formed seq e : well_formed (event seq e).
Proof. repeat split; eauto. Qed.

Definition caches_ok (w : IndependentRunner) : Prop :=
  forall c conn id e, iw_conns w !! c = Some conn -> (id, e) ∈ cn_cache conn -> unclaimed e.

(** The work that is in progress was begun where it is noted. *)
Definition work_noted (w : IndependentRunner) : Prop :=
  forall c conn op ws, iw_conns w !! c = Some conn -> op ∈ in_progress conn ->
    starts_work op = Some ws -> ws ∈ co_started_in (iw_control w).

(** The steps that neither create a process, deliver an event nor grant a Claim. *)
Record effect (w w' : IndependentRunner) : Prop := {
  ef_runner : exists ms, Forall quiet ms /\ iw_runner w' = Supervisor.run env (iw_runner w) ms;
  ef_names : iw_names w' = iw_names w;
  ef_started : co_started_in (iw_control w) ⊆ co_started_in (iw_control w');
  ef_epoch : co_epoch (iw_control w') = co_epoch (iw_control w);
  ef_hub : iw_hub w' = iw_hub w;
  ef_numbered : numbered_conns w -> numbered_conns w';
  ef_work : work_noted w -> work_noted w';
  ef_log : caches_ok w -> caches_ok w' /\
    exists l, iw_log w' = iw_log w ++ l /\ Forall (fun f => unclaimed f.2) l
}.

#[export] Instance effect_preorder : PreOrder effect.
Proof.
  split.
  - intros w. split; try done; [by exists []|]. intros H. split; [done|].
    exists []. by rewrite app_nil_r.
  - intros a b c [(ms & Hms & Ha) Hn Hs He Hh Hc Hw Hl] [(ns & Hns & Hb) Hn' Hs' He' Hh' Hc' Hw' Hl'].
    split; try congruence; auto.
    + exists (ms ++ ns). split; [by apply Forall_app|]. unfold Supervisor.run in *.
      by rewrite foldl_app, <- Ha.
    + by etrans.
    + intros H. destruct (Hl H) as [H1 (l & E1 & F1)]. destruct (Hl' H1) as [H2 (k & E2 & F2)].
      split; [done|]. exists (l ++ k). rewrite app_assoc, <- E1. split; [done|]. by apply Forall_app.
Qed.

(** The runner alone changes. *)
Lemma effect_runner w m r :
  quiet m -> r = Supervisor.step env (iw_runner w) m -> effect w (with_runner w r).
Proof.
  intros Hq ->. split; try done; [by exists [m]; auto|]. intros H. split; [done|].
  exists []. by rewrite app_nil_r.
Qed.

Definition idle_world : World :=
  mkWorld (fun _ => mkChild None (WaitFailed 0) None) (fun _ => mkPtySession false None).

Lemma effect_note_started op w : effect w (note_started op w).
Proof.
  unfold note_started. destruct (started_process op) as [id|]; [|done].
  by apply (effect_runner w (mkMoment 0 idle_world (OpNoteReceived id))).
Qed.

Lemma effect_evict w now : effect w (with_runner w (evict_completed now (iw_runner w))).
Proof. by apply (effect_runner w (mkMoment now idle_world OpQuery)). Qed.

Lemma effect_recall_all now ids w :
  effect w (with_runner w (recall_all now ids (iw_runner w)).1).
Proof.
  revert w. induction ids as [|id ids IH]; intros w; [by destruct w|]. cbn.
  specialize (IH (with_runner w (evict_completed now (iw_runner w)))). cbn in IH.
  destruct (recall_all now ids (evict_completed now (iw_runner w))) as [r l].
  etrans; [apply effect_evict|exact IH].
Qed.

Lemma effect_acknowledge now ids w :
  effect w (with_runner w (acknowledge now ids (iw_runner w))).
Proof. by apply (effect_runner w (mkMoment now idle_world (Supervisor.OpAcknowledge ids))). Qed.

Lemma effect_stop_terminate world now w : effect w (stop_terminate world now w).1.
Proof.
  unfold stop_terminate. destruct (terminate_all world now (iw_runner w)) as [[r l] n] eqn:E.
  cbn. assert (r = Supervisor.step env (iw_runner w) (mkMoment now world OpTerminateAll)) as ->
    by (unfold Supervisor.step; cbn [mo_op mo_world mo_now]; by rewrite E).
  split; try done; [by exists [mkMoment now world OpTerminateAll]; repeat constructor|].
  intros H. split; [done|]. exists []. by rewrite app_nil_r.
Qed.

(** The control changes, and no epoch or work with it. *)
Lemma effect_control w k :
  co_epoch k = co_epoch (iw_control w) -> co_started_in (iw_control w) ⊆ co_started_in k ->
  effect w (with_control w k).
Proof.
  intros He Hs. split; try done; [by exists []| |].
  - intros H c conn op ws H1 H2 H3. apply Hs. by eapply H.
  - intros H. split; [done|]. exists []. by rewrite app_nil_r.
Qed.

(** A connection changes. *)
Lemma effect_conn w c conn conn' :
  iw_conns w !! c = Some conn ->
  (forall op ws, op ∈ in_progress conn' -> starts_work op = Some ws ->
     op ∈ in_progress conn \/ ws ∈ co_started_in (iw_control w)) ->
  (forall id e, (id, e) ∈ cn_cache conn' -> (id, e) ∈ cn_cache conn \/ unclaimed e) ->
  effect w (with_conn w c conn').
Proof.
  intros Hc Hw Hca. split; try done; [by exists []|..]; unfold numbered_conns, work_noted, caches_ok; cbn.
  - intros Hn d conn0 [[<- _]|[_ Hd]]%lookup_insert_Some; [by eapply Hn|by eapply Hn].
  - intros Hn d conn0 op ws [[<- <-]|[_ Hd]]%lookup_insert_Some; [|by eapply Hn].
    intros Hin Hst. destruct (Hw op ws Hin Hst); [by eapply Hn|done].
  - intros Hn. split; [|exists []; by rewrite app_nil_r].
    intros d conn0 id e [[<- <-]|[_ Hd]]%lookup_insert_Some; [|by eapply Hn].
    intros Hin. destruct (Hca id e Hin); [by eapply Hn|done].
Qed.

Lemma effect_log w l c e :
  l = iw_log w ++ [(c, e)] -> (caches_ok w -> unclaimed e) -> effect w (with_log w l).
Proof.
  intros -> He. split; try done; [by exists []|]. intros H. split; [done|].
  exists [(c, e)]. split; [done|]. apply Forall_singleton. auto.
Qed.

Lemma effect_respond w c written e conn next :
  iw_conns w !! c = Some conn ->
  (caches_ok w -> unclaimed e) ->
  (forall op, op ∈ in_progress next -> op ∈ in_progress conn) ->
  (forall op, op ∈ in_progress (with_phase next (Stopped EndLost)) -> op ∈ in_progress conn) ->
  (forall id e, (id, e) ∈ cn_cache next -> (id, e) ∈ cn_cache conn \/ unclaimed e) ->
  effect w (respond c written e next w).
Proof.
  intros Hc He Hw Hw' Hca. unfold respond. destruct written.
  - etrans; [by eapply effect_log|]. apply (effect_conn _ _ conn); [done|..]; auto.
  - apply (effect_conn _ _ conn); auto.
Qed.
End effects.

(** ** Every handler's effect *)

Section handlers.
Context `{Rep : Reports} `{Order : HashOrder}.
Context (env : option string) (owner_uid claim_wait : Z) (identity : RunnerIdentity)
  (launches : bool).

Abbreviation effect := (effect env).

Lemma response_unclaimed id r :
  (forall claim, r <> Ok (ResClaimed claim)) -> unclaimed (response id r).
Proof.
  intros H. split; [apply response_well_formed|].
  destruct r as [[]|]; split; try done. by destruct (H claim).
Qed.

Lemma relabelled_unclaimed id e : unclaimed e -> unclaimed (relabelled id e).
Proof.
  destruct e as [p k i ep op o r er s ev]. unfold unclaimed, well_formed. cbn.
  destruct k; [naive_solver| |naive_solver].
  intros ((H1 & H2 & H3 & H4 & H5) & H6). repeat split; naive_solver.
Qed.

Lemma answers_unclaimed op r : answers_op op r = true -> forall claim, r <> ResClaimed claim.
Proof. by intros Ha claim ->; destruct op. Qed.

Lemma keep_for_replay_elem id e cache x :
  x ∈ keep_for_replay id e cache -> x ∈ cache \/ x = (id, e).
Proof.
  unfold keep_for_replay. destruct (bool_decide (id = "")); [by left|].
  intros [H|H%list_elem_of_singleton]%elem_of_app; [left|by right].
  destruct (bool_decide _); [|done]. destruct cache; [done|]. by right.
Qed.

(** What is answered is never a Claim's answer. *)
Lemma answer_unclaimed cache id op h d cache' e :
  answer cache id op h d = (cache', e) ->
  (forall i x, (i, x) ∈ cache -> unclaimed x) ->
  (forall claim, h <> ResClaimed claim) -> (forall claim, d <> Ok (ResClaimed claim)) ->
  unclaimed e.
Proof.
  intros Ha Hc Hh Hd. unfold answer in Ha.
  destruct op as [op|]; [|injection Ha as <- <-; by apply response_unclaimed].
  destruct op; injection Ha as <- <-; try by apply response_unclaimed.
  - destruct (list_find (fun e0 => e0.1 = request_id) cache) as [[i [j x]]|] eqn:E;
      [|by apply response_unclaimed].
    apply list_find_Some in E as (E & _). apply relabelled_unclaimed.
    apply (Hc j). by eapply list_elem_of_lookup_2.
  - apply response_unclaimed. intros claim [= ->]. by eapply Hh.
Qed.

(** What is newly kept is never a Claim's answer. *)
Lemma answer_cache_new cache id op h d cache' e i x :
  answer cache id op h d = (cache', e) ->
  (forall claim, h <> ResClaimed claim) -> (forall claim, d <> Ok (ResClaimed claim)) ->
  (i, x) ∈ cache' -> (i, x) ∈ cache \/ unclaimed x.
Proof.
  intros Ha Hh Hd. unfold answer in Ha.
  assert (Hkeep : forall r, (forall claim, r <> Ok (ResClaimed claim)) ->
            (i, x) ∈ keep_for_replay id (response id r) cache -> (i, x) ∈ cache \/ unclaimed x).
  { intros r Hr [H|[= -> ->]]%keep_for_replay_elem; [by left|]. right. by apply response_unclaimed. }
  destruct op as [op|]; [|injection Ha as <- <-; auto].
  destruct op; injection Ha as <- <-; eauto. apply Hkeep. intros claim [= ->]. by eapply Hh.
Qed.

Lemma in_progress_reading conn conn' op :
  (cn_phase conn' = Reading \/ exists e, cn_phase conn' = Stopped e) ->
  cn_beside conn' = cn_beside conn -> op ∈ in_progress conn' -> op ∈ in_progress conn.
Proof.
  unfold in_progress. intros [-> | [e ->]] ->; cbn; intros H; apply elem_of_app; by right.
Qed.

(** A plain response of a connection that reads on. *)
Lemma effect_answered w c written id r conn next :
  iw_conns w !! c = Some conn -> (forall claim, r <> Ok (ResClaimed claim)) ->
  cn_phase next = Reading \/ (exists e, cn_phase next = Stopped e) ->
  cn_beside next = cn_beside conn -> cn_cache next = cn_cache conn ->
  effect w (respond c written (response id r) next w).
Proof.
  intros Hc Hr Hph Hb Hca. apply (effect_respond env w c written _ conn); try done.
  - intros _. by apply response_unclaimed.
  - intros op. by apply in_progress_reading.
  - intros op. apply in_progress_reading; [right; by eexists|done].
  - rewrite Hca. auto.
Qed.

Lemma effect_handle_admitted world now c conn id op written w k epoch :
  iw_conns w !! c = Some conn -> cn_phase conn = Reading ->
  admit_op c epoch op (iw_control w) = (k, Ok tt) ->
  effect w (handle_admitted world now c conn id op written (with_control w k)).
Proof.
  intros Hc Hph Hk. destruct (admit_op_frame _ _ _ _ _ _ Hk) as (E1 & _ & _ & _ & Hsub & Hr).
  destruct (Hr eq_refl) as [_ Hws].
  etrans; [by apply (effect_control env w k)|]. set (w1 := with_control w k).
  assert (Hans : forall result w2, effect w1 w2 -> iw_conns w2 = iw_conns w ->
            (forall claim, result <> ResClaimed claim) ->
            effect w1 (respond c written (response id (Ok result)) conn (note_started op w2))).
  { intros result w2 H2 Hc2 Hn. etrans; [exact H2|]. etrans; [apply effect_note_started|].
    apply (effect_answered _ _ _ _ _ conn); auto; [|congruence].
    destruct (note_started_frame op w2) as (_ & -> & _). by rewrite Hc2. }
  assert (Hwork : forall conn', cn_cache conn' = cn_cache conn ->
            (forall o, o ∈ in_progress conn' -> o ∈ in_progress conn \/ o = op) ->
            forall w2, effect w1 w2 -> iw_conns w2 = iw_conns w -> iw_control w2 = k ->
            effect w1 (with_conn w2 c conn')).
  { intros conn' Hca Hin w2 H2 Hc2 Hk2. etrans; [exact H2|]. apply (effect_conn env _ _ conn).
    - by rewrite Hc2.
    - intros o ws Ho Hst. rewrite Hk2. destruct (Hin o Ho) as [?| ->]; [by left|right; auto].
    - rewrite Hca. auto. }
  assert (Hans' : forall o, o ∈ in_progress (with_phase conn (Answering id op)) ->
            o ∈ in_progress conn \/ o = op).
  { intros o. unfold in_progress. cbn. intros [->|H]%elem_of_cons; [by right|].
    left. apply elem_of_app. by right. }
  assert (Hbes : forall o, o ∈ in_progress (with_beside conn (cn_beside conn ++ [(id, op)])) ->
            o ∈ in_progress conn \/ o = op).
  { intros o. unfold in_progress. cbn. rewrite Hph, fmap_app. cbn.
    intros [H|H%list_elem_of_singleton]%elem_of_app; auto. }
  assert (Hlaunch : forall l, effect w1 (with_launched w1 l)).
  { intros l. split; try done; [by exists []|]. intros H. split; [done|].
    exists []. by rewrite app_nil_r. }
  unfold handle_admitted.
  destruct op; cbn [answered_beside]; 
    try (by apply (Hwork (with_phase conn _) eq_refl Hans' w1 (reflexivity w1)));
    try (by apply (Hwork (with_beside conn _) eq_refl Hbes w1 (reflexivity w1))).
  - pose proof (effect_recall_all env now process_ids w1) as Hre.
    destruct (recall_all now process_ids (iw_runner w1)) as [r l]. by apply Hans.
  - apply Hans; try done. apply effect_control; unfold reconciled;
      destruct (co_controller k) eqn:E; cbn; rewrite ?E; try case_bool_decide; done.
  - apply Hans; try done. apply effect_acknowledge.
  - by apply (Hwork (with_beside conn _) eq_refl Hbes _ (Hlaunch _)).
Qed.

Lemma hello_unclaimed launched l i : forall claim, hello launched l i <> ResClaimed claim.
Proof. done. Qed.

Lemma effect_answer w c written conn next id op d :
  iw_conns w !! c = Some conn -> (forall claim, d <> Ok (ResClaimed claim)) ->
  (forall op', op' ∈ in_progress next -> op' ∈ in_progress conn) ->
  (forall op', op' ∈ in_progress (with_phase next (Stopped EndLost)) -> op' ∈ in_progress conn) ->
  effect w (let '(cache, e) := answer (cn_cache conn) id op (hello launches Independent identity) d
            in respond c written e (with_cache next cache) w).
Proof.
  intros Hc Hd Hw Hw'. destruct (answer _ _ _ _ _) as [cache e] eqn:E.
  apply (effect_respond env w c written _ conn); try done.
  - intros H. eapply answer_unclaimed; eauto using hello_unclaimed.
  - intros i x. eapply answer_cache_new; eauto using hello_unclaimed.
Qed.

Lemma effect_same_conn w c conn next :
  iw_conns w !! c = Some conn ->
   (forall op, op ∈ in_progress next -> op ∈ in_progress conn) -> cn_cache next = cn_cache conn ->
  effect w (with_conn w c next).
Proof.
  intros Hc Hw Hca. apply (effect_conn env w c conn); [done|auto|]. rewrite Hca. auto.
Qed.

Lemma effect_handle_request world now c conn payload written w :
  iw_conns w !! c = Some conn -> cn_phase conn = Reading ->
  effect w (handle_request owner_uid claim_wait identity launches world now c conn payload
              written w).
Proof.
  intros Hc Hph. unfold handle_request.
  destruct (parse_request payload) as [[[id epoch] op]|refusal] eqn:Ep.
  2:{ apply (effect_respond env w c written _ conn); auto; try done.
      - intros _. unfold parse_request in Ep.
        destruct payload; [case_match|]; simplify_eq; by apply response_unclaimed.
      - intros op. apply in_progress_reading; [right; by eexists|done].
      - intros op. apply in_progress_reading; [right; by eexists|done]. }
  assert (Hrefuse : forall e w', effect w w' -> iw_conns w' = iw_conns w ->
            effect w (respond c written (response id (Err e)) conn w')).
  { intros e w' He Hcw. etrans; [exact He|]. apply (effect_answered _ _ _ _ _ conn); auto; try done.
    by rewrite Hcw. }
  assert (Hop : forall op', effect w
     (match admit_op c epoch op' (iw_control w) with
      | (control, Ok _) =>
          handle_admitted world now c conn id op' written (with_control w control)
      | (control, Err e) => respond c written (response id (Err e)) conn
                              (note_started op' (with_control w control))
      end)).
  { intros op'. destruct (admit_op c epoch op' (iw_control w)) as [k [[]|e]] eqn:E.
    - by eapply effect_handle_admitted.
    - destruct (admit_op_frame _ _ _ _ _ _ E) as (E1 & _ & _ & _ & Hsub & _). apply Hrefuse.
      + etrans; [by apply effect_control|]. apply effect_note_started.
      + by destruct (note_started_frame op' (with_control w k)) as (_ & -> & _). }
  assert (Hans : forall op', effect w
     (let '(cache, e) := answer (cn_cache conn) id op' (hello launches Independent identity)
        (Err (error_body Internal "")) in respond c written e (with_cache conn cache) w)).
  { intros op'. apply effect_answer; try done.
    intros o. apply in_progress_reading; [right; by eexists|done]. }
  destruct op as [[]|]; try apply Hop; try apply Hans.
  - destruct (begin_claim _ _ _ _ _ _ _) as [k|[refusal text]] eqn:E.
    + apply begin_claim_set in E as (-> & _).
      etrans; [by apply (effect_control env w (set_claiming (iw_control w) (Some c)))|].
      apply (effect_same_conn _ _ conn); auto; try done.
      intros o Ho. unfold in_progress in *. by rewrite Hph.
    + by apply (effect_answered _ _ _ _ _ conn); auto.
  - apply (effect_same_conn _ _ conn); auto.
    intros o. apply in_progress_reading; [right; by eexists|done].
  - destruct (admit_op c epoch RqStop (iw_control w)) as [k [[]|e]] eqn:E;
      destruct (admit_op_frame _ _ _ _ _ _ E) as (E1 & _ & _ & _ & Hsub & _).
    + etrans; [by apply (effect_control env w k)|].
      etrans; [apply (effect_stop_terminate env world now)|].
      apply (effect_same_conn _ _ conn); auto.
      * by destruct (stop_terminate_frame env world now (with_control w k)) as (_ & -> & _).
      * intros o. apply in_progress_reading; [right; by eexists|done].
    + apply Hrefuse; [|done]. by apply effect_control.
Qed.

Lemma effect_handle_answer w c conn id op result written :
  iw_conns w !! c = Some conn -> cn_phase conn = Answering id op -> fits op result = true ->
  effect w (handle_answer identity launches c conn id op result written w).
Proof.
  intros Hc Hph Hfits. unfold handle_answer.
  assert (Hd : forall claim, result <> Ok (ResClaimed claim)).
  { intros claim ->. by destruct op. }
  pose proof (effect_answer (note_started op w) c written conn (with_phase conn Reading) id
    (Some op) result) as H.
  destruct (answer _ _ _ _ _) as [cache e]. etrans; [apply effect_note_started|].
  apply H; [|done|..].
  - by destruct (note_started_frame op w) as (_ & -> & _).
  - intros o. apply in_progress_reading; auto.
  - intros o. apply in_progress_reading; [right; by eexists|done].
Qed.

Lemma in_progress_delete conn i op :
  op ∈ in_progress (with_beside conn (delete i (cn_beside conn))) -> op ∈ in_progress conn.
Proof.
  unfold in_progress. cbn. rewrite !elem_of_app. intros [H|H]; [by left|right].
  apply list_elem_of_fmap in H as (x & -> & Hx). apply list_elem_of_fmap. exists x. split; [done|].
  eapply elem_of_submseteq; [exact Hx|]. apply sublist_submseteq, sublist_delete.
Qed.

Lemma effect_handle_beside w c conn i result written :
  iw_conns w !! c = Some conn -> effect w (handle_beside c conn i result written w).
Proof.
  intros Hc. unfold handle_beside. destruct (cn_beside conn !! i) as [[id op]|] eqn:Ei; [|done].
  destruct (fits op result) eqn:Hfits; [cbn [negb]|done].
  etrans; [apply (effect_note_started env op w)|].
  etrans; [|apply (effect_same_conn _ _ conn)].
  - destruct written; [|reflexivity]. eapply effect_log; [done|]. intros _. apply response_unclaimed.
    intros claim ->. by destruct op.
  - destruct (note_started_frame op w) as (_ & E & _). by destruct written; cbn; rewrite E.
  - intros o. apply in_progress_delete.
  - done.
Qed.

Lemma effect_handle_stopped w c conn ending written :
  iw_conns w !! c = Some conn -> cn_phase conn = Stopped ending ->
  effect w (handle_stopped c conn ending written w).
Proof.
  intros Hc Hph. unfold handle_stopped.
  assert (Hconn : forall w', iw_conns w' = iw_conns w ->
            effect w' (with_conn w' c (with_ended (with_phase conn (Draining ending))))).
  { intros w' Hcw. apply (effect_same_conn _ _ conn); [by rewrite Hcw| |done].
    intros o. unfold in_progress. cbn. by rewrite Hph. }
  destruct ending as [id| |o]; [destruct written| |]; cbn; try by apply Hconn.
  etrans; [|by apply Hconn].
  eapply effect_log; [done|]. intros _. by apply (response_unclaimed id (Ok ResDetached)).
Qed.

Lemma effect_handle_close w c conn ending :
  iw_conns w !! c = Some conn -> cn_phase conn = Draining ending ->
  effect w (handle_close c conn ending w).
Proof.
  intros Hc Hph. unfold handle_close. destruct (cn_beside conn) eqn:Eb; [|done].
  destruct (release c (iw_control w)) as [k controlled] eqn:Er.
  etrans; [apply (effect_control env w k)|apply (effect_same_conn _ _ conn)]; try done.
  - unfold release in Er. by repeat case_match; simplify_eq.
  - unfold release in Er. by repeat case_match; simplify_eq.
  - intros o. unfold in_progress. cbn. rewrite Eb, app_nil_r.
    destruct ending as [| |[]]; by intros ?%elem_of_nil.
Qed.

Lemma effect_handle_end w world now : effect w (handle_end world now w).
Proof.
  unfold handle_end. destruct (_ && _); [|done].
  pose proof (effect_stop_terminate env world now w) as H.
  destruct (stop_terminate world now w) as [w' n]. etrans; [exact H|]. cbn.
  split; try done; [by exists []|]. intros Hca. split; [done|]. exists []. by rewrite app_nil_r.
Qed.

Lemma effect_stop_answer w c conn served id now written :
  iw_conns w !! c = Some conn -> cn_phase conn = Closed served (Some id) ->
  effect w (handle_stop_answer c conn served id now written w).
Proof.
  intros Hc Hph. unfold handle_stop_answer. destruct (st_final (iw_stop w)); [|done].
  unfold list_inventory, inventory. cbn.
  etrans; [apply (effect_evict env w now)|]. etrans.
  - apply (effect_same_conn _ c conn (with_phase conn (Closed served None))); [done| |done].
    intros o. unfold in_progress. cbn. by rewrite Hph.
  - destruct written; [|done]. eapply effect_log; [done|].
    intros _. by eapply (response_unclaimed id (Ok (ResStopped _ _))).
Qed.

(** The steps that have an effect beyond this: an event is delivered or numbered, the runner
    moves on its own, a Claim is granted. *)
Definition special (w : IndependentRunner) (e : Event) : bool :=
  match e with
  | EvForward _ _ | EvExit _ | EvMoment _ => true
  | EvTurn _ _ _ => is_none (co_controller (iw_control w))
  | _ => false
  end.

Abbreviation step := (wire_step env owner_uid claim_wait identity launches).

Lemma step_effect w e : special w e = false -> effect w (step w e).
Proof.
  intros Hsp.
  assert (Hin : forall c f,
            (forall conn, iw_conns w !! c = Some conn -> effect w (f conn (cn_phase conn))) ->
            effect w (in_phase w c f)).
  { intros c f Hf. unfold in_phase. destruct (iw_conns w !! c) eqn:E; [by apply Hf|done]. }
  destruct e as [peer|c|c world now payload written|c now written|c result written
                |c i result written|c|c|c written|c|c written|p|world now|world now|c now written|m];
    try done; unfold wire_step.
  - destruct (stopping w); [done|].
    split; try done; [by exists []|..]; unfold numbered_conns, work_noted, caches_ok; cbn.
    + intros H c conn [[<- _]|[_ Hc]]%lookup_insert_Some; [lia|]. apply H in Hc. lia.
    + intros H c conn op ws [[_ <-]|[_ Hc]]%lookup_insert_Some; [by intros ?%elem_of_nil|].
      by eapply H.
    + intros H. split; [|exists []; by rewrite app_nil_r].
      intros c conn id e [[_ <-]|[_ Hc]]%lookup_insert_Some; [by intros ?%elem_of_nil|].
      by eapply H.
  - apply Hin. intros conn Hc. by apply (effect_same_conn _ _ conn).
  - apply Hin. intros conn Hc. destruct (cn_phase conn) eqn:Hph; try done.
    by apply effect_handle_request.
  - apply Hin. intros conn Hc. destruct (cn_phase conn) eqn:Hph; try done.
    unfold handle_turn, turn_claim. cbn in Hsp.
    destruct (co_controller (iw_control w)) as [ctl|]; [|done].
    assert (Hr : forall id r, (forall claim, r <> Ok (ResClaimed claim)) -> effect w
              (respond c written (response id r) (with_phase conn Reading)
                 (with_control w (set_claiming (iw_control w) None)))).
    { intros id r Hr. etrans; [by apply (effect_control env w (set_claiming (iw_control w) None))|].
      by apply (effect_answered _ _ _ _ _ conn); auto. }
    destruct (stopping w); [|destruct (cn_ended conn); [|destruct (bool_decide _); [|done]]];
      by apply Hr.
  - apply Hin. intros conn Hc. destruct (cn_phase conn) eqn:Hph; try done.
    destruct (fits op result) eqn:Hfits; [by apply effect_handle_answer|done].
  - apply Hin. intros conn Hc. by apply effect_handle_beside.
  - apply Hin. intros conn Hc. destruct (cn_phase conn) eqn:Hph; try done.
    destruct (cn_ended conn); [|done]. apply (effect_same_conn _ _ conn); [done| |done].
    intros o. apply in_progress_reading; [right; by eexists|done].
  - apply Hin. intros conn Hc. destruct (cn_phase conn) eqn:Hph; try done.
    destruct (stopping w); [|done]. apply (effect_same_conn _ _ conn); [done| |done].
    intros o. apply in_progress_reading; [right; by eexists|done].
  - apply Hin. intros conn Hc. destruct (cn_phase conn) eqn:Hph; try done.
    by apply effect_handle_stopped.
  - apply Hin. intros conn Hc. destruct (cn_phase conn) eqn:Hph; try done.
    by apply effect_handle_close.
  - apply effect_stop_terminate.
  - apply effect_handle_end.
  - apply Hin. intros conn Hc.
    destruct (cn_phase conn) as [| | | | |served [id|]] eqn:Hph; try done.
    by apply effect_stop_answer.
Qed.
End handlers.

(** * The invariant of an independent Runner *)

Section reachable.
Context `{Rep : Reports} `{Order : HashOrder}.
Context (env : option string) (owner_uid claim_wait : Z) (identity : RunnerIdentity)
  (launches : bool).

Abbreviation effect := (effect env).
Abbreviation step := (wire_step env owner_uid claim_wait identity launches).
Abbreviation run := (wire_run env owner_uid claim_wait identity launches).

(** ** The runner's processes *)

Lemma length_request_kill w s ps : length (request_kill w s ps).1.1 = length ps.
Proof.
  unfold request_kill. destruct (sl_io s); [| |done]; destruct (_ || _); try done;
    destruct (kill_root _ _ _ _) as [l []]; cbn; apply length_alter.
Qed.

Lemma length_kill_slots w ws slots n ps : length (kill_slots w ws slots n ps).1.1 = length ps.
Proof.
  revert n ps. induction slots as [|s slots IH]; intros n ps; cbn; [done|].
  destruct (bool_decide _); [apply IH|]. pose proof (length_request_kill w s ps) as H.
  destruct (request_kill w s ps) as [[qs sent] [one|e]]; cbn in *; [|done].
  rewrite <- H, <- (IH (if one then as_u32 (n + 1) else n) qs).
  by destruct (kill_slots _ _ _ _ _) as [[]].
Qed.

Lemma length_terminate_slots w slots ps : length (terminate_slots w slots ps).1.1 = length ps.
Proof.
  revert ps. induction slots as [|s slots IH]; intros ps; cbn; [done|].
  pose proof (length_request_kill w s ps) as H.
  destruct (request_kill w s ps) as [[qs sent] k]; cbn in *.
  rewrite <- H, <- (IH qs). by destruct (terminate_slots _ _ _) as [[]].
Qed.

(** A process is created by the end of a spawn that has its reservation, and by nothing else. *)
Definition creation (r : Runner) (m : Moment) : option string :=
  match mo_op m with
  | OpSpawnEnd id (Ok _) => if bool_decide (id ∈ rn_reserved r) then Some id else None
  | _ => None
  end.

Lemma length_step r m :
  length (rn_procs (Supervisor.step env r m))
    = length (rn_procs r) + (if creation r m then 1 else 0).
Proof.
  assert (Hres : forall id, rn_procs (reserve_slot env (mo_now m) id r).1 = rn_procs r)
    by (intros id; apply reserve_slot_inner).
  unfold Supervisor.step, creation. destruct (mo_op m) as [re j argv|j|j|j sw|p t| |p|p ioe|j|ws| |ids|j|k];
    rewrite ?Nat.add_0_r.
  - unfold spawn_begin. destruct re; [|done]. destruct argv as [|[|chr x] argv]; [done..|].
    by rewrite Hres.
  - by rewrite Hres.
  - done.
  - case_bool_decide; [|destruct sw; cbn; lia]. destruct sw as [sw|e]; cbn; [|lia].
    unfold fill. edestruct remember_frame as (_ & -> & _). cbn.
    rewrite evict_completed_procs. cbn. rewrite length_app. cbn. lia.
  - apply length_alter.
  - by rewrite evict_completed_procs.
  - unfold take_stdin. destruct (pr_stdin _); [apply length_alter|done].
  - apply length_alter.
  - unfold kill_host. rewrite evict_completed_procs.
    destruct (find_slot j _) as [s|]; cbn; [|by rewrite evict_completed_procs].
    pose proof (length_request_kill (mo_world m) s (rn_procs r)) as H.
    by destruct (request_kill _ _ _) as [[] ?].
  - unfold kill_host_workspace. rewrite evict_completed_procs.
    pose proof (length_kill_slots (mo_world m) ws
      (snd <$> hash_iter (rn_inner (evict_completed (mo_now m) r))) 0 (rn_procs r)) as H.
    by destruct (kill_slots _ _ _ _ _) as [[] ?].
  - unfold terminate_all. rewrite evict_completed_procs.
    pose proof (length_terminate_slots (mo_world m)
      (snd <$> hash_iter (rn_inner (evict_completed (mo_now m) r))) (rn_procs r)) as H.
    by destruct (terminate_slots _ _ _) as [[] ?].
  - unfold acknowledge. by rewrite evict_completed_procs.
  - unfold note_received. by edestruct remember_frame as (_ & -> & _).
  - done.
Qed.

Lemma quiet_creation r m : quiet m -> creation r m = None.
Proof. unfold quiet, creation. by destruct (mo_op m). Qed.

(** Moments that create nothing keep the processes, and every slot's origin. *)
Lemma quiet_run ms r :
  runner_ok r -> Forall quiet ms ->
  let r' := Supervisor.run env r ms in
  runner_ok r' /\ procs_mono (rn_procs r) (rn_procs r') /\
  length (rn_procs r') = length (rn_procs r) /\
  forall id s, rn_inner r' !! id = Some s ->
    exists s0, rn_inner r !! id = Some s0 /\ same_process s0 s.
Proof.
  revert r. induction ms as [|m ms IH]; intros r Hok Hq; cbn.
  { split; [done|]. split; [done|]. split; [done|]. intros id s Hs. by exists s. }
  apply Forall_cons in Hq as [Hq Hqs]. destruct (step_ok env r m Hok) as [Hok' Hm].
  destruct (IH _ Hok' Hqs) as (H1 & H2 & H3 & H4).
  split; [done|]. split; [by etrans|]. split.
  { etrans; [exact H3|]. rewrite length_step, quiet_creation by done. lia. }
  intros id s Hs. destruct (H4 id s Hs) as (s1 & Hs1 & Hw1).
  destruct (step_slot_origin env r m id s1 Hok Hs1) as [(s0 & Hs0 & Hw)|(sw & Hop & _)].
  - exists s0. split; [done|by etrans].
  - unfold quiet in Hq. by rewrite Hop in Hq.
Qed.

(** ** Events and claims on the wire *)

Definition event_of (e : WireEnvelope) : option (Z * string) :=
  match we_event e, we_seq e with
  | Some (ProcessExited id), Some seq => Some (seq, id)
  | _, _ => None
  end.

(** The events that controllers were sent, in order. *)
Definition delivered (w : IndependentRunner) : list (Z * string) :=
  omap (fun f : nat * WireEnvelope => event_of f.2) (iw_log w).

(** Every exit with its number, from 1. *)
Definition numbered (w : IndependentRunner) : list (Z * string) :=
  imap (fun i p => (Z.of_nat (S i), default "" (iw_names w !! p))) (hb_exits (iw_hub w)).

Definition pending_events (w : IndependentRunner) : list (Z * string) :=
  option_list (hb_undelivered (iw_hub w)) ++ hb_queue (iw_hub w).

Definition claim_of (e : WireEnvelope) : option RunnerClaim :=
  match we_result e with Some (ResClaimed claim) => Some claim | _ => None end.

(** The Claims that were granted and answered, in order. *)
Definition granted (w : IndependentRunner) : list RunnerClaim :=
  omap (fun f : nat * WireEnvelope => claim_of f.2) (iw_log w).

(** What a granted Claim states: every process's workspace is in its barrier, and each exit
    that it counts is of a process that its inventory shows as ended, or that it no longer
    shows, or whose [process_id] names another process too. *)
Record claim_ok (w : IndependentRunner) (claim : RunnerClaim) : Prop := {
  cl_ok_epoch : (1 <= cl_epoch claim <= co_epoch (iw_control w))%Z;
  cl_ok_barrier e : e ∈ cl_processes claim -> ie_workspace_id e ∈ cl_barrier claim;
  cl_ok_previous : cl_previous_controller claim = true <-> cl_barrier claim <> [];
  cl_ok_events : (0 <= cl_events_through claim <= Z.of_nat (length (hb_exits (iw_hub w))))%Z;
  cl_ok_settled i p e :
    (Z.of_nat i < cl_events_through claim)%Z -> hb_exits (iw_hub w) !! i = Some p ->
    e ∈ cl_processes claim -> iw_names w !! p = Some (rs_process_id (ie_status e)) ->
    rs_state (ie_status e) = PExited \/
    exists q, q <> p /\ iw_names w !! q = Some (rs_process_id (ie_status e))
}.

Definition completed (w : IndependentRunner) (p : nat) : bool :=
  is_some (rn_procs (iw_runner w) !! p ≫= pr_completed_at).

Record wire_ok (w : IndependentRunner) : Prop := {
  wo_control : control_ok (iw_control w) (iw_conns w);
  wo_numbered : numbered_conns w;
  wo_work : work_noted w;
  wo_caches : caches_ok w;
  wo_runner : runner_ok (iw_runner w);
  wo_names : length (iw_names w) = length (rn_procs (iw_runner w));
  wo_slots id s : rn_inner (iw_runner w) !! id = Some s ->
    iw_names w !! sl_proc s = Some id /\
    sl_workspace_id s ∈ co_started_in (iw_control w);
  wo_exits : NoDup (hb_exits (iw_hub w));
  wo_completed p : p ∈ hb_exits (iw_hub w) -> completed w p = true;
  wo_events : delivered w ++ pending_events w = numbered w;
  wo_epoch : (0 <= co_epoch (iw_control w))%Z;
  wo_claims : Forall (claim_ok w) (granted w);
  wo_sorted : StronglySorted Z.lt (cl_epoch <$> granted w);
  wo_frames : Forall (fun f => well_formed f.2) (iw_log w)
}.

(** ** Each step keeps it *)

(** A Claim's answer stays true as numbers and names are added. *)
Lemma claim_ok_mono w w' claim exits names :
  claim_ok w claim ->
  (co_epoch (iw_control w) <= co_epoch (iw_control w'))%Z ->
  hb_exits (iw_hub w') = hb_exits (iw_hub w) ++ exits ->
  iw_names w' = iw_names w ++ names ->
  (forall p, p ∈ hb_exits (iw_hub w) -> p < length (iw_names w)) ->
  claim_ok w' claim.
Proof.
  intros [H1 H2 Hp H3 H4] He Hx Hn Hlt. split; [lia|done|done|rewrite Hx, length_app; lia|].
  intros i p e Hi Hxi Hin Hnp. rewrite Hx in Hxi. rewrite lookup_app_l in Hxi by lia.
  assert (p < length (iw_names w)) by (apply Hlt; by eapply list_elem_of_lookup_2).
  rewrite Hn in Hnp. rewrite lookup_app_l in Hnp by done.
  destruct (H4 i p e Hi Hxi Hin Hnp) as [?|(q & Hq & Hnq)]; [by left|right].
  exists q. split; [done|]. rewrite Hn. by apply lookup_app_l_Some.
Qed.

Lemma completed_lt w p : wire_ok w -> completed w p = true -> p < length (iw_names w).
Proof.
  intros Hok. unfold completed. rewrite (wo_names _ Hok).
  destruct (rn_procs (iw_runner w) !! p) eqn:E; [|done]. intros _. by eapply lookup_lt_Some.
Qed.

Lemma exits_lt w p : wire_ok w -> p ∈ hb_exits (iw_hub w) -> p < length (iw_names w).
Proof. intros Hok Hp. by apply completed_lt, (wo_completed _ Hok). Qed.

Lemma completed_mono_step w w' p :
  procs_mono (rn_procs (iw_runner w)) (rn_procs (iw_runner w')) ->
  completed w p = true -> completed w' p = true.
Proof.
  unfold completed. intros Hm. destruct (rn_procs (iw_runner w) !! p) as [pr|] eqn:E; [|done].
  destruct (Hm p pr E) as (pr' & E' & [Hc _ _ _]). rewrite E'. cbn.
  destruct (pr_completed_at pr) as [t|]; [|done]. by rewrite (Hc t eq_refl).
Qed.

Lemma omap_unclaimed {A} (f : WireEnvelope -> option A) (l : list (nat * WireEnvelope)) :
  (forall e, unclaimed e -> f e = None) -> Forall (fun x => unclaimed x.2) l ->
  omap (fun x : nat * WireEnvelope => f x.2) l = [].
Proof. intros Hf. induction 1 as [|x l Hx Hl IH]; [done|]. cbn. by rewrite (Hf _ Hx). Qed.

Lemma unclaimed_event e : unclaimed e -> event_of e = None.
Proof. unfold event_of. by intros (_ & -> & _). Qed.

Lemma unclaimed_claim e : unclaimed e -> claim_of e = None.
Proof. unfold claim_of. intros (_ & _ & H). by destruct (we_result e) as [[]|]. Qed.

Lemma wire_ok_effect w w' :
  wire_ok w -> effect w w' -> control_ok (iw_control w') (iw_conns w') -> wire_ok w'.
Proof.
  intros Hok [(ms & Hms & Hr) Hn Hs He Hh Hnum Hwork Hlog] Hctl.
  destruct (Hlog (wo_caches _ Hok)) as [Hca (l & Hl & Hun)].
  destruct (quiet_run ms (iw_runner w) (wo_runner _ Hok) Hms) as (H1 & H2 & H3 & H4).
  rewrite <- Hr in H1, H2, H3, H4.
  assert (Hdel : delivered w' = delivered w).
  { unfold delivered. rewrite Hl, omap_app, (omap_unclaimed event_of l), app_nil_r;
      auto using unclaimed_event. }
  assert (Hgr : granted w' = granted w).
  { unfold granted. rewrite Hl, omap_app, (omap_unclaimed claim_of l), app_nil_r;
      auto using unclaimed_claim. }
  split; try done; auto.
  - by apply Hnum, (wo_numbered _ Hok).
  - by apply Hwork, (wo_work _ Hok).
  - rewrite Hn, H3. apply (wo_names _ Hok).
  - intros id s Hs'. destruct (H4 id s Hs') as (s0 & Hs0 & [Ep Ew]).
    destruct (wo_slots _ Hok id s0 Hs0) as [Hi Hw]. rewrite Hn, <- Ep, <- Ew. split; [done|].
    by apply Hs.
  - rewrite Hh. apply (wo_exits _ Hok).
  - intros p Hp. rewrite Hh in Hp. eapply completed_mono_step; [done|]. by apply (wo_completed _ Hok).
  - unfold pending_events, numbered. rewrite Hdel, Hh, Hn. apply (wo_events _ Hok).
  - rewrite He. apply (wo_epoch _ Hok).
  - rewrite Hgr. eapply Forall_impl; [apply (wo_claims _ Hok)|]. intros claim Hc.
    apply (claim_ok_mono w w' claim [] []); rewrite ?app_nil_r; try done; [lia|congruence|].
    intros p. by apply exits_lt.
  - rewrite Hgr. apply (wo_sorted _ Hok).
  - rewrite Hl. apply Forall_app. split; [apply (wo_frames _ Hok)|].
    eapply Forall_impl; [exact Hun|]. by intros f [? _].
Qed.

Lemma inventory_elem now r e :
  e ∈ (list_inventory now r).2 ->
  exists id s, rn_inner (evict_completed now r) !! id = Some s /\
    e = mkEntry (sl_workspace_id s) (slot_status (rn_procs r) id s).
Proof.
  unfold list_inventory, inventory. cbn. intros (x & -> & Hx)%list_elem_of_fmap.
  rewrite merge_sort_Permutation in Hx. apply list_elem_of_fmap in Hx as ([id s] & -> & Hx).
  apply hash_iter_elem in Hx. exists id, s. split; [done|]. cbn.
  by rewrite evict_completed_procs.
Qed.

Lemma btree_elements_elem x (s : gset string) : x ∈ btree_elements s <-> x ∈ s.
Proof. unfold btree_elements. rewrite merge_sort_Permutation. apply elem_of_elements. Qed.

Lemma btree_elements_nil (s : gset string) : btree_elements s = [] <-> s = ∅.
Proof.
  split; [|by intros ->]. intros H. apply set_eq. intros x. rewrite <- btree_elements_elem, H.
  split; [by intros ?%elem_of_nil|set_solver].
Qed.

Lemma completed_exited w id s :
  wire_ok w -> rn_inner (iw_runner w) !! id = Some s -> completed w (sl_proc s) = true ->
  rs_state (slot_status (rn_procs (iw_runner w)) id s) = PExited.
Proof.
  intros Hok Hs Hc. destruct (wo_runner _ Hok) as [Hp _]. cbn.
  apply exited_finished; [apply (proc_at_ok _ (sl_proc s) Hp)|].
  apply (completed_not_live _ s Hp). unfold completed_at, completed, proc_at in *.
  by destruct (rn_procs (iw_runner w) !! sl_proc s).
Qed.

(** The answer of a Claim that is granted in the state [w], under the next epoch. *)
Definition grants (w : IndependentRunner) (now : Z) : RunnerClaim :=
  {| cl_epoch := co_epoch (iw_control w) + 1;
     cl_previous_controller := negb (bool_decide (co_started_in (iw_control w) = ∅));
     cl_barrier := btree_elements (co_started_in (iw_control w));
     cl_processes := (list_inventory now (iw_runner w)).2;
     cl_events_through := Z.of_nat (length (hb_exits (iw_hub w))) |}.

Lemma grants_ok w w' now :
  wire_ok w -> (co_epoch (iw_control w') = co_epoch (iw_control w) + 1)%Z ->
  iw_hub w' = iw_hub w -> iw_names w' = iw_names w -> claim_ok w' (grants w now).
Proof.
  intros Hok He Hh Hn. pose proof (wo_epoch _ Hok) as He0.
  assert (Hslot : forall id s, rn_inner (evict_completed now (iw_runner w)) !! id = Some s ->
            exists s0, rn_inner (iw_runner w) !! id = Some s0 /\ same_process s0 s).
  { intros id s Hs. destruct (evict_from now _ id s (wo_runner _ Hok) Hs) as (s0 & Hs0 & Hev).
    exists s0. split; [done|]. by inversion Hev; subst. }
  split; cbn [grants cl_epoch cl_processes cl_barrier cl_events_through cl_previous_controller].
  - lia.
  - intros e (id & s & Hs & ->)%inventory_elem. destruct (Hslot id s Hs) as (s0 & Hs0 & _ & Ew).
    apply btree_elements_elem. cbn. rewrite <- Ew. by apply (wo_slots _ Hok id).
  - rewrite btree_elements_nil. by case_bool_decide.
  - rewrite Hh. lia.
  - rewrite Hh, Hn. intros i p e Hi Hx (id & s & Hs & ->)%inventory_elem Hp. cbn in Hp |- *.
    destruct (Hslot id s Hs) as (s0 & Hs0 & Ep & _). destruct (wo_slots _ Hok id s0 Hs0) as [Hid _].
    rewrite Ep in Hid. destruct (decide (sl_proc s = p)) as [E|Hne]; [left|by right; eauto].
    assert (Hc : completed w p = true)
      by (apply (wo_completed _ Hok); by eapply list_elem_of_lookup_2).
    rewrite <- E, <- Ep in Hc. pose proof (completed_exited w id s0 Hok Hs0 Hc) as H.
    cbn in H. by rewrite Ep in H.
Qed.

Lemma handle_turn_granted now c conn id store dl written w :
  co_controller (iw_control w) = None ->
  handle_turn claim_wait now c conn id store dl written w =
  respond c written (response id (Ok (ResClaimed (grants w now))))
    (with_forwarding (with_phase conn Reading) written)
    (with_runner
       (with_control w
          (mkControl (co_epoch (iw_control w) + 1)
             (Some (mkController c (co_epoch (iw_control w) + 1) (co_started_in (iw_control w))))
             None (Some (default store (co_store_id (iw_control w))))
             (co_started_in (iw_control w))))
       (evict_completed now (iw_runner w))).
Proof. intros H. unfold handle_turn, turn_claim. by rewrite H. Qed.

Lemma turn_granted_ok w c now written conn id store dl :
  wire_ok w -> iw_conns w !! c = Some conn -> cn_phase conn = Claiming id store dl ->
  co_controller (iw_control w) = None ->
  wire_ok (handle_turn claim_wait now c conn id store dl written w).
Proof.
  intros Hok Hc Hph Hnone.
  pose proof (handle_turn_ok claim_wait now c conn id store dl written w (wo_control _ Hok) Hc Hph)
    as Hctl.
  rewrite handle_turn_granted in Hctl |- * by done.
  pose proof (effect_evict env w now) as Hev.
  pose proof (wire_ok_effect w _ Hok Hev (wo_control _ Hok)) as Hok1.
  set (w1 := with_runner w (evict_completed now (iw_runner w))) in *.
  set (w' := respond _ _ _ _ _) in *.
  assert (Eco : iw_control w' = mkControl (co_epoch (iw_control w) + 1)
             (Some (mkController c (co_epoch (iw_control w) + 1) (co_started_in (iw_control w))))
             None (Some (default store (co_store_id (iw_control w))))
             (co_started_in (iw_control w))) by (unfold w'; by destruct written).
  assert (Efr : iw_runner w' = iw_runner w1 /\ iw_names w' = iw_names w1 /\
                iw_hub w' = iw_hub w1 /\ iw_next w' = iw_next w)
    by (unfold w'; by destruct written).
  destruct Efr as (Er & En & Eh & Enx).
  assert (Ecn : exists next, iw_conns w' = <[c := next]> (iw_conns w) /\
            cn_cache next = cn_cache conn /\
            forall op, op ∈ in_progress next -> op ∈ in_progress conn).
  { destruct written; eexists; (split; [done|]); (split; [done|]);
      intros op; apply in_progress_reading; cbn; eauto. }
  destruct Ecn as (next & Ecn & Eca & Ein).
  assert (Hdel : delivered w' = delivered w).
  { unfold w', delivered. destruct written; cbn; [|done]. by rewrite omap_app, app_nil_r. }
  assert (Hgr : granted w' = granted w \/ granted w' = granted w ++ [grants w now]).
  { unfold w', granted. destruct written; cbn; [|by left]. right. by rewrite omap_app. }
  assert (Hnew : claim_ok w' (grants w now)) by (apply grants_ok; [done|by rewrite Eco|done..]).
  assert (Hold : Forall (claim_ok w') (granted w)).
  { eapply Forall_impl; [apply (wo_claims _ Hok)|]. intros claim Hcl.
    apply (claim_ok_mono w w' claim [] []); [done|rewrite Eco; cbn; lia| | |].
    - by rewrite Eh, app_nil_r.
    - by rewrite En, app_nil_r.
    - intros p. by apply exits_lt. }
  split; try done; rewrite ?Er, ?En, ?Eh, ?Eco.
  - intros d conn0. rewrite Ecn, Enx.
    intros [[<- _]|[_ Hd]]%lookup_insert_Some; by eapply (wo_numbered _ Hok).
  - intros d conn0 op ws. rewrite Ecn, Eco. cbn.
    intros [[<- <-]|[_ Hd]]%lookup_insert_Some Hin Hst; eapply (wo_work _ Hok); eauto.
  - intros d conn0 i e. rewrite Ecn.
    intros [[<- <-]|[_ Hd]]%lookup_insert_Some Hin; [rewrite Eca in Hin|]; by eapply (wo_caches _ Hok).
  - apply (wo_runner _ Hok1).
  - apply (wo_names _ Hok1).
  - apply (wo_slots _ Hok1).
  - apply (wo_exits _ Hok1).
  - intros p. unfold completed. rewrite Er. apply (wo_completed _ Hok1).
  - unfold pending_events, numbered. rewrite Hdel, Eh, En. apply (wo_events _ Hok).
  - cbn. pose proof (wo_epoch _ Hok). lia.
  - destruct Hgr as [-> | ->]; [done|]. apply Forall_app. split; [done|]. by apply Forall_singleton.
  - destruct Hgr as [-> | ->]; [apply (wo_sorted _ Hok)|]. rewrite fmap_app.
    apply StronglySorted_app_2; [|apply (wo_sorted _ Hok)|repeat constructor].
    intros a b Ha Hb. apply list_elem_of_singleton in Hb as ->.
    apply list_elem_of_fmap in Ha as (claim & -> & Hin).
    pose proof (wo_claims _ Hok) as Hcl. rewrite Forall_forall in Hcl.
    destruct (Hcl claim Hin) as [He _ _ _ _]. cbn. lia.
  - assert (iw_log w' = iw_log w \/ exists r, iw_log w' = iw_log w ++ [(c, response id r)])
      as [-> |[r ->]] by (unfold w'; destruct written; [right; by eexists|by left]); [apply (wo_frames _ Hok)|].
    apply Forall_app. split; [apply (wo_frames _ Hok)|]. apply Forall_singleton.
    apply response_well_formed.
Qed.

(** The claims stay true, and no other is granted. *)
Lemma claims_kept w w' exits names :
  wire_ok w -> granted w' = granted w ->
  co_epoch (iw_control w') = co_epoch (iw_control w) ->
  hb_exits (iw_hub w') = hb_exits (iw_hub w) ++ exits ->
  iw_names w' = iw_names w ++ names ->
  Forall (claim_ok w') (granted w') /\ StronglySorted Z.lt (cl_epoch <$> granted w').
Proof.
  intros Hok Hg He Hx Hn. rewrite Hg. split; [|apply (wo_sorted _ Hok)].
  eapply Forall_impl; [apply (wo_claims _ Hok)|]. intros claim Hc.
  apply (claim_ok_mono w w' claim exits names); try done; [lia|]. intros p. by apply exits_lt.
Qed.

Lemma forward_ok w c conn written :
  wire_ok w -> iw_conns w !! c = Some conn -> wire_ok (handle_forward c conn written w).
Proof.
  intros Hok Hc. pose proof (handle_forward_ok c conn written w (wo_control _ Hok) Hc) as Hctl.
  unfold handle_forward in *. destruct (cn_forwarding conn) eqn:Ef; [|done].
  destruct (next_event (iw_hub w)) as [[[seq id] queue]|] eqn:En; [|done].
  assert (Hpend : pending_events w = (seq, id) :: queue).
  { unfold pending_events, next_event in *.
    destruct (hb_undelivered (iw_hub w)) as [e|]; [by simplify_eq|].
    destruct (hb_queue (iw_hub w)); by simplify_eq. }
  pose proof (wo_events _ Hok) as Hev. rewrite Hpend in Hev. destruct written.
  - set (w' := with_log _ _) in *.
    assert (Hg : granted w' = granted w) by (unfold granted, w'; cbn; by rewrite omap_app, app_nil_r).
    destruct (claims_kept w w' [] [] Hok Hg) as [H1 H2]; rewrite ?app_nil_r; try done.
    destruct Hok. split; try done.
    + unfold delivered, w', pending_events, numbered. cbn. rewrite omap_app. cbn.
      by rewrite <- app_assoc.
    + apply Forall_app. split; [done|]. apply Forall_singleton. apply event_well_formed.
  - set (w' := with_conn _ _ _) in *.
    destruct (claims_kept w w' [] [] Hok eq_refl) as [H1 H2]; rewrite ?app_nil_r; try done.
    pose proof (wo_numbered _ Hok) as Hn. pose proof (wo_work _ Hok) as Hw.
    pose proof (wo_caches _ Hok) as Hca. destruct Hok. split; try done.
    + intros d conn0. cbn. intros [[<- _]|[_ Hd]]%lookup_insert_Some; by eapply Hn.
    + intros d conn0 op ws. cbn. intros [[<- <-]|[_ Hd]]%lookup_insert_Some Hin Hst; by eapply Hw.
    + intros d conn0 i e. cbn. intros [[<- <-]|[_ Hd]]%lookup_insert_Some Hin; by eapply Hca.
Qed.

Lemma exit_ok w p : wire_ok w -> wire_ok (handle_exit p w).
Proof.
  intros Hok. unfold handle_exit. destruct (_ && _) eqn:Hb; [|done].
  apply andb_true_iff in Hb as [Hc Hn]. apply negb_true_iff, bool_decide_eq_false in Hn.
  set (w' := with_hub _ _).
  destruct (claims_kept w w' [p] [] Hok eq_refl) as [H1 H2]; rewrite ?app_nil_r; try done.
  pose proof (wo_completed _ Hok) as Hco. pose proof (wo_events _ Hok) as Hev.
  destruct Hok. split; try done.
  - cbn. apply NoDup_app. split; [done|]. split; [|apply NoDup_singleton].
    by intros x Hx ->%list_elem_of_singleton.
  - cbn. intros q [Hq| ->%list_elem_of_singleton]%elem_of_app; [by apply Hco|done].
  - unfold delivered, pending_events, numbered in *. cbn. rewrite imap_app, app_assoc.
    rewrite app_assoc in Hev. rewrite app_assoc, Hev. cbn. rewrite length_app. cbn.
    by rewrite Nat.add_0_r, Nat.add_1_r.
Qed.

(** What asked for a process names its workspace. *)
Lemma may_run_spawn w id sw :
  wire_ok w -> may_run w (OpSpawnEnd id (Ok sw)) = true ->
  sw_workspace_id sw ∈ co_started_in (iw_control w).
Proof.
  intros Hok. cbn. intros H. apply existsb_exists in H as ([c conn] & Hin & H).
  apply list_elem_of_In, elem_of_map_to_list in Hin.
  apply existsb_exists in H as (op & Hop & H). apply list_elem_of_In in Hop. cbn in Hop.
  destruct op; try done; cbn in H; apply andb_true_iff in H as [_ Hws];
    apply bool_decide_eq_true in Hws; rewrite Hws; eapply (wo_work _ Hok); eauto.
Qed.

Lemma moment_ok w m : wire_ok w -> wire_ok (run_moment env m w).
Proof.
  intros Hok. destruct (run_moment_frame env m w) as (E1 & E2 & E3 & E4 & E5).
  unfold run_moment in *. destruct (may_run w (mo_op m)) eqn:Hmay; [|done].
  set (w' := match mo_op m with OpSpawnEnd _ _ => _ | _ => _ end) in *.
  destruct (step_ok env (iw_runner w) m (wo_runner _ Hok)) as [Hr Hm].
  pose proof (length_step (iw_runner w) m) as Hlen.
  assert (Er : iw_runner w' = Supervisor.step env (iw_runner w) m)
    by (unfold w'; destruct (mo_op m); try done; by destruct (bool_decide _)).
  assert (En : iw_names w' = iw_names w ++ option_list (creation (iw_runner w) m)).
  { unfold w'. destruct (mo_op m) as [| | |j sw| | | | | | | | | |] eqn:Eop;
      try (unfold creation; by rewrite Eop, app_nil_r).
    rewrite Hlen. unfold creation. rewrite Eop.
    destruct sw; [destruct (bool_decide (j ∈ rn_reserved (iw_runner w)))|];
      case_bool_decide; cbn; try lia; by rewrite ?app_nil_r. }
  destruct (claims_kept w w' [] (option_list (creation (iw_runner w) m)) Hok) as [H1 H2];
    rewrite ?E3, ?app_nil_r; try done.
  { unfold granted. by rewrite E4. }
  { by rewrite E1. }
  split; try done.
  - rewrite E1, E2. apply (wo_control _ Hok).
  - intros c conn. rewrite E2, E5. apply (wo_numbered _ Hok).
  - intros c conn op ws. rewrite E1, E2. apply (wo_work _ Hok).
  - intros c conn id e. rewrite E2. apply (wo_caches _ Hok).
  - by rewrite Er.
  - rewrite En, Er, Hlen, length_app, (wo_names _ Hok). by destruct (creation _ _).
  - intros id s. rewrite Er, En, E1. intros Hs.
    destruct (step_slot_origin env (iw_runner w) m id s (wo_runner _ Hok) Hs)
      as [(s0 & Hs0 & Ep & Ew)|(sw & Hop & Hin & Ew & Ep)].
    + destruct (wo_slots _ Hok id s0 Hs0) as [Hi Hw]. rewrite <- Ep, <- Ew. split; [|done].
      by apply lookup_app_l_Some.
    + rewrite Ew, Ep, <- (wo_names _ Hok). split.
      * rewrite lookup_app_r, Nat.sub_diag by done. unfold creation. rewrite Hop.
        by rewrite bool_decide_eq_true_2.
      * eapply may_run_spawn; [done|]. by rewrite <- Hop.
  - rewrite E3. apply (wo_exits _ Hok).
  - intros p. rewrite E3. intros Hp. apply (completed_mono_step w); [by rewrite Er|].
    by apply (wo_completed _ Hok).
  - assert (delivered w' = delivered w) as -> by (unfold delivered; by rewrite E4).
    assert (pending_events w' = pending_events w) as -> by (unfold pending_events; by rewrite E3).
    rewrite (wo_events _ Hok). unfold numbered. rewrite E3. apply imap_ext. intros i p Hp.
    assert (p < length (iw_names w)) by (apply exits_lt; [done|]; by eapply list_elem_of_lookup_2).
    by rewrite En, lookup_app_l.
  - rewrite E1. apply (wo_epoch _ Hok).
  - rewrite E4. apply (wo_frames _ Hok).
Qed.

Lemma wire_step_ok w e : wire_ok w -> wire_ok (step w e).
Proof.
  intros Hok. destruct (special w e) eqn:Hsp.
  - destruct e as [| | |c now written| | | | | | |c written|p| | | |m]; try done; unfold wire_step.
    + unfold in_phase. destruct (iw_conns w !! c) as [conn|] eqn:Hc; [|done].
      destruct (cn_phase conn) eqn:Hph; try done. apply turn_granted_ok; try done.
      cbn in Hsp. by destruct (co_controller (iw_control w)).
    + unfold in_phase. destruct (iw_conns w !! c) as [conn|] eqn:Hc; [|done].
      by apply forward_ok.
    + by apply exit_ok.
    + by apply moment_ok.
  - eapply wire_ok_effect; [done|by apply step_effect|].
    apply step_control_ok; [apply (wo_control _ Hok)|apply (wo_numbered _ Hok)].
Qed.

Lemma wire_run_ok w es : wire_ok w -> wire_ok (run w es).
Proof. revert w. induction es as [|e es IH]; intros w Hok; [done|]. apply IH. by apply wire_step_ok. Qed.

Lemma independent_new_ok r : fresh r -> wire_ok (independent_new r).
Proof.
  intros Hf. pose proof (fresh_ok r Hf) as Hr. destruct Hf as (Hi & Hres & Hp & Hm).
  split; try done.
  - apply control_ok_default.
  - by apply (runner_ok_frame r).
  - cbn. by rewrite Hp.
  - cbn. by rewrite Hi.
  - constructor.
  - by intros p ?%elem_of_nil.
  - constructor.
Qed.
End reachable.

(** * Where work starts *)

Section barriers.
Context `{Rep : Reports} `{Order : HashOrder}.
Context (env : option string) (owner_uid claim_wait : Z) (identity : RunnerIdentity)
  (launches : bool).

Abbreviation step := (wire_step env owner_uid claim_wait identity launches).
Abbreviation run := (wire_run env owner_uid claim_wait identity launches).

(** The workspaces that a request states as reconciled. *)
Definition reconciles (e : Event) : list string :=
  match e with
  | EvRequest _ _ _ payload _ =>
      match parse_request payload with
      | Ok (_, _, Some (RqReconciled ids)) => ids
      | _ => []
      end
  | _ => []
  end.

(** A barrier loses only what is reconciled, and a request that comes to be in progress starts
    no work behind it. *)
Record keeps_barriers (R : list string) (w w' : IndependentRunner) : Prop := {
  gd_controller ctl' : co_controller (iw_control w') = Some ctl' ->
    exists ctl, co_controller (iw_control w) = Some ctl /\
      forall ws, ws ∈ ct_barrier ctl -> ws ∉ R -> ws ∈ ct_barrier ctl';
  gd_work c conn' op : iw_conns w' !! c = Some conn' -> op ∈ in_progress conn' ->
    (exists conn, iw_conns w !! c = Some conn /\ op ∈ in_progress conn) \/
    (exists ctl, co_controller (iw_control w) = Some ctl /\
       forall ws, starts_work op = Some ws -> ws ∉ ct_barrier ctl)
}.

Lemma keeps_barriers_refl R w : keeps_barriers R w w.
Proof. split; [intros ctl H; eauto|intros c conn op Hc Hop; left; eauto]. Qed.

(** One connection changes, and gains no work; the controller stays or lets go. *)
Lemma keeps_barriers_conn R w w' c conn next :
  iw_conns w !! c = Some conn -> iw_conns w' = <[c := next]> (iw_conns w) ->
  co_controller (iw_control w') = co_controller (iw_control w) \/
    co_controller (iw_control w') = None ->
  (forall op, op ∈ in_progress next -> op ∈ in_progress conn) ->
  keeps_barriers R w w'.
Proof.
  intros Hc Hcs Hctl Hin. split.
  - intros ctl' H. destruct Hctl as [E|E]; rewrite E in H; [eauto|done].
  - intros d conn' op. rewrite Hcs.
    intros [[<- <-]|[_ Hd]]%lookup_insert_Some Hop; left; [|eauto]. exists conn. auto.
Qed.

Lemma keeps_barriers_respond R w w' c written e conn next :
  iw_conns w' !! c = Some conn -> iw_conns w' = iw_conns w ->
  co_controller (iw_control w') = co_controller (iw_control w) ->
  (cn_phase next = Reading \/ exists en, cn_phase next = Stopped en) ->
  cn_beside next = cn_beside conn -> keeps_barriers R w (respond c written e next w').
Proof.
  intros Hc Hcs Hctl Hph Hb. rewrite Hcs in Hc.
  apply (keeps_barriers_conn R w _ c conn (if written then next else with_phase next (Stopped EndLost))).
  - done.
  - destruct written; cbn; by rewrite Hcs.
  - left. by destruct written.
  - intros op. destruct written; apply in_progress_reading; auto. right. by eexists.
Qed.

Lemma admit_op_barrier c epoch op k k' ws ctl :
  admit_op c epoch op k = (k', Ok tt) -> starts_work op = Some ws ->
  co_controller k = Some ctl -> ws ∉ ct_barrier ctl.
Proof.
  intros Ha Hws Hctl. unfold admit_op in Ha. rewrite Hctl, Hws in Ha.
  destruct (bool_decide (ct_connection ctl = c)); [|done]. destruct (_ && _); [done|].
  by destruct (bool_decide_reflect (ws ∈ ct_barrier ctl)).
Qed.

Lemma keeps_barriers_admitted world now c conn id op written w k epoch :
  iw_conns w !! c = Some conn -> cn_phase conn = Reading ->
  admit_op c epoch op (iw_control w) = (k, Ok tt) ->
  keeps_barriers (match op with RqReconciled ids => ids | _ => [] end) w
    (handle_admitted world now c conn id op written (with_control w k)).
Proof.
  intros Hc Hph Ha. destruct (admit_op_frame _ _ _ _ _ _ Ha) as (_ & Ectl & _ & _ & _ & Hr).
  destruct (Hr eq_refl) as [Hctl _]. unfold controls in Hctl.
  destruct (co_controller (iw_control w)) as [ctl|] eqn:Ew; [|done].
  assert (Hnew : forall w' next, iw_conns w' = <[c := next]> (iw_conns w) ->
            co_controller (iw_control w') = Some ctl ->
            (forall o, o ∈ in_progress next -> o ∈ in_progress conn \/ o = op) ->
            keeps_barriers [] w w').
  { intros w' next Hcs Hk Hin. split.
    - intros ctl' H. exists ctl. split; [done|]. rewrite Hk in H. by simplify_eq.
    - intros d conn' o. rewrite Hcs. intros [[<- <-]|[_ Hd]]%lookup_insert_Some Ho; [|eauto].
      destruct (Hin o Ho) as [?| ->]; [eauto|right]. exists ctl. split; [done|].
      intros ws Hws. by eapply admit_op_barrier. }
  assert (Hans : forall w' id r, iw_conns w' = iw_conns w ->
            co_controller (iw_control w') = Some ctl ->
            keeps_barriers [] w (respond c written (response id r) conn (note_started op w'))).
  { intros w' i r Hcs Hk. destruct (note_started_frame op w') as (E1 & E2 & _).
    apply (keeps_barriers_respond _ _ _ _ _ _ conn); rewrite ?E1, ?E2; auto; congruence. }
  assert (Hans' : forall o, o ∈ in_progress (with_phase conn (Answering id op)) ->
            o ∈ in_progress conn \/ o = op).
  { intros o. unfold in_progress. cbn. intros [->|H]%elem_of_cons; [by right|].
    left. apply elem_of_app. by right. }
  assert (Hbes : forall o, o ∈ in_progress (with_beside conn (cn_beside conn ++ [(id, op)])) ->
            o ∈ in_progress conn \/ o = op).
  { intros o. unfold in_progress. cbn. rewrite Hph, fmap_app. cbn.
    intros [H|H%list_elem_of_singleton]%elem_of_app; auto. }
  unfold handle_admitted. destruct op; cbn [answered_beside];
    try (by eapply Hnew; [reflexivity|exact Ectl|exact Hans']);
    try (by eapply Hnew; [reflexivity|exact Ectl|exact Hbes]).
  - destruct (recall_all _ _ _) as [r l]. by apply Hans.
  - destruct (note_started_frame (RqReconciled workspace_ids) (with_control (with_control w k)
      (reconciled c workspace_ids k))) as (E1 & E2 & _).
    assert (Hre : co_controller (reconciled c workspace_ids k) =
              Some (mkController c (ct_epoch ctl) (ct_barrier ctl ∖ list_to_set workspace_ids))).
    { unfold reconciled. rewrite Ectl. cbn in Hctl.
      by rewrite bool_decide_eq_true_2 by congruence. }
    split.
    + intros ctl' H. exists ctl. split; [done|].
      assert (ctl' = mkController c (ct_epoch ctl) (ct_barrier ctl ∖ list_to_set workspace_ids)) as ->
        by (destruct written; cbn in H; rewrite Hre in H; congruence).
      cbn. intros ws Hws Hn. apply elem_of_difference. split; [done|]. by rewrite elem_of_list_to_set.
    + intros d conn' o Hd. apply (gd_work [] w (respond c written
        (response id (Ok ResReconciled)) conn (with_control w k))); [|by destruct written].
      apply (keeps_barriers_respond [] w _ c written _ conn conn); auto. cbn. congruence.
  - by apply Hans.
Qed.

Lemma keeps_barriers_weaken R w w' : keeps_barriers [] w w' -> keeps_barriers R w w'.
Proof.
  intros [H1 H2]. split; [|done]. intros ctl' H. destruct (H1 ctl' H) as (ctl & Hc & Hb).
  exists ctl. split; [done|]. intros ws Hws _. apply Hb; [done|]. by intros ?%elem_of_nil.
Qed.

Lemma keeps_barriers_request world now c conn payload written w :
  iw_conns w !! c = Some conn -> cn_phase conn = Reading ->
  keeps_barriers (reconciles (EvRequest c world now payload written)) w
    (handle_request owner_uid claim_wait identity launches world now c conn payload written w).
Proof.
  intros Hc Hph. unfold handle_request. cbn [reconciles].
  destruct (parse_request payload) as [[[id epoch] op]|refusal] eqn:Ep.
  2:{ apply (keeps_barriers_respond _ _ _ _ _ _ conn); auto. right. by eexists. }
  assert (Hresp : forall e w', iw_conns w' = iw_conns w ->
            co_controller (iw_control w') = co_controller (iw_control w) ->
            keeps_barriers [] w (respond c written e conn w')).
  { intros e w' H1 H2. apply (keeps_barriers_respond _ _ _ _ _ _ conn); auto. by rewrite H1. }
  assert (Hadm : forall op', keeps_barriers (match op' with RqReconciled ids => ids | _ => [] end) w
     (match admit_op c epoch op' (iw_control w) with
      | (control, Ok _) =>
          handle_admitted world now c conn id op' written (with_control w control)
      | (control, Err e) => respond c written (response id (Err e)) conn
                              (note_started op' (with_control w control))
      end)).
  { intros op'. destruct (admit_op c epoch op' (iw_control w)) as [k [[]|e]] eqn:E;
      destruct (admit_op_frame _ _ _ _ _ _ E) as (_ & E2 & _).
    - by eapply keeps_barriers_admitted.
    - destruct (note_started_frame op' (with_control w k)) as (F1 & F2 & _).
      apply keeps_barriers_weaken, Hresp; by rewrite ?F1, ?F2. }
  assert (Hans : forall op', keeps_barriers [] w
     (let '(cache, e) := answer (cn_cache conn) id op' (hello launches Independent identity)
        (Err (error_body Internal "")) in respond c written e (with_cache conn cache) w)).
  { intros op'. destruct (answer _ _ _ _ _) as [cache e].
    by apply (keeps_barriers_respond _ _ _ _ _ _ conn); auto. }
  destruct op as [[]|]; try apply Hans;
    try (match goal with |- context [admit_op c epoch ?o (iw_control w)] => exact (Hadm o) end).
  - destruct (begin_claim _ _ _ _ _ _ _) as [k|[refusal text]] eqn:E; [|by apply Hresp].
    apply begin_claim_set in E as (-> & _).
    eapply (keeps_barriers_conn _ _ _ c conn); [done|reflexivity|by left|].
    intros o. unfold in_progress. by rewrite Hph.
  - eapply (keeps_barriers_conn _ _ _ c conn); [done|reflexivity|by left|].
    intros o. apply in_progress_reading; [right; by eexists|done].
  - destruct (admit_op c epoch RqStop (iw_control w)) as [k [[]|e]] eqn:E;
      destruct (admit_op_frame _ _ _ _ _ _ E) as (_ & E2 & _); [|by apply Hresp].
    destruct (stop_terminate_frame env world now (with_control w k)) as (F1 & F2 & _).
    unfold stop_request. eapply (keeps_barriers_conn _ _ _ c conn (with_phase conn (Stopped (EndStop (Some id))))); [done|..].
    + cbn -[stop_terminate]. by rewrite F2.
    + left. cbn -[stop_terminate]. by rewrite F1.
    + intros o. apply in_progress_reading; [right; by eexists|done].
Qed.

(** Every step but the grant of a Claim. *)
Lemma step_keeps_barriers w e :
  numbered_conns w ->
  match e with EvTurn _ _ _ => is_some (co_controller (iw_control w)) = true | _ => True end ->
  keeps_barriers (reconciles e) w (step w e).
Proof.
  intros Hnum Hsp. pose proof (fun R => keeps_barriers_refl R w) as Hrefl.
  assert (Hin : forall R c f,
            (forall conn, iw_conns w !! c = Some conn -> keeps_barriers R w (f conn (cn_phase conn))) ->
            keeps_barriers R w (in_phase w c f)).
  { intros R c f Hf. unfold in_phase. destruct (iw_conns w !! c) eqn:E; [by apply Hf|done]. }
  assert (Hsame : forall R w', iw_conns w' = iw_conns w -> iw_control w' = iw_control w ->
            keeps_barriers R w w').
  { intros R w' E1 E2. split; rewrite ?E1, ?E2; intros; [eauto|left; eauto]. }
  destruct e as [peer|c|c world now payload written|c now written|c result written
                |c i result written|c|c|c written|c|c written|p|world now|world now|c now written|m];
    unfold wire_step.
  - destruct (stopping w); [done|]. split; [intros ctl H; eauto|].
    intros c conn op. cbn.
    intros [[_ <-]|[_ Hc]]%lookup_insert_Some; [by intros ?%elem_of_nil|left; eauto].
  - apply Hin. intros conn Hc. by apply (keeps_barriers_conn _ _ _ c conn (with_ended conn)); auto.
  - apply Hin. intros conn Hc. destruct (cn_phase conn) eqn:Hph; try done.
    by apply keeps_barriers_request.
  - apply Hin. intros conn Hc. destruct (cn_phase conn) eqn:Hph; try done.
    unfold handle_turn, turn_claim. destruct (co_controller (iw_control w)) as [ctl|] eqn:E; [|done].
    destruct (stopping w); [|destruct (cn_ended conn); [|destruct (bool_decide _); [|done]]];
      (apply (keeps_barriers_respond _ _ _ _ _ _ conn); auto).
  - apply Hin. intros conn Hc. destruct (cn_phase conn) eqn:Hph; try done.
    destruct (fits op result); [|done]. unfold handle_answer.
    destruct (answer _ _ _ _ _) as [cache e].
    destruct (note_started_frame op w) as (E1 & E2 & _).
    apply (keeps_barriers_respond _ _ _ _ _ _ conn); rewrite ?E1, ?E2; auto.
  - apply Hin. intros conn Hc. unfold handle_beside.
    destruct (cn_beside conn !! i) as [[id op]|]; [|done].
    destruct (fits op result); [cbn [negb]|done].
    destruct (note_started_frame op w) as (E1 & E2 & _).
    apply (keeps_barriers_conn _ _ _ c conn (with_beside conn (delete i (cn_beside conn)))); try done.
    + by destruct written; cbn; rewrite E2.
    + left. by destruct written; cbn; rewrite E1.
    + intros o. apply in_progress_delete.
  - apply Hin. intros conn Hc. destruct (cn_phase conn) eqn:Hph; try done.
    destruct (cn_ended conn); [|done].
    apply (keeps_barriers_conn _ _ _ c conn (with_phase conn (Stopped EndLost))); auto.
    intros o. apply in_progress_reading; [right; by eexists|done].
  - apply Hin. intros conn Hc. destruct (cn_phase conn) eqn:Hph; try done.
    destruct (stopping w); [|done].
    apply (keeps_barriers_conn _ _ _ c conn (with_phase conn (Stopped (EndStop None)))); auto.
    intros o. apply in_progress_reading; [right; by eexists|done].
  - apply Hin. intros conn Hc. destruct (cn_phase conn) eqn:Hph; try done.
    apply (keeps_barriers_conn _ _ _ c conn (with_ended (with_phase conn (Draining ending)))); auto;
      [by destruct ending, written|left; by destruct ending, written|].
    intros o. unfold in_progress. cbn. by rewrite Hph.
  - apply Hin. intros conn Hc. destruct (cn_phase conn) eqn:Hph; try done.
    unfold handle_close. destruct (cn_beside conn) eqn:Eb; [|done].
    destruct (release c (iw_control w)) as [k b] eqn:Er.
    eapply (keeps_barriers_conn _ _ _ c conn); [done|reflexivity| |].
    + unfold release in Er. cbn. repeat case_match; simplify_eq; cbn; auto.
    + intros o. unfold in_progress. cbn. rewrite Eb, app_nil_r.
      destruct ending as [| |[]]; by intros ?%elem_of_nil.
  - apply Hin. intros conn Hc. unfold handle_forward. destruct (cn_forwarding conn); [|done].
    destruct (next_event (iw_hub w)) as [[[seq id] queue]|]; [|done].
    destruct written; [by apply Hsame|].
    by apply (keeps_barriers_conn _ _ _ c conn (with_forwarding conn false)); auto.
  - unfold handle_exit. destruct (_ && _); [by apply Hsame|done].
  - destruct (stop_terminate_frame env world now w) as (E1 & E2 & _). by apply Hsame.
  - destruct (handle_end_frame env world now w) as (E1 & E2 & _). by apply Hsame.
  - apply Hin. intros conn Hc.
    destruct (cn_phase conn) as [| | | | |served [id|]] eqn:Hph; try done.
    unfold handle_stop_answer. destruct (st_final (iw_stop w)); [|done]. cbn.
    apply (keeps_barriers_conn _ _ _ c conn (with_phase conn (Closed served None))); auto;
      [by destruct written|left; by destruct written|].
    intros o. unfold in_progress. cbn. by rewrite Hph.
  - destruct (run_moment_frame env m w) as (E1 & E2 & _). by apply Hsame.
Qed.
End barriers.
