(* ===== verification/Claims.v ===== *)
(** The promises of an independent Runner ([Independent], by the invariants of [Control]): only
    the controller's requests are carried out, where a predecessor started work nothing new
    starts until it is reconciled, Claims state the truth, and waiting Claims and exit events
    come to an end. *)
From S2P Require Import Prelude Domain Policy Output Supervisor Api Recovery Wire Independent Control.

Section promises.
Context `{Rep : Reports} `{Order : HashOrder}.
Context (env : option string) (owner_uid claim_wait : Z) (identity : RunnerIdentity)
  (launches : bool).

Abbreviation step := (wire_step env owner_uid claim_wait identity launches).
Abbreviation run := (wire_run env owner_uid claim_wait identity launches).

Lemma wire_reachable_ok r es : fresh r -> wire_ok (run (independent_new r) es).
Proof. intros Hf. by apply wire_run_ok, independent_new_ok. Qed.

(** ** Who controls *)

(** C10: Whenever a connection has an admitted request in progress, or is sent exit events, it is
    the controller, under the last epoch that was granted, and not closed; and then no other
    connection has a request in progress or is sent events. So the requests of two controllers
    never overlap. *)
Theorem only_the_controller_works r es c conn :
  fresh r -> let w := run (independent_new r) es in
  iw_conns w !! c = Some conn -> in_progress conn <> [] \/ cn_forwarding conn = true ->
  (exists barrier, co_controller (iw_control w)
                     = Some (mkController c (co_epoch (iw_control w)) barrier)) /\
  is_closed conn = false /\
  forall d other, d <> c -> iw_conns w !! d = Some other ->
    in_progress other = [] /\ cn_forwarding other = false.
Proof.
  cbn zeta. intros Hf Hc Hwork. pose proof (wo_control _ (wire_reachable_ok r es Hf)) as Hok.
  set (w := run _ es) in *.
  assert (Hctl : controls (iw_control w) c)
    by (destruct Hwork; [by eapply (ca_work _ _ Hok)|by eapply (ca_forward _ _ Hok)]).
  unfold controls in Hctl. destruct (co_controller (iw_control w)) as [ctl|] eqn:E; [|done].
  destruct (ca_open _ _ Hok ctl E) as [He (conn' & Hc' & Hopen)].
  cbn in Hctl. simplify_eq. split; [|split; [done|]].
  - exists (ct_barrier ctl). rewrite <- He. by destruct ctl.
  - intros d other Hd Hod. split.
    + destruct (in_progress other) eqn:Ein; [done|].
      assert (controls (iw_control w) d) as H by (eapply (ca_work _ _ Hok); [done|by rewrite Ein]).
      unfold controls in H. rewrite E in H. cbn in H. congruence.
    + destruct (cn_forwarding other) eqn:Ef; [|done].
      assert (controls (iw_control w) d) as H by (by eapply (ca_forward _ _ Hok)).
      unfold controls in H. rewrite E in H. cbn in H. congruence.
Qed.

(** What anyone may ask: who the Runner is, for an answer that the connection was given, to
    control the Runner and to leave it. *)
Definition for_anyone (op : RunnerOp) : bool :=
  match op with RqHello | RqReplay _ | RqClaim _ | RqDetach => true | _ => false end.

(** The request [op] under [epoch] is not its controller's. *)
Definition stale (k : Control) (c : nat) (epoch : option Z) (op : RunnerOp) : Prop :=
  match co_controller k with
  | Some ctl => ct_connection ctl <> c \/ (fenced op = true /\ epoch <> Some (ct_epoch ctl))
  | None => True
  end.

Lemma admit_stale c epoch op k :
  stale k c epoch op -> exists text, admit_op c epoch op k = (k, Err (stale_controller text)).
Proof.
  unfold stale, admit_op, not_controlling. destruct (co_controller k) as [ctl|]; [|by eexists].
  intros H. case_bool_decide as Hc; [|by eexists]. destruct H as [?|[Hf He]]; [done|].
  rewrite Hf, bool_decide_eq_false_2 by done. cbn. by eexists.
Qed.

(** What the Runner is beside its connections and what it sent: who controls it, its events, its
    stop, its processes with their slots and reservations, and its memory, in which at most the
    request itself is noted: the process [starts] that it asks to start, unless more is known of
    that one. *)
Record untouched (starts : option string) (w w' : IndependentRunner) : Prop := {
  un_control : iw_control w' = iw_control w;
  un_hub : iw_hub w' = iw_hub w;
  un_stop : iw_stop w' = iw_stop w;
  un_launched : iw_launched w' = iw_launched w;
  un_names : iw_names w' = iw_names w;
  un_next : iw_next w' = iw_next w;
  un_inner : rn_inner (iw_runner w') = rn_inner (iw_runner w);
  un_procs : rn_procs (iw_runner w') = rn_procs (iw_runner w);
  un_reserved : rn_reserved (iw_runner w') = rn_reserved (iw_runner w);
  un_limit : rn_max_processes (iw_runner w') = rn_max_processes (iw_runner w);
  un_retention : rn_retention (iw_runner w') = rn_retention (iw_runner w);
  un_keep : mm_keep (rn_memory (iw_runner w')) = mm_keep (rn_memory (iw_runner w));
  un_received id :
    let before := mm_received (rn_memory (iw_runner w)) !! id in
    mm_received (rn_memory (iw_runner w')) !! id =
      if bool_decide (starts = Some id) && is_some (mm_keep (rn_memory (iw_runner w)))
      then Some (default Refused before) else before
}.

Lemma untouched_refl w : untouched None w w.
Proof. by split. Qed.

Lemma untouched_note_started op w : untouched (started_process op) w (note_started op w).
Proof.
  unfold note_started. destruct (started_process op) as [id|]; [|apply untouched_refl].
  cbn. unfold note_received. destruct (remember_frame id Refused (iw_runner w)) as (H1 & H2 & H3 & H4 & H5).
  split; try done; cbn; unfold remember.
  - by destruct (mm_keep (rn_memory (iw_runner w))) eqn:E.
  - intros j. destruct (mm_keep (rn_memory (iw_runner w))) eqn:E; cbn;
      [|by rewrite andb_false_r]. rewrite andb_true_r. case_bool_decide as Hj.
    + injection Hj as ->. by rewrite lookup_insert_eq.
    + rewrite lookup_insert_ne; [done|]. congruence.
Qed.

Lemma untouched_respond starts c written e next w w' :
  untouched starts w w' -> untouched starts w (respond c written e next w').
Proof. intros []. by destruct written. Qed.

(** C18: A request that is not the controller's - another connection's, or, for an operation that
    starts, changes or ends work, one that does not name the current epoch - is answered with a
    stale-controller refusal and changes nothing: no process, slot or reservation, not who
    controls, no event and no other connection. Its own goes on, unless the refusal cannot be
    written. All that stays of it is that an independent Runner remembers having been asked for
    the process that it asked to start, as refused unless it knows more of it. (This is of what
    only the controller may ask; a [Hello], a [Replay], a [Claim] and a [Detach] are anyone's.) *)
Theorem stale_requests_change_nothing w c conn world now id epoch op written :
  iw_conns w !! c = Some conn -> cn_phase conn = Reading -> for_anyone op = false ->
  stale (iw_control w) c epoch op ->
  let w' := step w (EvRequest c world now (Ok (with_epoch (request id op) epoch)) written) in
  untouched (started_process op) w w' /\
  iw_conns w' = <[c := if written then conn else with_phase conn (Stopped EndLost)]> (iw_conns w) /\
  exists text, iw_log w' = iw_log w ++
    (if written then [(c, response id (Err (stale_controller text)))] else []).
Proof.
  intros Hc Hph Hany Hst. destruct (admit_stale _ _ _ _ Hst) as [text Ha].
  assert (Hw : with_control w (iw_control w) = w) by (by destruct w).
  cbn zeta. unfold wire_step, in_phase. rewrite Hc, Hph. unfold handle_request.
  replace (parse_request _) with (Ok (E := WireEnvelope) (id, epoch, Some op)) by done.
  assert (Hgen : forall w0, untouched (started_process op) w w0 -> iw_conns w0 = iw_conns w -> iw_log w0 = iw_log w ->
    let w' := respond c written (response id (Err (stale_controller text))) conn w0 in
    untouched (started_process op) w w' /\
    iw_conns w' = <[c := if written then conn else with_phase conn (Stopped EndLost)]> (iw_conns w) /\
    exists text, iw_log w' = iw_log w ++
      (if written then [(c, response id (Err (stale_controller text)))] else [])).
  { intros w0 Hu E1 E2. split; [by apply untouched_respond|].
    destruct written; cbn; rewrite E1, E2; (split; [done|]); exists text; by rewrite ?app_nil_r. }
  assert (Hnote : forall o, let w0 := note_started o w in
    untouched (started_process o) w w0 /\ iw_conns w0 = iw_conns w /\ iw_log w0 = iw_log w).
  { intros o. split; [apply untouched_note_started|]. unfold note_started.
    by destruct (started_process o). }
  destruct op; try done; cbv beta iota zeta; rewrite Ha, Hw; try (by apply Hgen);
    match goal with |- context [note_started ?o _] =>
      destruct (Hnote o) as (? & ? & ?); by apply Hgen end.
Qed.
(** ** Where work starts *)

(** Nothing new was started in [ws] since [n] processes had been created: a controller has it
    behind its barrier, no request in progress starts work there, and no later process is in it. *)
Record barred (ws : string) (n : nat) (w : IndependentRunner) : Prop := {
  bd_started : ws ∈ co_started_in (iw_control w);
  bd_barrier ctl : co_controller (iw_control w) = Some ctl -> ws ∈ ct_barrier ctl;
  bd_work c conn op : iw_conns w !! c = Some conn -> op ∈ in_progress conn ->
    starts_work op <> Some ws;
  bd_procs id s : rn_inner (iw_runner w) !! id = Some s -> sl_workspace_id s = ws -> sl_proc s < n
}.

Definition is_moment (e : Event) : bool := match e with EvMoment _ => true | _ => false end.

(** Steps that add no process keep the slots' origins. *)
Lemma slots_kept w e id s :
  wire_ok w -> is_moment e = false ->
  rn_inner (iw_runner (step w e)) !! id = Some s ->
  exists s0, rn_inner (iw_runner w) !! id = Some s0 /\ same_process s0 s.
Proof.
  intros Hok Hm Hs. assert (Heff : forall w', effect env w w' ->
    rn_inner (iw_runner w') !! id = Some s ->
    exists s0, rn_inner (iw_runner w) !! id = Some s0 /\ same_process s0 s).
  { intros w' Hef. destruct (ef_runner _ _ _ Hef) as (ms & Hq & ->).
    by apply (quiet_run env ms _ (wo_runner _ Hok) Hq). }
  destruct (special w e) eqn:Hsp; [|by eapply Heff; [apply step_effect|]].
  assert (Hid : forall w', iw_runner w' = iw_runner w ->
    rn_inner (iw_runner w') !! id = Some s ->
    exists s0, rn_inner (iw_runner w) !! id = Some s0 /\ same_process s0 s).
  { intros w' ->. by exists s. }
  revert Hs. destruct e as [| | |c now written| | | | | | |c written|p| | | |m]; try done;
    unfold wire_step, in_phase.
  - destruct (iw_conns w !! c) as [conn|]; [|by apply Hid].
    destruct (cn_phase conn); try by apply Hid. cbn in Hsp.
    destruct (co_controller (iw_control w)) eqn:E; [done|]. rewrite handle_turn_granted by done.
    intros Hs. apply (Heff _ (effect_evict env w now)). by destruct written.
  - destruct (iw_conns w !! c) as [conn|]; [|by apply Hid]. unfold handle_forward.
    destruct (cn_forwarding conn); [|by apply Hid].
    destruct (next_event _) as [[[]]|]; [|by apply Hid]. destruct written; by apply Hid.
  - unfold handle_exit. destruct (_ && _); by apply Hid.
Qed.

Lemma started_kept w e :
  wire_ok w -> co_started_in (iw_control w) ⊆ co_started_in (iw_control (step w e)).
Proof.
  intros Hok. destruct (special w e) eqn:Hsp; [|by eapply ef_started, step_effect].
  destruct e as [| | |c now written| | | | | | |c written|p| | | |m]; try done;
    unfold wire_step, in_phase.
  - destruct (iw_conns w !! c) as [conn|]; [|done]. destruct (cn_phase conn); try done.
    cbn in Hsp. destruct (co_controller (iw_control w)) eqn:E; [done|].
    rewrite handle_turn_granted by done. by destruct written.
  - destruct (iw_conns w !! c) as [conn|]; [|done]. unfold handle_forward.
    destruct (cn_forwarding conn); [|done]. destruct (next_event _) as [[[]]|]; [|done].
    by destruct written.
  - unfold handle_exit. by destruct (_ && _).
  - by destruct (run_moment_frame env m w) as (-> & _).
Qed.

(** A moment's new process is in a workspace where an operation in progress starts work. *)
Lemma may_run_origin w id sw :
  may_run w (OpSpawnEnd id (Ok sw)) = true ->
  exists c conn op, iw_conns w !! c = Some conn /\ op ∈ in_progress conn /\
    starts_work op = Some (sw_workspace_id sw).
Proof.
  cbn. intros H. apply existsb_exists in H as ([c conn] & Hin & H).
  apply list_elem_of_In, elem_of_map_to_list in Hin.
  apply existsb_exists in H as (op & Hop & H). apply list_elem_of_In in Hop. cbn in Hop.
  exists c, conn, op. repeat (split; [done|]).
  destruct op; try done; cbn in H; apply andb_true_iff in H as [_ Hws];
    apply bool_decide_eq_true in Hws; by rewrite Hws.
Qed.

Lemma run_moment_runner w m :
  iw_runner (run_moment env m w)
    = if may_run w (mo_op m) then Supervisor.step env (iw_runner w) m else iw_runner w.
Proof.
  unfold run_moment. destruct (may_run w (mo_op m)); [|done].
  destruct (mo_op m); try done. by destruct (bool_decide _).
Qed.

Lemma barred_slots ws n w e id s :
  wire_ok w -> barred ws n w -> rn_inner (iw_runner (step w e)) !! id = Some s ->
  sl_workspace_id s = ws -> sl_proc s < n.
Proof.
  intros Hok Hb Hs Hws.
  assert (Hold : forall s0, rn_inner (iw_runner w) !! id = Some s0 -> same_process s0 s ->
            sl_proc s < n).
  { intros s0 Hs0 [Ep Ew]. rewrite <- Ep. eapply (bd_procs _ _ _ Hb); [done|]. by rewrite Ew. }
  destruct (is_moment e) eqn:He.
  2:{ destruct (slots_kept w e id s Hok He Hs) as (s0 & Hs0 & Hsame). by apply (Hold s0). }
  destruct e as [| | | | | | | | | | | | | | |m]; try done. unfold wire_step in Hs.
  rewrite run_moment_runner in Hs. destruct (may_run w (mo_op m)) eqn:Hm; [|by apply (Hold s)].
  destruct (step_slot_origin env (iw_runner w) m id s (wo_runner _ Hok) Hs)
    as [(s0 & Hs0 & Hsame)|(sw & Hop & _ & Ew & _)]; [by apply (Hold s0)|].
  rewrite Hop in Hm. apply may_run_origin in Hm as (c & conn & op & Hc & Ho & Hstart).
  destruct (bd_work _ _ _ Hb c conn op Hc Ho). by rewrite Hstart, <- Ew, Hws.
Qed.

(** A turn that grants the waiting Claim. *)
Lemma turn_granted w c now written conn id store dl :
  iw_conns w !! c = Some conn -> cn_phase conn = Claiming id store dl ->
  co_controller (iw_control w) = None ->
  let w' := step w (EvTurn c now written) in
  let next := with_forwarding (with_phase conn Reading) written in
  co_epoch (iw_control w') = (co_epoch (iw_control w) + 1)%Z /\
  co_controller (iw_control w')
    = Some (mkController c (co_epoch (iw_control w) + 1) (co_started_in (iw_control w))) /\
  iw_conns w' = <[c := if written then next else with_phase next (Stopped EndLost)]> (iw_conns w) /\
  iw_log w' = iw_log w ++
    (if written then [(c, response id (Ok (ResClaimed (grants w now))))] else []).
Proof.
  intros Hc Hph Hn. cbn zeta. unfold wire_step, in_phase. rewrite Hc, Hph, handle_turn_granted by done.
  destruct written; by rewrite ?app_nil_r.
Qed.

Lemma barred_granted ws n w c now written conn id store dl :
  iw_conns w !! c = Some conn -> cn_phase conn = Claiming id store dl ->
  co_controller (iw_control w) = None -> barred ws n w ->
  let w' := step w (EvTurn c now written) in
  (forall ctl, co_controller (iw_control w') = Some ctl -> ws ∈ ct_barrier ctl) /\
  (forall d other op, iw_conns w' !! d = Some other -> op ∈ in_progress other ->
     starts_work op <> Some ws).
Proof.
  intros Hc Hph Hnone Hb.
  destruct (turn_granted w c now written conn id store dl Hc Hph Hnone) as (_ & Hctl & Hcs & _).
  cbn zeta in *. split; [intros ctl; rewrite Hctl; intros [= <-]; apply Hb|].
  intros d other op. rewrite Hcs.
  intros [[<- <-]|[_ Hd]]%lookup_insert_Some Ho; [|by eapply (bd_work _ _ _ Hb)].
  eapply (bd_work _ _ _ Hb); [exact Hc|]. revert Ho. destruct written; apply in_progress_reading; eauto.
Qed.

Lemma barred_step ws n w e :
  wire_ok w -> ws ∉ reconciles e -> barred ws n w -> barred ws n (step w e).
Proof.
  intros Hok Hr Hb.
  assert ((forall ctl, co_controller (iw_control (step w e)) = Some ctl -> ws ∈ ct_barrier ctl) /\
    (forall d other op, iw_conns (step w e) !! d = Some other -> op ∈ in_progress other ->
       starts_work op <> Some ws)) as [H1 H2].
  2:{ split; [|done|done|].
      - eapply started_kept; [done|]; apply Hb.
      - intros id s. by apply barred_slots. }
  destruct (match e with EvTurn _ _ _ => is_none (co_controller (iw_control w)) | _ => false end)
    eqn:Hg.
  - destruct e as [| | |d now written| | | | | | | | | | | |]; try done.
    destruct (co_controller (iw_control w)) eqn:E; [done|].
    destruct (iw_conns w !! d) as [conn|] eqn:Hd;
      [destruct (cn_phase conn) eqn:Hph; [|by eapply barred_granted|..]|];
      unfold wire_step, in_phase; rewrite Hd, ?Hph, E;
      (split; [done|]; intros; by eapply (bd_work _ _ _ Hb)).
  - destruct (step_keeps_barriers env owner_uid claim_wait identity launches w e (wo_numbered _ Hok))
      as [G1 G2].
    { destruct e; try done. by destruct (co_controller (iw_control w)). }
    split.
    + intros ctl Hctl. destruct (G1 ctl Hctl) as (ctl0 & H0 & Hmono). by apply Hmono; [apply Hb|].
    + intros d other op Hd Ho. destruct (G2 d other op Hd Ho) as [(conn0 & Hc0 & Ho0)|(ctl & Hctl & Hne)].
      * by eapply (bd_work _ _ _ Hb).
      * intros Hs. by apply (Hne ws Hs), Hb.
Qed.

Lemma barred_run ws es n w :
  wire_ok w -> Forall (fun e => ws ∉ reconciles e) es -> barred ws n w -> barred ws n (run w es).
Proof.
  revert w. induction es as [|e es IH]; intros w Hok Hr Hb; [done|].
  apply Forall_cons in Hr as [He Hr]. apply IH; [by apply wire_step_ok|done|by apply barred_step].
Qed.

(** C11: Once work was begun in a workspace and its controller is gone, every later controller has
    the workspace behind its barrier until a request reconciles it: until then no request that
    starts work there is in progress under any controller, and every process there is one that
    the gone controller had created. *)
Theorem started_work_bars_until_reconciled r es ws later :
  fresh r -> let w := run (independent_new r) es in
  ws ∈ co_started_in (iw_control w) -> co_controller (iw_control w) = None ->
  Forall (fun e => ws ∉ reconciles e) later ->
  let w' := run w later in
  (forall ctl, co_controller (iw_control w') = Some ctl -> ws ∈ ct_barrier ctl) /\
  (forall c conn op, iw_conns w' !! c = Some conn -> op ∈ in_progress conn ->
     starts_work op <> Some ws) /\
  (forall id s, rn_inner (iw_runner w') !! id = Some s -> sl_workspace_id s = ws ->
     sl_proc s < length (rn_procs (iw_runner w))).
Proof.
  cbn zeta. intros Hf Hst Hnone Hl. pose proof (wire_reachable_ok r es Hf) as Hok.
  set (w := run (independent_new r) es) in *.
  destruct (barred_run ws later (length (rn_procs (iw_runner w))) w Hok Hl) as [_ H1 H2 H3]; [|done].
  split; [done|by rewrite Hnone| |].
  - intros c conn op Hc Ho. destruct (in_progress conn) eqn:Ein; [by apply elem_of_nil in Ho|].
    assert (controls (iw_control w) c) as H
      by (eapply (ca_work _ _ (wo_control _ Hok)); [done|by rewrite Ein]).
    unfold controls in H. by rewrite Hnone in H.
  - intros id s Hs _. rewrite <- (wo_names _ Hok).
    destruct (wo_slots _ Hok id s Hs) as [Hp _]. by eapply lookup_lt_Some.
Qed.

(** ** What a Claim states *)

Lemma StronglySorted_lookup {A} (R : A -> A -> Prop) l i j x y :
  StronglySorted R l -> i < j -> l !! i = Some x -> l !! j = Some y -> R x y.
Proof.
  intros Hs. revert i j. induction Hs as [|a l Hs IH Ha]; intros i j Hij Hi Hj; [done|].
  destruct j as [|j]; [lia|]. destruct i as [|i]; cbn in Hi, Hj.
  - simplify_eq. rewrite Forall_forall in Ha. apply Ha. by eapply list_elem_of_lookup_2.
  - apply (IH i j); [lia|done..].
Qed.

(** The answer of each granted Claim is the truth, and stays it: its epoch is one that was
    granted; the workspace of every process that it lists is behind its barrier, and it names
    a previous controller exactly when the barrier is not empty; every exit that it says was
    numbered so far is of a process that it lists as exited, or does not list, or whose name
    is another process's too. And the epochs that the answers state increase strictly. *)
Theorem claims_state_the_truth r es i claim :
  fresh r -> let w := run (independent_new r) es in
  granted w !! i = Some claim ->
  claim_ok w claim /\
  forall j later, i < j -> granted w !! j = Some later -> (cl_epoch claim < cl_epoch later)%Z.
Proof.
  cbn zeta. intros Hf Hi. pose proof (wire_reachable_ok r es Hf) as Hok. split.
  - pose proof (wo_claims _ Hok) as H. rewrite Forall_forall in H. apply H.
    by eapply list_elem_of_lookup_2.
  - intros j later Hij Hj. eapply (StronglySorted_lookup Z.lt); [apply (wo_sorted _ Hok)|exact Hij| |];
      rewrite list_lookup_fmap; [by rewrite Hi|by rewrite Hj].
Qed.

(** Every frame that the Runner writes is well formed: the answer to a request, under the
    protocol, with its id and either a result or an error, or a numbered event; never a
    request, an operation or an epoch. *)
Theorem written_frames_are_well_formed r es c e :
  fresh r -> (c, e) ∈ iw_log (run (independent_new r) es) -> well_formed e.
Proof.
  intros Hf Hin. pose proof (wo_frames _ (wire_reachable_ok r es Hf)) as H.
  rewrite Forall_forall in H. exact (H (c, e) Hin).
Qed.

(** ** Exit events *)

(** C32: The events that controllers were sent, in the order sent, and then those that wait, are
    the exits of ended processes, each once, numbered from 1 in the order in which they were
    noted: no change of controller and no failed write loses, repeats or reorders one. *)
Theorem exit_events_are_sent_once_in_order r es :
  fresh r -> let w := run (independent_new r) es in
  delivered w ++ pending_events w
    = imap (fun i p => (Z.of_nat (S i), default "" (iw_names w !! p))) (hb_exits (iw_hub w)) /\
  NoDup (hb_exits (iw_hub w)) /\
  (forall p, p ∈ hb_exits (iw_hub w) -> completed w p = true).
Proof.
  cbn zeta. intros Hf. pose proof (wire_reachable_ok r es Hf) as Hok.
  split; [apply (wo_events _ Hok)|]. split; [apply (wo_exits _ Hok)|apply (wo_completed _ Hok)].
Qed.

(** One event is sent. *)
Lemma forward_sends w c conn x queue :
  iw_conns w !! c = Some conn -> cn_forwarding conn = true -> pending_events w = x :: queue ->
  let w' := step w (EvForward c true) in
  iw_conns w' !! c = Some conn /\ pending_events w' = queue /\ delivered w' = delivered w ++ [x] /\
  hb_exits (iw_hub w') = hb_exits (iw_hub w) /\ iw_names w' = iw_names w.
Proof.
  intros Hc Hfw Hp. cbn zeta. unfold wire_step, in_phase. rewrite Hc. unfold handle_forward.
  rewrite Hfw. assert (next_event (iw_hub w) = Some (x, queue)) as ->.
  { unfold pending_events, next_event in *. destruct (hb_undelivered (iw_hub w)); cbn in Hp;
      [by simplify_eq|]. by rewrite Hp. }
  destruct x as [seq id]. cbn. split; [done|]. split; [done|].
  split; [|done]. unfold delivered. cbn. by rewrite omap_app.
Qed.

Lemma forward_sends_all w c conn :
  iw_conns w !! c = Some conn -> cn_forwarding conn = true ->
  let w' := run w (replicate (length (pending_events w)) (EvForward c true)) in
  pending_events w' = [] /\ delivered w' = delivered w ++ pending_events w /\
  hb_exits (iw_hub w') = hb_exits (iw_hub w) /\ iw_names w' = iw_names w.
Proof.
  intros Hc Hfw. remember (pending_events w) as l eqn:E. symmetry in E.
  revert w Hc E. induction l as [|x l IH]; intros w Hc E; cbn zeta.
  { cbn. by rewrite app_nil_r. }
  destruct (forward_sends w c conn x l Hc Hfw E) as (Hc' & Hp & Hd & Hx & Hn).
  destruct (IH _ Hc' Hp) as (H1 & H2 & H3 & H4). cbn [length replicate wire_run foldl] in *.
  unfold wire_run in *. rewrite H2, H3, H4, Hd, Hx, Hn, <- app_assoc. done.
Qed.

Lemma exit_noted w p :
  completed w p = true -> p ∈ hb_exits (iw_hub (step w (EvExit p))).
Proof.
  intros Hc. unfold wire_step, handle_exit. unfold completed in Hc. rewrite Hc. cbn [andb].
  case_bool_decide; cbn; [done|]. apply elem_of_app. right. by apply list_elem_of_singleton.
Qed.

Lemma exit_frame w p :
  iw_conns (step w (EvExit p)) = iw_conns w /\ iw_names (step w (EvExit p)) = iw_names w.
Proof. unfold wire_step, handle_exit. by destruct (_ && _). Qed.

(** The exit of a process that ended is sent, however many events wait before it: once its
    task notes it, a forwarder whose writes succeed sends every event that waits within as
    many turns, the exit of this process under its number among them. *)
Theorem every_exit_is_sent r es p c conn :
  fresh r -> let w := run (independent_new r) es in
  completed w p = true -> iw_conns w !! c = Some conn -> cn_forwarding conn = true ->
  let noted := step w (EvExit p) in
  let w' := run noted (replicate (length (pending_events noted)) (EvForward c true)) in
  pending_events w' = [] /\
  exists i, hb_exits (iw_hub w') !! i = Some p /\
    delivered w' !! i = Some (Z.of_nat (S i), default "" (iw_names w !! p)).
Proof.
  cbn zeta. intros Hf Hp Hc Hfw. pose proof (wire_reachable_ok r es Hf) as Hok.
  set (w := run (independent_new r) es) in *. destruct (exit_frame w p) as [E1 E2].
  pose proof (wire_step_ok env owner_uid claim_wait identity launches w (EvExit p) Hok) as Hok1.
  destruct (forward_sends_all (step w (EvExit p)) c conn) as (H1 & H2 & H3 & H4);
    [by rewrite E1|done|]. cbn zeta in *.
  split; [done|]. destruct (list_elem_of_lookup_1 _ _ (exit_noted w p Hp)) as [i Hi].
  exists i. rewrite H3. split; [done|].
  rewrite H2, (wo_events _ Hok1). unfold numbered. rewrite list_lookup_imap, Hi, E2. done.
Qed.

(** ** Waiting Claims *)

(** A Claim that waits is answered at the latest by the first turn at or after its deadline,
    with a grant or a refusal, and its connection goes on to read. *)
Theorem waiting_claims_are_answered w c conn id store deadline now :
  iw_conns w !! c = Some conn -> cn_phase conn = Claiming id store deadline ->
  (deadline <= now)%Z ->
  let w' := step w (EvTurn c now true) in
  (exists result, iw_log w' = iw_log w ++ [(c, response id (Ok result))] /\
     match result with
     | ResClaimed claim =>
         co_controller (iw_control w) = None /\ claim = grants w now /\
         controls (iw_control w') c
     | ResClaimRefused refusal _ =>
         co_controller (iw_control w) <> None /\ iw_control w' = set_claiming (iw_control w) None /\
         (if stopping w then refusal = Stopping else refusal = RequestsRunning)
     | _ => False
     end) /\
  exists next, iw_conns w' !! c = Some next /\ cn_phase next = Reading.
Proof.
  intros Hc Hph Hdl. cbn zeta. destruct (co_controller (iw_control w)) as [ctl|] eqn:E.
  - unfold wire_step, in_phase. rewrite Hc, Hph. unfold handle_turn, turn_claim. rewrite E.
    rewrite (bool_decide_eq_true_2 _ Hdl).
    destruct (stopping w); [|destruct (cn_ended conn)];
      (split; [eexists; split; [reflexivity|done]|]; eexists; split; [apply lookup_insert_eq|done]).
  - destruct (turn_granted w c now true conn id store deadline Hc Hph E) as (_ & Hk & Hcs & Hl).
    cbn zeta in *. split.
    + exists (ResClaimed (grants w now)). split; [done|]. split; [done|]. split; [done|].
      unfold controls. by rewrite Hk.
    + rewrite Hcs, lookup_insert_eq. by eexists.
Qed.

(** *** While a Claim waits for a controller that left its loop *)

Definition conn_of_event (e : Event) : option nat :=
  match e with
  | EvStreamEnd c | EvRequest c _ _ _ _ | EvTurn c _ _ | EvAnswer c _ _ | EvBeside c _ _ _ | EvEnd c
  | EvStopSeen c | EvStopped c _ | EvClose c | EvForward c _ | EvStopAnswer c _ _ => Some c
  | EvAccept _ | EvExit _ | EvStop _ _ | EvEndProcesses _ _ | EvMoment _ => None
  end.

(** A step that leaves the control, and every connection but [c]. *)
Record calm (c : nat) (w w' : IndependentRunner) : Prop := {
  cm_control : iw_control w' = iw_control w;
  cm_conns x : x <> c -> iw_conns w' !! x = iw_conns w !! x
}.

Lemma calm_same c w w' : iw_control w' = iw_control w -> iw_conns w' = iw_conns w -> calm c w w'.
Proof. intros H1 H2. split; [done|]. by rewrite H2. Qed.

Lemma calm_conn c next w w' : calm c w w' -> calm c w (with_conn w' c next).
Proof. intros [H1 H2]. split; [done|]. intros x Hx. cbn. by rewrite lookup_insert_ne by done; apply H2. Qed.

Lemma calm_respond c written e next w w' : calm c w w' -> calm c w (respond c written e next w').
Proof.
  intros [H1 H2]. destruct written; (split; [done|]); intros x Hx; cbn;
    rewrite lookup_insert_ne by done; by apply H2.
Qed.

Lemma calm_note_started c op w w' : calm c w w' -> calm c w (note_started op w').
Proof. intros [H1 H2]. destruct (note_started_frame op w') as (E1 & E2 & _). split; by rewrite ?E1, ?E2. Qed.

Lemma admit_op_calm c epoch op k : ~ controls k c -> exists e, admit_op c epoch op k = (k, Err e).
Proof.
  intros Hn. destruct (admit_stale c epoch op k) as [text ->]; [|by eexists]. unfold stale, controls in *.
  destruct (co_controller k) as [ctl|]; [|done]. left. intros Heq. apply Hn. cbn. by rewrite Heq.
Qed.

(** A request changes nothing of the control while someone claims and its connection does not
    control. *)
Lemma handle_request_calm world now c conn payload written w c0 :
  co_claiming (iw_control w) = Some c0 -> ~ controls (iw_control w) c ->
  calm c w (handle_request owner_uid claim_wait identity launches world now c conn payload written w).
Proof.
  intros Hcl Hn. assert (Hw : with_control w (iw_control w) = w) by (by destruct w).
  assert (Hid : calm c w w) by (by apply calm_same).
  unfold handle_request. destruct (parse_request payload) as [[[id epoch] op]|refusal];
    [|by apply calm_respond].
  destruct op as [op|]; [|destruct (answer _ _ _ _ _); by apply calm_respond].
  destruct op; try (destruct (answer _ _ _ _ _); by apply calm_respond); try by apply calm_conn.
  all: try (match goal with |- context [admit_op _ _ ?o _] =>
              destruct (admit_op_calm c epoch o _ Hn) as [e ->]; rewrite Hw end;
            apply calm_respond; by try apply calm_note_started).
  destruct (begin_claim _ _ _ _ _ _ _) as [control|[refusal text]] eqn:Hb; [|by apply calm_respond].
  apply begin_claim_set in Hb as (_ & Hnone & _). congruence.
Qed.

(** So does every step but the turn of the Claim that waits and the close of the controller. *)
Lemma step_calm w e c0 :
  wire_ok w -> co_claiming (iw_control w) = Some c0 ->
  (forall x conn, iw_conns w !! x = Some conn -> cn_phase conn = Reading -> ~ controls (iw_control w) x) ->
  (forall now written, e <> EvTurn c0 now written) ->
  (forall x, e = EvClose x -> ~ controls (iw_control w) x) ->
  iw_control (step w e) = iw_control w /\
  forall x, conn_of_event e <> Some x -> is_Some (iw_conns w !! x) ->
    iw_conns (step w e) !! x = iw_conns w !! x.
Proof.
  intros Hok Hcl Hreading Hturn Hclose.
  assert (Hin : forall c f, conn_of_event e = Some c ->
    (forall conn, iw_conns w !! c = Some conn -> calm c w (f conn (cn_phase conn))) ->
    step w e = in_phase w c f ->
    iw_control (step w e) = iw_control w /\
    forall x, conn_of_event e <> Some x -> is_Some (iw_conns w !! x) ->
      iw_conns (step w e) !! x = iw_conns w !! x).
  { intros c f -> Hf ->. unfold in_phase. destruct (iw_conns w !! c) eqn:E; [|done].
    destruct (Hf _ eq_refl) as [H1 H2]. split; [done|]. intros x Hx _. apply H2. congruence. }
  assert (Hframe : forall w', iw_control w' = iw_control w -> iw_conns w' = iw_conns w ->
    step w e = w' -> iw_control (step w e) = iw_control w /\
    forall x, conn_of_event e <> Some x -> is_Some (iw_conns w !! x) ->
      iw_conns (step w e) !! x = iw_conns w !! x).
  { intros w' H1 H2 ->. by rewrite H1, H2. }
  assert (Hid : forall c, calm c w w) by (intros c; by apply calm_same).
  destruct e as [peer|c|c world now payload written|c now written|c result written
                |c i result written|c|c|c written|c|c written|p|world now|world now|c now written|m].
  - unfold wire_step. destruct (stopping w); [done|]. cbn. split; [done|]. intros x _ [conn Hx].
    rewrite lookup_insert_ne; [done|]. intros <-. apply (wo_numbered _ Hok) in Hx. lia.
  - eapply Hin; [done| |reflexivity]. intros conn Hc. by apply calm_conn.
  - eapply Hin; [done| |reflexivity]. intros conn Hc. destruct (cn_phase conn) eqn:Hph; try done.
    eapply handle_request_calm; [done|]. by apply (Hreading c conn).
  - eapply Hin; [done| |reflexivity]. intros conn Hc. destruct (cn_phase conn) eqn:Hph; try done.
    exfalso. apply (Hturn now written). f_equal.
    assert (Some c = Some c0) as [= ->]; [|done]. rewrite <- Hcl. symmetry.
    apply (ca_claiming _ _ (wo_control _ Hok)). exists conn. split; [done|]. unfold is_claiming. by rewrite Hph.
  - eapply Hin; [done| |reflexivity]. intros conn Hc. destruct (cn_phase conn) eqn:Hph; try done.
    destruct (fits op result); [|done]. unfold handle_answer. destruct (answer _ _ _ _ _).
    by apply calm_respond, calm_note_started.
  - eapply Hin; [done| |reflexivity]. intros conn Hc. unfold handle_beside.
    destruct (cn_beside conn !! i) as [[id op]|]; [|done]. destruct (negb _); [done|].
    apply calm_conn. destruct written; [|by apply calm_note_started].
    by destruct (calm_note_started c op w w (Hid c)).
  - eapply Hin; [done| |reflexivity]. intros conn Hc. destruct (cn_phase conn); try done.
    destruct (cn_ended conn); [by apply calm_conn|done].
  - eapply Hin; [done| |reflexivity]. intros conn Hc. destruct (cn_phase conn); try done.
    destruct (stopping w); [by apply calm_conn|done].
  - eapply Hin; [done| |reflexivity]. intros conn Hc. destruct (cn_phase conn); try done.
    unfold handle_stopped. apply calm_conn. by destruct ending, written.
  - eapply Hin; [done| |reflexivity]. intros conn Hc. destruct (cn_phase conn); try done.
    unfold handle_close. destruct (cn_beside conn); [|done]. unfold release.
    specialize (Hclose c eq_refl). unfold controls in Hclose.
    destruct (co_controller (iw_control w)) as [ctl|]; [rewrite bool_decide_eq_false_2 by (intros Heq; apply Hclose; cbn; by rewrite Heq)|];
      apply calm_conn; by apply calm_same.
  - eapply Hin; [done| |reflexivity]. intros conn Hc. unfold handle_forward.
    destruct (cn_forwarding conn); [|done]. destruct (next_event _) as [[[]]|]; [|done].
    destruct written; [by apply calm_same|by apply calm_conn, calm_same].
  - eapply Hframe; [..|reflexivity]; unfold wire_step, handle_exit; by destruct (_ && _).
  - destruct (stop_terminate_frame env world now w) as (E1 & E2 & _). by eapply Hframe.
  - destruct (handle_end_frame env world now w) as (E1 & E2 & _). by eapply Hframe.
  - eapply Hin; [done| |reflexivity]. intros conn Hc.
    destruct (cn_phase conn) as [| | | | |served [id|]] eqn:Hph; try done.
    unfold handle_stop_answer. destruct (st_final _); [|done]. destruct (list_inventory _ _).
    destruct written; [|by apply calm_conn, calm_same].
    split; [done|]. intros x Hx. cbn. by rewrite lookup_insert_ne.
  - destruct (run_moment_frame env m w) as (E1 & E2 & _). by eapply Hframe.
Qed.
(** The connection [c] waits with its Claim, and its predecessor [d], which has left its loop, has
    only the requests left that it had; or it has let go. *)
Definition waits (c : nat) (id store : string) (deadline : Z) (w : IndependentRunner) : Prop :=
  exists conn, iw_conns w !! c = Some conn /\ cn_phase conn = Claiming id store deadline.

Definition leaving (conn : Conn) : bool :=
  match cn_phase conn with Stopped _ | Draining _ => true | _ => false end.

Record holding (d : nat) (left : list (string * RunnerOp)) (k : Control) (w : IndependentRunner) : Prop := {
  ho_control : iw_control w = k;
  ho_conn : exists dconn, iw_conns w !! d = Some dconn /\ leaving dconn = true /\
    sublist (cn_beside dconn) left
}.
Definition let_go (k : Control) (w : IndependentRunner) : Prop := iw_control w = set_controller k None.

Lemma claiming_waits w e c id store deadline :
  waits c id store deadline w -> conn_of_event e = Some c ->
  (forall now written, e <> EvTurn c now written) -> waits c id store deadline (step w e).
Proof.
  intros (conn & Hc & Hph) He Hturn.
  assert (Hput : forall next w', cn_phase next = Claiming id store deadline ->
            waits c id store deadline (with_conn w' c next)).
  { intros next w' Hn. exists next. cbn. by rewrite lookup_insert_eq. }
  assert (Hid : waits c id store deadline w) by (by exists conn).
  destruct e; try done; injection He as ->; try (by destruct (Hturn now written));
    unfold wire_step, in_phase; rewrite Hc; try rewrite Hph; try done.
  - by apply Hput.
  - unfold handle_beside. destruct (cn_beside conn !! i) as [[id' op]|]; [|done].
    destruct (negb _); [done|]. by apply Hput.
  - unfold handle_forward. destruct (cn_forwarding conn); [|done].
    destruct (next_event _) as [[[]]|]; [|done]. destruct written; [|by apply Hput]. by exists conn.
Qed.

(** What a connection that left its loop does of its own: its requests end one by one. *)
Lemma leaving_leaves w e d left dconn :
  iw_conns w !! d = Some dconn -> leaving dconn = true -> sublist (cn_beside dconn) left ->
  conn_of_event e = Some d -> e <> EvClose d ->
  exists next, iw_conns (step w e) !! d = Some next /\ leaving next = true /\ sublist (cn_beside next) left.
Proof.
  intros Hd Hl Hs He Hclose.
  assert (Hput : forall next w', leaving next = true -> sublist (cn_beside next) left ->
    exists next', iw_conns (with_conn w' d next) !! d = Some next' /\ leaving next' = true /\
      sublist (cn_beside next') left).
  { intros next w' H1 H2. exists next. cbn. by rewrite lookup_insert_eq. }
  assert (Hid : exists next, iw_conns w !! d = Some next /\ leaving next = true /\ sublist (cn_beside next) left)
    by eauto.
  pose proof Hl as Hl'. unfold leaving in Hl'.
  destruct e; try done; injection He as ->; try done;
    unfold wire_step, in_phase; rewrite Hd; try (by destruct (cn_phase dconn)).
  - by apply Hput.
  - unfold handle_beside. destruct (cn_beside dconn !! i) as [[id op]|]; [|done].
    destruct (negb _); [done|]. apply Hput; [done|]. cbn. etrans; [apply sublist_delete|done].
  - destruct (cn_phase dconn); try done. unfold handle_stopped. by apply Hput.
  - unfold handle_forward. destruct (cn_forwarding dconn); [|done].
    destruct (next_event _) as [[[]]|]; [|done]. destruct written; [exists dconn; done|by apply Hput].
Qed.

(** The end of one of its requests, whatever its result, takes it off. *)
Lemma a_request_ends w d dconn i id op result written :
  iw_conns w !! d = Some dconn -> cn_beside dconn !! i = Some (id, op) -> fits op result = true ->
  iw_conns (step w (EvBeside d i result written)) !! d = Some (with_beside dconn (delete i (cn_beside dconn))).
Proof.
  intros Hd Hi Hf. unfold wire_step, in_phase. rewrite Hd. unfold handle_beside. rewrite Hi, Hf. cbn.
  by rewrite lookup_insert_eq.
Qed.

Lemma waits_claiming w c id store deadline :
  wire_ok w -> waits c id store deadline w -> co_claiming (iw_control w) = Some c.
Proof.
  intros Hok (conn & Hc & Hph). apply (ca_claiming _ _ (wo_control _ Hok)). exists conn.
  unfold is_claiming. by rewrite Hph.
Qed.

Lemma waits_step w e c id store deadline d left k :
  wire_ok w -> waits c id store deadline w -> ct_connection <$> co_controller k = Some d ->
  holding d left k w \/ let_go k w ->
  (forall now written, e = EvTurn c now written -> step w e = w) ->
  waits c id store deadline (step w e) /\ (holding d left k (step w e) \/ let_go k (step w e)).
Proof.
  intros Hok Hc Hk Hd Hturn. pose proof (waits_claiming w c id store deadline Hok Hc) as Hcl.
  assert (Hdec : (exists now written, e = EvTurn c now written) \/
                 (forall now written, e <> EvTurn c now written)).
  { destruct e as [| | |c' now written| | | | | | | | | | | |]; try by right.
    destruct (decide (c' = c)) as [->|]; [left; eauto|right; congruence]. }
  destruct Hdec as [(now & written & He)|Hnot]; [by rewrite (Hturn now written He)|]. clear Hturn.
  assert (Hstep : (forall x conn, iw_conns w !! x = Some conn -> cn_phase conn = Reading -> ~ controls (iw_control w) x) ->
    (forall x, e = EvClose x -> ~ controls (iw_control w) x) ->
    waits c id store deadline (step w e) /\ iw_control (step w e) = iw_control w /\
    forall x, conn_of_event e <> Some x -> is_Some (iw_conns w !! x) -> iw_conns (step w e) !! x = iw_conns w !! x).
  { intros Hr Hcls. destruct (step_calm w e c Hok Hcl Hr Hnot Hcls) as [H1 H2]. split_and!; [|done..].
    destruct (decide (conn_of_event e = Some c)); [by apply claiming_waits|].
    destruct Hc as (conn & Hc & Hph). exists conn. by rewrite H2. }
  destruct Hd as [[Hctl (dconn & Hdc & Hl & Hs)]|Hgo].
  - assert (Hr : forall x conn, iw_conns w !! x = Some conn -> cn_phase conn = Reading -> ~ controls (iw_control w) x).
    { intros x conn Hx Hph Hco. unfold controls in Hco. rewrite Hctl, Hk in Hco. injection Hco as ->.
      assert (conn = dconn) as -> by congruence. unfold leaving in Hl. by rewrite Hph in Hl. }
    assert (Hcl' : e = EvClose d \/ e <> EvClose d).
    { destruct e as [| | | | | | | | |x| | | | | |]; try by right.
      destruct (decide (x = d)) as [->|]; [by left|right; congruence]. }
    destruct Hcl' as [->|Hne].
    + unfold wire_step, in_phase. rewrite Hdc. destruct (cn_phase dconn) eqn:Hph; try (split; [done|left; by split; eauto]).
      unfold handle_close. destruct (cn_beside dconn) eqn:Hb; [|split; [done|left; split; [done|exists dconn; by rewrite Hb]]].
      unfold release. rewrite Hctl. destruct (co_controller k) as [ctl|] eqn:Ek; [|done]. injection Hk as ->.
      rewrite bool_decide_eq_true_2 by done. split; [|by right].
      destruct Hc as (conn & Hc & Hphc). exists conn. cbn. rewrite lookup_insert_ne; [done|]. intros ->. congruence.
    + destruct Hstep as (H1 & H2 & H3); [done| |].
      { intros x -> Hco. unfold controls in Hco. rewrite Hctl, Hk in Hco. by injection Hco as ->. }
      split; [done|]. left. split; [congruence|].
      destruct (decide (conn_of_event e = Some d)); [by eapply leaving_leaves|].
      exists dconn. by rewrite H3.
  - assert (Hnone : forall x, ~ controls (iw_control w) x) by (intros x; unfold controls; by rewrite Hgo).
    destruct Hstep as (H1 & H2 & _); [by intros x conn _ _|by intros x _|]. split; [done|]. right.
    unfold let_go in *. congruence.
Qed.

(** The Claim keeps waiting through [es]: when its connection looks, it goes on to wait. *)
Fixpoint keeps_waiting (c : nat) (w : IndependentRunner) (es : list Event) : Prop :=
  match es with
  | [] => True
  | e :: es =>
      match e with EvTurn x _ _ => x = c -> step w e = w | _ => True end /\
      keeps_waiting c (step w e) es
  end.

Lemma waits_run w es c id store deadline d left k :
  wire_ok w -> waits c id store deadline w -> ct_connection <$> co_controller k = Some d ->
  holding d left k w \/ let_go k w -> keeps_waiting c w es ->
  waits c id store deadline (run w es) /\ (holding d left k (run w es) \/ let_go k (run w es)).
Proof.
  revert w. induction es as [|e es IH]; intros w Hok Hc Hk Hd Hkeep; [done|].
  destruct Hkeep as [Hturn Hkeep].
  destruct (waits_step w e c id store deadline d left k Hok Hc Hk Hd) as [Hc' Hd'];
    [by intros now written ->; apply Hturn|].
  apply (IH (step w e)); try done. by apply wire_step_ok.
Qed.

(** C33: A waiting Claim gets in as soon as its predecessor has let go. Say that the controller's
    connection has left its loop, and consider whatever happens then, in any order - requests of
    all connections, ends of the predecessor's requests with any results, events, a stop - as
    long as the Claim goes on to wait when its connection looks. The Claim waits on and the control
    does not change, but that the predecessor lets go of it; until then it has no request but
    those that it had, each of which is gone once it ends; once none is left and its connection
    noted its own end, its close lets go; and once it has, the Claim's next turn is answered with
    a grant of the next epoch, even past its deadline and while the Runner is stopping. *)
Theorem waiting_claim_succeeds_a_controller_that_left r es0 c id store deadline d dconn ctl es :
  fresh r -> let w := run (independent_new r) es0 in
  waits c id store deadline w ->
  co_controller (iw_control w) = Some ctl -> ct_connection ctl = d ->
  iw_conns w !! d = Some dconn -> leaving dconn = true ->
  keeps_waiting c w es ->
  let w' := run w es in
  waits c id store deadline w' /\
  (iw_control w' = iw_control w /\
   (exists dconn', iw_conns w' !! d = Some dconn' /\ leaving dconn' = true /\
     sublist (cn_beside dconn') (cn_beside dconn) /\
     (forall i id op result written, cn_beside dconn' !! i = Some (id, op) -> fits op result = true ->
        iw_conns (step w' (EvBeside d i result written)) !! d
          = Some (with_beside dconn' (delete i (cn_beside dconn')))) /\
     (forall ending, cn_beside dconn' = [] -> cn_phase dconn' = Draining ending ->
        co_controller (iw_control (step w' (EvClose d))) = None)) \/
   co_controller (iw_control w') = None /\
   forall now, let w2 := step w' (EvTurn c now true) in
     co_controller (iw_control w2)
       = Some (mkController c (co_epoch (iw_control w) + 1) (co_started_in (iw_control w))) /\
     exists claim, iw_log w2 = iw_log w' ++ [(c, response id (Ok (ResClaimed claim)))] /\
       cl_epoch claim = (co_epoch (iw_control w) + 1)%Z).
Proof.
  intros Hf w Hc Hctl Hd Hdc Hl Hkeep w'.
  pose proof (wire_reachable_ok r es0 Hf) as Hok. fold w in Hok.
  destruct (waits_run w es c id store deadline d (cn_beside dconn) (iw_control w) Hok Hc) as [Hc' Hd'].
  - by rewrite Hctl, <- Hd.
  - left. split; [done|]. by exists dconn.
  - done.
  - fold w' in Hc', Hd'. split; [done|]. destruct Hd' as [[Hk (dconn' & Hdc' & Hl' & Hs)]|Hgo].
    + left. split; [done|]. exists dconn'. split_and!; [done..| |].
      * intros i id' op result written. by apply a_request_ends.
      * intros ending Hb Hph. unfold wire_step, in_phase. rewrite Hdc', Hph. unfold handle_close, release.
        rewrite Hb, Hk, Hctl, bool_decide_eq_true_2 by done. done.
    + right. rewrite Hgo. split; [done|]. intros now. destruct Hc' as (conn & Hcc & Hph).
      destruct (turn_granted w' c now true conn id store deadline Hcc Hph) as (_ & Hk4 & _ & Hl4);
        [by rewrite Hgo|]. unfold let_go in Hgo. cbv zeta. cbv zeta in Hk4, Hl4. rewrite Hk4, Hl4, Hgo. split; [done|].
      exists (grants w' now). split; [done|]. unfold grants. cbn [cl_epoch]. by rewrite Hgo.
Qed.
End promises.

(** * A run

    A gateway claims, starts processes and leaves; others follow. *)

#[local] Existing Instance map_order.
#[local] Instance demo_reports : Reports :=
  {| AuthorityInfo := unit; Preparation := unit; LaunchReport := unit |}.

Definition demo_identity : RunnerIdentity := mkRunnerIdentity None 4242 0 "n".
Definition demo_new : IndependentRunner := independent_new small_runner.
Definition demo_run := wire_run None 7 CLAIM_WAIT_BOUND demo_identity true.
Definition demo_step := wire_step None 7 CLAIM_WAIT_BOUND demo_identity true.
Definition demo_ws : Workspace := workspace_new "w" "/srv/w" WorkspaceWrite.

Definition exec (id : string) : RunnerOp :=
  RqExec demo_ws (for_host None ["/bin/true"] id WorkspaceWrite).
Definition ask (c : nat) (id : string) (epoch : option Z) (op : RunnerOp) : Event :=
  EvRequest c world_running 0 (Ok (with_epoch (request id op) epoch)) true.
Definition claim_by (c : nat) : list Event :=
  [EvAccept (Ok 7%Z); ask c "claim" None (RqClaim "db"); EvTurn c 0 true].
Definition mo (op : Supervisor.Op) : Event := EvMoment (mkMoment 0 world_running op).

(** Connection [c] starts [id] in the workspace [w]. *)
Definition start (c : nat) (id : string) (epoch : Z) : list Event :=
  [ask c "exec" (Some epoch) (exec id);
   mo (OpSpawnBegin (Ok tt) id ["/bin/true"]);
   mo (OpSpawnEnd id (Ok (mkSpawned "w" false false 1024 false)));
   EvAnswer c (Ok (ResExec (mkRunnerExecResult id None None))) true].

(** The process at [p] ends, and its exit is numbered. *)
Definition end_process (p : nat) : list Event :=
  (EvMoment <$> end_run 0 p (Some 0%Z) None) ++ [EvExit p].
Definition leave (c : nat) : list Event :=
  [EvStreamEnd c; EvEnd c; EvStopped c true; EvClose c].

(** A run in which a process of [w] ends, its controller leaves and another one comes. *)
Definition two_controllers : list Event :=
  claim_by 1 ++ start 1 "p" 1 ++ end_process 0 ++ [EvForward 1 true] ++ leave 1 ++ claim_by 2.

Definition conn_of (w : IndependentRunner) (c : nat) : Conn :=
  default (conn_new (Ok 7%Z)) (iw_conns w !! c).

(** [p]'s request is in progress. *)
Lemma only_the_controller_works_witness :
  let es := claim_by 1 ++ [ask 1 "exec" (Some 1%Z) (exec "p"); EvAccept (Ok 7%Z)] in
  let w := demo_run demo_new es in
  in_progress (conn_of w 2) = [] /\ cn_forwarding (conn_of w 2) = false.
Proof.
  cbv zeta. set (es := claim_by 1 ++ _).
  pose proof (only_the_controller_works None 7 CLAIM_WAIT_BOUND demo_identity true small_runner es 1
    (conn_of (demo_run demo_new es) 1) small_runner_fresh) as H. cbv zeta in H.
  specialize (H ltac:(vm_compute; reflexivity)). destruct H as (_ & _ & H).
  { left. assert (length (in_progress (conn_of (demo_run demo_new es) 1)) = 1) as E
      by (vm_compute; reflexivity). by destruct (in_progress _). }
  apply (H 2); [done|vm_compute; reflexivity].
Defined.

(** The old epoch under the new controller. *)
Lemma stale_requests_change_nothing_witness :
  let w := demo_run demo_new two_controllers in
  untouched (Some "q") w (demo_step w (ask 2 "x" (Some 1%Z) (exec "q"))).
Proof.
  cbv zeta. set (w := demo_run demo_new two_controllers).
  pose proof (stale_requests_change_nothing None 7 CLAIM_WAIT_BOUND demo_identity true w 2
    (conn_of w 2) world_running 0 "x" (Some 1%Z) (exec "q") true) as H.
  specialize (H ltac:(vm_compute; reflexivity) ltac:(vm_compute; reflexivity) eq_refl).
  refine (proj1 (H _)). unfold stale.
  assert (co_controller (iw_control w) = Some (mkController 2 2 {["w"]})) as ->
    by (vm_compute; reflexivity).
  right. by split.
Defined.

(** The second controller asks for work where the first one did. *)
Lemma started_work_bars_until_reconciled_witness :
  let es := claim_by 1 ++ start 1 "p" 1 ++ leave 1 in
  let later := claim_by 2 ++ [ask 2 "x" (Some 2%Z) (exec "q")] in
  "w" ∈ ct_barrier (default (mkController 0 0 ∅)
    (co_controller (iw_control (demo_run (demo_run demo_new es) later)))).
Proof.
  cbv zeta.
  refine (proj1 (started_work_bars_until_reconciled None 7 CLAIM_WAIT_BOUND demo_identity true
    small_runner (claim_by 1 ++ start 1 "p" 1 ++ leave 1) "w"
    (claim_by 2 ++ [ask 2 "x" (Some 2%Z) (exec "q")]) small_runner_fresh _ _ _) _ _).
  - apply (bool_decide_unpack _). vm_compute. exact I.
  - vm_compute. reflexivity.
  - repeat constructor; by intros ?%elem_of_nil.
  - vm_compute. reflexivity.
Defined.

(** The second Claim lists the first controller's process. *)
Lemma claims_state_the_truth_witness :
  let w := demo_run demo_new two_controllers in
  let claim := default (grants w 0) (granted w !! 1) in
  cl_epoch claim = 2%Z /\ length (cl_processes claim) = 1 /\ claim_ok w claim.
Proof.
  cbv zeta. set (w := demo_run demo_new two_controllers).
  split; [vm_compute; reflexivity|]. split; [vm_compute; reflexivity|].
  refine (proj1 (claims_state_the_truth None 7 CLAIM_WAIT_BOUND demo_identity true small_runner
      two_controllers 1 (default (grants w 0) (granted w !! 1)) small_runner_fresh _)).
  vm_compute. reflexivity.
Defined.

Lemma written_frames_are_well_formed_witness :
  well_formed (event 1 (ProcessExited "p")).
Proof.
  refine (written_frames_are_well_formed None 7 CLAIM_WAIT_BOUND demo_identity true small_runner
    two_controllers 1 (event 1 (ProcessExited "p")) small_runner_fresh _).
  apply (list_elem_of_lookup_2 _ 2). vm_compute. reflexivity.
Defined.

(** Two exits, one of them sent. *)
Lemma exit_events_are_sent_once_in_order_witness :
  let es := claim_by 1 ++ start 1 "p" 1 ++ start 1 "q" 1 ++ end_process 1 ++ end_process 0 ++
            [EvForward 1 true] in
  let w := demo_run demo_new es in
  delivered w = [(1%Z, "q")] /\ pending_events w = [(2%Z, "p")] /\ NoDup (hb_exits (iw_hub w)).
Proof.
  cbv zeta. set (es := claim_by 1 ++ _). split; [vm_compute; reflexivity|].
  split; [vm_compute; reflexivity|].
  exact (proj1 (proj2 (exit_events_are_sent_once_in_order None 7 CLAIM_WAIT_BOUND demo_identity true
    small_runner es small_runner_fresh))).
Defined.

(** [p] has ended, and its exit is not noted yet. *)
Lemma every_exit_is_sent_witness :
  let es := claim_by 1 ++ start 1 "p" 1 ++ (EvMoment <$> end_run 0 0 (Some 0%Z) None) in
  let noted := demo_step (demo_run demo_new es) (EvExit 0) in
  let w' := demo_run noted (replicate (length (pending_events noted)) (EvForward 1 true)) in
  exists i, hb_exits (iw_hub w') !! i = Some 0 /\ delivered w' !! i = Some (Z.of_nat (S i), "p").
Proof.
  cbv zeta. set (es := claim_by 1 ++ _).
  pose proof (every_exit_is_sent None 7 CLAIM_WAIT_BOUND demo_identity true small_runner es 0 1
    (conn_of (demo_run demo_new es) 1) small_runner_fresh) as H. cbv zeta in H.
  specialize (H ltac:(vm_compute; reflexivity) ltac:(vm_compute; reflexivity)
    ltac:(vm_compute; reflexivity)).
  destruct H as (_ & i & Hx & Hd). exists i. split; [exact Hx|].
  refine (eq_trans Hd _). vm_compute. reflexivity.
Defined.

(** The controller's stream ends, another connection claims, and the controller leaves its loop
    with a request that still runs. *)
Definition left_behind : list Event :=
  claim_by 1 ++
  [ask 1 "r" (Some 1%Z) RqRegistration; EvStreamEnd 1; EvEnd 1; EvAccept (Ok 7%Z);
   ask 2 "claim" None (RqClaim "db")].

Lemma waiting_claims_are_answered_witness :
  let w := demo_run demo_new left_behind in
  exists next,
    iw_conns (demo_step w (EvTurn 2 CLAIM_WAIT_BOUND true)) !! 2 = Some next /\
    cn_phase next = Reading.
Proof.
  cbv zeta. set (w := demo_run demo_new left_behind).
  refine (proj2 (waiting_claims_are_answered None 7 CLAIM_WAIT_BOUND demo_identity true w 2
    (conn_of w 2) "claim" "db" CLAIM_WAIT_BOUND CLAIM_WAIT_BOUND _ _ _)).
  - vm_compute. reflexivity.
  - vm_compute. reflexivity.
  - vm_compute. discriminate.
Defined.

(** Meanwhile the Claim looks, another connection comes and asks, and the request that still runs
    is answered; then the controller closes. *)
Definition meanwhile_left : list Event :=
  [EvTurn 2 0 true; EvStopped 1 true; EvAccept (Ok 7%Z); ask 3 "claim" None (RqClaim "db");
   EvBeside 1 0 (Ok (ResRegistration tt)) true; EvTurn 2 1 true; EvClose 1].

Lemma waiting_claim_succeeds_a_controller_that_left_witness :
  let runs := wire_run None 7 CLAIM_WAIT_BOUND demo_identity true in
  let w := runs (independent_new small_runner) left_behind in
  let w' := runs w meanwhile_left in
  co_controller (iw_control w) = Some (mkController 1 1 ∅) /\
  co_controller (iw_control (wire_step None 7 CLAIM_WAIT_BOUND demo_identity true w' (EvTurn 2 0 true)))
    = Some (mkController 2 (co_epoch (iw_control w) + 1) (co_started_in (iw_control w))).
Proof.
  cbv zeta. split; [vm_compute; reflexivity|].
  destruct (waiting_claim_succeeds_a_controller_that_left None 7 CLAIM_WAIT_BOUND demo_identity true
    small_runner left_behind 2 "claim" "db" CLAIM_WAIT_BOUND 1 (conn_of (demo_run demo_new left_behind) 1)
    (mkController 1 1 ∅) meanwhile_left small_runner_fresh) as (_ & [(Hk & _)|(_ & Hgrant)]).
  - eexists. split; vm_compute; reflexivity.
  - vm_compute. reflexivity.
  - reflexivity.
  - vm_compute. reflexivity.
  - vm_compute. reflexivity.
  - repeat (split; [first [exact I | intros _; vm_compute; reflexivity | vm_compute; discriminate]|]).
    exact I.
  - exfalso. apply (f_equal co_controller) in Hk. vm_compute in Hk. discriminate Hk.
  - exact (proj1 (Hgrant 0%Z)).
Defined.
