(* ===== verification/Threads.v ===== *)
(** Tool calls in flight. A [call] is what one [async fn] of the gateway does: turns at the state
    that the calls share, each one call of the store, the records or the recovery under its
    lock, and requests to the Runner, whose answers it awaits. A [pool] is any number of calls
    in flight, whose turns and answers interleave in any order, together with what else happens
    in the gateway. [upholds] is what a call has to keep for an invariant of the pool, one turn
    at a time; a call that upholds the invariant by its parts upholds it as a whole. *)
From S2P Require Import Prelude.

(** * Calls *)

Section calls.
Context {State Request : Type} {Answer : Request -> Type}.

(** [Turn step k] waits until [step] can be taken in the state; a lock's ticket can be polled
    once its channel was answered, and every other step always. *)
Inductive call (A : Type) : Type :=
  | Return (a : A)
  | Turn {B : Type} (step : State -> option (B * State)) (k : B -> call A)
  | Ask (q : Request) (k : Answer q -> call A).
#[global] Arguments Return {A} a.
#[global] Arguments Turn {A B} step k.
#[global] Arguments Ask {A} q k.

#[export] Instance call_ret : MRet call := fun A a => Return a.
#[export] Instance call_bind : MBind call := fun A B f =>
  fix go (c : call A) : call B :=
    match c with
    | Return a => f a
    | Turn step k => Turn step (fun b => go (k b))
    | Ask q k => Ask q (fun a => go (k a))
    end.
#[export] Instance call_fmap : FMap call := fun A B f c => c ≫= fun a => Return (f a).

(** One call under a lock, which returns at once. *)
Definition turn {B} (f : State -> B * State) : call B := Turn (fun s => Some (f s)) Return.
Definition look {B} (f : State -> B) : call B := turn (fun s => (f s, s)).
Definition update (f : State -> State) : call unit := turn (fun s => (tt, f s)).
Definition await {B} (f : State -> option (B * State)) : call B := Turn f Return.
Definition ask (q : Request) : call (Answer q) := Ask q Return.

(** [?] in an [async fn] that returns a [Result]. *)
Definition try {E A B} (m : result E A) (k : A -> call (result E B)) : call (result E B) :=
  match m with Ok a => k a | Err e => Return (Err e) end.

(** A call that asks only what satisfies [may], whatever it finds, and returns only what
    satisfies [P]. *)
Fixpoint quiet (may : Request -> Prop) {A} (P : A -> Prop) (c : call A) : Prop :=
  match c with
  | Return a => P a
  | Turn _ k => forall b, quiet may P (k b)
  | Ask q k => may q /\ forall a, quiet may P (k a)
  end.

Lemma quiet_bind may {A B} (P : A -> Prop) (Q : B -> Prop) (c : call A) (f : A -> call B) :
  quiet may P c -> (forall a, P a -> quiet may Q (f a)) -> quiet may Q (c ≫= f).
Proof. intros Hc Hf. induction c; cbn in *; intuition auto. Qed.

Lemma quiet_mono may {A} (P Q : A -> Prop) (c : call A) :
  (forall a, P a -> Q a) -> quiet may P c -> quiet may Q c.
Proof. intros HPQ. induction c; cbn; intuition auto. Qed.

Lemma quiet_try may {E A B} (P : result E B -> Prop) (m : result E A)
    (k : A -> call (result E B)) :
  (forall a, m = Ok a -> quiet may P (k a)) -> (forall e, m = Err e -> P (Err e)) ->
  quiet may P (try m k).
Proof. destruct m; cbn; auto. Qed.

(** A call whose turns all relate the states before and after by [R], and whose requests satisfy
    [sends]. *)
Fixpoint along (R : State -> State -> Prop) (sends : Request -> Prop) {A} (c : call A) : Prop :=
  match c with
  | Return _ => True
  | Turn step k =>
      (forall s b s', step s = Some (b, s') -> R s s') /\ forall b, along R sends (k b)
  | Ask q k => sends q /\ forall a, along R sends (k a)
  end.

Lemma along_bind R sends {A B} (c : call A) (f : A -> call B) :
  along R sends c -> (forall a, along R sends (f a)) -> along R sends (c ≫= f).
Proof. intros Hc Hf. induction c; cbn in *; naive_solver. Qed.

Lemma along_fmap R sends {A B} (c : call A) (f : A -> B) :
  along R sends c -> along R sends (f <$> c).
Proof. intros Hc. by apply along_bind. Qed.

Lemma along_try R sends {E A B} (m : result E A) (k : A -> call (result E B)) :
  (forall a, along R sends (k a)) -> along R sends (try m k).
Proof. intros Hk. destruct m; cbn; [apply Hk|done]. Qed.

(** At most [n] turns and requests remain. *)
Fixpoint within (n : nat) {A} (c : call A) {struct c} : Prop :=
  match c, n with
  | Return _, _ => True
  | Turn _ k, S n => forall b, within n (k b)
  | Ask _ k, S n => forall a, within n (k a)
  | _, 0 => False
  end.

Lemma within_mono n m {A} (c : call A) : n <= m -> within n c -> within m c.
Proof.
  revert n m. induction c as [a|B step k IH|q k IH]; intros [|n] [|m] Hle; cbn; try done;
    try lia; intros Hk b; (eapply IH; [|apply Hk]; lia).
Qed.

Lemma within_bind n m {A B} (c : call A) (f : A -> call B) :
  within n c -> (forall a, within m (f a)) -> within (n + m) (c ≫= f).
Proof.
  intros Hc Hf. revert n Hc. induction c as [a|C step k IH|q k IH]; intros n Hk.
  - apply (within_mono m); [lia|apply Hf].
  - destruct n; cbn in *; [done|]. intros b. by apply IH.
  - destruct n; cbn in *; [done|]. intros b. by apply IH.
Qed.

(** A part of a call that ends within [m], and what is left for the rest. *)
Lemma within_seq n m {A B} (c : call A) (f : A -> call B) :
  within m c -> m <= n -> (forall a, within (n - m) (f a)) -> within n (c ≫= f).
Proof.
  intros Hc Hle Hf. replace n with (m + (n - m)) by lia. by apply within_bind.
Qed.

Lemma within_fmap n {A B} (c : call A) (f : A -> B) : within n c -> within n (f <$> c).
Proof. intros Hc. apply (within_seq n n); [done..|]. intros a. by rewrite Nat.sub_diag. Qed.

Lemma within_try n {E A B} (m : result E A) (k : A -> call (result E B)) :
  (forall a, within n (k a)) -> within n (try m k).
Proof. intros Hk. destruct m; cbn; [apply Hk|done]. Qed.

End calls.

#[global] Arguments call : clear implicits.

(** * Pools *)

Section pools.
Context {State Request : Type} {Answer : Request -> Type}.
(** What a client can call, what serves it and with what kind of result; what else happens. *)
Context {Tool Result Other : Type}.
Context (serve : Tool -> call State Request Answer Result).
Context (other_step : Other -> State -> State -> Prop).
Context (restarted : State -> State -> Prop).

Inductive event :=
  | Called (i : nat) (t : Tool)
  | Sent (i : nat) (q : Request)
  | Answered (i : nat) (q : Request) (a : Answer q)
  | Happened (o : Other)
  | Restarted.

(** A call in flight either has its next turn to take, or awaits the Runner's answer; one that was
    in flight when the gateway was restarted is dropped. *)
Inductive thread :=
  | Running (c : call State Request Answer Result)
  | Waiting (q : Request) (k : Answer q -> call State Request Answer Result)
  | Dropped.

Record pool := mkPool {
  pl_state : State;
  pl_threads : list thread;
  pl_log : list event
}.

Inductive pool_step : pool -> pool -> Prop :=
  | step_called s T log t :
      pool_step (mkPool s T log)
        (mkPool s (T ++ [Running (serve t)]) (log ++ [Called (length T) t]))
  | step_turn s T log i B (step : State -> option (B * State)) k b s' :
      T !! i = Some (Running (Turn step k)) -> step s = Some (b, s') ->
      pool_step (mkPool s T log) (mkPool s' (<[i := Running (k b)]> T) log)
  | step_ask s T log i q k :
      T !! i = Some (Running (Ask q k)) ->
      pool_step (mkPool s T log) (mkPool s (<[i := Waiting q k]> T) (log ++ [Sent i q]))
  | step_answer s T log i q k a :
      T !! i = Some (Waiting q k) ->
      pool_step (mkPool s T log)
        (mkPool s (<[i := Running (k a)]> T) (log ++ [Answered i q a]))
  | step_other s T log o s' :
      other_step o s s' ->
      pool_step (mkPool s T log) (mkPool s' T (log ++ [Happened o]))
  | step_restart s T log s' :
      restarted s s' ->
      pool_step (mkPool s T log) (mkPool s' ((fun _ => Dropped) <$> T) (log ++ [Restarted])).

Definition pool_start (s : State) : pool := mkPool s [] [].
Definition pool_reachable (s : State) (p : pool) : Prop := rtc pool_step (pool_start s) p.

(** What a call awaits the Runner's answer to, and what it returned. *)
Definition awaiting (p : pool) (i : nat) : option Request :=
  match pl_threads p !! i with Some (Waiting q _) => Some q | _ => None end.
Definition returned (p : pool) (i : nat) : option Result :=
  match pl_threads p !! i with Some (Running (Return r)) => Some r | _ => None end.

Lemma awaiting_thread p i q :
  awaiting p i = Some q -> exists k, pl_threads p !! i = Some (Waiting q k).
Proof. unfold awaiting. repeat case_match; naive_solver. Qed.

Lemma returned_thread p i r :
  returned p i = Some r -> pl_threads p !! i = Some (Running (Return r)).
Proof. unfold returned. repeat case_match; naive_solver. Qed.

(** ** Schedules: a pool run step by step, to evaluate it. A move that is not possible leaves the
    pool as it is. *)
Inductive move :=
  | MCall (t : Tool)
  | MTurn (i : nat)
  | MAnswer (i : nat) (a : forall q, Answer q)
  | MOther (o : Other).

Context (other_run : Other -> State -> State).

Definition move_run (p : pool) (m : move) : pool :=
  let s := pl_state p in
  let T := pl_threads p in
  let log := pl_log p in
  match m with
  | MCall t => mkPool s (T ++ [Running (serve t)]) (log ++ [Called (length T) t])
  | MTurn i =>
      match T !! i with
      | Some (Running (Turn step k)) =>
          match step s with
          | Some (b, s') => mkPool s' (<[i := Running (k b)]> T) log
          | None => p
          end
      | Some (Running (Ask q k)) => mkPool s (<[i := Waiting q k]> T) (log ++ [Sent i q])
      | _ => p
      end
  | MAnswer i a =>
      match T !! i with
      | Some (Waiting q k) => mkPool s (<[i := Running (k (a q))]> T) (log ++ [Answered i q (a q)])
      | _ => p
      end
  | MOther o => mkPool (other_run o s) T (log ++ [Happened o])
  end.

Definition schedule (s : State) (ms : list move) : pool := foldl move_run (pool_start s) ms.

Lemma schedule_reachable s ms :
  (forall o s, other_step o s (other_run o s)) -> pool_reachable s (schedule s ms).
Proof.
  intros Hother. unfold pool_reachable, schedule. generalize (pool_start s). clear s.
  induction ms as [|m ms IH]; intros p; [done|]. cbn. etrans; [|apply IH]. clear IH.
  destruct p as [s T log]. destruct m as [t|i|i a|o]; cbn.
  - apply rtc_once, step_called.
  - destruct (T !! i) as [[[r|B step k|q k]|q k|]|] eqn:Ht; try done.
    + destruct (step s) as [[b s']|] eqn:Hs; [|done]. by apply rtc_once, (step_turn _ _ _ _ B step).
    + by apply rtc_once, step_ask.
  - destruct (T !! i) as [[|q k|]|] eqn:Ht; try done. by apply rtc_once, step_answer.
  - by apply rtc_once, step_other.
Qed.

(** * Invariants of pools

    [Local] is what a call has of its own at a point of its course: the locks it holds, what it
    wrote and will write again, the request it awaits. [Inv] relates it to the state and to what
    was sent so far. *)
Section invariants.
Context {Local : Type}.
Context (Inv : State -> list event -> list Local -> Prop).
(** What a call has when it is called, when it returned [r], and while it awaits [q]. *)
Context (at_start : Tool -> Local) (at_end : Result -> Local -> Prop).
Context (awaits : Request -> Local -> Prop).
(** What is left of it once it is gone. *)
Context (gone : Local).

Definition answer_upholds (i : nat) (q : Request) (l : Local)
    (after : Local -> Answer q -> Prop) : Prop :=
  forall a s log (L : list Local), Inv s log L -> L !! i = Some l ->
    exists l', Inv s (log ++ [Answered i q a]) (<[i := l']> L) /\ after l' a.

Fixpoint upholds {A} (i : nat) (Q : A -> Local -> Prop) (c : call State Request Answer A)
    (l : Local) : Prop :=
  match c with
  | Return a => Q a l
  | Turn step k =>
      forall s log (L : list Local) b s', Inv s log L -> L !! i = Some l ->
        step s = Some (b, s') ->
        exists l', Inv s' log (<[i := l']> L) /\ upholds i Q (k b) l'
  | Ask q k =>
      forall s log (L : list Local), Inv s log L -> L !! i = Some l ->
        exists l', Inv s (log ++ [Sent i q]) (<[i := l']> L) /\ awaits q l' /\
          answer_upholds i q l' (fun l' a => upholds i Q (k a) l')
  end.

Lemma answer_upholds_mono i q l (P : Local -> Answer q -> Prop) (P' : Local -> Answer q -> Prop) :
  (forall l a, P l a -> P' l a) ->
  answer_upholds i q l P -> answer_upholds i q l P'.
Proof. intros HP H a s log L HI Hl. destruct (H a s log L HI Hl) as (l' & ? & ?). eauto. Qed.

Lemma upholds_mono {A} i (Q Q' : A -> Local -> Prop) c l :
  (forall a l, Q a l -> Q' a l) -> upholds i Q c l -> upholds i Q' c l.
Proof.
  intros HQ. revert l. induction c as [a|B step k IH|q k IH]; intros l; cbn; [auto|..].
  - intros H s log L b s' HI Hl Hs. destruct (H s log L b s' HI Hl Hs) as (l' & ? & ?). eauto.
  - intros H s log L HI Hl. destruct (H s log L HI Hl) as (l' & ? & ? & Ha).
    exists l'. split_and!; [done..|]. eapply answer_upholds_mono; [|exact Ha]. cbn. auto.
Qed.

Lemma upholds_bind {A B} i (Q : B -> Local -> Prop) (c : call State Request Answer A)
    (f : A -> call State Request Answer B) l :
  upholds i (fun a l => upholds i Q (f a) l) c l -> upholds i Q (c ≫= f) l.
Proof.
  revert l. induction c as [a|C step k IH|q k IH]; intros l; cbn; [auto|..].
  - intros H s log L b s' HI Hl Hs. destruct (H s log L b s' HI Hl Hs) as (l' & ? & ?).
    exists l'. split; [done|]. by apply IH.
  - intros H s log L HI Hl. destruct (H s log L HI Hl) as (l' & ? & ? & Ha).
    exists l'. split_and!; [done..|]. eapply answer_upholds_mono; [|exact Ha].
    intros l2 a. apply IH.
Qed.

Lemma upholds_turn {A B} i (Q : A -> Local -> Prop) (f : State -> B * State)
    (k : B -> call State Request Answer A) l :
  (forall s log (L : list Local), Inv s log L -> L !! i = Some l ->
     exists l', Inv (f s).2 log (<[i := l']> L) /\ upholds i Q (k (f s).1) l') ->
  upholds i Q (turn f ≫= k) l.
Proof.
  intros H s log L b s' HI Hl [= Hf]. destruct (H s log L HI Hl) as (l' & HI' & Hk).
  rewrite Hf in *. eauto.
Qed.

(** A turn that reads, and leaves the call's own state as it is. *)
Lemma upholds_look {A B} i (Q : A -> Local -> Prop) (f : State -> B)
    (k : B -> call State Request Answer A) l :
  (forall s log (L : list Local), Inv s log L -> L !! i = Some l -> upholds i Q (k (f s)) l) ->
  upholds i Q (look f ≫= k) l.
Proof.
  intros H. apply upholds_turn. intros s log L HI Hl. exists l. cbn.
  rewrite list_insert_id by done. split; [done|]. by apply (H s log L).
Qed.

Lemma upholds_try {E A B} i Q (m : result E A) (k : A -> call State Request Answer (result E B)) l :
  (forall a, m = Ok a -> upholds i Q (k a) l) ->
  (forall e, m = Err e -> Q (Err e) l) -> upholds i Q (try m k) l.
Proof. destruct m; cbn; auto. Qed.

(** A call along which the invariant holds whatever is its own part. *)
Lemma upholds_along {A} i (Q : A -> Local -> Prop) (R : State -> State -> Prop)
    (sends : Request -> Prop) (c : call State Request Answer A) (l : Local) :
  (forall s s' log L, Inv s log L -> L !! i = Some l -> R s s' -> Inv s' log L) ->
  (forall s log L q, Inv s log L -> L !! i = Some l -> sends q ->
     exists l', Inv s (log ++ [Sent i q]) (<[i := l']> L) /\ awaits q l' /\
       forall a s log (L : list Local), Inv s log L -> L !! i = Some l' ->
         Inv s (log ++ [Answered i q a]) (<[i := l]> L)) ->
  along R sends c -> (forall a, Q a l) -> upholds i Q c l.
Proof.
  intros HR Hask Hc HQ. induction c as [a|B step k IH|q k IH]; cbn in *; [auto|..].
  - intros s log L b s' HI Hl Hs. exists l. rewrite list_insert_id by done.
    destruct Hc as [Hstep Hk]. split; [by eapply HR, Hstep|]. by apply IH.
  - intros s log L HI Hl. destruct (Hask s log L q HI Hl) as (l' & H1 & H2 & H3); [apply Hc|].
    exists l'. split_and!; [done..|]. intros a s1 log1 L1 HI1 Hl1. exists l.
    destruct Hc as [_ Hk]. split; [by apply H3|]. by apply IH.
Qed.

(** ** Adequacy *)

Definition thread_upholds (i : nat) (t : thread) (l : Local) : Prop :=
  match t with
  | Running c => upholds i at_end c l
  | Waiting q k =>
      awaits q l /\ answer_upholds i q l (fun l' a => upholds i at_end (k a) l')
  | Dropped => l = gone
  end.

Definition pool_upholds (p : pool) : Prop :=
  exists L, Inv (pl_state p) (pl_log p) L /\ length L = length (pl_threads p) /\
    forall i t l, pl_threads p !! i = Some t -> L !! i = Some l -> thread_upholds i t l.

(** What has to be shown of an invariant. *)
Record invariant (start : State) : Prop := {
  inv_start : Inv start [] [];
  inv_called s log L t : Inv s log L ->
    Inv s (log ++ [Called (length L) t]) (L ++ [at_start t]);
  inv_serve i t : upholds i at_end (serve t) (at_start t);
  inv_other s log L o s' : Inv s log L -> other_step o s s' -> Inv s' (log ++ [Happened o]) L;
  inv_restarted s log L s' : Inv s log L -> restarted s s' ->
    Inv s' (log ++ [Restarted]) ((fun _ => gone) <$> L)
}.

Lemma insert_upholds (T : list thread) (L : list Local) i t l t' l' :
  length L = length T -> T !! i = Some t -> L !! i = Some l -> thread_upholds i t' l' ->
  (forall j t l, T !! j = Some t -> L !! j = Some l -> thread_upholds j t l) ->
  length (<[i := l']> L) = length (<[i := t']> T) /\
  forall j t l, <[i := t']> T !! j = Some t -> <[i := l']> L !! j = Some l ->
    thread_upholds j t l.
Proof.
  intros Hlen Ht Hl Hn Hold. rewrite !length_insert. split; [done|]. intros j t2 l2.
  destruct (decide (j = i)) as [->|Hne].
  - rewrite !list_lookup_insert_eq by (by eapply lookup_lt_Some). by intros [= <-] [= <-].
  - rewrite !list_lookup_insert_ne by done. apply Hold.
Qed.

Lemma pool_step_upholds start p p' :
  invariant start -> pool_step p p' -> pool_upholds p -> pool_upholds p'.
Proof.
  intros Hinv Hstep (L & HI & Hlen & Hth).
  assert (Hl : forall i t, pl_threads p !! i = Some t -> exists l, L !! i = Some l).
  { intros i t Ht. apply lookup_lt_is_Some. rewrite Hlen. by eapply lookup_lt_Some. }
  destruct Hstep as [s T log t|s T log i B step k b s' Ht Hs|s T log i q k Ht|s T log i q k a Ht
                    |s T log o s' Ho|s T log s' Hr]; cbn in *.
  - exists (L ++ [at_start t]). cbn. rewrite <- Hlen. split_and!.
    + by apply (inv_called start Hinv).
    + rewrite !length_app. cbn. lia.
    + intros i t2 l2. rewrite !lookup_app_Some, !list_lookup_singleton_Some.
      intros [Ht2|(Hge & Hi & <-)] [Hl2|(Hge' & Hi' & <-)].
      * by eapply Hth.
      * apply lookup_lt_Some in Ht2. lia.
      * apply lookup_lt_Some in Hl2. lia.
      * apply (inv_serve start Hinv).
  - destruct (Hl _ _ Ht) as [l Hli]. pose proof (Hth _ _ _ Ht Hli) as Hu.
    destruct (Hu s log L b s' HI Hli Hs) as (l' & HI' & Hu').
    exists (<[i := l']> L). cbn. split; [done|].
    by apply (insert_upholds T L i (Running (Turn step k)) l).
  - destruct (Hl _ _ Ht) as [l Hli]. pose proof (Hth _ _ _ Ht Hli) as Hu.
    destruct (Hu s log L HI Hli) as (l' & HI' & Hw).
    exists (<[i := l']> L). cbn. split; [done|].
    by apply (insert_upholds T L i (Running (Ask q k)) l).
  - destruct (Hl _ _ Ht) as [l Hli]. destruct (Hth _ _ _ Ht Hli) as [_ Hu].
    destruct (Hu a s log L HI Hli) as (l' & HI' & Hu').
    exists (<[i := l']> L). cbn. split; [done|].
    by apply (insert_upholds T L i (Waiting q k) l).
  - exists L. cbn. split; [|done]. by eapply (inv_other start Hinv).
  - exists ((fun _ => gone) <$> L). cbn. rewrite !length_fmap. split_and!; [|done|].
    + by eapply (inv_restarted start Hinv).
    + intros i t l. rewrite !list_lookup_fmap_Some. by intros (_ & -> & _) (_ & -> & _).
Qed.

(** In every pool that is reached, the calls in flight have their own state, and the invariant
    relates it to the shared one. *)
Lemma pool_reachable_upholds start p :
  invariant start -> pool_reachable start p -> pool_upholds p.
Proof.
  intros Hinv Hr. pattern p. revert p Hr. apply rtc_ind_r.
  - exists []. split; [apply (inv_start start Hinv)|]. split; [done|]. by intros i t l ?.
  - intros p p' _ Hs. by eapply pool_step_upholds.
Qed.

End invariants.

(** ** Quiet calls *)

Section quiet_calls.
Context (held : Tool -> Prop) (may : Tool -> Request -> Prop) (P : Tool -> Result -> Prop).

#[local] Definition quiet_inv (s : State) (log : list event) (L : list (option Tool)) : Prop :=
  (forall i t, Called i t ∈ log -> exists l, L !! i = Some l /\ (l = Some t \/ l = None)) /\
  (forall i q, Sent i q ∈ log -> is_Some (L !! i)) /\
  (forall i t q, Sent i q ∈ log -> Called i t ∈ log -> held t -> may t q).

#[local] Definition quiet_end (r : Result) (l : option Tool) : Prop :=
  match l with Some t => held t -> P t r | None => False end.

Lemma quiet_inv_log s log L e :
  (forall i t, e <> Called i t) -> (forall i q, e <> Sent i q) ->
  quiet_inv s log L -> quiet_inv s (log ++ [e]) L.
Proof.
  intros Hc Hs (H1 & H2 & H3). split_and!.
  - intros i t [?|He%list_elem_of_singleton]%elem_of_app; [by apply H1|by destruct (Hc i t)].
  - intros i q [?|He%list_elem_of_singleton]%elem_of_app; [by eapply H2|by destruct (Hs i q)].
  - intros i t q [?|He%list_elem_of_singleton]%elem_of_app; [|by destruct (Hs i q)].
    intros [?|He%list_elem_of_singleton]%elem_of_app; [by eapply H3|by destruct (Hc i t)].
Qed.

Lemma quiet_upholds i t (c : call State Request Answer Result) :
  (held t -> quiet (may t) (P t) c) ->
  upholds quiet_inv (fun _ _ => True) i quiet_end c (Some t).
Proof.
  induction c as [a|B step k IH|q k IH]; cbn; [done|..].
  - intros Hq s log L b s' HI Hl _. exists (Some t). rewrite list_insert_id by done.
    split; [exact HI|]. apply IH. intros Ht. by apply Hq.
  - intros Hq s log L HI Hl. exists (Some t). rewrite list_insert_id by done.
    destruct HI as (H1 & H2 & H3). split; [split_and!|split; [done|]].
    + intros j t' [?|Hj%list_elem_of_singleton]%elem_of_app; [by apply H1|done].
    + intros j q' [?|[= -> ->]%list_elem_of_singleton]%elem_of_app; [by eapply H2|by eexists].
    + intros j t' q' [?|[= -> ->]%list_elem_of_singleton]%elem_of_app
        [Hc|Hc%list_elem_of_singleton]%elem_of_app; try done; [by eapply H3|].
      destruct (H1 _ _ Hc) as (l & Hl' & [->| ->]); simplify_eq. intros Ht. by destruct (Hq Ht).
    + intros a s1 log1 L1 HI1 Hl1. exists (Some t). rewrite list_insert_id by done.
      split; [by apply quiet_inv_log|]. apply IH. intros Ht. by apply (Hq Ht).
Qed.

(** Calls that are quiet on their own send nothing else in any pool, and return what they may. *)
Lemma quiet_calls_send_only start p i t :
  (forall t, held t -> quiet (may t) (P t) (serve t)) ->
  pool_reachable start p -> Called i t ∈ pl_log p -> held t ->
  (forall q, Sent i q ∈ pl_log p -> may t q) /\ (forall r, returned p i = Some r -> P t r).
Proof.
  intros Hquiet Hr Hc Ht.
  destruct (pool_reachable_upholds quiet_inv (fun t => Some t) quiet_end (fun _ _ => True) None
              start p) as (L & (H1 & H2 & H3) & Hlen & Hth); [|done|].
  - split.
    + split_and!; intros i' t'; [by intros ?%elem_of_nil..|by intros q ?%elem_of_nil].
    + intros s log L t' (H1 & H2 & H3). split_and!.
      * intros j t2 [Hj|[= -> ->]%list_elem_of_singleton]%elem_of_app.
        -- destruct (H1 _ _ Hj) as (l & Hl & ?). exists l. split; [|done].
           by apply lookup_app_l_Some.
        -- exists (Some t'). split; [|by left]. by rewrite list_lookup_middle.
      * intros j q [Hj|?%list_elem_of_singleton]%elem_of_app; [|done].
        destruct (H2 _ _ Hj) as [l Hl]. exists l. by apply lookup_app_l_Some.
      * intros j t2 q [Hs|?%list_elem_of_singleton]%elem_of_app; [|done].
        intros [Hj|[= -> ->]%list_elem_of_singleton]%elem_of_app; [by eapply H3|].
        destruct (H2 _ _ Hs) as [l Hl%lookup_lt_Some]. lia.
    + intros j t'. apply quiet_upholds. apply Hquiet.
    + intros s log L o s' HI _. by apply quiet_inv_log.
    + intros s log L s' (H1 & H2 & H3) _. apply quiet_inv_log; [done..|]. split_and!; [..|done].
      * intros j t' Hj. destruct (H1 _ _ Hj) as (l & Hl & _). exists None.
        rewrite list_lookup_fmap, Hl. split; [done|by right].
      * intros j q Hj. rewrite list_lookup_fmap, fmap_is_Some. by eapply H2.
  - split.
    + intros q Hs. by eapply H3.
    + intros r Hi%returned_thread. destruct (H1 _ _ Hc) as (l & Hl & [->| ->]);
        pose proof (Hth _ _ _ Hi Hl) as Hu; cbn in Hu; [auto|done].
Qed.

End quiet_calls.
End pools.

(** * Parts of the state that one call at a time has *)

Section shares.
Context {State Part : Type}.

(** At most one call has a part of the state, and only where the state says that it is taken. *)
Definition sole (has : Part -> bool) (taken : bool) (L : list Part) : Prop :=
  (forall i j l l', L !! i = Some l -> L !! j = Some l' -> has l = true -> has l' = true -> i = j) /\
  (forall i l, L !! i = Some l -> has l = true -> taken = true).

Lemma sole_insert has taken taken' (L : list Part) i l l' :
  sole has taken L -> L !! i = Some l ->
  (has l' = true -> (has l = true \/ taken = false) /\ taken' = true) ->
  (taken' = taken \/ has l = true \/ taken = false) ->
  sole has taken' (<[i := l']> L).
Proof.
  intros [Hone Htaken] Hi Hnew Hflag.
  assert (Hother : forall j lj, L !! j = Some lj -> has lj = true -> j = i \/ has l' = false /\ taken' = true).
  { intros j lj Hj Hhas. destruct (decide (j = i)) as [->|Hne]; [by left|right].
    pose proof (Htaken j lj Hj Hhas) as Ht. destruct Hflag as [->|[Hl|?]]; [|by destruct Hne; eapply Hone|congruence].
    split; [|done]. destruct (has l') eqn:Hl'; [|done]. destruct (Hnew eq_refl) as [[Hl|?] _]; [|congruence].
    by destruct Hne; eapply Hone. }
  assert (Hlookup : forall j lj, <[i := l']> L !! j = Some lj -> j = i /\ lj = l' \/ j <> i /\ L !! j = Some lj).
  { intros j lj. destruct (decide (j = i)) as [->|Hne].
    - rewrite list_lookup_insert_eq by (by eapply lookup_lt_Some). intros [= <-]. by left.
    - rewrite list_lookup_insert_ne by done. by right. }
  split.
  - intros j k lj lk [[-> ->]|[Hj Hjl]]%Hlookup [[-> ->]|[Hk Hkl]]%Hlookup Hhj Hhk; [done|..].
    + destruct (Hother k lk Hkl Hhk) as [?|[? _]]; congruence.
    + destruct (Hother j lj Hjl Hhj) as [?|[? _]]; congruence.
    + by eapply Hone.
  - intros j lj [[-> ->]|[Hj Hjl]]%Hlookup Hhj; [by apply Hnew|].
    by destruct (Hother j lj Hjl Hhj) as [?|[_ ?]].
Qed.

Lemma sole_app has taken (L : list Part) l : sole has taken L -> has l = false -> sole has taken (L ++ [l]).
Proof.
  intros [Hone Htaken] Hl.
  assert (Hlookup : forall j lj, (L ++ [l]) !! j = Some lj -> has lj = true -> L !! j = Some lj).
  { intros j lj [?|(_ & Hj)]%lookup_app_Some Hhas; [done|].
    apply list_lookup_singleton_Some in Hj as [_ <-]. congruence. }
  split; [intros j k lj lk Hj Hk Hhj Hhk|intros j lj Hj Hhj]; eauto.
Qed.

(** A part of the state is left as it is, or its holder changes it. *)
Definition minds {V} (has : Part -> bool) (view : State -> V) (taken : State -> bool) (s s' : State)
    (l l' : Part) : Prop :=
  (view s' = view s /\ taken s' = taken s /\ (has l' = true -> has l = true)) \/
  ((has l = true \/ taken s = false) /\ (has l' = true -> taken s' = true)).

Lemma minds_sole {V} has (view : State -> V) taken s s' l l' (L : list Part) i :
  minds has view taken s s' l l' -> sole has (taken s) L -> L !! i = Some l -> (has l = true -> taken s = true) ->
  sole has (taken s') (<[i := l']> L).
Proof.
  intros Hm Hsole Hi Htaken. eapply sole_insert; [done..| |].
  - intros Hl'. destruct Hm as [(_ & Ht & Hl)|[Hl Ht]]; [|by auto]. rewrite Ht. auto.
  - destruct Hm as [(_ & -> & _)|[[]]]; auto.
Qed.

Lemma minds_others {V} has (view : State -> V) taken s s' l l' (L : list Part) i j lj :
  minds has view taken s s' l l' -> sole has (taken s) L -> L !! i = Some l -> L !! j = Some lj -> j <> i ->
  has lj = true -> view s' = view s.
Proof.
  intros [(Hv & _)|[[Hl|Ht] _]] [Hone Htaken] Hi Hj Hne Hhas; [done|..].
  - by destruct Hne; eapply Hone.
  - pose proof (Htaken j lj Hj Hhas). congruence.
Qed.

End shares.

#[global] Arguments event {Request} Answer Tool Other.
#[global] Arguments thread State {Request} Answer Result.
#[global] Arguments pool State {Request} Answer Tool Result Other.
