(* ===== verification/Courses.v ===== *)
(** The course of one call, on its own: its turns at a state that others change in the meantime,
    and its exchanges, each a request with its answer. What a call may ask, given what it was
    answered so far, is a protocol; [wp] is the calculus in which a call is shown to follow one,
    and to return only what the exchanges justify. *)
From S2P Require Import Prelude Threads.

Section courses.
Context {State Request : Type} {Answer : Request -> Type}.
(** What others may do to the state between two steps of the call. *)
Context (meanwhile : State -> State -> Prop).

(** A request, at the state in which it was sent, and what was answered. *)
Record exchange := mkExchange {
  ex_state : State;
  ex_request : Request;
  ex_answer : Answer ex_request
}.

(** [course c s log a s']: the call [c], from the state [s] on, may exchange [log] and return [a]
    in the state [s']. *)
Inductive course {A} : call State Request Answer A -> State -> list exchange -> A -> State -> Prop :=
  | course_return a s : course (Return a) s [] a s
  | course_turn B (step : State -> option (B * State)) k s s1 b s2 log a s' :
      meanwhile s s1 -> step s1 = Some (b, s2) -> course (k b) s2 log a s' ->
      course (Turn step k) s log a s'
  | course_ask q k s s1 answer log a s' :
      meanwhile s s1 -> course (k answer) s1 log a s' ->
      course (Ask q k) s (mkExchange s1 q answer :: log) a s'.

(** Whatever it finds and is answered, the call returns only what satisfies [P]. *)
Fixpoint returns {A} (P : A -> Prop) (c : call State Request Answer A) : Prop :=
  match c with
  | Return a => P a
  | Turn _ k => forall b, returns P (k b)
  | Ask _ k => forall a, returns P (k a)
  end.

Lemma returns_bind {A B} (P : A -> Prop) (Q : B -> Prop) (c : call State Request Answer A)
    (f : A -> call State Request Answer B) :
  returns P c -> (forall a, P a -> returns Q (f a)) -> returns Q (c ≫= f).
Proof. intros Hc Hf. induction c; cbn in *; auto. Qed.

Lemma returns_any {A} (c : call State Request Answer A) : returns (fun _ => True) c.
Proof. induction c; cbn; auto. Qed.

Lemma returns_then {A B} (Q : B -> Prop) (c : call State Request Answer A)
    (f : A -> call State Request Answer B) :
  (forall a, returns Q (f a)) -> returns Q (c ≫= f).
Proof. intros Hf. eapply returns_bind; [apply returns_any|auto]. Qed.

Lemma returns_sound {A} (P : A -> Prop) (c : call State Request Answer A) s log a s' :
  returns P c -> course c s log a s' -> P a.
Proof. intros Hc H. induction H; cbn in Hc; auto. Qed.

(** * Protocols

    [allowed m s q]: the request [q] may be sent in the state [s], after what [m] knows of the
    exchanges so far; [noted] is what is known after one more. *)
Section protocol.
Context {M : Type}.
Context (allowed : M -> State -> Request -> Prop) (noted : M -> forall q, Answer q -> M).

Definition note (m : M) (e : exchange) : M := noted m (ex_request e) (ex_answer e).

Fixpoint conforms (m : M) (log : list exchange) : Prop :=
  match log with
  | [] => True
  | e :: log => allowed m (ex_state e) (ex_request e) /\ conforms (note m e) log
  end.

Definition after (m : M) (log : list exchange) : M := foldl note m log.

(** A request that may be sent only while [flag] is down, and raises it for good, is sent at most
    once. *)
Lemma conforms_once (asked : Request -> bool) (flag : M -> bool) m log :
  (forall m s q, allowed m s q -> asked q = true -> flag m = false) ->
  (forall m q a, flag (noted m q a) = flag m || asked q) ->
  conforms m log ->
  length (List.filter (fun e => asked (ex_request e)) log) + (if flag m then 1 else 0) <= 1.
Proof.
  intros Ha Hn. revert m. induction log as [|e log IH]; intros m; cbn.
  - intros _. destruct (flag m); lia.
  - intros [He Hlog]. specialize (IH _ Hlog). unfold note in IH. rewrite Hn in IH.
    destruct (asked (ex_request e)) eqn:Hq; cbn.
    + rewrite (Ha _ _ _ He Hq) in *. cbn in IH. lia.
    + by rewrite orb_false_r in IH.
Qed.

(** Whatever the call is answered, and whatever others do, it sends only what is allowed, and
    returns only in what satisfies [Q]. *)
Fixpoint wp {A} (Q : A -> M -> State -> Prop) (c : call State Request Answer A) (m : M) (s : State)
    : Prop :=
  match c with
  | Return a => Q a m s
  | Turn step k =>
      forall s1 b s2, meanwhile s s1 -> step s1 = Some (b, s2) -> wp Q (k b) m s2
  | Ask q k =>
      forall s1, meanwhile s s1 -> allowed m s1 q /\ forall a, wp Q (k a) (noted m q a) s1
  end.

Lemma wp_sound {A} (Q : A -> M -> State -> Prop) c m s log a s' :
  wp Q c m s -> course c s log a s' -> conforms m log /\ Q a (after m log) s'.
Proof.
  intros Hc H. revert m Hc. induction H as [a s|B step k s s1 b s2 log a s' Hm Hs H IH|
    q k s s1 answer log a s' Hm H IH]; intros m Hc; cbn in Hc |- *.
  - by split.
  - by apply IH, (Hc s1 b s2).
  - destruct (Hc s1 Hm) as [Ha Hk]. destruct (IH _ (Hk answer)) as [? ?]. by split.
Qed.

Lemma wp_mono {A} (Q Q' : A -> M -> State -> Prop) c m s :
  (forall a m s, Q a m s -> Q' a m s) -> wp Q c m s -> wp Q' c m s.
Proof.
  intros HQ. revert m s. induction c as [a|B step k IH|q k IH]; intros m s; cbn; [auto|..].
  - intros H s1 b s2 Hm Hs. eapply IH, H; eauto.
  - intros H s1 Hm. destruct (H s1 Hm) as [Ha Hk]. split; [done|]. intros a. apply IH, Hk.
Qed.

Lemma wp_bind {A B} (Q : B -> M -> State -> Prop) (c : call State Request Answer A)
    (f : A -> call State Request Answer B) m s :
  wp (fun a m s => wp Q (f a) m s) c m s -> wp Q (c ≫= f) m s.
Proof.
  revert m s. induction c as [a|C step k IH|q k IH]; intros m s; cbn; [auto|..].
  - intros H s1 b s2 Hm Hs. eapply IH, H; eauto.
  - intros H s1 Hm. destruct (H s1 Hm) as [Ha Hk]. split; [done|]. intros a. apply IH, Hk.
Qed.

(** The rule of a part of a call: what it ends in is enough for the rest. *)
Lemma wp_then {A B} (P : A -> M -> State -> Prop) (Q : B -> M -> State -> Prop)
    (c : call State Request Answer A) (f : A -> call State Request Answer B) m s :
  wp P c m s -> (forall a m s, P a m s -> wp Q (f a) m s) -> wp Q (c ≫= f) m s.
Proof. intros Hc Hf. apply wp_bind. by eapply wp_mono, Hc. Qed.

Lemma wp_assoc {A B C} (Q : C -> M -> State -> Prop) (c : call State Request Answer A)
    (f : A -> call State Request Answer B) (k : B -> call State Request Answer C) m s :
  wp Q (c ≫= fun a => f a ≫= k) m s -> wp Q ((c ≫= f) ≫= k) m s.
Proof.
  revert m s. induction c as [a|D step g IH|q g IH]; intros m s; cbn; [done|..].
  - intros H s1 b s2 Hm Hs. eapply IH, H; eauto.
  - intros H s1 Hm. destruct (H s1 Hm) as [Ha Hk]. split; [done|]. intros a. apply IH, Hk.
Qed.

Lemma wp_unit {A} (Q : A -> M -> State -> Prop) (c : call State Request Answer A) m s :
  wp Q (c ≫= fun a => Return a) m s -> wp Q c m s.
Proof.
  revert m s. induction c as [a|D step g IH|q g IH]; intros m s; cbn; [done|..].
  - intros H s1 b s2 Hm Hs. eapply IH, H; eauto.
  - intros H s1 Hm. destruct (H s1 Hm) as [Ha Hk]. split; [done|]. intros a. apply IH, Hk.
Qed.

(** [P] holds whatever others do in the meantime. *)
Definition stable (P : State -> Prop) : Prop := forall s s1, meanwhile s s1 -> P s -> P s1.

Lemma wp_turn {A B} (P : State -> Prop) (Q : B -> M -> State -> Prop) (f : State -> A * State)
    (k : A -> call State Request Answer B) m s :
  stable P -> P s -> (forall s1, P s1 -> wp Q (k (f s1).1) m (f s1).2) ->
  wp Q (turn f ≫= k) m s.
Proof.
  intros HP Hs Hk s1 b s2 Hm Hf. pose proof (Hk s1 (HP _ _ Hm Hs)) as H.
  destruct (f s1). by injection Hf as -> ->.
Qed.

Lemma wp_look {A B} (P : State -> Prop) (Q : B -> M -> State -> Prop) (f : State -> A)
    (k : A -> call State Request Answer B) m s :
  stable P -> P s -> (forall s1, P s1 -> wp Q (k (f s1)) m s1) -> wp Q (look f ≫= k) m s.
Proof. intros HP Hs Hk. by apply (wp_turn P). Qed.

Lemma wp_await {A B} (P : State -> Prop) (Q : B -> M -> State -> Prop)
    (f : State -> option (A * State)) (k : A -> call State Request Answer B) m s :
  stable P -> P s -> (forall s1 a s2, P s1 -> f s1 = Some (a, s2) -> wp Q (k a) m s2) ->
  wp Q (await f ≫= k) m s.
Proof. intros HP Hs Hk s1 b s2 Hm Hf. eapply Hk; [|done]. by eapply HP. Qed.

Lemma wp_ask {B} (P : State -> Prop) (Q : B -> M -> State -> Prop) q
    (k : Answer q -> call State Request Answer B) m s :
  stable P -> P s -> (forall s1, P s1 -> allowed m s1 q) ->
  (forall s1 a, P s1 -> wp Q (k a) (noted m q a) s1) -> wp Q (ask q ≫= k) m s.
Proof. intros HP Hs Ha Hk s1 Hm. assert (P s1) by (by eapply HP). split; [auto|].
  intros a. by apply Hk.
Qed.
End protocol.

(** * Runs: a call run to its end, to evaluate it. [tick] is what others do before each step, and
    [answers n q] the answer to [q] when it is the [n]-th request. *)
Section runs.
Context (tick : State -> State) (answers : nat -> forall q, Answer q).

Fixpoint run_call {A} (n : nat) (c : call State Request Answer A) (s : State)
    : option (list exchange * A * State) :=
  match c with
  | Return a => Some ([], a, s)
  | Turn step k =>
      match step (tick s) with
      | Some (b, s2) => run_call n (k b) s2
      | None => None
      end
  | Ask q k =>
      let s1 := tick s in
      match run_call (S n) (k (answers n q)) s1 with
      | Some (log, a, s') => Some (mkExchange s1 q (answers n q) :: log, a, s')
      | None => None
      end
  end.

Lemma run_call_course {A} n (c : call State Request Answer A) s log a s' :
  (forall s, meanwhile s (tick s)) -> run_call n c s = Some (log, a, s') -> course c s log a s'.
Proof.
  intros Ht. revert n s log. induction c as [b|B step k IH|q k IH]; intros n s log; cbn.
  - intros [= <- <- <-]. constructor.
  - destruct (step (tick s)) as [[b s2]|] eqn:Hs; [|done]. intros H.
    eapply course_turn; [apply Ht|done|]. by eapply IH.
  - destruct (run_call (S n) _ _) as [[[l b] s2]|] eqn:Hr; [|done]. intros [= <- <- <-].
    eapply course_ask; [apply Ht|]. by eapply IH.
Qed.
End runs.
End courses.
