(* ===== verification/Descendants.v ===== *)
(** Ending a sandbox with every process below it: [crates/runner/src/sandbox_tree.rs]. The walk
    runs among the processes it stops, which fork, exit and are reaped between any two of its
    reads and signals. *)
From S2P Require Import Prelude Supervisor Output Files Procfs Threads Courses.

(** * The host's processes

    A process is [Killed] once it was sent SIGKILL: it runs no more of its program, and exits. *)
Inductive RunState := Live | Stopped | Killed | Dead.

#[export] Instance RunState_eq_dec : EqDecision RunState.
Proof. solve_decision. Defined.

Record HostProcess := mkHostProcess {
  tk_name : list ascii;
  tk_status : RunState;
  tk_parent : Z
}.

Inductive Signal := SIGSTOP | SIGKILL.

(** [kn_stopping]: the processes that were told to stop. [kn_sent]: each signal that was sent, with
    the processes as they were then. *)
Record Kernel := mkKernel {
  kn_tasks : gmap Z HostProcess;
  kn_stopping : gset Z;
  kn_now : Z;
  kn_sent : list (Z * Signal * gmap Z HostProcess)
}.

Definition with_tasks (k : Kernel) (tasks : gmap Z HostProcess) : Kernel :=
  mkKernel tasks (kn_stopping k) (kn_now k) (kn_sent k).

(** The state letter of [/proc/<pid>/stat], and its line. *)
Definition letter (s : RunState) : ascii :=
  match s with Live | Killed => "S" | Stopped => "T" | Dead => "Z" end.

Definition line_of (pid : Z) (t : HostProcess) : list ascii :=
  stat_line pid (mkLinuxProcess (tk_name t) (letter (tk_status t)) (tk_parent t :: repeat 0%Z 17) 0 []).

(** What a signal does at once. *)
Definition killed (t : HostProcess) : HostProcess :=
  match tk_status t with
  | Live | Stopped => mkHostProcess (tk_name t) Killed (tk_parent t)
  | Killed | Dead => t
  end.

Definition signalled (k : Kernel) (pid : Z) (s : Signal) (t : HostProcess) : Kernel :=
  let sent := kn_sent k ++ [(pid, s, kn_tasks k)] in
  match s with
  | SIGSTOP => mkKernel (kn_tasks k) ({[pid]} ∪ kn_stopping k) (kn_now k) sent
  | SIGKILL => mkKernel (<[pid := killed t]> (kn_tasks k)) (kn_stopping k) (kn_now k) sent
  end.

(** * The walk *)

Definition no_answer (q : Empty_set) : Type := match q with end.
Abbreviation walking := (call Kernel Empty_set no_answer).
Abbreviation ended a := (@Return Kernel Empty_set no_answer _ a).

(** Times are in microseconds. *)
Definition STOP_BUDGET : Z := 500000.
Definition STOP_POLL : Z := 250.
Definition MAX_DEPTH : nat := 64.

Definition i32_max : Z := 2^31 - 1.
Definition u32_max : Z := 2^32 - 1.

(** [str::parse::<u32>]. *)
Definition parse_u32 (s : string) : option Z :=
  n ← parse_usize s; if bool_decide (n <= u32_max)%Z then Some n else None.

Definition state_and_parent (stat : list ascii) : option (ascii * Z) :=
  fields ← split_whitespace <$> after_last ")"%char stat;
  state ← head fields ≫= head;
  parent ← fields !! 1 ≫= (fun field => parse_u32 (of_text field));
  Some (state, parent).

Definition read_stat (k : Kernel) (pid : Z) : option (list ascii) :=
  (line_of pid <$> kn_tasks k !! pid) ≫= read_to_string.

Definition parent_of (k : Kernel) (pid : Z) : option Z :=
  snd <$> (read_stat k pid ≫= state_and_parent).

Section walk.
Context (me : Z).   (* the Runner's own process ID *)

(** [signal]; [kill] finds a process until it was reaped. *)
Definition signal (pid : Z) (s : Signal) : walking bool :=
  if bool_decide (pid = me) then ended false
  else if bool_decide (0 < pid <= i32_max)%Z then
    turn (fun k =>
      match kn_tasks k !! pid with
      | Some t => (true, signalled k pid s t)
      | None => (false, k)
      end)
  else ended false.

(** [stopped]: the threads of a process show its state; a thread whose line cannot be read counts
    as stopped, as does a process that is gone. *)
Definition stopped (k : Kernel) (pid : Z) : bool :=
  match kn_tasks k !! pid with
  | None => true
  | Some _ =>
      match read_stat k pid ≫= state_and_parent with
      | None => true
      | Some (state, _) => bool_decide (state ∈ ["T"; "t"; "Z"; "X"; "x"]%char)
      end
  end.

Fixpoint retain_unstopped (pids : list Z) : walking (list Z) :=
  match pids with
  | [] => ended []
  | pid :: pids =>
      done ← look (fun k => stopped k pid);
      rest ← retain_unstopped pids;
      ended (if (done : bool) then rest else pid :: rest)
  end.

Definition sleep (us : Z) : walking unit :=
  due ← look (fun k => kn_now k + us)%Z;
  await (fun k => if bool_decide (due <= kn_now k)%Z then Some (tt, k) else None).

(** [wait_stopped], with a fuel that it never uses up. It says whether every process had stopped,
    which its caller does not ask: past the deadline it goes on as well. *)
Fixpoint wait_stopped_by (fuel : nat) (pids : list Z) (deadline : Z) : walking (option bool) :=
  match fuel with
  | 0 => ended None
  | S fuel =>
      pids ← retain_unstopped pids;
      match pids with
      | [] => ended (Some true)
      | _ =>
          now ← look kn_now;
          if bool_decide (deadline <= now)%Z then ended (Some false)
          else _ ← sleep STOP_POLL; wait_stopped_by fuel pids deadline
      end
  end.

(** As many polls as fit into the budget, and two more. *)
Definition STOP_POLLS : nat := Z.to_nat (STOP_BUDGET / STOP_POLL) + 2.

Definition wait_stopped (pids : list Z) (deadline : Z) : walking (option bool) :=
  wait_stopped_by STOP_POLLS pids deadline.

Definition proc_entries (k : Kernel) : list Z := (map_to_list (kn_tasks k)).*1.

(** [processes]: the entries of [/proc], then the parent of each. *)
Fixpoint read_parents (pids : list Z) : walking (list (Z * Z)) :=
  match pids with
  | [] => ended []
  | pid :: pids =>
      parent ← look (fun k => parent_of k pid);
      rest ← read_parents pids;
      ended (match parent with Some parent => (pid, parent) :: rest | None => rest end)
  end.

Definition processes : walking (list (Z * Z)) :=
  pids ← look proc_entries;
  read_parents pids.

Fixpoint stop_each (pids : list Z) : walking (list Z) :=
  match pids with
  | [] => ended []
  | pid :: pids =>
      sent ← signal pid SIGSTOP;
      rest ← stop_each pids;
      ended (if (sent : bool) then pid :: rest else rest)
  end.

(** The processes just below the ones that are known. *)
Definition unknown_below (known : list Z) (listed : list (Z * Z)) : list Z :=
  (List.filter (fun '(pid, parent) => bool_decide (parent ∈ known) && bool_decide (pid ∉ known))
     listed).*1.

(** The levels of the walk. [known] and [found] hold the same process IDs. What it was stopped by
    is told with what was found: [Some true] when it came to an end in time. *)
Fixpoint levels (depth : nat) (found stopping : list Z) (deadline : Z) (in_time : bool)
    : walking (list Z * option bool) :=
  match depth with
  | 0 => ended (found, Some false)
  | S depth =>
      waited ← wait_stopped stopping deadline;
      match waited with
      | None => ended (found, None)
      | Some all =>
          listed ← processes;
          stopping ← stop_each (unknown_below found listed);
          match stopping with
          | [] => ended (found, Some (in_time && all))
          | _ => levels depth (found ++ stopping) stopping deadline (in_time && all)
          end
      end
  end.

Fixpoint kill_each (pids : list Z) : walking unit :=
  match pids with
  | [] => ended tt
  | pid :: pids => _ ← signal pid SIGKILL; kill_each pids
  end.

(** [kill_descendants]; it returns nothing in the code: here, whether the walk came to an end in
    time, if [/proc] shows the root as the Runner's child. *)
Definition kill_descendants (root : Z) : walking (option bool) :=
  parent ← look (fun k => parent_of k root);
  if bool_decide (parent <> Some me) then ended (Some false)
  else
    sent ← signal root SIGSTOP;
    if negb sent then ended (Some false)
    else
      now ← look kn_now;
      walked ← levels MAX_DEPTH [root] [root] (now + STOP_BUDGET) true;
      _ ← kill_each (rev (tail (fst walked)));
      ended (snd walked).
End walk.

(** * What the others do meanwhile

    The processes of the host fork, also beside themselves, exit, reap the children that exited,
    stop once they were told to, and change their names. Nobody but the walk signals them, the
    Runner [me] runs on, and the root is not reaped: its reaper waits for the walk. An orphan
    goes to some process above the one that exited, or to [init]. *)
Section host.
Context (me root init : Z).
Implicit Types (T : gmap Z HostProcess) (k : Kernel).

Definition child T (p q : Z) : Prop := exists t, T !! p = Some t /\ tk_parent t = q.
Definition below T : Z -> Z -> Prop := tc (child T).

Definition in_range (pid : Z) : Prop := (0 < pid <= i32_max)%Z.

Definition with_status (t : HostProcess) (s : RunState) : HostProcess :=
  mkHostProcess (tk_name t) s (tk_parent t).

(** [p] exits, and its children go to [heir]. *)
Definition exited T (p heir : Z) (t : HostProcess) : gmap Z HostProcess :=
  (fun u => if bool_decide (tk_parent u = p)
            then mkHostProcess (tk_name u) (tk_status u) heir else u)
  <$> <[p := with_status t Dead]> T.

Inductive env_step : Kernel -> Kernel -> Prop :=
  | env_fork k p t c name q :
      kn_tasks k !! p = Some t -> tk_status t = Live -> kn_tasks k !! c = None -> in_range c ->
      is_utf8 name = true -> q = p \/ q = tk_parent t -> is_Some (kn_tasks k !! q) ->
      env_step k (with_tasks k (<[c := mkHostProcess name Live q]> (kn_tasks k)))
  | env_exit k p t heir h :
      kn_tasks k !! p = Some t -> tk_status t = Live \/ tk_status t = Killed ->
      p <> init -> p <> me -> heir <> p -> heir = init \/ below (kn_tasks k) p heir ->
      kn_tasks k !! heir = Some h -> tk_status h <> Dead ->
      env_step k (with_tasks k (exited (kn_tasks k) p heir t))
  | env_reap k p t u :
      kn_tasks k !! p = Some t -> tk_status t = Dead -> p <> root ->
      kn_tasks k !! tk_parent t = Some u -> tk_status u = Live ->
      env_step k (with_tasks k (delete p (kn_tasks k)))
  | env_stop k p t :
      kn_tasks k !! p = Some t -> tk_status t = Live -> p ∈ kn_stopping k -> p <> init -> p <> me ->
      env_step k (with_tasks k (<[p := with_status t Stopped]> (kn_tasks k)))
  | env_rename k p t name :
      kn_tasks k !! p = Some t -> tk_status t = Live -> is_utf8 name = true ->
      env_step k (with_tasks k (<[p := mkHostProcess name Live (tk_parent t)]> (kn_tasks k)))
  | env_tick k now :
      (kn_now k <= now)%Z -> env_step k (mkKernel (kn_tasks k) (kn_stopping k) now (kn_sent k)).

Definition meanwhile : Kernel -> Kernel -> Prop := rtc env_step.

(** As the processes of a host are. [wf_killed]: who was killed left no child running. *)
Record wf T : Prop := {
  wf_name : forall p t, T !! p = Some t -> is_utf8 (tk_name t) = true;
  wf_range : forall p t, T !! p = Some t -> in_range p;
  wf_parent : forall p q, child T p q ->
    q = 0%Z \/ exists u, T !! q = Some u /\ tk_status u <> Dead;
  wf_init : exists t, T !! init = Some t /\ tk_parent t = 0%Z /\ tk_status t = Live;
  wf_me : exists t, T !! me = Some t /\ tk_status t = Live;
  wf_apart : ~ below T me root /\ root <> init /\
    exists t, T !! root = Some t /\ tk_parent t = me;
  wf_killed : forall p q u, child T p q -> T !! q = Some u -> tk_status u = Killed ->
    exists t, T !! p = Some t /\ tk_status t <> Live /\ tk_status t <> Stopped
}.

(** ** One task, before and after a step *)

Definition status_moves (p : Z) (s s' : RunState) : Prop :=
  s' = s \/ s = Live /\ s' = Stopped /\ p <> init /\ p <> me \/
  (s = Live \/ s = Killed) /\ s' = Dead /\ p <> init /\ p <> me.

(** The parent of a task after a step: as before, or the heir of one that exited. *)
Definition parent_moves T (q q' : Z) : Prop :=
  q' = q \/
  exists u h, T !! q = Some u /\ (tk_status u = Live \/ tk_status u = Killed) /\ q <> me /\
    (q' = init \/ below T q q') /\ T !! q' = Some h /\ tk_status h <> Dead.

Lemma exited_lookup T p heir t a :
  T !! p = Some t ->
  exited T p heir t !! a =
  (fun u => let u := if bool_decide (a = p) then with_status t Dead else u in
            if bool_decide (tk_parent u = p)
            then mkHostProcess (tk_name u) (tk_status u) heir else u) <$> T !! a.
Proof.
  intros Hp. unfold exited. rewrite lookup_fmap. destruct (decide (a = p)) as [->|Hne].
  - by rewrite lookup_insert_eq, Hp, bool_decide_eq_true_2.
  - rewrite lookup_insert_ne by done. destruct (T !! a); cbn; [|done].
    by rewrite (bool_decide_eq_false_2 (a = p)) by done.
Qed.

(** What becomes of a task. *)
Lemma step_forward k k' p t :
  env_step k k' -> kn_tasks k !! p = Some t ->
  (kn_tasks k' !! p = None /\ tk_status t = Dead /\ p <> root /\
     exists u, kn_tasks k !! tk_parent t = Some u /\ tk_status u = Live) \/
  exists t', kn_tasks k' !! p = Some t' /\ status_moves p (tk_status t) (tk_status t') /\
    parent_moves (kn_tasks k) (tk_parent t) (tk_parent t').
Proof.
  intros Hstep Hp. unfold status_moves, parent_moves.
  destruct Hstep as [k x u c name q Hx Hu Hc Hr Hn Hq Hqp|k x u heir h Hx Hu Hxi Hxm Hh Hb Hhe Hd
    |k x u v Hx Hu Hxr Hv Hl|k x u Hx Hu Hs Hi Hm|k x u name Hx Hu Hn|k now Hn]; cbn.
  - right. rewrite lookup_insert_ne by congruence. eauto 10.
  - right. rewrite exited_lookup by done. rewrite Hp. cbn. eexists. split; [reflexivity|].
    destruct (decide (p = x)) as [->|Hne].
    + rewrite (bool_decide_eq_true_2 (x = x)) by done. assert (u = t) as -> by congruence.
      case_bool_decide as Hpar; cbn in *; [|split; [|by left]; right; right; auto].
      split; [right; right; auto|]. right. exists t, h. rewrite Hpar. auto 10.
    + rewrite (bool_decide_eq_false_2 (p = x)) by done. case_bool_decide as Hpar; cbn; [|eauto].
      split; [by left|]. right. exists u, h. rewrite Hpar. auto 10.
  - destruct (decide (p = x)) as [->|Hne].
    + left. rewrite lookup_delete_eq. assert (u = t) as -> by congruence. eauto 10.
    + right. rewrite lookup_delete_ne by done. eauto 10.
  - right. destruct (decide (p = x)) as [->|Hne].
    + rewrite lookup_insert_eq. assert (u = t) as -> by congruence. eexists. split; [done|].
      cbn. auto 10.
    + rewrite lookup_insert_ne by done. eauto 10.
  - right. destruct (decide (p = x)) as [->|Hne].
    + rewrite lookup_insert_eq. assert (u = t) as -> by congruence. eexists. split; [done|].
      cbn. rewrite Hu. auto 10.
    + rewrite lookup_insert_ne by done. eauto 10.
  - right. eauto 10.
Qed.

(** Where a task comes from. *)
Lemma step_backward k k' p t' :
  env_step k k' -> kn_tasks k' !! p = Some t' ->
  (exists t, kn_tasks k !! p = Some t /\ status_moves p (tk_status t) (tk_status t') /\
     parent_moves (kn_tasks k) (tk_parent t) (tk_parent t') /\
     (is_utf8 (tk_name t) = true -> is_utf8 (tk_name t') = true)) \/
  (kn_tasks k !! p = None /\ in_range p /\ tk_status t' = Live /\ is_utf8 (tk_name t') = true /\
     is_Some (kn_tasks k !! tk_parent t') /\
     exists x u, kn_tasks k !! x = Some u /\ tk_status u = Live /\
       (tk_parent t' = x \/ tk_parent t' = tk_parent u)).
Proof.
  intros Hstep Hp. destruct (kn_tasks k !! p) as [t|] eqn:Ht.
  - left. exists t. split; [done|]. assert (Hf := step_forward k k' p t Hstep Ht).
    destruct Hf as [(Hn & _)|(t1 & Ht1 & Hs & Hpm)]; [congruence|].
    assert (t1 = t') as -> by congruence. split_and!; [done..|]. intros Hu8.
    destruct Hstep as [k x u c name q Hx Hu Hc Hr Hn Hq Hqp|k x u heir h Hx Hu Hxi Hxm Hh Hb Hhe Hd
      |k x u v Hx Hu Hxr Hv Hl|k x u Hx Hu Hst Hi Hm|k x u name Hx Hu Hn|k now Hn]; cbn in Hp.
    + rewrite lookup_insert_ne in Hp by congruence. congruence.
    + rewrite exited_lookup, Ht in Hp by done. cbn in Hp. injection Hp as <-.
      destruct (bool_decide (p = x)) eqn:Hpx; cbn.
      * apply bool_decide_eq_true in Hpx as ->. assert (u = t) as -> by congruence. by repeat case_bool_decide.
      * by repeat case_bool_decide.
    + apply lookup_delete_Some in Hp as [_ ?]. congruence.
    + apply lookup_insert_Some in Hp as [[<- <-]|[_ ?]]; [|congruence].
      assert (u = t) as -> by congruence. done.
    + apply lookup_insert_Some in Hp as [[<- <-]|[_ ?]]; [done|congruence].
    + cbn in *. congruence.
  - right. destruct Hstep as [k x u c name q Hx Hu Hc Hr Hn Hq Hqp|k x u heir h Hx Hu Hxi Hxm Hh Hb Hhe Hd
      |k x u v Hx Hu Hxr Hv Hl|k x u Hx Hu Hst Hi Hm|k x u name Hx Hu Hn|k now Hn]; cbn in Hp.
    + apply lookup_insert_Some in Hp as [[<- <-]|[_ ?]]; [|congruence]. cbn. eauto 12.
    + rewrite exited_lookup, Ht in Hp by done. done.
    + apply lookup_delete_Some in Hp as [_ ?]. congruence.
    + apply lookup_insert_Some in Hp as [[<- <-]|[_ ?]]; congruence.
    + apply lookup_insert_Some in Hp as [[<- <-]|[_ ?]]; congruence.
    + cbn in *. congruence.
Qed.

Lemma no_child_of_the_dead k k' p q u' :
  env_step k k' -> (forall u, kn_tasks k !! q = Some u -> tk_status u <> Dead) ->
  child (kn_tasks k') p q -> kn_tasks k' !! q = Some u' -> tk_status u' <> Dead.
Proof using.
  intros Hstep Hq (t' & Hp & Hpar) Hu' Hdead.
  destruct Hstep as [k x u c name b Hx Hu Hc Hr Hn Hb Hqp|k x u heir h Hx Hu Hxi Hxm Hh Hb Hhe Hd
    |k x u v Hx Hu Hxr Hv Hl|k x u Hx Hu Hst Hi Hm|k x u name Hx Hu Hn|k now Hn]; cbn in *.
  - apply lookup_insert_Some in Hu' as [[<- <-]|[_ Hu']]; [done|]. by apply (Hq u').
  - rewrite exited_lookup in Hu' by done. apply fmap_Some in Hu' as (v & Hv & ->).
    rewrite exited_lookup in Hp by done. apply fmap_Some in Hp as (w & Hw & ->).
    destruct (decide (q = x)) as [->|Hne].
    + cbv beta zeta in Hpar. revert Hpar.
      generalize (if bool_decide (p = x) then with_status u Dead else w). intros w'.
      clear Hdead. by case_bool_decide.
    + cbv beta zeta in Hdead. rewrite (bool_decide_eq_false_2 (q = x)) in Hdead by done.
      apply (Hq v Hv). by case_bool_decide.
  - apply lookup_delete_Some in Hu' as [_ Hu']. by apply (Hq u').
  - apply lookup_insert_Some in Hu' as [[<- <-]|[_ Hu']]; [done|]. by apply (Hq u').
  - apply lookup_insert_Some in Hu' as [[<- <-]|[_ Hu']]; [done|]. by apply (Hq u').
  - by apply (Hq u').
Qed.

Lemma no_zero T : wf T -> T !! 0%Z = None.
Proof using.
  intros Hwf. destruct (T !! 0%Z) eqn:H; [|done]. pose proof (wf_range _ Hwf _ _ H) as [? _]. lia.
Qed.

Lemma below_init T q : wf T -> below T init q -> q = 0%Z.
Proof using.
  intros Hwf Hb. destruct (wf_init _ Hwf) as (t & Ht & Hp & _).
  assert (Hone : forall y, child T init y -> y = 0%Z) by (intros y (t' & Ht' & <-); congruence).
  inversion Hb as [x y Hc|x y z Hc Hb']; subst; [by apply Hone|].
  apply Hone in Hc as ->. pose proof (no_zero T Hwf) as H0.
  by inversion Hb' as [x y (t' & Ht' & _)|x y z' (t' & Ht' & _)]; subst; rewrite H0 in Ht'.
Qed.

(** Whoever is above a process after a step was above it before, or is [init]. *)
Lemma below_step k k' a q :
  wf (kn_tasks k) -> env_step k k' -> below (kn_tasks k') a q -> is_Some (kn_tasks k !! a) ->
  below (kn_tasks k) a q \/ q = init \/ q = 0%Z.
Proof using.
  intros Hwf Hstep Hb.
  assert (Hone : forall a b, child (kn_tasks k') a b -> is_Some (kn_tasks k !! a) ->
            (below (kn_tasks k) a b \/ b = init) /\ (b = 0%Z \/ is_Some (kn_tasks k !! b))).
  { intros x y (t' & Ht' & <-) [t Ht].
    destruct (step_backward k k' x t' Hstep Ht') as [(t0 & Ht0 & _ & Hpm & _)|[? _]]; [|congruence].
    assert (Hc : child (kn_tasks k) x (tk_parent t0)) by by exists t0.
    destruct Hpm as [->|(u & h & Hu & _ & _ & Hh & Hhe & _)].
    - split; [left; by apply tc_once|].
      destruct (wf_parent _ Hwf _ _ Hc) as [->|(u & Hu & _)]; [by left|right; by exists u].
    - split; [|right; by exists h]. destruct Hh as [->|Hh]; [by right|left].
      by eapply tc_l. }
  induction Hb as [a b Hc|a b q Hc Hb IH]; intros Ha.
  - destruct (Hone a b Hc Ha) as [[?|?] _]; auto.
  - destruct (Hone a b Hc Ha) as [Hab [->|Hb']].
    + assert (Hz : kn_tasks k' !! 0%Z = None).
      { destruct (kn_tasks k' !! 0%Z) as [t'|] eqn:Ht'; [|done].
        destruct (step_backward k k' 0 t' Hstep Ht') as [(t & Ht & _)|(_ & [? _] & _)]; [|lia].
        by rewrite (no_zero _ Hwf) in Ht. }
      by inversion Hb as [x y (t' & Ht' & _)|x y z' (t' & Ht' & _)]; subst; rewrite Hz in Ht'.
    + destruct (IH Hb') as [Hbq|?]; [|by right]. destruct Hab as [Hab| ->].
      * left. by eapply tc_transitive.
      * right. right. by eapply below_init.
Qed.

(** Below a process that was killed, nothing runs on. *)
Definition doomed T (p : Z) : Prop :=
  forall t, T !! p = Some t -> tk_status t <> Live /\ tk_status t <> Stopped.

Lemma doomed_below T p q u :
  wf T -> below T p q -> T !! q = Some u -> tk_status u = Killed -> doomed T p.
Proof using.
  intros Hwf Hb. induction Hb as [p q Hc|p b q Hc Hb IH]; intros Hu Hk.
  - destruct (wf_killed _ Hwf _ _ _ Hc Hu Hk) as (t & Ht & ?). intros t' Ht'. by simplify_eq.
  - specialize (IH Hu Hk). destruct (wf_parent _ Hwf _ _ Hc) as [->|(v & Hv & Hd)].
    + by inversion Hb as [x y (t' & Ht' & _)|x y z' (t' & Ht' & _)]; subst;
        rewrite (no_zero _ Hwf) in Ht'.
    + destruct (IH v Hv) as [? ?].
      destruct (wf_killed _ Hwf _ _ _ Hc Hv) as (t & Ht & ?); [by destruct (tk_status v)|].
      intros t' Ht'. by simplify_eq.
Qed.

Lemma wf_step k k' : wf (kn_tasks k) -> env_step k k' -> wf (kn_tasks k').
Proof using.
  intros Hwf Hstep. split.
  - intros p t' Ht'. destruct (step_backward k k' p t' Hstep Ht') as [(t & Ht & _ & _ & Hn)|
      (_ & _ & _ & ? & _)]; [|done]. by apply Hn, (wf_name _ Hwf p).
  - intros p t' Ht'. destruct (step_backward k k' p t' Hstep Ht') as [(t & Ht & _)|(_ & ? & _)];
      [|done]. by apply (wf_range _ Hwf p t).
  - intros p q Hc. assert (Hq : q = 0%Z \/ exists u, kn_tasks k !! q = Some u /\ tk_status u <> Dead).
    { destruct Hc as (t' & Ht' & <-).
      destruct (step_backward k k' p t' Hstep Ht') as [(t & Ht & _ & Hpm & _)|
        (_ & _ & _ & _ & [v Hv] & x & u & Hx & Hl & [Hpx|Hpx])].
      - destruct Hpm as [->|(u & h & _ & _ & _ & _ & ? & ?)]; [|right; by exists h].
        apply (wf_parent _ Hwf p). by exists t.
      - right. exists u. rewrite Hpx. split; [done|]. by rewrite Hl.
      - rewrite Hpx. apply (wf_parent _ Hwf x). by exists u. }
    destruct Hq as [?|(u & Hu & Hd)]; [by left|right].
    destruct (step_forward k k' q u Hstep Hu) as [(_ & ? & _)|(u' & Hu' & _)]; [done|].
    exists u'. split; [done|]. eapply (no_child_of_the_dead k k' p q); [done| |done|done].
    intros u0 Hu0. by simplify_eq.
  - destruct (wf_init _ Hwf) as (t & Ht & Hp & Hl).
    destruct (step_forward k k' init t Hstep Ht) as [(_ & ? & _)|(t' & Ht' & Hs & Hpm)]; [congruence|].
    exists t'. split_and!; [done| |].
    + destruct Hpm as [->|(u & h & Hu & _)]; [done|]. by rewrite Hp, (no_zero _ Hwf) in Hu.
    + destruct Hs as [->|[(_ & _ & ? & _)|(_ & _ & ? & _)]]; done.
  - destruct (wf_me _ Hwf) as (t & Ht & Hl).
    destruct (step_forward k k' me t Hstep Ht) as [(_ & ? & _)|(t' & Ht' & Hs & Hpm)]; [congruence|].
    exists t'. split; [done|]. destruct Hs as [->|[(_ & _ & _ & ?)|(_ & _ & _ & ?)]]; done.
  - destruct (wf_apart _ Hwf) as (Hnb & Hri & t & Ht & Hrp). split_and!; [|done|].
    + intros Hb. destruct (wf_me _ Hwf) as (m & Hm & _).
      destruct (below_step k k' me root Hwf Hstep Hb) as [?|[?|H0]]; [by exists m|done..|].
      rewrite H0, (no_zero _ Hwf) in Ht. done.
    + destruct (step_forward k k' root t Hstep Ht) as [(_ & _ & ? & _)|(t' & Ht' & _ & Hpm)]; [done|].
      exists t'. split; [done|]. destruct Hpm as [->|(u & h & _ & _ & Hne & _)]; congruence.
  - intros p q u' (t' & Ht' & Hpar) Hu' Hk.
    destruct (step_backward k k' q u' Hstep Hu') as [(u & Hu & Hs & _)|(_ & _ & ? & _)]; [|congruence].
    assert (Huk : tk_status u = Killed).
    { destruct Hs as [<-|[(_ & ? & _)|(_ & ? & _)]]; congruence. }
    exists t'. split; [done|].
    destruct (step_backward k k' p t' Hstep Ht') as [(t & Ht & Hts & Hpm & _)|
      (_ & _ & _ & _ & _ & x & v & Hx & Hl & [Hpx|Hpx])].
    + assert (Hdm : doomed (kn_tasks k) p).
      { apply (doomed_below _ p q u); [done| |done|done]. rewrite <- Hpar.
        assert (Hc : child (kn_tasks k) p (tk_parent t)) by by exists t.
        destruct Hpm as [->|(w & h & Hw & _ & _ & [Hpi|Hh] & _)]; [by apply tc_once| |by eapply tc_l].
        destruct (wf_init _ Hwf) as (i & Hi & _ & Hil). exfalso.
        assert (q = init) as -> by congruence. congruence. }
      destruct (Hdm t Ht) as [? ?]. destruct Hts as [->|[(? & _)|(_ & -> & _)]]; done.
    + congruence.
    + destruct (wf_killed _ Hwf x q u) as (v' & Hv' & ? & _); [exists v; split; congruence|done..|].
      congruence.
Qed.

(** * What the walk knows of the processes it found *)

(** [p] is held below [q], which has stopped: nobody can reap it, and its number stays its own. *)
Definition pinned T (p q : Z) : Prop :=
  child T p q /\ exists u, T !! q = Some u /\ tk_status u = Stopped.

Definition at_rest T (p : Z) : Prop :=
  exists t, T !! p = Some t /\ (tk_status t = Stopped \/ tk_status t = Dead).

(** The processes found, from the root down: each below one that was found before it. *)
Definition held T (found : list Z) : Prop :=
  head found = Some root /\ NoDup found /\
  forall i p, found !! S i = Some p -> exists j q, j <= i /\ found !! j = Some q /\ pinned T p q.

(** No process outside [found] has its parent in it; and the same but for the doomed. *)
Definition closed T (found : list Z) : Prop := forall p q, child T p q -> q ∈ found -> p ∈ found.
Definition settled T (rest : list Z) : Prop :=
  forall p q, child T p q -> q ∈ rest -> p ∈ rest \/ doomed T p.

Lemma at_rest_still T p t : at_rest T p -> T !! p = Some t -> tk_status t = Live \/ tk_status t = Killed -> False.
Proof using. intros (t' & Ht' & [?|?]) Ht [?|?]; congruence. Qed.

Lemma pinned_step k k' p q :
  wf (kn_tasks k) -> env_step k k' -> pinned (kn_tasks k) p q -> pinned (kn_tasks k') p q.
Proof using.
  intros Hwf Hstep ((t & Ht & Hp) & u & Hu & Hs).
  destruct (step_forward k k' q u Hstep Hu) as [(_ & ? & _)|(u' & Hu' & Hus & _)]; [congruence|].
  assert (Hs' : tk_status u' = Stopped).
  { destruct Hus as [->|[(? & _)|([?|?] & _)]]; congruence. }
  split; [|by exists u'].
  destruct (step_forward k k' p t Hstep Ht) as [(_ & _ & _ & v & Hv & Hl)|(t' & Ht' & _ & Hpm)];
    [congruence|].
  exists t'. split; [done|]. destruct Hpm as [->|(v & h & Hv & [?|?] & _)]; congruence.
Qed.

Lemma held_step k k' found :
  wf (kn_tasks k) -> env_step k k' -> held (kn_tasks k) found -> held (kn_tasks k') found.
Proof using.
  intros Hwf Hstep (Hh & Hnd & Hp). split_and!; [done..|]. intros i p Hi.
  destruct (Hp i p Hi) as (j & q & Hj & Hq & Hpin). exists j, q. split_and!; [done..|].
  by eapply pinned_step.
Qed.

Lemma held_pinned T found p :
  held T found -> p ∈ found -> p = root \/ exists q, q ∈ found /\ pinned T p q.
Proof using.
  intros (Hh & _ & Hp) [[|i] Hi]%list_elem_of_lookup_1.
  - left. destruct found; cbn in *; congruence.
  - destruct (Hp i p Hi) as (j & q & _ & Hq & Hpin). right. exists q. split; [|done].
    by eapply list_elem_of_lookup_2.
Qed.

(** All that was found is below the root. *)
Lemma held_below T found p : held T found -> p ∈ found -> p = root \/ below T p root.
Proof using.
  intros Hheld [i Hi]%list_elem_of_lookup_1. revert p Hi.
  induction (lt_wf i) as [i _ IH]. intros p Hi. destruct i as [|i].
  - left. destruct Hheld as [Hh _]. destruct found; cbn in *; congruence.
  - right. destruct Hheld as (_ & _ & Hp). destruct (Hp i p Hi) as (j & q & Hj & Hq & Hpin & _).
    destruct (IH j ltac:(lia) q Hq) as [->|Hb]; [by apply tc_once|by eapply tc_l].
Qed.

Lemma held_root T found : held T found -> root ∈ found.
Proof using. intros [Hh _]. destruct found; [done|]. cbn in Hh. simplify_eq. by left. Qed.

Lemma at_rest_step k k' found p :
  wf (kn_tasks k) -> env_step k k' -> held (kn_tasks k) found -> p ∈ found ->
  at_rest (kn_tasks k) p -> at_rest (kn_tasks k') p.
Proof using.
  intros Hwf Hstep Hheld Hin (t & Ht & Hs).
  destruct (step_forward k k' p t Hstep Ht) as [(_ & _ & Hr & v & Hv & Hl)|(t' & Ht' & Hts & _)].
  - exfalso. destruct (held_pinned _ _ _ Hheld Hin) as [?|(q & _ & (t0 & Ht0 & Hp0) & u & Hu & Hus)];
      congruence.
  - exists t'. split; [done|]. destruct Hts as [->|[(? & ? & _)|(? & ? & _)]]; auto.
Qed.

Definition frozen T (found : list Z) : Prop := forall p, p ∈ found -> at_rest T p.

Lemma frozen_still T found p t :
  frozen T found -> p ∈ found -> T !! p = Some t -> tk_status t = Live \/ tk_status t = Killed -> False.
Proof using. intros Hf Hp. apply at_rest_still. by apply Hf. Qed.

Lemma frozen_step k k' found :
  wf (kn_tasks k) -> env_step k k' -> held (kn_tasks k) found ->
  frozen (kn_tasks k) found -> frozen (kn_tasks k') found.
Proof using. intros Hwf Hstep Hheld Hf p Hp. eapply at_rest_step; eauto. Qed.

Lemma frozen_init T found : wf T -> frozen T found -> init ∉ found /\ me ∉ found.
Proof using.
  intros Hwf Hf. destruct (wf_init _ Hwf) as (t & Ht & _ & Hl). destruct (wf_me _ Hwf) as (m & Hm & Hml).
  split; intros H; eapply frozen_still; eauto.
Qed.

Lemma settled_below T rest p q :
  wf T -> settled T rest -> below T p q -> q ∈ rest -> p ∈ rest \/ doomed T p.
Proof using.
  intros Hwf Hs Hb. induction Hb as [p q Hc|p b q Hc Hb IH]; intros Hq; [by eapply Hs|].
  destruct (IH Hq) as [Hin|Hd]; [by eapply Hs|]. right.
  destruct (wf_parent _ Hwf _ _ Hc) as [->|(v & Hv & Hvd)].
  - by inversion Hb as [x y (t' & Ht' & _)|x y z' (t' & Ht' & _)]; subst; rewrite (no_zero _ Hwf) in Ht'.
  - destruct (Hd v Hv) as [? ?].
    apply (doomed_below _ p b v); [done|by apply tc_once|done|by destruct (tk_status v)].
Qed.

Lemma doomed_step k k' p :
  env_step k k' -> is_Some (kn_tasks k !! p) -> doomed (kn_tasks k) p -> doomed (kn_tasks k') p.
Proof using.
  intros Hstep [t Ht] Hd t' Ht'.
  destruct (step_backward k k' p t' Hstep Ht') as [(t0 & Ht0 & Hs & _)|[? _]]; [|congruence].
  destruct (Hd t0 Ht0) as [? ?]. destruct Hs as [->|[(? & _)|(_ & -> & _)]]; done.
Qed.

(** What runs on cannot put a process below those that are frozen. *)
Lemma settled_step k k' rest :
  wf (kn_tasks k) -> env_step k k' -> frozen (kn_tasks k) rest ->
  settled (kn_tasks k) rest -> settled (kn_tasks k') rest.
Proof using.
  intros Hwf Hstep Hf Hs p q (t' & Ht' & Hpar) Hq.
  destruct (step_backward k k' p t' Hstep Ht') as [(t & Ht & _ & Hpm & _)|
    (_ & _ & _ & _ & _ & x & u & Hx & Hl & Hpx)].
  - assert (Hpd : p ∈ rest \/ doomed (kn_tasks k) p).
    { assert (Hc : child (kn_tasks k) p (tk_parent t)) by by exists t.
      destruct Hpm as [Heq|(v & h & Hv & Hvl & _ & Hh & _)].
      - apply (Hs p q); [|done]. by rewrite <- Hpar, Heq.
      - rewrite Hpar in Hh. destruct (frozen_init _ _ Hwf Hf) as [Hi _].
        destruct Hh as [->|Hb]; [done|].
        destruct (settled_below _ _ _ _ Hwf Hs Hb Hq) as [Hin|Hd].
        + exfalso. eapply frozen_still; eauto.
        + right. destruct (Hd v Hv) as [? ?]. destruct Hvl as [?|?]; [done|].
          by apply (doomed_below _ p (tk_parent t) v); [|apply tc_once|..]. }
    destruct Hpd as [?|?]; [by left|right]. eapply doomed_step; eauto.
  - exfalso. destruct Hpx as [Hpx|Hpx]; rewrite Hpar in Hpx.
    + rewrite Hpx in Hq. eapply frozen_still; eauto.
    + destruct (Hs x q) as [Hin|Hd]; [by exists u|done|eapply frozen_still; eauto|].
      by destruct (Hd u Hx).
Qed.

Lemma closed_settled T found : closed T found -> settled T found.
Proof using. intros Hc p q Hp Hq. left. by eapply Hc. Qed.

(** While all of [found] is frozen, who is below it now was below it before. *)
Lemma closed_step k k' found :
  wf (kn_tasks k) -> env_step k k' -> frozen (kn_tasks k) found ->
  closed (kn_tasks k) found -> closed (kn_tasks k') found.
Proof using.
  intros Hwf Hstep Hf Hc.
  assert (Hbelow : forall p q, below (kn_tasks k) p q -> q ∈ found -> p ∈ found).
  { intros p q Hb. induction Hb as [p q H|p b q H Hb IH]; intros Hq; eauto. }
  intros p q (t' & Ht' & Hpar) Hq.
  destruct (step_backward k k' p t' Hstep Ht') as [(t & Ht & _ & Hpm & _)|
    (_ & _ & _ & _ & _ & x & u & Hx & Hl & Hpx)].
  - destruct Hpm as [Heq|(v & h & Hv & Hvl & _ & Hh & _)].
    + apply (Hc p q); [|done]. exists t. split; [done|]. congruence.
    + exfalso. rewrite Hpar in Hh. destruct (frozen_init _ _ Hwf Hf) as [Hi _].
      destruct Hh as [->|Hb]; [done|]. exact (frozen_still _ _ _ _ Hf (Hbelow _ _ Hb Hq) Hv Hvl).
  - exfalso. apply (frozen_still (kn_tasks k) found x u); [done| |done|auto].
    destruct Hpx as [Hpx|Hpx]; rewrite Hpar in Hpx; [by subst x|].
    apply (Hc x q); [|done]. exists u. split; [done|]. congruence.
Qed.

(** ** What the walk reads *)

Lemma read_line pid t :
  is_utf8 (tk_name t) = true -> (0 <= tk_parent t <= u32_max)%Z ->
  read_to_string (line_of pid t) ≫= state_and_parent = Some (letter (tk_status t), tk_parent t).
Proof using.
  intros Hn Hp. unfold line_of.
  set (p := mkLinuxProcess (tk_name t) (letter (tk_status t)) (tk_parent t :: repeat 0%Z 17) 0 []).
  assert (Hok : map_Forall (fun _ => linux_process_ok) ({[pid := p]} : gmap Z LinuxProcess)).
  { apply map_Forall_singleton. split; [by destruct t as [? []]|done|done]. }
  pose proof (stat_fields_linux _ 0 Hok pid) as Hf.
  rewrite lookup_singleton_eq in Hf. unfold stat_fields, linux_host in Hf. cbn [hs_stat] in Hf.
  rewrite lookup_singleton_eq in Hf. cbn [fmap option_fmap option_map mbind option_bind] in Hf.
  change (lp_name p) with (tk_name t) in Hf. rewrite Hn in Hf.
  destruct (read_to_string (stat_line pid p)) as [stat|]; [|done]. cbn [mbind option_bind] in Hf |- *.
  unfold state_and_parent. rewrite Hf. cbn -[parse_u32 pretty]. unfold parse_u32, of_text, text.
  rewrite String.string_of_list_ascii_of_string, parse_usize_pretty by (unfold u32_max, u64_max in *; lia).
  cbn. by rewrite bool_decide_eq_true_2 by apply Hp.
Qed.

Lemma parent_in_range T p q : wf T -> child T p q -> (0 <= q <= u32_max)%Z.
Proof using.
  intros Hwf Hc. destruct (wf_parent _ Hwf _ _ Hc) as [->|(u & Hu & _)]; [done|].
  pose proof (wf_range _ Hwf _ _ Hu) as [? ?]. unfold i32_max, u32_max in *. lia.
Qed.

Lemma read_task k p t :
  wf (kn_tasks k) -> kn_tasks k !! p = Some t ->
  read_stat k p ≫= state_and_parent = Some (letter (tk_status t), tk_parent t).
Proof using.
  intros Hwf Ht. unfold read_stat. rewrite Ht. cbn [fmap option_fmap option_map mbind option_bind].
  apply read_line; [by apply (wf_name _ Hwf p)|]. apply (parent_in_range (kn_tasks k) p); [done|].
  by exists t.
Qed.

Lemma parent_of_child k p q : wf (kn_tasks k) -> parent_of k p = Some q <-> child (kn_tasks k) p q.
Proof using.
  intros Hwf. unfold parent_of. destruct (kn_tasks k !! p) as [t|] eqn:Ht.
  - rewrite (read_task k p t) by done. cbn. split.
    + intros [= <-]. by exists t.
    + intros (t' & Ht' & <-). congruence.
  - unfold read_stat. rewrite Ht. cbn. split; [done|]. intros (t' & Ht' & _). congruence.
Qed.

Lemma stopped_at_rest k p :
  wf (kn_tasks k) -> is_Some (kn_tasks k !! p) -> stopped k p = true -> at_rest (kn_tasks k) p.
Proof using.
  intros Hwf [t Ht]. unfold stopped. rewrite Ht, (read_task k p t) by done.
  rewrite bool_decide_eq_true. intros Hs. exists t. split; [done|].
  destruct (tk_status t); cbn in Hs; auto; repeat (apply elem_of_cons in Hs as [?|Hs]; [done|]);
    by apply elem_of_nil in Hs.
Qed.

(** * The walk, among the others *)

Abbreviation holds Q c k :=
  (wp meanwhile (fun (_ : unit) _ _ => True) (fun m _ _ => m) (fun a _ s => Q a s) c tt k).

Lemma stable_steps (P : Kernel -> Prop) :
  (forall k k', env_step k k' -> P k -> P k') -> stable meanwhile P.
Proof using. intros HP k k' Hm. induction Hm; eauto. Qed.

(** Every signal went to the root, or to a process that was below it. *)
Definition sent_below k : Prop :=
  Forall (fun '(pid, _, T) => pid = root \/ below T pid root) (kn_sent k).

Lemma sent_step k k' : env_step k k' -> kn_sent k' = kn_sent k.
Proof using. by destruct 1. Qed.

(** [found] is held, and of it [resting] has stopped or exited. *)
Record walked (found resting : list Z) (k : Kernel) : Prop := {
  wk_wf : wf (kn_tasks k);
  wk_sent : sent_below k;
  wk_held : held (kn_tasks k) found;
  wk_rest : forall p, p ∈ resting -> p ∈ found /\ at_rest (kn_tasks k) p
}.

Lemma walked_stable found resting : stable meanwhile (walked found resting).
Proof using.
  apply stable_steps. intros k k' Hstep [Hwf Hsent Hheld Hrest]. split.
  - by eapply wf_step.
  - unfold sent_below. by rewrite (sent_step k k').
  - by eapply held_step.
  - intros p Hp. destruct (Hrest p Hp) as [Hin Har]. split; [done|]. by eapply at_rest_step.
Qed.

Lemma walked_present found resting k p :
  walked found resting k -> p ∈ found -> is_Some (kn_tasks k !! p).
Proof using.
  intros [Hwf _ Hheld _] Hp. destruct (held_pinned _ _ _ Hheld Hp) as [->|(q & _ & (t & Ht & _) & _)];
    [|by exists t]. destruct (wf_apart _ Hwf) as (_ & _ & t & Ht & _). by exists t.
Qed.

Definition retained (found pids resting rest : list Z) (k' : Kernel) : Prop :=
  exists resting', walked found resting' k' /\ resting ⊆ resting' /\ rest ⊆ pids /\
    forall p, p ∈ pids -> p ∈ rest \/ p ∈ resting'.

Lemma retain_unstopped_holds pids found resting k :
  walked found resting k -> pids ⊆ found ->
  holds (fun rest k' => retained found pids resting rest k') (retain_unstopped pids) k.
Proof using.
  revert resting k. induction pids as [|p pids IH]; intros resting k Hw Hsub.
  { cbn. exists resting. split_and!; [done..|]. intros p Hp. by apply elem_of_nil in Hp. }
  cbn [retain_unstopped]. apply (wp_look _ _ _ (walked found resting)); [apply walked_stable|done|].
  intros k1 Hw1.
  assert (Hw1' : walked found (if stopped k1 p then p :: resting else resting) k1).
  { destruct (stopped k1 p) eqn:Hs; [|done]. destruct Hw1 as [Hwf Hsent Hheld Hrest]. split; [done..|].
    intros q [->|Hq]%elem_of_cons; [|by apply Hrest]. assert (Hp : p ∈ found) by set_solver.
    split; [done|]. apply stopped_at_rest; [done| |done].
    by apply (walked_present found resting). }
  eapply wp_then; [apply IH; [exact Hw1'|set_solver]|].
  intros rest [] k' (resting' & Hw' & Hsub' & Hrest & Hall). cbn. exists resting'.
  destruct (stopped k1 p); split_and!; try done; try set_solver.
Qed.

(** A wait that ends in time leaves all that was found at rest. *)
Lemma wait_stopped_holds fuel pids found resting deadline k :
  walked found resting k -> pids ⊆ found -> (forall p, p ∈ found -> p ∈ pids \/ p ∈ resting) ->
  holds (fun all k' => all = Some true -> walked found found k') (wait_stopped_by fuel pids deadline) k.
Proof using.
  revert pids resting k. induction fuel as [|fuel IH]; intros pids resting k Hw Hsub Hall; [done|].
  cbn [wait_stopped_by]. eapply wp_then; [by apply (retain_unstopped_holds pids found resting)|].
  intros rest [] k1 (resting1 & Hw1 & Hs1 & Hr1 & Hall1).
  destruct rest as [|p rest].
  - cbn. intros _. destruct Hw1 as [Hwf Hsent Hheld Hrest]. split; [done..|]. intros p Hp.
    split; [done|]. apply Hrest. destruct (Hall p Hp) as [H|?]; [|set_solver].
    destruct (Hall1 p H) as [H'|?]; [by apply elem_of_nil in H'|done].
  - apply (wp_look _ _ _ (walked found resting1)); [apply walked_stable|done|]. intros k2 Hw2.
    case_bool_decide; [done|]. unfold sleep. repeat apply wp_assoc.
    apply (wp_look _ _ _ (walked found resting1)); [apply walked_stable|done|]. intros k3 Hw3.
    apply (wp_await _ _ _ (walked found resting1)); [apply walked_stable|done|].
    intros k4 b k5 Hw4 Hk5. case_bool_decide; [|done]. injection Hk5 as <- <-.
    eapply IH; [exact Hw4|set_solver|]. intros q Hq. destruct (Hall q Hq) as [H'|?]; [|set_solver].
    destruct (Hall1 q H'); set_solver.
Qed.

(** ** The scan *)

(** [found] is frozen, and either nothing else is below it, or some process still is. *)
Definition open_at (found : list Z) (u : option (Z * Z)) (k : Kernel) : Prop :=
  walked found found k /\
  match u with
  | Some (p, q) => q ∈ found /\ p ∉ found /\ pinned (kn_tasks k) p q
  | None => closed (kn_tasks k) found
  end.

Lemma open_at_stable found u : stable meanwhile (open_at found u).
Proof using.
  apply stable_steps. intros k k' Hstep [Hw Hu]. split.
  { apply (walked_stable found found k); [by apply rtc_once|done]. }
  destruct Hw as [Hwf _ Hheld Hrest]. destruct u as [[p q]|].
  - destruct Hu as (? & ? & ?). split_and!; [done..|]. by eapply pinned_step.
  - eapply closed_step; eauto. intros p Hp. by apply Hrest.
Qed.

(** What was read of a process below [found] still holds. *)
Definition listed_in (found : list Z) (listed : list (Z * Z)) (k : Kernel) : Prop :=
  forall p q, (p, q) ∈ listed -> q ∈ found -> pinned (kn_tasks k) p q.

Lemma listed_stable found listed u :
  stable meanwhile (fun k => open_at found u k /\ listed_in found listed k).
Proof using.
  apply stable_steps. intros k k' Hstep [Ho Hl]. split.
  { apply (open_at_stable found u k); [by apply rtc_once|done]. }
  destruct Ho as [[Hwf _ _ _] _]. intros p q Hin Hq. eapply pinned_step; eauto.
Qed.

Lemma frozen_pinned T found p q :
  wf T -> frozen T found -> child T p q -> q ∈ found -> pinned T p q.
Proof using.
  intros Hwf Hf Hc Hq. split; [done|]. destruct (Hf q Hq) as (u & Hu & [Hs|Hd]); [by exists u|].
  destruct (wf_parent _ Hwf _ _ Hc) as [->|(v & Hv & ?)]; [|congruence].
  by rewrite (no_zero _ Hwf) in Hu.
Qed.

Lemma read_parents_holds pids found u acc k :
  NoDup pids -> open_at found u k -> listed_in found acc k ->
  holds (fun listed k' => open_at found u k' /\ listed_in found (acc ++ listed) k' /\
           NoDup listed.*1 /\ listed.*1 ⊆ pids /\
           forall p q, u = Some (p, q) -> p ∈ pids -> (p, q) ∈ listed)
        (read_parents pids) k.
Proof using.
  intros Hnd. revert acc k. induction Hnd as [|p pids Hp Hnd IH]; intros acc k Ho Hacc.
  { cbn. rewrite app_nil_r. split_and!; [done..|constructor|done|].
    intros p q _ H. by apply elem_of_nil in H. }
  cbn [read_parents].
  apply (wp_look _ _ _ (fun k => open_at found u k /\ listed_in found acc k));
    [apply listed_stable|done|].
  intros k1 [Ho1 Hacc1]. pose proof (wk_wf _ _ _ (proj1 Ho1)) as Hwf.
  destruct (parent_of k1 p) as [q|] eqn:Hq.
  - apply parent_of_child in Hq; [|done].
    assert (Hacc' : listed_in found (acc ++ [(p, q)]) k1).
    { intros p' q' [Hin|Hin%list_elem_of_singleton]%elem_of_app Hq'; [by apply Hacc1|].
      injection Hin as -> ->. apply (frozen_pinned _ found); [done| |done|done].
      intros r Hr. by apply (wk_rest _ _ _ (proj1 Ho1)). }
    eapply wp_then; [apply (IH _ k1 Ho1 Hacc')|].
    intros rest [] k2 (Ho2 & Hl2 & Hnd2 & Hsub2 & Hu2). cbn.
    rewrite <- app_assoc in Hl2. split_and!; [done|done|constructor; set_solver|set_solver|].
    intros p' q' Hu [->|Hin]%elem_of_cons; [|right; by apply Hu2].
    destruct Ho1 as [_ Hou]. rewrite Hu in Hou. destruct Hou as (_ & _ & (t & Ht & Hpar) & _).
    destruct Hq as (t' & Ht' & <-). assert (q' = tk_parent t') as -> by congruence. by left.
  - eapply wp_then; [apply (IH _ k1 Ho1 Hacc1)|].
    intros rest [] k2 (Ho2 & Hl2 & Hnd2 & Hsub2 & Hu2). cbn. split_and!; [done..|set_solver|].
    intros p' q' Hu [->|Hin]%elem_of_cons; [|by apply Hu2].
    destruct Ho1 as [_ Hou]. rewrite Hu in Hou. destruct Hou as (_ & _ & Hc & _).
    apply (parent_of_child k1) in Hc; [congruence|done].
Qed.

(** Either nothing else is below [found], or some process is. *)
Lemma closed_or_open T found :
  closed T found \/ exists p q, child T p q /\ q ∈ found /\ p ∉ found.
Proof using.
  destruct (decide (map_Forall (fun p t => tk_parent t ∈ found -> p ∈ found) T)) as [Hc|Hc].
  - left. intros p q (t & Ht & <-) Hq. by eapply Hc.
  - right. apply map_not_Forall in Hc as (p & t & Ht & Hn); [|solve_decision].
    exists p, (tk_parent t). split; [by exists t|].
    destruct (decide (tk_parent t ∈ found)), (decide (p ∈ found)); tauto.
Qed.

(** The scan shows every process below [found] that cannot go away, and if it shows none there is
    none. *)
Lemma processes_holds found k :
  walked found found k ->
  holds (fun listed k' => walked found found k' /\ listed_in found listed k' /\ NoDup listed.*1 /\
           (unknown_below found listed = [] -> closed (kn_tasks k') found))
        processes k.
Proof using.
  intros Hw. unfold processes.
  apply (wp_look _ _ _ (walked found found)); [apply walked_stable|done|]. intros k1 Hw1.
  assert (Hopen : exists u, open_at found u k1 /\
                    forall p q, u = Some (p, q) -> p ∈ proc_entries k1).
  { destruct (closed_or_open (kn_tasks k1) found) as [Hc|(p & q & Hpq & Hq & Hp)];
      [exists None; by split|]. exists (Some (p, q)). split.
    - split; [done|]. split_and!; [done..|]. destruct Hw1 as [Hwf _ _ Hrest].
      apply (frozen_pinned _ found); [done| |done|done]. intros r Hr. by apply Hrest.
    - intros p' q' [= <- <-]. destruct Hpq as (t & Ht & _). unfold proc_entries.
      apply list_elem_of_fmap. exists (p, t). split; [done|]. by apply elem_of_map_to_list. }
  destruct Hopen as (u & Ho & Hin). apply wp_unit.
  eapply wp_then; [apply (read_parents_holds _ found u []); [apply NoDup_fst_map_to_list|done|]|].
  { intros p q H. by apply elem_of_nil in H. }
  intros listed [] k2 (Ho2 & Hl2 & Hnd & _ & Hu). cbn. split_and!; [apply Ho2|done|done|].
  intros Hnone. destruct u as [[p q]|]; [|apply Ho2]. exfalso.
  destruct Ho2 as (_ & Hq & Hp & _). specialize (Hu p q eq_refl (Hin p q eq_refl)).
  assert (Hbad : p ∈ unknown_below found listed); [|by rewrite Hnone in Hbad; apply elem_of_nil in Hbad].
  unfold unknown_below. apply list_elem_of_fmap. exists (p, q). split; [done|].
  apply list_elem_of_In, filter_In. split; [by apply list_elem_of_In|].
  by rewrite !bool_decide_eq_true_2.
Qed.

(** ** Stopping *)

(** A signal to a process that the walk holds is sent. *)
Lemma signal_holds {B} pid s (P : Kernel -> Prop) (k : bool -> walking B) (Q : B -> Kernel -> Prop) k0 :
  pid <> me -> stable meanwhile P -> P k0 ->
  (forall k1, P k1 -> wf (kn_tasks k1) /\ is_Some (kn_tasks k1 !! pid)) ->
  (forall k1 t, P k1 -> kn_tasks k1 !! pid = Some t -> holds Q (k true) (signalled k1 pid s t)) ->
  holds Q (signal me pid s ≫= k) k0.
Proof using.
  intros Hme HP H0 Hpres Hk. unfold signal. rewrite bool_decide_eq_false_2 by done.
  destruct (Hpres k0 H0) as [Hwf [t0 Ht0]].
  rewrite bool_decide_eq_true_2 by by apply (wf_range _ Hwf pid t0).
  apply (wp_turn _ _ _ P); [done..|]. intros k1 H1. destruct (Hpres k1 H1) as [_ [t Ht]].
  rewrite Ht. cbn. by apply Hk.
Qed.

Lemma held_snoc T found p q :
  held T found -> p ∉ found -> q ∈ found -> pinned T p q -> held T (found ++ [p]).
Proof using.
  intros (Hh & Hnd & Hheld) Hp [j Hj]%list_elem_of_lookup_1 Hpin. split_and!.
  - destruct found; [done|]. exact Hh.
  - apply NoDup_app. split_and!; [done| |apply NoDup_singleton].
    intros x Hx Hx'%list_elem_of_singleton. by subst.
  - intros i r Hi. apply lookup_app_Some in Hi as [Hi|[Hlen Hi]].
    + destruct (Hheld i r Hi) as (j' & q' & Hj' & Hq' & Hpin'). exists j', q'.
      split_and!; [done| |done]. by apply lookup_app_l_Some.
    + destruct (S i - length found) eqn:Hz; [|done]. injection Hi as <-.
      exists j, q. pose proof (lookup_lt_Some _ _ _ Hj). split_and!; [lia| |done].
      by apply lookup_app_l_Some.
Qed.

(** What was listed below [found] and is not stopped yet. *)
Definition to_stop (found pids : list Z) (k : Kernel) : Prop :=
  forall p, p ∈ pids -> exists q, q ∈ found /\ pinned (kn_tasks k) p q.

Lemma to_stop_stable found known pids resting :
  stable meanwhile (fun k => walked found resting k /\ to_stop known pids k).
Proof using.
  apply stable_steps. intros k k' Hstep [Hw Ht]. split.
  { apply (walked_stable found resting k); [by apply rtc_once|done]. }
  intros p Hp. destruct (Ht p Hp) as (q & Hq & Hpin). exists q. split; [done|].
  eapply pinned_step; [apply (wk_wf _ _ _ Hw)|done|done].
Qed.

Lemma pinned_not_me T found p q : wf T -> held T found -> q ∈ found -> pinned T p q ->
  below T p root /\ p <> me.
Proof using.
  intros Hwf Hheld Hq [Hc _].
  assert (Hb : below T p root).
  { destruct (held_below _ _ _ Hheld Hq) as [->|Hb]; [by apply tc_once|by eapply tc_l]. }
  split; [done|]. intros ->. by destruct (wf_apart _ Hwf).
Qed.

Lemma stop_each_holds pids known found resting k :
  NoDup pids -> (forall p, p ∈ pids -> p ∉ found) -> known ⊆ found ->
  walked found resting k -> to_stop known pids k ->
  holds (fun stopped k' => stopped = pids /\ walked (found ++ pids) resting k') (stop_each me pids) k.
Proof using.
  intros Hnd. revert found k. induction Hnd as [|p pids Hp Hnd IH]; intros found k Hnew Hk Hw Ht.
  { cbn. by rewrite app_nil_r. }
  cbn [stop_each]. destruct (Ht p) as (q & Hq & Hpin); [by left|].
  assert (Hme : p <> me).
  { eapply pinned_not_me; [apply (wk_wf _ _ _ Hw)|apply (wk_held _ _ _ Hw)| |done]. set_solver. }
  apply (signal_holds _ _ (fun k => walked found resting k /\ to_stop known (p :: pids) k));
    [done|apply to_stop_stable|done| |].
  { intros k1 [Hw1 Ht1]. split; [apply (wk_wf _ _ _ Hw1)|].
    destruct (Ht1 p) as (q1 & _ & (t & Hpt & _) & _); [by left|by exists t]. }
  intros k1 t [Hw1 Ht1] Hpt. destruct (Ht1 p) as (q1 & Hq1 & Hpin1); [by left|].
  assert (Hw2 : walked (found ++ [p]) resting (signalled k1 p SIGSTOP t)).
  { destruct Hw1 as [Hwf Hsent Hheld Hrest]. split; cbn.
    - done.
    - apply Forall_app. split; [done|]. apply Forall_singleton. right.
      eapply (pinned_not_me _ found p q1); [done..|set_solver|done].
    - eapply held_snoc; [done|apply Hnew; by left| |exact Hpin1]. set_solver.
    - intros r Hr. destruct (Hrest r Hr). split; [set_solver|done]. }
  eapply wp_then; [apply (IH (found ++ [p]))|].
  - intros r Hr [Hf|Hf%list_elem_of_singleton]%elem_of_app; [|by subst].
    apply (Hnew r); [by right|done].
  - set_solver.
  - exact Hw2.
  - intros r Hr. apply Ht1. by right.
  - intros stopped [] k2 [-> Hw']. cbn. by rewrite <- app_assoc in Hw'.
Qed.

(** ** The levels *)

Lemma unknown_below_ok found listed k :
  NoDup listed.*1 -> listed_in found listed k ->
  NoDup (unknown_below found listed) /\ (forall p, p ∈ unknown_below found listed -> p ∉ found) /\
  to_stop found (unknown_below found listed) k.
Proof using.
  intros Hnd Hl. unfold unknown_below.
  set (f := fun '(pid, parent) => bool_decide (parent ∈ found) && bool_decide (pid ∉ found)).
  assert (Hin : forall p, p ∈ (List.filter f listed).*1 ->
            exists q, (p, q) ∈ listed /\ q ∈ found /\ p ∉ found).
  { intros p ([p' q] & -> & Hf)%list_elem_of_fmap. exists q.
    apply list_elem_of_In, filter_In in Hf as [Hf Hb]. apply list_elem_of_In in Hf.
    unfold f in Hb. by rewrite andb_true_iff, !bool_decide_eq_true in Hb. }
  split_and!.
  - clear Hin Hl. induction listed as [|[p q] listed IH]; [constructor|].
    cbn in Hnd. apply NoDup_cons in Hnd as [Hp Hnd]. cbn [List.filter].
    destruct (f (p, q)); [|by apply IH]. cbn. constructor; [|by apply IH].
    intros ([p' q'] & Hpp & Hf)%list_elem_of_fmap. apply Hp, list_elem_of_fmap. exists (p', q').
    split; [done|]. by apply list_elem_of_In, filter_In in Hf as [Hf%list_elem_of_In _].
  - intros p Hp. by destruct (Hin p Hp) as (q & _ & _ & ?).
  - intros p Hp. destruct (Hin p Hp) as (q & Hpq & Hq & _). exists q. split; [done|]. by apply Hl.
Qed.

(** Levels that are not in time say so. *)
Lemma hurried depth found stopping deadline :
  returns (fun r => snd r <> Some true) (levels me depth found stopping deadline false).
Proof using.
  revert found stopping. induction depth as [|depth IH]; intros found stopping; [done|].
  cbn [levels]. apply returns_then. intros [all|]; [|done]. apply returns_then. intros listed.
  apply returns_then. intros [|p pids]; [by cbn|]. cbn [andb]. apply IH.
Qed.

Lemma wp_returns {A} (P : A -> Prop) (Q : A -> Kernel -> Prop) (c : walking A) k :
  returns P c -> (forall a k', P a -> Q a k') -> holds Q c k.
Proof using.
  intros Hc HQ. revert k. induction c as [a|B step f IH|q f IH]; intros k; cbn in *; [auto| |done].
  intros k1 b k2 _ _. by apply IH.
Qed.

Definition came_to_an_end (r : list Z * option bool) (k : Kernel) : Prop :=
  snd r = Some true -> walked (fst r) (fst r) k /\ closed (kn_tasks k) (fst r).

Lemma levels_holds depth found stopping resting deadline k :
  walked found resting k -> stopping ⊆ found -> (forall p, p ∈ found -> p ∈ stopping \/ p ∈ resting) ->
  holds came_to_an_end (levels me depth found stopping deadline true) k.
Proof using.
  revert found stopping resting k.
  induction depth as [|depth IH]; intros found stopping resting k Hw Hsub Hall; [done|].
  cbn [levels]. eapply wp_then; [by apply (wait_stopped_holds _ stopping found resting)|].
  intros waited [] k1 Hk1. destruct waited as [[]|]; [|clear Hk1|done].
  2: { apply (wp_returns (fun r => snd r <> Some true)); [|by intros r k' Hr].
    apply returns_then. intros listed. apply returns_then. intros [|p pids]; [done|].
    apply hurried. }
  specialize (Hk1 eq_refl). eapply wp_then; [by apply processes_holds|].
  intros listed [] k2 (Hw2 & Hl2 & Hnd & Hc2).
  destruct (unknown_below_ok found listed k2 Hnd Hl2) as (Hnd' & Hnew & Hts).
  destruct (unknown_below found listed) as [|p pids] eqn:Hub.
  { cbn. intros _. split; [done|]. by apply Hc2. }
  eapply wp_then; [by apply (stop_each_holds _ found found found)|].
  intros stopped' [] k3 [-> Hw3]. cbn [andb].
  apply (IH _ _ found); [done|set_solver|]. intros r [?|?]%elem_of_app; [by right|by left].
Qed.

(** ** Killing

    From the bottom up: [rest] are the processes that are still to be killed, and the root. *)
Record killing (rest : list Z) (k : Kernel) : Prop := {
  kl_walked : walked rest rest k;
  kl_settled : settled (kn_tasks k) rest
}.

Lemma killing_stable rest : stable meanwhile (killing rest).
Proof using.
  apply stable_steps. intros k k' Hstep [Hw Hs]. split.
  - apply (walked_stable rest rest k); [by apply rtc_once|done].
  - eapply settled_step; [apply (wk_wf _ _ _ Hw)|done| |done].
    intros p Hp. by apply (wk_rest _ _ _ Hw).
Qed.

Lemma killed_parent t : tk_parent (killed t) = tk_parent t.
Proof using. by destruct t as [? []]. Qed.

Lemma child_killed T pid t p q :
  T !! pid = Some t -> child (<[pid := killed t]> T) p q <-> child T p q.
Proof using.
  intros Ht. unfold child. destruct (decide (p = pid)) as [->|Hne].
  - rewrite lookup_insert_eq, Ht. split; intros (t' & [= <-] & Hp); eexists; (split; [done|]);
      by rewrite killed_parent in *.
  - by rewrite lookup_insert_ne by done.
Qed.

Lemma below_killed T pid t p q :
  T !! pid = Some t -> below (<[pid := killed t]> T) p q -> below T p q.
Proof using.
  intros Ht Hb. induction Hb as [p q Hc|p b q Hc Hb IH].
  - apply tc_once. by eapply child_killed.
  - eapply tc_l; [by eapply child_killed|done].
Qed.

(** Killing a process none of whose children runs on. *)
Lemma wf_kill T pid t :
  wf T -> T !! pid = Some t -> pid <> me -> pid <> init ->
  (forall p, child T p pid -> doomed T p) -> wf (<[pid := killed t]> T).
Proof using.
  intros Hwf Ht Hme Hinit Hch. split.
  - intros p u [[<- <-]|[_ Hu]]%lookup_insert_Some; [|by apply (wf_name _ Hwf p)].
    pose proof (wf_name _ Hwf pid t Ht). by destruct t as [? []].
  - intros p u [[<- <-]|[_ Hu]]%lookup_insert_Some; [by apply (wf_range _ Hwf pid t)|].
    by apply (wf_range _ Hwf p u).
  - intros p q Hc%child_killed; [|done]. destruct (wf_parent _ Hwf _ _ Hc) as [?|(u & Hu & Hd)]; [by left|].
    right. destruct (decide (pid = q)) as [<-|Hne].
    + rewrite lookup_insert_eq. eexists. split; [done|]. assert (u = t) as -> by congruence.
      by destruct t as [? []].
    + rewrite lookup_insert_ne by done. by exists u.
  - destruct (wf_init _ Hwf) as (u & Hu & ?). exists u. by rewrite lookup_insert_ne.
  - destruct (wf_me _ Hwf) as (u & Hu & ?). exists u. by rewrite lookup_insert_ne.
  - destruct (wf_apart _ Hwf) as (Hb & Hri & u & Hu & Hup). split_and!; [|done|].
    + intros H. exact (Hb (below_killed _ _ _ _ _ Ht H)).
    + destruct (decide (pid = root)) as [->|Hne].
      * rewrite lookup_insert_eq. eexists. split; [done|]. rewrite killed_parent. congruence.
      * rewrite lookup_insert_ne by done. by exists u.
  - intros p q u Hc Hu Hk. apply child_killed in Hc; [|done].
    assert (Hd : exists v, T !! p = Some v /\ tk_status v <> Live /\ tk_status v <> Stopped).
    { destruct (decide (pid = q)) as [<-|Hne].
      - destruct Hc as (v & Hv & Hvp). exists v. split; [done|]. apply (Hch p); [by exists v|done].
      - rewrite lookup_insert_ne in Hu by done. by apply (wf_killed _ Hwf p q u). }
    destruct Hd as (v & Hv & ? & ?). destruct (decide (pid = p)) as [->|Hne].
    + rewrite lookup_insert_eq. eexists. split; [done|]. assert (v = t) as -> by congruence.
      by destruct t as [? []].
    + rewrite lookup_insert_ne by done. by exists v.
Qed.

(** The last of [rest] has no child that runs on: its children were found after it. *)
Lemma last_childless rest pid k p :
  killing (rest ++ [pid]) k -> rest <> [] -> child (kn_tasks k) p pid -> doomed (kn_tasks k) p.
Proof using.
  intros [[Hwf _ Hheld Hrest] Hs] Hne Hc.
  destruct (Hs p pid Hc) as [Hin|?]; [set_solver| |done]. exfalso.
  destruct Hheld as (Hh & Hnd & Hheld). apply list_elem_of_lookup_1 in Hin as [[|i] Hi].
  - assert (p = root) as ->.
    { destruct rest; [done|]. cbn in *. congruence. }
    destruct (wf_apart _ Hwf) as (_ & _ & t & Ht & Hp).
    destruct Hc as (t' & Ht' & Hp'). assert (pid = me) as -> by congruence.
    apply (frozen_init _ _ Hwf (fun q Hq => proj2 (Hrest q Hq))). set_solver.
  - destruct (Hheld i p Hi) as (j & q & Hj & Hq & (t & Ht & Hp) & _).
    destruct Hc as (t' & Ht' & Hp'). assert (q = pid) as -> by congruence.
    assert (Hl : (rest ++ [pid]) !! length rest = Some pid).
    { rewrite lookup_app_r, Nat.sub_diag by lia. done. }
    pose proof (NoDup_lookup _ _ _ _ Hnd Hq Hl) as ->.
    apply lookup_lt_Some in Hi. rewrite length_app in Hi. cbn in Hi. lia.
Qed.

Lemma killed_last rest pid k t :
  killing (rest ++ [pid]) k -> rest <> [] -> kn_tasks k !! pid = Some t ->
  killing rest (signalled k pid SIGKILL t).
Proof using.
  intros Hk Hne Ht. pose proof (last_childless rest pid k) as Hch.
  pose proof Hk as [[Hwf Hsent Hheld Hrest] Hs].
  destruct (frozen_init _ _ Hwf (fun q Hq => proj2 (Hrest q Hq))) as [Hinit Hme].
  assert (Hnin : pid ∉ rest).
  { destruct Hheld as (_ & Hnd & _). apply NoDup_app in Hnd as (_ & Hd & _).
    intros H. apply (Hd pid H). by apply list_elem_of_singleton. }
  assert (Hsub : forall q, q ∈ rest -> kn_tasks (signalled k pid SIGKILL t) !! q = kn_tasks k !! q).
  { intros q Hq. cbn. apply lookup_insert_ne. by intros ->. }
  split; [split|].
  - cbn. apply wf_kill; [done|done|set_solver|set_solver|]. intros p Hc. by apply Hch.
  - apply Forall_app. split; [done|]. apply Forall_singleton.
    apply (held_below _ _ _ Hheld). set_solver.
  - destruct Hheld as (Hh & Hnd & Hheld). split_and!.
    + destruct rest; [done|]. exact Hh.
    + by apply NoDup_app in Hnd as [? _].
    + intros i p Hi. destruct (Hheld i p) as (j & q & Hj & Hq & Hc & u & Hu & Hus);
        [by apply lookup_app_l_Some|].
      assert (Hj' : rest !! j = Some q).
      { apply lookup_lt_Some in Hi. by rewrite lookup_app_l in Hq by lia. }
      exists j, q. split_and!; [done..|]. split; [by apply child_killed|].
      exists u. split; [|done]. rewrite Hsub by by eapply list_elem_of_lookup_2. done.
  - intros p Hp. split; [done|]. destruct (Hrest p) as [_ (u & Hu & Hus)]; [set_solver|].
    exists u. by rewrite Hsub.
  - intros p q Hc Hq. apply child_killed in Hc; [|done].
    assert (Hd : doomed (kn_tasks k) p -> doomed (kn_tasks (signalled k pid SIGKILL t)) p).
    { intros Hd v. cbn. intros [[<- <-]|[_ Hv]]%lookup_insert_Some; [|by apply Hd].
      by destruct t as [? []]. }
    destruct (Hs p q Hc) as [Hin|?]; [set_solver| |auto].
    apply elem_of_app in Hin as [?|Hin%list_elem_of_singleton]; [by left|subst]. right.
    intros v. cbn. rewrite lookup_insert_eq. intros [= <-]. by destruct t as [? []].
Qed.

Lemma kill_each_holds l k :
  killing (root :: l) k -> holds (fun _ k' => killing [root] k') (kill_each me (rev l)) k.
Proof using.
  revert k. induction l as [|pid l IH] using rev_ind; intros k Hk; [done|].
  rewrite rev_unit. cbn [kill_each].
  change (root :: l ++ [pid]) with ((root :: l) ++ [pid]) in Hk.
  assert (Hin : forall k, killing ((root :: l) ++ [pid]) k -> is_Some (kn_tasks k !! pid)).
  { intros k1 [Hw1 _]. apply (walked_present _ _ _ _ Hw1). set_solver. }
  apply (signal_holds _ _ (killing ((root :: l) ++ [pid]))); [|apply killing_stable|done| |].
  - destruct Hk as [[Hwf _ _ Hrest] _].
    destruct (frozen_init _ _ Hwf (fun q Hq => proj2 (Hrest q Hq))) as [_ Hme]. set_solver.
  - intros k1 Hk1. split; [apply (wk_wf _ _ _ (kl_walked _ _ Hk1))|by apply Hin].
  - intros k1 t Hk1 Ht. by apply IH, killed_last.
Qed.

(** ** Time *)

(** A call whose own turns keep [P] keeps it. *)
Lemma wp_along {A} (R : Kernel -> Kernel -> Prop) (P : Kernel -> Prop) (c : walking A) k :
  stable meanwhile P -> (forall k k', R k k' -> P k -> P k') -> along R (fun _ => True) c -> P k ->
  holds (fun _ k' => P k') c k.
Proof using.
  intros HP HR. revert k. induction c as [a|B step f IH|q f IH]; intros k Hc Hk; cbn in *; [done| |done].
  destruct Hc as [Hs Hf]. intros k1 b k2 Hm Hstep. apply IH; [done|].
  eapply HR; [by eapply Hs|]. by eapply HP.
Qed.

Definition no_later (k k' : Kernel) : Prop := kn_now k' = kn_now k.

Definition reached (time : Z) (k : Kernel) : Prop := (time <= kn_now k)%Z.

Lemma clock_stable time : stable meanwhile (reached time).
Proof using.
  apply stable_steps. unfold reached. intros k k' Hstep H. destruct Hstep; cbn in *; try done. lia.
Qed.

Lemma along_look {B} (f : Kernel -> B) : along no_later (fun _ => True) (look f : walking B).
Proof using. split; [|done]. by intros k b k' [= <- <-]. Qed.

Lemma along_retain pids : along no_later (fun _ => True) (retain_unstopped pids).
Proof using.
  induction pids as [|p pids IH]; [done|]. apply along_bind; [apply along_look|].
  intros done_. apply along_bind; [exact IH|]. done.
Qed.

Lemma along_read pids : along no_later (fun _ => True) (read_parents pids).
Proof using.
  induction pids as [|p pids IH]; [done|]. apply along_bind; [apply along_look|].
  intros parent. apply along_bind; [exact IH|]. done.
Qed.

Lemma along_signal pid s : along no_later (fun _ => True) (signal me pid s).
Proof using.
  unfold signal. repeat case_bool_decide; [done| |done]. split; [|done].
  intros k b k' [= Hf]. unfold no_later. destruct (kn_tasks k !! pid); injection Hf as <- <-; [|done].
  by destruct s.
Qed.

Lemma along_stop pids : along no_later (fun _ => True) (stop_each me pids).
Proof using.
  induction pids as [|p pids IH]; [done|]. apply along_bind; [apply along_signal|].
  intros sent. apply along_bind; [exact IH|]. done.
Qed.

Lemma keeps_time {A} time (c : walking A) k :
  along no_later (fun _ => True) c -> reached time k -> holds (fun _ k' => reached time k') c k.
Proof using.
  intros Hc Hk. apply (wp_along no_later (reached time) c k (clock_stable time)); [|done..].
  unfold reached, no_later. by intros k1 k2 ->.
Qed.

(** The wait never runs out of its fuel: by the clock, its deadline is over before. *)
Lemma wait_in_time fuel n pids deadline k :
  n <= 2000 -> 2002 <= fuel + n -> reached (deadline - STOP_BUDGET + STOP_POLL * Z.of_nat n) k ->
  holds (fun all k' => all <> None /\ reached (deadline - STOP_BUDGET) k')
    (wait_stopped_by fuel pids deadline) k.
Proof using.
  revert n pids k. induction fuel as [|fuel IH]; intros n pids k Hn Hf Hk; [lia|].
  cbn [wait_stopped_by]. eapply wp_then; [by apply keeps_time; [apply along_retain|exact Hk]|].
  assert (Hw : forall k, reached (deadline - STOP_BUDGET + STOP_POLL * Z.of_nat n) k ->
                 reached (deadline - STOP_BUDGET) k) by (unfold reached, STOP_POLL; lia).
  intros [|p rest] [] k1 Hk1; [split; [done|]; by apply Hw|].
  set (P := reached (deadline - STOP_BUDGET + STOP_POLL * Z.of_nat n)) in *.
  apply (wp_look _ _ _ P); [apply clock_stable|done|]. intros k2 Hk2.
  case_bool_decide as Hd; [split; [done|]; by apply Hw|].
  assert (Hn' : n < 2000) by (unfold P, reached, STOP_BUDGET, STOP_POLL in *; lia).
  unfold sleep. repeat apply wp_assoc. apply (wp_look _ _ _ P); [apply clock_stable|done|].
  intros k3 Hk3. apply (wp_await _ _ _ P); [apply clock_stable|done|].
  intros k4 b k5 _ Hk5. case_bool_decide as Hdue; [|done]. injection Hk5 as <- <-.
  apply (IH (S n)); [lia|lia|]. unfold P, reached, STOP_POLL in *. lia.
Qed.

Lemma levels_in_time depth found stopping deadline in_time k :
  reached (deadline - STOP_BUDGET) k ->
  holds (fun r _ => snd r <> None) (levels me depth found stopping deadline in_time) k.
Proof using.
  revert found stopping in_time k.
  induction depth as [|depth IH]; intros found stopping in_time k Hk; [done|].
  cbn [levels]. eapply wp_then.
  { apply (wait_in_time _ 0); [lia|by apply Nat.leb_le|]. unfold reached in *. lia. }
  intros [all|] [] k1 [Hw Hk1]; [|done].
  eapply wp_then.
  { apply keeps_time; [|exact Hk1]. apply along_bind; [apply along_look|apply along_read]. }
  intros listed [] k2 Hk2. eapply wp_then; [apply keeps_time; [apply along_stop|exact Hk2]|].
  intros [|p pids] [] k3 Hk3; [done|]. by apply IH.
Qed.

(** * What the walk promises *)

Lemma found_root k :
  wf (kn_tasks k) -> parent_of k root = Some me ->
  root <> me /\ exists t, kn_tasks k !! root = Some t.
Proof using.
  intros Hwf _. destruct (wf_apart _ Hwf) as (Hb & _ & t & Ht & Hp). split; [|by exists t].
  intros Heq. apply Hb, tc_once. exists t. split; congruence.
Qed.

Definition at_root (k : Kernel) : Prop := walked [root] [] k.

Lemma kill_descendants_holds k :
  wf (kn_tasks k) -> kn_sent k = [] ->
  holds (fun result k' => result = Some true -> killing [root] k') (kill_descendants me root) k.
Proof using.
  intros Hwf Hsent. set (P := fun k => wf (kn_tasks k) /\ kn_sent k = []).
  assert (HP : stable meanwhile P).
  { apply stable_steps. intros k1 k2 Hstep [? ?]. split; [by eapply wf_step|].
    by rewrite (sent_step k1 k2). }
  unfold kill_descendants. apply (wp_look _ _ _ P); [done|by split|]. intros k1 [Hwf1 Hs1].
  case_bool_decide as Hpar; [done|].
  destruct (found_root k1 Hwf1 Hpar) as [Hme _].
  apply (signal_holds _ _ P); [done|done|by split| |].
  { intros k2 [Hwf2 _]. split; [done|]. by destruct (wf_apart _ Hwf2) as (_ & _ & t & Ht & _); exists t. }
  intros k2 t [Hwf2 Hs2] Ht. cbn [negb].
  assert (Hw : at_root (signalled k2 root SIGSTOP t)).
  { split; cbn.
    - done.
    - unfold sent_below. cbn. rewrite Hs2. apply Forall_singleton. by left.
    - split_and!; [done|apply NoDup_singleton|done].
    - intros p Hp. by apply elem_of_nil in Hp. }
  apply (wp_look _ _ _ at_root); [apply walked_stable|done|]. intros k3 Hw3.
  eapply wp_then.
  { apply (levels_holds _ [root] [root] []); [exact Hw3|done|by left]. }
  intros [found result] [] k4 Hend. cbn [fst snd].
  destruct (decide (result = Some true)) as [->|Hne].
  - destruct (Hend eq_refl) as [Hw4 Hc4]. cbn [fst] in Hw4, Hc4.
    destruct found as [|r l]; [by destruct (wk_held _ _ _ Hw4) as [? _]|].
    assert (r = root) as -> by (destruct (wk_held _ _ _ Hw4) as [[= <-] _]; done).
    eapply wp_then; [apply kill_each_holds; split; [exact Hw4|by apply closed_settled]|].
    by intros [] [] k5 Hk5 _.
  - apply (wp_returns (fun r => r = result)); [|by intros r k' ->].
    apply returns_then. by intros [].
Qed.

Lemma kill_descendants_ends k :
  holds (fun result _ => result <> None) (kill_descendants me root) k.
Proof using.
  unfold kill_descendants.
  apply (wp_look _ _ _ (fun _ => True)); [done|done|]. intros k1 _. case_bool_decide; [done|].
  eapply wp_then; [apply (wp_along (fun _ _ => True) (fun _ => True)); [done|done| |done]|].
  { unfold signal. repeat case_bool_decide; done. }
  intros [] [] k2 _; [|done]. cbn [negb].
  apply (wp_look _ _ _ (fun _ => True)); [done|done|]. intros k3 _.
  eapply wp_then; [apply levels_in_time; unfold reached, STOP_BUDGET; lia|].
  intros [found result] [] k4 Hr. cbn [fst snd] in *.
  apply (wp_returns (fun r => r = result)); [|by intros r k' ->].
  apply returns_then. by intros [].
Qed.

(** C6: On a host whose processes all have names that are UTF-8 text, and keep having such names
    as they fork and change them, ending a sandbox ends all of it: whatever else the host's
    processes do between any two steps of the walk - fork, also beside themselves, exit, reap, be
    handed over, change their names within UTF-8 - a walk that comes to an end in time signals
    only the root and processes that are below it at that very moment, never one that took over
    the number of another, and leaves no process below the root that will run again. By the clock
    its waits end. (Without that assumption the walk leaves processes running, which
    [unreadable_names_are_left_running] shows: it cannot read what [/proc] says of them.) *)
Theorem nothing_runs_on_below (k k' : Kernel) log (result : option bool)
    (Hwf : wf (kn_tasks k)) (Hsent : kn_sent k = [])
    (Hc : course meanwhile (kill_descendants me root) k log result k') :
  result <> None /\
  (result = Some true ->
     Forall (fun '(pid, _, T) => pid = root \/ below T pid root) (kn_sent k') /\
     forall p, p <> root -> below (kn_tasks k') p root -> doomed (kn_tasks k') p).
Proof using.
  split.
  - apply (wp_sound _ _ _ _ _ _ _ _ _ _ (kill_descendants_ends k) Hc).
  - intros ->.
    destruct (wp_sound _ _ _ _ _ _ _ _ _ _ (kill_descendants_holds k Hwf Hsent) Hc) as [_ Hk].
    destruct (Hk eq_refl) as [[Hwf' Hsent' _ _] Hs]. split; [done|]. intros p Hp Hb.
    destruct (settled_below _ _ _ _ Hwf' Hs Hb) as [Hin|?]; [by left| |done].
    by apply list_elem_of_singleton in Hin.
Qed.
End host.

(** * A sandbox of three processes *)

Definition small_host : Kernel :=
  mkKernel {[1%Z := mkHostProcess (text "init") Live 0; 2%Z := mkHostProcess (text "codespace") Live 1;
             10%Z := mkHostProcess (text "bwrap") Live 2; 11%Z := mkHostProcess (text "sh (x) Z 10") Live 10;
             12%Z := mkHostProcess (text "sleep") Live 11]} ∅ 0 [].

(** Meanwhile one of those that were told to stop does, or the time passes. *)
Fixpoint obeying (pids : list Z) (k : Kernel) : Kernel :=
  match pids with
  | [] => mkKernel (kn_tasks k) (kn_stopping k) (kn_now k + 100) (kn_sent k)
  | p :: pids =>
      match kn_tasks k !! p with
      | Some t =>
          if bool_decide (tk_status t = Live) && bool_decide (p ∈ kn_stopping k)
             && bool_decide (p <> 1%Z) && bool_decide (p <> 2%Z)
          then with_tasks k (<[p := with_status t Stopped]> (kn_tasks k))
          else obeying pids k
      | None => obeying pids k
      end
  end.

Lemma obeying_meanwhile pids k : meanwhile 2 10 1 k (obeying pids k).
Proof.
  induction pids as [|p pids IH]; cbn; [apply rtc_once, env_tick; lia|].
  destruct (kn_tasks k !! p) as [t|] eqn:Ht; [|done]. destruct (_ && _) eqn:Hb; [|done].
  rewrite !andb_true_iff, !bool_decide_eq_true in Hb. destruct Hb as [[[? ?] ?] ?].
  by apply rtc_once, env_stop.
Qed.

Lemma small_lookup p t : kn_tasks small_host !! p = Some t ->
  (p, t) ∈ [(1%Z, mkHostProcess (text "init") Live 0); (2%Z, mkHostProcess (text "codespace") Live 1);
            (10%Z, mkHostProcess (text "bwrap") Live 2); (11%Z, mkHostProcess (text "sh (x) Z 10") Live 10);
            (12%Z, mkHostProcess (text "sleep") Live 11)].
Proof.
  cbn [small_host kn_tasks]. rewrite !lookup_insert_Some, lookup_singleton_Some.
  intros [[<- <-]|[_ [[<- <-]|[_ [[<- <-]|[_ [[<- <-]|[_ [<- <-]]]]]]]]]; set_solver.
Qed.

Lemma small_cases (P : Z -> HostProcess -> Prop) :
  P 1%Z (mkHostProcess (text "init") Live 0) -> P 2%Z (mkHostProcess (text "codespace") Live 1) ->
  P 10%Z (mkHostProcess (text "bwrap") Live 2) -> P 11%Z (mkHostProcess (text "sh (x) Z 10") Live 10) ->
  P 12%Z (mkHostProcess (text "sleep") Live 11) ->
  forall p t, kn_tasks small_host !! p = Some t -> P p t.
Proof.
  intros H1 H2 H3 H4 H5 p t Ht%small_lookup.
  repeat (apply elem_of_cons in Ht as [[= -> ->]|Ht]; [done|]). by apply elem_of_nil in Ht.
Qed.

Lemma small_host_wf : wf 2 10 1 (kn_tasks small_host).
Proof.
  split.
  - by apply small_cases.
  - by apply small_cases.
  - intros p q (t & Ht & <-). revert p t Ht. apply small_cases; [by left|..];
      right; eexists; (split; [vm_compute; reflexivity|done]).
  - eexists. split_and!; [vm_compute; reflexivity|done..].
  - eexists. split; [vm_compute; reflexivity|done].
  - split_and!; [|done|eexists; split; [vm_compute; reflexivity|done]].
    assert (H0 : forall q, ~ below (kn_tasks small_host) 0 q).
    { intros q Hb. inversion Hb as [x y (t & Ht & _)|x y z (t & Ht & _)]; subst; vm_compute in Ht; done. }
    assert (Hone : forall p q, child (kn_tasks small_host) p q -> p = 1%Z -> q = 0%Z).
    { intros p q (t & Ht & <-). revert p t Ht.
      by apply (small_cases (fun p t => p = 1%Z -> tk_parent t = 0%Z)). }
    assert (Htwo : forall p q, child (kn_tasks small_host) p q -> p = 2%Z -> q = 1%Z).
    { intros p q (t & Ht & <-). revert p t Ht.
      by apply (small_cases (fun p t => p = 2%Z -> tk_parent t = 1%Z)). }
    assert (H1 : forall q, below (kn_tasks small_host) 1 q -> q = 0%Z).
    { intros q Hb. inversion Hb as [x y Hc|x y z Hc Hb']; subst; [by apply (Hone 1%Z)|].
      pose proof (Hone _ _ Hc eq_refl) as ->. by destruct (H0 q). }
    intros Hb. inversion Hb as [x y Hc|x y z Hc Hb']; subst; [by specialize (Htwo _ _ Hc eq_refl)|].
    pose proof (Htwo _ _ Hc eq_refl) as ->. by specialize (H1 _ Hb').
  - intros p q u _ Hu Hk. exfalso. revert q u Hu Hk.
    by apply (small_cases (fun _ u => tk_status u = Killed -> False)).
Qed.

Definition unasked (n : nat) (q : Empty_set) : no_answer q := match q with end.

Definition small_run : option (list (exchange (Answer := no_answer)) * option bool * Kernel) :=
  run_call (obeying [10; 11; 12]%Z) unasked 0 (kill_descendants 2 10) small_host.

Lemma nothing_runs_on_below_witness :
  exists log k', small_run = Some (log, Some true, k') /\
    kn_sent k' <> [] /\
    (forall p, p <> 10%Z -> below (kn_tasks k') p 10 -> doomed (kn_tasks k') p) /\
    (tk_status <$> kn_tasks k' !! 12%Z) = Some Killed.
Proof.
  destruct small_run as [[[log result] k']|] eqn:Hrun; [|vm_compute in Hrun; discriminate Hrun].
  assert (Hresult : result = Some true /\ kn_sent k' <> [] /\
                    (tk_status <$> kn_tasks k' !! 12%Z) = Some Killed).
  { vm_compute in Hrun. injection Hrun as <- <- <-. vm_compute. repeat split; discriminate. }
  destruct Hresult as (-> & Hsent & Hk). exists log, k'. split_and!; [reflexivity|exact Hsent| |exact Hk].
  apply (nothing_runs_on_below 2 10 1 small_host k' log (Some true)).
  - exact small_host_wf.
  - reflexivity.
  - apply (run_call_course (meanwhile 2 10 1) (obeying [10; 11; 12]%Z) unasked
             0); [apply obeying_meanwhile|exact Hrun].
  - reflexivity.
Defined.

(** A process whose name is not UTF-8 is not seen, and left running with what it started. *)
Definition unseen_host : Kernel :=
  mkKernel (<[11%Z := mkHostProcess [ascii_of_N 195] Live 10]> (kn_tasks small_host)) ∅ 0 [].

Example unreadable_names_are_left_running :
  match run_call (obeying [10; 11; 12]%Z) unasked 0 (kill_descendants 2 10) unseen_host with
  | Some (_, result, k') =>
      result = Some true /\ tk_status <$> kn_tasks k' !! 11%Z = Some Live /\
      tk_parent <$> kn_tasks k' !! 11%Z = Some 10%Z
  | None => False
  end.
Proof. vm_compute. by split_and!. Qed.
