(* ===== verification/Writer.v ===== *)
(** The lock that makes a gateway the only writer of its operations database
    ([store/writer.rs], and [lock_operations_db] of [server/main.rs]): an exclusive [flock] of a
    file beside the database. What competes for it are processes of the host, each of which runs a
    program, forks children that copy its descriptors, and can be killed at any moment. *)
From S2P Require Import Prelude Policy Output Supervisor Files Procfs Contract Threads Courses Descendants.

(** * Paths *)

Definition with_file_name (path : Path) (name : string) : Path :=
  match file_name path with Some _ => removelast path | None => path end ++ [Normal name].

Definition path_for (database : Path) : Path :=
  with_file_name database (default "" (file_name database) +:+ ".gateway.lock").

(** * Files and locks of the host

    An open file is shared by the processes that have a descriptor of it: the one that opened it,
    and the children that were forked since and have not run their programs yet, which closes it.
    [lh_locked] is the open file that holds a file's exclusive lock. Times are in nanoseconds. *)
Record OpenFile := mkOpenFile { of_file : nat; of_procs : gset Z }.

Record LockHost := mkLockHost {
  lh_open : gmap nat OpenFile;
  lh_locked : gmap nat nat;
  lh_text : gmap nat (list ascii);
  lh_now : Z
}.
Implicit Types s : LockHost.

Definition with_open s open_files : LockHost :=
  mkLockHost open_files (lh_locked s) (lh_text s) (lh_now s).
Definition with_locked s locked : LockHost :=
  mkLockHost (lh_open s) locked (lh_text s) (lh_now s).
Definition with_texts s texts : LockHost :=
  mkLockHost (lh_open s) (lh_locked s) texts (lh_now s).

(** The file behind a process's descriptor of the open file [o]. *)
Definition descriptor s (me : Z) (o : nat) : option nat :=
  F ← lh_open s !! o; if bool_decide (me ∈ of_procs F) then Some (of_file F) else None.

Definition open_file (me : Z) (file : nat) s : nat * LockHost :=
  let o : nat := base.fresh (dom (lh_open s) : gset nat) in
  (o, with_open s (<[o := mkOpenFile file {[me]}]> (lh_open s))).

(** [flock(fd, LOCK_EX | LOCK_NB)], and [LOCK_UN]. *)
Definition flock (me : Z) (o : nat) s : bool * LockHost :=
  match descriptor s me o with
  | None => (false, s)
  | Some file =>
      match lh_locked s !! file with
      | None => (true, with_locked s (<[file := o]> (lh_locked s)))
      | Some o' => (bool_decide (o' = o), s)
      end
  end.

Definition unlock (me : Z) (o : nat) s : LockHost :=
  match descriptor s me o with
  | Some file =>
      if bool_decide (lh_locked s !! file = Some o) then with_locked s (delete file (lh_locked s))
      else s
  | None => s
  end.

(** Descriptors are closed: an open file that no process has left is gone, and so is its lock. *)
Definition closing (gone : Z -> nat -> bool) s : LockHost :=
  let open_files := map_imap (fun o F =>
    let left_ := filter (fun p => gone p o = false) (of_procs F) in
    if bool_decide (left_ = ∅) then None else Some (mkOpenFile (of_file F) left_)) (lh_open s) in
  with_locked (with_open s open_files)
    (filter (fun '(_, o) => is_Some (open_files !! o)) (lh_locked s)).

Definition close (me : Z) (o : nat) : LockHost -> LockHost :=
  closing (fun p o' => bool_decide (p = me) && bool_decide (o' = o)).

(** A process ends, however it ends, or runs another program. *)
Definition close_all (me : Z) : LockHost -> LockHost := closing (fun p _ => bool_decide (p = me)).

Definition forked (me child : Z) s : LockHost :=
  with_open s ((fun F => if bool_decide (me ∈ of_procs F)
                         then mkOpenFile (of_file F) ({[child]} ∪ of_procs F) else F) <$> lh_open s).

Definition text_of s (me : Z) (o : nat) : list ascii :=
  default [] (file ← descriptor s me o; lh_text s !! file).

Definition write_text (me : Z) (o : nat) (bytes : list ascii) s : LockHost :=
  match descriptor s me o with
  | Some file => with_texts s (<[file := bytes]> (lh_text s))
  | None => s
  end.

(** * [WriterLock] *)

(** What a process asks of the host that these files do not tell; an error is its text.
    [LqRecords] is what it does as the writer, beside the lock that it has, if any. *)
Inductive LockRequest :=
  | LqCreateDir (path : Path)
  | LqOpen (path : Path)
  | LqFlock
  | LqReadable
  | LqWaiting (holder : option Z)
  | LqSetLen
  | LqWrite
  | LqRecords (lock : option Path).

Definition LockAnswer (q : LockRequest) : Type :=
  match q with
  | LqCreateDir _ | LqOpen _ | LqFlock | LqSetLen => option string
  | LqReadable => bool
  | LqWrite => option (nat * string)   (* how much was written before the error *)
  | LqWaiting _ | LqRecords _ => unit
  end.

Abbreviation locking := (call LockHost LockRequest LockAnswer).
Abbreviation asked q := (ask (State := LockHost) (Answer := LockAnswer) q).
Abbreviation done_with a := (@Return LockHost LockRequest LockAnswer _ a).

Record WriterLock := mkWriterLock { wl_file : nat; wl_path : Path }.

Definition RETRY : Z := 100 * 10^6.

Section acquire.
(** The file that a path leads to; this process's ID. *)
Context (lead : Path -> nat) (me : Z).

(** [try_lock]. A call that a signal interrupted is repeated: a turn that was not taken. *)
Definition try_lock (o : nat) : locking (result string bool) :=
  failed ← asked LqFlock;
  match (failed : option string) with
  | Some e => done_with (Err e)
  | None => locked ← turn (flock me o); done_with (Ok locked)
  end.

(** [str::parse] of the trimmed text. *)
Definition named_holder (bytes : list ascii) : option Z :=
  chars ← read_to_string bytes; parse_u32 (trim (of_text chars)).

Definition holder (o : nat) : locking (option Z) :=
  readable ← asked LqReadable;
  if (readable : bool) then look (fun s => named_holder (text_of s me o)) else done_with None.

Definition sleep (ns : Z) : locking unit :=
  due ← look (fun s => lh_now s + ns)%Z;
  await (fun s => if bool_decide (due <= lh_now s)%Z then Some (tt, s) else None).

Definition other_writer (database : string) (path : Path) (holder : option Z) (wait : Z) : string :=
  "the operations database " +:+ database +:+ " has another writer: "
  +:+ match holder with Some pid => "process " +:+ pretty pid | None => "another process" end
  +:+ " holds " +:+ path_text path +:+ " and did not let go within " +:+ debug_duration wait
  +:+ ". One gateway records into a database at a time; end that gateway first".

(** The loop of [acquire], with a fuel that it never uses up. [told]: [waiting] was called. *)
Fixpoint attempts (fuel : nat) (o : nat) (database : string) (path : Path) (wait deadline : Z)
    (told : bool) : locking (option (result string unit)) :=
  match fuel with
  | 0 => done_with None
  | S fuel =>
      locked ← try_lock o;
      match (locked : result string bool) with
      | Err e => done_with (Some (Err ("cannot lock " +:+ path_text path +:+ ": " +:+ e)))
      | Ok true => done_with (Some (Ok tt))
      | Ok false =>
          pid ← holder o;
          _ ← (if told then done_with tt else asked (LqWaiting pid));
          now ← look lh_now;
          if bool_decide (deadline <= now)%Z
          then done_with (Some (Err (other_writer database path pid wait)))
          else
            _ ← sleep (Z.min RETRY (deadline - now));
            attempts fuel o database path wait deadline true
      end
  end.

(** As many attempts as fit into the wait, and two more. *)
Definition ATTEMPTS (wait : Z) : nat := Z.to_nat (wait / RETRY) + 2.

(** An early return, whose [file] is dropped. *)
Definition drop_and_fail (o : nat) (e : string) : locking (option (result string WriterLock)) :=
  _ ← update (close me o); done_with (Some (Err e)).

(** The end of [acquire]: who holds it, for a gateway that has to wait. *)
Definition sign (o : nat) (path : Path) : locking (option (result string WriterLock)) :=
  let failed e := drop_and_fail o ("cannot write " +:+ path_text path +:+ ": " +:+ e) in
  cut ← asked LqSetLen;
  match (cut : option string) with
  | Some e => failed e
  | None =>
      _ ← update (write_text me o []);
      wrote ← asked LqWrite;
      let line := text (pretty me +:+ String "010" "") in
      match (wrote : option (nat * string)) with
      | Some (n, e) => _ ← update (write_text me o (take n line)); failed e
      | None => _ ← update (write_text me o line); done_with (Some (Ok (mkWriterLock o path)))
      end
  end.

Definition acquire (database : string) (wait : Z) : locking (option (result string WriterLock)) :=
  let path := path_for (components database) in
  made ← match removelast path with
         | [] => done_with None
         | parent => asked (LqCreateDir parent)
         end;
  match (made : option string) with
  | Some e => done_with (Some (Err ("cannot create " +:+ path_text (removelast path) +:+ ": " +:+ e)))
  | None =>
      opened ← asked (LqOpen path);
      match (opened : option string) with
      | Some e => done_with (Some (Err ("cannot open the lock file " +:+ path_text path +:+ ": " +:+ e)))
      | None =>
          o ← turn (open_file me (lead path));
          deadline ← look (fun s => lh_now s + wait)%Z;
          taken ← attempts (ATTEMPTS wait) o database path wait deadline false;
          match (taken : option (result string unit)) with
          | None => done_with None
          | Some (Err e) => drop_and_fail o e
          | Some (Ok _) => sign o path
          end
      end
  end.

(** [Drop for WriterLock], then the file's own. *)
Definition drop_lock (lock : WriterLock) : locking unit :=
  _ ← update (unlock me (wl_file lock));
  update (close me (wl_file lock)).

(** * The programs that take it *)

Definition OPERATIONS_DB_LOCK_WAIT : Z := 15 * 10^9.

(** [lock_operations_db]. *)
Definition lock_operations_db (operations_db : option string) (lifecycle : GatewayLifecycle)
    : locking (option (result string (option WriterLock))) :=
  match lifecycle, operations_db with
  | IndependentRunnerOf _, Some database =>
      lock ← acquire database OPERATIONS_DB_LOCK_WAIT;
      done_with (match lock with
                 | Some (Ok lock) => Some (Ok (Some lock))
                 | Some (Err e) => Some (Err e)
                 | None => None
                 end)
  | _, _ => done_with (Some (Ok None))
  end.

(** A gateway's [main], from its settings on. *)
Definition gateway_main (operations_db : option string) (lifecycle : GatewayLifecycle)
    : locking unit :=
  lock ← lock_operations_db operations_db lifecycle;
  match (lock : option (result string (option WriterLock))) with
  | Some (Ok (Some lock)) => _ ← asked (LqRecords (Some (wl_path lock))); drop_lock lock
  | Some (Ok None) => _ ← asked (LqRecords None); done_with tt
  | _ => done_with tt
  end.

(** An operator's [records release]. *)
Definition release_main (database : string) : locking unit :=
  lock ← acquire database 0;
  match (lock : option (result string WriterLock)) with
  | Some (Ok lock) => _ ← asked (LqRecords (Some (wl_path lock))); drop_lock lock
  | _ => done_with tt
  end.

Inductive LockProgram :=
  | Gateway (operations_db : option string) (lifecycle : GatewayLifecycle)
  | Release (database : string).

Definition program (p : LockProgram) : locking unit :=
  match p with
  | Gateway operations_db lifecycle => gateway_main operations_db lifecycle
  | Release database => release_main database
  end.
End acquire.

(** * The host's processes, interleaved

    [ls_programs]: each process that runs one of these programs, with what is left of it. *)
Section system.
Context (lead : Path -> nat).

Record LockSystem := mkLockSystem {
  ls_host : LockHost;
  ls_programs : gmap Z (locking unit)
}.
Implicit Types S : LockSystem.

(** No process of this ID runs. *)
Definition unused S (p : Z) : Prop :=
  ls_programs S !! p = None /\ map_Forall (fun _ F => p ∉ of_procs F) (lh_open (ls_host S)).

Inductive lock_step : LockSystem -> LockSystem -> Prop :=
  | lock_started s P p which :
      unused (mkLockSystem s P) p ->
      lock_step (mkLockSystem s P) (mkLockSystem s (<[p := program lead p which]> P))
  | lock_turn s P p B (step : LockHost -> option (B * LockHost)) k b s' :
      P !! p = Some (Turn step k) -> step s = Some (b, s') ->
      lock_step (mkLockSystem s P) (mkLockSystem s' (<[p := k b]> P))
  | lock_answered s P p q k a :
      P !! p = Some (Ask q k) ->
      lock_step (mkLockSystem s P) (mkLockSystem s (<[p := k a]> P))
  | lock_forked s P p child :
      is_Some (P !! p) -> unused (mkLockSystem s P) child ->
      lock_step (mkLockSystem s P) (mkLockSystem (forked p child s) P)
  | lock_child_gone s P child :
      P !! child = None ->
      lock_step (mkLockSystem s P) (mkLockSystem (close_all child s) P)
  | lock_ended s P p :
      lock_step (mkLockSystem s P) (mkLockSystem (close_all p s) (delete p P))
  | lock_tick s P now :
      (lh_now s <= now)%Z ->
      lock_step (mkLockSystem s P)
        (mkLockSystem (mkLockHost (lh_open s) (lh_locked s) (lh_text s) now) P)
  | lock_scribbled s P texts :
      lock_step (mkLockSystem s P) (mkLockSystem (with_texts s texts) P).

Definition lock_start (texts : gmap nat (list ascii)) (now : Z) : LockSystem :=
  mkLockSystem (mkLockHost ∅ ∅ texts now) ∅.

Definition lock_reachable S : Prop := exists texts now, rtc lock_step (lock_start texts now) S.

(** The process [p] writes, having this lock. *)
Definition records S (p : Z) (lock : Path) : Prop :=
  exists k, ls_programs S !! p = Some (Ask (LqRecords (Some lock)) k).

(** ** Runs, to evaluate them. A move that is not possible leaves the system as it is. *)
Inductive lock_move :=
  | LmStart (p : Z) (which : LockProgram)
  | LmTurn (p : Z)
  | LmAnswer (p : Z) (a : forall q, LockAnswer q)
  | LmFork (p child : Z)
  | LmChildGone (child : Z)
  | LmEnd (p : Z)
  | LmTick (now : Z).

Definition lock_move_run S (m : lock_move) : LockSystem :=
  let s := ls_host S in
  let P := ls_programs S in
  match m with
  | LmStart p which =>
      if decide (unused S p) then mkLockSystem s (<[p := program lead p which]> P) else S
  | LmTurn p =>
      match P !! p with
      | Some (Turn step k) =>
          match step s with
          | Some (b, s') => mkLockSystem s' (<[p := k b]> P)
          | None => S
          end
      | _ => S
      end
  | LmAnswer p a =>
      match P !! p with Some (Ask q k) => mkLockSystem s (<[p := k (a q)]> P) | _ => S end
  | LmFork p child =>
      if decide (is_Some (P !! p) /\ unused S child) then mkLockSystem (forked p child s) P else S
  | LmChildGone child =>
      if decide (P !! child = None) then mkLockSystem (close_all child s) P else S
  | LmEnd p => mkLockSystem (close_all p s) (delete p P)
  | LmTick now =>
      if decide (lh_now s <= now)%Z
      then mkLockSystem (mkLockHost (lh_open s) (lh_locked s) (lh_text s) now) P else S
  end.

Definition lock_run (texts : gmap nat (list ascii)) (ms : list lock_move) : LockSystem :=
  foldl lock_move_run (lock_start texts 0) ms.

Lemma lock_run_reachable texts ms : lock_reachable (lock_run texts ms).
Proof.
  exists texts, 0%Z. unfold lock_run. generalize (lock_start texts 0).
  induction ms as [|m ms IH]; intros S; [done|]. cbn. etrans; [|apply IH]. clear IH.
  destruct S as [s P]. destruct m; cbn -[close_all forked]; repeat case_match; try done; apply rtc_once.
  - by apply lock_started.
  - by eapply lock_turn.
  - by eapply lock_answered.
  - by apply lock_forked; destruct_and?.
  - by apply lock_child_gone.
  - apply lock_ended.
  - by apply lock_tick.
Qed.
End system.

(** * What a process's descriptors keep *)

Definition has s (p : Z) (o file : nat) : Prop := descriptor s p o = Some file.
Definition holds s (p : Z) (o file : nat) : Prop := has s p o file /\ lh_locked s !! file = Some o.

(** Who has a lock has its file open, in some process. *)
Definition locks_open s : Prop := forall file o, lh_locked s !! file = Some o -> exists p, has s p o file.

(** Of what a process has, the others take nothing away. *)
Record spared (p : Z) s s' : Prop := {
  sp_has : forall o file, has s p o file -> has s' p o file;
  sp_holds : forall o file, holds s p o file -> lh_locked s' !! file = Some o;
  sp_now : (lh_now s <= lh_now s')%Z
}.

(** What a program's turn does: what it takes away is its own, and what it gets is not shared. *)
Record own_turn (p : Z) s s' : Prop := {
  ow_has : forall q o file, q <> p -> has s' q o file <-> has s q o file;
  ow_holds : forall q o file, q <> p -> holds s q o file -> (forall f, ~ has s p o f) ->
    lh_locked s' !! file = Some o;
  ow_new : forall o file, has s' p o file -> has s p o file \/ lh_open s !! o = None;
  ow_locked : locks_open s -> locks_open s';
  ow_now : lh_now s' = lh_now s
}.

Lemma has_open s p o file :
  has s p o file <-> exists F, lh_open s !! o = Some F /\ p ∈ of_procs F /\ of_file F = file.
Proof.
  unfold has, descriptor. destruct (lh_open s !! o) as [F|]; cbn; [|naive_solver].
  case_bool_decide; naive_solver.
Qed.

Lemma spared_refl p s : spared p s s.
Proof. split; [done| |lia]. by intros o file [_ ?]. Qed.

Lemma spared_trans p s1 s2 s3 : spared p s1 s2 -> spared p s2 s3 -> spared p s1 s3.
Proof.
  intros [Hh1 Hl1 Hn1] [Hh2 Hl2 Hn2]. split; [auto| |lia]. intros o file [Hh Hl].
  apply Hl2. split; [by apply Hh1|]. by apply Hl1.
Qed.

Lemma own_turn_refl p s : own_turn p s s.
Proof. split; [done|by intros q o file _ [_ ?]|by left|done|done]. Qed.

(** The other programs are spared by a turn. *)
Lemma own_turn_spares p q s s' :
  p <> q -> (forall o f g, has s p o f -> ~ has s q o g) -> own_turn p s s' -> spared q s s'.
Proof.
  intros Hne Hsole [Hh Hl _ _ Hn]. split; [|..|lia].
  - intros o file Ho. by apply Hh.
  - intros o file [Ho Hlo]. apply (Hl q o file); [done|by split|]. intros f Hp. by apply (Hsole o f file).
Qed.

(** ** The operations *)

Lemma closing_has gone s p o file :
  has (closing gone s) p o file <-> has s p o file /\ gone p o = false.
Proof.
  rewrite !has_open. cbn. rewrite map_lookup_imap. split.
  - intros (F & HF & Hp & Hf). destruct (lh_open s !! o) as [G|] eqn:HG; cbn in HF; [|done].
    case_bool_decide; [done|]. injection HF as <-. cbn in *. apply elem_of_filter in Hp as [? ?]. eauto.
  - intros [(F & HF & Hp & Hf) Hg]. rewrite HF. cbn.
    assert (Hin : p ∈ filter (fun p => gone p o = false) (of_procs F)) by by apply elem_of_filter.
    case_bool_decide as He; [by rewrite He in Hin|]. eauto.
Qed.

Lemma closing_locked gone s file o :
  lh_locked (closing gone s) !! file = Some o <->
  lh_locked s !! file = Some o /\ is_Some (lh_open (closing gone s) !! o).
Proof. unfold closing. cbn. by rewrite map_lookup_filter_Some. Qed.

Lemma closing_spares gone s p : (forall o, gone p o = false) -> spared p s (closing gone s).
Proof.
  intros Hg. split; [..|cbn; lia].
  - intros o file Ho. by apply closing_has.
  - intros o file [Ho Hl]. apply closing_locked. split; [done|].
    assert (has (closing gone s) p o file) as (F & HF & _)%has_open by by apply closing_has. by exists F.
Qed.

Lemma closing_locks_open gone s : locks_open s -> locks_open (closing gone s).
Proof.
  intros Hs file o [Hl [F HF]]%closing_locked. destruct (Hs file o Hl) as (p & Hp%has_open).
  destruct Hp as (G & HG & Hp & Hf). pose proof HF as HF'. cbn in HF'. rewrite map_lookup_imap, HG in HF'.
  cbn in HF'. case_bool_decide as He; [done|]. injection HF' as <-.
  apply set_choose_L in He as (q & Hq). exists q. apply has_open. eexists. split; [exact HF|]. by split.
Qed.

Lemma close_own p o s : own_turn p s (close p o s).
Proof.
  split; [| | |by apply closing_locks_open|done].
  - intros q o' file Hq. unfold close. rewrite closing_has. rewrite (bool_decide_eq_false_2 (q = p)) by done.
    naive_solver.
  - intros q o' file Hq Hh _. assert (spared q s (close p o s)) as [_ Hl _].
    { apply closing_spares. intros ?. by rewrite bool_decide_eq_false_2. }
    by apply Hl.
  - intros o' file. unfold close. rewrite closing_has. naive_solver.
Qed.

Lemma flock_own p o s : own_turn p s (flock p o s).2.
Proof.
  unfold flock. destruct (descriptor s p o) as [file|] eqn:Hd; [|apply own_turn_refl].
  destruct (lh_locked s !! file) as [o'|] eqn:Hl; [apply own_turn_refl|]. cbn.
  split; [done| |by left| |done].
  - intros q o' f _ [_ Hq] _. cbn. rewrite lookup_insert_ne by congruence. done.
  - intros Hs f o' Ho. cbn in Ho. apply lookup_insert_Some in Ho as [[<- <-]|[_ Ho]]; [by exists p|by apply Hs].
Qed.

Lemma unlock_own p o s : own_turn p s (unlock p o s).
Proof.
  unfold unlock. destruct (descriptor s p o) as [file|] eqn:Hd; [|apply own_turn_refl].
  case_bool_decide as Hl; [|apply own_turn_refl]. split; [done| |by left| |done].
  - intros q o' f _ [_ Hq] Hn. cbn. rewrite lookup_delete_ne; [done|]. intros ->.
    assert (o' = o) as -> by congruence. by apply (Hn f).
  - intros Hs f o' Ho. cbn in Ho. apply lookup_delete_Some in Ho as [_ Ho]. by apply Hs.
Qed.

Lemma open_own p file s : own_turn p s (open_file p file s).2.
Proof.
  unfold open_file. set (o := base.fresh _). assert (Hnone : lh_open s !! o = None).
  { apply not_elem_of_dom, is_fresh. }
  assert (Hq : forall q o' f, q <> p -> has (open_file p file s).2 q o' f <-> has s q o' f).
  { intros q o' f Hq. rewrite !has_open. unfold open_file. cbn. fold o. destruct (decide (o' = o)) as [->|Hne].
    - rewrite lookup_insert_eq, Hnone. split; [|naive_solver]. intros (F & [= <-] & Hin & _).
      cbn in Hin. by apply elem_of_singleton in Hin.
    - by rewrite lookup_insert_ne. }
  split; [done| | | |done].
  - by intros q o' f _ [_ ?] _.
  - intros o' f (F & HF & Hin & Hf)%has_open. cbn in HF. apply lookup_insert_Some in HF as [[<- <-]|[_ HF]].
    + by right.
    + left. apply has_open. eauto.
  - intros Hs f o' Ho. destruct (Hs f o' Ho) as (q & (F & HF & Hin & Hf)%has_open).
    exists q. apply has_open. exists F. cbn. rewrite lookup_insert_ne; [done|].
    intros Heq. rewrite <- Heq in HF. congruence.
Qed.

Lemma write_own p o bytes s : own_turn p s (write_text p o bytes s).
Proof. unfold write_text. destruct (descriptor s p o); [|apply own_turn_refl].
  split; [done|by intros q o' f _ [_ ?]|by left|done|done]. Qed.

(** * One process, among the others *)

Section one.
Context (lead : Path -> nat) (me : Z).

(** What its exchanges showed: [waiting] was called; the host failed a request. *)
Record Shown := mkShown { sh_told : bool; sh_failed : bool }.

Definition error {A} (a : option A) : bool := match a with Some _ => true | None => false end.

Definition fails (q : LockRequest) : LockAnswer q -> bool :=
  match q with
  | LqCreateDir _ | LqOpen _ | LqFlock | LqSetLen | LqWrite => error
  | LqReadable | LqWaiting _ | LqRecords _ => fun _ => false
  end.

Definition shown (m : Shown) (q : LockRequest) (a : LockAnswer q) : Shown :=
  mkShown (match q with LqWaiting _ => true | _ => sh_told m end) (sh_failed m || fails q a).

Lemma shown_same m q a :
  match q with LqWaiting _ => False | _ => True end -> fails q a = false -> shown m q a = m.
Proof. intros Hq Hf. unfold shown. rewrite Hf, orb_false_r. by destruct q, m. Qed.

(** It says at most once that it waits, and writes only while it has its lock. *)
Definition rightly (m : Shown) s (q : LockRequest) : Prop :=
  match q with
  | LqWaiting _ => sh_told m = false
  | LqRecords (Some lock) => exists o, holds s me o (lead lock)
  | _ => True
  end.

Abbreviation wpl Q c m s := (wp (spared me) rightly shown Q c m s).

Definition had (o file : nat) (t : Z) s : Prop := has s me o file /\ (t <= lh_now s)%Z.
Definition held (o file : nat) (t : Z) s : Prop := holds s me o file /\ (t <= lh_now s)%Z.
Definition at_time (t : Z) s : Prop := (t <= lh_now s)%Z.

Lemma had_stable o file t : stable (spared me) (had o file t).
Proof. intros s s1 [Hh _ Hn] [? ?]. split; [by apply Hh|lia]. Qed.
Lemma held_stable o file t : stable (spared me) (held o file t).
Proof. intros s s1 [Hh Hl Hn] [[? ?] ?]. split; [split; [by apply Hh|by apply Hl]|lia]. Qed.
Lemma at_time_stable t : stable (spared me) (at_time t).
Proof. intros s s1 [_ _ Hn]. unfold at_time. lia. Qed.

Lemma wp_answer {B} (q : LockRequest) (P : LockHost -> Prop) (Q : B -> Shown -> LockHost -> Prop)
    (k : LockAnswer q -> locking B) m s :
  stable (spared me) P -> P s -> (forall s1, P s1 -> rightly m s1 q) ->
  (forall s1 a, P s1 -> wpl Q (k a) (shown m q a) s1) -> wpl Q (asked q ≫= k) m s.
Proof. apply wp_ask. Qed.

(** [flock] in a process that has the file open. *)
Lemma flock_spec o file t s :
  had o file t s ->
  if (flock me o s).1 then held o file t (flock me o s).2 else (flock me o s).2 = s.
Proof.
  intros [Hh Ht]. unfold flock. rewrite Hh. destruct (lh_locked s !! file) as [o'|] eqn:Hl; cbn.
  - case_bool_decide as Ho; [|done]. subst o'. by repeat split.
  - repeat split; [done| |done]. cbn. by rewrite lookup_insert_eq.
Qed.

Lemma wp_try_lock {B} (Q : B -> Shown -> LockHost -> Prop) o file t m s
    (k : result string bool -> locking B) :
  had o file t s ->
  (forall e m s, sh_failed m = true -> had o file t s -> wpl Q (k (Err e)) m s) ->
  (forall s, held o file t s -> wpl Q (k (Ok true)) m s) ->
  (forall s, had o file t s -> wpl Q (k (Ok false)) m s) ->
  wpl Q (try_lock me o ≫= k) m s.
Proof.
  intros Hs Herr Htrue Hfalse. unfold try_lock. apply wp_assoc.
  apply (wp_answer LqFlock (had o file t)); [apply had_stable|done|done|]. intros s1 [e|] Hs1; cbn.
  - apply Herr; [apply orb_true_r|done].
  - intros s2 b s3 Hm [= Hf]. apply (had_stable o file t _ _ Hm) in Hs1.
    pose proof (flock_spec o file t s2 Hs1) as H. rewrite Hf in H. cbn in H.
    rewrite shown_same by done.
    destruct b; [by apply Htrue|]. subst s3. by apply Hfalse.
Qed.

(** The host was not at fault and it waited as long as it was asked to. *)
Definition refused (database : string) (path : Path) (wait deadline : Z) (e : string) (m : Shown) s : Prop :=
  sh_failed m = true \/
  exists pid, e = other_writer database path pid wait /\ (deadline <= lh_now s)%Z.

Lemma attempts_wp fuel o database path wait deadline told t m s :
  had o (lead path) t s -> sh_told m = told -> 0 < fuel ->
  (deadline <= t + Z.of_nat (fuel - 1) * RETRY)%Z ->
  wpl (fun r m s =>
    had o (lead path) t s /\
    match r with
    | None => False
    | Some (Ok _) => holds s me o (lead path)
    | Some (Err e) => refused database path wait deadline e m s
    end) (attempts me fuel o database path wait deadline told) m s.
Proof.
  remember (had o (lead path) t) as P0 eqn:HP0. intros Hs. revert Hs.
  assert (Hgen : forall t', (t <= t')%Z -> had o (lead path) t' s -> sh_told m = told -> 0 < fuel ->
    (deadline <= t' + Z.of_nat (fuel - 1) * RETRY)%Z ->
    wpl (fun r m s => P0 s /\ match r with None => False | Some (Ok _) => holds s me o (lead path)
      | Some (Err e) => refused database path wait deadline e m s end)
      (attempts me fuel o database path wait deadline told) m s);
    [|intros Hs Ht Hf Hd; subst P0; by apply (Hgen t)].
  revert told m s. induction fuel as [|fuel IH]; intros told m s t' Hle Hs Ht Hf Hd; [lia|].
  assert (Hweak : forall s, had o (lead path) t' s -> P0 s) by (subst P0; intros ? [? ?]; split; [done|lia]).
  cbn [attempts]. apply (wp_try_lock _ o (lead path) t'); [done|..].
  { intros e m1 s1 Hm1 Hs1. split; [by apply Hweak|by left]. }
  { intros s1 [Hh Hn]. split; [apply Hweak; split; [by apply Hh|done]|done]. }
  clear s Hs. intros s Hs. unfold holder. apply wp_assoc.
  apply (wp_answer LqReadable (had o (lead path) t')); [apply had_stable|done|done|].
  intros s1 readable Hs1.
  assert (Hrest : forall pid m s, had o (lead path) t' s -> sh_told m = told -> wpl (fun r m s => P0 s /\
      match r with None => False | Some (Ok _) => holds s me o (lead path)
      | Some (Err e) => refused database path wait deadline e m s end)
      (_ ← (if told then done_with tt else asked (LqWaiting pid));
       now ← look lh_now;
       if bool_decide (deadline <= now)%Z
       then done_with (Some (Err (other_writer database path pid wait)))
       else _ ← sleep (Z.min RETRY (deadline - now));
            attempts me fuel o database path wait deadline true) m s).
  { clear m s s1 Hs Hs1 Ht readable. intros pid m s Hs Ht.
    apply (wp_then _ _ _ (fun _ m s => had o (lead path) t' s /\ sh_told m = true)).
    { destruct told; [by split|]. intros s1 Hm. split; [done|]. intros [].
      split; [by eapply had_stable|done]. }
    clear m s Hs Ht. intros [] m s [Hs Ht].
    apply (wp_look _ _ _ (had o (lead path) t')); [apply had_stable|done|]. intros s1 Hs1.
    case_bool_decide as Hdl.
    { split; [by apply Hweak|]. right. by exists pid. }
    set (now := lh_now s1) in *. assert (Hnow : had o (lead path) now s1) by (split; [apply Hs1|done]).
    assert (t' <= now)%Z by apply Hs1.
    unfold sleep. apply wp_assoc.
    apply (wp_look _ _ _ (had o (lead path) now)); [apply had_stable|done|]. intros s2 Hs2.
    assert (now <= lh_now s2)%Z by apply Hs2.
    apply (wp_await _ _ _ (had o (lead path) now)); [apply had_stable|done|]. intros s3 [] s4 Hs3 Hdue.
    case_bool_decide as Hd3; [|done]. injection Hdue as <-.
    set (step := Z.min RETRY (deadline - now)) in *.
    assert (fuel <> 0) by (intros ->; cbn in Hd; lia).
    apply (IH true m s3 (now + step)%Z); [unfold step, RETRY in *; lia|split; [apply Hs3|lia]|done|lia|].
    unfold step, RETRY in *. nia. }
  destruct readable; cbn [fmap]; [|by apply Hrest].
  apply (wp_look _ _ _ (had o (lead path) t')); [apply had_stable|done|]. intros s2 Hs2. by apply Hrest.
Qed.

Definition acquired (database : string) (r : option (result string WriterLock)) (wait : Z) (t : Z)
    (m : Shown) s : Prop :=
  let path := path_for (components database) in
  match r with
  | None => False
  | Some (Ok lock) => wl_path lock = path /\ holds s me (wl_file lock) (lead path)
  | Some (Err e) => refused database path wait (t + wait) e m s
  end.

Lemma drop_and_fail_wp o e database path wait deadline m s :
  (refused database path wait deadline e m s) ->
  wpl (fun r m s => exists e, r = Some (Err e) /\ refused database path wait deadline e m s)
    (drop_and_fail me o e) m s.
Proof.
  intros Hr. unfold drop_and_fail. unfold update.
  apply (wp_turn _ _ _ (fun s => refused database path wait deadline e m s)).
  - intros s1 s2 [_ _ Hn] [?|(pid & ? & ?)]; [by left|]. right. exists pid. split; [done|lia].
  - done.
  - intros s1 Hs1. exists e. by split.
Qed.

Lemma sign_wp o database wait t m s :
  held o (lead (path_for (components database))) t s ->
  wpl (fun r m s => acquired database r wait t m s) (sign me o (path_for (components database))) m s.
Proof.
  intros Hs. set (path := path_for _) in *. unfold sign.
  assert (Hfail : forall e m s, sh_failed m = true ->
    wpl (fun r m s => acquired database r wait t m s) (drop_and_fail me o e) m s).
  { intros e m1 s1 Hm1. eapply wp_mono, (drop_and_fail_wp o e database path wait (t + wait)); [|by left].
    intros r m2 s2 (e2 & -> & H). exact H. }
  assert (Hwrite : forall bytes s, held o (lead path) t s -> held o (lead path) t (write_text me o bytes s)).
  { intros bytes s1 [[Hh Hl] Hn]. unfold write_text. by rewrite Hh. }
  apply (wp_answer LqSetLen (held o (lead path) t)); [apply held_stable|done|done|]. intros s1 [e|] Hs1.
  { apply Hfail. apply orb_true_r. }
  apply (wp_turn _ _ _ (held o (lead path) t)); [apply held_stable|done|]. intros s2 Hs2. cbn.
  apply (wp_answer LqWrite (held o (lead path) t)); [apply held_stable|by apply Hwrite|done|]. intros s3 wrote Hs3.
  destruct wrote as [[n e]|]; (apply (wp_turn _ _ _ (held o (lead path) t));
    [apply held_stable|done|]); intros s4 Hs4.
  - apply Hfail. apply orb_true_r.
  - split; [done|]. eapply proj1, Hwrite, Hs4.
Qed.

(** [acquire]: it comes to an end; who is given the lock holds it; and who is not, while the host
    did not fail it, waited as long as was asked and names the writer that it last found. *)
Lemma acquire_wp database wait t m s :
  at_time t s -> sh_told m = false ->
  wpl (fun r m s => acquired database r wait t m s) (acquire lead me database wait) m s.
Proof.
  intros Hs Hm. unfold acquire. set (path := path_for _).
  apply (wp_then _ _ _ (fun made m s => at_time t s /\ sh_told m = false /\
    (is_Some made -> sh_failed m = true))).
  { destruct (removelast path) as [|c parent].
    - split_and!; [done..|]. by intros [].
    - intros s1 Hsp. split; [done|]. intros made. split_and!; [by eapply at_time_stable|done|].
      intros [e ->]. apply orb_true_r. }
  clear m s Hs Hm. intros made m s (Hs & Hm & Hmade). destruct made as [e|].
  { left. apply Hmade. by exists e. }
  apply (wp_answer (LqOpen path) (at_time t)); [apply at_time_stable|done|done|]. intros s1 [e|] Hs1.
  { left. apply orb_true_r. }
  apply (wp_turn _ _ _ (at_time t)); [apply at_time_stable|done|]. intros s2 Hs2.
  set (o := (open_file me (lead path) s2).1).
  assert (Ho : had o (lead path) t (open_file me (lead path) s2).2).
  { split; [|done]. apply has_open. cbn. rewrite lookup_insert_eq. eexists. split; [done|].
    cbn [of_procs of_file]. split; [set_solver|done]. }
  cbn [fst snd] in *. clearbody o. revert Ho. generalize (open_file me (lead path) s2).2.
  clear s1 s2 Hs1 Hs2. intros s1 Hs1.
  apply (wp_look _ _ _ (had o (lead path) t)); [apply had_stable|done|]. intros s2 Hs2.
  eapply wp_then.
  { apply (attempts_wp (ATTEMPTS wait) o database path wait (lh_now s2 + wait) false (lh_now s2)).
    - split; [apply Hs2|done].
    - done.
    - unfold ATTEMPTS. lia.
    - unfold ATTEMPTS, RETRY. pose proof (Z.div_mod wait (100 * 10^6) ltac:(lia)) as Hdiv.
      pose proof (Z.mod_pos_bound wait (100 * 10^6) ltac:(lia)) as Hmod.
      destruct (decide (0 <= wait / (100 * 10^6))%Z); lia. }
  cbn. intros r m1 s3 (Hh & Hr). assert (t <= lh_now s2)%Z by apply Hs2.
  assert (t <= lh_now s3)%Z by (destruct Hh; lia). destruct r as [[[]|e]|]; [| |done].
  - apply sign_wp. split; [done|lia].
  - eapply wp_mono, (drop_and_fail_wp o e database path wait (t + wait)).
    + intros r m2 s4 (e2 & -> & H2). exact H2.
    + destruct Hr as [?|(pid & ? & ?)]; [by left|right]. exists pid. split; [done|lia].
Qed.

Lemma drop_lock_wp lock m s : wpl (fun _ _ _ => True) (drop_lock me lock) m s.
Proof. unfold drop_lock, update. intros s1 [] s2 _ _ s3 [] s4 _ _. done. Qed.

Lemma records_wp lock m s :
  holds s me (wl_file lock) (lead (wl_path lock)) ->
  wpl (fun _ _ _ => True) (_ ← asked (LqRecords (Some (wl_path lock))); drop_lock me lock) m s.
Proof.
  intros Hs. apply (wp_answer (LqRecords (Some (wl_path lock))) (held (wl_file lock) (lead (wl_path lock)) (lh_now s)));
    [apply held_stable|done|..].
  - intros s1 [? _]. by exists (wl_file lock).
  - intros s1 [] _. apply drop_lock_wp.
Qed.

Lemma program_wp which m s :
  sh_told m = false -> wpl (fun _ _ _ => True) (program lead me which) m s.
Proof.
  intros Hm. destruct which as [db lifecycle|db]; cbn.
  - unfold gateway_main, lock_operations_db.
    destruct lifecycle as [|intent], db as [db|];
      try by apply (wp_answer (LqRecords None) (fun _ => True)); [intros ???|..].
    apply wp_assoc. eapply wp_then; [apply (acquire_wp _ _ (lh_now s)); [apply Z.le_refl|done]|].
    intros [[lock|e]|] m1 s1 Hr; [|done..]. destruct Hr as [Hp Hr].
    refine (records_wp lock m1 s1 _). by rewrite Hp.
  - unfold release_main. eapply wp_then; [apply (acquire_wp _ _ (lh_now s)); [apply Z.le_refl|done]|].
    intros [[lock|e]|] m1 s1 Hr; [|done..]. destruct Hr as [Hp Hr].
    refine (records_wp lock m1 s1 _). by rewrite Hp.
Qed.

(** ** Its turns are its own *)

Abbreviation alone c :=
  (along (Request := LockRequest) (Answer := LockAnswer) (own_turn me) (fun _ => True) c).

Lemma alone_look {A} (f : LockHost -> A) : alone (look f).
Proof. split; [|done]. intros s b s' [= _ <-]. apply own_turn_refl. Qed.

Lemma alone_ask q : alone (asked q).
Proof. by split. Qed.

Lemma alone_update f : (forall s, own_turn me s (f s)) -> alone (update f).
Proof. intros Hf. split; [|done]. by intros s b s' [= _ <-]. Qed.

Lemma alone_sleep ns : alone (sleep ns).
Proof.
  unfold sleep.
  apply along_bind; [apply alone_look|]. intros due. split; [|done]. intros s b s'. case_bool_decide; [|done].
  intros [= _ <-]. apply own_turn_refl.
Qed.

Lemma alone_try_lock o : alone (try_lock me o).
Proof.
  split; [done|]. intros [e|]; [done|]. split; [|done]. intros s b s' [= H].
  pose proof (flock_own me o s) as Ho. by rewrite H in Ho.
Qed.

Lemma alone_holder o : alone (holder me o).
Proof. split; [done|]. intros []; [apply alone_look|done]. Qed.

Lemma alone_attempts fuel o database path wait deadline told :
  alone (attempts me fuel o database path wait deadline told).
Proof.
  revert told. induction fuel as [|fuel IH]; intros told; [done|]. cbn [attempts].
  apply along_bind; [apply alone_try_lock|]. intros [[]|e]; [done| |done].
  apply along_bind; [apply alone_holder|]. intros pid.
  apply along_bind; [destruct told; [done|apply alone_ask]|]. intros [].
  apply along_bind; [apply alone_look|]. intros now. case_bool_decide; [done|].
  apply along_bind; [apply alone_sleep|]. intros []. apply IH.
Qed.

Lemma alone_drop_and_fail o e : alone (drop_and_fail me o e).
Proof. unfold drop_and_fail. apply along_bind; [apply alone_update; intros; apply close_own|done]. Qed.

Lemma alone_write o bytes : alone (update (write_text me o bytes)).
Proof. apply alone_update. intros. apply write_own. Qed.

Lemma alone_sign o path : alone (sign me o path).
Proof.
  unfold sign.
  apply along_bind; [apply alone_ask|]. intros [e|]; [apply alone_drop_and_fail|].
  apply along_bind; [apply alone_write|]. intros [].
  apply along_bind; [apply alone_ask|]. intros [[n e]|];
    (apply along_bind; [apply alone_write|]); intros []; [apply alone_drop_and_fail|done].
Qed.

Lemma alone_acquire database wait : alone (acquire lead me database wait).
Proof.
  unfold acquire.
  apply along_bind; [destruct (removelast _); [done|apply alone_ask]|]. intros [e|]; [done|].
  apply along_bind; [apply alone_ask|]. intros [e|]; [done|].
  apply along_bind.
  { split; [|done]. intros s b s' [= _ <-]. apply (open_own me (lead (path_for (components database)))). }
  intros o. apply along_bind; [apply alone_look|]. intros deadline.
  apply along_bind; [apply alone_attempts|]. intros [[[]|e]|]; [apply alone_sign|apply alone_drop_and_fail|done].
Qed.

Lemma alone_drop lock : alone (drop_lock me lock).
Proof.
  unfold drop_lock.
  apply along_bind; [apply alone_update; intros; apply unlock_own|]. intros [].
  apply alone_update. intros. apply close_own.
Qed.

Lemma alone_records lock : alone (_ ← asked (LqRecords (Some (wl_path lock))); drop_lock me lock).
Proof. apply along_bind; [apply alone_ask|]. intros []. apply alone_drop. Qed.

Lemma program_alone which : alone (program lead me which).
Proof.
  destruct which as [db lifecycle|db]; cbn.
  - apply along_bind.
    + destruct lifecycle, db; cbn; [done..| |done].
      apply along_bind; [apply alone_acquire|done].
    + intros [[[lock|]|e]|]; [apply alone_records| |done..]. by apply along_bind.
  - apply along_bind; [apply alone_acquire|]. intros [[lock|e]|]; [apply alone_records|done..].
Qed.
End one.

(** * Writers exclude each other *)

Section writers.
Context (lead : Path -> nat).
Implicit Types S : LockSystem.

Abbreviation nothing_left := (fun (_ : unit) (_ : Shown) (_ : LockHost) => True).

(** What a program may still do, whatever happens to it. *)
Definition well_run s (p : Z) (c : locking unit) : Prop :=
  (exists m, wp (spared p) (rightly lead p) shown nothing_left c m s) /\
  along (own_turn p) (fun _ => True) c.

Record lock_ok S : Prop := {
  lk_run : map_Forall (well_run (ls_host S)) (ls_programs S);
  (** Two programs share no open file. *)
  lk_sole : forall p q o f g, is_Some (ls_programs S !! p) -> is_Some (ls_programs S !! q) ->
    has (ls_host S) p o f -> has (ls_host S) q o g -> p = q;
  lk_open : locks_open (ls_host S)
}.

Lemma wp_spared p (c : locking unit) m s s' :
  spared p s s' -> wp (spared p) (rightly lead p) shown nothing_left c m s ->
  wp (spared p) (rightly lead p) shown nothing_left c m s'.
Proof.
  intros Hsp. destruct c as [a|B step k|q k]; cbn; [done|..].
  - intros H s1 b s2 Hm. apply H. by eapply spared_trans.
  - intros H s1 Hm. apply H. by eapply spared_trans.
Qed.

Lemma well_run_spared p c s s' : spared p s s' -> well_run s p c -> well_run s' p c.
Proof. intros Hsp [[m Hm] Ha]. split; [|done]. exists m. by eapply wp_spared. Qed.

Lemma unused_has S p o f : unused S p -> ~ has (ls_host S) p o f.
Proof. intros [_ Hu] (F & HF & Hp & _)%has_open. by apply (Hu o F). Qed.

Lemma forked_has s p child q o f :
  q <> child -> has (forked p child s) q o f <-> has s q o f.
Proof.
  intros Hne. rewrite !has_open. cbn. setoid_rewrite lookup_fmap. destruct (lh_open s !! o) as [F|]; cbn.
  - split; intros (G & [= <-] & Hin & Hf); (eexists; split; [done|]).
    + case_bool_decide; cbn in *; [|done]. split; [set_solver|done].
    + case_bool_decide; cbn; [|done]. split; [set_solver|done].
  - naive_solver.
Qed.

Lemma forked_spares s p child q : q <> child -> spared q s (forked p child s).
Proof. intros Hne. split; [intros o f; by apply forked_has|by intros o f [_ ?]|cbn; lia]. Qed.

Lemma forked_locks_open s p child : ~ (exists o f, has s child o f) -> locks_open s -> locks_open (forked p child s).
Proof.
  intros Hn Hs f o Hl. destruct (Hs f o Hl) as (q & Hq). exists q. apply forked_has; [|done].
  intros ->. apply Hn. eauto.
Qed.

(** A step that leaves the programs as they are, and spares them all. *)
Lemma spared_ok s s' P :
  (forall q, is_Some (P !! q) -> spared q s s') ->
  (forall q o f, is_Some (P !! q) -> has s' q o f -> has s q o f) -> locks_open s' ->
  lock_ok (mkLockSystem s P) -> lock_ok (mkLockSystem s' P).
Proof.
  intros Hsp Hnew Ho [Hrun Hsole _]. split; cbn in *; [..|done].
  - intros q c Hq. eapply well_run_spared; [|by apply Hrun]. apply Hsp. by exists c.
  - intros p q o f g Hp Hq Hpo Hqo. eapply Hsole; eauto.
Qed.

(** A program's own step. *)
Lemma turn_ok s s' P p c c' :
  P !! p = Some c -> own_turn p s s' -> (well_run s p c -> well_run s' p c') ->
  lock_ok (mkLockSystem s P) -> lock_ok (mkLockSystem s' (<[p := c']> P)).
Proof.
  intros Hp Hown Hc [Hrun Hsole Ho]. cbn in *.
  assert (Hpres : forall q, is_Some (<[p := c']> P !! q) -> is_Some (P !! q)).
  { intros q [c0 Hq]. destruct (decide (q = p)) as [->|?]; [by exists c|].
    rewrite lookup_insert_ne in Hq by done. by exists c0. }
  assert (Hps : is_Some (P !! p)) by by exists c.
  split; cbn.
  - intros q cq Hq. destruct (decide (q = p)) as [->|Hne].
    + rewrite lookup_insert_eq in Hq. injection Hq as <-. by apply Hc, Hrun.
    + rewrite lookup_insert_ne in Hq by done. eapply well_run_spared; [|by apply Hrun].
      apply (own_turn_spares p q); [done| |done]. intros o f g Hf Hg. apply Hne. symmetry.
      eapply Hsole; eauto.
  - assert (Hback : forall q o f, is_Some (P !! q) -> has s' q o f ->
      has s q o f \/ (q = p /\ lh_open s !! o = None)).
    { intros q o f Hq Hh. destruct (decide (q = p)) as [->|Hne].
      - destruct (ow_new _ _ _ Hown o f Hh); auto.
      - left. by apply (ow_has _ _ _ Hown). }
    intros a b o f g Ha%Hpres Hb%Hpres Hao Hbo.
    destruct (Hback a o f Ha Hao) as [H1|[-> H1]], (Hback b o g Hb Hbo) as [H2|[-> H2]]; try done.
    + by apply (Hsole a b o f g).
    + apply has_open in H1 as (F & HF & _). congruence.
    + apply has_open in H2 as (F & HF & _). congruence.
  - by apply (ow_locked _ _ _ Hown).
Qed.

Lemma lock_step_ok S S' : lock_step lead S S' -> lock_ok S -> lock_ok S'.
Proof.
  intros Hstep HS. destruct Hstep as [s P p which Hu|s P p B step k b s' Hp Hs|s P p q k a Hp
    |s P p child Hp Hu|s P child Hc|s P p|s P now Hn|s P texts].
  - destruct HS as [Hrun Hsole Ho]. cbn in *.
    assert (Hno : forall o f, ~ has s p o f) by (intros o f; by apply (unused_has (mkLockSystem s P))).
    split; cbn; [|..|done].
    + apply map_Forall_insert_2; [|done]. split; [|apply program_alone].
      exists (mkShown false false). by apply program_wp.
    + intros a b o f g Ha Hb Hao Hbo.
      destruct (decide (a = p)) as [->|Hap]; [by destruct (Hno o f)|].
      destruct (decide (b = p)) as [->|Hbp]; [by destruct (Hno o g)|].
      rewrite lookup_insert_ne in Ha, Hb by done. by apply (Hsole a b o f g).
  - assert (Hown : own_turn p s s').
    { destruct (lk_run _ HS p _ Hp) as [_ [Ha _]]. by apply (Ha s b s'). }
    apply (turn_ok s s' P p _ _ Hp Hown); [|done]. intros [[m Hm] [_ Ha]].
    split; [|apply Ha]. exists m. apply (Hm s b s'); [apply spared_refl|done].
  - apply (turn_ok s s P p _ _ Hp (own_turn_refl p s)); [|done]. intros [[m Hm] [_ Ha]].
    split; [|apply Ha]. exists (shown m q a). destruct (Hm s (spared_refl p s)) as [_ Hk]. apply Hk.
  - assert (Hne : forall q, is_Some (P !! q) -> q <> child).
    { intros q [c Hq] ->. destruct Hu as [Hu _]. cbn in Hu. congruence. }
    apply (spared_ok s); [intros q Hq; apply forked_spares; auto| | |done].
    + intros q o f Hq. apply forked_has. auto.
    + apply forked_locks_open; [|apply HS]. intros (o & f & Ho). by apply (unused_has _ _ o f Hu).
  - assert (Hne : forall q, is_Some (P !! q) -> q <> child) by (intros q [c Hq] ->; congruence).
    apply (spared_ok s); [| |by apply closing_locks_open, HS|done].
    + intros q Hq. apply closing_spares. intros _. apply bool_decide_eq_false_2. auto.
    + intros q o f _ Hh. by apply closing_has in Hh as [? _].
  - apply (spared_ok s); [| |by apply closing_locks_open, HS|].
    + intros q [c Hq]. apply closing_spares. intros _. apply bool_decide_eq_false_2. intros ->.
      by rewrite lookup_delete_eq in Hq.
    + intros q o f _ Hh. by apply closing_has in Hh as [? _].
    + destruct HS as [Hrun Hsole Ho]. cbn in *. split; cbn; [|..|done].
      * by apply map_Forall_delete.
      * intros a b o f g [ca Ha] [cb Hb]. apply lookup_delete_Some in Ha as [_ Ha], Hb as [_ Hb]. eauto.
  - apply (spared_ok s); [| |apply HS|done]; [|done].
    intros q _. by split; [|intros o f [_ ?]|].
  - apply (spared_ok s); [| |apply HS|done]; [|done].
    intros q _. split; [done|by intros o f [_ ?]|cbn; lia].
Qed.

Lemma lock_reachable_ok S : lock_reachable lead S -> lock_ok S.
Proof.
  intros (texts & now & H). assert (Hstart : lock_ok (lock_start texts now)).
  { split; cbn; [apply map_Forall_empty|by intros p q o f g [c ?]|by intros f o]. }
  induction H as [|S0 S1 S2 Hstep _ IH]; [done|]. by eapply IH, lock_step_ok.
Qed.

Lemma records_holds S p lock :
  lock_ok S -> records S p lock -> exists o, holds (ls_host S) p o (lead lock).
Proof.
  intros HS (k & Hk). destruct (lk_run _ HS p _ Hk) as [[m Hm] _].
  by destruct (Hm _ (spared_refl p _)) as [Ha _].
Qed.

(** C14: An operations database has one writer at a time. Of the gateways with an independent Runner
    and the operator's releases that run on a host, however their attempts, waits and failures
    interleave, whichever of them are killed and whatever children they fork meanwhile, no two
    write at once whose databases have the same lock file. *)
Theorem writers_exclude_each_other S p q (lock lock' : Path) :
  lock_reachable lead S -> records S p lock -> records S q lock' -> lead lock = lead lock' -> p = q.
Proof.
  intros HS%lock_reachable_ok Hp Hq Heq.
  destruct (records_holds S p lock HS Hp) as (o & Ho & Hl), Hp as [kp Hp].
  destruct (records_holds S q lock' HS Hq) as (o' & Ho' & Hl'), Hq as [kq Hq].
  rewrite Heq in Hl. assert (o' = o) as -> by congruence. by eapply (lk_sole _ HS p q o); eauto.
Qed.

(** A writer that ended, however it ended, holds no later one up: a lock that is still taken is in
    the hands of a running process, and one that was let go is free though a child that was forked
    meanwhile has a copy of the descriptor. *)
Theorem ended_writers_let_go S file o :
  lock_reachable lead S -> lh_locked (ls_host S) !! file = Some o ->
  (exists p, has (ls_host S) p o file) /\
  (forall p, has (ls_host S) p o file -> lh_locked (unlock p o (ls_host S)) !! file = None) /\
  ((forall p q, has (ls_host S) q o file -> q = p) -> forall p, has (ls_host S) p o file ->
   lh_locked (close_all p (ls_host S)) !! file = None).
Proof.
  intros HS%lock_reachable_ok Hl. split_and!; [by apply (lk_open _ HS)|..].
  - intros p Hp. unfold unlock. rewrite Hp, bool_decide_eq_true_2 by done. cbn. apply lookup_delete_eq.
  - intros Hsole p Hp. destruct (lh_locked (close_all p (ls_host S)) !! file) as [o'|] eqn:Hc; [|done].
    exfalso. pose proof (closing_locks_open (fun q _ => bool_decide (q = p)) _ (lk_open _ HS)) as Ho.
    destruct (Ho file o' Hc) as (q & [Hq Hne]%closing_has). apply closing_locked in Hc as [Hc _].
    assert (o' = o) as -> by congruence. apply bool_decide_eq_false in Hne. by apply Hne, Hsole.
Qed.
End writers.

(** * What [acquire] answers *)

Section answers.
Context (lead : Path -> nat) (me : Z).

Definition was_told (q : LockRequest) : bool := match q with LqWaiting _ => true | _ => false end.

Lemma failed_shown m (log : list (exchange (State := LockHost) (Answer := LockAnswer))) :
  sh_failed (after shown m log) = true ->
  sh_failed m = true \/ Exists (fun e => fails (ex_request e) (ex_answer e) = true) log.
Proof.
  revert m. induction log as [|e log IH]; intros m; cbn; [by left|].
  intros [H|H]%IH; [|by right; right]. cbn in H. apply orb_true_iff in H as [?|?]; [by left|].
  right. by left.
Qed.

(** Taking the lock comes to an end, and means what it says. Whatever other processes do
    meanwhile, a gateway that is given the lock holds the file beside its database; one that is
    refused, while the host failed none of its requests, waited at least as long as it was asked
    to, and names who it last found; and it says at most once that it waits. *)
Theorem acquire_answers database wait s log r s' :
  course (spared me) (acquire lead me database wait) s log r s' ->
  let path := path_for (components database) in
  match r with
  | None => False
  | Some (Ok lock) => wl_path lock = path /\ holds s' me (wl_file lock) (lead path)
  | Some (Err e) =>
      Exists (fun x => fails (ex_request x) (ex_answer x) = true) log \/
      exists pid, e = other_writer database path pid wait /\ (lh_now s + wait <= lh_now s')%Z
  end /\
  length (List.filter (fun e => was_told (ex_request e)) log) <= 1.
Proof.
  intros Hc path. pose proof (acquire_wp lead me database wait (lh_now s) (mkShown false false) s
    (Z.le_refl _) eq_refl) as Hwp.
  destruct (wp_sound _ _ _ _ _ _ _ _ _ _ Hwp Hc) as [Hconf Hr]. split.
  - destruct r as [[lock|e]|]; cbn in Hr; [done| |done].
    destruct Hr as [[?|?]%failed_shown|?]; [done|by left|by right].
  - eapply Nat.le_trans; [|apply (conforms_once (rightly lead me) shown was_told sh_told
      (mkShown false false) log)]; [|..|exact Hconf].
    + cbn. lia.
    + by intros m s0 [].
    + intros m [] a; cbn; by rewrite ?orb_false_r, ?orb_true_r.
Qed.
End answers.

(** Every case of a byte. *)
Ltac each_byte a :=
  let b0 := fresh in let b1 := fresh in let b2 := fresh in let b3 := fresh in
  let b4 := fresh in let b5 := fresh in let b6 := fresh in let b7 := fresh in
  destruct a as [b0 b1 b2 b3 b4 b5 b6 b7]; destruct b0, b1, b2, b3, b4, b5, b6, b7.

(** The lock file names its holder: what [sign] writes is what [holder] reads. *)
Lemma digit_not_blank a (s : string) :
  digit a = true -> is_blank (String a s) = false /\ trim_start (String a s) = String a s.
Proof.
  each_byte a; try done; intros _;
    by destruct s as [|b [|c s]].
Qed.

Lemma trim_line d :
  Forall (fun a => digit a = true) (text d) -> d <> "" -> trim (d +:+ String "010" "") = d.
Proof.
  intros Hd Hne. unfold trim. assert (trim_start (d +:+ String "010" "") = d +:+ String "010" "") as ->.
  { destruct d as [|a d]; [done|]. apply Forall_cons in Hd as [Ha _]. by apply digit_not_blank. }
  clear Hne. induction d as [|a d IH]; [done|]. apply Forall_cons in Hd as [Ha Hd].
  destruct (digit_not_blank a (d +:+ String "010" "") Ha) as [Hb _].
  change (trim_end (String a (d +:+ String "010" "")) = String a d). cbn [trim_end]. by rewrite Hb, IH.
Qed.

Lemma text_append a b : text (a +:+ b) = text a ++ text b.
Proof.
  induction a as [|x a IH]; [done|]. change (text (String x a +:+ b)) with (x :: text (a +:+ b)).
  by rewrite IH.
Qed.

Theorem holders_are_named (me : Z) :
  (0 <= me <= u32_max)%Z -> named_holder (text (pretty me +:+ String "010" "")) = Some me.
Proof.
  intros Hme. destruct (pretty_Z_digits me (proj1 Hme)) as [Hd Hne].
  assert (Hascii : Forall (fun a => byte_in 0 127 a) (text (pretty me +:+ String "010" ""))).
  { rewrite text_append. apply Forall_app. split; [|by repeat constructor].
    eapply Forall_impl; [exact Hd|]. intros a. by each_byte a. }
  unfold named_holder, read_to_string, is_utf8. rewrite from_utf8_lossy_ascii by done.
  rewrite bool_decide_eq_true_2 by done. cbn [mbind option_bind]. unfold of_text, text.
  rewrite String.string_of_list_ascii_of_string, trim_line by done.
  unfold parse_u32. rewrite parse_usize_pretty by (unfold u32_max, u64_max in *; lia). cbn.
  by rewrite bool_decide_eq_true_2 by apply Hme.
Qed.

(** * Two gateways, step by step

    101 takes the lock of [/srv/ops.sqlite] and writes; 102 finds it taken and waits; 101 is killed
    while a child that it forked still has its descriptors; the child runs its program; 102 gets
    the lock. [linked] is a host on which [/home/ops.sqlite] is a link to that database. *)
Definition at_path (s : string) : Path := components s.

Definition one_file : Path -> nat := fun _ => 1.
Definition linked (path : Path) : nat :=
  if bool_decide (path = at_path "/home/ops.sqlite") then 1
  else if bool_decide (path = at_path "/srv/ops.sqlite") then 1
  else if bool_decide (path = at_path "/home/ops.sqlite.gateway.lock") then 2 else 3.

Definition fine (q : LockRequest) : LockAnswer q :=
  match q with
  | LqReadable => true
  | LqCreateDir _ | LqOpen _ | LqFlock | LqSetLen | LqWrite => None
  | LqWaiting _ | LqRecords _ => tt
  end.

Definition answers_of (p : Z) (n : nat) : list lock_move := repeat (LmAnswer p fine) n.
Definition turns_of (p : Z) (n : nat) : list lock_move := repeat (LmTurn p) n.

Definition independent : GatewayLifecycle := IndependentRunnerOf DetachRunner.

(** The requests and turns from the start of a gateway to its first [flock], and from there. *)
Definition opens (p : Z) (db : string) : list lock_move :=
  LmStart p (Gateway (Some db) independent) :: answers_of p 2 ++ turns_of p 2.
Definition tries (p : Z) : list lock_move := [LmAnswer p fine; LmTurn p].
Definition signs (p : Z) : list lock_move := [LmAnswer p fine; LmTurn p; LmAnswer p fine; LmTurn p].
Definition finds_it_taken (p : Z) : list lock_move :=
  tries p ++ [LmAnswer p fine; LmTurn p; LmAnswer p fine; LmTurn p; LmTurn p].

Definition first_writes : list lock_move :=
  opens 101 "/srv/ops.sqlite" ++ tries 101 ++ signs 101 ++
  opens 102 "/srv/ops.sqlite" ++ finds_it_taken 102.
Definition second_writes : list lock_move :=
  first_writes ++ [LmFork 101 103; LmEnd 101; LmTick (10^8); LmTurn 102] ++ finds_it_taken 102 ++
  [LmChildGone 103; LmTick (2 * 10^8); LmTurn 102] ++ tries 102 ++ signs 102.

Definition the_lock : Path := path_for (at_path "/srv/ops.sqlite").

Definition writes (S : LockSystem) (p : Z) : option Path :=
  match ls_programs S !! p with Some (Ask (LqRecords (Some lock)) _) => Some lock | _ => None end.

Lemma writes_records S p lock : writes S p = Some lock -> records S p lock.
Proof.
  unfold writes, records. destruct (ls_programs S !! p) as [[a|B step k|q k]|]; try done.
  destruct q as [| | | | | | |[l|]]; try done. intros [= <-]. by exists k.
Qed.

Lemma writers_exclude_each_other_witness :
  let S := lock_run one_file ∅ first_writes in
  records S 101 the_lock /\ 101%Z = 101%Z /\ writes S 102 = None /\
  writes (lock_run one_file ∅ second_writes) 102 = Some the_lock.
Proof.
  cbv zeta. split_and!; [apply writes_records; by vm_compute| |by vm_compute..].
  apply (writers_exclude_each_other one_file (lock_run one_file ∅ first_writes) 101 101 the_lock the_lock).
  - apply lock_run_reachable.
  - apply writes_records. by vm_compute.
  - apply writes_records. by vm_compute.
  - reflexivity.
Defined.

(** The lock is beside the path that names the database: by a link to it, a second gateway gets a
    lock of its own, and both write to the one database. *)
Lemma a_link_is_locked_apart :
  let S := lock_run linked ∅ (opens 101 "/srv/ops.sqlite" ++ tries 101 ++ signs 101 ++
                              opens 102 "/home/ops.sqlite" ++ tries 102 ++ signs 102) in
  lock_reachable linked S /\
  records S 101 the_lock /\ records S 102 (path_for (at_path "/home/ops.sqlite")) /\
  linked (at_path "/home/ops.sqlite") = linked (at_path "/srv/ops.sqlite").
Proof.
  split_and!; [apply lock_run_reachable|apply writes_records; by vm_compute..|by vm_compute].
Qed.

(** Whom a process says that it waits for. *)
Definition waits_for (S : LockSystem) (p : Z) : option (option Z) :=
  match ls_programs S !! p with Some (Ask (LqWaiting holder) _) => Some holder | _ => None end.

(** Between [flock] and the first write, the file still names the holder before. *)
Lemma a_new_holder_is_named_late :
  let S := lock_run one_file {[1 := text ("99" +:+ String "010" "")]}
             (opens 101 "/srv/ops.sqlite" ++ tries 101 ++ opens 102 "/srv/ops.sqlite" ++
              tries 102 ++ [LmAnswer 102 fine; LmTurn 102]) in
  lh_locked (ls_host S) !! 1 = Some 0 /\ descriptor (ls_host S) 101 0 = Some 1 /\
  waits_for S 102 = Some (Some 99%Z).
Proof. by vm_compute. Qed.

(** A gateway that is refused after its fifteen seconds. *)
Definition taken_by_7 : LockHost :=
  mkLockHost {[0 := mkOpenFile 1 {[7%Z]}]} {[1 := 0]} {[1 := text ("7" +:+ String "010" "")]} 0.

Definition ticked (s : LockHost) : LockHost :=
  mkLockHost (lh_open s) (lh_locked s) (lh_text s) (lh_now s + 10^8).

Lemma ticked_spares p s : spared p s (ticked s).
Proof. split; [done|by intros o f [_ ?]|cbn; lia]. Qed.

Definition a_refusal :=
  run_call ticked (fun _ => fine) 0 (acquire one_file 101 "/srv/ops.sqlite" OPERATIONS_DB_LOCK_WAIT)
    taken_by_7.

Lemma refusal_text :
  match a_refusal with
  | Some (_, r, _) =>
      r = Some (Err (other_writer "/srv/ops.sqlite" the_lock (Some 7%Z) OPERATIONS_DB_LOCK_WAIT))
  | None => False
  end.
Proof. by vm_compute. Qed.

Lemma ran {A B C} (x : option (A * B * C)) (r : B) :
  match x with Some (_, r', _) => r' = r | None => False end -> exists a c, x = Some (a, r, c).
Proof. destruct x as [[[a b] c]|]; [|done]. intros ->. eauto. Qed.

Lemma acquire_answers_witness :
  let r := Some (Err (other_writer "/srv/ops.sqlite" the_lock (Some 7%Z) OPERATIONS_DB_LOCK_WAIT)) in
  exists log s',
    course (spared 101) (acquire one_file 101 "/srv/ops.sqlite" OPERATIONS_DB_LOCK_WAIT) taken_by_7
      log r s' /\
    length (List.filter (fun e => was_told (ex_request e)) log) <= 1.
Proof.
  intros r. destruct (ran a_refusal r refusal_text) as (log & s' & Hr).
  assert (Hcourse : course (spared 101)
            (acquire one_file 101 "/srv/ops.sqlite" OPERATIONS_DB_LOCK_WAIT) taken_by_7 log r s').
  { exact (run_call_course (spared 101) ticked (fun _ => fine) 0 _ taken_by_7 log r s'
             (ticked_spares 101) Hr). }
  exists log, s'. split; [exact Hcourse|].
  exact (proj2 (acquire_answers one_file 101 "/srv/ops.sqlite" OPERATIONS_DB_LOCK_WAIT taken_by_7
                  log r s' Hcourse)).
Defined.
