(* ===== verification/Sandbox.v ===== *)
(** The Linux command sandbox: what the Runner asks of its helper ([exec_launch] of
    [runner/process.rs], [runner/linux_sandbox.rs]) and what the helper makes of it
    ([crates/linux-sandbox]): a plan, in a file that one run takes. What Codex makes of a plan is
    outside. *)
From S2P Require Import Prelude Domain Policy Output Api Files Procfs Writer.

(** * The protocol ([linux-sandbox-protocol]) *)

Definition SANDBOX_HELPER_PROTOCOL : Z := 1.

Inductive SandboxNetwork := SnRestricted | SnEnabled.

#[export] Instance SandboxNetwork_eq_dec : EqDecision SandboxNetwork.
Proof. solve_decision. Defined.

Record SandboxPrepareRequest := mkSandboxPrepareRequest {
  sp_protocol : Z;
  sp_workspace_root : string;
  sp_command_cwd : string;
  sp_writable_workspace : bool;
  sp_network : SandboxNetwork;
  sp_argv : list string
}.

Inductive SandboxPrepareResponse :=
  | Prepared (plan_path : string)
  | PrepareError (message : string).

(** * Plan files ([linux-sandbox/plan.rs])

    The entries of the directories that plans are in, by path. [pi_*] is what the operating system
    answers where the entries do not tell: the directory that [mkdtemp] made, and an error, with
    what was written before it. *)
Inductive PlanNode := PDir | PFile (bytes : string) | PLink.
Abbreviation PlanDisk := (gmap Path PlanNode).
Implicit Types d : PlanDisk.

Record PlanIo := mkPlanIo {
  pi_dir : result string Path;
  pi_create : option string;
  pi_write : option (string * string);
  pi_read : option string
}.

Record OpaquePlan := mkOpaquePlan { op_protocol : Z; op_argv : list string }.

Definition PLAN_FILE_NAME : string := "plan".
Definition PLAN_DIR_PREFIX : string := "codespace-linux-sandbox-".

Definition unlink d (path : Path) : PlanDisk :=
  match d !! path with Some (PFile _) | Some PLink => delete path d | _ => d end.

(** Only an empty directory is removed. *)
Definition remove_dir d (path : Path) : PlanDisk :=
  match d !! path with
  | Some PDir =>
      if bool_decide (map_Forall (fun p _ => parent p <> Some path) d) then delete path d else d
  | _ => d
  end.

(** [discard], and [discard_plan] of the Runner. *)
Definition discard d (path : Path) : PlanDisk :=
  let d := unlink d path in
  match parent path with
  | Some dir =>
      match file_name dir with
      | Some name => if String.prefix PLAN_DIR_PREFIX name then remove_dir d dir else d
      | None => d
      end
  | None => d
  end.

Section plans.
Context `{JP : Json OpaquePlan}.
(** The operating system's text for a file that exists already, is not there, or is a link; what
    [serde_json] says of a text that is no plan. *)
Context (eexist enoent eloop eisdir : string) (json_error : string -> string).

Definition write_new (io : PlanIo) (path : Path) (plan : OpaquePlan) d
    : result string unit * PlanDisk :=
  let failed e := Err ("failed to create sandbox plan: " +:+ e) in
  match d !! path, pi_create io with
  | Some _, _ => (failed eexist, d)
  | None, Some e => (failed e, d)
  | None, None =>
      match pi_write io with
      | Some (written, e) =>
          (Err ("failed to write sandbox plan: " +:+ e), <[path := PFile written]> d)
      | None => (Ok tt, <[path := PFile (to_json plan)]> d)
      end
  end.

Definition write_argv (io : PlanIo) (argv : list string) d : result string Path * PlanDisk :=
  if bool_decide (argv = []) then (Err "sandbox plan argv must not be empty", d)
  else
    match pi_dir io with
    | Err e => (Err ("failed to create sandbox plan dir: " +:+ e), d)
    | Ok dir =>
        let path := dir ++ [Normal PLAN_FILE_NAME] in
        match write_new io path (mkOpaquePlan SANDBOX_HELPER_PROTOCOL argv) (<[dir := PDir]> d) with
        | (Ok _, d) => (Ok path, d)
        | (Err e, d) => (Err e, discard d path)
        end
    end.

(** What [load_and_unlink] makes of the bytes. *)
Definition read_plan (io : PlanIo) (bytes : string) : result string (list string) :=
  match pi_read io with
  | Some e => Err ("failed to read sandbox plan: " +:+ e)
  | None =>
      match of_json bytes with
      | None => Err ("invalid sandbox plan: " +:+ json_error bytes)
      | Some plan =>
          if bool_decide (op_protocol plan <> SANDBOX_HELPER_PROTOCOL)
          then Err ("unsupported sandbox plan protocol " +:+ pretty (op_protocol plan))
          else if bool_decide (op_argv plan = [])
          then Err "sandbox plan argv must not be empty"
          else Ok (op_argv plan)
      end
  end.

Definition load_and_unlink (io : PlanIo) (path : string) d
    : result string (list string) * PlanDisk :=
  if negb (is_absolute path) then (Err ("sandbox plan path must be absolute: " +:+ path), d)
  else
    let p := components path in
    let unopened e := (Err ("failed to open sandbox plan: " +:+ e), d) in
    match d !! p with
    | None => unopened enoent
    | Some PLink => unopened eloop
    | Some PDir => (Err ("failed to read sandbox plan: " +:+ eisdir), discard d p)
    | Some (PFile bytes) => (read_plan io bytes, discard d p)
    end.
End plans.

(** * What the helper asks of Codex ([linux-sandbox/prepare.rs]) *)

Definition PROTECTED_METADATA_NAMES : list string := [".git"; ".agents"; ".codex"].

Section preparing.
(** [Path::canonicalize]; Codex's [PathUri], its [join], and the arguments that it makes of a
    permission profile, which it does not for every profile. *)
Context {Uri : Type} (canonicalize : string -> option string).
Context (from_host_native_path : string -> result string Uri) (uri_join : Uri -> string -> option Uri).

Inductive SandboxPath := Minimal | AtUri (uri : Uri).
Inductive SandboxAccess := FsRead | FsWrite.

(** [FileSystemSandboxPolicy::restricted] and [PermissionProfile::from_runtime_permissions]. *)
Record Confinement := mkConfinement {
  cf_entries : list (SandboxPath * SandboxAccess);
  cf_network : SandboxNetwork
}.

Context (codex_args : list string -> string -> Confinement -> string -> bool -> option (list string)).

Definition absolute_dir (path : string) : result string string :=
  let path := default path (canonicalize path) in
  if negb (is_absolute path) then Err ("sandbox path must be absolute: " +:+ path)
  else if negb (is_utf8 (text path)) then Err ("sandbox path must be valid UTF-8: " +:+ path)
  else Ok path.

Definition sandbox_path_uri (path : string) : result string Uri :=
  path ← absolute_dir path; from_host_native_path path.

(** The metadata that Codex would protect on a writable root. *)
Definition metadata_uris (workspace : Uri) : list Uri :=
  omap (uri_join workspace) PROTECTED_METADATA_NAMES.

Definition permission_profile (req : SandboxPrepareRequest) (helper : string)
    : result string Confinement :=
  helper ← sandbox_path_uri helper;
  workspace ← sandbox_path_uri (sp_workspace_root req);
  let access := if sp_writable_workspace req then FsWrite else FsRead in
  let protected :=
    if sp_writable_workspace req
    then (fun uri => (AtUri uri, FsWrite)) <$> metadata_uris workspace
    else [] in
  Ok (mkConfinement
        ([(Minimal, FsRead); (AtUri helper, FsRead); (AtUri workspace, access)] ++ protected)
        (sp_network req)).

Definition FORBIDDEN_FLAGS : list string :=
  ["--proxy-route-spec"; "--not-a-security-boundary"; "--use-legacy-landlock"].
Definition PROXY_FLAG : string := "--allow-network-for-proxy".

Definition linux_sandbox_args (req : SandboxPrepareRequest) (helper : string)
    : result string (list string) :=
  if bool_decide (sp_protocol req <> SANDBOX_HELPER_PROTOCOL)
  then Err ("unsupported sandbox helper protocol " +:+ pretty (sp_protocol req))
  else if bool_decide (head (sp_argv req) = None \/ head (sp_argv req) = Some "")
  then Err "command must be a non-empty argv (no shell)"
  else
    profile ← permission_profile req helper;
    cwd ← absolute_dir (sp_command_cwd req);
    policy_cwd ← absolute_dir (sp_workspace_root req);
    match codex_args (sp_argv req) cwd profile policy_cwd (bool_decide (sp_network req = SnEnabled)) with
    | None => Err "failed to build linux sandbox argv"
    | Some args =>
        if existsb (fun arg => bool_decide (arg ∈ FORBIDDEN_FLAGS)) args
        then Err "linux sandbox argv included a forbidden helper flag"
        else
          match sp_network req, bool_decide (PROXY_FLAG ∈ args) with
          | SnRestricted, true =>
              Err "restricted network plan must not enable the managed proxy"
          | SnEnabled, false => Err "enabled network plan must include --allow-network-for-proxy"
          | _, _ => Ok args
          end
    end.

(** ** [prepare], as a process: what it reads, what it prints, and whether it succeeds *)

Context `{JP : Json OpaquePlan} `{JR : Json SandboxPrepareRequest} `{JA : Json SandboxPrepareResponse}.
Context (eexist enoent eloop eisdir : string) (json_error : string -> string).

Definition prepare_plan (io : PlanIo) (exe : result string string) (req : SandboxPrepareRequest) d
    : result string Path * PlanDisk :=
  match exe with
  | Err e => (Err ("failed to locate sandbox helper: " +:+ e), d)
  | Ok helper =>
      match linux_sandbox_args req helper with
      | Err e => (Err e, d)
      | Ok argv => write_argv eexist io argv d
      end
  end.

Definition read_request (stdin : result string string) : result string SandboxPrepareRequest :=
  match stdin with
  | Err e => Err ("failed to read prepare request: " +:+ e)
  | Ok bytes =>
      match of_json bytes with
      | Some req => Ok req
      | None => Err ("invalid prepare request: " +:+ json_error bytes)
      end
  end.

Definition emit (response : SandboxPrepareResponse) : string := to_json response +:+ String "010" "".

Definition prepare_main (io : PlanIo) (exe stdin : result string string) d
    : string * bool * PlanDisk :=
  match read_request stdin with
  | Err message => (emit (PrepareError message), false, d)
  | Ok req =>
      match prepare_plan io exe req d with
      | (Ok plan_path, d) => (emit (Prepared (path_text plan_path)), true, d)
      | (Err message, d) => (emit (PrepareError message), false, d)
      end
  end.

(** ** [run] ([linux-sandbox/main.rs]) *)

(** What the process becomes: the helper's own program with Codex's arguments, or that program as
    the child of a managed proxy. *)
Inductive Ran := RunFailed (message : string) | RunExec (argv : list string) | RunProxied (argv : list string).

Definition parse_plan_flag (args : list string) : result string string :=
  match args with
  | [flag; path] =>
      if bool_decide (flag = "--plan") && negb (bool_decide (path = "")) then Ok path
      else Err "usage: codespace-linux-sandbox run --plan <path>"
  | _ => Err "usage: codespace-linux-sandbox run --plan <path>"
  end.

Definition run_plan (io : PlanIo) (args : list string) d : Ran * PlanDisk :=
  match parse_plan_flag args with
  | Err message => (RunFailed message, d)
  | Ok plan_path =>
      match load_and_unlink enoent eloop eisdir json_error io plan_path d with
      | (Err message, d) => (RunFailed message, d)
      | (Ok argv, d) =>
          (if bool_decide (PROXY_FLAG ∈ argv) then RunProxied argv else RunExec argv, d)
      end
  end.

(** ** [probe] ([linux-sandbox/probe.rs]) *)

Definition true_command (is_file : string -> bool) : string :=
  default "true" (head (List.filter is_file ["/usr/bin/true"; "/bin/true"])).

Definition probe_request (workspace : string) (is_file : string -> bool) : SandboxPrepareRequest :=
  mkSandboxPrepareRequest SANDBOX_HELPER_PROTOCOL workspace workspace true SnRestricted
    [true_command is_file].

(** [probe_ok]. [child]: whether the helper could be spawned to run the plan, how it exited if it did
    so in time, and what it did to the disk. *)
Definition probe_ok (io : PlanIo) (exe : result string string) (req : SandboxPrepareRequest)
    (child : list string -> PlanDisk -> option (option bool) * PlanDisk) d : bool * PlanDisk :=
  match exe with
  | Err _ => (false, d)
  | Ok helper =>
      match (match linux_sandbox_args req helper with
             | Ok argv => write_argv eexist io argv d
             | Err e => (Err e, d)
             end) with
      | (Err _, d) => (false, d)
      | (Ok plan, d) =>
          match child ["run"; "--plan"; path_text plan] d with
          | (Some (Some true), d) => (true, d)
          | (_, d) => (false, discard d plan)
          end
      end
  end.

(** * The Runner's side ([runner/linux_sandbox.rs], [exec_launch]) *)

Record SandboxLaunch := mkSandboxLaunch {
  sl_program : string;
  sl_args : list string;
  sl_plan_path : string
}.

Definition sandbox_spawn_failed (message : string) : ErrorBody := error_body ProcessSpawnFailed message.

(** What the helper's [prepare] left: its exit, and what it printed. *)
Record PrepareOutput := mkPrepareOutput {
  po_success : bool;
  po_stdout : string;
  po_stderr : string
}.

(** The end of [prepare_from_child]. [read_response] is [serde_json::from_slice]. *)
Context (read_response : string -> option SandboxPrepareResponse).

Definition prepare_answered (helper : string) (output : PrepareOutput) : res SandboxLaunch :=
  match read_response (po_stdout output) with
  | None =>
      Err (sandbox_spawn_failed ("invalid linux sandbox prepare response: " +:+ json_error (po_stdout output)))
  | Some (Prepared plan_path) =>
      if po_success output
      then if bool_decide (plan_path = "")
           then Err (sandbox_spawn_failed "linux sandbox prepare returned an empty plan path")
           else Ok (mkSandboxLaunch helper ["run"; "--plan"; plan_path] plan_path)
      else Err (sandbox_spawn_failed "linux sandbox prepare failed")
  | Some (PrepareError message) =>
      Err (sandbox_spawn_failed ("linux sandbox setup failed: " +:+ message))
  end.

(** [helper_path]: the override and the file next to this executable, where they are files. *)
Definition HELPER_BIN_ENV : string := "CODESPACE_LINUX_SANDBOX_BIN".
Definition HELPER_BIN_NAME : string := "codespace-linux-sandbox".

Definition helper_path (is_file : string -> bool) (env beside : option string) : option string :=
  match env with
  | Some path => if is_file path then Some path else None
  | None => candidate ← beside; if is_file candidate then Some candidate else None
  end.

(** [probe], which is made once: what was found, if it was made before; what [probe_helper] finds. *)
Definition probe (linux : bool) (helper : option string) (probe_helper : string -> bool)
    (found : option bool) : bool * option bool :=
  let ok := default (linux && match helper with Some h => probe_helper h | None => false end) found in
  (ok, Some ok).

Definition utf8_path (path : string) : res string :=
  if is_utf8 (text path) then Ok path
  else Err (sandbox_spawn_failed ("sandbox path must be valid UTF-8: " +:+ path)).

(** [prepare_run]. [communicate]: what the child that was sent these bytes left, or why it could
    not be spawned or spoken to. *)
Definition prepare_run (helper : option string) (communicate : string -> res PrepareOutput)
    (workspace_root command_cwd : string) (writable_workspace : bool) (network : SandboxNetwork)
    (argv : list string) : res SandboxLaunch :=
  helper ← ok_or (sandbox_spawn_failed (HELPER_BIN_ENV +:+ " is unset and " +:+ HELPER_BIN_NAME
                    +:+ " was not found next to the executable")) helper;
  if bool_decide (head argv = None \/ head argv = Some "")
  then Err (sandbox_spawn_failed "command must be a non-empty argv (no shell)")
  else
    root ← utf8_path workspace_root;
    cwd ← utf8_path command_cwd;
    output ← communicate (to_json (mkSandboxPrepareRequest SANDBOX_HELPER_PROTOCOL root cwd
                                     writable_workspace network argv));
    prepare_answered helper output.

Record ExecLaunch := mkExecLaunch {
  el_program : string;
  el_args : list string;
  el_sandboxed : bool;
  el_plan_path : option string
}.

Definition sandbox_network (network : NetworkAxis) : SandboxNetwork :=
  match network with NetRestricted => SnRestricted | NetEnabled => SnEnabled end.

Definition exec_launch (probed : bool) (helper : option string)
    (communicate : string -> res PrepareOutput) (root : string) (req : RunnerExecRequest)
    : res ExecLaunch :=
  if negb probed then
    if bool_decide (xp_network (xr_policy req) = NetEnabled)
    then Err (error_body ProcessSpawnFailed
                "Enabled network requires the Linux command sandbox helper")
    else Ok (mkExecLaunch (default "" (head (xr_argv req))) (tail (xr_argv req)) false None)
  else
    launch ← prepare_run helper communicate root root
               (bool_decide (xp_workspace_profile (xr_policy req) = WorkspaceWrite))
               (sandbox_network (xp_network (xr_policy req))) (xr_argv req);
    Ok (mkExecLaunch (sl_program launch) (sl_args launch) true (Some (sl_plan_path launch))).

(** [abort_plan], after a spawn that failed. *)
Definition abort_plan (launch : ExecLaunch) d : PlanDisk :=
  match el_plan_path launch with Some path => discard d (components path) | None => d end.
End preparing.

(** * Plans are taken once *)

(** As [mkdtemp] makes a directory: new, empty, and named by its template. *)
Record made_for_plan d (dir : Path) : Prop := {
  mp_root : exists names, dir = RootDir :: names;
  mp_name : exists name, file_name dir = Some name /\ String.prefix PLAN_DIR_PREFIX name = true;
  mp_new : d !! dir = None;
  mp_empty : map_Forall (fun p _ => parent p <> Some dir) d
}.

Definition plan_in (dir : Path) : Path := dir ++ [Normal PLAN_FILE_NAME].

Lemma parent_plan dir : (exists names, dir = RootDir :: names) -> parent (plan_in dir) = Some dir.
Proof.
  intros [names ->]. unfold parent, plan_in. cbn. destruct (names ++ _) eqn:H; [by destruct names|].
  rewrite <- H. f_equal. f_equal. apply removelast_last.
Qed.

Lemma no_own_parent dir : parent dir <> Some dir.
Proof.
  unfold parent. destruct dir as [|c dir]; [done|]. intros H.
  assert (He : removelast (c :: dir) = c :: dir) by (destruct c, dir; congruence).
  pose proof (app_removelast_last c (l := c :: dir) ltac:(done)) as Hl. rewrite He in Hl.
  apply (f_equal length) in Hl. rewrite length_app in Hl. cbn in Hl. lia.
Qed.

Lemma plan_new d dir : made_for_plan d dir -> d !! plan_in dir = None /\ dir <> plan_in dir.
Proof.
  intros [Hr _ _ He]. pose proof (parent_plan dir Hr) as Hp. split.
  - destruct (d !! plan_in dir) eqn:H; [|done]. by apply He in H.
  - intros Heq. rewrite <- Heq in Hp. by apply (no_own_parent dir).
Qed.

(** The discard of a plan leaves nothing of it. *)
Lemma discard_made d dir bytes :
  made_for_plan d dir -> discard (<[plan_in dir := PFile bytes]> (<[dir := PDir]> d)) (plan_in dir) = d.
Proof.
  intros Hm. destruct (plan_new d dir Hm) as [Hnew Hne]. destruct Hm as [Hr (name & Hname & Hpre) Hd He].
  unfold discard, unlink. rewrite lookup_insert_eq, delete_insert_id by by rewrite lookup_insert_ne.
  rewrite (parent_plan dir Hr), Hname, Hpre. unfold remove_dir.
  rewrite lookup_insert_eq, bool_decide_eq_true_2.
  - by apply delete_insert_id.
  - apply map_Forall_insert_2; [apply no_own_parent|done].
Qed.

Lemma discard_unmade d dir :
  made_for_plan d dir -> discard (<[dir := PDir]> d) (plan_in dir) = d.
Proof.
  intros Hm. destruct (plan_new d dir Hm) as [Hnew Hne]. destruct Hm as [Hr (name & Hname & Hpre) Hd He].
  unfold discard, unlink. rewrite lookup_insert_ne, Hnew by done.
  rewrite (parent_plan dir Hr), Hname, Hpre. unfold remove_dir.
  rewrite lookup_insert_eq, bool_decide_eq_true_2.
  - by apply delete_insert_id.
  - apply map_Forall_insert_2; [apply no_own_parent|done].
Qed.

Section plan_files.
Context `{JP : Json OpaquePlan}.
Context (eexist enoent eloop eisdir : string) (json_error : string -> string).

Abbreviation write := (write_argv eexist).
Abbreviation load := (load_and_unlink enoent eloop eisdir json_error).

(** The plan that was written, and what there was before it. *)
Lemma write_argv_Ok io argv d path d1 :
  write io argv d = (Ok path, d1) -> (forall dir, pi_dir io = Ok dir -> made_for_plan d dir) ->
  argv <> [] /\ exists dir, pi_dir io = Ok dir /\ path = plan_in dir /\
    d1 = <[path := PFile (to_json (mkOpaquePlan SANDBOX_HELPER_PROTOCOL argv))]> (<[dir := PDir]> d).
Proof.
  unfold write_argv, write_new. case_bool_decide as Ha; [done|].
  destruct (pi_dir io) as [dir|e]; [|done]. intros H Hm. split; [done|]. exists dir.
  destruct (plan_new d dir (Hm dir eq_refl)) as [Hnew Hne]. unfold plan_in in *.
  rewrite lookup_insert_ne, Hnew in H by done.
  destruct (pi_create io); [done|]. destruct (pi_write io) as [[]|]; [done|]. by injection H as <- <-.
Qed.

(** Whoever loads it gets what was written, and there is no plan after it. *)
Lemma load_written io dir argv d path :
  made_for_plan d dir -> pi_read io = None -> argv <> [] ->
  is_absolute path = true -> components path = plan_in dir ->
  load io path (<[plan_in dir := PFile (to_json (mkOpaquePlan SANDBOX_HELPER_PROTOCOL argv))]>
                  (<[dir := PDir]> d)) = (Ok argv, d).
Proof.
  intros Hm Hr Ha Habs Hp. unfold load_and_unlink. rewrite Habs, Hp. cbn [negb].
  rewrite lookup_insert_eq, discard_made by done. unfold read_plan. rewrite Hr, of_to_json. cbn.
  by rewrite (bool_decide_eq_false_2 (argv = [])).
Qed.

(** A plan is written, or leaves nothing. *)
Lemma written_or_not io argv d dir :
  pi_dir io = Ok dir -> made_for_plan d dir ->
  match write io argv d with
  | (Ok p, d1) => p = plan_in dir /\
      d1 = <[plan_in dir := PFile (to_json (mkOpaquePlan SANDBOX_HELPER_PROTOCOL argv))]> (<[dir := PDir]> d)
  | (Err _, d1) => d1 = d
  end.
Proof.
  intros Hdir Hm. destruct (plan_new d dir Hm) as [Hnew Hne]. unfold write_argv, write_new.
  rewrite Hdir. case_bool_decide; [done|]. fold (plan_in dir). rewrite lookup_insert_ne, Hnew by done.
  destruct (pi_create io); [by apply discard_unmade|].
  destruct (pi_write io) as [[w e']|]; [by apply discard_made|done].
Qed.

(** A plan is run once, as it was prepared. What [write_argv] is given is what
    [load_and_unlink] gives back, the disk is then what it was before, and there is nothing to load
    any more. A plan that could not be written leaves nothing. *)
Theorem plans_are_taken_once io io' argv d dir path :
  pi_dir io = Ok dir -> made_for_plan d dir -> pi_read io' = None ->
  is_absolute path = true -> components path = plan_in dir ->
  match write io argv d with
  | (Ok p, d1) => p = plan_in dir /\ load io' path d1 = (Ok argv, d) /\
      load io' path d = (Err ("failed to open sandbox plan: " +:+ enoent), d)
  | (Err _, d1) => d1 = d
  end.
Proof.
  intros Hdir Hm Hr Habs Hp. destruct (plan_new d dir Hm) as [Hnew _].
  pose proof (written_or_not io argv d dir Hdir Hm) as Hw.
  destruct (write io argv d) as [[p|e] d1] eqn:H; [|done]. destruct Hw as [-> ->].
  assert (argv <> []) by (intros ->; done).
  split_and!; [done|by apply load_written|]. unfold load_and_unlink. by rewrite Habs, Hp, Hnew.
Qed.

(** Whatever it reads of the plan, [run] leaves none. *)
Lemma run_plan_discards io dir bytes path d :
  made_for_plan d dir -> is_absolute path = true -> components path = plan_in dir ->
  (run_plan enoent eloop eisdir json_error io ["--plan"; path]
     (<[plan_in dir := PFile bytes]> (<[dir := PDir]> d))).2 = d.
Proof.
  intros Hm Habs Hp. unfold run_plan, parse_plan_flag. rewrite bool_decide_eq_true_2 by done.
  rewrite bool_decide_eq_false_2 by (by intros ->). cbn [negb andb].
  unfold load_and_unlink. rewrite Habs, Hp. cbn [negb]. rewrite lookup_insert_eq, discard_made by done.
  by destruct (read_plan _ _ _).
Qed.

Lemma discard_nothing d dir : made_for_plan d dir -> discard d (plan_in dir) = d.
Proof.
  intros Hm. destruct (plan_new d dir Hm) as [Hnew _]. destruct Hm as [Hr (name & Hname & Hpre) Hd _].
  unfold discard, unlink, remove_dir. by rewrite Hnew, (parent_plan dir Hr), Hname, Hpre, Hd.
Qed.

(** The child of a probe: it is the helper's [run], which may be killed before it took the plan. *)
Definition runs_the_plan (io : PlanIo) (child : list string -> PlanDisk -> option (option bool) * PlanDisk)
    : Prop :=
  forall args d, match child args d with
  | (None, d') => d' = d
  | (Some (Some true), d') => d' = (run_plan enoent eloop eisdir json_error io (tail args) d).2
  | (Some _, d') => d' = d \/ d' = (run_plan enoent eloop eisdir json_error io (tail args) d).2
  end.

(** However a probe ends, it leaves nothing of the plan that it made. *)
Lemma probes_leave_no_plan {Uri} canonicalize (from_host : string -> result string Uri) uri_join
    codex_args io io' exe req child d dir :
  pi_dir io = Ok dir -> made_for_plan d dir ->
  is_absolute (path_text (plan_in dir)) = true -> components (path_text (plan_in dir)) = plan_in dir ->
  runs_the_plan io' child ->
  (probe_ok canonicalize from_host uri_join codex_args eexist io exe req child d).2 = d.
Proof.
  intros Hdir Hm Habs Hp Hchild. unfold probe_ok. destruct exe as [helper|]; [|done].
  destruct (linux_sandbox_args _ _ _ _ _ _) as [argv|]; [|done].
  pose proof (written_or_not io argv d dir Hdir Hm) as Hw.
  destruct (write io argv d) as [[plan|e] d1]; [|done]. destruct Hw as [-> ->].
  specialize (Hchild ["run"; "--plan"; path_text (plan_in dir)]
    (<[plan_in dir := PFile (to_json (mkOpaquePlan SANDBOX_HELPER_PROTOCOL argv))]> (<[dir := PDir]> d))).
  cbn [tail] in Hchild. rewrite run_plan_discards in Hchild by done.
  destruct (child _ _) as [[[[]|]|] d2]; cbn [snd]; subst; auto using discard_made;
    destruct Hchild as [->| ->]; auto using discard_made, discard_nothing.
Qed.
End plan_files.

(** * From the policy to what runs *)

Section sandboxed.
Context {Uri : Type} (canonicalize : string -> option string).
Context (from_host_native_path : string -> result string Uri) (uri_join : Uri -> string -> option Uri).
Context (codex_args :
  list string -> string -> Confinement (Uri := Uri) -> string -> bool -> option (list string)).
Context `{JP : Json OpaquePlan} `{JR : Json SandboxPrepareRequest} `{JA : Json SandboxPrepareResponse}.
Context (eexist enoent eloop eisdir : string) (json_error : string -> string).
Context (read_response : string -> option SandboxPrepareResponse).

Abbreviation uri_of := (sandbox_path_uri canonicalize from_host_native_path).
Abbreviation prepares_plan := (prepare_main canonicalize from_host_native_path uri_join codex_args eexist json_error).
Abbreviation launches_as := (exec_launch json_error read_response).
Abbreviation runs := (run_plan enoent eloop eisdir json_error).

(** What a profile lets a command do: it reads the system's minimum, the helper and its workspace,
    and writes to its workspace alone, if its policy lets it. *)
Record confined_as (root : string) (helper : string) (policy : RunnerExecPolicy)
    (profile : Confinement (Uri := Uri)) : Prop := {
  cn_network : cf_network profile = sandbox_network (xp_network policy);
  cn_read_only : xp_workspace_profile policy = ReadOnly ->
    Forall (fun e => snd e = FsRead) (cf_entries profile);
  cn_writes : forall p, (p, FsWrite) ∈ cf_entries profile ->
    exists workspace uri, uri_of root = Ok workspace /\ p = AtUri uri /\
      (uri = workspace \/ exists name, name ∈ PROTECTED_METADATA_NAMES /\ uri_join workspace name = Some uri);
  cn_reads : forall p, (p, FsRead) ∈ cf_entries profile ->
    p = Minimal \/ exists uri, p = AtUri uri /\ (uri_of helper = Ok uri \/ uri_of root = Ok uri)
}.

Lemma permission_profile_confined policy root helper argv profile :
  permission_profile canonicalize from_host_native_path uri_join
    (mkSandboxPrepareRequest SANDBOX_HELPER_PROTOCOL root root
       (bool_decide (xp_workspace_profile policy = WorkspaceWrite))
       (sandbox_network (xp_network policy)) argv) helper = Ok profile ->
  confined_as root helper policy profile.
Proof.
  unfold permission_profile. cbn -[sandbox_path_uri metadata_uris].
  destruct (uri_of helper) as [h|] eqn:Hh; [|done]. cbn -[sandbox_path_uri metadata_uris].
  destruct (uri_of root) as [w|] eqn:Hw; [|done]. intros [= <-]. split; cbn -[metadata_uris sandbox_path_uri].
  - done.
  - intros ->. by repeat constructor.
  - intros p Hp. case_bool_decide; cbn -[metadata_uris] in Hp.
    + apply elem_of_cons in Hp as [[=]|Hp]. apply elem_of_cons in Hp as [[=]|Hp].
      apply elem_of_cons in Hp as [[= ->]|Hp].
      * exists w, w. auto.
      * apply list_elem_of_fmap in Hp as (uri & [= ->] & (name & Hn & Hj)%list_elem_of_omap).
        exists w, uri. eauto 10.
    + repeat (apply elem_of_cons in Hp as [Hp|Hp]; [done|]). by apply elem_of_nil in Hp.
  - intros p Hp. case_bool_decide; cbn -[metadata_uris] in Hp.
    + apply elem_of_cons in Hp as [[= ->]|Hp]; [by left|].
      apply elem_of_cons in Hp as [[= ->]|Hp]; [by right; eauto|]. apply elem_of_cons in Hp as [[=]|Hp].
      by apply list_elem_of_fmap in Hp as (uri & [=] & _).
    + repeat (apply elem_of_cons in Hp as [Hp|Hp]; [injection Hp as ->; eauto|]). by apply elem_of_nil in Hp.
Qed.

(** What passes [linux_sandbox_args]. *)
Lemma linux_sandbox_args_Ok req helper args :
  linux_sandbox_args canonicalize from_host_native_path uri_join codex_args req helper = Ok args ->
  exists profile cwd policy_cwd,
    permission_profile canonicalize from_host_native_path uri_join req helper = Ok profile /\
    absolute_dir canonicalize (sp_command_cwd req) = Ok cwd /\
    absolute_dir canonicalize (sp_workspace_root req) = Ok policy_cwd /\
    codex_args (sp_argv req) cwd profile policy_cwd (bool_decide (sp_network req = SnEnabled)) = Some args /\
    Forall (fun flag => flag ∉ args) FORBIDDEN_FLAGS /\
    (PROXY_FLAG ∈ args <-> sp_network req = SnEnabled).
Proof.
  unfold linux_sandbox_args. case_bool_decide; [done|]. case_bool_decide; [done|].
  destruct (permission_profile _ _ _ _ _) as [profile|]; [|done].
  destruct (absolute_dir canonicalize (sp_command_cwd req)) as [cwd|]; [|done].
  destruct (absolute_dir canonicalize (sp_workspace_root req)) as [policy_cwd|]; [|done].
  cbn [mbind result_bind]. destruct (codex_args _ _ _ _ _) as [args'|] eqn:Ha; [|done].
  destruct (existsb _ _) eqn:Hx; [done|]. intros Hok. exists profile, cwd, policy_cwd.
  assert (args' = args) as ->. { destruct (sp_network req); case_bool_decide; congruence. }
  assert (Hproxy : PROXY_FLAG ∈ args <-> sp_network req = SnEnabled).
  { clear - Hok. destruct (sp_network req); by case_bool_decide as Hin. }
  assert (Hflags : Forall (fun flag => flag ∉ args) FORBIDDEN_FLAGS).
  { apply Forall_forall. intros flag Hf Hin. apply not_true_iff_false in Hx. apply Hx, existsb_exists.
    exists flag. split; [by apply list_elem_of_In|by apply bool_decide_eq_true]. }
  by destruct Hproxy; split_and!.
Qed.

(** The request that the Runner makes of an execution. *)
Definition prepare_request (root : string) (req : RunnerExecRequest) : SandboxPrepareRequest :=
  mkSandboxPrepareRequest SANDBOX_HELPER_PROTOCOL root root
    (bool_decide (xp_workspace_profile (xr_policy req) = WorkspaceWrite))
    (sandbox_network (xp_network (xr_policy req))) (xr_argv req).

(** What a launch in the sandbox rests on. *)
Lemma exec_launch_Ok helper communicate root req launch :
  launches_as true helper communicate root req = Ok launch ->
  exists program output plan, helper = Some program /\
    communicate (to_json (prepare_request root req)) = Ok output /\
    read_response (po_stdout output) = Some (Prepared plan) /\ po_success output = true /\ plan <> "" /\
    launch = mkExecLaunch program ["run"; "--plan"; plan] true (Some plan).
Proof.
  unfold exec_launch, prepare_run. destruct helper as [helper|]; [|done]. cbn [negb mbind result_bind ok_or].
  destruct (bool_decide (_ \/ _)); [done|]. unfold utf8_path. destruct (is_utf8 _); [|done].
  cbn [mbind result_bind]. fold (prepare_request root req).
  destruct (communicate _) as [output|]; [|done]. cbn [mbind result_bind]. unfold prepare_answered.
  destruct (read_response _) as [[plan|e]|] eqn:Hr; [|done..]. destruct (po_success output) eqn:Hs; [|done].
  case_bool_decide; [done|]. cbn. intros [= <-]. by exists helper, output, plan.
Qed.

(** C15: A sandboxed command runs as its policy says. When the Runner found the sandbox to work,
    what it launches is the helper with the plan that the helper prepared, never the command itself.
    Running that plan runs what Codex makes of the command and of a profile under which a read-only
    workspace is written nowhere, a writable one is written nowhere else, and nothing outside the
    workspace, the helper and the system's minimum is read; through the managed proxy if the policy
    enables the network, and without it if not; and without the flags that would weaken the sandbox.
    The plan is gone once it is run. *)
Theorem sandboxed_commands_run_as_their_policy_says io io' d dir helper root req launch success stdout
    stderr d' :
  (forall r, read_response (emit r) = Some r) ->
  pi_dir io = Ok dir -> made_for_plan d dir -> pi_read io' = None ->
  components (path_text (plan_in dir)) = plan_in dir ->
  prepares_plan io (Ok helper) (Ok (to_json (prepare_request root req))) d = (stdout, success, d') ->
  launches_as true (Some helper) (fun _ => Ok (mkPrepareOutput success stdout stderr)) root req = Ok launch ->
  exists plan profile cwd argv,
    launch = mkExecLaunch helper ["run"; "--plan"; plan] true (Some plan) /\
    confined_as root helper (xr_policy req) profile /\
    absolute_dir canonicalize root = Ok cwd /\
    codex_args (xr_argv req) cwd profile cwd
      (bool_decide (xp_network (xr_policy req) = NetEnabled)) = Some argv /\
    Forall (fun flag => flag ∉ argv) FORBIDDEN_FLAGS /\
    runs io' ["--plan"; plan] d' =
      (match xp_network (xr_policy req) with
       | NetEnabled => RunProxied argv
       | NetRestricted => RunExec argv
       end, d).
Proof.
  intros Hresp Hdir Hm Hread Htext Hprep Hlaunch.
  apply exec_launch_Ok in Hlaunch as (program & output & plan & [= <-] & [= <-] & Hplan & Hsuccess & Hne & ->).
  cbn [po_stdout po_success] in Hplan, Hsuccess. unfold prepare_main, read_request in Hprep. rewrite of_to_json in Hprep.
  unfold prepare_plan in Hprep.
  destruct (linux_sandbox_args _ _ _ _ _ _) as [argv|e] eqn:Hargs; [|congruence].
  destruct (write_argv eexist io argv d) as [[path|e] d1] eqn:Hw; [|congruence].
  injection Hprep as <- _ <-. rewrite Hresp in Hplan. injection Hplan as <-.
  apply write_argv_Ok in Hw as (Hargv & dir' & Hdir' & -> & ->);
    [|by intros dir' [= <-]%(eq_trans (eq_sym Hdir))].
  assert (dir' = dir) as -> by congruence. clear Hdir'.
  apply linux_sandbox_args_Ok in Hargs as (profile & cwd & cwd' & Hprofile & Hcwd & Hcwd' & Hcodex & Hflags & Hproxy).
  cbn in Hcwd, Hcwd', Hcodex, Hproxy. assert (cwd' = cwd) as -> by congruence.
  set (plan := path_text (plan_in dir)) in *.
  exists plan, profile, cwd, argv.
  assert (Henabled : bool_decide (sandbox_network (xp_network (xr_policy req)) = SnEnabled) =
                     bool_decide (xp_network (xr_policy req) = NetEnabled)).
  { by destruct (xp_network (xr_policy req)). }
  split_and!; [done|by eapply permission_profile_confined|done|by rewrite <- Henabled|done|].
  assert (Habs : is_absolute plan = true).
  { destruct Hm as [[names ->] _ _ _]. revert Htext. unfold components, is_absolute.
    destruct (has_root plan) eqn:Hroot; [done|]. destruct (segments plan) as [|x l]; [done|].
    unfold plan_in. cbn [app]. destruct (bool_decide (x = ".")); [done|]. intros H0. exfalso.
    assert (Hin : RootDir ∈ omap component (x :: l)) by (rewrite H0; by left).
    apply list_elem_of_omap in Hin as (y & _ & Hy). revert Hy. unfold component. by repeat case_bool_decide. }
  unfold run_plan, parse_plan_flag. rewrite bool_decide_eq_true_2 by done.
  rewrite (bool_decide_eq_false_2 (plan = "")) by done. cbn [andb negb].
  rewrite (load_written _ _ _ _ io' dir argv d plan) by done. f_equal.
  destruct (xp_network (xr_policy req)); cbn in Hproxy.
  - by rewrite bool_decide_eq_false_2 by by intros ?%Hproxy.
  - by rewrite bool_decide_eq_true_2 by by apply Hproxy.
Qed.

(** A Runner that found no sandbox runs the command as it is, and only with the network that it has
    anyway; one that found it never does. *)
Theorem launches_never_fall_back probed helper communicate root req launch :
  launches_as probed helper communicate root req = Ok launch ->
  el_sandboxed launch = probed /\
  (probed = false -> xp_network (xr_policy req) = NetRestricted /\
     el_program launch = default "" (head (xr_argv req)) /\ el_args launch = tail (xr_argv req)) /\
  (probed = true -> Some (el_program launch) = helper /\
     exists plan, el_args launch = ["run"; "--plan"; plan] /\ el_plan_path launch = Some plan).
Proof.
  destruct probed.
  - intros (program & output & plan & -> & _ & _ & _ & _ & ->)%exec_launch_Ok. cbn.
    split_and!; [done..|]. intros _. eauto.
  - unfold exec_launch. cbn [negb]. case_bool_decide as Hn; [done|]. intros [= <-]. cbn.
    split_and!; [done| |done]. intros _.
    split_and!; [|done..]. by destruct (xp_network (xr_policy req)).
Qed.
End sandboxed.

(** * A concrete helper *)

#[export] Instance SandboxNetwork_countable : Countable SandboxNetwork.
Proof.
  refine (inj_countable' (fun n => bool_decide (n = SnEnabled))
            (fun b : bool => if b then SnEnabled else SnRestricted) _).
  by intros [].
Defined.

#[export] Instance SandboxPrepareRequest_eq_dec : EqDecision SandboxPrepareRequest.
Proof. solve_decision. Defined.
#[export] Instance SandboxPrepareRequest_countable : Countable SandboxPrepareRequest.
Proof.
  refine (inj_countable'
    (fun r => (sp_protocol r, sp_workspace_root r, sp_command_cwd r, sp_writable_workspace r,
               sp_network r, sp_argv r))
    (fun '(p, w, c, b, n, a) => mkSandboxPrepareRequest p w c b n a) _).
  by intros [].
Defined.

#[export] Instance SandboxPrepareResponse_eq_dec : EqDecision SandboxPrepareResponse.
Proof. solve_decision. Defined.
#[export] Instance SandboxPrepareResponse_countable : Countable SandboxPrepareResponse.
Proof.
  refine (inj_countable'
    (fun r => match r with Prepared p => inl p | PrepareError m => inr m end)
    (fun s => match s with inl p => Prepared p | inr m => PrepareError m end) _).
  by intros [].
Defined.

#[export] Instance OpaquePlan_eq_dec : EqDecision OpaquePlan.
Proof. solve_decision. Defined.
#[export] Instance OpaquePlan_countable : Countable OpaquePlan.
Proof.
  refine (inj_countable' (fun p => (op_protocol p, op_argv p)) (fun '(p, a) => mkOpaquePlan p a) _).
  by intros [].
Defined.

#[export] Instance request_json : Json SandboxPrepareRequest := countable_json.
#[export] Instance response_json : Json SandboxPrepareResponse := countable_json.
#[export] Instance plan_json : Json OpaquePlan := countable_json.

(** [serde_json::from_slice] passes over white space at the end. *)
Definition read_line (s : string) : option SandboxPrepareResponse := of_json (trim s).

Lemma read_emitted r : read_line (emit r) = Some r.
Proof.
  unfold read_line, emit. rewrite trim_line; [apply of_to_json| |apply to_json_nonempty].
  cbn. generalize (encode r). intros p. induction p as [p IH|p IH|]; cbn; by repeat constructor.
Qed.

(** A Codex that makes one argument of the network and one of each directory. *)
Definition plain_args (argv : list string) (cwd : string) (_ : Confinement (Uri := string))
    (policy_cwd : string) (network : bool) : option (list string) :=
  Some (["--sandbox-policy-cwd"; policy_cwd; "--command-cwd"; cwd]
        ++ (if network then [PROXY_FLAG] else []) ++ "--" :: argv).

Definition same_path : string -> option string := Some.
Definition as_uri (path : string) : result string string := Ok path.
Definition join_uri (uri name : string) : option string := Some (uri +:+ "/" +:+ name).
Definition no_json (s : string) : string := "expected value".

Definition plan_tmp : Path := components "/tmp/codespace-linux-sandbox-a1B2c3".
Definition plan_io : PlanIo := mkPlanIo (Ok plan_tmp) None None None.

Lemma made_in_tmp : made_for_plan ∅ plan_tmp.
Proof.
  split; [by eexists|by eexists|done|apply map_Forall_empty].
Qed.

Definition a_command (network : NetworkAxis) (profile : Profile) : RunnerExecRequest :=
  mkRunnerExecRequest ["ls"; "-l"] "p1" WorkspaceRoot (mkRunnerExecEnv true ∅) 1000 1000 false
    (mkRunnerExecPolicy profile network).

Definition concrete_prepare (stdin : string) : string * bool * PlanDisk :=
  prepare_main same_path as_uri join_uri plain_args "File exists" no_json plan_io (Ok "/opt/helper")
    (Ok stdin) ∅.

Definition concrete_launch (req : RunnerExecRequest) : res ExecLaunch :=
  exec_launch no_json read_line true (Some "/opt/helper")
    (fun stdin => let '(out, success, _) := concrete_prepare stdin in
                  Ok (mkPrepareOutput success out "")) "/srv/ws" req.

Definition concrete_run (req : RunnerExecRequest) : Ran * PlanDisk :=
  run_plan "No such file" "Too many links" "Is a directory" no_json plan_io
    ["--plan"; path_text (plan_in plan_tmp)]
    (concrete_prepare (to_json (prepare_request "/srv/ws" req))).2.

Abbreviation concrete_load := (load_and_unlink "No such file" "Too many links" "Is a directory" no_json).

Lemma plans_are_taken_once_witness :
  let argv := ["--"; "ls"; ""] in
  let path := path_text (plan_in plan_tmp) in
  fst (write_argv "File exists" plan_io argv ∅) = Ok (plan_in plan_tmp) /\
  match write_argv "File exists" plan_io argv ∅ with
  | (Ok p, d1) => p = plan_in plan_tmp /\ concrete_load plan_io path d1 = (Ok argv, ∅) /\
      concrete_load plan_io path ∅ = (Err "failed to open sandbox plan: No such file", ∅)
  | (Err _, d1) => d1 = ∅
  end.
Proof.
  split; [by vm_compute|].
  exact (plans_are_taken_once "File exists" "No such file" "Too many links" "Is a directory" no_json
           plan_io plan_io ["--"; "ls"; ""] ∅ plan_tmp (path_text (plan_in plan_tmp))
           eq_refl made_in_tmp eq_refl eq_refl eq_refl).
Defined.

Definition the_launch : ExecLaunch :=
  let plan := "/tmp/codespace-linux-sandbox-a1B2c3/plan" in
  mkExecLaunch "/opt/helper" ["run"; "--plan"; plan] true (Some plan).

Lemma concrete_launched : concrete_launch (a_command NetRestricted ReadOnly) = Ok the_launch.
Proof. by vm_compute. Qed.

Definition concrete_prepared : string * bool * PlanDisk :=
  concrete_prepare (to_json (prepare_request "/srv/ws" (a_command NetRestricted ReadOnly))).

Lemma as_prepared {A B C} (x : A * B * C) : x = (x.1.1, x.1.2, x.2).
Proof. by destruct x as [[a b] c]. Qed.

Lemma as_launched :
  exec_launch no_json read_line true (Some "/opt/helper")
    (fun _ => Ok (mkPrepareOutput concrete_prepared.1.2 concrete_prepared.1.1 "")) "/srv/ws"
    (a_command NetRestricted ReadOnly) = Ok the_launch.
Proof. by vm_compute. Qed.

Lemma sandboxed_commands_run_as_their_policy_says_witness :
  let req := a_command NetRestricted ReadOnly in
  concrete_launch req = Ok the_launch /\
  exists plan profile cwd argv,
    the_launch = mkExecLaunch "/opt/helper" ["run"; "--plan"; plan] true (Some plan) /\
    confined_as same_path as_uri join_uri "/srv/ws" "/opt/helper" (xr_policy req) profile /\
    absolute_dir same_path "/srv/ws" = Ok cwd /\
    plain_args (xr_argv req) cwd profile cwd false = Some argv /\
    Forall (fun flag => flag ∉ argv) FORBIDDEN_FLAGS /\
    run_plan "No such file" "Too many links" "Is a directory" no_json plan_io ["--plan"; plan]
      concrete_prepared.2 = (RunExec argv, ∅).
Proof.
  split; [exact concrete_launched|].
  exact (sandboxed_commands_run_as_their_policy_says same_path as_uri join_uri plain_args
    "File exists" "No such file" "Too many links" "Is a directory" no_json read_line
    plan_io plan_io ∅ plan_tmp "/opt/helper" "/srv/ws" (a_command NetRestricted ReadOnly) the_launch
    concrete_prepared.1.2 concrete_prepared.1.1 "" concrete_prepared.2
    read_emitted eq_refl made_in_tmp eq_refl eq_refl (as_prepared concrete_prepared) as_launched).
Defined.

(** A command that itself has an argument of that name is refused, although Codex's arguments are
    as they should be. *)
Lemma flags_of_the_command_are_refused :
  linux_sandbox_args same_path as_uri join_uri plain_args
    (mkSandboxPrepareRequest SANDBOX_HELPER_PROTOCOL "/srv/ws" "/srv/ws" true SnRestricted
       ["grep"; "--use-legacy-landlock"; "notes.txt"]) "/opt/helper"
  = Err "linux sandbox argv included a forbidden helper flag".
Proof. by vm_compute. Qed.
