(* ===== verification/Preparing.v ===== *)
(** How the Runner speaks to the sandbox helper's [prepare] ([communicate_prepare] of
    [runner/linux_sandbox.rs]): a child with three pipes, written and read without blocking, until
    it has exited and its output has ended, or until a bound. What the child and its pipes answer is
    asked of the host, one call at a time; the state is the clock. *)
From S2P Require Import Prelude Domain Files Threads Courses Writer Sandbox.

(** * The child and its pipes *)

Inductive Pipe := PipeStdin | PipeStdout | PipeStderr.

Inductive Written := WroteBytes (n : nat) | WriteBlocked | WriteFailed (e : string).
Inductive ReadBack := ReadSome (bytes : list ascii) | ReadBlocked | ReadFailed (e : string).
Inductive TryWaited := WaitedExit (success : bool) | WaitedRunning | WaitedFailed (e : string).

(** [PqTryWait], [PqKill] and [PqWait] are [Child::try_wait], [kill] and [wait]. A read takes at most
    4096 bytes; one of none is the end. *)
Inductive PrepareQuery :=
  | PqNonblocking (pipe : Pipe)
  | PqWrite (bytes : list ascii)
  | PqRead (pipe : Pipe)
  | PqTryWait
  | PqKill
  | PqWait.

Definition PrepareReply (q : PrepareQuery) : Type :=
  match q with
  | PqNonblocking _ => option string
  | PqWrite _ => Written
  | PqRead _ => ReadBack
  | PqTryWait => TryWaited
  | PqKill | PqWait => unit
  end.

Abbreviation speaking := (call Z PrepareQuery PrepareReply).
Abbreviation query q := (ask (State := Z) (Answer := PrepareReply) q).
Abbreviation says a := (@Return Z PrepareQuery PrepareReply _ a).

(** Times are in microseconds. *)
Definition PREPARE_TIMEOUT : Z := 5 * 10^6.
Definition PREPARE_IO_LIMIT : nat := 1024 * 1024.
Definition PREPARE_POLL : Z := 5000.

(** [reap]. *)
Definition reap : speaking unit := _ ← query PqKill; query PqWait.

(** The variables of the loop; a pipe is open until it is dropped. *)
Record Talk := mkTalk {
  tk_stdin : bool;
  tk_stdout : bool;
  tk_stderr : bool;
  tk_written : nat;
  tk_out : list ascii;
  tk_err : list ascii;
  tk_stdout_eof : bool;
  tk_stderr_eof : bool
}.

Definition talk_start : Talk := mkTalk true true true 0 [] [] false false.

Section talking.
Context (payload : list ascii) (timeout : Z) (io_limit : nat).

(** [write_nonblocking]: whether all of it was written. *)
Definition write_nonblocking (written : nat) : speaking (result string (bool * nat)) :=
  if bool_decide (length payload <= written) then says (Ok (true, written))
  else
    wrote ← query (PqWrite (drop written payload));
    says (match wrote with
          | WroteBytes 0 => Err "prepare stdin closed before request was written"
          | WroteBytes n => Ok (bool_decide (length payload <= written + n), written + n)
          | WriteBlocked => Ok (false, written)
          | WriteFailed e => Err e
          end).

(** [read_nonblocking]: whether it ended. *)
Definition read_nonblocking (pipe : Pipe) (buf : list ascii) : speaking (result string (bool * list ascii)) :=
  got ← query (PqRead pipe);
  says (match got with
        | ReadSome [] => Ok (true, buf)
        | ReadSome bytes =>
            if bool_decide (io_limit < length buf + length bytes)
            then Err "linux sandbox prepare output too large"
            else Ok (false, buf ++ bytes)
        | ReadBlocked => Ok (false, buf)
        | ReadFailed e => Err e
        end).

(** A failure, after which the child is reaped. *)
Definition reap_and_fail {A} (message : string) : speaking (option (res A)) :=
  _ ← reap; says (Some (Err (sandbox_spawn_failed message))).

(** One pass over the pipes that are open. *)
Definition write_some (t : Talk) : speaking (result string Talk) :=
  if tk_stdin t then
    wrote ← write_nonblocking (tk_written t);
    says (match (wrote : result string (bool * nat)) with
          | Ok (done, n) =>
              Ok (mkTalk (negb done) (tk_stdout t) (tk_stderr t) n (tk_out t) (tk_err t)
                    (tk_stdout_eof t) (tk_stderr_eof t))
          | Err e => Err ("failed to write linux sandbox prepare request: " +:+ e)
          end)
  else says (Ok t).

Definition read_out (t : Talk) : speaking (result string Talk) :=
  if tk_stdout t then
    got ← read_nonblocking PipeStdout (tk_out t);
    says (match (got : result string (bool * list ascii)) with
          | Ok (ended, out) =>
              Ok (mkTalk (tk_stdin t) (negb ended) (tk_stderr t) (tk_written t) out (tk_err t)
                    (ended || tk_stdout_eof t) (tk_stderr_eof t))
          | Err e => Err e
          end)
  else says (Ok t).

Definition read_err (t : Talk) : speaking (result string Talk) :=
  if tk_stderr t then
    got ← read_nonblocking PipeStderr (tk_err t);
    says (match (got : result string (bool * list ascii)) with
          | Ok (ended, err) =>
              Ok (mkTalk (tk_stdin t) (tk_stdout t) (negb ended) (tk_written t) (tk_out t) err
                    (tk_stdout_eof t) (ended || tk_stderr_eof t))
          | Err e => Err e
          end)
  else says (Ok t).

Definition nap (us : Z) : speaking unit :=
  due ← look (fun now => now + us)%Z;
  await (fun now => if bool_decide (due <= now)%Z then Some (tt, now) else None).

(** The loop, with a fuel that it never uses up. *)
Fixpoint communicate_by (fuel : nat) (start : Z) (t : Talk) : speaking (option (res PrepareOutput)) :=
  match fuel with
  | 0 => says None
  | S fuel =>
      elapsed ← look (fun now => now - start)%Z;
      if bool_decide (timeout < elapsed)%Z then reap_and_fail "linux sandbox prepare timed out"
      else
        wrote ← write_some t;
        match (wrote : result string Talk) with
        | Err e => reap_and_fail e
        | Ok t =>
            out ← read_out t;
            match (out : result string Talk) with
            | Err e => reap_and_fail e
            | Ok t =>
                err ← read_err t;
                match (err : result string Talk) with
                | Err e => reap_and_fail e
                | Ok t =>
                    waited ← query PqTryWait;
                    match (waited : TryWaited) with
                    | WaitedFailed e => reap_and_fail e
                    | WaitedExit success =>
                        if tk_stdout_eof t && tk_stderr_eof t
                        then says (Some (Ok (mkPrepareOutput success (of_text (tk_out t)) (of_text (tk_err t)))))
                        else _ ← nap PREPARE_POLL; communicate_by fuel start t
                    | WaitedRunning => _ ← nap PREPARE_POLL; communicate_by fuel start t
                    end
                end
            end
        end
  end.

(** As many polls as fit into the bound, and two more. *)
Definition PREPARE_POLLS : nat := Z.to_nat (timeout / PREPARE_POLL) + 2.

Fixpoint set_nonblocking (pipes : list (Pipe * string)) : speaking (option string) :=
  match pipes with
  | [] => says None
  | (pipe, name) :: pipes =>
      failed ← query (PqNonblocking pipe);
      match (failed : option string) with
      | Some e => _ ← reap; says (Some ("failed to set prepare " +:+ name +:+ " nonblocking: " +:+ e))
      | None => set_nonblocking pipes
      end
  end.

Definition communicate_prepare : speaking (option (res PrepareOutput)) :=
  failed ← set_nonblocking [(PipeStdin, "stdin"); (PipeStdout, "stdout"); (PipeStderr, "stderr")];
  match (failed : option string) with
  | Some e => says (Some (Err (sandbox_spawn_failed e)))
  | None => start ← look id; communicate_by PREPARE_POLLS start talk_start
  end.
End talking.

(** * What it keeps to

    What the exchanges so far showed: how much was written, what was read, which pipes ended, how
    the child exited, and whether it was killed and waited for. *)
Record Heard := mkHeard {
  hd_written : nat;
  hd_out : list ascii;
  hd_err : list ascii;
  hd_out_ended : bool;
  hd_err_ended : bool;
  hd_exit : option bool;
  hd_killed : bool;
  hd_reaped : bool
}.

Definition heard_nothing : Heard := mkHeard 0 [] [] false false None false false.

Definition heard (h : Heard) (q : PrepareQuery) : PrepareReply q -> Heard :=
  match q with
  | PqNonblocking _ => fun _ => h
  | PqWrite _ => fun a =>
      mkHeard (match a with WroteBytes n => hd_written h + n | _ => hd_written h end) (hd_out h)
        (hd_err h) (hd_out_ended h) (hd_err_ended h) (hd_exit h) (hd_killed h) (hd_reaped h)
  | PqRead PipeStdout => fun a =>
      mkHeard (hd_written h) (match a with ReadSome bytes => hd_out h ++ bytes | _ => hd_out h end)
        (hd_err h) (match a with ReadSome [] => true | _ => hd_out_ended h end) (hd_err_ended h)
        (hd_exit h) (hd_killed h) (hd_reaped h)
  | PqRead PipeStderr => fun a =>
      mkHeard (hd_written h) (hd_out h)
        (match a with ReadSome bytes => hd_err h ++ bytes | _ => hd_err h end) (hd_out_ended h)
        (match a with ReadSome [] => true | _ => hd_err_ended h end) (hd_exit h) (hd_killed h)
        (hd_reaped h)
  | PqRead PipeStdin => fun _ => h
  | PqTryWait => fun a =>
      mkHeard (hd_written h) (hd_out h) (hd_err h) (hd_out_ended h) (hd_err_ended h)
        (match a with WaitedExit success => Some success | _ => hd_exit h end) (hd_killed h) (hd_reaped h)
  | PqKill => fun _ =>
      mkHeard (hd_written h) (hd_out h) (hd_err h) (hd_out_ended h) (hd_err_ended h) (hd_exit h) true
        (hd_reaped h)
  | PqWait => fun _ =>
      mkHeard (hd_written h) (hd_out h) (hd_err h) (hd_out_ended h) (hd_err_ended h) (hd_exit h)
        (hd_killed h) true
  end.

Section promises.
Context (payload : list ascii) (timeout : Z) (io_limit : nat).

(** The request is written from where it was left, each pipe is read until it ended, and the child
    is killed once, and then waited for. *)
Definition in_turn (h : Heard) (_ : Z) (q : PrepareQuery) : Prop :=
  hd_reaped h = false /\
  match q with
  | PqNonblocking _ => hd_killed h = false
  | PqWrite bytes => hd_killed h = false /\ hd_written h < length payload /\ bytes = drop (hd_written h) payload
  | PqRead PipeStdin => False
  | PqRead PipeStdout => hd_killed h = false /\ hd_out_ended h = false
  | PqRead PipeStderr => hd_killed h = false /\ hd_err_ended h = false
  | PqTryWait | PqKill => hd_killed h = false
  | PqWait => hd_killed h = true
  end.

(** What its answer rests on: a helper that is gone, and its whole output, within the limit. *)
Definition told (r : option (res PrepareOutput)) (h : Heard) : Prop :=
  match r with
  | None => False
  | Some (Ok output) =>
      hd_exit h = Some (po_success output) /\ hd_killed h = false /\
      hd_out_ended h = true /\ hd_err_ended h = true /\
      po_stdout output = of_text (hd_out h) /\ po_stderr output = of_text (hd_err h) /\
      length (hd_out h) <= io_limit /\ length (hd_err h) <= io_limit
  | Some (Err e) => code e = ProcessSpawnFailed /\ hd_reaped h = true
  end.

Abbreviation wpp Q c h now := (wp Z.le in_turn heard Q c h now).

Definition unreaped (h : Heard) : Prop := hd_killed h = false /\ hd_reaped h = false.

(** The variables of the loop are what the exchanges showed. *)
Record agrees (t : Talk) (h : Heard) : Prop := {
  ag_unreaped : unreaped h;
  ag_written : tk_written t = hd_written h;
  ag_out : tk_out t = hd_out h;
  ag_err : tk_err t = hd_err h;
  ag_stdout : tk_stdout t = negb (hd_out_ended h) /\ tk_stdout_eof t = hd_out_ended h;
  ag_stderr : tk_stderr t = negb (hd_err_ended h) /\ tk_stderr_eof t = hd_err_ended h;
  ag_limit : length (hd_out h) <= io_limit /\ length (hd_err h) <= io_limit
}.

Definition by_then (t : Z) (now : Z) : Prop := (t <= now)%Z.

Lemma by_then_stable t : stable Z.le (by_then t).
Proof. intros a b. unfold by_then. lia. Qed.

Lemma wp_query {B} (q : PrepareQuery) (Q : B -> Heard -> Z -> Prop) (k : PrepareReply q -> speaking B)
    t h now :
  by_then t now -> in_turn h now q ->
  (forall now a, by_then t now -> wpp Q (k a) (heard h q a) now) -> wpp Q (query q ≫= k) h now.
Proof.
  intros Hn Hq Hk. apply (wp_ask _ _ _ (by_then t)); [apply by_then_stable|done|done|].
  intros now' a. apply Hk.
Qed.

Lemma reap_and_fail_wp {A} message t h now :
  by_then t now -> unreaped h ->
  wpp (fun r h _ => match r with Some (Err e) => code e = ProcessSpawnFailed /\ hd_reaped h = true | _ => False end)
    (reap_and_fail (A := A) message) h now.
Proof.
  intros Hn [Hk Hr]. unfold reap_and_fail, reap. apply wp_assoc. apply (wp_query PqKill _ _ t); [done|by split|].
  intros now1 [] Hn1. apply (wp_query PqWait _ _ t); [done|by split|]. intros now2 [] Hn2. by split.
Qed.

(** One pass of a pipe: what was read or written is noted, or the pass failed. *)
Definition passed (t0 : Z) (r : result string Talk) (h : Heard) (now : Z) : Prop :=
  by_then t0 now /\ match r with Ok t => agrees t h | Err _ => unreaped h end.

Lemma write_some_wp t0 t h now :
  by_then t0 now -> agrees t h -> wpp (passed t0) (write_some payload t) h now.
Proof.
  intros Hn Ha. unfold write_some. destruct (tk_stdin t); [|by split].
  destruct Ha as [[Hk Hr] Hw Ho He Hso Hse Hl]. unfold write_nonblocking.
  case_bool_decide as Hlen; [by split|].
  apply wp_assoc. apply (wp_query (PqWrite _) _ _ t0); [done|split_and!; [done..|lia|by rewrite Hw]|].
  intros now1 [[|n]| |e] Hn1; cbn; (split; [done|]); [by split|..|by split].
  all: split; cbn; try done. by rewrite Hw.
Qed.

Lemma read_out_wp t0 t h now :
  by_then t0 now -> agrees t h -> wpp (passed t0) (read_out io_limit t) h now.
Proof.
  intros Hn Ha. unfold read_out. destruct (tk_stdout t) eqn:Hopen; [|by split].
  destruct t as [tin tout terr tw to te teo tee], h as [hw ho he heo hee hx hk hr].
  destruct Ha as [[Hk Hr] Hw Ho He [Hso Heo] [Hse Hee] [Hlo Hle]]. cbn in * |-. subst. cbn [tk_out tk_err].
  assert (heo = false) as -> by by destruct heo.
  unfold read_nonblocking. apply wp_assoc.
  apply (wp_query (PqRead PipeStdout) _ _ t0); [done|by split_and!|].
  intros now1 [[|a bytes]| |e] Hn1; cbn; [..|by split].
  - split; [done|]. rewrite app_nil_r. by split; cbn.
  - case_bool_decide as Hlim; cbn; (split; [done|]); [by split|].
    split; cbn; try done. rewrite length_app. cbn in *. lia.
  - split; [done|]. by split; cbn.
Qed.

Lemma read_err_wp t0 t h now :
  by_then t0 now -> agrees t h -> wpp (passed t0) (read_err io_limit t) h now.
Proof.
  intros Hn Ha. unfold read_err. destruct (tk_stderr t) eqn:Hopen; [|by split].
  destruct t as [tin tout terr tw to te teo tee], h as [hw ho he heo hee hx hk hr].
  destruct Ha as [[Hk Hr] Hw Ho He [Hso Heo] [Hse Hee] [Hlo Hle]]. cbn in * |-. subst. cbn [tk_out tk_err].
  assert (hee = false) as -> by by destruct hee.
  unfold read_nonblocking. apply wp_assoc.
  apply (wp_query (PqRead PipeStderr) _ _ t0); [done|by split_and!|].
  intros now1 [[|a bytes]| |e] Hn1; cbn; [..|by split].
  - split; [done|]. rewrite app_nil_r. by split; cbn.
  - case_bool_decide as Hlim; cbn; (split; [done|]); [by split|].
    split; cbn; try done. rewrite length_app. cbn in *. lia.
  - split; [done|]. by split; cbn.
Qed.

Lemma reaped_told message t h now :
  by_then t now -> unreaped h ->
  wpp (fun r h _ => told r h) (reap_and_fail (A := PrepareOutput) message) h now.
Proof.
  intros Hn Hu. eapply wp_mono, (reap_and_fail_wp message t); [|done..]. by intros [[]|] h' now'.
Qed.

Lemma communicate_by_wp fuel start t0 t h now :
  by_then t0 now -> agrees t h -> 0 < fuel ->
  (start + timeout < t0 + Z.of_nat (fuel - 1) * PREPARE_POLL)%Z ->
  wpp (fun r h _ => told r h) (communicate_by payload timeout io_limit fuel start t) h now.
Proof.
  revert t0 t h now. induction fuel as [|fuel IH]; intros t0 t h now Hn Ha Hf Hd; [lia|].
  cbn [communicate_by]. apply (wp_look _ _ _ (by_then t0)); [apply by_then_stable|done|]. intros now1 Hn1.
  case_bool_decide as Hout; [by apply (reaped_told _ t0), (ag_unreaped _ _ Ha)|].
  assert (Hfuel : fuel <> 0) by (intros ->; cbn in Hd; unfold by_then in Hn1; lia).
  eapply wp_then; [by apply (write_some_wp now1); [apply Z.le_refl|]|].
  intros [t1|e] h1 now2 [Hn2 H1]; [|by apply (reaped_told _ now1)].
  eapply wp_then; [by apply (read_out_wp now1)|].
  intros [t2|e] h2 now3 [Hn3 H2]; [|by apply (reaped_told _ now1)].
  eapply wp_then; [by apply (read_err_wp now1)|].
  intros [t3|e] h3 now4 [Hn4 H3]; [|by apply (reaped_told _ now1)].
  assert (Hnap : forall h now, by_then now1 now -> agrees t3 h ->
    wpp (fun r h _ => told r h)
      (_ ← nap PREPARE_POLL; communicate_by payload timeout io_limit fuel start t3) h now).
  { intros h' now' Hnow' Ha'. unfold nap. apply wp_assoc.
    apply (wp_look _ _ _ (by_then now1)); [apply by_then_stable|done|]. intros now5 Hn5.
    apply (wp_await _ _ _ (by_then now1)); [apply by_then_stable|done|]. intros now6 [] now7 Hn6 Hdue.
    case_bool_decide as Hle; [|done]. injection Hdue as <-.
    apply (IH (now1 + PREPARE_POLL)%Z); [unfold by_then in *; lia|done|lia|].
    unfold by_then, PREPARE_POLL in *. lia. }
  apply (wp_query PqTryWait _ _ now1); [done|by destruct (ag_unreaped _ _ H3)|].
  assert (Hagree : forall a, agrees t3 (heard h3 PqTryWait a)) by (by intros a; destruct H3).
  intros now5 [success| |e] Hn5.
  - destruct (tk_stdout_eof t3 && tk_stderr_eof t3) eqn:Hends; [|by apply Hnap].
    apply andb_true_iff in Hends as [Ho He].
    destruct H3 as [[Hk Hr] Hw Hto Hte [_ Hso] [_ Hse] [Hlo Hle]]. cbn.
    rewrite Hto, Hte. split_and!; (done || congruence).
  - by apply Hnap.
  - apply (reaped_told _ now1); [done|]. by destruct (ag_unreaped _ _ (Hagree (WaitedFailed e))).
Qed.

Lemma set_nonblocking_wp t0 pipes h now :
  by_then t0 now -> unreaped h ->
  wpp (fun r h' now => by_then t0 now /\
         match r with None => h' = h | Some _ => hd_reaped h' = true end)
    (set_nonblocking pipes) h now.
Proof.
  revert now. induction pipes as [|[pipe name] pipes IH]; intros now Hn Hu; [by split|]. cbn [set_nonblocking].
  apply (wp_query (PqNonblocking pipe) _ _ t0); [done|by destruct Hu|]. intros now1 [e|] Hn1; [|by apply IH].
  destruct Hu as [Hk Hr]. unfold reap. apply wp_assoc. apply (wp_query PqKill _ _ t0); [done|by split|].
  intros now2 [] Hn2. apply (wp_query PqWait _ _ t0); [done|by split|]. intros now3 [] Hn3. by split.
Qed.

Lemma communicate_prepare_wp now :
  wpp (fun r h _ => told r h) (communicate_prepare payload timeout io_limit) heard_nothing now.
Proof.
  unfold communicate_prepare. eapply wp_then; [by apply (set_nonblocking_wp now); [apply Z.le_refl|]|].
  intros [e|] h now1 [Hn1 Hh]; [by split|]. subst h.
  apply (wp_look _ _ _ (by_then now)); [apply by_then_stable|done|]. intros now2 Hn2. unfold id.
  apply (communicate_by_wp _ _ now2); [apply Z.le_refl|by split; cbn; try (split; cbn; lia)| |].
  - unfold PREPARE_POLLS. lia.
  - unfold PREPARE_POLLS, PREPARE_POLL. pose proof (Z.div_mod timeout 5000 ltac:(lia)).
    pose proof (Z.mod_pos_bound timeout 5000 ltac:(lia)). destruct (decide (0 <= timeout / 5000)%Z); lia.
Qed.

(** C27: Speaking to the helper comes to an end and leaves no helper behind. Whatever the child and its
    pipes do, the request is written from where it was left and each pipe is read to its end, no
    pipe is touched once the child was killed, and it is killed and waited for at most once. What is
    answered is all that it printed, within the limit, of a child that exited; or it failed, and the
    child was killed and waited for. *)
Theorem prepare_leaves_no_helper now log r now' :
  course Z.le (communicate_prepare payload timeout io_limit) now log r now' ->
  conforms in_turn heard heard_nothing log /\ told r (after heard heard_nothing log).
Proof. intros Hc. exact (wp_sound _ _ _ _ _ _ _ _ _ _ (communicate_prepare_wp now) Hc). Qed.
End promises.

(** * Probing the helper *)

Definition PROBE_TIMEOUT : Z := 5 * 10^6.
Definition PROBE_POLL : Z := 20000.

(** [wait_with_timeout], of the Runner's probe and of the helper's own, with a fuel that it never
    uses up: how the child exited, if it did in time. *)
Fixpoint wait_by (fuel : nat) (start timeout : Z) : speaking (option (option bool)) :=
  match fuel with
  | 0 => says None
  | S fuel =>
      waited ← query PqTryWait;
      match (waited : TryWaited) with
      | WaitedExit success => says (Some (Some success))
      | WaitedFailed _ => _ ← query PqKill; says (Some None)
      | WaitedRunning =>
          elapsed ← look (fun now => now - start)%Z;
          if bool_decide (timeout < elapsed)%Z then _ ← reap; says (Some None)
          else _ ← nap PROBE_POLL; wait_by fuel start timeout
      end
  end.

Definition wait_with_timeout (timeout : Z) : speaking (option (option bool)) :=
  start ← look id; wait_by (Z.to_nat (timeout / PROBE_POLL) + 2) start timeout.

(** [probe_helper]: [spawned] is whether the helper could be spawned. *)
Definition probe_helper (spawned : bool) : speaking (option bool) :=
  if spawned then
    status ← wait_with_timeout PROBE_TIMEOUT;
    says ((fun s => bool_decide (s = Some true)) <$> (status : option (option bool)))
  else says (Some false).

Abbreviation ends_in Q c now :=
  (wp Z.le (fun (_ : unit) _ _ => True) (fun m _ _ => m) (fun r _ _ => Q r) c tt now).

Lemma wait_by_ends fuel start timeout t0 now :
  by_then t0 now -> 0 < fuel -> (start + timeout < t0 + Z.of_nat (fuel - 1) * PROBE_POLL)%Z ->
  ends_in (fun r => r <> None) (wait_by fuel start timeout) now.
Proof.
  revert t0 now. induction fuel as [|fuel IH]; intros t0 now Hn Hf Hd; [lia|]. cbn [wait_by].
  intros now1 Hle1. split; [done|]. intros [success| |e]; [done| |by intros now2 Hle2; split; [|intros []]].
  assert (Hn1 : by_then t0 now1) by (unfold by_then in *; lia).
  apply (wp_look _ _ _ (by_then t0)); [apply by_then_stable|done|]. intros now2 Hn2.
  case_bool_decide as Hout; [by intros now3 _; split; [|intros [] now4 _; split; [|intros []]]|].
  assert (Hfuel : fuel <> 0) by (intros ->; cbn in Hd; unfold by_then in Hn2; lia).
  unfold nap. apply wp_assoc.
  apply (wp_look _ _ _ (by_then now2)); [apply by_then_stable|apply Z.le_refl|]. intros now3 Hn3.
  apply (wp_await _ _ _ (by_then now2)); [apply by_then_stable|done|]. intros now4 [] now5 Hn4 Hdue.
  case_bool_decide as Hle; [|done]. injection Hdue as <-.
  apply (IH (now2 + PROBE_POLL)%Z); [unfold by_then in *; lia|lia|].
  unfold by_then, PROBE_POLL in *. lia.
Qed.

(** Waiting for a probe comes to an end. *)
Lemma wait_with_timeout_ends timeout now log r now' :
  course Z.le (wait_with_timeout timeout) now log r now' -> r <> None.
Proof.
  intros Hc. assert (Hwp : ends_in (fun r => r <> None) (wait_with_timeout timeout) now).
  { unfold wait_with_timeout. apply (wp_look _ _ _ (by_then now)); [apply by_then_stable|apply Z.le_refl|].
    intros start Hs. unfold id. apply (wait_by_ends _ _ _ start); [apply Z.le_refl|lia|].
    unfold PROBE_POLL. pose proof (Z.div_mod timeout 20000 ltac:(lia)).
    pose proof (Z.mod_pos_bound timeout 20000 ltac:(lia)). destruct (decide (0 <= timeout / 20000)%Z); lia. }
  exact (proj2 (wp_sound _ _ _ _ _ _ _ _ _ _ Hwp Hc)).
Qed.

(** * The managed proxy ([linux-sandbox/proxy.rs]) *)

Abbreviation Env := (gmap string string).

(** [PxSpawn]: Codex's arguments and the environment. [PxWait]: the child's exit code, if it has
    one. *)
Inductive ProxyQuery := PxRuntime | PxStart | PxSpawn (argv : list string) (env : Env) | PxWait | PxShutdown.

Definition ProxyReply (q : ProxyQuery) : Type :=
  match q with
  | PxRuntime | PxStart | PxSpawn _ _ => option string
  | PxWait => result string (option Z)
  | PxShutdown => unit
  end.

Abbreviation proxying := (call unit ProxyQuery ProxyReply).
Abbreviation consult q := (ask (State := unit) (Answer := ProxyReply) q).
Abbreviation exits code := (@Return unit ProxyQuery ProxyReply Z code%Z).

Section proxy.
(** The keys of the proxy's library, and the variables that the proxy asks for. *)
Context (no_proxy_env_keys : list string) (apply_to_env : Env -> Env).

Definition route_loopback_through_proxy (env : Env) : Env :=
  foldl (fun env key => <[key := ""]> env) env no_proxy_env_keys.

(** [run_codex_with_proxy]: the code that the process exits with. *)
Definition run_codex_with_proxy (argv : list string) (vars : Env) : proxying Z :=
  runtime ← consult PxRuntime;
  match (runtime : option string) with
  | Some _ => exits 1
  | None =>
      started ← consult PxStart;
      match (started : option string) with
      | Some _ => exits 1
      | None =>
          spawned ← consult (PxSpawn argv (route_loopback_through_proxy (apply_to_env vars)));
          match (spawned : option string) with
          | Some _ => _ ← consult PxShutdown; exits 1
          | None =>
              status ← consult PxWait;
              _ ← consult PxShutdown;
              exits (match (status : result string (option Z)) with
                     | Ok code => default 1%Z code
                     | Err _ => 1
                     end)
          end
      end
  end.

Lemma route_loopback_lookup env key :
  route_loopback_through_proxy env !! key = if bool_decide (key ∈ no_proxy_env_keys) then Some "" else env !! key.
Proof.
  unfold route_loopback_through_proxy. revert env. induction no_proxy_env_keys as [|k keys IH]; intros env.
  - by rewrite bool_decide_eq_false_2 by apply not_elem_of_nil.
  - cbn. rewrite IH. destruct (decide (key = k)) as [->|Hne].
    + rewrite lookup_insert_eq, (bool_decide_eq_true_2 (k ∈ k :: keys)) by by left. by case_bool_decide.
    + rewrite lookup_insert_ne by done. by rewrite (bool_decide_ext (key ∈ k :: keys) (key ∈ keys)) by set_solver.
Qed.

(** What the proxy's exchanges showed: it was started, the command was spawned, it was waited for,
    the proxy was shut down. *)
Record ProxyRun := mkProxyRun { xr_started : bool; xr_spawned : bool; xr_waited : bool; xr_shut : bool }.

Definition proxied (m : ProxyRun) (q : ProxyQuery) : ProxyReply q -> ProxyRun :=
  match q with
  | PxRuntime => fun _ => m
  | PxStart => fun a => mkProxyRun (bool_decide (a = None)) (xr_spawned m) (xr_waited m) (xr_shut m)
  | PxSpawn _ _ => fun a => mkProxyRun (xr_started m) (bool_decide (a = None)) (xr_waited m) (xr_shut m)
  | PxWait => fun _ => mkProxyRun (xr_started m) (xr_spawned m) true (xr_shut m)
  | PxShutdown => fun _ => mkProxyRun (xr_started m) (xr_spawned m) (xr_waited m) true
  end.

(** The command runs only while the proxy does, and its loopback goes through the proxy as well. *)
Definition through_proxy (argv : list string) (m : ProxyRun) (_ : unit) (q : ProxyQuery) : Prop :=
  xr_shut m = false /\
  match q with
  | PxRuntime | PxStart => xr_started m = false /\ xr_spawned m = false
  | PxSpawn argv' env => xr_started m = true /\ argv' = argv /\
      forall key, key ∈ no_proxy_env_keys -> env !! key = Some ""
  | PxWait => xr_spawned m = true
  | PxShutdown => xr_started m = true /\ (xr_spawned m = true -> xr_waited m = true)
  end.

(** A command with the network is run behind the proxy: it is spawned once the proxy runs, with no
    destination exempt from it, the proxy is shut down only after the command was waited for, and
    nothing of the proxy is left when the process exits. *)
Theorem proxied_commands_keep_to_the_proxy argv vars log code :
  course (fun _ _ => True) (run_codex_with_proxy argv vars) tt log code tt ->
  let m := after proxied (mkProxyRun false false false false) log in
  conforms (through_proxy argv) proxied (mkProxyRun false false false false) log /\
  xr_shut m = xr_started m /\ xr_waited m = xr_spawned m.
Proof.
  intros Hc m.
  enough (Hwp : wp (fun _ _ => True) (through_proxy argv) proxied
    (fun (_ : Z) m (_ : unit) => xr_shut m = xr_started m /\ xr_waited m = xr_spawned m)
    (run_codex_with_proxy argv vars) (mkProxyRun false false false false) tt)
    by exact (wp_sound _ _ _ _ _ _ _ _ _ _ Hwp Hc).
  intros [] _. split; [done|]. intros [e|]; [done|]. intros [] _. split; [done|]. intros [e|]; [done|].
  intros [] _. split.
  - split_and!; [done..|]. intros key Hkey. by rewrite route_loopback_lookup, bool_decide_eq_true_2.
  - intros [e|]; intros [] _; (split; [done|]); [done|]. intros status [] _. by split.
Qed.
End proxy.

(** * A helper that answers *)

(** It takes the request in two pieces, prints its answer, and exits at the third look. *)
Definition obliging (line : list ascii) (n : nat) (q : PrepareQuery) : PrepareReply q :=
  match q with
  | PqNonblocking _ => None
  | PqWrite bytes => WroteBytes (Nat.min 4 (length bytes))
  | PqRead PipeStdout => if bool_decide (n < 8) then ReadSome line else ReadSome []
  | PqRead _ => ReadSome []
  | PqTryWait => if bool_decide (n < 10) then WaitedRunning else WaitedExit true
  | PqKill | PqWait => tt
  end.

Definition a_talk :=
  run_call (Z.add 5000) (obliging (text "{}")) 0
    (communicate_prepare (text "request") PREPARE_TIMEOUT PREPARE_IO_LIMIT) 0%Z.

Lemma talk_answer :
  match a_talk with
  | Some (_, r, _) => r = Some (Ok (mkPrepareOutput true "{}" ""))
  | None => False
  end.
Proof. by vm_compute. Qed.

Lemma prepare_leaves_no_helper_witness :
  exists log now',
    course Z.le (communicate_prepare (text "request") PREPARE_TIMEOUT PREPARE_IO_LIMIT) 0%Z log
      (Some (Ok (mkPrepareOutput true "{}" ""))) now' /\
    told PREPARE_IO_LIMIT (Some (Ok (mkPrepareOutput true "{}" ""))) (after heard heard_nothing log).
Proof.
  destruct (ran a_talk _ talk_answer) as (log & now' & Hr).
  assert (Hcourse : course Z.le (communicate_prepare (text "request") PREPARE_TIMEOUT PREPARE_IO_LIMIT) 0%Z
            log (Some (Ok (mkPrepareOutput true "{}" ""))) now').
  { refine (run_call_course Z.le (Z.add 5000) (obliging (text "{}")) 0 _ 0%Z log _ now' _ Hr). intros; lia. }
  exists log, now'. split; [exact Hcourse|].
  exact (proj2 (prepare_leaves_no_helper _ _ _ _ _ _ _ Hcourse)).
Defined.
