(* ===== verification/Watches.v ===== *)
(** Watching a workspace's files ([runner/watch.rs]): what becomes of the file system's events, in
    the workspace's names, and what a subscriber is told of them. Events are emitted by several
    threads at once, each in three atomic steps. *)
From S2P Require Import Prelude Domain Policy Output Files Procfs Threads.

(** * Events *)

Inductive FsWatchKind :=
  | WkCreate (path : string)
  | WkModify (path : string)
  | WkRemove (path : string)
  | WkRename (from to : string)
  | ResyncRequired.

#[export] Instance FsWatchKind_eq_dec : EqDecision FsWatchKind.
Proof. solve_decision. Defined.

Definition watch_paths (k : FsWatchKind) : list string :=
  match k with
  | WkCreate path | WkModify path | WkRemove path => [path]
  | WkRename from to => [from; to]
  | ResyncRequired => []
  end.

Definition touches (k : FsWatchKind) (path : string) : bool := bool_decide (path ∈ watch_paths k).

Record FsWatchEvent := mkFsWatchEvent { we_epoch : Z; we_seq : Z; we_kind : FsWatchKind }.

(** ** What [notify] reports *)

Inductive RenameMode := RenameAny | RenameTo | RenameFrom | RenameBoth | RenameOther.
Inductive EventKind :=
  | EvAny | EvAccess | EvCreate | EvModifyName (mode : RenameMode) | EvModify | EvRemove | EvOther.

Record NotifyEvent := mkNotifyEvent {
  ne_rescan : bool;
  ne_kind : EventKind;
  ne_paths : list string
}.

(** * Names of the workspace *)

(** [watch_root_aliases]: the root as it is watched, and as it was given. *)
Definition watch_root_aliases (canonicalize : string -> option string) (root : string) : list Path :=
  let canon := components (default root (canonicalize root)) in
  canon :: if bool_decide (components root = canon) then [] else [components root].

Definition strip_under (root abs : Path) : option string :=
  rel ← strip_prefix root abs;
  let raw := String.concat "/" (component_text <$> rel) in
  if bool_decide (rel = []) then None
  else if existsb (fun c => bool_decide (c = ParentDir \/ c = RootDir)) rel then None
  else if negb (is_utf8 (text raw)) then None
  else
    let name := replace_char "\"%char "/" raw in
    if has_root name || bool_decide (".." ∈ segments name) then None else Some name.

Definition workspace_relative_event_path (roots : list Path) (event_path : string) : option string :=
  primary ← head roots;
  head (omap (fun root => strip_under root (join_path primary event_path)) roots).

Section handling.
Context (roots : list Path).

Abbreviation relative := (workspace_relative_event_path roots).

Definition map_rename_sides (from to : option string) : option FsWatchKind :=
  match from, to with
  | Some from, Some to => Some (WkRename from to)
  | Some from, None => Some (WkRemove from)
  | None, Some to => Some (WkCreate to)
  | None, None => None
  end.

Definition mapped_rename (from to : string) : list FsWatchKind :=
  option_list (map_rename_sides (relative from) (relative to)).

(** [emit_inside] of each path. *)
Definition inside (kind : string -> FsWatchKind) (paths : list string) : list FsWatchKind :=
  kind <$> omap relative paths.

Definition handle_rename (mode : RenameMode) (paths : list string) : list FsWatchKind :=
  match mode with
  | RenameBoth =>
      match paths with
      | from :: to :: _ => mapped_rename from to
      | [only] => inside WkModify [only]
      | [] => []
      end
  | RenameFrom => inside WkRemove paths
  | RenameTo => inside WkCreate paths
  | RenameAny | RenameOther =>
      match paths with
      | from :: to :: _ => mapped_rename from to
      | _ => inside WkModify paths
      end
  end.

(** What [handle_event] emits, in order. *)
Definition handle_event (event : NotifyEvent) : list FsWatchKind :=
  if ne_rescan event then [ResyncRequired]
  else
    match ne_kind event with
    | EvAccess => []
    | EvOther => [ResyncRequired]
    | EvAny =>
        match omap relative (ne_paths event) with
        | [] => if bool_decide (ne_paths event = []) then [ResyncRequired] else []
        | rels => WkModify <$> rels
        end
    | EvCreate => inside WkCreate (ne_paths event)
    | EvRemove => inside WkRemove (ne_paths event)
    | EvModifyName mode => handle_rename mode (ne_paths event)
    | EvModify => inside WkModify (ne_paths event)
    end.
End handling.

(** * The channel

    [tokio::sync::broadcast] is not this repository's. A channel is known by what was done with it,
    in order: events were sent, receivers were made, numbered from 0, and a receiver was given
    something. *)
Inductive Delivery := Event (event : FsWatchEvent) | Lagged (skipped : nat).
Inductive ChannelStep := ChSent (event : FsWatchEvent) | ChSubscribed | ChGiven (i : nat) (got : Delivery).

(** The events sent since receiver [i] was made, and those of them that it has not passed yet: a
    delivery passes its event, a lag the events that it skips. *)
Definition width (got : Delivery) : nat := match got with Event _ => 1 | Lagged skipped => skipped end.

Definition hears (i : nat) (st : nat * (list FsWatchEvent * list FsWatchEvent)) (step : ChannelStep)
    : nat * (list FsWatchEvent * list FsWatchEvent) :=
  let '(made, (due, unread)) := st in
  match step with
  | ChSubscribed => (S made, (due, unread))
  | ChSent e => (made, if bool_decide (i < made) then (due ++ [e], unread ++ [e]) else (due, unread))
  | ChGiven j got => (made, (due, if bool_decide (j = i) then drop (width got) unread else unread))
  end.

Definition heard (i : nat) (channel : list ChannelStep) := foldl (hears i) (0, ([], [])) channel.
Definition sent_since (i : nat) (channel : list ChannelStep) : list FsWatchEvent := (heard i channel).2.1.
Definition unread (i : nat) (channel : list ChannelStep) : list FsWatchEvent := (heard i channel).2.2.

(** What [Receiver::recv] promises of a channel of this capacity, whose senders live: each
    receiver is given the events sent since it was made in their order; one that is further behind
    than the capacity may be told that it lags, and skips events; and none waits while there is an
    event for it. [None]: it waits. *)
Class Broadcast (capacity : nat) := {
  channel_recv : list ChannelStep -> nat -> option Delivery;
  recv_in_order channel i e : channel_recv channel i = Some (Event e) -> head (unread i channel) = Some e;
  recv_lagged channel i skipped : channel_recv channel i = Some (Lagged skipped) ->
    capacity < length (unread i channel) /\ 0 < skipped <= length (unread i channel);
  recv_waits channel i : channel_recv channel i = None -> unread i channel = []
}.

(** A channel that keeps exactly the last [capacity] events. *)
Definition keeps_last (capacity : nat) (channel : list ChannelStep) (i : nat) : option Delivery :=
  let behind := unread i channel in
  if bool_decide (capacity < length behind) then Some (Lagged (length behind - capacity))
  else Event <$> head behind.

Definition concrete_broadcast (capacity : nat) : Broadcast capacity.
Proof.
  refine {| channel_recv := keeps_last capacity |}; unfold keeps_last; intros channel i.
  - intros e. case_bool_decide; [done|]. by intros (? & ? & [= ->])%fmap_Some.
  - intros skipped. case_bool_decide; [intros [= <-]; lia|]. by intros (? & ? & ?)%fmap_Some.
  - case_bool_decide; [done|]. by destruct (unread i channel).
Defined.

(** * A watcher and its subscribers *)

Definition WATCH_LAG : nat := 512.

(** A subscriber has its subscription for itself: [sb_busy] is whether it is within [recv], and
    [sb_told] what its calls of [recv] returned. *)
Record Subscription := mkSubscription { sb_busy : bool; sb_told : list FsWatchEvent }.

(** [WatchShared] with its channel, the watcher's slot, and the subscriptions, of which the [i]th
    has receiver [i]. *)
Record WatchState := mkWatchState {
  wt_epoch : Z;
  wt_seq : Z;
  wt_channel : list ChannelStep;
  wt_fail_next_spawn : bool;
  wt_watching : bool;
  wt_subscriptions : list Subscription
}.
Implicit Types s : WatchState.

Definition watch_start : WatchState := mkWatchState 1 0 [] false true [].

Definition at_epoch s epoch : WatchState :=
  mkWatchState epoch (wt_seq s) (wt_channel s) (wt_fail_next_spawn s) (wt_watching s) (wt_subscriptions s).
Definition with_seq s seq : WatchState :=
  mkWatchState (wt_epoch s) seq (wt_channel s) (wt_fail_next_spawn s) (wt_watching s) (wt_subscriptions s).
Definition with_channel s channel : WatchState :=
  mkWatchState (wt_epoch s) (wt_seq s) channel (wt_fail_next_spawn s) (wt_watching s) (wt_subscriptions s).
Definition with_fail s fail : WatchState :=
  mkWatchState (wt_epoch s) (wt_seq s) (wt_channel s) fail (wt_watching s) (wt_subscriptions s).
Definition with_watching s watching : WatchState :=
  mkWatchState (wt_epoch s) (wt_seq s) (wt_channel s) (wt_fail_next_spawn s) watching (wt_subscriptions s).
Definition with_subscriptions s subs : WatchState :=
  mkWatchState (wt_epoch s) (wt_seq s) (wt_channel s) (wt_fail_next_spawn s) (wt_watching s) subs.

Definition on_channel (step : ChannelStep) s : WatchState := with_channel s (wt_channel s ++ [step]).

(** Whether [notify] can watch the root now, or why not. *)
Inductive WatchQuery := WqWatch.
Definition WatchReply (q : WatchQuery) : Type := option string.

Abbreviation watching := (call WatchState WatchQuery WatchReply).
Abbreviation noticed a := (@Return WatchState WatchQuery WatchReply _ a).

Definition emit (kind : FsWatchKind) : watching unit :=
  epoch ← look wt_epoch;
  seq ← turn (fun s => let seq := as_u64 (wt_seq s + 1) in (seq, with_seq s seq));
  update (on_channel (ChSent (mkFsWatchEvent epoch seq kind))).

Definition emit_resync : watching unit := emit ResyncRequired.

Fixpoint emit_each (kinds : list FsWatchKind) : watching unit :=
  match kinds with
  | [] => noticed tt
  | kind :: kinds => _ ← emit kind; emit_each kinds
  end.

(** The watcher's callback. *)
Definition callback (roots : list Path) (result : option NotifyEvent) : watching unit :=
  match result with
  | Some event => emit_each (handle_event roots event)
  | None => emit_resync
  end.

Definition spawn_watcher : watching (res unit) :=
  injected ← turn (fun s => (wt_fail_next_spawn s, with_fail s false));
  if (injected : bool) then
    noticed (Err (error_body FileOperationFailed "workspace watch: injected spawn failure"))
  else
    failed ← ask (Answer := WatchReply) WqWatch;
    noticed (match (failed : option string) with
             | Some e => Err (error_body FileOperationFailed ("workspace watch: " +:+ e))
             | None => Ok tt
             end).

Definition restart : watching (res Z) :=
  spawned ← spawn_watcher;
  match (spawned : res unit) with
  | Ok _ =>
      _ ← update (fun s => with_watching s true);
      _ ← update (fun s => at_epoch s (as_u64 (wt_epoch s + 1)));
      _ ← update (fun s => with_seq s 0);
      _ ← emit_resync;
      epoch ← look wt_epoch;
      noticed (Ok epoch)
  | Err e => _ ← emit_resync; noticed (Err e)
  end.

(** ** Receiving *)

Definition subscribe s : WatchState :=
  with_subscriptions (on_channel ChSubscribed s) (wt_subscriptions s ++ [mkSubscription false []]).

Section channel.
Context `{Chan : !Broadcast WATCH_LAG}.

(** The receiver's own [recv]. *)
Definition given (i : nat) s : option (Delivery * WatchState) :=
  got ← channel_recv (wt_channel s) i; Some (got, on_channel (ChGiven i got) s).

Definition recv (i : nat) : watching FsWatchEvent :=
  got ← await (given i);
  match (got : Delivery) with
  | Event event => noticed event
  | Lagged _ => epoch ← look wt_epoch; noticed (mkFsWatchEvent epoch 0 ResyncRequired)
  end.

(** The subscriber calls [recv] with [&mut self], so once at a time, and has what it returned. *)
Definition borrow (i : nat) s : option (unit * WatchState) :=
  sub ← wt_subscriptions s !! i;
  if sb_busy sub then None
  else Some (tt, with_subscriptions s (<[i := mkSubscription true (sb_told sub)]> (wt_subscriptions s))).

Definition told (i : nat) (event : FsWatchEvent) s : WatchState :=
  match wt_subscriptions s !! i with
  | Some sub => with_subscriptions s (<[i := mkSubscription false (sb_told sub ++ [event])]> (wt_subscriptions s))
  | None => s
  end.

(** ** All of it at once *)

Inductive WatchTool := Observed (result : option NotifyEvent) | Restart | ForceResync | Recv (i : nat).
Inductive WatchResult := Noticed | Restarting (r : res Z) | Told (event : FsWatchEvent).

Definition watch_serve (roots : list Path) (t : WatchTool) : watching WatchResult :=
  match t with
  | Observed result => _ ← callback roots result; noticed Noticed
  | Restart => r ← restart; noticed (Restarting r)
  | ForceResync => _ ← emit_resync; noticed Noticed
  | Recv i => _ ← await (borrow i); event ← recv i; _ ← update (told i event); noticed (Told event)
  end.

Inductive WatchOther := OtSubscribe | OtFailNextSpawn.

Definition watch_other (o : WatchOther) s : WatchState :=
  match o with
  | OtSubscribe => subscribe s
  | OtFailNextSpawn => with_fail s true
  end.

Definition watch_pool (roots : list Path) :=
  pool_reachable (watch_serve roots) (fun o s s' => s' = watch_other o s) (fun _ _ => False)
    watch_start.
End channel.

(** * The watches of a Runner ([WatchSet])

    One per canonical root. [start] is whether a watcher can be started there. *)
Definition watch_for (canonicalize : string -> option string) (start : string -> res unit)
    (root : string) (watches : gmap string nat) : res nat * gmap string nat :=
  let key := default root (canonicalize root) in
  match watches !! key with
  | Some existing => (Ok existing, watches)
  | None =>
      match start root with
      | Err e => (Err e, watches)
      | Ok _ => let w := size watches in (Ok w, <[key := w]> watches)
      end
  end.

(** * What a subscriber is told *)

Definition resync (e : FsWatchEvent) : bool := bool_decide (we_kind e = ResyncRequired).

(** What was told of the events [es], in order: each in its place, or to look again where some
    were lost. *)
Inductive told_of : list FsWatchEvent -> list FsWatchEvent -> Prop :=
  | told_nothing : told_of [] []
  | told_event es got e : told_of es got -> told_of (es ++ [e]) (got ++ [e])
  | told_lost es got lost r :
      lost <> [] -> we_kind r = ResyncRequired -> told_of es got -> told_of (es ++ lost) (got ++ [r]).

(** Whoever was not told to look again was told of everything, in order. *)
Lemma told_everything es got : told_of es got -> existsb resync got = false -> got = es.
Proof.
  induction 1 as [|es got e _ IH|es got lost r _ Hr _ IH]; rewrite ?existsb_app; cbn; [done|..];
    rewrite ?orb_false_r; intros [Hg Hlast]%orb_false_iff.
  - by rewrite IH.
  - by apply bool_decide_eq_false in Hlast.
Qed.

Section followed.
Context `{Chan : !Broadcast WATCH_LAG}.

(** A call of [recv] in progress: whose, and what its receiver was given. *)
Definition Stake := option (nat * option Delivery).

Definition passes (o : option Delivery) (passed : list FsWatchEvent) : Prop :=
  match o with
  | None => passed = []
  | Some (Event e) => passed = [e]
  | Some (Lagged _) => passed <> []
  end.

(** Of the events since the subscription, those told of, those that the call in progress passed,
    and those not passed yet. *)
Definition followed (i : nat) (channel : list ChannelStep) (sub : Subscription) (o : option Delivery) : Prop :=
  exists due passed, sent_since i channel = due ++ passed ++ unread i channel /\
    told_of due (sb_told sub) /\ passes o passed.

Record watch_inv s (log : list (Threads.event WatchReply WatchTool WatchOther)) (L : list Stake) : Prop := {
  wi_made i : (heard i (wt_channel s)).1 = length (wt_subscriptions s);
  wi_later i : length (wt_subscriptions s) <= i ->
    sent_since i (wt_channel s) = [] /\ unread i (wt_channel s) = [];
  wi_subs i sub : wt_subscriptions s !! i = Some sub ->
    exists o, followed i (wt_channel s) sub o /\ (sb_busy sub = false -> o = None);
  wi_calls j i o : L !! j = Some (Some (i, o)) ->
    exists sub, wt_subscriptions s !! i = Some sub /\ sb_busy sub = true /\ followed i (wt_channel s) sub o;
  wi_sole j k i o o' : L !! j = Some (Some (i, o)) -> L !! k = Some (Some (i, o')) -> j = k
}.

Lemma heard_snoc i channel step : heard i (channel ++ [step]) = hears i (heard i channel) step.
Proof. unfold heard. by rewrite foldl_app. Qed.

(** One more event, for each receiver there is. *)
Lemma heard_sent i channel e made due left :
  heard i channel = (made, (due, left)) -> i < made ->
  heard i (channel ++ [ChSent e]) = (made, (due ++ [e], left ++ [e])).
Proof. intros Hh Hi. rewrite heard_snoc, Hh. cbn. by rewrite bool_decide_eq_true_2. Qed.

Lemma followed_sent i channel sub o e :
  i < (heard i channel).1 -> followed i channel sub o -> followed i (channel ++ [ChSent e]) sub o.
Proof.
  unfold followed, sent_since, unread. destruct (heard i channel) as [made [due left]] eqn:Hh. cbn.
  intros Hi (told & passed & Hd & Ht & Hp). exists told, passed.
  rewrite (heard_sent i channel e made due left) by done. cbn. rewrite Hd, <- !app_assoc. done.
Qed.

(** What others' steps do to the channel leaves what a receiver has as it is. *)
Lemma followed_same i channel channel' sub o :
  (heard i channel').2 = (heard i channel).2 -> followed i channel sub o -> followed i channel' sub o.
Proof. unfold followed, sent_since, unread. by intros ->. Qed.

Lemma watch_inv_sent s log L e :
  watch_inv s log L -> watch_inv (on_channel (ChSent e) s) log L.
Proof.
  intros [Hm Hl Hs Hc Ho]. split; cbn [on_channel with_channel wt_channel wt_subscriptions]; [..|done].
  - intros i. specialize (Hm i). rewrite heard_snoc. destruct (heard i _) as [made [due left]]. cbn in *. done.
  - intros i Hi. destruct (Hl i Hi) as [H1 H2]. specialize (Hm i). unfold sent_since, unread in *.
    rewrite heard_snoc. destruct (heard i _) as [made [due left]]. cbn in *. subst.
    by rewrite bool_decide_eq_false_2 by lia.
  - intros i sub Hi. destruct (Hs i sub Hi) as (o & Hf & Hb). exists o. split; [|done].
    apply followed_sent; [|done]. rewrite Hm. by eapply lookup_lt_Some.
  - intros j i o Hj. destruct (Hc j i o Hj) as (sub & Hi & Hb & Hf). exists sub. split_and!; [done..|].
    apply followed_sent; [|done]. rewrite Hm. by eapply lookup_lt_Some.
Qed.

(** A turn that leaves the subscriptions and the channel as they are, or sends an event. *)
Definition apart s s' : Prop :=
  wt_subscriptions s' = wt_subscriptions s /\ wt_channel s' = wt_channel s.
Definition only_sends s s' : Prop :=
  apart s s' \/ exists e, wt_subscriptions s' = wt_subscriptions s /\ wt_channel s' = wt_channel s ++ [ChSent e].

Lemma apart_inv s s' log log' L : apart s s' -> watch_inv s log L -> watch_inv s' log' L.
Proof. intros [Hsub Hch] [Hm Hl Hs Hc Ho]. split; rewrite ?Hsub, ?Hch; done. Qed.

Lemma only_sends_inv s s' log log' L : only_sends s s' -> watch_inv s log L -> watch_inv s' log' L.
Proof.
  intros [Ha|(e & Hsub & Hch)] HI; [by eapply apart_inv|].
  by apply (apart_inv (on_channel (ChSent e) s) s' log); [split|apply watch_inv_sent].
Qed.

Abbreviation sends c :=
  (along (Request := WatchQuery) (Answer := WatchReply) only_sends (fun _ => True) c).

Lemma turn_sends {A} (f : WatchState -> A * WatchState) :
  (forall s, only_sends s (f s).2) -> sends (turn f).
Proof. intros Hf. split; [|done]. intros s b s' [= Hs]. specialize (Hf s). by rewrite Hs in Hf. Qed.

Lemma apart_sends {A} (f : WatchState -> A * WatchState) :
  (forall s, apart s (f s).2) -> sends (turn f).
Proof. intros Hf. apply turn_sends. intros s. by left. Qed.

Lemma emit_sends kind : sends (emit kind).
Proof.
  apply along_bind; [by apply apart_sends|]. intros epoch.
  apply along_bind; [by apply apart_sends|]. intros seq.
  apply turn_sends. intros s. right. by eexists.
Qed.

Lemma emit_each_sends kinds : sends (emit_each kinds).
Proof. induction kinds; [done|]. apply along_bind; [apply emit_sends|done]. Qed.

Lemma restart_sends : sends restart.
Proof.
  apply along_bind.
  - apply along_bind; [by apply apart_sends|]. intros []; [done|].
    apply along_bind; [done|]. done.
  - intros [[]|e]; [|apply along_bind; [apply emit_sends|done]].
    repeat (apply along_bind; [by apply apart_sends|intros []]).
    apply along_bind; [apply emit_sends|]. intros _. apply along_bind; [by apply apart_sends|done].
Qed.

Abbreviation keeps_watch := (upholds (Tool := WatchTool) (Other := WatchOther) watch_inv (fun _ _ => True)).

Lemma sends_keeps {A} i (Q : A -> Stake -> Prop) (c : watching A) l :
  sends c -> (forall a, Q a l) -> keeps_watch i Q c l.
Proof.
  intros Hc HQ. eapply upholds_along; [| |exact Hc|exact HQ].
  - intros s s' log L HI _ Hss. by eapply only_sends_inv.
  - intros s log L q HI Hl _. exists l. rewrite list_insert_id by done.
    split_and!; [by eapply apart_inv|done|]. intros a s1 log1 L1 HI1 Hl1.
    rewrite list_insert_id by done. by eapply apart_inv.
Qed.

(** ** A call of [recv] *)

(** One of its turns: it changes its subscription and what its receiver was given, and no other's. *)
Lemma watch_inv_call s s' log (L : list Stake) j l i sub sub' o' :
  watch_inv s log L -> L !! j = Some l -> wt_subscriptions s !! i = Some sub ->
  (l = None /\ sb_busy sub = false) \/ (exists o, l = Some (i, o)) ->
  wt_subscriptions s' = <[i := sub']> (wt_subscriptions s) ->
  (forall k, (heard k (wt_channel s')).1 = (heard k (wt_channel s)).1) ->
  (forall k, k <> i -> (heard k (wt_channel s')).2 = (heard k (wt_channel s)).2) ->
  followed i (wt_channel s') sub' o' -> (sb_busy sub' = false -> o' = None) ->
  watch_inv s' log (<[j := if sb_busy sub' then Some (i, o') else None]> L).
Proof.
  intros [Hm Hl Hs Hc Ho] Hj Hi Hown Hsub Hmade Hothers Hf Hidle.
  assert (Hlt : i < length (wt_subscriptions s)) by (by eapply lookup_lt_Some).
  assert (Honly : forall k o, L !! k = Some (Some (i, o)) -> k = j).
  { intros k o Hk. destruct Hown as [[_ Hb]|[o1 ->]]; [|by eapply Ho].
    destruct (Hc k i o Hk) as (sub1 & Hi1 & Hb1 & _). congruence. }
  assert (Hnew : forall k i1 o1, <[j := if sb_busy sub' then Some (i, o') else None]> L !! k = Some (Some (i1, o1)) ->
    (k = j /\ i1 = i /\ o1 = o' /\ sb_busy sub' = true) \/ (k <> j /\ i1 <> i /\ L !! k = Some (Some (i1, o1)))).
  { intros k i1 o1. destruct (decide (k = j)) as [->|Hne].
    - rewrite list_lookup_insert_eq by (by eapply lookup_lt_Some). destruct (sb_busy sub'); [|done].
      intros [= -> ->]. by left.
    - rewrite list_lookup_insert_ne by done. intros Hk. right. split_and!; [done| |done].
      intros ->. by apply Hne, (Honly k o1). }
  split.
  - intros k. by rewrite Hmade, Hm, Hsub, length_insert.
  - intros k. rewrite Hsub, length_insert. intros Hk. unfold sent_since, unread.
    rewrite Hothers by lia. by apply Hl.
  - intros k subk. rewrite Hsub. destruct (decide (k = i)) as [->|Hne].
    + rewrite list_lookup_insert_eq by done. intros [= <-]. by exists o'.
    + rewrite list_lookup_insert_ne by done. intros Hk. destruct (Hs k subk Hk) as (o & Hfk & Hb).
      exists o. split; [|done]. eapply followed_same, Hfk. by apply Hothers.
  - intros k i1 o1 [(-> & -> & -> & Hb)|(_ & Hne & Hk)]%Hnew; rewrite Hsub.
    + exists sub'. by rewrite list_lookup_insert_eq.
    + destruct (Hc k i1 o1 Hk) as (sub1 & Hi1 & Hb1 & Hf1). exists sub1.
      rewrite list_lookup_insert_ne by done. split_and!; [done..|]. eapply followed_same, Hf1. by apply Hothers.
  - intros k k' i1 o1 o2 [(-> & -> & _)|(_ & Hne & Hk)]%Hnew [(-> & Hi2 & _)|(_ & Hne' & Hk')]%Hnew; try done.
    by eapply Ho.
Qed.

Lemma given_heard i channel got k :
  (heard k (channel ++ [ChGiven i got])).1 = (heard k channel).1 /\
  (k <> i -> (heard k (channel ++ [ChGiven i got])).2 = (heard k channel).2) /\
  sent_since i (channel ++ [ChGiven i got]) = sent_since i channel /\
  unread i (channel ++ [ChGiven i got]) = drop (width got) (unread i channel).
Proof.
  unfold sent_since, unread. rewrite !heard_snoc.
  destruct (heard k channel) as [made [due left]], (heard i channel) as [made' [due' left']]. cbn.
  split_and!; [done| |done|by rewrite bool_decide_eq_true_2].
  intros Hk. by rewrite bool_decide_eq_false_2.
Qed.

Lemma followed_given i channel sub busy got :
  channel_recv channel i = Some got -> followed i channel sub None ->
  followed i (channel ++ [ChGiven i got]) (mkSubscription busy (sb_told sub)) (Some got).
Proof.
  intros Hg (due & passed & Hd & Ht & ->). unfold followed.
  destruct (given_heard i channel got i) as (_ & _ & -> & ->). cbn in Hd.
  exists due, (take (width got) (unread i channel)). split_and!; [by rewrite take_drop|done|].
  destruct got as [e|skipped].
  - apply recv_in_order in Hg. cbn. destruct (unread i channel); [done|]. by injection Hg as ->.
  - apply recv_lagged in Hg as [_ Hg]. cbn. intros Hnil%(f_equal length).
    rewrite length_take in Hnil. cbn in Hnil. lia.
Qed.

(** What [recv] returns of what its receiver was given. *)
Definition returns (got : Delivery) (event : FsWatchEvent) : Prop :=
  match got with Event e => event = e | Lagged _ => we_kind event = ResyncRequired end.

Lemma followed_told i channel sub got event busy :
  returns got event -> followed i channel sub (Some got) ->
  followed i channel (mkSubscription busy (sb_told sub ++ [event])) None.
Proof.
  intros Hr (due & passed & Hd & Ht & Hp). exists (due ++ passed), []. cbn [sb_told app].
  split_and!; [by rewrite <- app_assoc| |done]. destruct got as [e|skipped]; cbn in Hp, Hr.
  - subst. by constructor.
  - by apply told_lost.
Qed.

Lemma recv_keeps j i : keeps_watch j (fun _ l => l = None)
  (_ ← await (borrow i); event ← recv i; _ ← update (told i event); noticed (Told event)) None.
Proof.
  unfold await. cbn [mbind call_bind]. intros s log L [] s' HI Hj Hb. unfold borrow in Hb.
  apply bind_Some in Hb as (sub & Hi & Hb). destruct (sb_busy sub) eqn:Hbusy; [done|].
  injection Hb as <-. exists (Some (i, None)). split.
  { apply (watch_inv_call s _ log L j None i sub (mkSubscription true (sb_told sub)) None); try done.
    - by left.
    - destruct (wi_subs s log L HI i sub Hi) as (o & Hf & Hb). by rewrite (Hb Hbusy) in Hf. }
  clear. unfold recv, await. cbn [mbind call_bind]. intros s log L got s' HI Hj Hg. unfold given in Hg.
  apply bind_Some in Hg as (got' & Hg & Hs'). injection Hs' as -> <-.
  destruct (wi_calls s log L HI j i None Hj) as (sub & Hi & Hb & Hf).
  exists (Some (i, Some got)). split.
  { apply (watch_inv_call s _ log L j (Some (i, None)) i sub (mkSubscription true (sb_told sub)) (Some got)); try done.
    - right. by eexists.
    - cbn. destruct sub as [busy told]. cbn in Hb. subst busy. by rewrite list_insert_id.
    - intros k. apply (given_heard i (wt_channel s) got k).
    - intros k. apply (given_heard i (wt_channel s) got k).
    - by apply followed_given. }
  assert (Htell : forall event, returns got event -> keeps_watch j (fun _ l => l = None)
    (_ ← update (told i event); noticed (Told event)) (Some (i, Some got))).
  { clear. intros event Hr. unfold update, turn. cbn [mbind call_bind]. intros s log L [] s' HI Hj [= <-].
    destruct (wi_calls s log L HI j i (Some got) Hj) as (sub & Hi & Hb & Hf).
    exists None. split; [|done]. unfold told. rewrite Hi.
    apply (watch_inv_call s _ log L j (Some (i, Some got)) i sub (mkSubscription false (sb_told sub ++ [event])) None); try done.
    - right. by eexists.
    - by eapply followed_told. }
  destruct got as [e|skipped]; [by apply Htell|].
  unfold look, turn. cbn [mbind call_bind]. intros s1 log1 L1 epoch s2 HI1 Hj1 [= _ <-].
  exists (Some (i, Some (Lagged skipped))). rewrite list_insert_id by done. split; [done|].
  by apply Htell.
Qed.

Lemma watch_serve_keeps roots j t : keeps_watch j (fun _ l => l = None) (watch_serve roots t) None.
Proof.
  destruct t as [[event|]| | |i]; cbn [watch_serve callback]; try apply recv_keeps;
    (apply sends_keeps; [|done]); (apply along_bind; [|done]).
  - apply emit_each_sends.
  - apply emit_sends.
  - apply restart_sends.
  - apply emit_sends.
Qed.

Lemma watch_inv_subscribe s log log' L : watch_inv s log L -> watch_inv (subscribe s) log' L.
Proof.
  intros [Hm Hl Hs Hc Ho].
  assert (Hheard : forall k, heard k (wt_channel s ++ [ChSubscribed])
                             = (S (heard k (wt_channel s)).1, (heard k (wt_channel s)).2)).
  { intros k. rewrite heard_snoc. by destruct (heard k _) as [made [due left]]. }
  assert (Hsame : forall k sub o, followed k (wt_channel s) sub o ->
                    followed k (wt_channel s ++ [ChSubscribed]) sub o).
  { intros k sub o. apply followed_same. by rewrite Hheard. }
  split; cbn [subscribe on_channel with_subscriptions with_channel wt_channel wt_subscriptions].
  - intros k. rewrite Hheard, length_app. cbn. rewrite Hm. lia.
  - intros k. rewrite length_app. cbn. intros Hk. unfold sent_since, unread. rewrite Hheard.
    apply Hl. lia.
  - intros k sub [[_ Hk]|[-> <-]]%lookup_snoc_Some.
    + destruct (Hs k sub Hk) as (o & ? & ?). exists o. auto.
    + exists None. split; [|done]. apply Hsame. destruct (Hl (length (wt_subscriptions s))) as [H1 H2]; [lia|].
      exists [], []. rewrite H1, H2. split_and!; [done|constructor|done].
  - intros j k o Hj. destruct (Hc j k o Hj) as (sub & Hk & Hb & Hf). exists sub.
    split_and!; [by apply lookup_app_l_Some|done|by apply Hsame].
  - done.
Qed.

Lemma watch_invariant roots :
  invariant (watch_serve roots) (fun o s s' => s' = watch_other o s) (fun _ _ => False) watch_inv
    (fun _ => None) (fun _ l => l = None) (fun _ _ => True) None watch_start.
Proof.
  split.
  - split; cbn; try done.
  - intros s log L t [Hm Hl Hs Hc Ho]. split; try done.
    + intros j i o [[_ Hj]|[_ ?]]%lookup_snoc_Some; [by apply (Hc j)|done].
    + intros j k i o o' [[_ Hj]|[_ ?]]%lookup_snoc_Some [[_ Hk]|[_ ?]]%lookup_snoc_Some; try done.
      by eapply Ho.
  - intros j t. apply watch_serve_keeps.
  - intros s log L [|] s' HI ->; [by eapply watch_inv_subscribe|].
    by eapply apart_inv; [|exact HI].
  - done.
Qed.

(** C28: A subscriber misses nothing silently, whatever channel keeps the promises of tokio's.
    However the threads that observe the workspace, the restarts and the subscribers interleave,
    what a subscriber's calls of [recv] returned is, in order, the events that were sent since it
    subscribed, except that where it lagged behind and events were lost it was told to look again;
    one that never was received every event, as far as it read; and while there is an event for
    it, it does not wait. *)
Theorem subscribers_miss_nothing_silently roots p i sub :
  watch_pool roots p -> wt_subscriptions (pl_state p) !! i = Some sub ->
  let channel := wt_channel (pl_state p) in
  exists due rest,
    sent_since i channel = due ++ rest /\ told_of due (sb_told sub) /\
    (existsb resync (sb_told sub) = false -> sb_told sub = due) /\
    (sb_busy sub = false ->
       rest = unread i channel /\ (rest <> [] -> is_Some (given i (pl_state p)))).
Proof.
  intros Hp Hi channel.
  destruct (pool_reachable_upholds _ _ _ _ _ _ _ _ _ _ (watch_invariant roots) Hp) as (L & HI & _).
  destruct (wi_subs _ _ _ HI i sub Hi) as (o & (due & passed & Hd & Ht & Hpass) & Hidle).
  fold channel in Hd. exists due, (passed ++ unread i channel). split_and!; [done..|by apply told_everything|].
  intros Hb. rewrite (Hidle Hb) in Hpass. cbn in Hpass. subst passed. split; [done|]. cbn [app]. intros Hne.
  unfold given. fold channel. destruct (channel_recv channel i) eqn:Hg; [by eexists|].
  by apply recv_waits in Hg.
Qed.
End followed.

(** ** A subscriber of a channel that keeps the last 512 events *)

#[local] Existing Instance concrete_broadcast.

(** Two events and a subscriber that is told of the first. *)
Definition watched := schedule (watch_serve []) watch_other watch_start
  ([MOther OtSubscribe; MCall (Observed None); MCall ForceResync; MCall (Recv 0)] ++
   [MTurn 0; MTurn 1; MTurn 1; MTurn 0; MTurn 0; MTurn 1; MTurn 2; MTurn 2; MTurn 2]).

(** It holds of the subscriber that received one of two events that were sent. *)
Lemma subscribers_miss_nothing_silently_witness :
  exists sub e, wt_subscriptions (pl_state watched) !! 0 = Some sub /\ sb_told sub = [e] /\
    length (sent_since 0 (wt_channel (pl_state watched))) = 2 /\ sb_busy sub = false /\
    exists due rest, sent_since 0 (wt_channel (pl_state watched)) = due ++ rest /\
      told_of due [e] /\ is_Some (given 0 (pl_state watched)).
Proof.
  assert (Hp : watch_pool [] watched) by (by apply schedule_reachable).
  do 2 eexists. do 2 (split; [vm_compute; reflexivity|]). do 2 (split; [vm_compute; reflexivity|]).
  destruct (subscribers_miss_nothing_silently [] watched 0 _ Hp eq_refl) as (due & rest & Hd & Ht & _ & Hmore).
  exists due, rest. split; [exact Hd|]. split; [exact Ht|].
  destruct (Hmore eq_refl) as [Hrest Hgive]. apply Hgive. rewrite Hrest. vm_compute. discriminate.
Defined.

(** 514 events, of which the first two are lost to a subscriber that reads only then: it is told to
    look again, and goes on with the third. *)
Definition overrun := schedule (watch_serve []) watch_other watch_start
  ([MOther OtSubscribe] ++
   mjoin ((fun k => [MCall ForceResync; MTurn k; MTurn k; MTurn k]) <$> seq 0 514) ++
   mjoin ((fun k => MCall (Recv 0) :: replicate 4 (MTurn k)) <$> [514; 515])).

Example an_overrun_is_told :
  match wt_subscriptions (pl_state overrun) !! 0 with
  | Some sub =>
      sb_told sub = [mkFsWatchEvent 1 0 ResyncRequired; mkFsWatchEvent 1 3 ResyncRequired] /\
      length (unread 0 (wt_channel (pl_state overrun))) = 511
  | None => False
  end.
Proof. vm_compute. by split. Qed.

(** ** Sequence numbers

    An event gets its number in one step and is sent in another, so two threads that emit at once
    can send out of the order of their numbers. *)
Lemma numbers_can_be_out_of_order :
  exists p, watch_pool [] p /\
    we_seq <$> sent_since 0 (wt_channel (pl_state p)) = [2; 1]%Z.
Proof. exists watched. split; [by apply schedule_reachable|by vm_compute]. Qed.

(** * What is announced of a change *)

Section announced.
Context (roots : list Path).

Lemma inside_announces kind paths path name :
  path ∈ paths -> workspace_relative_event_path roots path = Some name -> name ∈ watch_paths (kind name) ->
  exists k, k ∈ inside roots kind paths /\ touches k name = true.
Proof.
  intros Hin Hname Hk. exists (kind name). split; [|by apply bool_decide_eq_true].
  apply list_elem_of_fmap. exists name. split; [done|]. apply list_elem_of_omap. eauto.
Qed.

Lemma mapped_rename_announces from to path name :
  path ∈ [from; to] -> workspace_relative_event_path roots path = Some name ->
  exists k, k ∈ mapped_rename roots from to /\ touches k name = true.
Proof.
  intros Hin Hname. unfold mapped_rename.
  assert (Hone : workspace_relative_event_path roots from = Some name \/
            workspace_relative_event_path roots to = Some name) by set_solver.
  destruct (workspace_relative_event_path roots from) as [f|],
    (workspace_relative_event_path roots to) as [t|]; cbn; 
    (destruct Hone as [[= ->]|[= ->]] || (destruct Hone; simplify_eq));
    eexists; (split; [by apply list_elem_of_singleton|apply bool_decide_eq_true; set_solver]).
Qed.

Lemma one_or_two {A} (paths : list A) (path : A) :
  path ∈ paths -> length paths <= 2 ->
  paths = [path] \/ exists from to, paths = [from; to] /\ path ∈ [from; to].
Proof.
  intros Hin Hlen. destruct paths as [|a [|b [|c paths]]]; [set_solver|..].
  - left. set_solver.
  - right. by exists a, b.
  - cbn in Hlen. lia.
Qed.

Lemma rename_announces mode paths path name :
  path ∈ paths -> workspace_relative_event_path roots path = Some name -> length paths <= 2 ->
  exists k, k ∈ handle_rename roots mode paths /\ touches k name = true.
Proof.
  intros Hin Hname Hlen.
  assert (Hself : forall kind : string -> FsWatchKind, name ∈ watch_paths (kind name) ->
            exists k, k ∈ inside roots kind paths /\ touches k name = true)
    by (intros kind; by apply inside_announces with path).
  destruct (one_or_two _ _ Hin Hlen) as [->|(from & to & -> & Hone)].
  - destruct mode; apply Hself; set_solver.
  - destruct mode; try (by apply mapped_rename_announces with path); apply Hself; set_solver.
Qed.

(** Every path of the workspace that [notify] reports as changed is announced to the subscribers
    under its name there, or they are told to look again. [notify] gives a rename at most its two
    sides. *)
Lemma changes_are_announced event path name :
  path ∈ ne_paths event -> workspace_relative_event_path roots path = Some name ->
  ne_kind event <> EvAccess ->
  (forall mode, ne_kind event = EvModifyName mode -> length (ne_paths event) <= 2) ->
  exists k, k ∈ handle_event roots event /\ (k = ResyncRequired \/ touches k name = true).
Proof.
  intros Hin Hname Haccess Htwo. unfold handle_event.
  destruct (ne_rescan event); [exists ResyncRequired; set_solver|].
  assert (Hself : forall kind : string -> FsWatchKind, name ∈ watch_paths (kind name) ->
    exists k, k ∈ inside roots kind (ne_paths event) /\ (k = ResyncRequired \/ touches k name = true)).
  { intros kind Hk. destruct (inside_announces kind _ _ _ Hin Hname Hk) as (k & ? & ?). eauto. }
  destruct (ne_kind event) as [| | |mode| | |] eqn:Hkind; try (apply Hself; set_solver).
  - specialize (Hself WkModify). unfold inside in Hself.
    destruct (omap _ (ne_paths event)); [|apply Hself; set_solver].
    destruct Hself as (k & Hk & _); set_solver.
  - done.
  - destruct (rename_announces mode _ _ _ Hin Hname (Htwo mode eq_refl)) as (k & ? & ?). eauto.
  - exists ResyncRequired. set_solver.
Qed.

(** ** Names stay in the workspace *)

Definition workspace_name (name : string) : Prop :=
  has_root name = false /\ ".." ∉ segments name.

Lemma strip_under_name root abs name : strip_under root abs = Some name -> workspace_name name.
Proof.
  unfold strip_under. intros (rel & _ & Hrel)%bind_Some.
  destruct (bool_decide (rel = [])); [done|].
  destruct (existsb _ rel); [done|]. destruct (negb _); [done|].
  match type of Hrel with (if ?c then _ else _) = _ => destruct c eqn:Hc end; [done|].
  injection Hrel as <-. apply orb_false_iff in Hc as [Hroot Hdots].
  by apply bool_decide_eq_false in Hdots.
Qed.

Lemma relative_name path name :
  workspace_relative_event_path roots path = Some name -> workspace_name name.
Proof.
  unfold workspace_relative_event_path. intros (primary & _ & Hhead)%bind_Some.
  assert (name ∈ omap (fun root => strip_under root (join_path primary path)) roots) as Hin.
  { destruct (omap _ _); [done|]. injection Hhead as ->. by left. }
  apply list_elem_of_omap in Hin as (root & _ & Hname). by eapply strip_under_name.
Qed.

Lemma inside_names kind paths k name :
  (forall name, watch_paths (kind name) = [name]) ->
  k ∈ inside roots kind paths -> name ∈ watch_paths k -> workspace_name name.
Proof.
  intros Hkind (path & -> & (p & _ & Hp)%list_elem_of_omap)%list_elem_of_fmap.
  rewrite Hkind, list_elem_of_singleton. intros ->. by eapply relative_name.
Qed.

Lemma mapped_rename_names from to k name :
  k ∈ mapped_rename roots from to -> name ∈ watch_paths k -> workspace_name name.
Proof.
  unfold mapped_rename. pose proof (relative_name from) as Hfrom. pose proof (relative_name to) as Hto.
  destruct (workspace_relative_event_path roots from) as [f|],
    (workspace_relative_event_path roots to) as [t|]; cbn; [..|by intros ?%elem_of_nil];
    intros ->%list_elem_of_singleton; cbn [watch_paths]; rewrite ?elem_of_cons, elem_of_nil;
    intuition (subst; auto).
Qed.

(** Whatever an event names, what the subscribers are told names nothing outside the workspace. *)
Lemma announced_names_stay_inside event k name :
  k ∈ handle_event roots event -> name ∈ watch_paths k -> workspace_name name.
Proof.
  intros Hk Hname. revert Hk. unfold handle_event.
  assert (Hresync : k ∈ [ResyncRequired] -> workspace_name name)
    by (intros ->%list_elem_of_singleton; by apply elem_of_nil in Hname).
  assert (Hnone : k ∈ [] -> workspace_name name) by (by intros ?%elem_of_nil).
  assert (Hinside : forall kind paths, (forall name, watch_paths (kind name) = [name]) ->
            k ∈ inside roots kind paths -> workspace_name name)
    by (intros kind paths Hkind Hk; by eapply inside_names).
  assert (Hrename : forall from to, k ∈ mapped_rename roots from to -> workspace_name name)
    by (intros from to Hk; by eapply mapped_rename_names).
  destruct (ne_rescan event); [done|]. destruct (ne_kind event) as [| | |mode| | |];
    try (done || by apply Hinside).
  - specialize (Hinside WkModify (ne_paths event) (fun _ => eq_refl)). unfold inside in Hinside.
    destruct (omap _ _); [by case_bool_decide|done].
  - destruct mode, (ne_paths event) as [|from [|to rest]]; cbn [handle_rename];
      try (done || by apply Hinside); apply Hrename.
Qed.
End announced.
