(* ===== verification/Startup.v ===== *)
(** How a gateway starts: its settings as one ([server/config.rs]), the bearer token of its HTTP
    transport ([server/auth.rs], [server/http.rs]), and the private directory of a Runner's socket
    ([runner/socket.rs]). *)
From S2P Require Import Prelude Policy Contract Files.

(** * Settings *)

Inductive TransportMode := Stdio | Http.
Inductive RunnerMode := InProcess | Uds.
Inductive RunnerLifecycleMode := LifecycleManaged | LifecycleIndependent.

#[export] Instance RunnerMode_eq_dec : EqDecision RunnerMode.
Proof. solve_decision. Defined.

(** What the lifecycle, the transport and the token are made of. *)
Record Cli := mkCli {
  cl_http : bool;
  cl_transport : TransportMode;
  cl_host : string;
  cl_port : Z;
  cl_token : option string;
  cl_operations_db : option string;
  cl_runner : RunnerMode;
  cl_runner_socket : option string;
  cl_runner_dir : option string;
  cl_runtime_bin : option string;
  cl_runner_lifecycle : RunnerLifecycleMode;
  cl_runner_exit_intent : option RunnerExitIntent
}.

Definition lifecycle (cli : Cli) : result string GatewayLifecycle :=
  match cl_runner_lifecycle cli, cl_runner_exit_intent cli with
  | LifecycleManaged, None => Ok ManagedRunner
  | LifecycleManaged, Some _ => Err "--runner-exit-intent is only for --runner-lifecycle independent"
  | LifecycleIndependent, None =>
      Err "--runner-lifecycle independent needs --runner-exit-intent detach or stop"
  | LifecycleIndependent, Some exit_intent =>
      if bool_decide (cl_runner cli <> Uds)
      then Err "--runner-lifecycle independent needs --runner uds"
      else if bool_decide (is_Some (cl_runtime_bin cli) \/ is_Some (cl_runner_dir cli))
      then Err ("--runner-lifecycle independent connects to a Runner that an operator or a harness "
                +:+ "started; --runtime-bin and --runner-dir are for a worker the gateway starts")
      else if bool_decide (cl_runner_socket cli = None)
      then Err "--runner-lifecycle independent needs --runner-socket"
      else if bool_decide (cl_operations_db cli = None)
      then Err "--runner-lifecycle independent needs --operations-db"
      else Ok (IndependentRunnerOf exit_intent)
  end.

Definition mode (cli : Cli) : TransportMode := if cl_http cli then Http else cl_transport cli.

Record HttpConfig := mkHttpConfig {
  hc_host : string;
  hc_port : Z;
  hc_bearer_token : option string
}.

Definition http_config (cli : Cli) : HttpConfig :=
  mkHttpConfig (cl_host cli) (cl_port cli)
    (token ← trim <$> cl_token cli; if bool_decide (token = "") then None else Some token).

(** An independent Runner is only taken with all that its executions need to outlive the gateway:
    a socket to connect to, a database for their records, and what a shutdown asks of it. *)
Lemma independent_settings cli intent :
  lifecycle cli = Ok (IndependentRunnerOf intent) <->
    cl_runner_lifecycle cli = LifecycleIndependent /\ cl_runner_exit_intent cli = Some intent /\
    cl_runner cli = Uds /\ cl_runtime_bin cli = None /\ cl_runner_dir cli = None /\
    is_Some (cl_runner_socket cli) /\ is_Some (cl_operations_db cli).
Proof.
  unfold lifecycle.
  destruct cli as [http transport host port token [db|] runner [socket|] [dir|] [bin|] [] [i|]];
    cbn; repeat case_bool_decide; split; try done; unfold is_Some in *; naive_solver.
Qed.

(** * The bearer token *)

(** A [HeaderMap]: names in lower case, values as bytes, in order. *)
Abbreviation HeaderMap := (list (string * list ascii)).

Definition header_get (name : string) (headers : HeaderMap) : option (list ascii) :=
  snd <$> head (List.filter (fun h => bool_decide (h.1 = name)) headers).

(** [HeaderValue::to_str]: visible ASCII and tabs only. *)
Definition visible_ascii (a : ascii) : bool :=
  let n := N_of_ascii a in bool_decide (32 <= n < 127)%N || bool_decide (n = 9)%N.

Definition header_text (value : list ascii) : option string :=
  if forallb visible_ascii value then Some (of_text value) else None.

(** [str::strip_prefix]. *)
Fixpoint strip_text_prefix (prefix s : string) : option string :=
  match prefix, s with
  | "", _ => Some s
  | String a prefix, String b s => if Ascii.eqb a b then strip_text_prefix prefix s else None
  | String _ _, "" => None
  end.

(** [ct_eq] compares every byte; the lengths are compared before it. *)
Definition ct_eq (left right : list ascii) : bool :=
  forallb (fun '(a, b) => Ascii.eqb a b) (combine left right).

Definition tokens_match (a b : string) : bool :=
  let left := text a in
  let right := text b in
  if negb (length left =? length right)%nat then false else ct_eq left right.

(** A response of the middleware; [None] lets the request through. *)
Inductive Denied := Unauthorized.

Definition presented_token (headers : HeaderMap) : option string :=
  value ← header_get "authorization" headers;
  value ← header_text value;
  strip_text_prefix "Bearer " value.

Definition authorize_headers (headers : HeaderMap) (expected : option string) : option Denied :=
  match expected with
  | None => None
  | Some expected =>
      match presented_token headers with
      | Some token => if tokens_match token expected then None else Some Unauthorized
      | None => Some Unauthorized
      end
  end.

(** [bearer_middleware], around the inbox's routes and the MCP service alike. *)
Definition bearer_middleware {Response} (config : HttpConfig) (headers : HeaderMap)
    (unauthorized : Response) (next : Response) : Response :=
  match authorize_headers headers (hc_bearer_token config) with
  | Some Unauthorized => unauthorized
  | None => next
  end.

Lemma ct_eq_spec left right : length left = length right -> ct_eq left right = true <-> left = right.
Proof.
  unfold ct_eq. revert right. induction left as [|a left IH]; intros [|b right]; cbn; try done.
  intros [= Hlen]. rewrite andb_true_iff, Ascii.eqb_eq, (IH right Hlen). naive_solver.
Qed.

Lemma tokens_match_spec a b : tokens_match a b = true <-> a = b.
Proof.
  unfold tokens_match. destruct (Nat.eqb_spec (length (text a)) (length (text b))) as [Hlen|Hlen]; cbn.
  - rewrite ct_eq_spec by done. split; [|by intros ->]. unfold text. intros Ht.
    by rewrite <- (String.string_of_list_ascii_of_string a), Ht, String.string_of_list_ascii_of_string.
  - split; [done|]. by intros ->.
Qed.

Lemma strip_text_prefix_spec prefix s rest : strip_text_prefix prefix s = Some rest <-> s = prefix +:+ rest.
Proof.
  revert s. induction prefix as [|a prefix IH]; intros s.
  - split; [by intros [= ->]|by intros ->].
  - destruct s as [|b s]; cbn; [done|]. destruct (Ascii.eqb_spec a b) as [->|Hne].
    + rewrite IH. split; [by intros ->|by intros [= ->]].
    + split; [done|]. intros [= -> _]. done.
Qed.

Lemma header_text_spec value s :
  header_text value = Some s <-> value = text s /\ forallb visible_ascii (text s) = true.
Proof.
  unfold header_text, of_text, text. destruct (forallb visible_ascii value) eqn:Hv; split.
  - intros [= <-]. by rewrite String.list_ascii_of_string_of_list_ascii.
  - intros [-> _]. by rewrite String.string_of_list_ascii_of_string.
  - done.
  - intros [-> Ht]. unfold text in *. congruence.
Qed.

(** With a token in the settings, the gateway's HTTP transport serves nothing but requests
    whose first authorization header is [Bearer] and exactly that token, without the blanks around
    it; every other request gets the same refusal, whatever it asks for. Without a token, or with
    a blank one, every request is served. *)
Theorem only_bearers_are_served {Response} cli headers (unauthorized next : Response) :
  let served := bearer_middleware (http_config cli) headers unauthorized next in
  match cl_token cli with
  | Some token =>
      if bool_decide (trim token = "") then served = next
      else if bool_decide (header_get "authorization" headers = Some (text ("Bearer " +:+ trim token)) /\
                           forallb visible_ascii (text (trim token)) = true)
      then served = next
      else served = unauthorized
  | None => served = next
  end.
Proof.
  unfold bearer_middleware, http_config, authorize_headers. cbn.
  destruct (cl_token cli) as [token|]; [|done]. cbn. case_bool_decide; [done|]. cbn.
  assert (Hget : forall presented,
    presented_token headers = Some presented <->
    header_get "authorization" headers = Some (text ("Bearer " +:+ presented)) /\
      forallb visible_ascii (text presented) = true).
  { intros presented. unfold presented_token. destruct (header_get "authorization" headers) as [value|];
      cbn [mbind option_bind]; [|split; [done|by intros [? _]]]. split.
    - intros (s & [-> Hs]%header_text_spec & ->%strip_text_prefix_spec)%bind_Some. by split.
    - intros [[= ->] Hs]. apply bind_Some. exists ("Bearer " +:+ presented). split.
      + by apply header_text_spec.
      + by apply strip_text_prefix_spec. }
  case_bool_decide as Hb.
  - apply Hget in Hb. rewrite Hb. by rewrite (proj2 (tokens_match_spec _ _)).
  - destruct (presented_token headers) as [presented|] eqn:Hp; [|done].
    destruct (tokens_match presented (trim token)) eqn:Hm; [|done].
    apply tokens_match_spec in Hm as ->. by destruct Hb; apply Hget.
Qed.

(** * The directory of a Runner's socket *)

(** What is at a path, without following a link. *)
Inductive Entry := EDir (uid mode : Z) | ELink | EFile | ESocket.
Abbreviation SocketDisk := (gmap Path Entry).
Implicit Types d : SocketDisk.

(** The user, its [umask] and environment; a path's canonical form; why a directory cannot be
    created where there is nothing; what a connection to a path answers, and the removal of what
    is there; the wall clock in nanoseconds at each try. *)
Inductive Connected := ConnLive | ConnNotFound | ConnRefused | ConnFailed (e : string).

Record SocketHost := mkSocketHost {
  so_euid : Z;
  so_umask : Z;
  so_pid : Z;
  so_home : option string;
  so_cwd : option Path;
  so_temp_dir : Path;
  so_canonicalize : Path -> option Path;
  so_mkdir : Path -> option string;
  so_lstat : option string;
  so_connect : Connected;
  so_remove : option string;
  so_nanos : nat -> Z
}.

Section rendezvous.
Context (h : SocketHost).

Definition path_is_absolute (path : Path) : bool :=
  match path with RootDir :: _ => true | _ => false end.

Definition normalize_path (path : Path) : Path :=
  default (if path_is_absolute path then path
           else match so_cwd h with
                | Some cwd => cwd ++ filter (fun c => c <> CurDir) path
                | None => path
                end)
    (so_canonicalize h path).

Definition forbidden_runner_bases : list Path :=
  (fun base => normalize_path (components base)) <$>
    ["/"; "/tmp"; "/var/tmp"] ++
      option_list (home ← so_home h; if bool_decide (home = "") then None else Some home).

Definition is_forbidden_runner_dir (path : Path) : bool :=
  bool_decide (normalize_path path ∈ forbidden_runner_bases).

Inductive MkdirError := AlreadyExists | MkdirFailed (e : string).

(** [DirBuilder::create] with a mode. *)
Definition mkdir (mode : Z) (path : Path) d : result MkdirError unit * SocketDisk :=
  match d !! path, so_mkdir h path with
  | Some _, _ => (Err AlreadyExists, d)
  | None, Some e => (Err (MkdirFailed e), d)
  | None, None => (Ok tt, <[path := EDir (so_euid h) (Z.land mode (Z.lnot (so_umask h)))]> d)
  end.

(** [{:o}] and [{:x}] of a number that is not negative. *)
Fixpoint radix_digits (base : Z) (fuel : nat) (n : Z) : string :=
  let digit := String (ascii_of_N (Z.to_N (let d := n mod base in if d <? 10 then 48 + d else 87 + d)%Z)) "" in
  match fuel with
  | 0 => ""
  | S fuel => if (n <? base)%Z then digit else radix_digits base fuel (n / base)%Z +:+ digit
  end.
Definition radix (base n : Z) : string := radix_digits base (S (Z.to_nat (Z.log2 n))) n.

(** 0700, and the permission bits. *)
Definition MODE_PRIVATE : Z := 448.
Definition MODE_BITS : Z := 511.

Definition is_directory (e : Entry) : bool := match e with EDir _ _ => true | _ => false end.

Definition entry_kind (e : Entry) : string :=
  match e with ELink => "a symbolic link" | EDir _ _ => "a directory" | _ => "not a directory" end.

(** [uid_mode] is what [lstat] states of an entry that is not a directory. *)
Context (uid_mode : Path -> Z * Z).

Definition entry_owner (path : Path) (e : Entry) : Z * Z :=
  match e with EDir uid mode => (uid, mode) | _ => uid_mode path end.

Definition prepare_runner_socket_dir (dir : Path) d : result string bool * SocketDisk :=
  if is_forbidden_runner_dir dir then
    (Err ("the runner socket's directory must not be /, /tmp, /var/tmp, or $HOME (got "
          +:+ path_text dir +:+ ")"), d)
  else
    match mkdir MODE_PRIVATE dir d with
    | (Ok _, d) => (Ok true, d)
    | (Err (MkdirFailed e), d) => (Err e, d)
    | (Err AlreadyExists, d) =>
        match so_lstat h, d !! dir with
        | Some e, _ => (Err e, d)
        | None, None => (Err "No such file or directory (os error 2)", d)
        | None, Some entry =>
            let '(uid, mode) := entry_owner dir entry in
            let mode := Z.land mode MODE_BITS in
            if negb (is_directory entry) || bool_decide (uid <> so_euid h \/ mode <> MODE_PRIVATE)
            then (Err ("the runner socket's directory " +:+ path_text dir +:+ " must be a directory of this user with "
                       +:+ "mode 0700 (found " +:+ entry_kind entry +:+ ", owner " +:+ pretty uid +:+ ", mode "
                       +:+ radix 8 mode +:+ "); it is never changed"), d)
            else (Ok false, d)
        end
    end.

(** [create_unique_leaf]. [nonce] is [DIR_NONCE]; [try_] counts the tries, of which it makes 64. *)
Definition leaf_name (prefix : string) (nonce : Z) (try_ : nat) : string :=
  prefix +:+ "-" +:+ pretty (so_pid h) +:+ "-" +:+ radix 16 (so_nanos h try_) +:+ "-" +:+ radix 16 nonce.

Fixpoint create_unique_leaf_by (tries : nat) (parent : Path) (prefix : string) (try_ : nat) (nonce : Z) d
    : result string Path * Z * SocketDisk :=
  match tries with
  | 0 => (Err "could not allocate a unique runner directory", nonce, d)
  | S tries =>
      let path := parent ++ [Normal (leaf_name prefix nonce try_)] in
      let nonce := as_u64 (nonce + 1) in
      match mkdir MODE_PRIVATE path d with
      | (Ok _, d) => (Ok path, nonce, d)
      | (Err AlreadyExists, d) => create_unique_leaf_by tries parent prefix (S try_) nonce d
      | (Err (MkdirFailed e), d) => (Err e, nonce, d)
      end
  end.

Definition LEAF_TRIES : nat := 64.
Definition create_unique_leaf (parent : Path) (prefix : string) (nonce : Z) d :=
  create_unique_leaf_by LEAF_TRIES parent prefix 0 nonce d.

(** [create_dir_all]: every directory of the path that is missing, from the root on. *)
Definition paths_to (path : Path) : list Path := (fun n => take n path) <$> seq 1 (length path).

Fixpoint create_dirs (paths : list Path) d : option string * SocketDisk :=
  match paths with
  | [] => (None, d)
  | path :: paths =>
      match mkdir MODE_BITS path d with
      | (Ok _, d) | (Err AlreadyExists, d) => create_dirs paths d
      | (Err (MkdirFailed e), d) => (Some e, d)
      end
  end.

Definition allocate_private_runner_dir (base : option Path) (nonce : Z) d
    : result string Path * Z * SocketDisk :=
  match base with
  | None => create_unique_leaf (so_temp_dir h) "codespace-runner" nonce d
  | Some base =>
      if is_forbidden_runner_dir base then
        (Err ("runner dir must not be /, /tmp, /var/tmp, or $HOME (got " +:+ path_text base +:+ ")"), nonce, d)
      else
        match (if bool_decide (is_Some (d !! base)) then (None, d) else create_dirs (paths_to base) d) with
        | (Some e, d) => (Err e, nonce, d)
        | (None, d) => create_unique_leaf base "run" nonce d
        end
  end.

(** [reclaim_leftover_socket]. [so_remove] is [None] for what can be removed. *)
Definition socket_in_use (p : Path) : string :=
  "runner socket is already in use at " +:+ path_text p.

Definition reclaim_leftover_socket (p : Path) d : result string unit * SocketDisk :=
  match so_connect h with
  | ConnLive => (Err (socket_in_use p), d)
  | ConnNotFound => (Ok tt, d)
  | ConnRefused =>
      match d !! p, so_remove h with
      | None, _ => (Ok tt, d)
      | Some _, Some e => (Err e, d)
      | Some _, None => (Ok tt, delete p d)
      end
  | ConnFailed e => if bool_decide (d !! p = None) then (Ok tt, d) else (Err e, d)
  end.

(** *** An independent Runner's own ([serve_independent] of the worker)

    [bind] is why its socket cannot be bound where there is nothing. *)
Record Rendezvous := mkRendezvous { rv_socket : Path; rv_dir : option Path }.

Definition rendezvous_remove_dir (r : Rendezvous) d : SocketDisk :=
  match rv_dir r with
  | Some dir =>
      match d !! dir with
      | Some (EDir _ _) =>
          if bool_decide (map_Forall (fun p _ => parent p <> Some dir) d) then delete dir d else d
      | _ => d
      end
  | None => d
  end.

Definition rendezvous_remove (r : Rendezvous) d : SocketDisk :=
  rendezvous_remove_dir r
    (match d !! rv_socket r with
     | Some (EDir _ _) | None => d
     | Some _ => delete (rv_socket r) d
     end).

Definition listen_independent (bind : option string) (socket : Path) d
    : result (Z * string) Rendezvous * SocketDisk :=
  match parent socket with
  | None | Some [] => (Err (2%Z, "the socket's path needs a directory"), d)
  | Some dir =>
      match prepare_runner_socket_dir dir d with
      | (Err e, d) => (Err (1%Z, e), d)
      | (Ok created, d) =>
          let r := mkRendezvous socket (if (created : bool) then Some dir else None) in
          match reclaim_leftover_socket socket d with
          | (Err e, d) => (Err (1%Z, e), rendezvous_remove_dir r d)
          | (Ok _, d) =>
              let failed e := (Err (1%Z, "bind " +:+ path_text socket +:+ ": " +:+ e), rendezvous_remove_dir r d) in
              match d !! socket, bind with
              | Some _, _ => failed "Address already in use (os error 98)"
              | None, Some e => failed e
              | None, None => (Ok r, <[socket := ESocket]> d)
              end
          end
      end
  end.

(** ** What it promises *)

Lemma mkdir_spec m path d r d' :
  mkdir m path d = (r, d') ->
  match r with
  | Ok _ => d !! path = None /\ d' = <[path := EDir (so_euid h) (Z.land m (Z.lnot (so_umask h)))]> d
  | Err _ => d' = d
  end.
Proof.
  unfold mkdir. destruct (d !! path) eqn:Hp; [by intros [= <- <-]|].
  destruct (so_mkdir h path); by intros [= <- <-].
Qed.

(** Nobody else may enter it. *)
Definition private (e : Entry) : Prop :=
  exists m, e = EDir (so_euid h) m /\ Z.land m 63 = 0%Z.

Lemma made_private : private (EDir (so_euid h) (Z.land MODE_PRIVATE (Z.lnot (so_umask h)))).
Proof.
  eexists. split; [done|]. rewrite <- Z.land_assoc, (Z.land_comm _ 63), Z.land_assoc.
  by change (Z.land MODE_PRIVATE 63) with 0%Z.
Qed.

(** An independent Runner binds its socket only in a directory that is its user's alone, and none
    of those that many share: one that it created, or one that was so before, which it leaves as
    it is. Otherwise nothing is changed. *)
Theorem rendezvous_is_private dir d :
  match prepare_runner_socket_dir dir d with
  | (Ok created, d') =>
      is_forbidden_runner_dir dir = false /\
      (exists e, d' !! dir = Some e /\ exists m, e = EDir (so_euid h) m /\
         (if created then Z.land m 63 = 0 else Z.land m MODE_BITS = MODE_PRIVATE)%Z) /\
      (if created then d !! dir = None /\ delete dir d' = d else d' = d)
  | (Err _, d') => d' = d
  end.
Proof.
  unfold prepare_runner_socket_dir. destruct (is_forbidden_runner_dir dir); [done|].
  destruct (mkdir MODE_PRIVATE dir d) as [r d1] eqn:Hmk. pose proof (mkdir_spec _ _ _ _ _ Hmk) as H.
  destruct r as [[]|[|e]]; subst; [|..|done].
  - destruct H as [Hnew ->]. split_and!; [done| |done|by apply delete_insert_id].
    eexists. split; [apply lookup_insert_eq|]. apply made_private.
  - destruct (so_lstat h); [done|]. destruct (d !! dir) as [entry|] eqn:He; [|done].
    destruct (entry_owner dir entry) as [uid m] eqn:Ho.
    destruct (negb (is_directory entry) || _) eqn:Hc; [done|].
    apply orb_false_iff in Hc as [Hdir Hown]. apply bool_decide_eq_false in Hown.
    destruct entry as [u m'| | |]; try done. injection Ho as -> ->.
    destruct (decide (uid = so_euid h)) as [->|]; [|by destruct Hown; left].
    destruct (decide (Z.land m MODE_BITS = MODE_PRIVATE)) as [Hm|]; [|by destruct Hown; right].
    split_and!; [done| |done]. by exists (EDir (so_euid h) m); split; [|exists m].
Qed.

(** The directory of a worker's socket is a new one, that only its user may enter. *)
Lemma unique_leaf_is_new tries parent prefix try_ nonce d leaf nonce' d' :
  create_unique_leaf_by tries parent prefix try_ nonce d = (Ok leaf, nonce', d') ->
  d !! leaf = None /\ exists e, private e /\ d' = <[leaf := e]> d.
Proof.
  revert try_ nonce. induction tries as [|tries IH]; intros try_ nonce; cbn [create_unique_leaf_by]; [done|].
  destruct (mkdir _ _ _) as [r d1] eqn:Hmk. pose proof (mkdir_spec _ _ _ _ _ Hmk) as H.
  destruct r as [[]|[|e]]; [|subst; apply IH|done]. destruct H as [Hnew ->]. intros [= <- _ <-].
  split; [done|]. eexists. split; [apply made_private|done].
Qed.

(** A leftover is removed only where nothing answers, and nothing else is touched. *)
Lemma reclaim_removes_only_leftovers path d r d' :
  reclaim_leftover_socket path d = (r, d') ->
  d' = d \/ so_connect h = ConnRefused /\ r = Ok tt /\ d' = delete path d.
Proof.
  unfold reclaim_leftover_socket. destruct (so_connect h).
  - intros [= _ <-]. by left.
  - intros [= _ <-]. by left.
  - destruct (d !! path); [|intros [= _ <-]; by left].
    destruct (so_remove h); [intros [= _ <-]; by left|]. intros [= <- <-]. by right.
  - case_bool_decide; intros [= _ <-]; by left.
Qed.

(** A directory is there before what is in it. *)
Definition rooted_in dir d : Prop := d !! dir = None -> map_Forall (fun p _ => parent p <> Some dir) d.

Lemma remove_new_dir socket dir u m d :
  parent socket = Some dir -> d !! dir = None -> rooted_in dir d -> parent dir <> Some dir ->
  rendezvous_remove_dir (mkRendezvous socket (Some dir)) (<[dir := EDir u m]> d) = d.
Proof.
  intros Hp Hnew Hroot Hown. unfold rendezvous_remove_dir. cbn. rewrite lookup_insert_eq, bool_decide_eq_true_2.
  - by apply delete_insert_id.
  - apply map_Forall_insert_2; [done|]. by apply Hroot.
Qed.

(** An independent Runner leaves nothing behind: whether it is refused or ends after it served, the
    directory that it created for its socket is gone with the socket, and what was there before is
    as it was, but for a socket on which nobody listened. *)
Theorem runners_leave_no_rendezvous bind socket dir d :
  parent socket = Some dir -> parent dir <> Some dir -> rooted_in dir d ->
  let left := match listen_independent bind socket d with
              | (Ok r, d') => rendezvous_remove r d'
              | (Err _, d') => d'
              end in
  left = d \/ so_connect h = ConnRefused /\ left = delete socket d.
Proof.
  intros Hp Hown Hroot left. unfold left, listen_independent. rewrite Hp. destruct dir as [|c names]; [by left|].
  set (dir := c :: names) in *. pose proof (rendezvous_is_private dir d) as Hprep.
  destruct (prepare_runner_socket_dir dir d) as [[created|e] d1]; [|by left].
  destruct Hprep as (_ & (e & He & m & -> & _) & Hd1). destruct (reclaim_leftover_socket socket d1) as [r d2] eqn:Hrec.
  pose proof (reclaim_removes_only_leftovers _ _ _ _ Hrec) as Hleft. destruct created.
  - destruct Hd1 as [Hnew Hd].
    assert (Hone : d1 = <[dir := EDir (so_euid h) m]> d) by (rewrite <- Hd; by rewrite insert_delete_eq, insert_id).
    assert (Hsock : d !! socket = None).
    { destruct (d !! socket) eqn:Hs; [|done]. by destruct (Hroot Hnew socket _ Hs). }
    assert (Hne : socket <> dir) by (intros ->; by rewrite Hp in Hown).
    assert (d2 = d1) as ->.
    { destruct Hleft as [->|(_ & _ & ->)]; [done|]. apply delete_id. rewrite Hone. by rewrite lookup_insert_ne. }
    rewrite Hone. clear Hone He Hd Hrec Hleft.
    assert (Hgone : rendezvous_remove_dir (mkRendezvous socket (Some dir)) (<[dir := EDir (so_euid h) m]> d) = d)
      by by apply remove_new_dir.
    left. destruct r as [[]|e]; [|by rewrite Hgone]. rewrite lookup_insert_ne, Hsock by done.
    destruct bind; [by rewrite Hgone|]. unfold rendezvous_remove. cbn [rv_socket].
    rewrite lookup_insert_eq, delete_insert_id by (by rewrite lookup_insert_ne). done.
  - subst d1. assert (Hkeep : forall d', rendezvous_remove_dir (mkRendezvous socket None) d' = d') by done.
    destruct r as [[]|e].
    + destruct (d2 !! socket) eqn:Hs2; [by rewrite Hkeep; destruct Hleft as [->|(? & _ & ->)]; auto|].
      destruct bind; [by rewrite Hkeep; destruct Hleft as [->|(? & _ & ->)]; auto|].
      unfold rendezvous_remove. cbn [rv_socket]. rewrite lookup_insert_eq, Hkeep, delete_insert_id by done.
      destruct Hleft as [->|(? & _ & ->)]; auto.
    + rewrite Hkeep. destruct Hleft as [->|(? & _ & ->)]; auto.
Qed.
End rendezvous.
