(* ===== verification/Descriptors.v ===== *)
(** Which descriptors a child of the Runner inherits ([runner/descriptors.rs]): the step that runs
    in the forked child before its exec, on the child's own descriptor table. *)
From S2P Require Import Prelude Supervisor Files Procfs.
Open Scope Z_scope.

(** * The descriptor table and the calls on it *)

(** The descriptors of a process, with the flags that [F_GETFD] reports. *)
Abbreviation Fds := (gmap Z Z).
Implicit Types t : Fds.

Definition FD_CLOEXEC : Z := 1.

Definition EBADF : Z := 9.
Definition EINTR : Z := 4.
Definition EIO : Z := 5.
Definition ENOENT : Z := 2.
Definition ENODATA : Z := 61.
Definition ENOTSUP : Z := 95.

Inductive Platform := Linux | MacOs | OtherPlatform.

(** What the kernel does for the child: whether [close_range] works; the error of [F_GETFD] and of
    [F_SETFD] for an open descriptor, if any; on Linux that of [openat], and the reads of
    [/proc/self/status], of which the last is the end of the file; on macOS what [proc_pidinfo]
    returns and [errno] after it. *)
Record ForkedChild := mkForkedChild {
  fk_platform : Platform;
  fk_close_range : bool;
  fk_getfd : Z -> option Z;
  fk_setfd : Z -> option Z;
  fk_open : option Z;
  fk_reads : list (result Z (list ascii));
  fk_pidinfo : Z * Z
}.

(** [fcntl(fd, F_GETFD)] and [errno] after it. *)
Definition getfd (k : ForkedChild) (fd : Z) t : Z * Z :=
  match t !! fd with
  | None => (-1, EBADF)
  | Some flags => match fk_getfd k fd with Some e => (-1, e) | None => (flags, 0) end
  end.

Definition setfd (k : ForkedChild) (fd flags : Z) t : result Z unit * Fds :=
  match fk_setfd k fd with Some e => (Err e, t) | None => (Ok tt, <[fd := flags]> t) end.

(** * Marking one descriptor *)

Inductive Probe := NotOpen | CloseOnExec | Inheritable (flags : Z) | Failed (errno : Z).

Definition classify_flags (flags errno : Z) : Probe :=
  if bool_decide (flags < 0)
  then if bool_decide (errno = EBADF) then NotOpen else Failed errno
  else if bool_decide (Z.land flags FD_CLOEXEC <> 0) then CloseOnExec
  else Inheritable flags.

Definition mark_close_on_exec (k : ForkedChild) (fd : Z) t : result Z unit * Fds :=
  let '(flags, errno) := getfd k fd t in
  match classify_flags flags (if bool_decide (flags < 0) then errno else 0) with
  | NotOpen | CloseOnExec => (Ok tt, t)
  | Failed code => (Err code, t)
  | Inheritable flags => setfd k fd (Z.lor flags FD_CLOEXEC) t
  end.

Definition keep_open (k : ForkedChild) (fd : Z) t : result Z unit * Fds :=
  let '(flags, errno) := getfd k fd t in
  if bool_decide (flags < 0) then (Err errno, t)
  else setfd k fd (Z.land flags (Z.lnot FD_CLOEXEC)) t.

(** * The size of the table *)

Definition os_error_or (fallback errno : Z) : Z := if bool_decide (errno = 0) then fallback else errno.

Definition FD_SIZE_KEY : list ascii := "010"%char :: text "FDSize:".
Definition C_INT_MAX : Z := 2 ^ 31 - 1.

(** [windows(..).position(..)]: what follows the first occurrence of the key. *)
Fixpoint after_key (key bytes : list ascii) : option (list ascii) :=
  if bool_decide (take (length key) bytes = key) then Some (drop (length key) bytes)
  else match bytes with [] => None | _ :: bytes => after_key key bytes end.

Definition checked_c_int (z : Z) : option Z := if bool_decide (z <= C_INT_MAX) then Some z else None.

Definition blank_byte (a : ascii) : bool := bool_decide (a = " "%char \/ a = "009"%char).

Fixpoint fd_size_value (bytes : list ascii) (value : Z) (digits : nat) : option Z :=
  let done := if bool_decide (0 < digits)%nat then Some value else None in
  match bytes with
  | [] => done
  | byte :: bytes =>
      if blank_byte byte && bool_decide (digits = 0%nat) then fd_size_value bytes value digits
      else
        match digit_value byte with
        | Some d =>
            value ← checked_c_int (value * 10);
            value ← checked_c_int (value + d);
            fd_size_value bytes value (S digits)
        | None => done
        end
  end.

Definition parse_fd_size (status : list ascii) : option Z :=
  rest ← after_key FD_SIZE_KEY status; fd_size_value rest 0 0.

Definition STATUS_BUFFER : nat := 4096.

(** The loop of reads into the buffer; an interrupted one is made again. *)
Fixpoint read_status (reads : list (result Z (list ascii))) (filled : list ascii)
    : result Z (list ascii) :=
  if bool_decide (STATUS_BUFFER <= length filled)%nat then Ok filled
  else
    match reads with
    | [] | Ok [] :: _ => Ok filled
    | Ok bytes :: reads => read_status reads (filled ++ take (STATUS_BUFFER - length filled) bytes)
    | Err e :: reads =>
        if bool_decide (e = EINTR) then read_status reads filled else Err (os_error_or EIO e)
    end.

Definition PROC_FDINFO_SIZE : Z := 8.

(** The descriptor that Linux's reads need is closed again before the walk. *)
Definition descriptor_table_size (k : ForkedChild) : result Z Z :=
  match fk_platform k with
  | Linux =>
      match fk_open k with
      | Some e => Err (os_error_or ENOENT e)
      | None =>
          status ← read_status (fk_reads k) [];
          match parse_fd_size status with Some size => Ok size | None => Err ENODATA end
      end
  | MacOs =>
      let '(bytes, e) := fk_pidinfo k in
      if bool_decide (bytes <= 0) then Err (os_error_or EIO e) else Ok (bytes `quot` PROC_FDINFO_SIZE)
  | OtherPlatform => Err ENOTSUP
  end.

(** * The whole step *)

(** Failures that the tests force. *)
Record Forced := mkForced { fo_close_range : bool; fo_table : bool }.
Definition FORCED_NONE : Forced := mkForced false false.

(** [close_range(3, ~0, CLOSE_RANGE_CLOEXEC)] on the table. *)
Definition marked (which : Z -> bool) t : Fds :=
  map_imap (fun fd flags => Some (if which fd then Z.lor flags FD_CLOEXEC else flags)) t.

Definition from_three (fd : Z) : bool := bool_decide (3 <= fd).

Definition close_range_cloexec (k : ForkedChild) t : bool * Fds :=
  if fk_close_range k then (true, marked from_three t) else (false, t).

Fixpoint mark_each (k : ForkedChild) (keep fds : list Z) t : result Z unit * Fds :=
  match fds with
  | [] => (Ok tt, t)
  | fd :: fds =>
      if bool_decide (fd ∈ keep) then mark_each k keep fds t
      else
        match mark_close_on_exec k fd t with
        | (Ok _, t) => mark_each k keep fds t
        | (Err e, t) => (Err e, t)
        end
  end.

Definition mark_by_table (k : ForkedChild) (forced : Forced) (keep : list Z) t : result Z unit * Fds :=
  match (if fo_table forced then Err ENOTSUP else descriptor_table_size k) with
  | Err e => (Err e, t)
  | Ok size => mark_each k keep (seqZ 3 (size - 3)) t
  end.

Definition mark_unrelated_except (k : ForkedChild) (forced : Forced) (keep : list Z) t
    : result Z unit * Fds :=
  match fk_platform k with
  | Linux =>
      let '(ok, t) := if fo_close_range forced then (false, t) else close_range_cloexec k t in
      if (ok : bool) then (Ok tt, t) else mark_by_table k forced keep t
  | _ => mark_by_table k forced keep t
  end.

Definition mark_unrelated (k : ForkedChild) (forced : Forced) t : result Z unit * Fds :=
  mark_unrelated_except k forced [] t.

Fixpoint keep_each (k : ForkedChild) (keep : list Z) t : result Z unit * Fds :=
  match keep with
  | [] => (Ok tt, t)
  | fd :: keep =>
      match keep_open k fd t with
      | (Ok _, t) => keep_each k keep t
      | (Err e, t) => (Err e, t)
      end
  end.

(** The [pre_exec] steps of [exclude_unrelated] and [exclude_unrelated_except]. *)
Definition exclude_unrelated (k : ForkedChild) t : result Z unit * Fds :=
  mark_unrelated k FORCED_NONE t.

Definition exclude_unrelated_except (k : ForkedChild) (keep : list Z) t : result Z unit * Fds :=
  match mark_unrelated_except k FORCED_NONE keep t with
  | (Ok _, t) => keep_each k keep t
  | (Err e, t) => (Err e, t)
  end.

(** The exec after it, unless the step failed: the program holds what is not close-on-exec. *)
Definition inheritable (flags : Z) : Prop := Z.land flags FD_CLOEXEC = 0.
#[export] Instance inheritable_dec flags : Decision (inheritable flags) := decide (_ = 0).

Definition exec_after (step : Fds -> result Z unit * Fds) t : option Fds :=
  match step t with
  | (Ok _, t) => Some (filter (fun '(_, flags) => inheritable flags) t)
  | (Err _, _) => None
  end.

(** * What marking does *)

Lemma land_cloexec flags : Z.land flags FD_CLOEXEC = Z.b2z (Z.testbit flags 0).
Proof. change FD_CLOEXEC with (Z.ones 1). by rewrite Z.land_ones, Z.bit0_mod by lia. Qed.

Lemma testbit_cloexec n : Z.testbit FD_CLOEXEC n = bool_decide (n = 0).
Proof.
  unfold FD_CLOEXEC. destruct (decide (n = 0)) as [->|Hn]; [done|].
  rewrite bool_decide_eq_false_2 by done. destruct (Z.lt_ge_cases n 0); [by apply Z.testbit_neg_r|].
  apply Z.bits_above_log2; cbn; lia.
Qed.

Lemma inheritable_bit flags : inheritable flags <-> Z.testbit flags 0 = false.
Proof. unfold inheritable. rewrite land_cloexec. by destruct (Z.testbit flags 0). Qed.



Lemma lor_marked flags : ~ inheritable flags -> Z.lor flags FD_CLOEXEC = flags.
Proof.
  rewrite inheritable_bit, not_false_iff_true. intros Hbit. apply Z.bits_inj'. intros n Hn.
  rewrite Z.lor_spec, testbit_cloexec. case_bool_decide; subst; [by rewrite Hbit|by rewrite orb_false_r].
Qed.

Lemma lookup_marked which t fd :
  marked which t !! fd = (fun flags => if which fd then Z.lor flags FD_CLOEXEC else flags) <$> t !! fd.
Proof. unfold marked. rewrite map_lookup_imap. by destruct (t !! fd). Qed.

Lemma marked_none t : marked (fun _ => false) t = t.
Proof. apply map_eq. intros fd. rewrite lookup_marked. by destruct (t !! fd). Qed.

Lemma marked_marked p q t : marked p (marked q t) = marked (fun fd => p fd || q fd) t.
Proof.
  apply map_eq. intros fd. rewrite !lookup_marked. destruct (t !! fd) as [flags|]; [|done]. cbn. f_equal.
  destruct (p fd), (q fd); cbn; rewrite <- ?Z.lor_assoc; done.
Qed.

Lemma marked_ext p q t : (forall fd, is_Some (t !! fd) -> p fd = q fd) -> marked p t = marked q t.
Proof.
  intros Hpq. apply map_eq. intros fd. rewrite !lookup_marked. destruct (t !! fd) eqn:Hfd; [|done].
  cbn. by rewrite Hpq by (rewrite Hfd; by eexists).
Qed.

Definition flags_ok t : Prop := map_Forall (fun _ flags => 0 <= flags) t.

Lemma flags_ok_marked which t : flags_ok t -> flags_ok (marked which t).
Proof.
  intros Hok fd flags. rewrite lookup_marked. intros (f & Hf & ->)%fmap_Some.
  pose proof (Hok fd f Hf) as Hle. cbn in Hle. destruct (which fd); [|done].
  apply Z.lor_nonneg. unfold FD_CLOEXEC. lia.
Qed.

(** ** The size that Linux states ([proc_pid_status(5)])

    The text has one line [FDSize:], a tab and the number. *)












(** * The child

    [EBADF] means that a descriptor is not open, and only that. *)
Section child.
Context (k : ForkedChild) (Hbadf : forall fd, fk_getfd k fd <> Some EBADF).

Lemma mark_close_on_exec_marks fd t t' :
  flags_ok t -> mark_close_on_exec k fd t = (Ok tt, t') -> t' = marked (fun x => bool_decide (x = fd)) t.
Proof using Hbadf.
  intros Hok Hm. assert (Hsame : forall flags, t !! fd = Some flags -> ~ inheritable flags ->
    t = marked (fun x => bool_decide (x = fd)) t).
  { intros flags Hfd Hmarked. apply map_eq. intros x. rewrite lookup_marked. case_bool_decide; subst.
    - rewrite Hfd. cbn. by rewrite lor_marked.
    - by destruct (t !! x). }
  revert Hm. unfold mark_close_on_exec, getfd. destruct (t !! fd) as [flags|] eqn:Hfd.
  - destruct (fk_getfd k fd) as [e|] eqn:He.
    + unfold classify_flags. rewrite !(bool_decide_eq_true_2 (-1 < 0)) by lia.
      rewrite bool_decide_eq_false_2; [done|]. intros ->. by apply (Hbadf fd).
    + pose proof (Hok fd flags Hfd) as Hle. cbn in Hle. unfold classify_flags.
      rewrite !(bool_decide_eq_false_2 (flags < 0)) by lia. case_bool_decide as Hbit.
      * intros [= <-]. by apply (Hsame flags).
      * unfold setfd. destruct (fk_setfd k fd); [done|]. intros [= <-]. apply map_eq. intros x.
        rewrite lookup_marked. case_bool_decide; subst; [by rewrite lookup_insert_eq, Hfd|].
        rewrite lookup_insert_ne by done. by destruct (t !! x).
  - unfold classify_flags. rewrite !(bool_decide_eq_true_2 (-1 < 0)), bool_decide_eq_true_2 by done.
    intros [= <-]. apply map_eq. intros x. rewrite lookup_marked. case_bool_decide; subst.
    + by rewrite Hfd.
    + by destruct (t !! x).
Qed.

Lemma mark_each_marks keep fds t t' :
  flags_ok t -> mark_each k keep fds t = (Ok tt, t') ->
  t' = marked (fun fd => bool_decide (fd ∈ fds /\ fd ∉ keep)) t.
Proof using Hbadf.
  revert t. induction fds as [|fd fds IH]; intros t Hok; cbn.
  - intros [= <-]. symmetry. rewrite (marked_ext _ (fun _ => false)), marked_none; [done|].
    intros fd _. apply bool_decide_eq_false_2. set_solver.
  - case_bool_decide as Hkeep.
    + intros ->%IH; [|done]. apply marked_ext. intros x _. apply bool_decide_ext. set_solver.
    + destruct (mark_close_on_exec k fd t) as [[[]|] t1] eqn:Hm; [|done].
      apply mark_close_on_exec_marks in Hm as ->; [|done].
      intros ->%IH; [|by apply flags_ok_marked]. rewrite marked_marked. apply marked_ext. intros x _.
      rewrite <- bool_decide_or. apply bool_decide_ext. set_solver.
Qed.





Lemma flags_ok_cleared fd flags t :
  flags_ok t -> t !! fd = Some flags -> flags_ok (<[fd := Z.land flags (Z.lnot FD_CLOEXEC)]> t).
Proof using.
  intros Hok Hfd. apply map_Forall_insert_2; [|done]. apply Z.land_nonneg. left. by apply (Hok fd).
Qed.



Lemma exclude_unrelated_keeps_none t : exclude_unrelated k t = exclude_unrelated_except k [] t.
Proof using.
  unfold exclude_unrelated, exclude_unrelated_except, mark_unrelated.
  by destruct (mark_unrelated_except _ _ _ _) as [[[]|] ?].
Qed.
End child.

(** ** The step succeeds where the kernel does *)
Section kernel.
Context (k : ForkedChild) (Hget : forall fd, fk_getfd k fd = None) (Hset : forall fd, fk_setfd k fd = None).

Lemma mark_close_on_exec_succeeds fd t :
  flags_ok t -> exists t', mark_close_on_exec k fd t = (Ok tt, t').
Proof using Hget Hset.
  intros Hok. unfold mark_close_on_exec, getfd, setfd. rewrite Hget, Hset.
  destruct (t !! fd) as [flags|] eqn:Hfd; cbn; [|by eexists].
  pose proof (Hok fd flags Hfd) as Hle. cbn in Hle. unfold classify_flags.
  rewrite !(bool_decide_eq_false_2 (flags < 0)) by lia. case_bool_decide; by eexists.
Qed.

Lemma mark_each_succeeds keep fds t :
  flags_ok t -> exists t', mark_each k keep fds t = (Ok tt, t').
Proof using Hget Hset.
  assert (Hbadf : forall fd, fk_getfd k fd <> Some EBADF) by (intros fd; by rewrite Hget).
  revert t. induction fds as [|fd fds IH]; intros t Hok; cbn; [by eexists|].
  case_bool_decide; [by apply IH|]. destruct (mark_close_on_exec_succeeds fd t Hok) as [t' Hm].
  rewrite Hm. apply IH. rewrite (mark_close_on_exec_marks k Hbadf fd t t' Hok Hm). by apply flags_ok_marked.
Qed.

Lemma keep_each_succeeds keep t :
  flags_ok t -> Forall (fun fd => is_Some (t !! fd)) keep -> exists t', keep_each k keep t = (Ok tt, t').
Proof using Hget Hset.
  revert t. induction keep as [|fd keep IH]; intros t Hok Hopen; cbn; [by eexists|].
  apply Forall_cons in Hopen as [[flags Hfd] Hopen]. unfold keep_open, getfd, setfd. rewrite Hfd, Hget, Hset.
  pose proof (Hok fd flags Hfd) as Hle. cbn in Hle. rewrite bool_decide_eq_false_2 by lia.
  apply IH; [by eapply flags_ok_cleared|]. eapply Forall_impl; [exact Hopen|]. intros x [f Hx].
  destruct (decide (x = fd)) as [->|]; [rewrite lookup_insert_eq|rewrite lookup_insert_ne by done]; by eexists.
Qed.

(** A child starts where the calls work and what it is to be given is open. *)
Theorem children_start keep t :
  flags_ok t -> Forall (fun fd => is_Some (t !! fd)) keep ->
  (fk_platform k = Linux /\ fk_close_range k = true \/ exists size, descriptor_table_size k = Ok size) ->
  is_Some (exec_after (exclude_unrelated_except k keep) t).
Proof using Hget Hset.
  intros Hok Hopen Hsize. unfold exec_after, exclude_unrelated_except.
  assert (exists t1, mark_unrelated_except k FORCED_NONE keep t = (Ok tt, t1) /\
            exists which, t1 = marked which t) as (t1 & -> & which & ->).
  { assert (Hbadf : forall fd, fk_getfd k fd <> Some EBADF) by (intros fd; by rewrite Hget).
    assert (Hby : (exists size, descriptor_table_size k = Ok size) ->
      exists t1, mark_by_table k FORCED_NONE keep t = (Ok tt, t1) /\ exists which, t1 = marked which t).
    { intros [size Hs]. unfold mark_by_table. cbn. rewrite Hs.
      destruct (mark_each_succeeds keep (seqZ 3 (size - 3)) t Hok) as [t1 Hm]. exists t1. split; [done|].
      eexists. exact (mark_each_marks k Hbadf keep _ t t1 Hok Hm). }
    unfold mark_unrelated_except, close_range_cloexec. cbn. destruct Hsize as [[-> ->]|Hs]; [by eauto|].
    destruct (fk_platform k); [destruct (fk_close_range k); [by eauto|]|..]; by apply Hby. }
  destruct (keep_each_succeeds keep (marked which t)) as [t2 ->]; [by apply flags_ok_marked| |by eexists].
  eapply Forall_impl; [exact Hopen|]. intros fd [flags Hfd]. rewrite lookup_marked, Hfd. by eexists.
Qed.
End kernel.

(** ** A child of a kernel without [close_range] *)





