(* ===== verification/Worker.v ===== *)
(** A gateway's Runner from its start to the gateway's end ([server/main.rs], [server/runtime.rs]):
    which Runner its settings ask for, the task that waits for a worker it started, the wait for the
    worker's socket, and what a shutdown asks of either kind of Runner. *)
From S2P Require Import Prelude Contract Api Files Procfs Threads Courses Startup.

(** * Which Runner *)

Inductive RunnerStart :=
  | StartInProcess
  | ClaimIndependent (socket : string)
  | SpawnWorker (bin : string) (dir : option string) (registered : bool)
  | ConnectExisting (socket : string).

(** [start_runner]. [registers] is whether the owner's registration is asked of a worker. *)
Definition start_runner (cli : Cli) (l : GatewayLifecycle) (registers : bool) : result string RunnerStart :=
  match cl_runner cli with
  | InProcess => Ok StartInProcess
  | Uds =>
      match l, cl_runner_socket cli with
      | IndependentRunnerOf _, Some socket => Ok (ClaimIndependent socket)
      | _, socket =>
          match cl_runtime_bin cli with
          | Some bin => Ok (SpawnWorker bin (cl_runner_dir cli) registers)
          | None =>
              match socket with
              | Some socket => Ok (ConnectExisting socket)
              | None => Err ("uds runner requires --runtime-bin (spawn) or --runner-socket (connect to "
                             +:+ "an existing worker)")
              end
          end
      end
  end.

(** The end of [connect_existing], on what the worker said in its [Hello]: whether it is taken; a
    refused one is let go of. *)
Definition connect_existing (socket : string) (hello : result string RunnerLifecycle)
    : result string unit :=
  match hello with
  | Err e => Err ("runner hello: " +:+ e)
  | Ok Independent =>
      Err ("the worker at " +:+ socket +:+ " is an independent Runner; connect to it with "
           +:+ "--runner-lifecycle independent")
  | Ok Managed => Ok tt
  end.

(** * The worker and the task that waits for it

    Times are in milliseconds. [wk_asked]: when the worker was first asked to end. [wk_permit]: the
    permit of [Notify]. [wk_handle]: the task's handle, until it is taken. *)
Record Worker := mkWorker {
  wk_now : Z;
  wk_running : bool;
  wk_killed : bool;
  wk_reaped : bool;
  wk_asked : option Z;
  wk_permit : bool;
  wk_released : bool;
  wk_finished : bool;
  wk_handle : bool
}.
Implicit Types s : Worker.

Definition worker_start (now : Z) : Worker := mkWorker now true false false None false false false true.

Definition pass_time (now : Z) s : Worker :=
  mkWorker (Z.max now (wk_now s)) (wk_running s) (wk_killed s) (wk_reaped s) (wk_asked s) (wk_permit s)
    (wk_released s) (wk_finished s) (wk_handle s).
Definition exit_worker s : Worker :=
  mkWorker (wk_now s) false (wk_killed s) (wk_reaped s) (wk_asked s) (wk_permit s)
    (wk_released s) (wk_finished s) (wk_handle s).
Definition kill_worker s : Worker :=
  mkWorker (wk_now s) (wk_running s) true (wk_reaped s) (wk_asked s) (wk_permit s)
    (wk_released s) (wk_finished s) (wk_handle s).
Definition reap_worker s : Worker :=
  mkWorker (wk_now s) (wk_running s) (wk_killed s) true (wk_asked s) (wk_permit s)
    (wk_released s) (wk_finished s) (wk_handle s).
(** [notify_one]. *)
Definition notify_worker s : Worker :=
  mkWorker (wk_now s) (wk_running s) (wk_killed s) (wk_reaped s)
    (Some (default (wk_now s) (wk_asked s))) true (wk_released s) (wk_finished s) (wk_handle s).
Definition take_permit s : Worker :=
  mkWorker (wk_now s) (wk_running s) (wk_killed s) (wk_reaped s) (wk_asked s) false
    (wk_released s) (wk_finished s) (wk_handle s).
Definition release_leases s : Worker :=
  mkWorker (wk_now s) (wk_running s) (wk_killed s) (wk_reaped s) (wk_asked s) (wk_permit s)
    true (wk_finished s) (wk_handle s).
Definition end_task s : Worker :=
  mkWorker (wk_now s) (wk_running s) (wk_killed s) (wk_reaped s) (wk_asked s) (wk_permit s)
    (wk_released s) true (wk_handle s).
Definition take_handle s : Worker :=
  mkWorker (wk_now s) (wk_running s) (wk_killed s) (wk_reaped s) (wk_asked s) (wk_permit s)
    (wk_released s) (wk_finished s) false.

(** [WkFirst]: which branch [select!] polls first. [WkClose]: the connection is closed, or its bound
    has passed. [WkConnect]: whether the worker's socket accepts. *)
Inductive WorkerQuery := WkFirst | WkClose | WkConnect.
Definition WorkerReply (q : WorkerQuery) : Type := match q with WkClose => unit | _ => bool end.

Abbreviation working := (call Worker WorkerQuery WorkerReply).
Abbreviation asks_for q := (ask (State := Worker) (Answer := WorkerReply) q).
Abbreviation over a := (@Return Worker WorkerQuery WorkerReply _ a).

Definition WORKER_EXIT_GRACE : Z := 5000.
Definition WORKER_READY_BOUND : Z := 10000.
Definition WORKER_POLL : Z := 20.

(** [child.wait()]. *)
Definition wait_child s : option (unit * Worker) := if wk_running s then None else Some (tt, reap_worker s).

(** [timeout(WORKER_EXIT_GRACE, child.wait())]: whether it exited in time. *)
Definition exited_before (due : Z) s : option (bool * Worker) :=
  if wk_running s then if bool_decide (due <= wk_now s)%Z then Some (false, s) else None
  else Some (true, reap_worker s).

Definition stop_worker : working unit :=
  due ← look (fun s => wk_now s + WORKER_EXIT_GRACE)%Z;
  in_time ← await (exited_before due);
  if (in_time : bool) then over tt
  else _ ← update kill_worker; await wait_child.

(** The two branches of the task's [select!]: whether the shutdown was asked for. *)
Definition ended_or_asked (exit_first : bool) s : option (bool * Worker) :=
  let ended := if wk_running s then None else Some (false, reap_worker s) in
  let asked := if wk_permit s then Some (true, take_permit s) else None in
  if exit_first then match ended with Some r => Some r | None => asked end
  else match asked with Some r => Some r | None => ended end.

Definition wait_task : working bool :=
  exit_first ← asks_for WkFirst;
  asked ← await (ended_or_asked exit_first);
  _ ← (if (asked : bool) then stop_worker else over tt);
  _ ← update release_leases;
  _ ← update end_task;
  over true.

(** [wait_exit]: whether it waited, which the first one does. *)
Definition wait_exit : working bool :=
  _ ← asks_for WkClose;
  _ ← update notify_worker;
  waits ← turn (fun s => (wk_handle s, take_handle s));
  if (waits : bool) then
    await (fun s => if wk_finished s then Some (true, s) else None)
  else over false.

(** [wait_for_socket], with a fuel that it never uses up: whether the socket accepted. *)
Fixpoint wait_for_socket_by (fuel : nat) (deadline : Z) : working (option (result string unit)) :=
  match fuel with
  | 0 => over None
  | S fuel =>
      finished ← look wk_finished;
      if (finished : bool) then over (Some (Err "worker exited before the runner socket was ready"))
      else
        connected ← asks_for WkConnect;
        if (connected : bool) then over (Some (Ok tt))
        else
          waiting ← look (fun s => bool_decide (wk_now s < deadline)%Z);
          if (waiting : bool) then
            due ← look (fun s => wk_now s + WORKER_POLL)%Z;
            _ ← await (fun s => if bool_decide (due <= wk_now s)%Z then Some (tt, s) else None);
            wait_for_socket_by fuel deadline
          else over (Some (Err "worker socket not ready"))
  end.

(** As many tries as fit into the bound, and two more. *)
Definition SOCKET_POLLS : nat := Z.to_nat (WORKER_READY_BOUND / WORKER_POLL) + 2.

Definition wait_for_socket : working (option (result string unit)) :=
  deadline ← look (fun s => wk_now s + WORKER_READY_BOUND)%Z;
  wait_for_socket_by SOCKET_POLLS deadline.

(** ** All of it at once *)

Inductive WorkerTool := WaitTask | WaitExit.
Inductive WorkerOther := WoTick (now : Z) | WoExit | WoNotify.

Definition worker_serve (t : WorkerTool) : working bool :=
  match t with WaitTask => wait_task | WaitExit => wait_exit end.

(** The worker exits by itself, or as it was killed; its connection is lost, or the gateway's
    [RuntimeProcess] is dropped. *)
Definition worker_other (o : WorkerOther) s : Worker :=
  match o with WoTick now => pass_time now s | WoExit => exit_worker s | WoNotify => notify_worker s end.

Definition worker_pool (now : Z) :=
  pool_reachable worker_serve (fun o s s' => s' = worker_other o s) (fun _ _ => False) (worker_start now).

(** * A worker ends with its gateway *)

Definition worker_ok s : Prop :=
  (wk_reaped s = true -> wk_running s = false) /\
  (wk_finished s = true -> wk_reaped s = true /\ wk_released s = true) /\
  (wk_killed s = true -> exists t, wk_asked s = Some t /\ (t + WORKER_EXIT_GRACE <= wk_now s)%Z) /\
  (wk_permit s = true -> is_Some (wk_asked s)) /\
  (forall t, wk_asked s = Some t -> (t <= wk_now s)%Z) /\
  (wk_released s = true -> wk_reaped s = true).

(** How far a call has come. *)
Inductive Stage :=
  | SgBegun
  | SgAsked
  | SgDue (due : Z)
  | SgOverdue
  | SgReaped
  | SgReleased
  | SgFinished.

Definition stage_ok s (g : Stage) : Prop :=
  match g with
  | SgBegun => True
  | SgAsked => is_Some (wk_asked s)
  | SgDue due => exists t, wk_asked s = Some t /\ (t + WORKER_EXIT_GRACE <= due)%Z
  | SgOverdue => exists t, wk_asked s = Some t /\ (t + WORKER_EXIT_GRACE <= wk_now s)%Z
  | SgReaped => wk_reaped s = true
  | SgReleased => wk_reaped s = true /\ wk_released s = true
  | SgFinished => wk_finished s = true
  end.

(** No step takes back what one of the others relies on. *)
Record further s s' : Prop := {
  fu_now : (wk_now s <= wk_now s')%Z;
  fu_asked t : wk_asked s = Some t -> wk_asked s' = Some t;
  fu_reaped : wk_reaped s = true -> wk_reaped s' = true;
  fu_released : wk_released s = true -> wk_released s' = true;
  fu_finished : wk_finished s = true -> wk_finished s' = true
}.

Lemma stage_further s s' g : further s s' -> stage_ok s g -> stage_ok s' g.
Proof.
  intros [Hnow Hasked Hreap Hrel Hfin]. destruct g; cbn; auto.
  - intros [t Ht]. eexists. by apply Hasked.
  - intros (t & Ht & Hle). exists t. auto.
  - intros (t & Ht & Hle). exists t. split; [auto|lia].
  - intros []. auto.
Qed.

Definition pool_ok s (_ : list (event WorkerReply WorkerTool WorkerOther)) (L : list Stage) : Prop :=
  worker_ok s /\ Forall (stage_ok s) L.

Abbreviation stays i Q c g :=
  (upholds (Other := WorkerOther) pool_ok (fun _ (_ : Stage) => True) i Q c g).

(** The rule of a turn: what it makes of the worker and of the call's stage. *)
Lemma stays_turn {A B} i (Q : A -> Stage -> Prop) (step : Worker -> option (B * Worker))
    (k : B -> working A) g :
  (forall s b s', worker_ok s -> stage_ok s g -> step s = Some (b, s') ->
     further s s' /\ worker_ok s' /\ exists g', stage_ok s' g' /\ stays i Q (k b) g') ->
  stays i Q (await step ≫= k) g.
Proof.
  intros Hstep s log L b s' [Hok HL] Hi Hs.
  destruct (Hstep s b s' Hok) as (Hfu & Hok' & g' & Hg' & Hk); [|done|].
  { by eapply Forall_lookup_1 in HL. }
  exists g'. split; [|exact Hk]. split; [done|]. apply Forall_insert; [|done].
  eapply Forall_impl; [exact HL|]. intros g0. by apply stage_further.
Qed.

Lemma stays_update {A B} i (Q : A -> Stage -> Prop) (f : Worker -> B * Worker) (k : B -> working A) g :
  (forall s, worker_ok s -> stage_ok s g ->
     further s (f s).2 /\ worker_ok (f s).2 /\ exists g', stage_ok (f s).2 g' /\ stays i Q (k (f s).1) g') ->
  stays i Q (turn f ≫= k) g.
Proof.
  intros Hf. apply (stays_turn i Q (fun s => Some (f s)) k g). intros s b s' Hok Hg [= Hs].
  specialize (Hf s Hok Hg). by rewrite Hs in Hf.
Qed.

Lemma stays_ask {A} i (Q : A -> Stage -> Prop) q (k : WorkerReply q -> working A) g :
  (forall a, stays i Q (k a) g) -> stays i Q (asks_for q ≫= k) g.
Proof.
  intros Hk s log L HI Hi. exists g. rewrite list_insert_id by done. split_and!; [done..|].
  intros a s1 log1 L1 HI1 Hi1. exists g. rewrite list_insert_id by done. split; [done|]. apply Hk.
Qed.

Lemma further_same s : further s s.
Proof. by split. Qed.

Lemma reap_ok s : wk_running s = false -> worker_ok s -> further s (reap_worker s) /\ worker_ok (reap_worker s).
Proof. intros Hr (H1 & H2 & H3 & H4 & H5 & H6). split; [by split|]. unfold worker_ok. cbn. naive_solver. Qed.

Lemma kill_ok s :
  stage_ok s SgOverdue -> worker_ok s -> further s (kill_worker s) /\ worker_ok (kill_worker s).
Proof. intros Hg (H1 & H2 & H3 & H4 & H5 & H6). split; [by split|]. unfold worker_ok. cbn. naive_solver. Qed.

Lemma take_permit_ok s : worker_ok s -> further s (take_permit s) /\ worker_ok (take_permit s).
Proof. intros (H1 & H2 & H3 & H4 & H5 & H6). split; [by split|]. unfold worker_ok. cbn. naive_solver. Qed.

Lemma release_ok s :
  stage_ok s SgReaped -> worker_ok s -> further s (release_leases s) /\ worker_ok (release_leases s).
Proof. intros Hg (H1 & H2 & H3 & H4 & H5 & H6). split; [by split|]. unfold worker_ok. cbn. naive_solver. Qed.

Lemma end_task_ok s : stage_ok s SgReleased -> worker_ok s -> further s (end_task s) /\ worker_ok (end_task s).
Proof. intros [] (H1 & H2 & H3 & H4 & H5 & H6). split; [by split|]. unfold worker_ok. cbn. naive_solver. Qed.

Lemma take_handle_ok s : worker_ok s -> further s (take_handle s) /\ worker_ok (take_handle s).
Proof. intros (H1 & H2 & H3 & H4 & H5 & H6). split; [by split|]. unfold worker_ok. cbn. naive_solver. Qed.

Lemma notify_ok s : worker_ok s -> further s (notify_worker s) /\ worker_ok (notify_worker s).
Proof.
  intros (H1 & H2 & H3 & H4 & H5 & H6). split; [split; cbn; [done|by intros t ->|done..]|].
  unfold worker_ok. cbn. split_and!; [done|done| |by eexists| |done].
  - intros Hk. destruct (H3 Hk) as (t & -> & Hle). by exists t.
  - intros t [= <-]. destruct (wk_asked s) as [t|]; cbn; [by apply H5|lia].
Qed.

Lemma other_ok o s : worker_ok s -> further s (worker_other o s) /\ worker_ok (worker_other o s).
Proof.
  destruct o as [now| |]; cbn [worker_other]; [| |apply notify_ok].
  - intros (H1 & H2 & H3 & H4 & H5 & H6). split; [split; cbn; [lia|done..]|]. unfold worker_ok. cbn.
    split_and!; [done|done| |done| |done].
    + intros Hk. destruct (H3 Hk) as (t & ? & ?). exists t. split; [done|lia].
    + intros t Ht. pose proof (H5 t Ht). lia.
  - intros (H1 & H2 & H3 & H4 & H5 & H6). split; [by split|]. unfold worker_ok. cbn. naive_solver.
Qed.

(** A worker that was asked to end is waited for, and killed when its time is over. *)
Lemma stop_worker_stays i (Q : unit -> Stage -> Prop) :
  Q tt SgReaped -> stays i Q stop_worker SgAsked.
Proof.
  intros HQ. unfold stop_worker. apply stays_update. intros s Hok [t Ht]. cbn [fst snd].
  split; [apply further_same|]. split; [done|]. exists (SgDue (wk_now s + WORKER_EXIT_GRACE)). split.
  { exists t. split; [done|]. destruct Hok as (_ & _ & _ & _ & Hle & _). specialize (Hle t Ht). lia. }
  clear t Ht. generalize (wk_now s + WORKER_EXIT_GRACE)%Z. clear s Hok. intros due.
  apply stays_turn. intros s in_time s' Hok (t & Ht & Hle). unfold exited_before.
  destruct (wk_running s) eqn:Hr.
  - case_bool_decide as Hdue; [|done]. intros [= <- <-]. split; [apply further_same|]. split; [done|].
    exists SgOverdue. split; [exists t; split; [done|lia]|]. clear s t due Hok Ht Hle Hr Hdue.
    apply stays_update. intros s Hok Hg. destruct (kill_ok s Hg Hok) as [Hfu Hok']. cbn [fst snd]. split_and!; [done..|].
    exists SgBegun. split; [done|]. apply (stays_turn i Q wait_child (fun b => over b)). clear s Hok Hg Hfu Hok'.
    intros s [] s' Hok _. unfold wait_child. destruct (wk_running s) eqn:Hr; [done|]. intros [= <-].
    destruct (reap_ok s Hr Hok). split_and!; [done..|]. by exists SgReaped.
  - intros [= <- <-]. destruct (reap_ok s Hr Hok). split_and!; [done..|]. by exists SgReaped.
Qed.

Lemma wait_task_stays i (Q : bool -> Stage -> Prop) : Q true SgFinished -> stays i Q wait_task SgBegun.
Proof.
  intros HQ. unfold wait_task. refine (stays_ask i Q WkFirst _ _ _). intros exit_first.
  assert (Hrest : stays i Q (_ ← update release_leases; _ ← update end_task; over true) SgReaped).
  { apply stays_update. intros s Hok Hg. destruct (release_ok s Hg Hok). cbn [fst snd]. split_and!; [done..|].
    exists SgReleased. split; [done|]. apply stays_update. clear s Hok Hg H H0. intros s Hok Hg.
    destruct (end_task_ok s Hg Hok). cbn [fst snd]. split_and!; [done..|]. by exists SgFinished. }
  apply stays_turn. intros s asked s' Hok _ Hs.
  assert (asked = false /\ wk_running s = false /\ s' = reap_worker s \/
          asked = true /\ wk_permit s = true /\ s' = take_permit s) as [(-> & Hr & ->)|(-> & Hp & ->)].
  { unfold ended_or_asked in Hs. destruct exit_first, (wk_running s), (wk_permit s); naive_solver. }
  - destruct (reap_ok s Hr Hok). split_and!; [done..|]. exists SgReaped. by split.
  - destruct (take_permit_ok s Hok). split_and!; [done..|]. exists SgAsked. split.
    + destruct Hok as (_ & _ & _ & Hasked & _). by apply Hasked.
    + apply upholds_bind. by apply stop_worker_stays.
Qed.

Lemma wait_exit_stays i (Q : bool -> Stage -> Prop) :
  Q true SgFinished -> (forall g, Q false g) -> stays i Q wait_exit SgBegun.
Proof.
  intros HQ HQ'. unfold wait_exit. refine (stays_ask i Q WkClose _ _ _). intros _.
  apply stays_update. intros s Hok _. destruct (notify_ok s Hok). cbn [fst snd]. split_and!; [done..|].
  exists SgBegun. split; [done|]. clear s Hok H H0. apply stays_update. intros s Hok _.
  destruct (take_handle_ok s Hok). cbn [fst snd]. split_and!; [done..|]. exists SgBegun. split; [done|].
  destruct (wk_handle s); [|apply HQ']. clear s Hok H H0.
  apply (stays_turn i Q _ (fun b => over b)). intros s b s' Hok _. destruct (wk_finished s) eqn:Hf; [|done].
  intros [= <- <-]. split_and!; [apply further_same|done|]. by exists SgFinished.
Qed.

(** A worker that the gateway started ends with it. Once [wait_exit] is done, the worker has
    exited and was waited for, and every lease of its processes is released; nothing is released
    before that, and the worker is killed only after it was asked to end and had its time to end its
    processes. This holds however the worker's exit, lost connections and the gateway's own calls
    interleave. *)
Theorem workers_end_with_their_gateway now p :
  worker_pool now p ->
  let s := pl_state p in
  (wk_finished s = true -> wk_running s = false /\ wk_reaped s = true /\ wk_released s = true) /\
  (wk_released s = true -> wk_reaped s = true /\ wk_running s = false) /\
  (wk_killed s = true -> exists t, wk_asked s = Some t /\ (t + WORKER_EXIT_GRACE <= wk_now s)%Z) /\
  (forall i, returned p i = Some true -> wk_finished s = true).
Proof.
  intros Hp. cbn zeta.
  destruct (pool_reachable_upholds worker_serve (fun o s s' => s' = worker_other o s) (fun _ _ => False)
    pool_ok (fun _ => SgBegun) (fun b g => b = true -> g = SgFinished) (fun _ _ => True) SgBegun
    (worker_start now) p) as (L & [Hok HL] & Hlen & Hth); [|done|].
  - split.
    + split; [|constructor]. unfold worker_ok. cbn. naive_solver.
    + intros s log L t [Hok HL]. split; [done|]. apply Forall_app. split; [done|by constructor].
    + intros i []; [by apply wait_task_stays|by apply wait_exit_stays].
    + intros s log L o s' [Hok HL] ->. destruct (other_ok o s Hok) as [Hfu Hok']. split; [done|].
      eapply Forall_impl; [exact HL|]. intros g. by apply stage_further.
    + done.
  - pose proof Hok as (H1 & H2 & H3 & _ & _ & H6). split; [|split; [|split; [done|]]].
    + intros Hf. destruct (H2 Hf) as [Hr ?]. auto.
    + auto.
    + intros i Hi%returned_thread. destruct (lookup_lt_is_Some_2 L i) as [g Hg].
      { rewrite Hlen. by eapply lookup_lt_Some. }
      pose proof (Hth i _ g Hi Hg eq_refl) as ->. exact (Forall_lookup_1 _ _ _ _ HL Hg).
Qed.

Definition agreed (q : WorkerQuery) : WorkerReply q :=
  match q with WkClose => tt | WkFirst | WkConnect => true end.

(** A gateway that ends while its worker does not: the worker is killed after five seconds. *)
Definition unending := schedule worker_serve worker_other (worker_start 0)
  ([MCall WaitTask; MCall WaitExit] ++
   [MTurn 0; MAnswer 0 agreed;
    MTurn 1; MAnswer 1 agreed;
    MTurn 1; MTurn 1; MTurn 0; MTurn 0; MOther (WoTick 5000); MTurn 0; MTurn 0; MOther WoExit;
    MTurn 0; MTurn 0; MTurn 0; MTurn 1]).

(** The property holds of it. *)
Lemma workers_end_with_their_gateway_witness :
  worker_pool 0 unending /\ returned unending 1 = Some true /\ wk_killed (pl_state unending) = true /\
  wk_running (pl_state unending) = false /\ wk_released (pl_state unending) = true.
Proof.
  assert (Hp : worker_pool 0 unending) by (by apply schedule_reachable).
  assert (Hr : returned unending 1 = Some true) by by vm_compute.
  destruct (workers_end_with_their_gateway 0 unending Hp) as (Hend & _ & _ & Hret).
  destruct (Hend (Hret 1 Hr)) as (Hrun & _ & Hrel).
  split; [exact Hp|]. split; [exact Hr|]. split; [by vm_compute|]. by split.
Defined.

(** ** The wait for the worker's socket *)

Definition passes s s' : Prop := (wk_now s <= wk_now s')%Z.

Lemma passes_stable t : stable passes (fun s => t <= wk_now s)%Z.
Proof. intros s s' Hp Ht. unfold passes in Hp. lia. Qed.

Abbreviation comes_to Q c s :=
  (wp passes (fun (_ : unit) _ _ => True) (fun m _ _ => m) (fun r _ _ => Q r) c tt s).

Lemma wait_for_socket_by_ends fuel deadline t0 s :
  (t0 <= wk_now s)%Z -> 0 < fuel -> (deadline < t0 + Z.of_nat (fuel - 1) * WORKER_POLL)%Z ->
  comes_to (fun r => r <> None) (wait_for_socket_by fuel deadline) s.
Proof.
  revert t0 s. induction fuel as [|fuel IH]; intros t0 s Hn Hf Hd; [lia|]. cbn [wait_for_socket_by].
  apply (wp_look _ _ _ (fun s => t0 <= wk_now s)%Z); [apply passes_stable|done|]. clear s Hn. intros s Hn.
  destruct (wk_finished s); [done|].
  intros s1 Hp1. split; [done|]. intros []; [done|].
  assert (Hn1 : (t0 <= wk_now s1)%Z) by (unfold passes in Hp1; lia).
  apply (wp_look _ _ _ (fun s => t0 <= wk_now s)%Z); [apply passes_stable|done|]. clear s Hn s1 Hp1 Hn1.
  intros s Hn. case_bool_decide as Hwait; [|done].
  assert (Hfuel : fuel <> 0) by (intros ->; cbn in Hd; lia).
  apply (wp_look _ _ _ (fun s' => wk_now s <= wk_now s')%Z); [apply passes_stable|done|]. intros s1 Hn1.
  apply (wp_await _ _ _ (fun s => wk_now s1 <= wk_now s)%Z); [apply passes_stable|done|]. intros s2 [] s3 Hn2 Hdue.
  case_bool_decide as Hle; [|done]. injection Hdue as <-.
  apply (IH (wk_now s1 + WORKER_POLL)%Z); [lia|lia|]. unfold WORKER_POLL in *. lia.
Qed.

(** A start does not wait for ever: a worker's socket accepts, or it does not in time. *)
Lemma wait_for_socket_ends s log r s' : course passes wait_for_socket s log r s' -> r <> None.
Proof.
  intros Hc. assert (Hwp : comes_to (fun r => r <> None) wait_for_socket s).
  { unfold wait_for_socket. apply (wp_look _ _ _ (fun s' => wk_now s <= wk_now s')%Z);
      [apply passes_stable|apply Z.le_refl|].
    intros s1 Hs. apply (wait_for_socket_by_ends _ _ (wk_now s1)); [lia|vm_compute; lia|].
    change (Z.of_nat (SOCKET_POLLS - 1)) with 501%Z. unfold WORKER_READY_BOUND, WORKER_POLL. lia. }
  exact (proj2 (wp_sound _ _ _ _ _ _ _ _ _ _ Hwp Hc)).
Qed.

(** * The worker's command line ([crates/codex-runtime])

    [[SOCKET] [--lifecycle managed|independent] [--devguard-* VALUE]...] *)
Record Arguments := mkArguments {
  ar_socket : option string;
  ar_lifecycle : RunnerLifecycle;
  ar_devguard : list string
}.

Fixpoint parse_flags (args : list string) (parsed : Arguments) : result string Arguments :=
  match args with
  | [] => Ok parsed
  | [name] => Err (if is_utf8 (text name) then name +:+ " needs a value" else "a non-UTF-8 argument")
  | name :: value :: args =>
      if negb (is_utf8 (text name)) then Err "a non-UTF-8 argument"
      else if bool_decide (name = "--lifecycle") then
        if bool_decide (value = "managed")
        then parse_flags args (mkArguments (ar_socket parsed) Managed (ar_devguard parsed))
        else if bool_decide (value = "independent")
        then parse_flags args (mkArguments (ar_socket parsed) Independent (ar_devguard parsed))
        else Err "--lifecycle must be managed or independent"
      else if String.prefix "--devguard-" name
      then parse_flags args
             (mkArguments (ar_socket parsed) (ar_lifecycle parsed) (ar_devguard parsed ++ [name; value]))
      else Err ("unknown argument " +:+ name)
  end.

Definition parse (args : list string) : result string Arguments :=
  match args with
  | first :: rest =>
      if String.prefix "--" first then parse_flags args (mkArguments None Managed [])
      else parse_flags rest (mkArguments (Some first) Managed [])
  | [] => Ok (mkArguments None Managed [])
  end.

(** What the gateway starts a worker with: the socket, and the settings of its registration. *)
Definition worker_args (socket : string) (settings : list (string * string)) : list string :=
  socket :: concat ((fun '(name, value) => [name; value]) <$> settings).

Definition setting_ok (setting : string * string) : Prop :=
  is_utf8 (text setting.1) = true /\ String.prefix "--devguard-" setting.1 = true.

Lemma parse_flags_settings settings parsed :
  Forall setting_ok settings ->
  parse_flags (concat ((fun '(name, value) => [name; value]) <$> settings)) parsed =
  Ok (mkArguments (ar_socket parsed) (ar_lifecycle parsed)
        (ar_devguard parsed ++ concat ((fun '(name, value) => [name; value]) <$> settings))).
Proof.
  intros Hall. revert parsed. induction Hall as [|[name value] settings [Hutf Hpre] _ IH]; intros parsed.
  - cbn. rewrite app_nil_r. by destruct parsed.
  - cbn [fmap list_fmap concat app parse_flags]. cbn [fst] in *. rewrite Hutf. cbn [negb].
    rewrite bool_decide_eq_false_2 by (by intros ->). rewrite Hpre, IH. cbn. by rewrite <- app_assoc.
Qed.

(** [WorkerSettings::prepare]. [carrier] is the number of the descriptor with the secret, if its file
    could be used. *)
Record WorkerSettings := mkWorkerSettings {
  wg_socket : string;
  wg_consumer : string;
  wg_generation : string;
  wg_launch_helper : option string
}.

Definition prepare_worker (w : WorkerSettings) (carrier : option Z) : list (string * string) :=
  [("--devguard-socket", wg_socket w); ("--devguard-consumer", wg_consumer w);
   ("--devguard-generation", wg_generation w)] ++
  match wg_launch_helper w with Some helper => [("--devguard-launch-helper", helper)] | None => [] end ++
  match carrier with Some fd => [("--devguard-credential-fd", pretty fd)] | None => [] end.

Lemma prepare_worker_ok w carrier : Forall setting_ok (prepare_worker w carrier).
Proof. unfold prepare_worker. destruct (wg_launch_helper w), carrier; repeat constructor. Qed.

(** A worker takes from its command line what the gateway put there: its socket, to belong to the
    gateway, and the settings of its registration. *)
Lemma worker_takes_its_arguments socket w carrier :
  String.prefix "--" socket = false ->
  parse (worker_args socket (prepare_worker w carrier)) =
  Ok (mkArguments (Some socket) Managed
        (concat ((fun '(name, value) => [name; value]) <$> prepare_worker w carrier))).
Proof.
  intros Hs. unfold parse, worker_args. rewrite Hs.
  by rewrite (parse_flags_settings _ _ (prepare_worker_ok w carrier)).
Qed.

(** * The end of a gateway *)

(** What ended it: the end of its transport, or a signal. A gateway that is not of an independent
    Runner has no such signals. *)
Inductive EndedBy := EbTransport | EbTerminate | EbInterrupt | EbRestart.
Inductive GatewayEnding := Shutdown | Restarting.

Definition ending_of (l : GatewayLifecycle) (b : EndedBy) : GatewayEnding :=
  match l, b with IndependentRunnerOf _, EbRestart => Restarting | _, _ => Shutdown end.

(** [GqStop] answers how each process ended; the records note it with [GqStopped]. *)
Inductive GatewayQuery :=
  | GqDetach
  | GqStop
  | GqStopped (processes : list string)
  | GqWaitExit.

Definition GatewayReply (q : GatewayQuery) : Type :=
  match q with
  | GqDetach => result string unit
  | GqStop => result string (list string)
  | GqStopped _ | GqWaitExit => unit
  end.

Abbreviation shutting := (call unit GatewayQuery GatewayReply).
Abbreviation consults q := (ask (State := unit) (Answer := GatewayReply) q).
Abbreviation shut a := (@Return unit GatewayQuery GatewayReply _ a).

(** [StartedRunner]: whether the Runner is behind a socket, whether it is a worker that the gateway
    started, and whether its executions are recorded. *)
Record StartedRunner := mkStartedRunner {
  sr_uds : bool;
  sr_process : bool;
  sr_lifecycle : GatewayLifecycle;
  sr_records : bool
}.

Definition started (start : RunnerStart) (l : GatewayLifecycle) : StartedRunner :=
  match start with
  | StartInProcess => mkStartedRunner false false l false
  | ClaimIndependent _ => mkStartedRunner true false l true
  | SpawnWorker _ _ _ => mkStartedRunner true true l false
  | ConnectExisting _ => mkStartedRunner true false l false
  end.

(** [StartedRunner::stop]. *)
Definition stop (r : StartedRunner) (e : GatewayEnding) : shutting (result string unit) :=
  match sr_lifecycle r, sr_uds r with
  | IndependentRunnerOf exit_intent, true =>
      match (match e with Restarting => DetachRunner | Shutdown => exit_intent end) with
      | DetachRunner => _ ← consults GqDetach; shut (Ok tt)
      | StopRunner =>
          stopped ← consults GqStop;
          match (stopped : result string (list string)) with
          | Ok processes =>
              _ ← (if sr_records r then consults (GqStopped processes) else shut tt);
              shut (Ok tt)
          | Err err =>
              shut (Err ("the independent Runner did not confirm its stop (" +:+ err +:+ "); its processes "
                         +:+ "may keep running, so stop it with SIGTERM"))
          end
      end
  | _, _ => _ ← (if sr_process r then consults GqWaitExit else shut tt); shut (Ok tt)
  end.

(** What becomes of a Runner when its gateway ends is what the settings and the reason say: an
    independent Runner is stopped only at a normal shutdown of a gateway that was told to, it is
    never waited for as a worker is, and a restart leaves it; a worker is waited for, and nothing is
    asked of a Runner that is not the gateway's own. *)
Theorem ending_follows_the_settings cli l registers start b :
  lifecycle cli = Ok l -> start_runner cli l registers = Ok start ->
  quiet (fun q =>
    match q with
    | GqDetach => exists intent, l = IndependentRunnerOf intent /\ (b = EbRestart \/ intent = DetachRunner)
    | GqStop | GqStopped _ => l = IndependentRunnerOf StopRunner /\ b <> EbRestart
    | GqWaitExit => l = ManagedRunner /\ exists bin dir, start = SpawnWorker bin dir registers
    end) (fun _ => True) (stop (started start l) (ending_of l b)).
Proof.
  intros Hl Hstart. destruct l as [|intent].
  - assert (Hproc : forall process, sr_process (started start ManagedRunner) = process -> process = true ->
      exists bin dir, start = SpawnWorker bin dir registers).
    { intros process <- Hp. unfold start_runner in Hstart. destruct (cl_runner cli); [by injection Hstart as <-|].
      destruct (cl_runtime_bin cli); [injection Hstart as <-; by eexists _, _|].
      destruct (cl_runner_socket cli); [by injection Hstart as <-|done]. }
    unfold stop. replace (sr_lifecycle (started start ManagedRunner)) with ManagedRunner by by destruct start.
    destruct (sr_process _) eqn:Hp; [|done]. cbn. split; [|done]. split; [done|]. by eapply Hproc.
  - apply independent_settings in Hl as (_ & _ & Hrunner & _ & _ & [socket Hsocket] & _).
    unfold start_runner in Hstart. rewrite Hrunner, Hsocket in Hstart. injection Hstart as <-.
    unfold stop. cbn [started sr_lifecycle sr_uds sr_records].
    destruct b, intent; cbn; eauto 10; (split; [by split|intros []; cbn; [split; [by split|done]|done]]).
Qed.
