(* ===== verification/Managed.v ===== *)
(** A managed worker's one connection ([serve] of [runner/wire.rs]): its loop of requests, the task
    that forwards the exits of its processes, and the requests that are answered beside the others,
    which share the connection's writer under a lock. *)
From S2P Require Import Prelude Domain Api Threads Wire.

(** * The connection

    One turn of the loop, one of the forwarding task and one request beside them are each a [call];
    the next turn begins where the one before it ended. *)
Inductive Source := Ordinary | Beside | Events.

#[export] Instance Source_eq_dec : EqDecision Source.
Proof. solve_decision. Defined.

Section managed.
Context `{Rep : Reports}.
Context (launches : bool) (identity : RunnerIdentity).

(** A request that the loop read and answers itself: in turn, by a refusal of what only an
    independent Runner answers, or by the refusal that ends the connection. *)
Inductive Reading :=
  | InTurn (t : Turn)
  | NotManaged (request_id : string)
  | Malformed (refusal : WireEnvelope).

Definition in_turn (r : Reading) : option Turn := match r with InTurn t => Some t | _ => None end.

Definition independent_only_error : ErrorBody :=
  error_body InvalidCommand
    ("this worker belongs to the gateway that started it; only an independent Runner is claimed, "
     +:+ "detaches, stops on request or is reconciled").

(** What is answered to it, with what was answered before. *)
Definition answer_of (before : list Reading) (r : Reading) : WireEnvelope :=
  match r with
  | InTurn t => (answer (serve (omap in_turn before)) (tn_id t) (tn_op t) (tn_hello t) (tn_dispatched t)).2
  | NotManaged id => response id (Err independent_only_error)
  | Malformed refusal => refusal
  end.

(** [ln_reading] and [ln_forwarding]: a turn of the loop, or of the forwarding, is going on; [ln_open]
    and [ln_events_open]: another one will follow. [ln_locked]: the writer's lock. [ln_sent] holds
    the frames that were written whole; [ln_reads] what the loop read and [ln_received] the events;
    [ln_owed] and [ln_event_owed] what of it is not sent yet. *)
Record Line := mkLine {
  ln_reading : bool;
  ln_open : bool;
  ln_forwarding : bool;
  ln_events_open : bool;
  ln_locked : bool;
  ln_cache : list (string * WireEnvelope);
  ln_spawned : list (string * RunnerOp);
  ln_sent : list (Source * WireEnvelope);
  ln_reads : list Reading;
  ln_owed : option WireEnvelope;
  ln_received : list (Z * RunnerEvent);
  ln_event_owed : option WireEnvelope
}.
Implicit Types s : Line.

Definition line_start : Line := mkLine false true false true false [] [] [] [] None [] None.

Definition begin_reading s : Line :=
  mkLine true (ln_open s) (ln_forwarding s) (ln_events_open s) (ln_locked s) (ln_cache s) (ln_spawned s)
    (ln_sent s) (ln_reads s) (ln_owed s) (ln_received s) (ln_event_owed s).
Definition end_reading (open : bool) s : Line :=
  mkLine false (ln_open s && open) (ln_forwarding s) (ln_events_open s) (ln_locked s) (ln_cache s)
    (ln_spawned s) (ln_sent s) (ln_reads s) (ln_owed s) (ln_received s) (ln_event_owed s).
Definition begin_forwarding s : Line :=
  mkLine (ln_reading s) (ln_open s) true (ln_events_open s) (ln_locked s) (ln_cache s) (ln_spawned s)
    (ln_sent s) (ln_reads s) (ln_owed s) (ln_received s) (ln_event_owed s).
Definition end_forwarding (open : bool) s : Line :=
  mkLine (ln_reading s) (ln_open s) false (ln_events_open s && open) (ln_locked s) (ln_cache s)
    (ln_spawned s) (ln_sent s) (ln_reads s) (ln_owed s) (ln_received s) (ln_event_owed s).
Definition with_lock (locked : bool) s : Line :=
  mkLine (ln_reading s) (ln_open s) (ln_forwarding s) (ln_events_open s) locked (ln_cache s)
    (ln_spawned s) (ln_sent s) (ln_reads s) (ln_owed s) (ln_received s) (ln_event_owed s).
Definition with_spawned (spawned : list (string * RunnerOp)) s : Line :=
  mkLine (ln_reading s) (ln_open s) (ln_forwarding s) (ln_events_open s) (ln_locked s) (ln_cache s)
    spawned (ln_sent s) (ln_reads s) (ln_owed s) (ln_received s) (ln_event_owed s).

(** A request that the loop will answer, with its answer and the cache after it. *)
Definition note_read (r : Reading) (cache : list (string * WireEnvelope)) s : Line :=
  mkLine (ln_reading s) (ln_open s) (ln_forwarding s) (ln_events_open s) (ln_locked s) cache (ln_spawned s)
    (ln_sent s) (ln_reads s ++ [r]) (Some (answer_of (ln_reads s) r)) (ln_received s) (ln_event_owed s).
Definition note_event (seq : Z) (e : RunnerEvent) s : Line :=
  mkLine (ln_reading s) (ln_open s) (ln_forwarding s) (ln_events_open s) (ln_locked s) (ln_cache s)
    (ln_spawned s) (ln_sent s) (ln_reads s) (ln_owed s) (ln_received s ++ [(seq, e)])
    (Some (Wire.event seq e)).
Definition note_sent (source : Source) (e : WireEnvelope) s : Line :=
  mkLine (ln_reading s) (ln_open s) (ln_forwarding s) (ln_events_open s) (ln_locked s) (ln_cache s)
    (ln_spawned s) (ln_sent s ++ [(source, e)]) (ln_reads s)
    (if bool_decide (source = Ordinary) then None else ln_owed s) (ln_received s)
    (if bool_decide (source = Events) then None else ln_event_owed s).

(** [MqRead]: [read_frame], with what [serde_json] made of it. [MqDispatch]: [dispatch]. [MqBeside]: [answer_beside]. [MqEvent]: [events.recv]. [MqWrite]: whether
    [write_frame] wrote the frame. *)
Inductive Incoming := StreamEnded | ReadFailed | Payload (payload : result string WireEnvelope).
Inductive LineQuery :=
  | MqRead
  | MqDispatch (op : RunnerOp)
  | MqBeside (op : RunnerOp)
  | MqEvent
  | MqWrite (e : WireEnvelope).

Definition LineReply (q : LineQuery) : Type :=
  match q with
  | MqRead => Incoming
  | MqDispatch _ | MqBeside _ => res RunnerOpResult
  | MqEvent => option (Z * RunnerEvent)
  | MqWrite _ => bool
  end.

Abbreviation lining := (call Line LineQuery LineReply).
Abbreviation inquire q := (ask (State := Line) (Answer := LineReply) q).
Abbreviation lined a := (@Return Line LineQuery LineReply _ a).

Definition lock_writer s : option (unit * Line) :=
  if ln_locked s then None else Some (tt, with_lock true s).

Definition unlock_writer (source : Source) (e : WireEnvelope) (written : bool) s : Line :=
  with_lock false (if written then note_sent source e s else s).

(** The writer's lock, a frame, and its release. *)
Definition write_frame_of (source : Source) (e : WireEnvelope) : lining bool :=
  _ ← await lock_writer;
  written ← inquire (MqWrite e);
  _ ← update (unlock_writer source e written);
  lined (written : bool).

Definition start_reading s : option (unit * Line) :=
  if ln_open s && negb (ln_reading s) then Some (tt, begin_reading s) else None.

(** The answer to a request of the loop, which ends the turn, and the loop with it where it could
    not be written, or refuses the payload. *)
Definition reply (go_on : bool) (e : WireEnvelope) : lining unit :=
  written ← write_frame_of Ordinary e;
  update (end_reading (go_on && written)).

Definition answer_in_turn (id : string) (op : option RunnerOp) (dispatched : res RunnerOpResult) s
    : WireEnvelope * Line :=
  let hello := hello launches Managed identity in
  let '(cache, e) := answer (ln_cache s) id op hello dispatched in
  (e, note_read (InTurn (mkTurn id op hello dispatched)) cache s).

Definition refuse_in_turn (r : Reading) s : WireEnvelope * Line :=
  (answer_of (ln_reads s) r, note_read r (ln_cache s) s).

Definition beside (op : option RunnerOp) : option RunnerOp :=
  op ← op; if answered_beside op && negb (independent_only op) then Some op else None.

(** What [answer] asks the Runner, if anything. *)
Definition asks_runner (op : option RunnerOp) : option RunnerOp :=
  match op with None | Some (RqReplay _) | Some RqHello => None | Some op => Some op end.

Definition dispatch_in_turn (op : option RunnerOp) : lining (res RunnerOpResult) :=
  match asks_runner op with
  | Some op => dispatched ← inquire (MqDispatch op); lined dispatched
  | None => lined (Ok (hello launches Managed identity))
  end.

Definition serve_turn : lining unit :=
  _ ← await start_reading;
  frame ← inquire MqRead;
  match (frame : Incoming) with
  | StreamEnded | ReadFailed => update (end_reading false)
  | Payload payload =>
      match parse_request payload with
      | Err refusal => e ← turn (refuse_in_turn (Malformed refusal)); reply false e
      | Ok (id, _, op) =>
          match beside op with
          | Some op => update (fun s => end_reading true (with_spawned (ln_spawned s ++ [(id, op)]) s))
          | None =>
              if (match op with Some op => independent_only op | None => false end) then
                e ← turn (refuse_in_turn (NotManaged id)); reply true e
              else
                dispatched ← dispatch_in_turn op;
                e ← turn (answer_in_turn id op dispatched);
                reply true e
          end
      end
  end.

Definition start_forwarding s : option (unit * Line) :=
  if ln_events_open s && negb (ln_forwarding s) then Some (tt, begin_forwarding s) else None.

Definition forward_turn : lining unit :=
  _ ← await start_forwarding;
  event ← inquire MqEvent;
  match (event : option (Z * RunnerEvent)) with
  | None => update (end_forwarding false)
  | Some (seq, e) =>
      _ ← update (note_event seq e);
      written ← write_frame_of Events (Wire.event seq e);
      update (end_forwarding written)
  end.

Definition next_spawned s : option ((string * RunnerOp) * Line) :=
  match ln_spawned s with [] => None | x :: spawned => Some (x, with_spawned spawned s) end.

Definition beside_turn : lining unit :=
  request ← await next_spawned;
  result ← inquire (MqBeside request.2);
  _ ← write_frame_of Beside (response request.1 result);
  lined tt.

Inductive LineTool := ServeTurn | ForwardTurn | BesideTurn.

Definition line_serve (t : LineTool) : lining unit :=
  match t with ServeTurn => serve_turn | ForwardTurn => forward_turn | BesideTurn => beside_turn end.

Definition line_pool :=
  pool_reachable (Other := Empty_set) line_serve (fun _ _ _ => False) (fun _ _ => False) line_start.

(** * In turn, whatever interleaves *)

(** The answers to what was read, one after the other. *)
Definition dues (reads : list Reading) : list WireEnvelope :=
  (foldl (fun '(before, due) r => (before ++ [r], due ++ [answer_of before r])) ([], []) reads).2.

Lemma dues_before reads :
  (foldl (fun '(before, due) r => (before ++ [r], due ++ [answer_of before r])) ([], []) reads).1 = reads.
Proof.
  induction reads as [|r reads IH] using rev_ind; [done|]. rewrite foldl_app. cbn.
  by destruct (foldl _ _ reads); cbn in IH |- *; subst.
Qed.

Lemma dues_snoc reads r : dues (reads ++ [r]) = dues reads ++ [answer_of reads r].
Proof.
  unfold dues. rewrite foldl_app. cbn. pose proof (dues_before reads) as Hb.
  by destruct (foldl _ _ reads); cbn in Hb |- *; subst.
Qed.

Definition sent_by (source : Source) s : list WireEnvelope :=
  snd <$> List.filter (fun x => bool_decide (x.1 = source)) (ln_sent s).

Definition event_frames (received : list (Z * RunnerEvent)) : list WireEnvelope :=
  (fun '(seq, e) => Wire.event seq e) <$> received.

Record line_ok s : Prop := {
  lo_cache : ln_cache s = serve (omap in_turn (ln_reads s));
  lo_sent : dues (ln_reads s) = sent_by Ordinary s ++ option_list (ln_owed s);
  lo_next : ln_open s = true -> ln_reading s = false -> ln_owed s = None;
  lo_events : event_frames (ln_received s) = sent_by Events s ++ option_list (ln_event_owed s);
  lo_next_event : ln_events_open s = true -> ln_forwarding s = false -> ln_event_owed s = None
}.

(** What a call has of the connection: the turn of the loop, with what it owes the client; the turn
    of the forwarding; the lock. *)
Record Part := mkPart {
  pt_serving : option (option WireEnvelope);
  pt_forwarding : option (option WireEnvelope);
  pt_writing : bool
}.
Definition no_part : Part := mkPart None None false.

Definition serves (l : Part) : bool := bool_decide (is_Some (pt_serving l)).
Definition forwards (l : Part) : bool := bool_decide (is_Some (pt_forwarding l)).

Definition serving_view s := (ln_reading s, ln_owed s).
Definition forwarding_view s := (ln_forwarding s, ln_event_owed s).

Record part_ok s (l : Part) : Prop := {
  po_serving o : pt_serving l = Some o -> serving_view s = (true, o);
  po_forwarding o : pt_forwarding l = Some o -> forwarding_view s = (true, o)
}.

Definition line_inv s (_ : list (Threads.event LineReply LineTool Empty_set)) (L : list Part) : Prop :=
  line_ok s /\ Forall (part_ok s) L /\
  sole serves (ln_reading s) L /\ sole forwards (ln_forwarding s) L /\ sole pt_writing (ln_locked s) L.

Record turn_ok s s' (l l' : Part) : Prop := {
  to_ok : line_ok s';
  to_part : part_ok s' l';
  to_serving : minds serves serving_view ln_reading s s' l l';
  to_forwarding : minds forwards forwarding_view ln_forwarding s s' l l';
  to_writing : minds pt_writing ln_locked ln_locked s s' l l'
}.

Lemma line_inv_turn s s' log log' (L : list Part) i l l' :
  line_inv s log L -> L !! i = Some l -> turn_ok s s' l l' -> line_inv s' log' (<[i := l']> L).
Proof.
  intros (_ & Hparts & Hs & Hf & Hw) Hi [Hok Hpart Hms Hmf Hmw].
  split_and!; [done| |by eapply minds_sole; [done..|]; apply (proj2 Hs i)
                    |by eapply minds_sole; [done..|]; apply (proj2 Hf i)
                    |by eapply minds_sole; [done..|]; apply (proj2 Hw i)].
  apply Forall_lookup. intros j lj Hj. destruct (decide (j = i)) as [->|Hne].
  { rewrite list_lookup_insert_eq in Hj by (by eapply lookup_lt_Some). by injection Hj as <-. }
  rewrite list_lookup_insert_ne in Hj by done. destruct (Forall_lookup_1 _ _ _ _ Hparts Hj) as [Hps Hpf].
  split.
  - intros o Ho. assert (Hhas : serves lj = true) by (apply bool_decide_eq_true; rewrite Ho; by eexists).
    rewrite (minds_others _ _ _ _ _ _ _ _ _ _ _ Hms Hs Hi Hj Hne Hhas). by apply Hps.
  - intros o Ho. assert (Hhas : forwards lj = true) by (apply bool_decide_eq_true; rewrite Ho; by eexists).
    rewrite (minds_others _ _ _ _ _ _ _ _ _ _ _ Hmf Hf Hi Hj Hne Hhas). by apply Hpf.
Qed.

(** * Every part of the connection keeps it *)

Definition line_awaits (q : LineQuery) (l : Part) : Prop :=
  match q with MqWrite _ => pt_writing l = true | _ => True end.
Definition line_end (_ : unit) (l : Part) : Prop := l = no_part.

Abbreviation line_upholds := (upholds (Tool := LineTool) (Other := Empty_set) line_inv line_awaits).

Lemma line_step {A B} i (Q : A -> Part -> Prop) (step : Line -> option (B * Line)) k l :
  (forall s b s', line_ok s -> part_ok s l -> step s = Some (b, s') ->
     exists l', turn_ok s s' l l' /\ line_upholds i Q (k b) l') ->
  line_upholds i Q (Threads.Turn step k) l.
Proof.
  intros Hstep s log L b s' HI Hi Hs. pose proof HI as (Hok & Hparts & _).
  destruct (Hstep s b s') as (l' & Ht & Hk); [done|by eapply Forall_lookup_1|done|].
  exists l'. split; [by eapply line_inv_turn|done].
Qed.

Lemma line_asks {A} i (Q : A -> Part -> Prop) q (k : LineReply q -> call Line LineQuery LineReply A) l :
  line_awaits q l -> (forall a, line_upholds i Q (k a) l) -> line_upholds i Q (Ask q k) l.
Proof.
  intros Hq Hk s log L HI Hi. exists l. rewrite list_insert_id by done. split_and!; [exact HI|done|].
  intros a s' log' L' HI' Hi'. exists l. rewrite list_insert_id by done. split; [exact HI'|apply Hk].
Qed.

(** What a call owes under its name, and whether it has the lock. *)
Definition part_of (source : Source) (o : option WireEnvelope) (writing : bool) : Part :=
  match source with
  | Ordinary => mkPart (Some o) None writing
  | Events => mkPart None (Some o) writing
  | Beside => mkPart None None writing
  end.

Lemma line_ok_ext s s' :
  ln_cache s' = ln_cache s -> ln_reads s' = ln_reads s -> ln_sent s' = ln_sent s ->
  ln_received s' = ln_received s -> ln_owed s' = ln_owed s -> ln_event_owed s' = ln_event_owed s ->
  (ln_open s' = true -> ln_reading s' = false -> ln_owed s = None) ->
  (ln_events_open s' = true -> ln_forwarding s' = false -> ln_event_owed s = None) ->
  line_ok s -> line_ok s'.
Proof.
  intros Hc Hr Hs He Ho Heo Hn Hne [H1 H2 H3 H4 H5].
  split; unfold sent_by in *; rewrite ?Hc, ?Hr, ?Hs, ?He, ?Ho, ?Heo in *; auto.
Qed.

Lemma line_ok_sent source e s :
  line_ok s -> part_ok s (part_of source (Some e) true) -> line_ok (note_sent source e s).
Proof.
  intros [H1 H2 H3 H4 H5] [Hp Hf].
  assert (Hsent : forall src, sent_by src (note_sent source e s) =
            sent_by src s ++ (if bool_decide (source = src) then [e] else [])).
  { intros src. unfold sent_by. cbn [ln_sent note_sent]. rewrite List.filter_app, fmap_app. cbn [List.filter fst].
    by destruct (bool_decide (source = src)). }
  split; rewrite ?Hsent; cbn [ln_cache ln_reads ln_owed ln_open ln_reading ln_received ln_event_owed
      ln_events_open ln_forwarding note_sent]; repeat case_bool_decide; try done; subst; rewrite ?app_nil_r;
    try done; try (by auto).
  - injection (Hp _ eq_refl) as _ Ho. rewrite H2, Ho. done.
  - injection (Hf _ eq_refl) as _ Ho. rewrite H4, Ho. done.
Qed.

Ltac keeps := left; split_and!; reflexivity || (intros ?; assumption) || done.
Ltac takes := right; split; [first [left; reflexivity | right; assumption]|first [done | intros ?; reflexivity]].
Ltac minding := first [keeps | takes].

Lemma write_upholds i (Q : bool -> Part -> Prop) source e :
  (forall written, Q written (part_of source (if written then None else Some e) false)) ->
  line_upholds i Q (write_frame_of source e) (part_of source (Some e) false).
Proof.
  intros HQ. unfold write_frame_of, await, ask, update, turn. cbn [mbind call_bind].
  apply line_step. intros s [] s' Hok [Hp Hf] Hs. unfold lock_writer in Hs.
  destruct (ln_locked s) eqn:Hl; [done|]. injection Hs as <-.
  exists (part_of source (Some e) true). split.
  { split; [by apply (line_ok_ext s); [reflexivity..|apply Hok|apply Hok|done]| | | |takes].
    - destruct source; split; cbn; auto.
    - destruct source; keeps.
    - destruct source; keeps. }
  apply line_asks; [by destruct source|]. intros written.
  apply line_step. clear -HQ. intros s [] s' Hok Hpart [= <-].
  exists (part_of source (if (written : bool) then None else Some e) false). split; [|apply HQ].
  pose proof (line_ok_sent source e s Hok Hpart) as Hsent. destruct Hpart as [Hp Hf].
  split.
  - unfold unlock_writer. destruct (written : bool).
    + by apply (line_ok_ext (note_sent source e s)); [reflexivity..|apply Hsent|apply Hsent|].
    + by apply (line_ok_ext s); [reflexivity..|apply Hok|apply Hok|].
  - split; intros o Ho; destruct source; try discriminate Ho; injection Ho as <-.
    + injection (Hp _ eq_refl) as Hr Howed. destruct (written : bool); apply (f_equal2 pair); assumption || done.
    + injection (Hf _ eq_refl) as Hr Howed. destruct (written : bool); apply (f_equal2 pair); assumption || done.
  - destruct source; [|by destruct (written : bool); keeps..]. right. split; [by left|]. intros _.
    injection (Hp _ eq_refl) as Hr _. by destruct (written : bool).
  - destruct source; [by destruct (written : bool); keeps..|]. right. split; [by left|]. intros _.
    injection (Hf _ eq_refl) as Hr _. by destruct (written : bool).
  - destruct source, (written : bool); takes.
Qed.

Lemma end_reading_ok s o go_on spawned :
  line_ok s -> part_ok s (part_of Ordinary o false) -> (go_on = true -> o = None) ->
  turn_ok s (end_reading go_on (with_spawned spawned s)) (part_of Ordinary o false) no_part.
Proof.
  intros Hok [Hp _] Ho. injection (Hp _ eq_refl) as Hr Howed. split; [|by split| |keeps|keeps].
  - apply (line_ok_ext s); [reflexivity..| |apply Hok|done]. cbn. rewrite Howed. intros [_ ?]%andb_prop _. auto.
  - right. split; [by left|done].
Qed.

Lemma end_forwarding_ok s o go_on :
  line_ok s -> part_ok s (part_of Events o false) -> (go_on = true -> o = None) ->
  turn_ok s (end_forwarding go_on s) (part_of Events o false) no_part.
Proof.
  intros Hok [_ Hf] Ho. injection (Hf _ eq_refl) as Hr Howed. split; [|by split|keeps| |keeps].
  - apply (line_ok_ext s); [reflexivity..|apply Hok| |done]. cbn. rewrite Howed. intros [_ ?]%andb_prop _. auto.
  - right. split; [by left|done].
Qed.

(** A request is read when nothing is owed for the one before it. *)
Lemma note_read_ok s r cache :
  line_ok s -> part_ok s (part_of Ordinary None false) ->
  cache = serve (omap in_turn (ln_reads s ++ [r])) ->
  turn_ok s (note_read r cache s) (part_of Ordinary None false)
    (part_of Ordinary (Some (answer_of (ln_reads s) r)) false).
Proof.
  intros Hok [Hp _] Hc. injection (Hp _ eq_refl) as Hr Howed. split; [| | |keeps|keeps].
  - split; [done| | |apply Hok|apply Hok].
    + cbn [ln_reads ln_owed note_read option_list]. rewrite dues_snoc, (lo_sent _ Hok), Howed.
      cbn [option_list]. by rewrite app_nil_r.
    + cbn. congruence.
  - split; [|done]. intros o [= <-]. by apply (f_equal2 pair).
  - right. by split; [left|].
Qed.

Lemma note_event_ok s seq e :
  line_ok s -> part_ok s (part_of Events None false) ->
  turn_ok s (note_event seq e s) (part_of Events None false)
    (part_of Events (Some (Wire.event seq e)) false).
Proof.
  intros Hok [_ Hf]. injection (Hf _ eq_refl) as Hr Howed. split; [| |keeps| |keeps].
  - split; [apply Hok..| |].
    + cbn [ln_received ln_event_owed note_event option_list]. unfold event_frames. rewrite fmap_app.
      fold (event_frames (ln_received s)). rewrite (lo_events _ Hok), Howed. cbn [option_list]. by rewrite app_nil_r.
    + cbn. congruence.
  - split; [done|]. intros o [= <-]. by apply (f_equal2 pair).
  - right. by split; [left|].
Qed.

Lemma reply_upholds i go_on e :
  line_upholds i line_end (reply go_on e) (part_of Ordinary (Some e) false).
Proof.
  unfold reply. apply upholds_bind, write_upholds. intros written.
  apply line_step. intros s [] s' Hok Hp [= <-]. exists no_part. split; [|done].
  apply (end_reading_ok s _ _ (ln_spawned s)); [done..|]. by destruct go_on, written.
Qed.

Lemma serve_snoc_in_turn reads r :
  serve (omap in_turn (reads ++ [r])) =
  match r with
  | InTurn t => (answer (serve (omap in_turn reads)) (tn_id t) (tn_op t) (tn_hello t) (tn_dispatched t)).1
  | _ => serve (omap in_turn reads)
  end.
Proof. rewrite omap_app. unfold serve. rewrite foldl_app. by destruct r. Qed.

Lemma refuse_upholds i r go_on :
  (forall t, r <> InTurn t) ->
  line_upholds i line_end (e ← turn (refuse_in_turn r); reply go_on e) (part_of Ordinary None false).
Proof.
  intros Hr. unfold turn. cbn [mbind call_bind]. apply line_step. intros s e s' Hok Hp [= <- <-].
  eexists. split; [apply note_read_ok; [done..|]|apply reply_upholds].
  rewrite serve_snoc_in_turn, (lo_cache _ Hok). destruct r; [by edestruct Hr|done..].
Qed.

Lemma answer_upholds_turn i id op dispatched :
  line_upholds i line_end (e ← turn (answer_in_turn id op dispatched); reply true e) (part_of Ordinary None false).
Proof.
  unfold turn. cbn [mbind call_bind]. apply line_step. intros s e s' Hok Hp [= Hs].
  assert (s' = note_read (InTurn (mkTurn id op (hello launches Managed identity) dispatched))
            (serve (omap in_turn (ln_reads s ++ [InTurn (mkTurn id op (hello launches Managed identity) dispatched)]))) s
          /\ e = answer_of (ln_reads s) (InTurn (mkTurn id op (hello launches Managed identity) dispatched)))
    as [-> ->].
  { unfold answer_in_turn in Hs. rewrite (lo_cache _ Hok) in Hs. rewrite serve_snoc_in_turn.
    unfold answer_of. cbn [tn_id tn_op tn_hello tn_dispatched].
    destruct (answer _ id op _ dispatched) as [cache ans] eqn:Ha. by injection Hs as <- <-. }
  eexists. split; [by apply note_read_ok|apply reply_upholds].
Qed.

Lemma serve_upholds i : line_upholds i line_end serve_turn no_part.
Proof.
  unfold serve_turn, await, ask. cbn [mbind call_bind]. apply line_step. intros s [] s' Hok [Hp Hf] Hs.
  unfold start_reading in Hs. destruct (ln_open s && negb (ln_reading s)) eqn:Hfree; [|done].
  injection Hs as <-. apply andb_prop in Hfree as [Hopen Hfree%negb_true_iff].
  exists (part_of Ordinary None false). split.
  { split; [apply (line_ok_ext s); [reflexivity..| |apply Hok|done]|split| |keeps|keeps]; cbn.
    - done.
    - intros o [= <-]. apply (f_equal2 pair); [done|]. by apply (lo_next _ Hok).
    - done.
    - right. by split; [right|]. }
  apply line_asks; [done|]. intros [| |payload].
  1, 2: (apply line_step; clear; intros s [] s' Hok Hp [= <-]; exists no_part; split;
         [by apply (end_reading_ok s None false (ln_spawned s))|done]).
  destruct (parse_request payload) as [[[id epoch] op]|refusal]; [|by apply refuse_upholds].
  destruct (beside op) as [op'|].
  { apply line_step. clear. intros s [] s' Hok Hp [= <-]. exists no_part.
    split; [by apply end_reading_ok|done]. }
  destruct (match op with Some op => independent_only op | None => false end); [by apply refuse_upholds|].
  apply upholds_bind. unfold dispatch_in_turn, ask. destruct (asks_runner op); cbn [mbind call_bind].
  - apply line_asks; [done|]. intros dispatched. apply answer_upholds_turn.
  - apply answer_upholds_turn.
Qed.

Lemma forward_upholds i : line_upholds i line_end forward_turn no_part.
Proof.
  unfold forward_turn, await, ask, update, turn. cbn [mbind call_bind]. apply line_step.
  intros s [] s' Hok [Hp Hf] Hs.
  unfold start_forwarding in Hs. destruct (ln_events_open s && negb (ln_forwarding s)) eqn:Hfree; [|done].
  injection Hs as <-. apply andb_prop in Hfree as [Hopen Hfree%negb_true_iff].
  exists (part_of Events None false). split.
  { split; [apply (line_ok_ext s); [reflexivity..|apply Hok| |done]|split|keeps| |keeps]; cbn.
    - done.
    - done.
    - intros o [= <-]. apply (f_equal2 pair); [done|]. by apply (lo_next_event _ Hok).
    - right. by split; [right|]. }
  apply line_asks; [done|]. intros [[seq e]|].
  - apply line_step. clear. intros s [] s' Hok Hp [= <-]. eexists. split; [by apply note_event_ok|].
    apply upholds_bind, write_upholds. intros written. apply line_step. clear. intros s [] s' Hok Hp [= <-].
    exists no_part. split; [apply end_forwarding_ok; [done..|]; by destruct written|done].
  - apply line_step. clear. intros s [] s' Hok Hp [= <-]. exists no_part. split; [by apply end_forwarding_ok|done].
Qed.

Lemma beside_upholds i : line_upholds i line_end beside_turn no_part.
Proof.
  unfold beside_turn, await, ask. cbn [mbind call_bind]. apply line_step. intros s [id op] s' Hok [Hp Hf] Hs.
  unfold next_spawned in Hs. destruct (ln_spawned s) as [|x spawned]; [done|]. injection Hs as -> <-.
  exists no_part. split; [by split; [apply (line_ok_ext s); [reflexivity..|apply Hok|apply Hok|done]|split|keeps..]|].
  apply line_asks; [done|]. intros result. apply upholds_bind, (write_upholds i _ Beside). by intros [].
Qed.

Lemma line_invariant :
  invariant line_serve (fun _ _ _ => False) (fun _ _ => False) line_inv (fun _ => no_part) line_end
    line_awaits no_part line_start.
Proof.
  split.
  - split; [by split|]. split; [by apply Forall_nil|]. split_and!; (split; [intros ???? Hi|intros ?? Hi]); by destruct i.
  - intros s log L t (Hok & Hparts & Hs & Hf & Hw). split_and!; [done| |by apply sole_app..].
    apply Forall_app. split; [done|]. by repeat constructor.
  - intros i []; [apply serve_upholds|apply forward_upholds|apply beside_upholds].
  - done.
  - done.
Qed.

(** C16: a managed worker's connection is served by a loop that answers requests one after the other,
    a task that forwards the exits of its processes and a task for each request that is answered
    beside the others, all of which write to the one stream. However their steps interleave, the loop's
    answers are those that a sequential server gives to the requests it read, in the order it read
    them, with at most the last one still to come; the exits are sent in the order they came, with at
    most the last one still to come; what can be replayed is what the sequential server keeps; and
    no two frames are being written at a time. *)
Theorem connection_answers_in_turn p :
  line_pool p ->
  let s := pl_state p in
  (exists pending, length pending <= 1 /\ dues (ln_reads s) = sent_by Ordinary s ++ pending) /\
  (exists pending, length pending <= 1 /\ event_frames (ln_received s) = sent_by Events s ++ pending) /\
  ln_cache s = serve (omap in_turn (ln_reads s)) /\
  (forall i j e e', awaiting p i = Some (MqWrite e) -> awaiting p j = Some (MqWrite e') -> i = j).
Proof.
  intros Hp s.
  destruct (pool_reachable_upholds _ _ _ _ _ _ _ _ _ _ line_invariant Hp)
    as (L & (Hok & _ & _ & _ & [Hone _]) & Hlen & Hth).
  split_and!.
  - exists (option_list (ln_owed s)). split; [by destruct (ln_owed s); cbn; lia|apply Hok].
  - exists (option_list (ln_event_owed s)). split; [by destruct (ln_event_owed s); cbn; lia|apply Hok].
  - apply Hok.
  - assert (Hwriting : forall i e, awaiting p i = Some (MqWrite e) ->
              exists l, L !! i = Some l /\ pt_writing l = true).
    { intros i e [k Hk]%awaiting_thread. assert (is_Some (L !! i)) as [l Hl].
      { apply lookup_lt_is_Some. rewrite Hlen. by eapply lookup_lt_Some. }
      exists l. split; [done|]. by destruct (Hth _ _ _ Hk Hl). }
    intros i j e e' Hi Hj. destruct (Hwriting i e Hi) as (l & Hl & ?), (Hwriting j e' Hj) as (l' & Hl' & ?).
    by eapply Hone.
Qed.
End managed.

(** * A connection in the middle of its work *)

#[local] Instance told_reports : Reports :=
  {| AuthorityInfo := unit; Preparation := unit; LaunchReport := unit |}.

Definition this_identity : RunnerIdentity := mkRunnerIdentity None 1 0 "nonce".

Definition line_answer (asked : RunnerOp) (q : LineQuery) : LineReply q :=
  match q with
  | MqRead => Payload (Ok (request "request" asked))
  | MqDispatch _ | MqBeside _ => Ok ResTerminate
  | MqEvent => Some (1%Z, ProcessExited "process")
  | MqWrite _ => true
  end.

(** One request was answered and the next one was read, while an exit is written. *)
Definition line_moves : list (move (Answer := LineReply) (Tool := LineTool) (Other := Empty_set)) :=
  [MCall ServeTurn; MCall ForwardTurn; MCall ServeTurn] ++
  [MTurn 0; MTurn 0; MAnswer 0 (line_answer (RqTerminate "process")); MTurn 1; MTurn 1; MTurn 0] ++
  [MAnswer 0 (line_answer RqHello); MTurn 0; MTurn 0; MTurn 0; MAnswer 1 (line_answer RqHello); MTurn 1] ++
  [MAnswer 0 (line_answer RqHello); MTurn 0; MTurn 0; MTurn 2; MTurn 2; MAnswer 2 (line_answer RqHello)] ++
  [MTurn 1; MTurn 1; MTurn 2].

Definition line_working := schedule (line_serve false this_identity) (fun _ s => s) line_start line_moves.

(** It holds of a connection that sent one answer, owes another and is writing an exit. *)
Lemma connection_answers_in_turn_witness :
  length (ln_reads (pl_state line_working)) = 2 /\ length (sent_by Ordinary (pl_state line_working)) = 1 /\
  awaiting line_working 1 = Some (MqWrite (event 1 (ProcessExited "process"))) /\
  ln_cache (pl_state line_working) = serve (omap in_turn (ln_reads (pl_state line_working))).
Proof.
  assert (Hp : line_pool false this_identity line_working).
  { apply schedule_reachable. by intros []. }
  do 3 (split; [vm_compute; reflexivity|]). by apply (connection_answers_in_turn _ _ _ Hp).
Defined.
