(* ===== verification/Launch.v ===== *)
(** Governed executions: their preparation ([runner/admission.rs]) and their managed launch
    ([runner/launch.rs]) by the execution owner. A launch is a [call]: its turns are at the
    Runner whose slot it holds, its requests are the authority's sessions, the helper's spawn
    and transcript, and what the host answers. *)
From S2P Require Import Prelude Domain Policy Supervisor Api Recovery Wire Threads.
From S2P Require Import Authority Registration.

(** * Reports ([runner/admission.rs]) *)

Record AttemptIdentity := mkAttemptIdentity {
  ai_consumer : string;
  ai_generation : string;
  ai_attempt_id : string;
  ai_process_id : string;
  ai_workspace_id : string;
  ai_tty : bool;
  ai_resources : ResourceRequest;
  ai_digest : string
}.

Inductive ControlMethod := ByAccounting | ByQosAndPriority | ByCgroupV2.

Inductive ControlScope := ScopeObservedProcessGroup | ScopeContainedCgroup.

Record Control := mkControl { ct_level : EnforcementLevel; ct_method : ControlMethod }.

Record Supported := mkSupported {
  su_scope : ControlScope;
  su_cpu : Control;
  su_memory : Control;
  su_pids : Control
}.

Record Reserved := mkReserved { rv_quantities : Quantities; rv_prepared_ttl_ms : Z }.

Inductive AppliedControl :=
  | AppliedPlanned | AppliedApplied | AppliedUnsupported | AppliedFailed.

Definition applied_control (a : Application) : AppliedControl :=
  match a with
  | ApplicationPlanned => AppliedPlanned
  | ApplicationApplied => AppliedApplied
  | ApplicationUnsupported => AppliedUnsupported
  | ApplicationFailed => AppliedFailed
  end.

Inductive AppliedAccount :=
  | NotLaunchedApplied
  | LaunchedApplied (cpu memory pids : AppliedControl)
  | UnknownApplied.

Record AdmissionAccount := mkAdmissionAccount {
  ac_requested : Quantities;
  ac_required : Levels;
  ac_supported : option Supported;
  ac_reserved : option Reserved;
  ac_applied : AppliedAccount
}.

Definition with_applied (a : AdmissionAccount) (applied : AppliedAccount) : AdmissionAccount :=
  mkAdmissionAccount (ac_requested a) (ac_required a) (ac_supported a) (ac_reserved a) applied.

Inductive PreparationOutcome :=
  | PoLaunchUnavailable
  | PoSlotUnavailable
  | PoDenied (denial : ResourceAuthorityErrorCode)
  | PoAuthorityUnavailable (registration : ResourceRegistrationState)
      (error_code : option ResourceAuthorityErrorCode)
  | PoRefused (error_code : ResourceAuthorityErrorCode)
  | PoInvalid
  | PoExpired
  | PoDigestMismatch
  | PoUnknown
  | PoHelperUnusable (problem : HelperProblem)
  | PoProgramUnavailable
  | PoNetworkUnsupported
  | PoSandboxUnsupported
  | PoLaunchRefused (error_code : ResourceAuthorityErrorCode)
  | PoLaunchUnknown
  | PoHelperNotCreated
  | PoHelperRefused (error_code : ResourceAuthorityErrorCode)
  | PoHelperFailed (stage : HelperStage)
  | PoHelperEnded
  | PoExecFailed (errno : Z).

Record ManagedPreparation := mkManagedPreparation {
  mp_attempt_id : string;
  mp_process_id : string;
  mp_outcome : PreparationOutcome;
  mp_attempt : Recovery.AttemptState;
  mp_account : option AdmissionAccount
}.

Definition proves_not_started (r : ManagedPreparation) : bool :=
  match mp_attempt r with
  | AtNotAsked | AtNotRecorded | AtDenied | AtCancelled | AtExpired | AtReleased => true
  | _ => false
  end.

Definition created_a_helper (o : PreparationOutcome) : bool :=
  match o with
  | PoHelperRefused _ | PoHelperFailed _ | PoHelperEnded | PoExecFailed _ => true
  | _ => false
  end.

(** [wire_name], of the values that a message names. *)
Definition attempt_state_name (s : Recovery.AttemptState) : string :=
  match s with
  | AtNotAsked => "not_asked" | AtNotRecorded => "not_recorded" | AtDenied => "denied"
  | AtCancelled => "cancelled" | AtExpired => "expired" | AtReleased => "released"
  | AtLaunched => "launched" | AtScopeEnded => "scope_ended" | AtOther => "other"
  | AtUnknown => "unknown"
  end.

Definition helper_problem_name (p : HelperProblem) : string :=
  match p with
  | HelperNotAbsolute => "not_absolute" | HelperNotAFile => "not_a_file"
  | HelperNotExecutable => "not_executable" | HelperNotPrivate => "not_private"
  end.

Definition helper_stage_name (s : HelperStage) : string :=
  match s with
  | StageScope => "scope" | StageClamp => "clamp" | StageReport => "report"
  | StagePermit => "permit" | StageConnect => "connect" | StageOther => "other"
  end.

(** [launch_refusal] ([runner/launch.rs]). *)
Definition launch_refusal (code : ResourceAuthorityErrorCode) : ErrorCode :=
  match code with
  | RaResourceUnavailable => ResourceUnavailable
  | RaResourcePolicyUnsupported => ResourcePolicyUnsupported
  | _ => ResourceAuthorityUnavailable
  end.

(** The code and the words of [ManagedPreparation::into_error_body]. *)
Definition outcome_error (attempt : Recovery.AttemptState) (o : PreparationOutcome)
    : ErrorCode * string :=
  match o with
  | PoLaunchUnavailable =>
      (ManagedLaunchUnavailable,
       "the resource authority admitted it, but the execution owner has no launch helper, so the unstarted attempt was cancelled")
  | PoSlotUnavailable =>
      (WorkspaceBusy, "live process limit reached; the resource authority was not asked")
  | PoDenied denial =>
      (match denial with
       | RaResourceUnavailable => ResourceUnavailable
       | RaResourcePolicyUnsupported => ResourcePolicyUnsupported
       | _ => ResourceAuthorityUnavailable
       end, "the resource authority denied it (" +:+ ra_code_wire_name denial +:+ ")")
  | PoAuthorityUnavailable registration code =>
      (ResourceAuthorityUnavailable,
       "the execution owner could not ask the resource authority (registration: "
       +:+ rr_wire_name registration
       +:+ match code with Some code => ", " +:+ ra_code_wire_name code | None => "" end +:+ ")")
  | PoRefused code =>
      (ResourceAuthorityUnavailable,
       "the resource authority refused the admission (" +:+ ra_code_wire_name code +:+ ")")
  | PoInvalid =>
      (InvalidCommand, "the execution has no meaning the resource authority can admit")
  | PoExpired => (ResourceUnavailable, "the admission expired before launch")
  | PoDigestMismatch => (Internal, "the launch did not match the prepared execution")
  | PoUnknown =>
      (AdmissionUnknown,
       "no answer came back from the resource authority, so whether it admitted the execution is not known")
  | PoHelperUnusable problem =>
      (ManagedLaunchUnavailable,
       "the resource authority admitted it, but the execution owner's launch helper cannot be used ("
       +:+ helper_problem_name problem +:+ "), so the unstarted attempt was cancelled")
  | PoProgramUnavailable =>
      (ProcessSpawnFailed,
       "the command's program is not an executable file on its PATH, so the unstarted attempt was cancelled")
  | PoNetworkUnsupported =>
      (ProcessSpawnFailed,
       "Enabled network requires the Linux command sandbox helper, which a managed launch does not use, so the unstarted attempt was cancelled")
  | PoSandboxUnsupported =>
      (ResourcePolicyUnsupported,
       "a managed launch cannot run inside the Linux command sandbox, so the unstarted attempt was cancelled")
  | PoLaunchRefused code =>
      (launch_refusal code,
       "the resource authority refused to launch it (" +:+ ra_code_wire_name code
       +:+ "), so nothing was committed")
  | PoLaunchUnknown =>
      (match attempt with AtUnknown => AdmissionUnknown | _ => ResourceAuthorityUnavailable end,
       "no answer came back from the resource authority when the launch was committed, and it was not asked again")
  | PoHelperNotCreated =>
      (ProcessSpawnFailed, "the launch was committed, but its helper could not be started")
  | PoHelperRefused code =>
      (launch_refusal code,
       "the resource authority did not authorize the launch helper (" +:+ ra_code_wire_name code
       +:+ "), which never attempted the command")
  | PoHelperFailed stage =>
      (ResourceAuthorityUnavailable,
       "the launch helper failed before it presented the launch (" +:+ helper_stage_name stage
       +:+ ") and never attempted the command")
  | PoHelperEnded =>
      (ProcessSpawnFailed,
       "the launch helper ended before it reported ready, so it never attempted the command")
  | PoExecFailed errno =>
      (ProcessSpawnFailed,
       "the resource authority authorized the launch, but the command could not be executed (errno "
       +:+ pretty errno +:+ ")")
  end.

(** [ManagedPreparation::into_error_body]. *)
Definition preparation_error (r : ManagedPreparation) (workspace_id : string) : ErrorBody :=
  let started :=
    if created_a_helper (mp_outcome r) then "the command was not started"
    else "nothing was started" in
  let attempt :=
    "attempt `" +:+ mp_attempt_id r +:+ "` for process_id `" +:+ mp_process_id r +:+ "`: "
    +:+ attempt_state_name (mp_attempt r) +:+ "; " +:+ started in
  let '(code, what) := outcome_error (mp_attempt r) (mp_outcome r) in
  error_body code
    ("workspace `" +:+ workspace_id +:+ "` requires resource participation: " +:+ what +:+ "; "
     +:+ attempt).

(** * What an answer shows of an attempt *)

Definition state_of (phase : Phase) : Recovery.AttemptState :=
  match phase with
  | Denied => AtDenied
  | PhaseCancelled => AtCancelled
  | PhaseExpired => AtExpired
  | _ => AtOther
  end.

Definition attempt_state (a : Attempt) : Recovery.AttemptState :=
  match at_phase a, at_release a with
  | PhaseReleased, Some NoHelperCreated => AtReleased
  | PhaseReleased, _ => AtScopeEnded
  | (LaunchCommitted | ScopeBound | RunAuthorized | Draining | Suspect), _ => AtLaunched
  | phase, _ => state_of phase
  end.

Definition cancelled (answer : Answer) : Recovery.AttemptState :=
  match answer with AnswerAttempt a => state_of (at_phase a) | _ => AtUnknown end.

Definition abandoned (answer : Answer) : Recovery.AttemptState :=
  match answer with AnswerAttempt a => attempt_state a | _ => AtUnknown end.

(** ** The account *)

Definition dg_request (r : ResourceRequest) : DgResourceRequest :=
  mkDgResourceRequest (mkQuantities (rq_cpu_milli r) (rq_memory_bytes r) (rq_tasks r))
    (mkLevels (rm_cpu (rq_minimum r)) (rm_memory (rq_minimum r)) (rm_pids (rq_minimum r))).

Definition requested (r : ResourceRequest) : Quantities :=
  mkQuantities (rq_cpu_milli r) (rq_memory_bytes r) (rq_tasks r).

Definition required (r : ResourceRequest) : Levels :=
  mkLevels (rm_cpu (rq_minimum r)) (rm_memory (rq_minimum r)) (rm_pids (rq_minimum r)).

Definition control (p : Planned) : Control :=
  mkControl (pn_level p)
    match pn_method p with
    | Accounting => ByAccounting
    | QosAndPriority => ByQosAndPriority
    | CgroupV2 => ByCgroupV2
    end.

Definition supported (p : Plan) : Supported :=
  mkSupported
    match Authority.pl_scope p with
    | ObservedProcessGroup => ScopeObservedProcessGroup
    | ContainedCgroup => ScopeContainedCgroup
    end (control (pl_cpu p)) (control (pl_memory p)) (control (pl_pids p)).

Definition reserved (r : Reservation) : Reserved :=
  mkReserved (rs_quantities r) (rs_prepared_ttl_ms r).

(** * The meaning of an execution *)

(** What a launch finds on its host: the metadata of files, the user, whether a path is a regular
    file that this user may execute, whether the Linux command sandbox is available, whether it
    is macOS, and this process's [PATH]. *)
Record Host := mkHost {
  ho_metadata : list Component -> option FileMeta;
  ho_uid : Z;
  ho_executable : string -> bool;
  ho_sandbox : bool;
  ho_macos : bool;
  ho_path : option string
}.

(** [runner_local_exec_env] and [sandbox_exec_env]. *)
Definition runner_local_exec_env (host : Host) (home : string) : gmap string string :=
  <["PATH" := default "/usr/bin:/bin:/usr/sbin:/sbin" (ho_path host)]>
    (<["HOME" := home]> (<["LANG" := "C"]> ∅)).

Definition SANDBOX_PATH : string := "/usr/local/bin:/usr/bin:/bin:/usr/local/sbin:/usr/sbin:/sbin".

Definition sandbox_exec_env (home : string) : gmap string string :=
  <["PATH" := SANDBOX_PATH]> (<["HOME" := home]> (<["LANG" := "C"]> (<["TMPDIR" := "/tmp"]> ∅))).

(** [spawn_env] ([runner/process.rs]). *)
Definition spawn_env (host : Host) (cwd : string) (req : RunnerExecRequest) (sandboxed : bool)
    : gmap string string :=
  xe_overrides (xr_env req) ∪
    (if xe_use_runner_defaults (xr_env req)
     then if sandboxed then sandbox_exec_env cwd else runner_local_exec_env host cwd
     else ∅).

Definition profile_name (p : Profile) : string :=
  match p with ReadOnly => "read-only" | WorkspaceWrite => "workspace-write" end.

Definition network_name (n : NetworkAxis) : string :=
  match n with NetRestricted => "restricted" | NetEnabled => "enabled" end.

Definition request_cwd (ws : Policy.Workspace) (cwd : RunnerCwd) : string :=
  match cwd with WorkspaceRoot => ws_root ws end.

Definition meaning (host : Host) (ws : Policy.Workspace) (req : RunnerExecRequest) : Meaning :=
  let cwd := request_cwd ws (xr_cwd req) in
  let environment := spawn_env host cwd req (ho_sandbox host) in
  mkMeaning (default "" (head (xr_argv req)))
    ("codespace-workspace:" +:+ ws_id ws +:+ ":" +:+ cwd +:+ ":profile="
     +:+ profile_name (xp_workspace_profile (xr_policy req)) +:+ ":network="
     +:+ network_name (xp_network (xr_policy req)))
    (xr_argv req)
    (if xr_tty req && xe_use_runner_defaults (xr_env req)
     then <["TERM" := "xterm"]> environment else environment)
    (xr_tty req) (xr_timeout_ms req) (dg_request (resources_request (ws_resources ws))).

(** * The launcher ([runner/launch.rs]) *)

(** [DEFAULT_READY_BOUND] and [SETTLE_BOUND], and how often a process is asked after, in
    milliseconds. *)
Definition DEFAULT_READY_BOUND : Z := 10000.
Definition SETTLE_BOUND : Z := 5000.
Definition EXIT_POLL : Z := 20.
Definition AFTER_EXIT_POLL : Z := 250.

Record Launcher := mkLauncher { ln_helper : string; ln_ready_bound : Z }.

Definition launcher_new (helper : string) : result string Launcher :=
  if is_absolute helper then Ok (mkLauncher helper DEFAULT_READY_BOUND)
  else Err (describe_problem HelperNotAbsolute).

Definition usable (host : Host) (l : Launcher) : result HelperProblem unit :=
  check_helper (ho_metadata host) (ho_uid host) (ln_helper l).

Definition DEFAULT_PATH (macos : bool) : string :=
  if macos then "/usr/bin:/bin" else "/bin:/usr/bin".

(** [Path::join] of a relative path. *)
Fixpoint ends_with_slash (s : string) : bool :=
  match s with
  | "" => false
  | String a "" => bool_decide (a = "/"%char)
  | String _ s => ends_with_slash s
  end.

Definition path_join (base name : string) : string :=
  if is_absolute name then name
  else if bool_decide (base = "") || ends_with_slash base then base +:+ name
  else base +:+ "/" +:+ name.

Fixpoint split_on (c : ascii) (s : string) : list string :=
  match s with
  | "" => [""]
  | String a s =>
      if bool_decide (a = c) then "" :: split_on c s
      else match split_on c s with
           | [] => [String a ""]
           | x :: l => String a x :: l
           end
  end.

Fixpoint contains (c : ascii) (s : string) : bool :=
  match s with
  | "" => false
  | String a s => bool_decide (a = c) || contains c s
  end.

Definition anchored (cwd dir : string) : string :=
  if bool_decide (dir = "") then cwd
  else if is_absolute dir then dir else path_join cwd dir.

(** Where [resolve_program] looks, in order. *)
Definition candidates (host : Host) (name cwd : string) (path : option string) : list string :=
  if contains "/" name then [anchored cwd name]
  else (fun dir => path_join (anchored cwd dir) name)
         <$> split_on ":" (default (DEFAULT_PATH (ho_macos host)) path).

Definition resolve_program (host : Host) (name cwd : string) (path : option string)
    : option string :=
  if bool_decide (name = "") then None
  else List.find (ho_executable host) (candidates host name cwd path).

Record LaunchPlan := mkLaunchPlan { lp_program : string; lp_args : list string }.

(** [Launcher::plan]. *)
Definition plan (host : Host) (l : Launcher) (ws : Policy.Workspace) (req : RunnerExecRequest)
    : result PreparationOutcome LaunchPlan :=
  match usable host l with
  | Err problem => Err (PoHelperUnusable problem)
  | Ok _ =>
      if ho_sandbox host then Err PoSandboxUnsupported
      else if bool_decide (xp_network (xr_policy req) = NetEnabled) then Err PoNetworkUnsupported
      else
        let cwd := request_cwd ws (xr_cwd req) in
        let env := spawn_env host cwd req false in
        match resolve_program host (default "" (head (xr_argv req))) cwd (env !! "PATH") with
        | None => Err PoProgramUnavailable
        | Some program => Ok (mkLaunchPlan program (tail (xr_argv req)))
        end
  end.

(** * Launch reports *)

Inductive LaunchPhase :=
  | LpPrepared | LpLaunchCommitted | LpHelperCreated | LpScopeBound | LpPoliciesApplied
  | LpHelperReady | LpPayloadExecAttempted | LpPayloadRunning | LpPayloadFailed | LpDraining
  | LpReleased.

#[export] Instance LaunchPhase_eq_dec : EqDecision LaunchPhase.
Proof. solve_decision. Defined.

Inductive LaunchDispatch := DispatchConfirmed | DispatchUnknown.

#[export] Instance LaunchDispatch_eq_dec : EqDecision LaunchDispatch.
Proof. solve_decision. Defined.

Record ManagedLaunch := mkManagedLaunch {
  ml_attempt_id : string;
  ml_process_id : string;
  ml_dispatch : LaunchDispatch;
  ml_phases : list LaunchPhase;
  ml_account : option AdmissionAccount;
  ml_scope_root_pid : option Z;
  ml_root : option RunnerProcessRoot;
  ml_deadline_at_ms : option Z
}.

Inductive LaunchReport :=
  | LaunchedReport (launch : ManagedLaunch)
  | NotLaunched (report : ManagedPreparation).

Definition report_attempt_id (r : LaunchReport) : string :=
  match r with LaunchedReport l => ml_attempt_id l | NotLaunched r => mp_attempt_id r end.
Definition report_process_id (r : LaunchReport) : string :=
  match r with LaunchedReport l => ml_process_id l | NotLaunched r => mp_process_id r end.

(** [never_ran]. *)
Definition never_ran (e : TranscriptEnd) : bool :=
  match e with RefusedEnd _ | FailedEnd _ | EndedBeforeReady => true | _ => false end.

(** * The owner's steps *)

(** The Runner of the execution owner, its clock in milliseconds, and the admissions it
    remembers ([Admissions]). *)
Record OwnerState := mkOwnerState {
  la_runner : Runner;
  la_now : Z;
  la_admissions : gmap string (string * Admission)
}.

Definition set_owner_runner (s : OwnerState) (r : Runner) : OwnerState :=
  mkOwnerState r (la_now s) (la_admissions s).

(** [Admissions::remember] and [Admissions::admitted]. *)
Definition remember (process_id : string) (a : Admission) (s : OwnerState) : OwnerState :=
  mkOwnerState (la_runner s) (la_now s) (<[ad_attempt_id a := (process_id, a)]> (la_admissions s)).

Definition admitted (admissions : gmap string (string * Admission)) (attempt_id process_id : string)
    : option Admission :=
  match admissions !! attempt_id with
  | Some (admitted_for, a) => if bool_decide (admitted_for = process_id) then Some a else None
  | None => None
  end.

(** What a launch asks of others: a session of the authority, the helper's invocation, its
    process, its transcript, within a bound or to its end, what the host is like and what its
    processes do, and the delivery of signals. A session whose thread cannot finish is answered
    as unknown. *)
Inductive LaunchRequest :=
  | LqAuthority (request : AttemptRequest) (a : Admission)
  | LqBegin (a : Admission)
  | LqHelper (helper : string) (a : Admission) (permit : Permit) (program : string)
      (args : list string)
  | LqSpawn (ws : Policy.Workspace) (req : RunnerExecRequest) (invocation : HelperInvocation)
  | LqTranscript (bound : Z)
  | LqTranscriptEnd
  | LqHost
  | LqWorld
  | LqSignal (sent : list Effect).

Definition LaunchReply (q : LaunchRequest) : Type :=
  match q with
  | LqAuthority _ _ => Answer
  | LqBegin _ => LaunchAnswer
  | LqHelper _ _ _ _ _ => result DgErrorCode HelperInvocation
  | LqSpawn _ _ _ => res (option RunnerProcessRoot * option Z)
  | LqTranscript _ => option (option TranscriptEnd)   (* in time; read by its thread *)
  | LqTranscriptEnd => option TranscriptEnd
  | LqHost => Host
  | LqWorld => World
  | LqSignal _ => unit
  end.

Abbreviation launching := (call OwnerState LaunchRequest LaunchReply).
Abbreviation done_with := (@Return OwnerState LaunchRequest LaunchReply _).

Section launches.
Context `{Hash : HashOrder}.
(** DevGuard's digest of a meaning, the process limit's variable; the authority's consumer, the
    bound on prepared attempts, and whether admissions are remembered. *)
Context (digest : Meaning -> option string) (env : option string).
Context (consumer generation : string) (ttl_bound : Z) (remembers : bool).

Definition session (request : AttemptRequest) (a : Admission) : launching Answer :=
  ask (Answer := LaunchReply) (LqAuthority request a).
Definition host_now : launching Host := ask (Answer := LaunchReply) LqHost.
Definition now_ms : launching Z := look la_now.

(** One call of the Runner. *)
Definition on_runner {B} (f : Z -> Runner -> Runner * B) : launching B :=
  turn (fun s => let (r, b) := f (la_now s) (la_runner s) in (b, set_owner_runner s r)).

Definition free_slot (process_id : string) : launching unit :=
  on_runner (fun _ r => (drop_reservation process_id r, tt)).

(** ** Lookups ([look_up]) *)

Definition found_of (answer : Answer) : LookedUp :=
  match answer with
  | AnswerAttempt a => LkFound (attempt_state a)
  | AnswerRefused DgNotFound => LkNotFound
  | _ => LkFailed
  end.

Fixpoint look_up (authority : bool) (attempts : list AttemptRef) : launching (list AttemptLookup) :=
  match attempts with
  | [] => done_with []
  | r :: attempts =>
      known ← look (fun s => admitted (la_admissions s) (Wire.ar_attempt_id r) (ar_process_id r));
      found ← match known, authority with
              | None, _ => done_with LkNotAdmitted
              | Some _, false => done_with LkFailed
              | Some a, true => answer ← session RequestLookup a; done_with (found_of answer)
              end;
      rest ← look_up authority attempts;
      done_with (mkAttemptLookup (Wire.ar_attempt_id r) (ar_process_id r) found :: rest)
  end.

(** ** Preparation *)

Record PreparedExecution := mkPreparedExecution {
  px_identity : AttemptIdentity;
  px_ws : Policy.Workspace;
  px_request : RunnerExecRequest;
  px_account : AdmissionAccount;
  px_deadline : Z;
  px_admission : Admission;
  px_slot : bool
}.

Definition without_slot (p : PreparedExecution) : PreparedExecution :=
  mkPreparedExecution (px_identity p) (px_ws p) (px_request p) (px_account p) (px_deadline p)
    (px_admission p) false.

(** [resolve]. *)
Definition resolve (a : Admission) : launching Recovery.AttemptState :=
  found ← session RequestLookup a;
  match found with
  | AnswerAttempt attempt =>
      if bool_decide (at_phase attempt = Prepared)
      then answer ← session RequestCancel a; done_with (cancelled answer)
      else done_with (state_of (at_phase attempt))
  | _ => done_with AtUnknown
  end.

Definition identity_of (ws : Policy.Workspace) (req : RunnerExecRequest)
    (attempt_id digest : string) : AttemptIdentity :=
  mkAttemptIdentity consumer generation attempt_id (xr_process_id req) (ws_id ws) (xr_tty req)
    (resources_request (ws_resources ws)) digest.

Definition account_of (ws : Policy.Workspace) : AdmissionAccount :=
  let resources := resources_request (ws_resources ws) in
  mkAdmissionAccount (requested resources) (required resources) None None NotLaunchedApplied.

Definition account_with (ws : Policy.Workspace) (attempt : Attempt) : AdmissionAccount :=
  let account := account_of ws in
  mkAdmissionAccount (ac_requested account) (ac_required account) (supported <$> at_plan attempt)
    (reserved <$> at_reservation attempt) (ac_applied account).

Definition prepared_ttl (attempt : Attempt) : Z :=
  Z.min (default 0%Z (rs_prepared_ttl_ms <$> at_reservation attempt)) ttl_bound.

(** [Preparer::prepare] once it has its slot; [started] is when the admission was asked. *)
Definition admit_attempt (ws : Policy.Workspace) (req : RunnerExecRequest) (attempt_id digest : string)
    : launching (result ManagedPreparation PreparedExecution) :=
  let report outcome attempt account :=
    Err (mkManagedPreparation attempt_id (xr_process_id req) outcome attempt account) in
  let a := mkAdmission attempt_id digest (dg_request (resources_request (ws_resources ws))) in
  let account := account_of ws in
  _ ← (if remembers then update (remember (xr_process_id req) a) else done_with tt);
  started ← now_ms;
  answer ← session RequestAdmit a;
  match answer with
  | AnswerAttempt attempt =>
      let account := account_with ws attempt in
      match at_phase attempt with
      | Prepared =>
          done_with (Ok (mkPreparedExecution (identity_of ws req attempt_id digest) ws req account
                           (started + prepared_ttl attempt) a true))
      | Denied =>
          _ ← free_slot (xr_process_id req);
          done_with (report (PoDenied (default RaResourcePolicyUnsupported
                                         (error_code <$> at_denial attempt)))
                       AtDenied (Some account))
      | _ =>
          attempt ← resolve a;
          _ ← free_slot (xr_process_id req);
          done_with (report PoUnknown attempt (Some account))
      end
  | AnswerRefused code =>
      _ ← free_slot (xr_process_id req);
      done_with (report (PoRefused (error_code code)) AtNotRecorded (Some account))
  | NotSent r =>
      _ ← free_slot (xr_process_id req);
      done_with (report (PoAuthorityUnavailable (registration_state (rg_state r))
                           (error_code <$> rg_error_code r)) AtNotAsked (Some account))
  | AnswerUnknown =>
      attempt ← resolve a;
      _ ← free_slot (xr_process_id req);
      done_with (report PoUnknown attempt (Some account))
  end.

(** [Preparer::prepare]. *)
Definition prepare (ws : Policy.Workspace) (req : RunnerExecRequest) (attempt_id : string)
    : launching (result ManagedPreparation PreparedExecution) :=
  let refused outcome :=
    Err (mkManagedPreparation attempt_id (xr_process_id req) outcome AtNotAsked None) in
  if bool_decide (rs_participation (ws_resources ws) <> ParticipationRequired)
  then done_with (refused PoInvalid)
  else
    slot ← on_runner (fun now r => reserve_slot env now (xr_process_id req) r);
    match slot with
    | Err _ => done_with (refused PoSlotUnavailable)
    | Ok _ =>
        host ← host_now;
        match digest (meaning host ws req) with
        | None =>
            _ ← free_slot (xr_process_id req);
            done_with (refused PoInvalid)
        | Some digest => admit_attempt ws req attempt_id digest
        end
    end.

(** [PreparedExecution::settle] and [PreparedExecution::report]. *)
Definition settle (p : PreparedExecution) : launching Recovery.AttemptState :=
  answer ← session RequestCancel (px_admission p);
  _ ← (if px_slot p then free_slot (ai_process_id (px_identity p)) else done_with tt);
  done_with (cancelled answer).

Definition prepared_report (p : PreparedExecution) (outcome : PreparationOutcome)
    (attempt : Recovery.AttemptState) : ManagedPreparation :=
  mkManagedPreparation (ai_attempt_id (px_identity p)) (ai_process_id (px_identity p)) outcome
    attempt (Some (px_account p)).

(** ** Settling a helper ([Settler]) *)

(** [tokio::time::sleep]. *)
Definition sleep (ms : Z) : launching unit :=
  due ← look (fun s => la_now s + ms)%Z;
  await (fun s => if bool_decide (due <= la_now s)%Z then Some (tt, s) else None).

Definition process_ended (status : res RunnerProcessStatus) : bool :=
  match status with
  | Ok status => bool_decide (rs_state status = PExited)
  | Err _ => true
  end.

Definition host_status (process_id : string) : launching (res RunnerProcessStatus) :=
  on_runner (fun now r => host_process_status now process_id r).

(** The loop of [exited_within], with a fuel that it never uses up. *)
Fixpoint exited_by (fuel : nat) (process_id : string) (deadline : Z) : launching (option bool) :=
  match fuel with
  | 0 => done_with None
  | S fuel =>
      status ← host_status process_id;
      if process_ended status then done_with (Some true)
      else
        now ← now_ms;
        if bool_decide (deadline <= now)%Z then done_with (Some false)
        else _ ← sleep EXIT_POLL; exited_by fuel process_id deadline
  end.

(** As many polls as fit into a bound, and two more. *)
Definition polls (bound : Z) : nat := Z.to_nat (bound / EXIT_POLL) + 2.

Definition exited_within (bound : Z) (process_id : string) : launching (option bool) :=
  now ← now_ms;
  exited_by (polls bound) process_id (now + bound).

Definition the_world : launching World := ask (Answer := LaunchReply) LqWorld.

Definition kill (process_id : string) : launching unit :=
  world ← the_world;
  sent ← on_runner (fun now r =>
    let '(r, sent, _) := kill_host world now process_id r in (r, sent));
  ask (Answer := LaunchReply) (LqSignal sent).

(** [Settler::reaped]. *)
Definition was_reaped (process_id : string) : launching bool :=
  exited ← exited_within SETTLE_BOUND process_id;
  if default false exited then done_with true
  else
    _ ← kill process_id;
    exited ← exited_within SETTLE_BOUND process_id;
    done_with (default false exited).

Definition abandon (a : Admission) (reason : Abandon) : launching Recovery.AttemptState :=
  answer ← session (RequestAbandon reason) a;
  done_with (abandoned answer).

(** [Settler::after_reap]. *)
Definition after_reap (process_id : string) (a : Admission) : launching Recovery.AttemptState :=
  reaped ← was_reaped process_id;
  if (reaped : bool) then abandon a HelperExited else done_with AtUnknown.

(** [Settler::after_exit], for as many polls as [fuel]; it asks for as long as the process
    runs. *)
Fixpoint after_exit (fuel : nat) (process_id : string) (a : Admission)
    : launching (option Recovery.AttemptState) :=
  match fuel with
  | 0 => done_with None
  | S fuel =>
      status ← host_status process_id;
      if process_ended status then attempt ← abandon a HelperExited; done_with (Some attempt)
      else _ ← sleep AFTER_EXIT_POLL; after_exit fuel process_id a
  end.

(** ** The launch ([launch_managed]) *)

Definition transcript_within (bound : Z) : launching (option (option TranscriptEnd)) :=
  ask (Answer := LaunchReply) (LqTranscript bound).
Definition transcript_ended : launching (option TranscriptEnd) :=
  ask (Answer := LaunchReply) LqTranscriptEnd.
Definition begin_session (a : Admission) : launching LaunchAnswer :=
  ask (Answer := LaunchReply) (LqBegin a).
Definition invocation_for (helper : string) (a : Admission) (permit : Permit) (program : string)
    (args : list string) : launching (result DgErrorCode HelperInvocation) :=
  ask (Answer := LaunchReply) (LqHelper helper a permit program args).
Definition create_helper (ws : Policy.Workspace) (req : RunnerExecRequest)
    (invocation : HelperInvocation) : launching (res (option RunnerProcessRoot * option Z)) :=
  ask (Answer := LaunchReply) (LqSpawn ws req invocation).

(** [PreparedExecution::refusal]. *)
Definition refusal (p : PreparedExecution) (req : RunnerExecRequest)
    : launching (option PreparationOutcome) :=
  host ← host_now;
  now ← now_ms;
  done_with
    (if bool_decide (digest (meaning host (px_ws p) req) <> Some (ai_digest (px_identity p)))
        || bool_decide (xr_process_id req <> ai_process_id (px_identity p))
     then Some PoDigestMismatch
     else if bool_decide (px_deadline p <= now)%Z then Some PoExpired
     else None).

(** [resolve_launch]. *)
Definition resolve_launch (a : Admission) : launching Recovery.AttemptState :=
  found ← session RequestLookup a;
  match found with
  | AnswerAttempt attempt =>
      if bool_decide (at_phase attempt = Prepared)
      then answer ← session RequestCancel a; done_with (cancelled answer)
      else if bool_decide (at_phase attempt = LaunchCommitted) && is_none (at_scope attempt)
      then abandon a GrantNotReceived
      else done_with (attempt_state attempt)
  | _ => done_with AtUnknown
  end.

(** What a launch leaves to a task of its own: to read the transcript to its end, or to wait for
    the process to end. *)
Inductive Later := ReadTranscript | AwaitExit.

Definition refuse (report : ManagedPreparation) : launching (LaunchReport * option Later) :=
  done_with (NotLaunched report, None).

(** [settle] and the report of what stopped the launch before it was begun. *)
Definition settle_as (p : PreparedExecution) (outcome : PreparationOutcome)
    : launching (LaunchReport * option Later) :=
  attempt ← settle p;
  refuse (prepared_report p outcome attempt).

(** [not_launched]. *)
Definition not_launched (p : PreparedExecution) (outcome : PreparationOutcome)
    (attempt : Recovery.AttemptState) : launching (LaunchReport * option Later) :=
  _ ← (if px_slot p then free_slot (ai_process_id (px_identity p)) else done_with tt);
  refuse (prepared_report p outcome attempt).

Definition account_found (p : PreparedExecution) (answer : Answer)
    : AdmissionAccount * option Z :=
  match answer with
  | AnswerAttempt attempt =>
      (with_applied (px_account p)
         match at_applied attempt with
         | Some a => LaunchedApplied (applied_control (ap_cpu a)) (applied_control (ap_memory a))
                       (applied_control (ap_pids a))
         | None => UnknownApplied
         end, sc_root_pid <$> at_scope attempt)
  | _ => (with_applied (px_account p) UnknownApplied, None)
  end.

(** [launched]. *)
Definition launched (p : PreparedExecution) (phases : list LaunchPhase) (dispatch : LaunchDispatch)
    (spawned : RunnerExecResult) : launching LaunchReport :=
  account ← match dispatch with
            | DispatchConfirmed =>
                answer ← session RequestLookup (px_admission p);
                done_with (account_found p answer)
            | DispatchUnknown => done_with (with_applied (px_account p) UnknownApplied, None)
            end;
  done_with (LaunchedReport
    (mkManagedLaunch (ai_attempt_id (px_identity p)) (ai_process_id (px_identity p)) dispatch phases
       (Some account.1) account.2 (xs_root spawned) (xs_deadline_at_ms spawned))).

(** [InProcessRunner::spawn_managed]: the process fills the slot that the preparation took. *)
Definition managed_process (ws : Policy.Workspace) (req : RunnerExecRequest) : Spawned :=
  mkSpawned (ws_id ws) (xr_tty req) false (xr_output_bytes_cap req) true.

Definition spawn_managed (ws : Policy.Workspace) (req : RunnerExecRequest) (invocation : HelperInvocation)
    : launching (res RunnerExecResult) :=
  created ← create_helper ws req invocation;
  match created with
  | Err e =>
      _ ← on_runner (fun now r => spawn_end now (xr_process_id req) (Err e) r);
      done_with (Err e)
  | Ok (root, deadline) =>
      _ ← on_runner (fun now r =>
            spawn_end now (xr_process_id req) (Ok (managed_process ws req)) r);
      done_with (Ok (mkRunnerExecResult (xr_process_id req)
                       (if xr_tty req then None else root) deadline))
  end.

(** The phases that a confirmed launch went through after its helper was created. *)
Definition confirmed_phases : list LaunchPhase :=
  [LpScopeBound; LpPoliciesApplied; LpHelperReady; LpPayloadExecAttempted; LpPayloadRunning].

Definition looked_up (a : Admission) : launching Recovery.AttemptState :=
  answer ← session RequestLookup a;
  done_with (abandoned answer).

Definition helper_outcome (e : TranscriptEnd) : PreparationOutcome :=
  match e with
  | RefusedEnd code => PoHelperRefused (error_code code)
  | FailedEnd stage => PoHelperFailed stage
  | _ => PoHelperEnded
  end.

(** [launch_managed] once its helper exists: what the transcript's end makes of it. *)
Definition helper_ended (p : PreparedExecution) (spawned : RunnerExecResult) (e : TranscriptEnd)
    : launching (LaunchReport * option Later) :=
  let phases := [LpPrepared; LpLaunchCommitted; LpHelperCreated] in
  let process_id := ai_process_id (px_identity p) in
  match e with
  | Started =>
      report ← launched p (phases ++ confirmed_phases) DispatchConfirmed spawned;
      done_with (report, None)
  | Uncertain =>
      report ← launched p phases DispatchUnknown spawned;
      done_with (report, Some AwaitExit)
  | ExecFailedEnd errno =>
      _ ← was_reaped process_id;
      attempt ← looked_up (px_admission p);
      not_launched p (PoExecFailed errno) attempt
  | e =>
      attempt ← after_reap process_id (px_admission p);
      not_launched p (helper_outcome e) attempt
  end.

Definition read_helper (l : Launcher) (p : PreparedExecution) (spawned : RunnerExecResult)
    : launching (LaunchReport * option Later) :=
  ended ← transcript_within (ln_ready_bound l);
  match ended with
  | None =>
      report ← launched p [LpPrepared; LpLaunchCommitted; LpHelperCreated] DispatchUnknown spawned;
      done_with (report, Some ReadTranscript)
  | Some ended => helper_ended p spawned (default Uncertain ended)
  end.

(** [launch_managed] once the launch was granted. *)
Definition start_helper (l : Launcher) (p : PreparedExecution) (req : RunnerExecRequest)
    (pl : LaunchPlan) (permit : Permit) : launching (LaunchReport * option Later) :=
  let not_created p :=
    attempt ← abandon (px_admission p) SpawnFailed;
    not_launched p PoHelperNotCreated attempt in
  invocation ← invocation_for (ln_helper l) (px_admission p) permit (lp_program pl) (lp_args pl);
  match invocation with
  | Err _ => not_created p
  | Ok invocation =>
      if negb (px_slot p) then not_created p
      else
        let p := without_slot p in
        spawned ← spawn_managed (px_ws p) req invocation;
        match spawned with
        | Err _ => not_created p
        | Ok spawned => read_helper l p spawned
        end
  end.

(** [launch_managed]. *)
Definition launch_managed (p : PreparedExecution) (req : RunnerExecRequest)
    (launcher : option Launcher) : launching (LaunchReport * option Later) :=
  refused ← refusal p req;
  match refused, launcher with
  | Some outcome, _ => settle_as p outcome
  | None, None => settle_as p PoLaunchUnavailable
  | None, Some l =>
      host ← host_now;
      match plan host l (px_ws p) req with
      | Err outcome => settle_as p outcome
      | Ok pl =>
          answer ← begin_session (px_admission p);
          match answer with
          | Granted _ permit => start_helper l p req pl permit
          | LaunchNotCommitted code =>
              answer ← session RequestCancel (px_admission p);
              not_launched p (PoLaunchRefused (error_code code)) (cancelled answer)
          | LaunchNotSent r =>
              answer ← session RequestCancel (px_admission p);
              not_launched p (PoAuthorityUnavailable (registration_state (rg_state r))
                                (error_code <$> rg_error_code r)) (cancelled answer)
          | LaunchAnswerUnknown =>
              attempt ← resolve_launch (px_admission p);
              not_launched p PoLaunchUnknown attempt
          end
      end
  end.

(** [prepare_and_launch]. *)
Definition prepare_and_launch (launcher : option Launcher) (ws : Policy.Workspace)
    (req : RunnerExecRequest) (attempt_id : string) : launching (LaunchReport * option Later) :=
  prepared ← prepare ws req attempt_id;
  match prepared with
  | Ok p => launch_managed p req launcher
  | Err report => refuse report
  end.

(** [PreparedExecution::launch], which cannot launch: [None] is its [unreachable!]. *)
Definition launch_without_helper (p : PreparedExecution) (req : RunnerExecRequest)
    : launching (option ManagedPreparation) :=
  '(report, _) ← launch_managed p req None;
  match report with
  | NotLaunched report => done_with (Some report)
  | LaunchedReport _ => done_with None
  end.

(** [prepare_and_dispose]. *)
Definition prepare_and_dispose (ws : Policy.Workspace) (req : RunnerExecRequest)
    (attempt_id : string) : launching (option ManagedPreparation) :=
  prepared ← prepare ws req attempt_id;
  match prepared with
  | Ok p => launch_without_helper p req
  | Err report => done_with (Some report)
  end.

(** The task that a launch leaves. *)
Definition settle_later (fuel : nat) (process_id : string) (a : Admission) (later : Later)
    : launching unit :=
  match later with
  | AwaitExit => _ ← after_exit fuel process_id a; done_with tt
  | ReadTranscript =>
      ended ← transcript_ended;
      match ended with
      | Some (Started | ExecFailedEnd _) => done_with tt
      | Some ended =>
          if never_ran ended then _ ← after_reap process_id a; done_with tt
          else _ ← after_exit fuel process_id a; done_with tt
      | None => _ ← after_exit fuel process_id a; done_with tt
      end
  end.

(** A launch with the task it leaves, which ends last. *)
Definition whole_launch (fuel : nat) (launcher : option Launcher) (ws : Policy.Workspace)
    (req : RunnerExecRequest) (attempt_id : string) : launching LaunchReport :=
  prepared ← prepare ws req attempt_id;
  match prepared with
  | Err report => done_with (NotLaunched report)
  | Ok p =>
      '(report, later) ← launch_managed p req launcher;
      _ ← match later with
          | Some later => settle_later fuel (ai_process_id (px_identity p)) (px_admission p) later
          | None => done_with tt
          end;
      done_with report
  end.
End launches.
