(* ===== verification/Launching.v ===== *)
(** What a managed launch promises ([Launch]): the protocol that it follows with the resource
    authority and the helper, whatever these answer and whatever else the Runner does in the
    meantime; that its report is justified by the answers; and that it ends. *)
From S2P Require Import Prelude Domain Policy Supervisor Api Recovery Threads Courses.
From S2P Require Import Authority Registration Launch.

(** * What others do to the Runner in the meantime *)

(** The moment reserves, frees or fills the slot of [id]. *)
Definition touches (m : Moment) (id : string) : bool :=
  match mo_op m with
  | OpSpawnBegin _ j _ | OpReserve j | OpDropReservation j | OpSpawnEnd j _ => bool_decide (j = id)
  | _ => false
  end.

(** The process [id], as far as the Runner holds it, was reaped. *)
Definition ended (id : string) (r : Runner) : Prop :=
  forall slot, rn_inner r !! id = Some slot ->
    lf_finished (pr_lifecycle (proc_at (rn_procs r) (sl_proc slot))) = true.

Section meanwhile.
Context `{Hash : HashOrder} (env : option string).

Lemma evict_reserved now r : rn_reserved (evict_completed now r) = rn_reserved r.
Proof. apply evict_completed_frame. Qed.

Lemma reserve_reserved now j r id :
  j <> id -> id ∈ rn_reserved (reserve_slot env now j r).1 <-> id ∈ rn_reserved r.
Proof.
  intros Hj. unfold reserve_slot. cbv zeta. rewrite evict_reserved.
  repeat case_bool_decide; cbn; rewrite ?evict_reserved; set_solver.
Qed.

Lemma step_reserved r m id :
  touches m id = false -> id ∈ rn_reserved (step env r m) <-> id ∈ rn_reserved r.
Proof.
  unfold touches, step.
  destruct (mo_op m) as [re j argv|j|j|j sw|p t| |p|p ioe|j|ws| |ids|j|k];
    intros Hm; try (apply bool_decide_eq_false in Hm).
  - unfold spawn_begin. destruct re; [|done]. destruct argv as [|[|chr x] argv]; [done..|].
    by apply reserve_reserved.
  - by apply reserve_reserved.
  - cbn. set_solver.
  - case_bool_decide; [|done]. destruct sw as [sw|e]; cbn; [|set_solver].
    unfold fill. destruct (remember_frame j Executed
      (drop_reservation j (with_inner (evict_completed (mo_now m) (with_procs r (rn_procs r ++ [spawned_proc sw])))
        (<[j:={| sl_workspace_id := sw_workspace_id sw;
           sl_io := if sw_tty sw then Pty else Pipe (sw_sandboxed sw);
           sl_proc := length (rn_procs r); sl_on_kill := sw_on_kill sw;
           sl_acknowledged := None |}]> (rn_inner (evict_completed (mo_now m) (with_procs r (rn_procs r ++ [spawned_proc sw])))))))
      ) as (_ & _ & -> & _). cbn. rewrite evict_reserved. cbn. set_solver.
  - done.
  - by rewrite evict_reserved.
  - unfold take_stdin. by destruct (pr_stdin _).
  - done.
  - unfold kill_host. destruct (find_slot j _); cbn; [destruct (request_kill _ _ _) as [[] ?]; cbn|];
      by rewrite evict_reserved.
  - unfold kill_host_workspace. destruct (kill_slots _ _ _ _ _) as [[] ?]. cbn.
    by rewrite evict_reserved.
  - unfold terminate_all. destruct (terminate_slots _ _ _) as [[] ?]. cbn. by rewrite evict_reserved.
  - unfold acknowledge. by rewrite evict_reserved.
  - unfold note_received. destruct (remember_frame j Refused r) as (_ & _ & -> & _). done.
  - done.
Qed.

Lemma step_ended r m id :
  runner_ok r -> touches m id = false -> ended id r -> ended id (step env r m).
Proof.
  intros Hok Hm He slot Hs.
  destruct (step_slot_origin env r m id slot Hok Hs) as [(s0 & Hs0 & Hp & _)|(sw & Ho & _)].
  - rewrite <- Hp. destruct (step_ok env r m Hok) as [_ Hmono]. pose proof Hok as [_ Hslots].
    destruct (procs_mono_at _ _ _ Hmono (so_proc _ _ (Hslots _ _ Hs0))) as [_ [_ _ M _]].
    apply M. by apply He.
  - unfold touches in Hm. rewrite Ho in Hm. by apply bool_decide_eq_false in Hm.
Qed.

(** Others take any steps of the Runner that are not about this process's slot, remember other
    admissions, and time passes. *)
Definition others (id : string) (s s' : OwnerState) : Prop :=
  (exists ms, Forall (fun m => touches m id = false) ms /\
     la_runner s' = run env (la_runner s) ms) /\
  (la_now s <= la_now s')%Z.

Lemma others_refl id s : others id s s.
Proof. split; [by exists []|lia]. Qed.

Lemma others_keeps id (P : Runner -> Prop) s s' :
  (forall r m, touches m id = false -> P r -> P (step env r m)) ->
  others id s s' -> P (la_runner s) -> P (la_runner s').
Proof.
  intros Hstep [(ms & Hms & ->) _]. generalize (la_runner s). clear s s'.
  induction Hms as [|m ms Hm _ IH]; intros r Hr; [done|]. cbn. by apply IH, Hstep.
Qed.

(** * What the launch relies on of the state *)

Definition Sound (s : OwnerState) : Prop := runner_ok (la_runner s).
Definition Taken (id : string) (s : OwnerState) : Prop := Sound s /\ id ∈ rn_reserved (la_runner s).
Definition Free (id : string) (s : OwnerState) : Prop := Sound s /\ id ∉ rn_reserved (la_runner s).
Definition Ended (id : string) (s : OwnerState) : Prop := Free id s /\ ended id (la_runner s).

Lemma sound_stable id : stable (others id) Sound.
Proof. intros s s1 Ho. apply (others_keeps id runner_ok _ _); [|done]. intros r m _ Hr. by apply step_ok. Qed.

Lemma taken_stable id : stable (others id) (Taken id).
Proof.
  intros s s1 Ho [Hs Ht]. split; [by eapply sound_stable|].
  apply (others_keeps id (fun r => id ∈ rn_reserved r) _ _ ltac:(intros; by apply step_reserved) Ho Ht).
Qed.

Lemma free_stable id : stable (others id) (Free id).
Proof.
  intros s s1 Ho [Hs Ht]. split; [by eapply sound_stable|].
  apply (others_keeps id (fun r => id ∉ rn_reserved r) _ _
           ltac:(intros r m ? ?; cbv beta; by rewrite step_reserved) Ho Ht).
Qed.

Lemma ended_stable id : stable (others id) (Ended id).
Proof.
  intros s s1 Ho [[Hs Hf] He]. split; [by eapply free_stable; [|split]|].
  apply (others_keeps id (fun r => runner_ok r /\ ended id r) s s1); [|done..].
  intros r m Hm [H1 H2]. split; [by apply step_ok|by apply step_ended].
Qed.
End meanwhile.

(** * The protocol *)

(** What the exchanges of one launch have shown so far. *)
Record Progress := mkProgress {
  pg_admit : option (Admission * Answer);
  pg_last : option Answer;          (* of the last session but [BeginLaunch] *)
  pg_cancelled : bool;
  pg_begun : option LaunchAnswer;
  pg_invocation : option (result DgErrorCode HelperInvocation);
  pg_spawned : option bool;         (* whether the helper was created *)
  pg_transcript : option TranscriptEnd;
  pg_abandoned : option Abandon
}.

Definition progress_start : Progress := mkProgress None None false None None None None None.

Definition with_session (p : Progress) (request : AttemptRequest) (a : Admission) (answer : Answer)
    : Progress :=
  mkProgress
    (match request with RequestAdmit => Some (a, answer) | _ => pg_admit p end)
    (Some answer)
    (match request with RequestCancel => true | _ => pg_cancelled p end)
    (pg_begun p) (pg_invocation p) (pg_spawned p) (pg_transcript p)
    (match request with RequestAbandon reason => Some reason | _ => pg_abandoned p end).

Definition with_transcript (p : Progress) (e : TranscriptEnd) : Progress :=
  mkProgress (pg_admit p) (pg_last p) (pg_cancelled p) (pg_begun p) (pg_invocation p)
    (pg_spawned p) (Some e) (pg_abandoned p).

Definition noted (p : Progress) (q : LaunchRequest) : LaunchReply q -> Progress :=
  match q with
  | LqAuthority request a => fun answer => with_session p request a answer
  | LqBegin _ => fun answer =>
      mkProgress (pg_admit p) (pg_last p) (pg_cancelled p) (Some answer) (pg_invocation p)
        (pg_spawned p) (pg_transcript p) (pg_abandoned p)
  | LqHelper _ _ _ _ _ => fun answer =>
      mkProgress (pg_admit p) (pg_last p) (pg_cancelled p) (pg_begun p) (Some answer)
        (pg_spawned p) (pg_transcript p) (pg_abandoned p)
  | LqSpawn _ _ _ => fun answer =>
      mkProgress (pg_admit p) (pg_last p) (pg_cancelled p) (pg_begun p) (pg_invocation p)
        (Some (is_ok answer)) (pg_transcript p) (pg_abandoned p)
  | LqTranscript _ => fun answer =>
      match answer with
      | Some e => with_transcript p (default Uncertain e)
      | None => p
      end
  | LqTranscriptEnd => fun answer => with_transcript p (default Uncertain answer)
  | LqHost | LqWorld | LqSignal _ => fun _ => p
  end.

Definition admitted_as (p : Progress) (a : Admission) : Prop :=
  exists answer, pg_admit p = Some (a, answer).
Definition admitted_prepared (p : Progress) (a : Admission) : Prop :=
  exists attempt, pg_admit p = Some (a, AnswerAttempt attempt) /\ at_phase attempt = Prepared.
Definition last_found (p : Progress) (P : Attempt -> Prop) : Prop :=
  exists attempt, pg_last p = Some (AnswerAttempt attempt) /\ P attempt.
Definition was_granted (p : Progress) (permit : Permit) : Prop :=
  exists attempt, pg_begun p = Some (Authority.Granted attempt permit).

(** Nothing was committed, as far as is known: [BeginLaunch] was not sent, was not taken, or its
    answer was lost and the attempt was looked up and is still prepared. *)
Definition uncommitted (p : Progress) : Prop :=
  match pg_begun p with
  | None | Some (LaunchNotCommitted _) | Some (LaunchNotSent _) => True
  | Some LaunchAnswerUnknown => last_found p (fun attempt => at_phase attempt = Prepared)
  | Some (Authority.Granted _ _) => False
  end.

(** The transcript says that the helper never ran the executable. *)
Definition helper_failed (p : Progress) : Prop :=
  exists e, pg_transcript p = Some e /\
    (never_ran e = true \/ exists errno, e = ExecFailedEnd errno).

Section conformance.
Context `{Hash : HashOrder} (env : option string).
Context (id attempt_id : string).

Definition allowed (p : Progress) (s : OwnerState) (q : LaunchRequest) : Prop :=
  match q with
  | LqAuthority RequestAdmit a => pg_admit p = None /\ ad_attempt_id a = attempt_id /\ Taken id s
  | LqAuthority RequestLookup a => admitted_as p a
  | LqAuthority RequestCancel a =>
      admitted_as p a /\ uncommitted p /\ pg_cancelled p = false /\ pg_spawned p = None
  | LqAuthority (RequestAbandon SpawnFailed) a =>
      admitted_as p a /\ (exists permit, was_granted p permit) /\ pg_spawned p <> Some true /\
      pg_abandoned p = None
  | LqAuthority (RequestAbandon GrantNotReceived) a =>
      admitted_as p a /\ pg_begun p = Some LaunchAnswerUnknown /\ pg_spawned p = None /\
      last_found p (fun attempt =>
        at_phase attempt = LaunchCommitted /\ at_scope attempt = None) /\
      pg_abandoned p = None
  | LqAuthority (RequestAbandon HelperExited) a =>
      admitted_as p a /\ pg_spawned p = Some true /\ Ended id s /\
      (exists e, pg_transcript p = Some e /\ (never_ran e = true \/ e = Uncertain)) /\
      pg_abandoned p = None
  | LqAuthority RequestObserve _ => False
  | LqBegin a =>
      admitted_prepared p a /\ pg_begun p = None /\ pg_cancelled p = false /\ Taken id s
  | LqHelper _ a permit _ _ => admitted_prepared p a /\ was_granted p permit /\ pg_invocation p = None
  | LqSpawn _ req invocation =>
      (exists permit, was_granted p permit) /\ pg_invocation p = Some (Ok invocation) /\
      pg_spawned p = None /\ pg_abandoned p = None /\ xr_process_id req = id /\ Taken id s
  | LqTranscript _ | LqTranscriptEnd => pg_spawned p = Some true /\ pg_transcript p = None
  | LqHost => True
  | LqWorld | LqSignal _ => pg_spawned p = Some true /\ helper_failed p
  end.

(** What proves a state of the attempt that lets its approval be used again. *)
Definition evidence (p : Progress) (st : Recovery.AttemptState) : Prop :=
  match st with
  | AtNotAsked =>
      pg_begun p = None /\
      (pg_admit p = None \/ exists a r, pg_admit p = Some (a, NotSent r))
  | AtNotRecorded => pg_begun p = None /\ exists a code, pg_admit p = Some (a, AnswerRefused code)
  | AtDenied | AtCancelled | AtExpired =>
      last_found p (fun attempt => state_of (at_phase attempt) = st)
  | AtReleased =>
      last_found p (fun attempt =>
        at_phase attempt = PhaseReleased /\ at_release attempt = Some NoHelperCreated)
  | _ => True
  end.

(** What a report of a command that was not started is worth. *)
Definition not_started_justified (p : Progress) (s : OwnerState) (r : ManagedPreparation) : Prop :=
  mp_attempt_id r = attempt_id /\ mp_process_id r = id /\ Free id s /\
  (if created_a_helper (mp_outcome r) then pg_spawned p = Some true /\ helper_failed p
   else pg_spawned p <> Some true) /\
  evidence p (mp_attempt r).

Definition launched_justified (p : Progress) (l : ManagedLaunch) : Prop :=
  ml_attempt_id l = attempt_id /\ ml_process_id l = id /\ pg_spawned p = Some true /\
  LpHelperCreated ∈ ml_phases l /\ ~ helper_failed p /\
  (ml_dispatch l = DispatchConfirmed <-> pg_transcript p = Some Started) /\
  (LpPayloadRunning ∈ ml_phases l <-> ml_dispatch l = DispatchConfirmed).

Definition justified (p : Progress) (s : OwnerState) (report : LaunchReport) : Prop :=
  match report with
  | LaunchedReport l => launched_justified p l
  | NotLaunched r => not_started_justified p s r
  end.
End conformance.

(** ** What a report says *)








(** * The launch follows the protocol *)

(** A session leaves what is known of the launch itself as it is. *)
Record same_launch (p p' : Progress) : Prop := {
  sm_admit : pg_admit p' = pg_admit p;
  sm_begun : pg_begun p' = pg_begun p;
  sm_invocation : pg_invocation p' = pg_invocation p;
  sm_spawned : pg_spawned p' = pg_spawned p;
  sm_transcript : pg_transcript p' = pg_transcript p
}.

Lemma with_session_same p request a answer :
  request <> RequestAdmit -> same_launch p (with_session p request a answer).
Proof. by destruct request. Qed.

Lemma same_launch_trans p q r : same_launch p q -> same_launch q r -> same_launch p r.
Proof. intros [] []. split; congruence. Qed.

Lemma same_admitted p p' a : same_launch p p' -> admitted_as p a -> admitted_as p' a.
Proof. intros [H _ _ _ _] [answer Ha]. exists answer. by rewrite H. Qed.

Lemma same_failed p p' : same_launch p p' -> helper_failed p -> helper_failed p'.
Proof. intros [_ _ _ _ H] (e & He & Hc). exists e. by rewrite H. Qed.

Lemma prepared_admitted p a : admitted_prepared p a -> admitted_as p a.
Proof. intros (attempt & H & _). by eexists. Qed.

Lemma evidence_cancelled p answer : pg_last p = Some answer -> evidence p (cancelled answer).
Proof.
  destruct answer as [r|code|attempt|]; cbn; try done. intros Hl.
  destruct (state_of (at_phase attempt)) eqn:Hs; cbn; try done; try (by exists attempt);
    by destruct (at_phase attempt).
Qed.

Lemma evidence_abandoned p answer : pg_last p = Some answer -> evidence p (abandoned answer).
Proof.
  destruct answer as [r|code|attempt|]; cbn; try done. intros Hl. unfold attempt_state.
  destruct (at_phase attempt) eqn:Hp; cbn; try done; try (exists attempt; by rewrite Hp).
  destruct (at_release attempt) as [[]|] eqn:Hr; cbn; try done. by exists attempt.
Qed.

Section follows.
Context `{Hash : HashOrder} (env : option string).
Context (id attempt_id : string).

Abbreviation follows := (wp (others env id) (allowed id attempt_id) noted).

Lemma wp_on_runner {B C} (P : OwnerState -> Prop) (Q : C -> Progress -> OwnerState -> Prop)
    (f : Z -> Runner -> Runner * B) (k : B -> launching C) p s :
  stable (others env id) P -> P s ->
  (forall s1, P s1 -> follows Q (k (f (la_now s1) (la_runner s1)).2) p
                        (set_owner_runner s1 (f (la_now s1) (la_runner s1)).1)) ->
  follows Q (on_runner f ≫= k) p s.
Proof.
  intros HP Hs Hk. apply (wp_turn _ _ _ P); [done..|]. intros s1 Hs1. specialize (Hk s1 Hs1).
  by destruct (f _ _).
Qed.

Lemma wp_session {C} (P : OwnerState -> Prop) (Q : C -> Progress -> OwnerState -> Prop)
    request a (k : Answer -> launching C) p s :
  stable (others env id) P -> P s ->
  (forall s1, P s1 -> allowed id attempt_id p s1 (LqAuthority request a)) ->
  (forall s1 answer, P s1 -> follows Q (k answer) (with_session p request a answer) s1) ->
  follows Q (session request a ≫= k) p s.
Proof. intros HP Hs Ha Hk. by apply (wp_ask _ _ _ P). Qed.

Lemma step_sound r m : runner_ok r -> runner_ok (step env r m).
Proof. intros H. by apply step_ok. Qed.

Lemma free_after_drop s : Sound s -> Free id (set_owner_runner s (drop_reservation id (la_runner s))).
Proof.
  intros Hs. split; [|cbn; set_solver].
  apply (step_sound (la_runner s) (mkMoment 0 (mkWorld (fun _ => mkChild None (WaitFailed 0) None)
    (fun _ => mkPtySession true None)) (OpDropReservation id)) Hs).
Qed.

Lemma wp_free_slot {C} (Q : C -> Progress -> OwnerState -> Prop) (k : unit -> launching C) p s :
  Sound s -> (forall s', Free id s' -> follows Q (k tt) p s') -> follows Q (free_slot id ≫= k) p s.
Proof.
  intros Hs Hk. apply (wp_on_runner Sound); [apply sound_stable|done|].
  intros s1 Hs1. by apply Hk, free_after_drop.
Qed.

Lemma wp_free_if {C} (slot : bool) (Q : C -> Progress -> OwnerState -> Prop) (k : unit -> launching C)
    p s :
  (if slot then Sound s else Free id s) -> (forall s', Free id s' -> follows Q (k tt) p s') ->
  follows Q ((if slot then free_slot id else done_with tt) ≫= k) p s.
Proof. intros Hs Hk. destruct slot; [by apply wp_free_slot|by apply Hk]. Qed.

(** ** Sessions that settle an attempt *)

(** Nothing was begun: the attempt can be looked up and cancelled. *)
Definition settleable (p : Progress) (a : Admission) : Prop :=
  admitted_as p a /\ uncommitted p /\ pg_cancelled p = false /\ pg_spawned p = None.

Lemma wp_cancel {C} (P : OwnerState -> Prop) (Q : C -> Progress -> OwnerState -> Prop) a
    (k : Answer -> launching C) p s :
  stable (others env id) P -> P s -> settleable p a ->
  (forall answer p' s', P s' -> same_launch p p' -> evidence p' (cancelled answer) ->
     follows Q (k answer) p' s') ->
  follows Q (session RequestCancel a ≫= k) p s.
Proof.
  intros HP Hs Ha Hk. apply (wp_session P); [done..|].
  intros s1 answer Hs1. apply Hk; [done|by apply with_session_same|by apply evidence_cancelled].
Qed.

Lemma wp_resolve {C} (P : OwnerState -> Prop) (Q : C -> Progress -> OwnerState -> Prop) a
    (k : Recovery.AttemptState -> launching C) p s :
  stable (others env id) P -> P s -> settleable p a -> pg_begun p = None ->
  (forall st p' s', P s' -> same_launch p p' -> evidence p' st -> follows Q (k st) p' s') ->
  follows Q (resolve a ≫= k) p s.
Proof.
  intros HP Hs Ha Hb Hk. unfold resolve. apply wp_assoc. apply (wp_session P); [done..|by intros; apply Ha|].
  intros s1 answer Hs1.
  assert (Hsame : same_launch p (with_session p RequestLookup a answer)) by by apply with_session_same.
  destruct answer as [r|code|attempt|]; try (by apply Hk). case_bool_decide as Hp.
  - apply wp_assoc. eapply wp_cancel; [exact HP|done| |].
    + destruct Ha as (H1 & _ & H3 & H4). split_and!; try done. unfold uncommitted. cbn. by rewrite Hb.
    + intros answer p' s' Hs' Hsm Hev. apply Hk; [done|by eapply same_launch_trans|done].
  - apply Hk; [done..|]. by apply (evidence_cancelled _ (AnswerAttempt attempt)).
Qed.

Lemma wp_abandon {C} (P : OwnerState -> Prop) (Q : C -> Progress -> OwnerState -> Prop) reason a
    (k : Recovery.AttemptState -> launching C) p s :
  stable (others env id) P -> P s ->
  (forall s1, P s1 -> allowed id attempt_id p s1 (LqAuthority (RequestAbandon reason) a)) ->
  (forall st p' s', P s' -> same_launch p p' -> evidence p' st -> follows Q (k st) p' s') ->
  follows Q (abandon a reason ≫= k) p s.
Proof.
  intros HP Hs Ha Hk. unfold abandon. apply wp_assoc. apply (wp_session P); [done..|].
  intros s1 answer Hs1. apply Hk; [done|by apply with_session_same|by apply evidence_abandoned].
Qed.

Lemma wp_resolve_launch {C} (P : OwnerState -> Prop) (Q : C -> Progress -> OwnerState -> Prop) a
    (k : Recovery.AttemptState -> launching C) p s :
  stable (others env id) P -> P s -> admitted_as p a -> pg_begun p = Some LaunchAnswerUnknown ->
  pg_cancelled p = false -> pg_spawned p = None -> pg_abandoned p = None ->
  (forall st p' s', P s' -> same_launch p p' -> evidence p' st -> follows Q (k st) p' s') ->
  follows Q (resolve_launch a ≫= k) p s.
Proof.
  intros HP Hs Ha Hb Hc Hsp Hab Hk. unfold resolve_launch. apply wp_assoc.
  apply (wp_session P); [done..|]. intros s1 answer Hs1.
  assert (Hsame : same_launch p (with_session p RequestLookup a answer)) by by apply with_session_same.
  destruct answer as [r|code|attempt|]; try (by apply Hk). case_bool_decide as Hp.
  - apply wp_assoc. eapply wp_cancel; [exact HP|done| |].
    + split_and!; try done. unfold uncommitted. cbn. rewrite Hb. by exists attempt.
    + intros answer p' s' Hs' Hsm Hev. apply Hk; [done|by eapply same_launch_trans|done].
  - destruct (_ && _) eqn:Hcom.
    + apply andb_true_iff in Hcom as [Hph%bool_decide_eq_true Hsc].
      apply (wp_abandon P); [done..| |].
      * intros s2 _. cbn. split_and!; try done. exists attempt. split_and!; try done.
        by destruct (at_scope attempt).
      * intros st p' s' Hs' Hsm Hev. apply Hk; [done|by eapply same_launch_trans|done].
    + apply Hk; [done..|]. by apply (evidence_abandoned _ (AnswerAttempt attempt)).
Qed.

(** ** Waiting for the helper to be reaped *)

Lemma status_ended now r :
  runner_ok r -> process_ended (host_process_status now id r).2 = true ->
  ended id (host_process_status now id r).1.
Proof.
  intros Hok. unfold host_process_status, find_slot, ended. cbn.
  destruct (rn_inner (evict_completed now r) !! id) as [slot|] eqn:Hs; cbn; [|by intros _ ?].
  intros He%bool_decide_eq_true slot' [= <-].
  pose proof (evict_completed_ok now r Hok) as [Hprocs _].
  destruct (proc_at_ok _ (sl_proc slot) Hprocs) as [Hl _ _ _ _]. by apply exited_finished in He.
Qed.

Lemma evict_free now s : Free id s -> Free id (set_owner_runner s (evict_completed now (la_runner s))).
Proof.
  intros [Hs Hf]. split; [by apply evict_completed_ok|]. cbn. by rewrite evict_reserved.
Qed.

Lemma wp_host_status {C} (Q : C -> Progress -> OwnerState -> Prop)
    (k : res RunnerProcessStatus -> launching C) p s :
  Free id s ->
  (forall status s', Free id s' -> (process_ended status = true -> Ended id s') ->
     follows Q (k status) p s') ->
  follows Q (host_status id ≫= k) p s.
Proof.
  intros Hs Hk. apply (wp_on_runner (Free id)); [apply free_stable|done|]. intros s1 Hs1.
  pose proof (evict_free (la_now s1) s1 Hs1) as Hf. apply Hk; [done|].
  intros He. split; [done|]. by apply status_ended; [apply Hs1|].
Qed.

Lemma wp_sleep {C} (P : OwnerState -> Prop) (Q : C -> Progress -> OwnerState -> Prop) ms
    (k : unit -> launching C) p s :
  stable (others env id) P -> P s -> (forall s', P s' -> follows Q (k tt) p s') ->
  follows Q (sleep ms ≫= k) p s.
Proof.
  intros HP Hs Hk. unfold sleep. apply wp_assoc. apply (wp_look _ _ _ P); [done..|].
  intros s1 Hs1. apply (wp_await _ _ _ P); [done..|]. intros s2 [] s3 Hs2.
  case_bool_decide; [|done]. intros [= <-]. by apply Hk.
Qed.

Lemma wp_exited_by {C} fuel deadline (Q : C -> Progress -> OwnerState -> Prop)
    (k : option bool -> launching C) p s :
  Free id s ->
  (forall b s', Free id s' -> (b = Some true -> Ended id s') -> follows Q (k b) p s') ->
  follows Q (exited_by fuel id deadline ≫= k) p s.
Proof.
  intros Hs Hk. revert s Hs. induction fuel as [|fuel IH]; intros s Hs; [by apply Hk|].
  cbn [exited_by]. apply wp_assoc. apply wp_host_status; [done|]. intros status s1 Hs1 He.
  destruct (process_ended status); [apply Hk; auto|].
  apply wp_assoc. apply (wp_look _ _ _ (Free id)); [apply free_stable|done|]. intros s2 Hs2.
  case_bool_decide; [by apply Hk|]. apply wp_assoc.
  apply (wp_sleep (Free id)); [apply free_stable|done|]. auto.
Qed.

Lemma wp_kill {C} (Q : C -> Progress -> OwnerState -> Prop) (k : unit -> launching C) p s :
  pg_spawned p = Some true -> helper_failed p -> Free id s ->
  (forall s', Free id s' -> follows Q (k tt) p s') -> follows Q (kill id ≫= k) p s.
Proof.
  intros Hsp Hf Hs Hk. unfold kill. apply wp_assoc.
  apply (wp_ask _ _ _ (Free id)); [apply free_stable|done|by intros|]. intros s1 world Hs1.
  apply wp_assoc. apply (wp_on_runner (Free id)); [apply free_stable|done|]. intros s2 [Hok Hr].
  apply (wp_ask _ _ _ (Free id)); [apply free_stable| |by intros|intros s3 []; apply Hk].
  pose proof (step_sound (la_runner s2) (mkMoment (la_now s2) world (OpKill id)) Hok) as Hstep.
  pose proof (step_reserved env (la_runner s2) (mkMoment (la_now s2) world (OpKill id)) id eq_refl) as Hres.
  unfold step in *. cbn in Hstep, Hres. destruct (kill_host _ _ _ _) as [[r sent] b]. cbn in *.
  split; [done|]. cbn. by rewrite Hres.
Qed.

Lemma wp_was_reaped {C} (Q : C -> Progress -> OwnerState -> Prop) (k : bool -> launching C) p s :
  pg_spawned p = Some true -> helper_failed p -> Free id s ->
  (forall (b : bool) s', Free id s' -> (b = true -> Ended id s') -> follows Q (k b) p s') ->
  follows Q (was_reaped id ≫= k) p s.
Proof.
  intros Hsp Hf Hs Hk. unfold was_reaped, exited_within. repeat apply wp_assoc.
  apply (wp_look _ _ _ (Free id)); [apply free_stable|done|]. intros s1 Hs1.
  apply wp_exited_by; [done|]. intros b s2 Hs2 Hb.
  destruct (default false b) eqn:Hd; [apply Hk; [done|intros _; apply Hb; by destruct b as [[]|]]|].
  apply wp_assoc. apply wp_kill; [done..|]. intros s3 Hs3. repeat apply wp_assoc.
  apply (wp_look _ _ _ (Free id)); [apply free_stable|done|]. intros s4 Hs4.
  apply wp_exited_by; [done|]. intros b' s5 Hs5 Hb'. apply Hk; [done|].
  intros Hd'. apply Hb'. by destruct b' as [[]|].
Qed.

(** What lets the helper's end be reported. *)
Definition reportable (p : Progress) (a : Admission) : Prop :=
  admitted_as p a /\ pg_spawned p = Some true /\ pg_abandoned p = None /\
  exists e, pg_transcript p = Some e /\ (never_ran e = true \/ e = Uncertain).

Lemma wp_abandon_exited {C} (Q : C -> Progress -> OwnerState -> Prop) a
    (k : Recovery.AttemptState -> launching C) p s :
  reportable p a -> Ended id s ->
  (forall st p' s', Ended id s' -> same_launch p p' -> evidence p' st -> follows Q (k st) p' s') ->
  follows Q (abandon a HelperExited ≫= k) p s.
Proof.
  intros (H1 & H2 & H3 & H4) Hs Hk. apply (wp_abandon (Ended id)); [apply ended_stable|done| |done].
  intros s1 Hs1. by split_and!.
Qed.

Lemma wp_after_reap {C} (Q : C -> Progress -> OwnerState -> Prop) a
    (k : Recovery.AttemptState -> launching C) p s :
  reportable p a -> helper_failed p -> Free id s ->
  (forall st p' s', Free id s' -> same_launch p p' -> evidence p' st -> follows Q (k st) p' s') ->
  follows Q (after_reap id a ≫= k) p s.
Proof.
  intros Hr Hf Hs Hk. unfold after_reap. apply wp_assoc.
  apply wp_was_reaped; [apply Hr|done..|]. intros [] s1 Hs1 He.
  - apply wp_abandon_exited; [done|by apply He|]. intros st p' s2 [Hs2 _]. by apply Hk.
  - by apply Hk.
Qed.

Lemma wp_after_exit {C} fuel (Q : C -> Progress -> OwnerState -> Prop) a
    (k : option Recovery.AttemptState -> launching C) p s :
  reportable p a -> Free id s ->
  (forall st p' s', Free id s' -> same_launch p p' -> follows Q (k st) p' s') ->
  follows Q (after_exit fuel id a ≫= k) p s.
Proof.
  intros Hr Hs Hk. revert s Hs. induction fuel as [|fuel IH]; intros s Hs.
  - by apply Hk.
  - cbn [after_exit]. apply wp_assoc. apply wp_host_status; [done|]. intros status s1 Hs1 He.
    destruct (process_ended status).
    + apply wp_assoc. apply wp_abandon_exited; [done|by apply He|].
      intros st p' s2 [Hs2 _] Hsm _. by apply Hk.
    + apply wp_assoc. apply (wp_sleep (Free id)); [apply free_stable|done|]. auto.
Qed.

(** ** Preparation *)

(** What a prepared execution stands for: an attempt that was admitted and not begun, and a
    slot. *)
Record prepared_ok (p : Progress) (s : OwnerState) (x : PreparedExecution) : Prop := {
  po_process : ai_process_id (px_identity x) = id;
  po_attempt : ai_attempt_id (px_identity x) = attempt_id;
  po_admitted : admitted_prepared p (px_admission x);
  po_begun : pg_begun p = None;
  po_cancelled : pg_cancelled p = false;
  po_invocation : pg_invocation p = None;
  po_spawned : pg_spawned p = None;
  po_transcript : pg_transcript p = None;
  po_abandoned : pg_abandoned p = None;
  po_slot : px_slot x = true;
  po_taken : Taken id s
}.

Definition prepare_post (x : result ManagedPreparation PreparedExecution) (p : Progress)
    (s : OwnerState) : Prop :=
  match x with
  | Ok x => prepared_ok p s x
  | Err r => not_started_justified id attempt_id p s r
  end.

Lemma not_helped_justified p s outcome attempt account :
  created_a_helper outcome = false -> pg_spawned p <> Some true -> Free id s -> evidence p attempt ->
  not_started_justified id attempt_id p s (mkManagedPreparation attempt_id id outcome attempt account).
Proof. intros Ho Hsp Hs He. unfold not_started_justified. cbn. by rewrite Ho. Qed.

Lemma wp_refused_after_free {C} (Q : C -> Progress -> OwnerState -> Prop) outcome attempt account
    (k : result ManagedPreparation PreparedExecution -> launching C) p s :
  created_a_helper outcome = false -> pg_spawned p <> Some true -> Sound s -> evidence p attempt ->
  (forall x s', prepare_post x p s' -> follows Q (k x) p s') ->
  follows Q ((_ ← free_slot id;
     done_with (Err (mkManagedPreparation attempt_id id outcome attempt account))) ≫= k) p s.
Proof.
  intros Ho Hsp Hs He Hk. apply wp_assoc. apply wp_free_slot; [done|]. intros s1 Hs1.
  apply Hk. by apply not_helped_justified.
Qed.

Lemma settleable_admitted a answer :
  settleable (with_session progress_start RequestAdmit a answer) a.
Proof. split_and!; try done. by exists answer. Qed.

Lemma wp_resolved {C} (Q : C -> Progress -> OwnerState -> Prop) a answer account
    (k : result ManagedPreparation PreparedExecution -> launching C) s :
  Taken id s ->
  (forall x p s', prepare_post x p s' -> follows Q (k x) p s') ->
  follows Q ((attempt ← resolve a; _ ← free_slot id;
     done_with (Err (mkManagedPreparation attempt_id id PoUnknown attempt account))) ≫= k)
    (with_session progress_start RequestAdmit a answer) s.
Proof.
  intros Hs Hk. apply wp_assoc.
  apply (wp_resolve (Taken id)); [apply taken_stable|done|apply settleable_admitted|done|].
  intros st p' s1 [Hs1 _] Hsm Hev. apply wp_refused_after_free; try done; [|by auto].
  by rewrite (sm_spawned _ _ Hsm).
Qed.

Context (digest : Meaning -> option string) (consumer generation : string) (ttl_bound : Z)
  (remembers : bool).

Lemma wp_admit_attempt {C} (Q : C -> Progress -> OwnerState -> Prop) ws req d
    (k : result ManagedPreparation PreparedExecution -> launching C) s :
  xr_process_id req = id -> Taken id s ->
  (forall x p s', prepare_post x p s' -> follows Q (k x) p s') ->
  follows Q (admit_attempt consumer generation ttl_bound remembers ws req attempt_id d ≫= k)
    progress_start s.
Proof.
  intros Hid Hs Hk. unfold admit_attempt. cbv zeta. rewrite Hid. apply wp_assoc.
  assert (Hrest : forall s, Taken id s -> forall r : launching unit,
    (r = update (remember id (mkAdmission attempt_id d
            (dg_request (resources_request (ws_resources ws))))) \/ r = done_with tt) ->
    forall k', (forall s', Taken id s' -> follows Q (k' tt) progress_start s') ->
    follows Q (r ≫= k') progress_start s).
  { intros s0 Hs0 r [->| ->] k' Hk'; [|by apply Hk'].
    apply (wp_turn _ _ _ (Taken id)); [apply taken_stable|done|]. intros s1 Hs1. by apply Hk'. }
  apply Hrest; [done|destruct remembers; auto|]. intros s1 Hs1. apply wp_assoc.
  apply (wp_look _ _ _ (Taken id)); [apply taken_stable|done|]. intros s2 Hs2. apply wp_assoc.
  apply (wp_session (Taken id)); [apply taken_stable|done|by intros|]. intros s3 answer Hs3.
  destruct answer as [r|code|attempt|].
  - apply wp_refused_after_free; [done..|apply Hs3| |by auto]. split; [done|]. right. by eexists _, _.
  - apply wp_refused_after_free; [done..|apply Hs3| |by auto]. split; [done|]. by eexists _, _.
  - destruct (at_phase attempt) eqn:Hp; try (by apply wp_resolved).
    + apply wp_refused_after_free; [done..|apply Hs3| |by auto]. exists attempt. cbn. by rewrite Hp.
    + apply Hk. split; cbn; try done. by exists attempt.
  - by apply wp_resolved.
Qed.

Lemma reserve_free now s :
  Free id s ->
  (reserve_slot env now id (la_runner s)).2 = Ok tt /\
    Taken id (set_owner_runner s (reserve_slot env now id (la_runner s)).1) \/
  (exists e, (reserve_slot env now id (la_runner s)).2 = Err e) /\
    Free id (set_owner_runner s (reserve_slot env now id (la_runner s)).1).
Proof.
  intros [Hok Hf].
  pose proof (step_sound (la_runner s) (mkMoment now (mkWorld (fun _ => mkChild None (WaitFailed 0) None)
    (fun _ => mkPtySession true None)) (OpReserve id)) Hok) as Hs. unfold step in Hs. cbn in Hs.
  unfold Taken, Free, Sound. cbn. revert Hs. unfold reserve_slot. cbv zeta. rewrite evict_reserved.
  repeat case_bool_decide; cbn; intros Hs; rewrite ?evict_reserved in *; [by eauto..|].
  left. split_and!; try done. set_solver.
Qed.

Lemma wp_prepare {C} (Q : C -> Progress -> OwnerState -> Prop) ws req
    (k : result ManagedPreparation PreparedExecution -> launching C) s :
  xr_process_id req = id -> Free id s ->
  (forall x p s', prepare_post x p s' -> follows Q (k x) p s') ->
  follows Q (prepare digest env consumer generation ttl_bound remembers ws req attempt_id ≫= k)
    progress_start s.
Proof.
  intros Hid Hs Hk. unfold prepare. cbv zeta. rewrite Hid.
  assert (Hstart : forall outcome s, created_a_helper outcome = false -> Free id s ->
    prepare_post (Err (mkManagedPreparation attempt_id id outcome AtNotAsked None)) progress_start s).
  { intros outcome s0 Ho Hs0. apply not_helped_justified; try done. split; [done|by left]. }
  case_bool_decide; [by apply Hk, Hstart|]. apply wp_assoc.
  apply (wp_on_runner (Free id)); [apply free_stable|done|]. intros s1 Hs1.
  destruct (reserve_free (la_now s1) s1 Hs1) as [[-> Ht]|[[e ->] Hf]]; [|by apply Hk, Hstart].
  apply wp_assoc. apply (wp_ask _ _ _ (Taken id)); [apply taken_stable|done|by intros|].
  intros s2 host Hs2. destruct (digest _) as [d|].
  - by apply wp_admit_attempt.
  - apply wp_refused_after_free; [done..|apply Hs2| |by auto]. split; [done|by left].
Qed.

(** ** The launch *)

(** What the task that a launch leaves may rely on. *)
Definition later_ok (p : Progress) (s : OwnerState) (a : Admission) (later : option Later) : Prop :=
  match later with
  | None => True
  | Some ReadTranscript =>
      admitted_as p a /\ pg_spawned p = Some true /\ pg_abandoned p = None /\
      pg_transcript p = None /\ Free id s
  | Some AwaitExit => reportable p a /\ Free id s
  end.

Definition launch_post (a : Admission) (x : LaunchReport * option Later) (p : Progress)
    (s : OwnerState) : Prop :=
  justified id attempt_id p s x.1 /\ later_ok p s a x.2.

Lemma refuse_post a p s x outcome attempt :
  ai_process_id (px_identity x) = id -> ai_attempt_id (px_identity x) = attempt_id -> Free id s ->
  (if created_a_helper outcome then pg_spawned p = Some true /\ helper_failed p
   else pg_spawned p <> Some true) ->
  evidence p attempt ->
  launch_post a (NotLaunched (prepared_report x outcome attempt), None) p s.
Proof. intros. by split; [split_and!|]. Qed.

Lemma wp_settle_as {C} (Q : C -> Progress -> OwnerState -> Prop) x outcome
    (k : LaunchReport * option Later -> launching C) p s :
  prepared_ok p s x -> created_a_helper outcome = false ->
  (forall y p' s', launch_post (px_admission x) y p' s' -> follows Q (k y) p' s') ->
  follows Q (settle_as x outcome ≫= k) p s.
Proof.
  intros [] Ho Hk. unfold settle_as, settle. repeat apply wp_assoc.
  apply (wp_cancel (Taken id)); [apply taken_stable|done| |].
  - split_and!; try done; [by apply prepared_admitted|]. unfold uncommitted. by rewrite po_begun0.
  - intros answer p' s' [Hs' _] Hsm Hev. rewrite po_slot0, po_process0. apply wp_assoc.
    apply wp_free_slot; [done|]. intros s2 Hs2. apply Hk. apply refuse_post; try done.
    rewrite Ho, (sm_spawned _ _ Hsm). by rewrite po_spawned0.
Qed.

Lemma wp_not_launched {C} (Q : C -> Progress -> OwnerState -> Prop) x outcome attempt
    (k : LaunchReport * option Later -> launching C) p s :
  ai_process_id (px_identity x) = id -> ai_attempt_id (px_identity x) = attempt_id ->
  (if px_slot x then Sound s else Free id s) ->
  (if created_a_helper outcome then pg_spawned p = Some true /\ helper_failed p
   else pg_spawned p <> Some true) ->
  evidence p attempt ->
  (forall y s', launch_post (px_admission x) y p s' -> follows Q (k y) p s') ->
  follows Q (not_launched x outcome attempt ≫= k) p s.
Proof.
  intros Hid Hat Hs Ho He Hk. unfold not_launched. rewrite Hid. apply wp_assoc.
  apply wp_free_if; [done|]. intros s1 Hs1. by apply Hk, refuse_post.
Qed.

Lemma wp_launched {C} (P : OwnerState -> Prop) (Q : C -> Progress -> OwnerState -> Prop) x phases
    dispatch spawned (k : LaunchReport -> launching C) p s :
  stable (others env id) P -> P s -> admitted_as p (px_admission x) ->
  (forall l p' s', P s' -> same_launch p p' -> pg_abandoned p' = pg_abandoned p ->
     ml_attempt_id l = ai_attempt_id (px_identity x) ->
     ml_process_id l = ai_process_id (px_identity x) -> ml_dispatch l = dispatch ->
     ml_phases l = phases -> follows Q (k (LaunchedReport l)) p' s') ->
  follows Q (launched x phases dispatch spawned ≫= k) p s.
Proof.
  intros HP Hs Ha Hk. unfold launched. apply wp_assoc. destruct dispatch.
  - apply wp_assoc. apply (wp_session P); [done..|by intros|]. intros s1 answer Hs1.
    by apply Hk; [|apply with_session_same|..].
  - by apply Hk.
Qed.

(** A helper that was created and granted, whose transcript is to be read. *)
Record helper_ok (p : Progress) (s : OwnerState) (x : PreparedExecution) : Prop := {
  ho_process : ai_process_id (px_identity x) = id;
  ho_attempt : ai_attempt_id (px_identity x) = attempt_id;
  ho_admitted : admitted_as p (px_admission x);
  ho_spawned : pg_spawned p = Some true;
  ho_transcript : pg_transcript p = None;
  ho_abandoned : pg_abandoned p = None;
  ho_slot : px_slot x = false;
  ho_free : Free id s
}.


Lemma launched_is_justified p s l :
  ml_attempt_id l = attempt_id -> ml_process_id l = id -> pg_spawned p = Some true ->
  ml_phases l = [LpPrepared; LpLaunchCommitted; LpHelperCreated] ++
    (if decide (ml_dispatch l = DispatchConfirmed) then confirmed_phases else []) ->
  (ml_dispatch l = DispatchConfirmed <-> pg_transcript p = Some Started) -> ~ helper_failed p ->
  justified id attempt_id p s (LaunchedReport l).
Proof.
  intros H1 H2 H3 H4 H5 H6. split_and!; try done.
  - rewrite H4. set_solver.
  - rewrite H4. destruct (decide _) as [->|Hn]; [split; [done|set_solver]|].
    split; [set_solver|done].
Qed.

Lemma not_failed_unread p : pg_transcript p = None -> ~ helper_failed p.
Proof. intros H (e & He & _). congruence. Qed.

Lemma not_failed_certain p e :
  pg_transcript p = Some e -> never_ran e = false -> (forall n, e <> ExecFailedEnd n) ->
  ~ helper_failed p.
Proof. intros H Hn Hx (e' & He & [Hr|[n Hr]]); assert (e' = e) as -> by congruence;
  [congruence|by eapply Hx]. Qed.

Lemma wp_helper_ended {C} (Q : C -> Progress -> OwnerState -> Prop) x spawned e
    (k : LaunchReport * option Later -> launching C) p s :
  ai_process_id (px_identity x) = id -> ai_attempt_id (px_identity x) = attempt_id ->
  admitted_as p (px_admission x) -> pg_spawned p = Some true -> pg_transcript p = Some e ->
  pg_abandoned p = None -> px_slot x = false -> Free id s ->
  (forall y p' s', launch_post (px_admission x) y p' s' -> follows Q (k y) p' s') ->
  follows Q (helper_ended x spawned e ≫= k) p s.
Proof.
  intros Hid Hat Ha Hsp Htr Hab Hsl Hs Hk. unfold helper_ended. cbv zeta. rewrite Hid.
  assert (Hreap : never_ran e = true ->
     follows Q ((attempt ← after_reap id (px_admission x);
        not_launched x (helper_outcome e) attempt) ≫= k) p s).
  { intros Hn. apply wp_assoc.
    apply wp_after_reap; [split_and!; eauto|by eexists; eauto|done|].
    intros st p' s' Hs' Hsm Hev. apply wp_not_launched; try done; [by rewrite Hsl| |].
    - replace (created_a_helper _) with true by by destruct e.
      split; [by rewrite (sm_spawned _ _ Hsm)|]. eapply same_failed; [done|]. eexists; eauto.
    - intros y s2 Hy. by apply Hk. }
  destruct e as [|errno|code|stage| |]; [..|apply wp_assoc].
  3-5: by apply Hreap.
  1-2: apply wp_assoc.
  - apply (wp_launched (Free id)); [apply free_stable|done|done|].
    intros ml p' s' Hs' Hsm Hab' H1 H2 H3 H4. apply Hk. destruct Hsm as [H5 H6 H7 H8 H9].
    split; [|done]. apply launched_is_justified; cbn; try congruence.
    + by rewrite H4, H3.
    + by rewrite H3, H9.
    + eapply not_failed_certain; [by rewrite H9|done..].
  - apply wp_was_reaped; [done|by eexists; eauto|done|]. intros b s2 Hs2 _.
    unfold looked_up. repeat apply wp_assoc.
    apply (wp_session (Free id)); [apply free_stable|done|by intros|]. intros s3 answer Hs3.
    apply wp_not_launched; try done; [by rewrite Hsl| |by apply evidence_abandoned|].
    + split; [done|]. eexists. split; [done|]. eauto.
    + intros y s4 Hy. by apply Hk.
  - apply (wp_launched (Free id)); [apply free_stable|done|done|].
    intros ml p' s' Hs' Hsm Hab' H1 H2 H3 H4. apply Hk.
    pose proof (same_admitted _ _ _ Hsm Ha) as Ha'. destruct Hsm as [H5 H6 H7 H8 H9].
    split; [apply launched_is_justified|split; [split_and!|done]]; cbn; try congruence; try done.
    + by rewrite H4, H3.
    + rewrite H3, H9. split; congruence.
    + eapply not_failed_certain; [by rewrite H9|done..].
    + eexists. rewrite H9. eauto.
Qed.

Lemma wp_read_helper {C} (Q : C -> Progress -> OwnerState -> Prop) l x spawned
    (k : LaunchReport * option Later -> launching C) p s :
  helper_ok p s x ->
  (forall y p' s', launch_post (px_admission x) y p' s' -> follows Q (k y) p' s') ->
  follows Q (read_helper l x spawned ≫= k) p s.
Proof.
  intros [] Hk. unfold read_helper, transcript_within. apply wp_assoc.
  apply (wp_ask _ _ _ (Free id) Q (LqTranscript (ln_ready_bound l))); [apply free_stable|done|by intros|].
  intros s1 ended Hs1. destruct ended as [ended|]; [by apply wp_helper_ended|].
  change (noted p _ _) with p. apply wp_assoc.
  apply (wp_launched (Free id)); [apply free_stable|done|done|].
  intros ml p' s' Hs' Hsm Hab H1 H2 H3 H4. apply Hk.
  pose proof (same_admitted _ _ _ Hsm ho_admitted0) as Ha. destruct Hsm as [H5 H6 H7 H8 H9].
  split; [apply launched_is_justified|split_and!]; cbn; try congruence; try done.
  - by rewrite H4, H3.
  - rewrite H3, H9. cbn. by rewrite ho_transcript0.
  - apply not_failed_unread. congruence.
Qed.

(** No helper was created for the grant, and none will be. *)
Lemma wp_not_created {C} (P : OwnerState -> Prop) (Q : C -> Progress -> OwnerState -> Prop) x permit
    (k : LaunchReport * option Later -> launching C) p s :
  stable (others env id) P -> P s -> (forall s, P s -> if px_slot x then Sound s else Free id s) ->
  ai_process_id (px_identity x) = id -> ai_attempt_id (px_identity x) = attempt_id ->
  admitted_as p (px_admission x) -> was_granted p permit -> pg_spawned p <> Some true ->
  pg_abandoned p = None ->
  (forall y p' s', launch_post (px_admission x) y p' s' -> follows Q (k y) p' s') ->
  follows Q ((attempt ← abandon (px_admission x) SpawnFailed;
     not_launched x PoHelperNotCreated attempt) ≫= k) p s.
Proof.
  intros HP Hs Hslot Hid Hat Ha Hg Hsp Hab Hk. apply wp_assoc. apply (wp_abandon P); [done..| |].
  { intros s1 _. cbn. split_and!; try done. by exists permit. }
  intros st p' s1 Hs1 Hsm Hev. apply wp_not_launched; try done; [by apply Hslot| |].
  - cbn. by rewrite (sm_spawned _ _ Hsm).
  - intros y s2 Hy. by apply Hk.
Qed.

Lemma spawn_failed_free now e s : Sound s ->
  Free id (set_owner_runner s (spawn_end now id (Err e) (la_runner s)).1).
Proof. apply free_after_drop. Qed.

Lemma spawned_free now sw s : Taken id s ->
  Free id (set_owner_runner s (spawn_end now id (Ok sw) (la_runner s)).1).
Proof.
  intros [Hok Ht].
  pose proof (step_sound (la_runner s) (mkMoment now (mkWorld (fun _ => mkChild None (WaitFailed 0) None)
    (fun _ => mkPtySession true None)) (OpSpawnEnd id (Ok sw))) Hok) as Hs.
  unfold step in Hs. cbn [mo_op mo_now] in Hs. rewrite bool_decide_eq_true_2 in Hs by done.
  split; [exact Hs|]. clear Hs. cbn [set_owner_runner la_runner spawn_end fst]. unfold fill.
  match goal with |- _ ∉ rn_reserved (Supervisor.remember ?i ?k ?r) =>
    destruct (remember_frame i k r) as (_ & _ & -> & _) end.
  cbn. set_solver.
Qed.

Lemma wp_start_helper {C} (Q : C -> Progress -> OwnerState -> Prop) l x req pl permit
    (k : LaunchReport * option Later -> launching C) p s :
  ai_process_id (px_identity x) = id -> ai_attempt_id (px_identity x) = attempt_id ->
  xr_process_id req = id -> admitted_prepared p (px_admission x) -> was_granted p permit ->
  pg_invocation p = None -> pg_spawned p = None -> pg_transcript p = None ->
  pg_abandoned p = None -> px_slot x = true -> Taken id s ->
  (forall y p' s', launch_post (px_admission x) y p' s' -> follows Q (k y) p' s') ->
  follows Q (start_helper l x req pl permit ≫= k) p s.
Proof.
  intros Hid Hat Hreq Ha Hg Hinv Hsp Htr Hab Hslot Hs Hk. unfold start_helper, invocation_for. cbv zeta.
  apply wp_assoc. apply (wp_ask _ _ _ (Taken id) Q (LqHelper (ln_helper l) (px_admission x) permit
    (lp_program pl) (lp_args pl))); [apply taken_stable|done|by intros|].
  intros s1 invocation Hs1. pose proof (prepared_admitted _ _ Ha) as Has.
  destruct invocation as [invocation|code].
  2: { eapply (wp_not_created (Taken id)); [apply taken_stable|done| |try done..|done|done].
       - intros s2 [Hs2 _]. by rewrite Hslot.
       - cbn. by rewrite Hsp. }
  rewrite Hslot. cbn [negb]. unfold spawn_managed, create_helper. repeat apply wp_assoc.
  apply (wp_ask _ _ _ (Taken id) Q (LqSpawn (px_ws (without_slot x)) req invocation));
    [apply taken_stable|done| |].
  { intros s2 Hs2. split_and!; try done. by exists permit. }
  intros s2 created Hs2. rewrite Hreq. destruct created as [[root deadline]|e].
  - apply wp_assoc. apply (wp_on_runner (Taken id)); [apply taken_stable|done|]. intros s3 Hs3.
    apply wp_read_helper; [|done]. split; try done. by apply spawned_free.
  - apply wp_assoc. apply (wp_on_runner (Taken id)); [apply taken_stable|done|]. intros s3 [Hs3 _].
    eapply (wp_not_created (Free id)); [apply free_stable|by apply spawn_failed_free| |try done..|done|done].
    done.
Qed.

Lemma wp_refusal {C} (Q : C -> Progress -> OwnerState -> Prop) x req
    (k : option PreparationOutcome -> launching C) p s :
  prepared_ok p s x ->
  (forall outcome s', prepared_ok p s' x ->
     match outcome with Some o => created_a_helper o = false | None => xr_process_id req = id end ->
     follows Q (k outcome) p s') ->
  follows Q (refusal digest x req ≫= k) p s.
Proof.
  intros Hx Hk. pose proof Hx as [Hid].
  assert (Hsame : forall s', Taken id s' -> prepared_ok p s' x) by (intros s'; by destruct Hx).
  unfold refusal, host_now. apply wp_assoc.
  apply (wp_ask _ _ _ (Taken id) Q LqHost); [apply taken_stable|done|by intros|]. intros s1 host Hs1.
  apply wp_assoc. apply (wp_look _ _ _ (Taken id)); [apply taken_stable|done|]. intros s2 Hs2.
  destruct (_ || _) eqn:Hd; [apply Hk; [by apply Hsame|done]|].
  apply orb_false_iff in Hd as [_ Hp%bool_decide_eq_false]. apply dec_stable in Hp.
  destruct (bool_decide (px_deadline x <= la_now s2)%Z); (apply Hk; [by apply Hsame|]); cbn; congruence.
Qed.

Lemma plan_error_no_helper host l ws req outcome :
  plan host l ws req = Err outcome -> created_a_helper outcome = false.
Proof. unfold plan. cbv zeta. repeat case_match; naive_solver. Qed.

Lemma wp_launch_managed {C} (Q : C -> Progress -> OwnerState -> Prop) x req launcher
    (k : LaunchReport * option Later -> launching C) p s :
  prepared_ok p s x ->
  (forall y p' s', launch_post (px_admission x) y p' s' -> follows Q (k y) p' s') ->
  follows Q (launch_managed digest x req launcher ≫= k) p s.
Proof.
  intros Hx Hk. unfold launch_managed. apply wp_assoc. apply wp_refusal; [done|].
  clear s Hx. intros outcome s Hx Ho.
  destruct outcome as [o|]; [by apply wp_settle_as|].
  destruct launcher as [l|]; [|by apply wp_settle_as].
  assert (Hsame : forall s', Taken id s' -> prepared_ok p s' x) by (intros s'; by destruct Hx).
  unfold host_now. apply wp_assoc.
  apply (wp_ask _ _ _ (Taken id) Q LqHost); [apply taken_stable|by destruct Hx|by intros|].
  intros s1 host Hs1. change (noted p LqHost host) with p.
  destruct (plan host l (px_ws x) req) as [pl|outcome] eqn:Hpl.
  2: { apply wp_settle_as; [by apply Hsame|by eapply plan_error_no_helper|done]. }
  unfold begin_session. apply wp_assoc. destruct Hx. pose proof (prepared_admitted _ _ po_admitted0).
  apply (wp_ask _ _ _ (Taken id) Q (LqBegin (px_admission x))); [apply taken_stable|done|by intros|].
  intros s2 answer Hs2.
  assert (Hn : forall outcome answer, (match answer with Authority.Granted _ _ => False
                                       | LaunchAnswerUnknown => False | _ => True end) ->
    created_a_helper outcome = false ->
    follows Q ((answer ← session RequestCancel (px_admission x);
       not_launched x outcome (cancelled answer)) ≫= k)
      (noted p (LqBegin (px_admission x)) answer) s2).
  { intros outcome answer' Hc Ho'. apply wp_assoc.
    apply (wp_cancel (Taken id)); [apply taken_stable|done| |].
    - split_and!; try done. unfold uncommitted. cbn. by destruct answer'.
    - intros a2 p' s3 [Hs3 _] Hsm Hev. apply wp_not_launched; try done.
      + by rewrite po_slot0.
      + rewrite Ho', (sm_spawned _ _ Hsm). cbn. by rewrite po_spawned0.
      + intros y s4 Hy. by apply Hk. }
  destruct answer as [attempt permit|code|r|].
  - eapply wp_start_helper; try done. by exists attempt.
  - by apply Hn.
  - by apply Hn.
  - apply wp_assoc. apply (wp_resolve_launch (Taken id)); [apply taken_stable|done..|].
    intros st p' s3 [Hs3 _] Hsm Hev. apply wp_not_launched; try done.
    + by rewrite po_slot0.
    + cbn. rewrite (sm_spawned _ _ Hsm). cbn. by rewrite po_spawned0.
    + intros y s4 Hy. by apply Hk.
Qed.

Lemma wp_settle_later {C} fuel (Q : C -> Progress -> OwnerState -> Prop) a later
    (k : unit -> launching C) p s :
  later_ok p s a (Some later) -> (forall p' s', follows Q (k tt) p' s') ->
  follows Q (settle_later fuel id a later ≫= k) p s.
Proof.
  intros Hl Hk. destruct later; cbn [settle_later].
  - destruct Hl as (Ha & Hsp & Hab & Htr & Hs). unfold transcript_ended. apply wp_assoc.
    apply (wp_ask _ _ _ (Free id) Q LqTranscriptEnd); [apply free_stable|done|by intros|].
    intros s1 ended Hs1. cbn [noted].
    assert (Hr : forall e, never_ran e = true \/ e = Uncertain ->
              reportable (with_transcript p e) a) by (intros; split_and!; try done; eauto).
    assert (Hx : follows Q ((_ ← after_exit fuel id a; done_with tt) ≫= k)
                   (with_transcript p Uncertain) s1).
    { apply wp_assoc. apply wp_after_exit; [apply Hr; auto|done|by intros]. }
    assert (Hreap : forall e, never_ran e = true ->
              follows Q ((_ ← after_reap id a; done_with tt) ≫= k) (with_transcript p e) s1).
    { intros e He. apply wp_assoc. apply wp_after_reap; [by apply Hr; auto| |done|by intros].
      eexists; split; [done|by left]. }
    destruct ended as [[]|]; cbn [default never_ran]; try done; try apply Hk; by apply Hreap.
  - destruct Hl as [Hr Hs]. apply wp_assoc. by apply wp_after_exit.
Qed.

(** ** Whole launches *)


Lemma wp_whole_launch fuel launcher ws req s :
  xr_process_id req = id -> Free id s ->
  follows (fun _ _ _ => True)
    (whole_launch digest env consumer generation ttl_bound remembers fuel launcher ws req attempt_id)
    progress_start s.
Proof.
  intros Hid Hs. unfold whole_launch. apply wp_prepare; [done..|].
  intros [x|r] p s1 Hx; [|done]. apply wp_launch_managed; [done|].
  intros [report later] p' s2 [_ Hl]. pose proof Hx as [-> _]. cbn in Hl.
  destruct later as [later|]; [|done]. by apply wp_settle_later.
Qed.
End follows.

(** * Properties *)

Definition is_begin (q : LaunchRequest) : bool := match q with LqBegin _ => true | _ => false end.
Definition is_spawn (q : LaunchRequest) : bool := match q with LqSpawn _ _ _ => true | _ => false end.
Definition is_admit (q : LaunchRequest) : bool :=
  match q with LqAuthority RequestAdmit _ => true | _ => false end.
Definition is_abandon (q : LaunchRequest) : bool :=
  match q with LqAuthority (RequestAbandon _) _ => true | _ => false end.

Lemma noted_begun p q a : is_some (pg_begun (noted p q a)) = is_some (pg_begun p) || is_begin q.
Proof.
  destruct q as [[]| | | | | | | |]; cbn; try by rewrite ?orb_false_r, ?orb_true_r.
  cbn in a. destruct a; cbn; by rewrite ?orb_false_r.
Qed.

Lemma noted_spawned p q a : is_some (pg_spawned (noted p q a)) = is_some (pg_spawned p) || is_spawn q.
Proof.
  destruct q as [[]| | | | | | | |]; cbn; try by rewrite ?orb_false_r, ?orb_true_r.
  cbn in a. destruct a; cbn; by rewrite ?orb_false_r.
Qed.

Lemma noted_admit p q a : is_some (pg_admit (noted p q a)) = is_some (pg_admit p) || is_admit q.
Proof.
  destruct q as [[]| | | | | | | |]; cbn; try by rewrite ?orb_false_r, ?orb_true_r.
  cbn in a. destruct a; cbn; by rewrite ?orb_false_r.
Qed.

Lemma noted_abandoned p q a :
  is_some (pg_abandoned (noted p q a)) = is_some (pg_abandoned p) || is_abandon q.
Proof.
  destruct q as [[]| | | | | | | |]; cbn; try by rewrite ?orb_false_r, ?orb_true_r.
  cbn in a. destruct a; cbn; by rewrite ?orb_false_r.
Qed.

Section properties.
Context `{Hash : HashOrder} (digest : Meaning -> option string) (env : option string).
Context (consumer generation : string) (ttl_bound : Z) (remembers : bool).

Definition sent_at_most_once (asked : LaunchRequest -> bool)
    (log : list (exchange (State := OwnerState) (Answer := LaunchReply))) : Prop :=
  length (List.filter (fun e => asked (ex_request e)) log) <= 1.

(** C3: A governed launch follows its protocol to the end, the task that it leaves included,
    whatever the authority, the helper and the host answer and whatever else the Runner does.
    It asks for admission only once it holds a slot; [BeginLaunch] only for the attempt that was
    admitted and prepared, and not after a cancellation; it cancels only while nothing is known
    to be committed; it creates a helper only from the permit of its own grant and in its own
    slot; it reads the transcript of a helper that exists; it kills only a helper that never ran
    the executable; and it reports that it holds no helper only when that is true: none was
    created and none will be, the helper that was created is gone from the Runner or reaped, or
    the permit never arrived for a grant that nobody claimed. Admission, [BeginLaunch], the
    helper and that report are each asked for at most once. *)
Theorem launches_follow_the_protocol (fuel : nat) (launcher : option Launcher)
    (ws : Policy.Workspace) (req : RunnerExecRequest) (attempt_id : string) (s s' : OwnerState)
    (log : list exchange) (report : LaunchReport)
    (Hok : runner_ok (la_runner s)) (Hfree : xr_process_id req ∉ rn_reserved (la_runner s))
    (Hcourse : course (others env (xr_process_id req))
       (whole_launch digest env consumer generation ttl_bound remembers fuel launcher ws req
          attempt_id) s log report s') :
  conforms (allowed (xr_process_id req) attempt_id) noted progress_start log /\
  sent_at_most_once is_admit log /\ sent_at_most_once is_begin log /\
  sent_at_most_once is_spawn log /\ sent_at_most_once is_abandon log.
Proof.
  destruct (wp_sound _ _ _ _ _ _ _ _ _ _ (wp_whole_launch env (xr_process_id req) attempt_id digest
    consumer generation ttl_bound remembers fuel launcher ws req s eq_refl (conj Hok Hfree)) Hcourse)
    as [Hc _].
  assert (Honce : forall asked (flag : Progress -> bool),
    (forall p s q, allowed (xr_process_id req) attempt_id p s q -> asked q = true -> flag p = false) ->
    (forall p q a, flag (noted p q a) = flag p || asked q) -> sent_at_most_once asked log).
  { intros asked flag H1 H2. pose proof (conforms_once _ _ asked flag _ _ H1 H2 Hc) as H.
    unfold sent_at_most_once. destruct (flag _); lia. }
  split_and!; [done|apply (Honce _ (fun p => is_some (pg_admit p)))
    |apply (Honce _ (fun p => is_some (pg_begun p)))
    |apply (Honce _ (fun p => is_some (pg_spawned p)))
    |apply (Honce _ (fun p => is_some (pg_abandoned p)))];
    try first [apply noted_admit|apply noted_begun|apply noted_spawned|apply noted_abandoned];
    intros p s0 q Ha Hq; destruct q as [[| | |[]|]| | | | | | | |]; try done; cbn in Ha |- *;
    destruct_and?; by repeat match goal with H : _ = None |- _ => rewrite H; clear H end.
Qed.


(** An owner without a launch helper reports, and never reaches its [unreachable!]. *)
Lemma preparations_report ws req attempt_id s log report s' :
  course (others env (xr_process_id req))
    (prepare_and_dispose digest env consumer generation ttl_bound remembers ws req attempt_id)
    s log report s' ->
  report <> None.
Proof.
  apply (returns_sound _ (fun r => r <> None)). unfold prepare_and_dispose.
  apply returns_then. intros [p|r]; [|done]. unfold launch_without_helper.
  apply (returns_bind (fun x : LaunchReport * option Later => exists r, x.1 = NotLaunched r)).
  - unfold launch_managed. apply returns_then.
    intros [o|]; unfold settle_as; apply returns_then; intros st; by eexists.
  - intros [x later] [r Hr]. cbn in Hr. by subst.
Qed.
End properties.

(** * Launches end *)

Section termination.
Context `{Hash : HashOrder} (env : option string).

(** The clock has reached [t]. *)
Definition reached (t : Z) (s : OwnerState) : Prop := (t <= la_now s)%Z.

Lemma reached_stable id t : stable (others env id) (reached t).
Proof. intros s s1 [_ Hn]. unfold reached. lia. Qed.

Abbreviation anything := (fun (_ : unit) (_ : OwnerState) (_ : LaunchRequest) => True).
Abbreviation unnoted := (fun (_ : unit) (q : LaunchRequest) (_ : LaunchReply q) => tt).

Lemma exited_by_in_time id start bound fuel k (s : OwnerState) :
  (0 <= bound)%Z -> fuel + k = polls bound -> (1 <= fuel) ->
  reached (start + EXIT_POLL * Z.of_nat k) s ->
  wp (others env id) anything unnoted (fun b _ _ => b <> None)
    (exited_by fuel id (start + bound)) tt s.
Proof.
  intros Hb. revert k s. induction fuel as [|fuel IH]; intros k s Hk H1 Hs; [lia|].
  cbn [exited_by]. unfold host_status, on_runner.
  apply (wp_turn _ _ _ (reached (start + EXIT_POLL * Z.of_nat k))); [apply reached_stable|done|].
  intros s1 Hs1. destruct (host_process_status _ _ _) as [r status]. cbn [fst snd].
  destruct (process_ended status); [done|].
  apply (wp_look _ _ _ (reached (start + EXIT_POLL * Z.of_nat k))); [apply reached_stable|done|].
  intros s2 Hs2. case_bool_decide as Hd; [done|].
  assert (Hfuel : 1 <= fuel).
  { unfold polls, reached, EXIT_POLL in *. pose proof (Z.div_mod bound 20).
    pose proof (Z.mod_pos_bound bound 20). assert (0 <= bound / 20)%Z by (apply Z.div_pos; lia). lia. }
  unfold sleep. apply wp_assoc.
  apply (wp_look _ _ _ (reached (start + EXIT_POLL * Z.of_nat k))); [apply reached_stable|done|].
  intros s3 Hs3. apply (wp_await _ _ _ (fun _ => True)); [done..|]. intros s4 [] s5 _.
  case_bool_decide as Hu; [|done]. intros [= <-].
  apply (IH (S k)); [lia|done|]. unfold reached, EXIT_POLL in *. lia.
Qed.

Lemma within_look n {A B} (f : OwnerState -> A) (k : A -> launching B) :
  (forall a, within n (k a)) -> within (S n) (look f ≫= k).
Proof. intros Hk a. apply Hk. Qed.

Lemma within_exited_by fuel id deadline : within (4 * fuel) (exited_by fuel id deadline).
Proof.
  induction fuel as [|fuel IH]; [done|]. replace (4 * S fuel) with (S (S (S (S (4 * fuel))))) by lia.
  cbn [exited_by]. intros status. cbn. destruct (process_ended status); [done|]. intros now. cbn.
  case_bool_decide; [done|]. intros due. cbn. intros u. apply IH.
Qed.

Definition poll_steps : nat := 4 * polls SETTLE_BOUND.

Lemma within_exited id : within (S poll_steps) (exited_within SETTLE_BOUND id).
Proof. intros now. apply within_exited_by. Qed.

Lemma within_was_reaped id : within (2 * poll_steps + 5) (was_reaped id).
Proof.
  unfold was_reaped. apply (within_seq _ (S poll_steps)); [apply within_exited|lia|]. intros b.
  destruct (default false b); [done|]. apply (within_seq _ 3); [by intros ???|lia|]. intros _.
  apply (within_seq _ (S poll_steps)); [apply within_exited|lia|]. done.
Qed.

Lemma within_after_reap id a : within (2 * poll_steps + 6) (after_reap id a).
Proof.
  unfold after_reap. apply (within_seq _ (2 * poll_steps + 5)); [apply within_was_reaped|lia|].
  intros [|]; [|done]. replace (_ - _) with 1 by lia. by intros ?.
Qed.

Lemma within_done n {A} (a : A) : within n (done_with a : launching A).
Proof. by destruct n. Qed.

Lemma within_session n {B} request a (k : Answer -> launching B) :
  (forall answer, within n (k answer)) -> within (S n) (session request a ≫= k).
Proof. intros Hk answer. apply Hk. Qed.

Lemma within_ask n q {B} (k : LaunchReply q -> launching B) :
  (forall answer, within n (k answer)) -> within (S n) (ask (Answer := LaunchReply) q ≫= k).
Proof. intros Hk answer. apply Hk. Qed.

Lemma within_free_if n {B} (slot : bool) id (k : unit -> launching B) :
  within n (k tt) -> within (S n) ((if slot then free_slot id else done_with tt) ≫= k).
Proof.
  intros Hk. destruct slot; [by intros []|]. apply (within_mono n); [lia|done].
Qed.

Lemma within_not_launched x outcome attempt : within 1 (not_launched x outcome attempt).
Proof. by apply within_free_if. Qed.

Lemma within_resolve_launch a : within 2 (resolve_launch a).
Proof.
  apply within_session. intros [r|code|attempt|]; [apply within_done..| |apply within_done].
  case_bool_decide; [by intros ?|]. destruct (_ && _); [by intros ?|apply within_done].
Qed.

Lemma within_launched x phases dispatch spawned : within 1 (launched x phases dispatch spawned).
Proof. destruct dispatch; [by intros ?|done]. Qed.

Lemma within_helper_ended x spawned e : within (2 * poll_steps + 7) (helper_ended x spawned e).
Proof.
  unfold helper_ended. cbv zeta. destruct e.
  2: { apply (within_seq _ (2 * poll_steps + 5)); [apply within_was_reaped|lia|]. intros.
       replace (_ - _) with 2 by lia. unfold looked_up. intros answer. apply within_not_launched. }
  1, 5: apply (within_seq _ 1); [apply within_launched|lia|]; intros; apply within_done.
  all: apply (within_seq _ (2 * poll_steps + 6)); [apply within_after_reap|lia|]; intros;
    replace (_ - _) with 1 by lia; apply within_not_launched.
Qed.

Lemma within_read_helper l x spawned : within (2 * poll_steps + 8) (read_helper l x spawned).
Proof.
  unfold read_helper, transcript_within.
  replace (2 * poll_steps + 8) with (S (2 * poll_steps + 7)) by lia.
  apply (within_ask _ (LqTranscript _)). intros [ended|]; [apply within_helper_ended|].
  apply (within_seq _ 1); [apply within_launched|lia|]. intros. apply within_done.
Qed.

Lemma within_start_helper l x req pl permit :
  within (2 * poll_steps + 11) (start_helper l x req pl permit).
Proof.
  unfold start_helper, invocation_for. cbv zeta.
  replace (2 * poll_steps + 11) with (S (2 * poll_steps + 10)) by lia.
  assert (Hn : forall y n, within (S (S n)) (attempt ← abandon (px_admission y) SpawnFailed;
                                       not_launched y PoHelperNotCreated attempt)).
  { intros y n. apply (within_seq _ 1); [by intros ?|lia|]. intros st.
    replace (_ - _) with (S n) by lia. apply (within_mono 1); [lia|apply within_not_launched]. }
  assert (Hn' : forall y, within (2 * poll_steps + 8) (attempt ← abandon (px_admission y) SpawnFailed;
                                       not_launched y PoHelperNotCreated attempt)).
  { intros y. replace (2 * poll_steps + 8) with (S (S (2 * poll_steps + 6))) by lia. apply Hn. }
  apply (within_ask _ (LqHelper _ _ _ _ _)). intros [i|code].
  2: apply (within_mono (2 * poll_steps + 8)); [lia|apply Hn'].
  destruct (negb _); [apply (within_mono (2 * poll_steps + 8)); [lia|apply Hn']|].
  apply (within_seq _ 2); [|lia|].
  - intros [[root deadline]|e]; by intros ?.
  - replace (_ - _) with (2 * poll_steps + 8) by lia.
    intros [spawned|e]; [apply within_read_helper|apply Hn'].
Qed.

Context (digest : Meaning -> option string) (consumer generation : string) (ttl_bound : Z)
  (remembers : bool).

Lemma within_settle_as x outcome : within 2 (settle_as x outcome).
Proof. intros answer. by destruct (px_slot x); [intros ?|]. Qed.

Lemma within_launch_managed x req launcher :
  within (2 * poll_steps + 15) (launch_managed digest x req launcher).
Proof.
  unfold launch_managed. apply (within_seq _ 2); [by intros ??|lia|].
  replace (_ - _) with (S (S (2 * poll_steps + 11))) by lia. intros refused.
  assert (Hs : forall n outcome, within (S (S n)) (settle_as x outcome)).
  { intros n outcome. apply (within_mono 2); [lia|apply within_settle_as]. }
  destruct refused as [o|]; [apply Hs|]. destruct launcher as [l|]; [|apply Hs].
  apply (within_ask _ LqHost). intros host. destruct (plan _ _ _ _) as [pl|o].
  2: replace (2 * poll_steps + 11) with (S (2 * poll_steps + 10)) by lia; apply Hs.
  apply (within_ask _ (LqBegin _)). intros [attempt permit|code|r|].
  - apply within_start_helper.
  - apply (within_mono 2); [lia|]. intros answer. apply within_not_launched.
  - apply (within_mono 2); [lia|]. intros answer. apply within_not_launched.
  - apply (within_seq _ 2); [apply within_resolve_launch|lia|]. intros st.
    apply (within_mono 1); [lia|apply within_not_launched].
Qed.

Lemma within_resolve a : within 2 (resolve a).
Proof.
  apply within_session. intros [r|code|attempt|]; try apply within_done.
  case_bool_decide; [by intros ?|apply within_done].
Qed.

Lemma within_prepare ws req attempt_id :
  within 8 (prepare digest env consumer generation ttl_bound remembers ws req attempt_id).
Proof.
  unfold prepare. cbv zeta. case_bool_decide; [done|]. intros [[]|e]; [|done].
  apply (within_ask _ LqHost). intros host. destruct (digest _) as [d|]; [|by intros ?].
  unfold admit_attempt. cbv zeta. apply (within_seq _ 1); [by destruct remembers; [intros ?|]|lia|].
  intros _ now. apply within_session.
  assert (Hr : forall outcome account, within 3 (attempt ← resolve
     (mkAdmission attempt_id d (dg_request (resources_request (ws_resources ws))));
     _ ← free_slot (xr_process_id req);
     done_with (Err (mkManagedPreparation attempt_id (xr_process_id req) outcome attempt account)
                : result ManagedPreparation PreparedExecution))).
  { intros. apply (within_seq _ 2); [apply within_resolve|lia|]. by intros ??. }
  intros [r|code|attempt|]; [by intros ?..| |apply Hr].
  destruct (at_phase attempt); try apply Hr; [by intros ?|done].
Qed.

(** C40: A governed launch ends: it takes at most 2039 turns and requests, whatever is answered, so
    a launch whose requests are answered returns. Waiting for a helper to be reaped ends by the
    clock, within the polls that its bound leaves room for: the wait never runs out of its fuel,
    whatever else the Runner does. *)
Theorem launches_end (launcher : option Launcher) (ws : Policy.Workspace) (req : RunnerExecRequest)
    (attempt_id : string) :
  within 2039 (prepare_and_launch digest env consumer generation ttl_bound remembers launcher ws req
                 attempt_id) /\
  forall id bound s log exited s', (0 <= bound)%Z ->
    course (others env id) (exited_within bound id) s log exited s' -> exited <> None.
Proof.
  split.
  - unfold prepare_and_launch. apply (within_seq _ 8); [apply within_prepare|lia|].
    change (2039 - 8) with 2031. intros [p|r]; [|apply within_done].
    apply (within_mono (2 * poll_steps + 15)); [by apply Nat.leb_le|apply within_launch_managed].
  - intros id bound s log exited s' Hb Hc.
    assert (Hw : wp (others env id) anything unnoted (fun b _ _ => b <> None)
                   (exited_within bound id) tt s).
    { unfold exited_within. apply (wp_look _ _ _ (reached (la_now s))); [apply reached_stable| |].
      - unfold reached. lia.
      - intros s1 Hs1. apply (exited_by_in_time _ _ _ _ 0); unfold polls, reached in *; lia. }
    by destruct (wp_sound _ _ _ _ _ _ _ _ _ _ Hw Hc).
Qed.
End termination.

(** * Witnesses *)

Definition concrete_host : Host :=
  mkHost concrete_metadata 501 (fun path => bool_decide (path = "/bin/echo")) false true None.

Definition concrete_launcher : Launcher := mkLauncher "/opt/devguard-launch" DEFAULT_READY_BOUND.

Definition governed_workspace : Policy.Workspace :=
  mkWorkspace "w" "/srv/w" WorkspaceWrite DEFAULT_ENVIRONMENT_ID Policy.Host NetRestricted
    ApprovalsOff (mkResources ParticipationRequired None).

Definition governed_request : RunnerExecRequest :=
  mkRunnerExecRequest ["/bin/echo"; "hi"] "p1" WorkspaceRoot (mkRunnerExecEnv true ∅) 30000 4096
    false (mkRunnerExecPolicy WorkspaceWrite NetRestricted).

Definition concrete_attempt (phase : Phase) (release : option Release) : Attempt :=
  mkAttempt phase None None (Some (mkReservation (mkQuantities 250 1024 16) 5000)) None None release
    false true.

(** An authority that admits and grants; [created] is whether the helper's spawn succeeds. *)
Definition concrete_replies (created : bool) (n : nat) (q : LaunchRequest) : LaunchReply q :=
  match q with
  | LqAuthority (RequestAbandon _) _ =>
      AnswerAttempt (concrete_attempt PhaseReleased (Some NoHelperCreated))
  | LqAuthority RequestAdmit _ => AnswerAttempt (concrete_attempt Prepared None)
  | LqAuthority _ _ => AnswerAttempt (concrete_attempt RunAuthorized None)
  | LqBegin _ => Authority.Granted (concrete_attempt LaunchCommitted None) "permit"
  | LqHelper helper _ _ _ args => Ok (mkHelperInvocation helper args (5%Z, 6%Z))
  | LqSpawn _ _ _ =>
      if created then Ok (None, Some 30000%Z) else Err (error_body ProcessSpawnFailed "no")
  | LqTranscript _ => Some (Some Started)
  | LqTranscriptEnd => None
  | LqHost => concrete_host
  | LqWorld => world_running
  | LqSignal _ => tt
  end.

Definition concrete_owner_state : OwnerState := mkOwnerState small_runner 0 ∅.

(** A millisecond passes before each step. *)
Definition millisecond (s : OwnerState) : OwnerState :=
  mkOwnerState (la_runner s) (la_now s + 1) (la_admissions s).

Lemma millisecond_others `{Hash : HashOrder} env id s : others env id s (millisecond s).
Proof. split; [by exists []|cbn; lia]. Qed.

Abbreviation concrete_launch := (whole_launch (Hash := map_order) (fun _ => Some "digest") None
  "codespace" "g1" 15000 true 1 (Some concrete_launcher) governed_workspace governed_request
  "cs-attempt-1").
Abbreviation concrete_report := (prepare_and_launch (Hash := map_order) (fun _ => Some "digest") None
  "codespace" "g1" 15000 true (Some concrete_launcher) governed_workspace governed_request
  "cs-attempt-1").

Lemma launches_follow_the_protocol_witness :
  exists log report s', run_call millisecond (concrete_replies true) 0 concrete_launch
      concrete_owner_state = Some (log, report, s') /\
    conforms (allowed "p1" "cs-attempt-1") noted progress_start log.
Proof.
  assert (Hrun : is_some (run_call millisecond (concrete_replies true) 0 concrete_launch
                            concrete_owner_state) = true) by (vm_compute; reflexivity).
  destruct (run_call _ _ _ _ _) as [[[log report] s']|] eqn:Hr; [|discriminate].
  exists log, report, s'. split; [reflexivity|].
  apply (launches_follow_the_protocol (Hash := map_order) (fun _ => Some "digest") None "codespace"
    "g1" 15000 true 1 (Some concrete_launcher) governed_workspace governed_request "cs-attempt-1"
    concrete_owner_state s' log report).
  - apply fresh_ok, small_runner_fresh.
  - apply not_elem_of_empty.
  - eapply run_call_course; [apply (millisecond_others (Hash := map_order))|exact Hr].
Defined.


(** What these two launches report. *)
Example concrete_launch_is_confirmed :
  match run_call millisecond (concrete_replies true) 0 concrete_launch concrete_owner_state with
  | Some (log, LaunchedReport l, _) =>
      length log = 9 /\ ml_dispatch l = DispatchConfirmed
  | _ => False
  end.
Proof. vm_compute. by split. Qed.

Example concrete_report_is_released :
  match run_call millisecond (concrete_replies false) 0 concrete_report concrete_owner_state with
  | Some (_, (NotLaunched r, None), _) =>
      mp_outcome r = PoHelperNotCreated /\ mp_attempt r = AtReleased /\ proves_not_started r = true
  | _ => False
  end.
Proof. vm_compute. by split. Qed.

Lemma launches_end_witness :
  within 2039 concrete_report /\
  forall id s log exited s',
    course (others (Hash := map_order) None id) (exited_within (Hash := map_order) 40 id) s log exited s' ->
    exited <> None.
Proof.
  destruct (launches_end (Hash := map_order) None (fun _ => Some "digest") "codespace" "g1" 15000 true
    (Some concrete_launcher) governed_workspace governed_request "cs-attempt-1") as [H1 H2].
  split; [exact H1|]. intros id s log exited s'. apply H2. discriminate.
Defined.
