(* ===== verification/Client.v ===== *)
(** The gateway's client of a Runner in another process ([crates/runner/src/uds.rs]): its
    connections, the requests that wait on each for an answer, the Claim of the current one, and
    how an independent Runner is claimed again when the connection is lost. Steps of the client's
    tasks, the callers', each connection's reader's and [reclaim_loop]'s, interleave: each is one
    event, between two of the points where the code awaits or takes a lock. *)
From S2P Require Import Prelude Domain Policy Supervisor Api Recovery Wire.

(** * Errors *)

Definition runner_disconnected (reason : string) : ErrorBody :=
  error_body RunnerDisconnected
    ("this gateway cannot reach its independent Runner again (" +:+ reason +:+
     "), so the request was not sent. Restart the gateway once the Runner can be reached; a " +:+
     "Runner that did not stop keeps its processes running").

Definition runner_lost (reason : string) : ErrorBody :=
  error_body RunnerDisconnected
    ("this gateway lost its independent Runner (" +:+ reason +:+
     "), so the request was not sent. What became of the Runner's processes cannot be " +:+
     "learned, and some may still run: process_status and read_process answer from this " +:+
     "gateway's records, and an operator finds the processes and releases their workspaces").

Definition runner_reconnecting : ErrorBody :=
  error_body RunnerReconnecting
    ("this gateway lost its connection to the independent Runner and is claiming it again, " +:+
     "so the request was not sent; the Runner's processes keep running. Retry once the " +:+
     "gateway has reconnected").

(** * State *)

#[export] Instance RunnerIdentity_eq_dec : EqDecision RunnerIdentity.
Proof. solve_decision. Defined.

Record RunnerHello := mkRunnerHello {
  rh_lifecycle : RunnerLifecycle;
  rh_identity : option RunnerIdentity
}.

Definition runner_hello_default : RunnerHello := mkRunnerHello Managed None.

(** What the last [Hello] stated that the Runner answers. *)
Record Stated := mkStated {
  st_registration : bool;
  st_admission : bool;
  st_launch : bool
}.

Inductive LinkState :=
  | Linked (link : nat)
  | Reclaiming
  | Gone (reason : string)
  | Lost (reason : string).

(** How one try to claim an independent Runner ended without a Claim. *)
Inductive Attempt := Retry (reason : string) | AttemptGone (reason : string)
  | AttemptLost (reason : string).

Section client.
Context `{Rep : Reports}.
(** [Debug] of an answer. *)
Context (debug : RunnerOpResult -> string).

(** A connection: the requests that wait for its answers, and its Claim. *)
Record Link := mkLink {
  lk_alive : bool;
  lk_pending : gset string;
  lk_claim : option RunnerClaim
}.

(** A [oneshot] channel holds what was sent to a request's caller until the caller takes it. *)
Record Client := mkClient {
  ct_next_id : Z;
  ct_hello : option RunnerHello;
  ct_stated : Stated;
  ct_links : list Link;
  ct_state : LinkState;
  ct_reclaim : bool;
  ct_leaving : bool;
  ct_last_event : Z;
  ct_claims : option RunnerClaim;
  ct_lost : option string;
  ct_answers : gmap string (result RunnerError WireEnvelope);
  (** The calls of [on_process_exit]: each event's number, if it has one, and process. *)
  ct_exits : list (option Z * string)
}.

Definition client_new : Client :=
  {| ct_next_id := 1; ct_hello := None; ct_stated := mkStated false false false;
     ct_links := []; ct_state := Gone "not connected";
     ct_reclaim := false; ct_leaving := false; ct_last_event := 0; ct_claims := None;
     ct_lost := None; ct_answers := ∅; ct_exits := [] |}.

Definition with_links (c : Client) (ls : list Link) : Client :=
  {| ct_next_id := ct_next_id c; ct_hello := ct_hello c; ct_stated := ct_stated c;
     ct_links := ls; ct_state := ct_state c;
     ct_reclaim := ct_reclaim c; ct_leaving := ct_leaving c; ct_last_event := ct_last_event c;
     ct_claims := ct_claims c; ct_lost := ct_lost c; ct_answers := ct_answers c;
     ct_exits := ct_exits c |}.

Definition with_state (c : Client) (st : LinkState) : Client :=
  {| ct_next_id := ct_next_id c; ct_hello := ct_hello c; ct_stated := ct_stated c;
     ct_links := ct_links c; ct_state := st;
     ct_reclaim := ct_reclaim c; ct_leaving := ct_leaving c; ct_last_event := ct_last_event c;
     ct_claims := ct_claims c; ct_lost := ct_lost c; ct_answers := ct_answers c;
     ct_exits := ct_exits c |}.

Definition with_answers (c : Client) (m : gmap string (result RunnerError WireEnvelope)) : Client :=
  {| ct_next_id := ct_next_id c; ct_hello := ct_hello c; ct_stated := ct_stated c;
     ct_links := ct_links c;
     ct_state := ct_state c; ct_reclaim := ct_reclaim c; ct_leaving := ct_leaving c;
     ct_last_event := ct_last_event c; ct_claims := ct_claims c; ct_lost := ct_lost c;
     ct_answers := m; ct_exits := ct_exits c |}.

Definition with_events (c : Client) (last : Z) (exits : list (option Z * string)) : Client :=
  {| ct_next_id := ct_next_id c; ct_hello := ct_hello c; ct_stated := ct_stated c;
     ct_links := ct_links c;
     ct_state := ct_state c; ct_reclaim := ct_reclaim c; ct_leaving := ct_leaving c;
     ct_last_event := last; ct_claims := ct_claims c; ct_lost := ct_lost c;
     ct_answers := ct_answers c; ct_exits := exits |}.

Definition with_watches (c : Client) (claims : option RunnerClaim) (lost : option string) : Client :=
  {| ct_next_id := ct_next_id c; ct_hello := ct_hello c; ct_stated := ct_stated c;
     ct_links := ct_links c;
     ct_state := ct_state c; ct_reclaim := ct_reclaim c; ct_leaving := ct_leaving c;
     ct_last_event := ct_last_event c; ct_claims := claims; ct_lost := lost;
     ct_answers := ct_answers c; ct_exits := ct_exits c |}.

Definition with_flags (c : Client) (reclaim leaving : bool) : Client :=
  {| ct_next_id := ct_next_id c; ct_hello := ct_hello c; ct_stated := ct_stated c;
     ct_links := ct_links c;
     ct_state := ct_state c; ct_reclaim := reclaim; ct_leaving := leaving;
     ct_last_event := ct_last_event c; ct_claims := ct_claims c; ct_lost := ct_lost c;
     ct_answers := ct_answers c; ct_exits := ct_exits c |}.

Definition with_hello (c : Client) (h : option RunnerHello) (stated : Stated) : Client :=
  {| ct_next_id := ct_next_id c; ct_hello := h; ct_stated := stated; ct_links := ct_links c; ct_state := ct_state c;
     ct_reclaim := ct_reclaim c; ct_leaving := ct_leaving c; ct_last_event := ct_last_event c;
     ct_claims := ct_claims c; ct_lost := ct_lost c; ct_answers := ct_answers c;
     ct_exits := ct_exits c |}.

Definition set_next_id (c : Client) (n : Z) : Client :=
  {| ct_next_id := n; ct_hello := ct_hello c; ct_stated := ct_stated c;
     ct_links := ct_links c; ct_state := ct_state c;
     ct_reclaim := ct_reclaim c; ct_leaving := ct_leaving c; ct_last_event := ct_last_event c;
     ct_claims := ct_claims c; ct_lost := ct_lost c; ct_answers := ct_answers c;
     ct_exits := ct_exits c |}.

(** * The connection a request goes over *)

Definition independent (c : Client) : bool :=
  match ct_hello c with
  | Some hello => bool_decide (rh_lifecycle hello = Independent)
  | None => false
  end.

Definition alive (c : Client) (link : nat) : bool :=
  match ct_links c !! link with Some l => lk_alive l | None => false end.

Definition link_claim (c : Client) (link : nat) : option RunnerClaim :=
  ct_links c !! link ≫= lk_claim.

(** [Client::current]. *)
Definition current (c : Client) : result RunnerError nat :=
  match ct_state c with
  | Linked link =>
      if alive c link then Ok link
      else if negb (independent c) then Err (TransportBeforeDispatch "runner socket closed")
      else if ct_reclaim c && negb (ct_leaving c) then Err (RunnerExecution runner_reconnecting)
      else if ct_leaving c
      then Err (RunnerExecution (runner_disconnected "this gateway left the Runner"))
      else Err (RunnerExecution (runner_disconnected "the connection to the Runner was lost"))
  | Reclaiming => Err (RunnerExecution runner_reconnecting)
  | Gone reason => Err (RunnerExecution (runner_disconnected reason))
  | Lost reason => Err (RunnerExecution (runner_lost reason))
  end.

(** [UdsRunner::claimed] and [UdsRunner::dispatch_epoch], [epoch] being the handle's own. *)
Definition claimed (c : Client) : option RunnerClaim :=
  match ct_state c with
  | Linked link => if alive c link then link_claim c link else None
  | _ => None
  end.

Definition dispatch_epoch (epoch : option Z) (c : Client) : res (option Z) :=
  if negb (independent c) then Ok None
  else
    match current c with
    | Ok link =>
        Ok (match link_claim c link with
            | Some claim => Some (default (cl_epoch claim) epoch)
            | None => epoch
            end)
    | Err err => Err (into_error_body err)
    end.

(** * Requests and answers *)

Definition modify_link (c : Client) (link : nat) (f : Link -> Link) : Client :=
  with_links c (alter f link (ct_links c)).

Definition set_pending (f : gset string -> gset string) (l : Link) : Link :=
  mkLink (lk_alive l) (f (lk_pending l)) (lk_claim l).

(** [Client::open_link]. *)
Definition open_link (c : Client) : nat * Client :=
  (length (ct_links c), with_links c (ct_links c ++ [mkLink true ∅ None])).

(** [Client::call_on] up to its write: the request's id, the envelope written, and the caller's
    channel among those that wait. *)
Definition call_on (c : Client) (link : nat) (op : RunnerOp) (epoch : option Z)
    : string * WireEnvelope * Client :=
  let id := "rrpc-" +:+ pretty (ct_next_id c) in
  (id, with_epoch (request id op) epoch,
   modify_link (set_next_id c (as_u64 (ct_next_id c + 1))) link (set_pending ({[id]} ∪.))).

(** [UdsRunner::call], before it awaits: the connection and the epoch of the request. *)
Definition call_over (epoch : option Z) (c : Client) : result RunnerError (nat * option Z) :=
  link ← current c;
  Ok (link, match epoch with Some e => Some e | None => cl_epoch <$> link_claim c link end).

(** [stop_writing]. *)
Definition stop_writing (c : Client) (link : nat) : Client :=
  modify_link c link (fun l => mkLink false (lk_pending l) (lk_claim l)).

(** [write_failure]: an error before the first byte went out, or after. *)
Definition write_failure (text : string) (started : bool) : RunnerError :=
  if started then TransportAmbiguous text else TransportBeforeDispatch text.

(** A request that could not be written. *)
Definition write_failed (c : Client) (link : nat) (id text : string) (started : bool)
    : RunnerError * Client :=
  let c := modify_link c link (set_pending (.∖ {[id]})) in
  (write_failure text started, if started then stop_writing c link else c).

Definition decode_response (e : WireEnvelope) : result RunnerError RunnerOpResult :=
  if bool_decide (we_ok e = Some true)
  then ok_or (RunnerExecution (error_body InvalidPatch "runner rpc missing result")) (we_result e)
  else Err (RunnerExecution (default (error_body InvalidPatch "runner rpc failed") (we_error e))).

Definition unexpected (r : RunnerOpResult) : RunnerError :=
  RunnerExecution (error_body InvalidPatch ("unexpected runner rpc result: " +:+ debug r)).

(** What a caller takes from its channel. *)
Definition take_answer (c : Client) (id : string)
    : option (result RunnerError RunnerOpResult) * Client :=
  ((fun a => a ≫= decode_response) <$> ct_answers c !! id,
   with_answers c (delete id (ct_answers c))).

(** [fail_pending]. *)
Definition fail_pending (c : Client) (link : nat) (err : RunnerError) : Client :=
  let ids := match ct_links c !! link with Some l => lk_pending l | None => ∅ end in
  modify_link (with_answers c (set_fold (fun id m => <[id := Err err]> m) (ct_answers c) ids)) link
    (set_pending (fun _ => ∅)).

(** [Client::start_reclaim]. *)
Definition start_reclaim (c : Client) (link : nat) : Client :=
  if negb (ct_reclaim c) || ct_leaving c then c
  else match ct_state c with
       | Linked current => if bool_decide (current = link) then with_state c Reclaiming else c
       | _ => c
       end.

(** [Client::close_link]: its three parts, between which it awaits. *)
Definition close_link (c : Client) (link : nat) : Client :=
  start_reclaim
    (fail_pending (stop_writing c link) link (TransportAmbiguous "runner socket closed")) link.

(** [UdsRunner::close]. *)
Definition close (c : Client) : Client :=
  let c := with_flags c (ct_reclaim c) true in
  match ct_state c with Linked link => close_link c link | _ => c end.

(** * What a connection's reader does *)

(** [Client::exited]. *)
Definition exited (c : Client) (seq : option Z) (process_id : string) : Client :=
  match seq with
  | Some n =>
      if bool_decide (n <= ct_last_event c)%Z then c
      else with_events c n (ct_exits c ++ [(seq, process_id)])
  | None => with_events c (ct_last_event c) (ct_exits c ++ [(seq, process_id)])
  end.

(** One envelope read over [link]. *)
Definition read_envelope (c : Client) (link : nat) (e : WireEnvelope) : Client :=
  match we_kind e with
  | KindEvent =>
      match we_event e with Some (ProcessExited id) => exited c (we_seq e) id | None => c end
  | KindResponse =>
      let c := match we_result e with
               | Some (ResClaimed claim) =>
                   with_events c (Z.max (ct_last_event c) (cl_events_through claim)) (ct_exits c)
               | _ => c
               end in
      match we_request_id e, ct_links c !! link with
      | Some id, Some l =>
          if bool_decide (id ∈ lk_pending l)
          then modify_link (with_answers c (<[id := Ok e]> (ct_answers c))) link
                 (set_pending (.∖ {[id]}))
          else c
      | _, _ => c
      end
  | KindRequest => c
  end.

(** The end of a reader: the connection is dead, and is made again if it was the client's. *)
Definition read_ended (c : Client) (link : nat) : Client := start_reclaim (stop_writing c link) link.

(** * Claiming the Runner again *)

(** [Client::same_runner], once its [Hello] was answered. *)
Definition same_runner (c : Client) (answer : result RunnerError RunnerOpResult)
    (show : RunnerError -> string) : result Attempt unit :=
  let expected := ct_hello c ≫= rh_identity in
  match answer with
  | Ok (ResHello protocol lifecycle identity registration admission launch) =>
      if bool_decide (protocol = WIRE_PROTOCOL) then
        match identity, expected with
        | Some found, Some ours =>
            if bool_decide (found = ours) then Ok tt
            else Err (AttemptLost ("another Runner answers at its socket (pid " +:+
                                   pretty (ri_pid found) +:+ ")"))
        | Some found, None =>
            Err (AttemptLost ("another Runner answers at its socket (pid " +:+
                              pretty (ri_pid found) +:+ ")"))
        | None, _ => Err (AttemptLost "another Runner answers at its socket (pid unknown)")
        end
      else Err (AttemptLost ("the worker at its socket answered Hello with " +:+
                  debug (ResHello protocol lifecycle identity registration admission launch)))
  | Ok other => Err (AttemptLost ("the worker at its socket answered Hello with " +:+ debug other))
  | Err (RunnerExecution body) =>
      Err (AttemptLost ("the worker at its socket refused Hello: " +:+ message body))
  | Err err => Err (Retry ("Hello: " +:+ show err))
  end.

(** [claim_on] and what [link_and_claim] makes of its answer. *)
Definition set_claim (c : Client) (link : nat) (claim : RunnerClaim) : Client :=
  modify_link c link (fun l =>
    mkLink (lk_alive l) (lk_pending l)
      (match lk_claim l with Some earlier => Some earlier | None => Some claim end)).

Definition claim_attempt (answer : result RunnerError RunnerOpResult)
    (show : RunnerError -> string) : result Attempt RunnerClaim :=
  match answer with
  | Ok (ResClaimed claim) => Ok claim
  | Ok (ResClaimRefused refusal text) =>
      Err (if is_transient refusal then Retry text else AttemptGone text)
  | Ok other => Err (Retry (show (unexpected other)))
  | Err err => Err (Retry (show err))
  end.

Definition left_the_runner : LinkState := Gone "this gateway left the Runner".

(** One round of [reclaim_loop], with how [link_and_claim] ended; the loop runs while the client
    is [Reclaiming]. *)
Definition reclaim_round (c : Client) (outcome : result Attempt (nat * RunnerClaim)) : Client :=
  match outcome with
  | Ok (link, claim) =>
      if negb (ct_leaving c) then with_watches (with_state c (Linked link)) (Some claim) (ct_lost c)
      else with_state c left_the_runner
  | Err (AttemptGone reason) => with_state c (Gone reason)
  | Err (AttemptLost reason) => with_watches (with_state c (Lost reason)) (ct_claims c) (Some reason)
  | Err (Retry _) => if ct_leaving c then with_state c left_the_runner else c
  end.

(** * Runs *)

Inductive ClientEvent :=
  | EvConnect                                      (** [claim_independent] or [from_stream] *)
  | EvHello (hello : RunnerHello) (stated : Stated) (** [handshake] *)
  | EvOpen                                         (** [link_and_claim] connects *)
  | EvCall (link : nat) (op : RunnerOp) (epoch : option Z)
  | EvWriteFailed (link : nat) (id text : string) (started : bool)
  | EvTake (id : string)
  | EvStopWriting (link : nat)
  | EvFailPending (link : nat) (err : RunnerError)
  | EvStartReclaim (link : nat)
  | EvRead (link : nat) (e : WireEnvelope)
  | EvSetClaim (link : nat) (claim : RunnerClaim)
  | EvClaimed (claim : RunnerClaim)                (** [UdsRunner::claim] *)
  | EvArmed                                        (** [claim_independent] sets [reclaim] *)
  | EvRound (outcome : result Attempt (nat * RunnerClaim))
  | EvLeaving.                                     (** [detach], [stop_runner], [close] *)

Definition client_run (ev : ClientEvent) (c : Client) : Client :=
  match ev with
  | EvConnect =>
      if ct_reclaim c || ct_leaving c then c
      else let (link, c) := open_link c in with_state c (Linked link)
  | EvHello hello stated =>
      with_hello c (match ct_hello c with Some h => Some h | None => Some hello end) stated
  | EvOpen => snd (open_link c)
  | EvCall link op epoch => snd (call_on c link op epoch)
  | EvWriteFailed link id text started => snd (write_failed c link id text started)
  | EvTake id => snd (take_answer c id)
  | EvStopWriting link => stop_writing c link
  | EvFailPending link err => fail_pending c link err
  | EvStartReclaim link => start_reclaim c link
  | EvRead link e => read_envelope c link e
  | EvSetClaim link claim => set_claim c link claim
  | EvClaimed claim => with_watches c (Some claim) (ct_lost c)
  | EvArmed => with_flags c true (ct_leaving c)
  | EvRound outcome =>
      match ct_state c with Reclaiming => reclaim_round c outcome | _ => c end
  | EvLeaving => with_flags c (ct_reclaim c) true
  end.

Definition client_runs (evs : list ClientEvent) (c : Client) : Client :=
  foldl (fun c ev => client_run ev c) c evs.

End client.
(** * Lemmas *)

Section facts.
Context `{Rep : Reports} (debug : RunnerOpResult -> string).
Implicit Types (c : Client) (ev : ClientEvent) (evs : list ClientEvent).

Abbreviation run := (@client_run _).
Abbreviation runs := (@client_runs _).

Lemma client_runs_snoc evs ev c : runs (evs ++ [ev]) c = run ev (runs evs c).
Proof. unfold client_runs. by rewrite foldl_app. Qed.

(** Failing what waits on a connection only adds errors, to the channels of its requests. *)
Lemma fail_answers (err : RunnerError) (ids : gset string)
    (m : gmap string (result RunnerError WireEnvelope)) id :
  set_fold (fun id m => <[id := Err err]> m) m ids !! id
  = if decide (id ∈ ids) then Some (Err err) else m !! id.
Proof.
  assert (H : (fun m' X => forall id, (id ∈ X -> m' !! id = Some (Err err)) /\
                                    (id ∉ X -> m' !! id = m !! id))
    (set_fold (fun id m => <[id := Err err]> m) m ids) ids).
  { apply (set_fold_ind_L (fun m' X => forall id, (id ∈ X -> m' !! id = Some (Err err)) /\
                                    (id ∉ X -> m' !! id = m !! id))).
    - intros id'. split; [set_solver|done].
    - intros x X m' Hx IH id'. destruct (decide (id' = x)) as [->|Hne].
      + rewrite lookup_insert_eq. split; [done|set_solver].
      + rewrite lookup_insert_ne by done. destruct (IH id'). split; intros; [apply H|apply H0]; set_solver. }
  destruct (H id). case_decide; auto.
Qed.

Lemma fail_pending_answers c link err id e :
  ct_answers (fail_pending c link err) !! id = Some (Ok e) -> ct_answers c !! id = Some (Ok e).
Proof. unfold fail_pending. cbn. rewrite fail_answers. by case_decide. Qed.

Lemma start_reclaim_frame c link :
  ct_next_id (start_reclaim c link) = ct_next_id c /\
  ct_links (start_reclaim c link) = ct_links c /\
  ct_answers (start_reclaim c link) = ct_answers c /\
  ct_exits (start_reclaim c link) = ct_exits c /\
  ct_last_event (start_reclaim c link) = ct_last_event c /\
  ct_reclaim (start_reclaim c link) = ct_reclaim c /\
  ct_leaving (start_reclaim c link) = ct_leaving c.
Proof. unfold start_reclaim. repeat case_match; done. Qed.

Lemma reclaim_round_frame c outcome :
  ct_next_id (reclaim_round c outcome) = ct_next_id c /\
  ct_links (reclaim_round c outcome) = ct_links c /\
  ct_answers (reclaim_round c outcome) = ct_answers c /\
  ct_exits (reclaim_round c outcome) = ct_exits c /\
  ct_last_event (reclaim_round c outcome) = ct_last_event c /\
  ct_reclaim (reclaim_round c outcome) = ct_reclaim c /\
  ct_leaving (reclaim_round c outcome) = ct_leaving c.
Proof. unfold reclaim_round. repeat case_match; done. Qed.

(** ** Exit events *)

Definition exits_ok c : Prop :=
  StronglySorted Z.lt (omap fst (ct_exits c)) /\
  Forall (fun n => n <= ct_last_event c)%Z (omap fst (ct_exits c)).

Lemma exited_ok c seq id : exits_ok c -> exits_ok (exited c seq id).
Proof.
  intros [Hs Hb]. unfold exited. destruct seq as [n|].
  - case_bool_decide as Hn; [done|]. split; cbn; rewrite omap_app; cbn.
    + revert Hs Hb. induction (omap fst (ct_exits c)) as [|x l IH]; cbn; intros Hs Hb.
      { repeat constructor. }
      apply StronglySorted_inv in Hs as [Hs Hx]. apply Forall_cons in Hb as [Hx' Hb].
      constructor; [by apply IH|]. apply Forall_app. split; [done|]. constructor; [lia|done].
    + apply Forall_app. split; [|by repeat constructor].
      eapply Forall_impl; [exact Hb|]. cbn. lia.
  - split; cbn; rewrite omap_app; cbn; by rewrite app_nil_r.
Qed.

Lemma client_run_exits ev c : exits_ok c -> exits_ok (run ev c).
Proof.
  intros H. destruct ev; cbn; try done.
  - destruct (ct_reclaim c || ct_leaving c); done.
  - unfold write_failed. destruct started; done.
  - unfold exits_ok. destruct (start_reclaim_frame c link) as (_ & _ & _ & -> & -> & _). done.
  - unfold read_envelope. destruct (we_kind e); [done| |].
    + set (c' := match we_result e with Some (ResClaimed _) => _ | _ => _ end).
      assert (Hc' : exits_ok c').
      { unfold c'. destruct (we_result e) as [[]|]; try done. destruct H as [Hs Hb]. split; [done|].
        cbn [with_events ct_last_event ct_exits].
        eapply Forall_impl; [exact Hb|]. cbn beta. lia. }
      clearbody c'. destruct (we_request_id e), (ct_links c' !! link); try done.
      by case_bool_decide.
    + destruct (we_event e) as [[]|]; [by apply exited_ok|done].
  - destruct (ct_state c); try done. unfold exits_ok.
    destruct (reclaim_round_frame c outcome) as (_ & _ & _ & -> & -> & _). done.
Qed.

(** The last event number never falls. *)
Lemma client_run_last ev c : (ct_last_event c <= ct_last_event (run ev c))%Z.
Proof.
  destruct ev; cbn; try lia.
  - destruct (ct_reclaim c || ct_leaving c); cbn; lia.
  - unfold write_failed. destruct started; cbn; lia.
  - destruct (start_reclaim_frame c link) as (_ & _ & _ & _ & -> & _). lia.
  - unfold read_envelope. destruct (we_kind e); [lia| |].
    + set (c' := match we_result e with Some (ResClaimed _) => _ | _ => _ end).
      assert (ct_last_event c <= ct_last_event c')%Z
        by (unfold c'; destruct (we_result e) as [[]|]; cbn [with_events ct_last_event]; lia).
      clearbody c'. destruct (we_request_id e), (ct_links c' !! link); try done.
      by case_bool_decide.
    + destruct (we_event e) as [[]|]; [|lia]. unfold exited.
      destruct (we_seq e); [case_bool_decide|]; cbn; lia.
  - destruct (ct_state c); try lia.
    destruct (reclaim_round_frame c outcome) as (_ & _ & _ & _ & -> & _). lia.
Qed.

Lemma client_runs_last evs c : (ct_last_event c <= ct_last_event (runs evs c))%Z.
Proof.
  revert c. induction evs as [|ev evs IH]; intros c; [done|].
  change (runs (ev :: evs) c) with (runs evs (run ev c)).
  pose proof (client_run_last ev c). specialize (IH (run ev c)). lia.
Qed.

(** ** A client that gave up *)

Definition gave_up c : Prop :=
  ct_reclaim c = true /\ match ct_state c with Gone _ | Lost _ => True | _ => False end.

Lemma client_run_gave_up ev c :
  gave_up c -> gave_up (run ev c) /\ ct_state (run ev c) = ct_state c.
Proof.
  intros [Hr Hs]. destruct ev; cbn; try done.
  - by rewrite Hr.
  - unfold write_failed. by destruct started.
  - assert (start_reclaim c link = c) as ->; [|done].
    unfold start_reclaim. destruct (ct_state c); try done; by case_match.
  - assert (H : ct_reclaim (read_envelope c link e) = ct_reclaim c /\
                ct_state (read_envelope c link e) = ct_state c).
    { unfold read_envelope, exited. by repeat case_match. }
    unfold gave_up. by destruct H as [-> ->].
  - assert (client_run (EvRound outcome) c = c) as Heq; [|by cbn in Heq; rewrite Heq].
    cbn. by destruct (ct_state c).
Qed.

(** ** Answers *)

Definition rpc_id (n : Z) : string := "rrpc-" +:+ pretty n.

(** The request [id] was written over [link] in the run [evs]. *)
Definition issued evs (id : string) (link : nat) : Prop :=
  exists pre op epoch post, evs = pre ++ EvCall link op epoch :: post /\
    id = rpc_id (ct_next_id (runs pre client_new)).

Definition numbered evs : Prop := (Z.of_nat (length evs) < 2^64 - 1)%Z.

Lemma issued_snoc evs ev id link : issued evs id link -> issued (evs ++ [ev]) id link.
Proof.
  intros (pre & op & epoch & post & -> & Hid). exists pre, op, epoch, (post ++ [ev]).
  split; [by rewrite <- app_assoc|done].
Qed.

(** Request ids are counted up. *)
Lemma next_id_step ev c :
  ct_next_id (run ev c) =
    match ev with EvCall _ _ _ => as_u64 (ct_next_id c + 1) | _ => ct_next_id c end.
Proof.
  destruct ev; cbn; try done.
  - by destruct (ct_reclaim c || ct_leaving c).
  - unfold write_failed. by destruct started.
  - apply start_reclaim_frame.
  - unfold read_envelope, exited. repeat case_match; done.
  - destruct (ct_state c); try done. apply reclaim_round_frame.
Qed.

Lemma next_id_bound evs :
  numbered evs -> (1 <= ct_next_id (runs evs client_new) <= 1 + Z.of_nat (length evs))%Z.
Proof.
  unfold numbered. induction evs as [|ev evs IH] using rev_ind; [cbn; lia|].
  rewrite length_app, client_runs_snoc, next_id_step. cbn [length]. intros Hn.
  specialize (IH ltac:(lia)). destruct ev; try lia. rewrite as_u64_id by lia. lia.
Qed.

Lemma next_id_mono pre post :
  numbered (pre ++ post) ->
  (ct_next_id (runs pre client_new) <= ct_next_id (runs (pre ++ post) client_new))%Z.
Proof.
  induction post as [|ev post IH] using rev_ind; [rewrite app_nil_r; lia|].
  rewrite app_assoc, client_runs_snoc, next_id_step. intros Hn.
  assert (Hn' : numbered (pre ++ post)) .
  { unfold numbered in *. rewrite length_app in Hn. cbn [length] in Hn. lia. }
  specialize (IH Hn'). pose proof (next_id_bound _ Hn').
  unfold numbered in *. rewrite length_app in Hn. cbn [length] in Hn. destruct ev; try lia. rewrite as_u64_id by lia. lia.
Qed.

Lemma rpc_id_inj n m : rpc_id n = rpc_id m -> n = m.
Proof. unfold rpc_id. intros H. apply (inj pretty). by apply (inj (String.append "rrpc-")) in H. Qed.

(** No two requests have the same id. *)
Lemma issued_once pre1 link1 op1 ep1 post1 pre2 link2 op2 ep2 post2 :
  pre1 ++ EvCall link1 op1 ep1 :: post1 = pre2 ++ EvCall link2 op2 ep2 :: post2 ->
  numbered (pre1 ++ EvCall link1 op1 ep1 :: post1) ->
  rpc_id (ct_next_id (runs pre1 client_new)) = rpc_id (ct_next_id (runs pre2 client_new)) ->
  pre1 = pre2 /\ link1 = link2.
Proof.
  intros Heq Hn Hid%rpc_id_inj.
  assert (Hlt : forall pre l o e mid rest, pre ++ EvCall l o e :: mid ++ rest
            = pre1 ++ EvCall link1 op1 ep1 :: post1 ->
            (ct_next_id (runs pre client_new)
             < ct_next_id (runs (pre ++ EvCall l o e :: mid) client_new))%Z).
  { intros pre l o e mid rest E. rewrite <- E in Hn.
    assert (Hn1 : numbered (pre ++ EvCall l o e :: mid)).
    { unfold numbered in *. rewrite !length_app in *. cbn [length] in *. rewrite length_app in Hn. lia. }
    assert (Hn2 : numbered pre). { unfold numbered in *. rewrite length_app in Hn1. lia. }
    pose proof (next_id_bound _ Hn2) as Hb.
    assert (Hn3 : (ct_next_id (runs pre client_new) + 1 < 2^64)%Z).
    { unfold numbered in Hn1. rewrite length_app in Hn1. cbn [length] in Hn1. lia. }
    replace (pre ++ EvCall l o e :: mid) with ((pre ++ [EvCall l o e]) ++ mid) in *
      by (by rewrite <- app_assoc).
    pose proof (next_id_mono (pre ++ [EvCall l o e]) mid Hn1) as Hm.
    rewrite (client_runs_snoc pre) in Hm. rewrite next_id_step, as_u64_id in Hm by lia. lia. }
  destruct (app_eq_app _ _ _ _ Heq) as (l & [[-> H]|[-> H]]).
  - destruct l as [|ev l]; [rewrite app_nil_r in *; by simplify_eq/=|].
    cbn in H. injection H as <- H.
    pose proof (Hlt pre2 link2 op2 ep2 l (EvCall link1 op1 ep1 :: post1)) as Hl.
    rewrite <- app_assoc in Hl. specialize (Hl eq_refl). lia.
  - destruct l as [|ev l]; [rewrite app_nil_r in *; by simplify_eq/=|].
    cbn in H. injection H as <- H. subst post1.
    pose proof (Hlt pre1 link1 op1 ep1 l (EvCall link2 op2 ep2 :: post2) eq_refl). lia.
Qed.

(** What waits and what was sent to a caller, in a run. *)
Record answers_ok evs c : Prop := {
  ao_pending link l id : ct_links c !! link = Some l -> id ∈ lk_pending l -> issued evs id link;
  ao_answers id e : ct_answers c !! id = Some (Ok e) ->
    exists link, issued evs id link /\ we_request_id e = Some id /\
      we_kind e = KindResponse /\ EvRead link e ∈ evs
}.

Lemma answers_ok_snoc evs ev c : answers_ok evs c -> answers_ok (evs ++ [ev]) c.
Proof.
  intros [P A]. split.
  - intros link l id Hl Hid. apply issued_snoc. by eapply P.
  - intros id e He. destruct (A id e He) as (link & ? & ? & ? & ?). exists link.
    split_and!; [by apply issued_snoc|done..|]. apply elem_of_app. by left.
Qed.

Lemma answers_ok_links evs c c' :
  ct_answers c' = ct_answers c ->
  (forall link l id, ct_links c' !! link = Some l -> id ∈ lk_pending l ->
     exists l0, ct_links c !! link = Some l0 /\ id ∈ lk_pending l0) ->
  answers_ok evs c -> answers_ok evs c'.
Proof.
  intros Ha Hl [P A]. split.
  - intros link l id H1 H2. destruct (Hl link l id H1 H2) as (l0 & ? & ?). by eapply P.
  - intros id e. rewrite Ha. apply A.
Qed.

Lemma modify_link_pending c link f link' l id :
  (forall l, lk_pending (f l) ⊆ lk_pending l) ->
  ct_links (modify_link c link f) !! link' = Some l -> id ∈ lk_pending l ->
  exists l0, ct_links c !! link' = Some l0 /\ id ∈ lk_pending l0.
Proof.
  intros Hf. unfold modify_link. cbn. destruct (decide (link = link')) as [->|Hne].
  - rewrite list_lookup_alter_eq. intros (l0 & -> & ->)%fmap_Some Hid. exists l0.
    split; [done|]. by apply Hf.
  - rewrite list_lookup_alter_ne by done. eauto.
Qed.

Lemma client_run_answers evs ev :
  answers_ok evs (runs evs client_new) ->
  answers_ok (evs ++ [ev]) (run ev (runs evs client_new)).
Proof.
  intros Hinv. pose proof (answers_ok_snoc evs ev _ Hinv) as Hok.
  set (c := runs evs client_new) in *.
  assert (Hshrink : forall link f, (forall l, lk_pending (f l) ⊆ lk_pending l) ->
            answers_ok (evs ++ [ev]) (modify_link c link f)).
  { intros link f Hf. revert Hok. apply answers_ok_links; [done|]. intros.
    by eapply modify_link_pending. }
  assert (Hopen : answers_ok (evs ++ [ev]) (open_link c).2).
  { revert Hok. apply answers_ok_links; [done|]. cbn. intros link l id.
    rewrite lookup_app_Some, list_lookup_singleton_Some. intros [?|(_ & _ & <-)]; [eauto|].
    cbn. set_solver. }
  assert (Hframe : forall c', ct_links c' = ct_links c -> ct_answers c' = ct_answers c ->
            answers_ok (evs ++ [ev]) c').
  { intros c' Hl Ha. revert Hok. apply answers_ok_links; [done|]. rewrite Hl. eauto. }
  destruct ev; cbn [client_run]; try (by apply Hframe); try (by apply Hopen).
  - destruct (ct_reclaim c || ct_leaving c); [done|]. destruct (open_link c) as [link c1].
    revert Hopen. apply answers_ok_links; [done|eauto].
  - destruct Hok as [P A]. split; [|apply A]. intros link' l id. cbn.
    destruct (decide (link = link')) as [->|Hne];
      [rewrite list_lookup_alter_eq|rewrite list_lookup_alter_ne by done; by apply P].
    intros (l0 & Hl0 & ->)%fmap_Some. cbn. intros [Hid|Hid]%elem_of_union; [|by eapply P].
    apply elem_of_singleton in Hid as ->. exists evs, op, epoch, []. by split.
  - unfold write_failed. cbn.
    assert (H1 := Hshrink link (set_pending (.∖ {[id]}))). 
    destruct started; cbn; [|apply H1; cbn; set_solver].
    specialize (H1 ltac:(cbn; set_solver)). revert H1. apply answers_ok_links; [done|].
    intros. eapply modify_link_pending; [|done..]. cbn. set_solver.
  - destruct Hok as [P A]. split; [apply P|]. intros id' e. cbn.
    rewrite lookup_delete_Some. intros [_ ?]. by apply A.
  - apply Hshrink. done.
  - destruct Hok as [P A]. split.
    + intros link' l id' Hl Hid. destruct (modify_link_pending _ link (set_pending (fun _ => ∅))
        link' l id' ltac:(cbn; set_solver) Hl Hid) as (l0 & Hl0 & ?). by eapply P.
    + intros id' e He%fail_pending_answers. by apply A.
  - by apply Hframe; apply start_reclaim_frame.
  - unfold read_envelope. destruct (we_kind e) eqn:Ek; [done| |].
    + set (c' := match we_result e with Some (ResClaimed _) => _ | _ => _ end).
      assert (Hc' : ct_links c' = ct_links c /\ ct_answers c' = ct_answers c)
        by (unfold c'; repeat case_match; done).
      destruct Hc' as [Hl Ha].
      assert (Hok' : answers_ok (evs ++ [EvRead link e]) c')
        by (revert Hok; apply answers_ok_links; [done|rewrite Hl; eauto]).
      clearbody c'. destruct (we_request_id e) as [id|] eqn:Eid; [|done].
      destruct (ct_links c' !! link) as [l|] eqn:El; [|done].
      case_bool_decide as Hid; [|done]. destruct Hok' as [P A]. split.
      * intros link' l' id' Hl' Hid'. destruct (modify_link_pending _ link (set_pending (.∖ {[id]}))
          link' l' id' ltac:(cbn; set_solver) Hl' Hid') as (l0 & Hl0 & ?). by eapply P.
      * intros id' e'. cbn. rewrite lookup_insert_Some. intros [[<- [= <-]]|[_ ?]]; [|by apply A].
        exists link. split_and!; [by eapply P|done..|]. apply elem_of_app. right. by left.
    + destruct (we_event e) as [[]|]; [|done].
      apply Hframe; unfold exited; by repeat case_match.
  - apply Hshrink. done.
  - destruct (ct_state c); try done. by apply Hframe; apply reclaim_round_frame.
Qed.

Lemma client_runs_answers evs : answers_ok evs (runs evs client_new).
Proof.
  induction evs as [|ev evs IH] using rev_ind.
  - split; cbn; [by intros link l id ?|]. intros id e. by rewrite lookup_empty.
  - rewrite client_runs_snoc. by apply client_run_answers.
Qed.

Lemma client_runs_gave_up evs c :
  gave_up c -> gave_up (runs evs c) /\ ct_state (runs evs c) = ct_state c.
Proof.
  induction evs as [|ev evs IH] using rev_ind; [done|]. intros Hc.
  destruct (IH Hc) as [Hg Hs]. rewrite client_runs_snoc.
  destruct (client_run_gave_up ev _ Hg) as [? ->]. done.
Qed.

Lemma client_runs_exits evs : exits_ok (runs evs client_new).
Proof.
  induction evs as [|ev evs IH] using rev_ind; [split; constructor|].
  rewrite client_runs_snoc. by apply client_run_exits.
Qed.

(** ** Properties *)

(** C38: A caller gets the answer to its own request: what its channel holds, if not an error of
    the connection, is a response that names its request, read over the connection that
    the request was written to; and no two requests of the client have the same id, whatever
    connections they went over, so no other caller waits for it. *)
Theorem answers_reach_their_callers (evs : list ClientEvent) (Hn : numbered evs) (id : string)
    (e : WireEnvelope) (He : ct_answers (runs evs client_new) !! id = Some (Ok e)) :
  we_request_id e = Some id /\
  exists link op epoch pre post,
    evs = pre ++ EvCall link op epoch :: post /\
    call_on (runs pre client_new) link op epoch
      = (id, with_epoch (request id op) epoch, run (EvCall link op epoch) (runs pre client_new)) /\
    EvRead link e ∈ evs /\
    forall link' op' epoch' pre' post',
      evs = pre' ++ EvCall link' op' epoch' :: post' ->
      fst (fst (call_on (runs pre' client_new) link' op' epoch')) = id ->
      pre' = pre /\ link' = link.
Proof.
  destruct (ao_answers _ _ (client_runs_answers evs) id e He) as (link & Hi & Hid & _ & Hread).
  split; [done|]. destruct Hi as (pre & op & epoch & post & Hevs & Heq).
  exists link, op, epoch, pre, post. split_and!; [done| |done|].
  - unfold call_on. cbn. unfold call_on. cbn. unfold rpc_id in Heq. by rewrite <- Heq.
  - intros link' op' epoch' pre' post' Hevs' Hid'. cbn in Hid'.
    rewrite Hevs in Hn, Hevs'. symmetry in Hevs'.
    destruct (issued_once _ _ _ _ _ _ _ _ _ _ (eq_sym Hevs') Hn) as [-> ->]; [|done].
    unfold rpc_id in *. congruence.
Qed.

(** Each exit is reported to the gateway at most once and in order, however often the Runner
    sends it and over whatever connections: the numbers of the reported exits ascend, an exit
    is reported when it is read unless one with its number or a later one was, or a Claim's
    inventory accounted for it. *)
Theorem exits_are_reported_once (evs : list ClientEvent) :
  let c := runs evs client_new in
  StronglySorted Z.lt (omap fst (ct_exits c)) /\
  (forall link e n id, we_kind e = KindEvent -> we_seq e = Some n ->
     we_event e = Some (ProcessExited id) ->
     ct_exits (run (EvRead link e) c)
     = ct_exits c ++ (if decide (n <= ct_last_event c)%Z then [] else [(Some n, id)])) /\
  (forall link e claim pre post, evs = pre ++ EvRead link e :: post ->
     we_kind e = KindResponse -> we_result e = Some (ResClaimed claim) ->
     (cl_events_through claim <= ct_last_event c)%Z).
Proof.
  intros c. split_and!; [apply client_runs_exits|..].
  - intros link e n id Hk Hs He. cbn. unfold read_envelope. rewrite Hk, He, Hs. unfold exited.
    case_bool_decide; case_decide; try done. by rewrite app_nil_r.
  - intros link e claim pre post -> Hk Hr. unfold c, client_runs. rewrite foldl_app. cbn [foldl].
    etransitivity; [|apply (client_runs_last post)]. cbn [client_run]. unfold read_envelope.
    rewrite Hk, Hr. cbv zeta. generalize (foldl (fun c ev => run ev c) client_new pre). intros c0.
    assert (forall c1, ct_last_event c1 = Z.max (ct_last_event c0) (cl_events_through claim) ->
              (cl_events_through claim <= ct_last_event c1)%Z) as Hmax by (intros; lia).
    apply Hmax. by repeat case_match.
Qed.

(** A client that gave up its independent Runner, because the Runner refused it, was lost or
    the gateway left, stays so: whatever happens later, no connection is current, every request
    is refused with [RUNNER_DISCONNECTED] before anything is written, and so is new work. *)
Theorem a_client_that_gave_up_sends_nothing (c : Client) (Hc : gave_up c)
    (Hi : independent c = true) (evs : list ClientEvent) (epoch : option Z) :
  let c' := runs evs c in
  ct_state c' = ct_state c /\ claimed c' = None /\
  exists err, code err = RunnerDisconnected /\
    call_over epoch c' = Err (RunnerExecution err) /\ dispatch_epoch epoch c' = Err err.
Proof.
  intros c'. destruct (client_runs_gave_up evs c Hc) as [[_ Hg] Hs]. fold c' in Hg, Hs.
  assert (Hi' : independent c' = true).
  { unfold c'. clear -Hi. revert c Hi. induction evs as [|ev evs IH]; intros c Hi; [done|].
    change (independent (runs evs (run ev c)) = true). apply IH. clear IH.
    assert (ct_hello (run ev c) = ct_hello c \/ exists h stated, ev = EvHello h stated)
      as [Heq|(h & stated & ->)].
    { destruct ev; cbn; try (by left); try (by right; do 2 eexists); left.
      - by destruct (ct_reclaim c || ct_leaving c).
      - unfold write_failed. by destruct started.
      - unfold start_reclaim. by repeat case_match.
      - unfold read_envelope, exited. by repeat case_match.
      - destruct (ct_state c); try done. unfold reclaim_round. by repeat case_match. }
    - unfold independent in *. by rewrite Heq.
    - unfold independent in *. cbn. by destruct (ct_hello c). }
  split; [done|]. unfold claimed, call_over, dispatch_epoch, current. rewrite Hi'. cbn [negb].
  destruct (ct_state c') eqn:E; try done; (split; [done|]); eexists; (split_and!; [|reflexivity..]); done.
Qed.

End facts.

(** * Runs *)

#[local] Instance plain_reports : Reports :=
  {| AuthorityInfo := unit; Preparation := unit; LaunchReport := unit |}.

Definition answer_to (id : string) : WireEnvelope :=
  {| we_protocol := WIRE_PROTOCOL; we_kind := KindResponse; we_request_id := Some id;
     we_epoch := None; we_op := None; we_ok := Some true; we_result := Some ResTerminate;
     we_error := None; we_seq := None; we_event := None |}.

Definition answered_run : list ClientEvent :=
  [EvConnect; EvCall 0 (RqTerminate "p") None; EvCall 0 (RqTerminate "q") None;
   EvRead 0 (answer_to "rrpc-2")].

Lemma answers_reach_their_callers_witness :
  ct_answers (client_runs answered_run client_new) !! "rrpc-2" = Some (Ok (answer_to "rrpc-2")) /\
  exists link op epoch pre post, answered_run = pre ++ EvCall link op epoch :: post /\
    fst (fst (call_on (client_runs pre client_new) link op epoch)) = "rrpc-2".
Proof.
  assert (He : ct_answers (client_runs answered_run client_new) !! "rrpc-2"
               = Some (Ok (answer_to "rrpc-2"))) by (vm_compute; reflexivity).
  split; [exact He|].
  destruct (answers_reach_their_callers answered_run ltac:(reflexivity) "rrpc-2" _ He)
    as (_ & link & op & epoch & pre & post & Hevs & Hcall & _).
  exists link, op, epoch, pre, post. split; [exact Hevs|]. by rewrite Hcall.
Defined.

Definition refused_run : list ClientEvent :=
  [EvConnect; EvHello (mkRunnerHello Independent None) (mkStated false false false); EvArmed; EvStartReclaim 0;
   EvRound (Err (AttemptGone "the Runner refused the claim"))].

Lemma a_client_that_gave_up_sends_nothing_witness :
  exists err, code err = RunnerDisconnected /\
    call_over None (client_runs [EvConnect; EvOpen] (client_runs refused_run client_new))
      = Err (RunnerExecution err).
Proof.
  destruct (a_client_that_gave_up_sends_nothing (client_runs refused_run client_new)
              ltac:(vm_compute; split; [reflexivity|exact I]) ltac:(vm_compute; reflexivity)
              [EvConnect; EvOpen] None) as (_ & _ & err & Hcode & Hcall & _).
  exists err. split; [exact Hcode|exact Hcall].
Defined.
