(* ===== verification/Claiming.v ===== *)
(** The client's tasks as they run ([crates/runner/src/uds.rs]): how a gateway claims its independent
    Runner when it starts, the reader of each connection, the loop that claims the Runner again and
    the requests of callers, as calls that share the [Client] of [Client.v] in any interleaving. *)
From S2P Require Import Prelude Domain Policy Supervisor Api Recovery Threads Courses Wire Client.

Definition second : Z := 1000000000.
Definition RUNNER_CALL_DEADLINE : Z := 120 * second.
Definition CLAIM_START_BOUND : Z := 30 * second.
Definition RECLAIM_BACKOFF_START : Z := 100 * 1000000.
Definition RECLAIM_BACKOFF_MAX : Z := 5 * second.

Inductive LinkEvent :=
  | LinkLost
  | LinkRetrying (reason : string) (retry : Z)
  | LinkReclaimed (claim : RunnerClaim)
  | LinkGone (reason : string)
  | LinkRunnerLost (reason : string).

Inductive ClaimError :=
  | ClaimRefusedBy (refusal : ClaimRefusal) (text : string)
  | NotIndependent (text : string)
  | ClaimTransport (err : RunnerError).

(** [Display] of [RunnerError] and [ClaimError]. *)
Definition runner_error_text (err : RunnerError) : string :=
  match err with
  | RunnerExecution body => message body
  | TransportBeforeDispatch text => "runner transport failed before dispatch: " +:+ text
  | TransportAmbiguous text => "runner transport result is ambiguous: " +:+ text
  end.

Definition claim_error_text (err : ClaimError) : string :=
  match err with
  | ClaimRefusedBy refusal text =>
      "the Runner refused the Claim (" +:+ refusal_as_str refusal +:+ "): " +:+ text
  | NotIndependent text => text
  | ClaimTransport err => runner_error_text err
  end.

Section claiming.
Context `{Rep : Reports} (debug : RunnerOpResult -> string).
(** The Runner's socket and the operations database that it is claimed for. *)
Context (socket store_id : string).

(** * The tasks' state

    [cm_started] and [cm_returned]: [claim_independent] or [connect] was called, and returned the
    client.
    [cm_loops]: the loops that claim the Runner again and wait for their next round, each with its
    pause; [cm_claiming]: the tasks that have such a loop in hand, as they found the connection lost
    and have yet to start it, or are in a round of it that has not ended the claiming;
    [cm_readers]: the connections whose reader waits for its next frame. *)
Record Claiming := mkClaiming {
  cm_client : Client;
  cm_now : Z;
  cm_started : bool;
  cm_returned : bool;
  cm_loops : list Z;
  cm_claiming : nat;
  cm_readers : list nat
}.
Implicit Types s : Claiming.

Definition claiming_start (now : Z) : Claiming := mkClaiming client_new now false false [] 0 [].

Definition with_client (c : Client) s : Claiming :=
  mkClaiming c (cm_now s) (cm_started s) (cm_returned s) (cm_loops s) (cm_claiming s) (cm_readers s).
Definition with_loops (loops : list Z) s : Claiming :=
  mkClaiming (cm_client s) (cm_now s) (cm_started s) (cm_returned s) loops (cm_claiming s) (cm_readers s).
Definition with_claiming (claiming : nat) s : Claiming :=
  mkClaiming (cm_client s) (cm_now s) (cm_started s) (cm_returned s) (cm_loops s) claiming (cm_readers s).
Definition with_readers (readers : list nat) s : Claiming :=
  mkClaiming (cm_client s) (cm_now s) (cm_started s) (cm_returned s) (cm_loops s) (cm_claiming s) readers.
Definition started s : Claiming :=
  mkClaiming (cm_client s) (cm_now s) true (cm_returned s) (cm_loops s) (cm_claiming s) (cm_readers s).
Definition returned_client s : Claiming :=
  mkClaiming (cm_client s) (cm_now s) (cm_started s) true (cm_loops s) (cm_claiming s) (cm_readers s).
Definition tick (now : Z) s : Claiming :=
  mkClaiming (cm_client s) (Z.max (cm_now s) now) (cm_started s) (cm_returned s) (cm_loops s)
    (cm_claiming s) (cm_readers s).

(** A task takes the loop in hand, hands it on to its next round, or is done with it. *)
Definition take_loop s : Claiming := with_claiming (S (cm_claiming s)) s.
Definition drop_loop s : Claiming := with_claiming (Nat.pred (cm_claiming s)) s.
Definition wait_for_round (backoff : Z) s : Claiming := drop_loop (with_loops (cm_loops s ++ [backoff]) s).

(** [CqConnect]: [UnixStream::connect], which says whether nothing accepts connections there.
    [CqWrite]: [write_envelope], with whether its error came after the first byte. [CqAnswered]:
    whether the request's channel had its answer before the deadline. [CqRead]: [read_frame], with
    what [serde_json] made of it. [CqDisconnected]: [on_disconnect]. [CqTell]: the observer. *)
Inductive Fetched := FetchedEnvelope (e : WireEnvelope) | FetchedInvalid (err : string) | FetchedEnd.
Inductive ClientQuery :=
  | CqConnect
  | CqWrite (link : nat) (e : WireEnvelope)
  | CqAnswered (id : string)
  | CqRead (link : nat)
  | CqDisconnected
  | CqTell (event : LinkEvent).

Definition ClientReply (q : ClientQuery) : Type :=
  match q with
  | CqConnect => result (bool * string) unit
  | CqWrite _ _ => result (string * bool) unit
  | CqAnswered _ => bool
  | CqRead _ => Fetched
  | CqDisconnected | CqTell _ => unit
  end.

Abbreviation tasking := (call Claiming ClientQuery ClientReply).
Abbreviation asking q := (ask (State := Claiming) (Answer := ClientReply) q).
Abbreviation done_with a := (@Return Claiming ClientQuery ClientReply _ a).

Definition on_client (f : Client -> Client) : tasking unit := update (fun s => with_client (f (cm_client s)) s).
Definition of_client {A} (f : Client -> A) : tasking A := look (fun s => f (cm_client s)).

(** [tokio::time::sleep]. *)
Definition sleep (d : Z) : tasking unit :=
  due ← look (fun s => cm_now s + d)%Z;
  await (fun s => if bool_decide (due <= cm_now s)%Z then Some (tt, s) else None).

(** * Connections *)

Definition lost_now (before after : Client) : bool :=
  match ct_state before, ct_state after with Linked _, Reclaiming => true | _, _ => false end.

Definition start_reclaim (link : nat) : tasking unit :=
  lost ← turn (fun s => let c := Client.start_reclaim (cm_client s) link in
                        let lost := lost_now (cm_client s) c in
                        let s := with_client c s in (lost, if lost then take_loop s else s));
  if (lost : bool) then
    _ ← asking (CqTell LinkLost);
    update (wait_for_round RECLAIM_BACKOFF_START)
  else done_with tt.

Definition close_link (link : nat) : tasking unit :=
  _ ← on_client (fun c => stop_writing c link);
  _ ← on_client (fun c => fail_pending c link (TransportAmbiguous "runner socket closed"));
  start_reclaim link.

Definition the_link (c : Client) : option nat := match ct_state c with Linked link => Some link | _ => None end.
Definition set_leaving (c : Client) : Client := with_flags c (ct_reclaim c) true.

Definition close : tasking unit :=
  _ ← on_client set_leaving;
  link ← of_client the_link;
  match link with Some link => close_link link | None => done_with tt end.

(** A new connection and its reader. *)
Definition open_link s : nat * Claiming :=
  let (link, c) := Client.open_link (cm_client s) in
  (link, with_readers (cm_readers s ++ [link]) (with_client c s)).

Definition connect_link s : nat * Claiming :=
  let (link, s) := open_link s in (link, with_client (with_state (cm_client s) (Linked link)) s).

Definition take_response (id : string) s : option (result RunnerError RunnerOpResult * Claiming) :=
  match take_answer (cm_client s) id with
  | (Some answer, c) => Some (answer, with_client c s)
  | (None, _) => None
  end.

Definition send_over (link : nat) (op : RunnerOp) (epoch : option Z) s : (string * WireEnvelope) * Claiming :=
  let '(id, e, c) := call_on (cm_client s) link op epoch in ((id, e), with_client c s).

Definition unsent (link : nat) (id text : string) (began : bool) s : RunnerError * Claiming :=
  let (err, c) := write_failed (cm_client s) link id text began in (err, with_client c s).

Definition call_over_link (link : nat) (op : RunnerOp) (epoch : option Z)
    : tasking (result RunnerError RunnerOpResult) :=
  sent ← turn (send_over link op epoch);
  written ← asking (CqWrite link sent.2);
  match (written : result (string * bool) unit) with
  | Err (text, began) => err ← turn (unsent link sent.1 text began); done_with (Err err)
  | Ok _ =>
      answered ← asking (CqAnswered sent.1);
      if (answered : bool) then await (take_response sent.1)
      else
        _ ← close_link link;
        done_with (Err (TransportAmbiguous "runner call deadline exceeded"))
  end.

(** [UdsRunner::call], over the client's connection; [epoch] is the handle's own. *)
Definition call_runner (epoch : option Z) (op : RunnerOp) : tasking (result RunnerError RunnerOpResult) :=
  over ← of_client (call_over epoch);
  match over with
  | Ok (link, epoch) => call_over_link link op epoch
  | Err err => done_with (Err err)
  end.

(** * The Claim *)

Definition claim_on (link : nat) : tasking (result ClaimError RunnerClaim) :=
  answer ← call_over_link link (RqClaim store_id) None;
  match answer with
  | Ok (ResClaimed claim) => _ ← on_client (fun c => set_claim c link claim); done_with (Ok claim)
  | Ok (ResClaimRefused refusal text) => done_with (Err (ClaimRefusedBy refusal text))
  | Ok other => done_with (Err (ClaimTransport (unexpected debug other)))
  | Err err => done_with (Err (ClaimTransport err))
  end.

Definition claim : tasking (result ClaimError RunnerClaim) :=
  link ← of_client current;
  match link with
  | Err err => done_with (Err (ClaimTransport err))
  | Ok link =>
      claimed ← claim_on link;
      match claimed with
      | Ok claim => _ ← on_client (fun c => with_watches c (Some claim) (ct_lost c)); done_with (Ok claim)
      | Err err => done_with (Err err)
      end
  end.

(** What a [Hello] of this protocol states. *)
Definition stated_hello (r : RunnerOpResult) : option (RunnerHello * Stated) :=
  match r with
  | ResHello protocol lifecycle identity registration admission launch =>
      if bool_decide (protocol = WIRE_PROTOCOL)
      then Some (mkRunnerHello lifecycle identity, mkStated registration admission launch) else None
  | _ => None
  end.

Definition set_hello (hello : RunnerHello) (stated : Stated) (c : Client) : Client :=
  with_hello c (match ct_hello c with Some h => Some h | None => Some hello end) stated.

Definition handshake : tasking (result RunnerError unit) :=
  answer ← call_runner None RqHello;
  match answer with
  | Ok r =>
      match stated_hello r with
      | Some (hello, stated) => _ ← on_client (set_hello hello stated); done_with (Ok tt)
      | None =>
          _ ← close;
          done_with (Err (TransportBeforeDispatch ("unexpected runner hello result: " +:+ debug r)))
      end
  | Err (TransportBeforeDispatch text) => done_with (Err (TransportBeforeDispatch text))
  | Err (TransportAmbiguous text) => _ ← close; done_with (Err (TransportBeforeDispatch text))
  | Err (RunnerExecution body) => _ ← close; done_with (Err (TransportBeforeDispatch (message body)))
  end.

Definition same_runner_over (link : nat) : tasking (result Attempt unit) :=
  answer ← call_over_link link RqHello None;
  of_client (fun c => same_runner debug c answer runner_error_text).

Definition independent_hello (hello : RunnerHello) : result ClaimError unit :=
  if bool_decide (rh_lifecycle hello <> Independent)
  then Err (NotIndependent ("the worker at " +:+ socket +:+ " is " +:+ lifecycle_as_str (rh_lifecycle hello)
                            +:+ ", not an independent Runner"))
  else match rh_identity hello with
       | None => Err (NotIndependent ("the Runner at " +:+ socket +:+ " did not state its identity"))
       | Some _ => Ok tt
       end.

Definition hello_known (c : Client) : bool := match ct_hello c with Some _ => true | None => false end.

Definition same_hello : tasking (result ClaimError unit) :=
  link ← of_client current;
  match link with
  | Err err => done_with (Err (ClaimTransport err))
  | Ok link =>
      same ← same_runner_over link;
      done_with (match same with
                 | Ok _ => Ok tt
                 | Err (Retry text) => Err (ClaimTransport (TransportBeforeDispatch text))
                 | Err (AttemptGone text) | Err (AttemptLost text) => Err (NotIndependent text)
                 end)
  end.

Definition first_or_same_hello : tasking (result ClaimError unit) :=
  known ← of_client hello_known;
  if negb known then
    shaken ← handshake;
    match shaken with
    | Err err => done_with (Err (ClaimTransport err))
    | Ok _ => of_client (fun c => independent_hello (default runner_hello_default (ct_hello c)))
    end
  else same_hello.

(** Whether another try to claim can succeed; [known] is whether the Runner's [Hello] is. *)
Definition claim_again (known : bool) (err : ClaimError) : bool :=
  match err with
  | ClaimRefusedBy refusal _ => is_transient refusal
  | ClaimTransport _ => known
  | NotIndependent _ => false
  end.

Definition retry_reason (err : ClaimError) : string :=
  match err with ClaimRefusedBy _ text => text | _ => claim_error_text err end.

Definition next_backoff (backoff : Z) : Z := Z.min (backoff * 2) RECLAIM_BACKOFF_MAX.

Definition arm (c : Client) : Client := with_flags c true (ct_leaving c).

(** The loop of [claim_independent], with a fuel that it never uses up. *)
Fixpoint claim_independent_by (fuel : nat) (deadline backoff : Z)
    : tasking (option (result ClaimError RunnerClaim)) :=
  match fuel with
  | 0 => done_with None
  | S fuel =>
      connected ← asking CqConnect;
      match (connected : result (bool * string) unit) with
      | Err (_, err) =>
          done_with (Some (Err (ClaimTransport (TransportBeforeDispatch
            ("connect " +:+ socket +:+ ": " +:+ err)))))
      | Ok _ =>
          link ← turn connect_link;
          hello ← first_or_same_hello;
          claimed ← (match hello with Ok _ => claim | Err err => done_with (Err err) end);
          match claimed with
          | Ok claimed =>
              _ ← on_client arm;
              living ← of_client (fun c => alive c link);
              _ ← (if (living : bool) then done_with tt else start_reclaim link);
              done_with (Some (Ok claimed))
          | Err err =>
              in_time ← look (fun s => bool_decide (cm_now s + backoff < deadline)%Z);
              known ← of_client hello_known;
              if in_time && claim_again known err then
                _ ← asking (CqTell (LinkRetrying (retry_reason err) backoff));
                _ ← close_link link;
                _ ← sleep backoff;
                claim_independent_by fuel deadline (next_backoff backoff)
              else
                _ ← on_client set_leaving;
                _ ← close_link link;
                done_with (Some (Err err))
          end
      end
  end.

(** Two tries more than the shortest pauses leave room for in the bound. *)
Definition CLAIM_TRIES : nat := Z.to_nat (CLAIM_START_BOUND / RECLAIM_BACKOFF_START) + 2.

Definition claim_independent : tasking (option (result ClaimError RunnerClaim)) :=
  deadline ← look (fun s => cm_now s + CLAIM_START_BOUND)%Z;
  claim_independent_by CLAIM_TRIES deadline RECLAIM_BACKOFF_START.

(** [UdsRunner::connect]. *)
Definition connect : tasking (result RunnerError unit) :=
  connected ← asking CqConnect;
  match (connected : result (bool * string) unit) with
  | Err (_, err) => done_with (Err (TransportBeforeDispatch err))
  | Ok _ => _ ← turn connect_link; handshake
  end.

(** * Claiming the Runner again *)

(** What [link_and_claim] makes of the errors of a Claim. *)
Definition attempt_of (err : ClaimError) : Attempt :=
  match err with
  | ClaimRefusedBy refusal text => if is_transient refusal then Retry text else AttemptGone text
  | err => Retry (claim_error_text err)
  end.

Definition claim_new_link : tasking (result Attempt (nat * RunnerClaim)) :=
  link ← turn open_link;
  same ← same_runner_over link;
  claimed ← (match same with
             | Ok _ =>
                 claimed ← claim_on link;
                 done_with (match claimed with Ok claim => Ok claim | Err err => Err (attempt_of err) end)
             | Err attempt => done_with (Err attempt)
             end);
  match claimed with
  | Ok claim => done_with (Ok (link, claim))
  | Err attempt => _ ← close_link link; done_with (Err attempt)
  end.

Definition link_and_claim : tasking (result Attempt (nat * RunnerClaim)) :=
  connected ← asking CqConnect;
  match (connected : result (bool * string) unit) with
  | Err (nobody, err) =>
      done_with (Err (if nobody
        then AttemptLost ("nothing accepts connections at " +:+ socket +:+ ": " +:+ err)
        else Retry ("connect " +:+ socket +:+ ": " +:+ err)))
  | Ok _ => claim_new_link
  end.

Definition next_loop s : option (Z * Claiming) :=
  match cm_loops s with [] => None | backoff :: loops => Some (backoff, take_loop (with_loops loops s)) end.

Definition leave_reclaiming s : bool * Claiming :=
  if ct_leaving (cm_client s)
  then (true, drop_loop (with_client (with_state (cm_client s) left_the_runner) s))
  else (false, s).

Definition end_round (outcome : result Attempt (nat * RunnerClaim)) s : bool * Claiming :=
  (negb (ct_leaving (cm_client s)), drop_loop (with_client (reclaim_round (cm_client s) outcome) s)).

(** One round of [reclaim_loop]; the loop waits for its next one with its next pause. *)
Definition reclaim_turn : tasking unit :=
  backoff ← await next_loop;
  left ← turn leave_reclaiming;
  if (left : bool) then done_with tt
  else
    outcome ← link_and_claim;
    match outcome with
    | Ok (link, claim) =>
        linked ← turn (end_round outcome);
        if (linked : bool) then _ ← asking (CqTell (LinkReclaimed claim)); done_with tt
        else
          _ ← call_over_link link RqDetach (Some (cl_epoch claim));
          close_link link
    | Err (AttemptGone reason) =>
        _ ← turn (end_round outcome); _ ← asking (CqTell (LinkGone reason)); done_with tt
    | Err (AttemptLost reason) =>
        _ ← turn (end_round outcome); _ ← asking (CqTell (LinkRunnerLost reason)); done_with tt
    | Err (Retry reason) =>
        _ ← asking (CqTell (LinkRetrying reason backoff));
        _ ← sleep backoff;
        update (wait_for_round (next_backoff backoff))
    end.

(** * A connection's reader *)

Definition next_reader s : option (nat * Claiming) :=
  match cm_readers s with [] => None | link :: readers => Some (link, with_readers readers s) end.

Definition reader_ends (link : nat) (reason : string) : tasking unit :=
  _ ← on_client (fun c => fail_pending c link (TransportAmbiguous reason));
  _ ← on_client (fun c => stop_writing c link);
  _ ← asking CqDisconnected;
  start_reclaim link.

(** One frame of [read_loop]. *)
Definition reader_turn : tasking unit :=
  link ← await next_reader;
  received ← asking (CqRead link);
  match (received : Fetched) with
  | FetchedEnvelope e =>
      update (fun s => with_readers (cm_readers s ++ [link]) (with_client (read_envelope (cm_client s) link e) s))
  | FetchedInvalid err => reader_ends link ("invalid runner rpc: " +:+ err)
  | FetchedEnd => reader_ends link "runner socket closed"
  end.

(** * What callers ask of the Runner *)

Definition expect {A} (decode : RunnerOpResult -> option A) (answer : result RunnerError RunnerOpResult)
    : result RunnerError A :=
  r ← answer; ok_or (unexpected debug r) (decode r).

Definition detach (epoch : option Z) : tasking (result RunnerError unit) :=
  _ ← on_client set_leaving;
  answer ← call_runner epoch RqDetach;
  _ ← close;
  done_with (expect (fun r => match r with ResDetached => Some tt | _ => None end) answer).

Definition stop_runner (epoch : option Z) : tasking (result RunnerError (Z * list InventoryEntry)) :=
  _ ← on_client set_leaving;
  answer ← call_runner epoch RqStop;
  _ ← close;
  done_with (expect (fun r => match r with
                              | ResStopped terminated processes => Some (terminated, processes)
                              | _ => None end) answer).

Definition recall (epoch : option Z) (ids : list string) : tasking (result RunnerError (list RecalledProcess)) :=
  answer ← call_runner epoch (RqRecall ids);
  done_with (expect (fun r => match r with
                              | ResRecalled recalled =>
                                  if bool_decide (length recalled = length ids) then Some recalled else None
                              | _ => None end) answer).

Definition reconciled (epoch : option Z) (workspaces : list string) : tasking (result RunnerError unit) :=
  answer ← call_runner epoch (RqReconciled workspaces);
  done_with (expect (fun r => match r with ResReconciled => Some tt | _ => None end) answer).

Definition acknowledge (epoch : option Z) (ids : list string) : tasking (result RunnerError unit) :=
  answer ← call_runner epoch (RqAcknowledge ids);
  done_with (expect (fun r => match r with ResAcknowledged => Some tt | _ => None end) answer).

Definition look_up_attempts (epoch : option Z) (attempts : list AttemptRef)
    : tasking (result RunnerError (list AttemptLookup)) :=
  answer ← call_runner epoch (RqLookup attempts);
  done_with (expect (fun r => match r with
                              | ResLookedUp found =>
                                  if bool_decide (length found = length attempts) then Some found else None
                              | _ => None end) answer).

(** * All of it at once *)

Inductive ClientTool :=
  | ConnectWorker | ClaimIndependent | ReaderTurn | ReclaimTurn | CloseClient
  | CallRunner (epoch : option Z) (op : RunnerOp)
  | DetachRunner (epoch : option Z) | StopRunner (epoch : option Z)
  | RecallProcesses (epoch : option Z) (ids : list string)
  | ReconciledWorkspaces (epoch : option Z) (workspaces : list string)
  | AcknowledgeProcesses (epoch : option Z) (ids : list string)
  | LookUpAttempts (epoch : option Z) (attempts : list AttemptRef).

Definition start_claiming s : option (unit * Claiming) :=
  if cm_started s then None else Some (tt, started s).

(** The client is given to its callers once it was claimed. *)
Definition with_handle {A} (c : tasking A) : tasking unit :=
  _ ← await (fun s => if cm_returned s then Some (tt, s) else None);
  _ ← c;
  done_with tt.

Definition claim_first : tasking unit :=
  _ ← await start_claiming;
  claimed ← claim_independent;
  match claimed with
  | Some (Ok _) => update returned_client
  | _ => done_with tt
  end.

Definition connect_first : tasking unit :=
  _ ← await start_claiming;
  connected ← connect;
  match connected with Ok _ => update returned_client | Err _ => done_with tt end.

Definition client_serve (t : ClientTool) : tasking unit :=
  match t with
  | ConnectWorker => connect_first
  | ClaimIndependent => claim_first
  | ReaderTurn => reader_turn
  | ReclaimTurn => reclaim_turn
  | CloseClient => with_handle close
  | CallRunner epoch op => with_handle (call_runner epoch op)
  | DetachRunner epoch => with_handle (detach epoch)
  | StopRunner epoch => with_handle (stop_runner epoch)
  | RecallProcesses epoch ids => with_handle (recall epoch ids)
  | ReconciledWorkspaces epoch workspaces => with_handle (reconciled epoch workspaces)
  | AcknowledgeProcesses epoch ids => with_handle (acknowledge epoch ids)
  | LookUpAttempts epoch attempts => with_handle (look_up_attempts epoch attempts)
  end.

Definition client_pool (now : Z) :=
  pool_reachable client_serve (fun t s s' => s' = tick t s) (fun _ _ => False) (claiming_start now).

(** * The tasks do what the client's events do, and one loop at most claims the Runner again *)

Definition reclaiming (c : Client) : nat := match ct_state c with Reclaiming => 1 | _ => 0 end.

Definition runs_on (c c' : Client) : Prop := exists evs, c' = client_runs evs c.

Lemma runs_on_event ev c : runs_on c (client_run ev c).
Proof. by exists [ev]. Qed.
Lemma runs_on_refl c : runs_on c c.
Proof. by exists []. Qed.
Lemma runs_on_trans c1 c2 c3 : runs_on c1 c2 -> runs_on c2 c3 -> runs_on c1 c3.
Proof. intros [evs1 ->] [evs2 ->]. exists (evs1 ++ evs2). unfold client_runs. by rewrite foldl_app. Qed.

Record claiming_ok s : Prop := {
  co_runs : runs_on client_new (cm_client s);
  co_start : cm_started s = false ->
    cm_client s = client_new /\ cm_returned s = false /\ cm_loops s = [] /\ cm_claiming s = 0 /\ cm_readers s = []
}.

(** [claim_independent] and [connect] before the first [Hello], after it, once the client is set to
    claim again, and once it gave up. *)
Inductive JoinPhase := JoinNew | JoinKnown | JoinArmed | JoinLeft.

(** What a call has of the client: the joining of the Runner, or a loop that claims it again; and
    what it knows: that the client was started, and was given to its callers. *)
Record Stake := mkStake {
  sk_join : option JoinPhase;
  sk_loop : bool;
  sk_inside : bool;
  sk_caller : bool
}.
Definition no_stake : Stake := mkStake None false false false.

Definition joins (l : Stake) : bool := match sk_join l with Some _ => true | None => false end.
Definition joining s : bool := cm_started s && negb (cm_returned s).
Definition join_view s := (ct_hello (cm_client s), ct_reclaim (cm_client s), ct_leaving (cm_client s)).

Definition phase_ok s (p : JoinPhase) : Prop :=
  match p with
  | JoinNew => join_view s = (None, false, false)
  | JoinKnown => exists hello, join_view s = (Some hello, false, false)
  | JoinArmed => True
  | JoinLeft => exists reclaim leaving, join_view s = (None, reclaim, leaving)
  end.

Record stake_ok s (l : Stake) : Prop := {
  so_join p : sk_join l = Some p -> phase_ok s p;
  so_inside : sk_inside l = true -> cm_started s = true;
  so_caller : sk_caller l = true -> cm_returned s = true
}.

Definition loops_of (l : Stake) : nat := if sk_loop l then 1 else 0.
Definition owners (L : list Stake) : nat := sum_list_with loops_of L.

Definition claiming_inv s (_ : list (Threads.event ClientReply ClientTool Z)) (L : list Stake) : Prop :=
  claiming_ok s /\ Forall (stake_ok s) L /\ owners L = cm_claiming s /\
  length (cm_loops s) + cm_claiming s = reclaiming (cm_client s) /\ sole joins (joining s) L.

Lemma owners_insert (L : list Stake) i l l' :
  L !! i = Some l -> owners (<[i := l']> L) + loops_of l = owners L + loops_of l'.
Proof.
  unfold owners. revert i. induction L as [|l0 L IH]; intros [|i] Hi; [done..|injection Hi as ->|].
  - change (<[0 := l']> (l :: L)) with (l' :: L). cbn [sum_list_with]. lia.
  - specialize (IH i Hi). change (<[S i := l']> (l0 :: L)) with (l0 :: <[i := l']> L). cbn [sum_list_with]. lia.
Qed.

Lemma owner_reclaims s log (L : list Stake) i l :
  claiming_inv s log L -> L !! i = Some l -> sk_loop l = true -> ct_state (cm_client s) = Reclaiming.
Proof.
  intros (_ & _ & Hcl & Hn & _) Hi Hl. pose proof (owners_insert L i l no_stake Hi) as Ho.
  change (loops_of no_stake) with 0 in Ho. unfold loops_of in Ho. rewrite Hl in Ho. unfold reclaiming in Hn. destruct (ct_state (cm_client s)); lia || done.
Qed.

(** One turn: how the state and the call's stake change. *)
Record step_ok s s' (l l' : Stake) : Prop := {
  st_ok : claiming_ok s';
  st_stake : stake_ok s' l';
  st_loops : length (cm_loops s') + loops_of l' + reclaiming (cm_client s)
             = length (cm_loops s) + loops_of l + reclaiming (cm_client s');
  st_claiming : loops_of l <= cm_claiming s -> cm_claiming s' + loops_of l = cm_claiming s + loops_of l';
  st_join : minds joins join_view joining s s' l l';
  st_started : cm_started s = true -> cm_started s' = true;
  st_returned : cm_returned s = true -> cm_returned s' = true
}.

Lemma phase_view s s' p : join_view s' = join_view s -> phase_ok s p -> phase_ok s' p.
Proof. intros Hv. destruct p; cbn [phase_ok]; by rewrite ?Hv. Qed.

Lemma claiming_inv_step s s' log log' (L : list Stake) i l l' :
  claiming_inv s log L -> L !! i = Some l -> step_ok s s' l l' -> claiming_inv s' log' (<[i := l']> L).
Proof.
  intros (_ & Hstakes & Hcl & Hn & Hj) Hi [Hok Hstake Hloops Hclaim Hmj Hst Hre].
  pose proof (owners_insert L i l l' Hi) as Ho.
  assert (Hle : loops_of l <= cm_claiming s).
  { pose proof (owners_insert L i l no_stake Hi) as Hno. change (loops_of no_stake) with 0 in Hno. lia. }
  specialize (Hclaim Hle). split_and!; [done| | | |].
  - apply Forall_lookup. intros j lj Hjl. destruct (decide (j = i)) as [->|Hne].
    { rewrite list_lookup_insert_eq in Hjl by (by eapply lookup_lt_Some). by injection Hjl as <-. }
    rewrite list_lookup_insert_ne in Hjl by done.
    destruct (Forall_lookup_1 _ _ _ _ Hstakes Hjl) as [Hp Hin Hcall]. split; [|auto..].
    intros p Hpj. assert (Hhas : joins lj = true) by (unfold joins; by rewrite Hpj).
    eapply phase_view, Hp, Hpj. exact (minds_others _ _ _ _ _ _ _ _ _ _ _ Hmj Hj Hi Hjl Hne Hhas).
  - lia.
  - lia.
  - eapply minds_sole; [done..|]. apply (proj2 Hj i l Hi).
Qed.

(** Only the joining and a loop that claims the Runner again connect to its socket. *)
Definition connects (q : ClientQuery) : bool := match q with CqConnect => true | _ => false end.
Definition may_connect (l : Stake) : Prop :=
  sk_loop l = true \/ sk_join l = Some JoinNew \/ sk_join l = Some JoinKnown.
Definition claiming_awaits (q : ClientQuery) (l : Stake) : Prop := connects q = true -> may_connect l.

Abbreviation keeps_claiming := (upholds (Tool := ClientTool) (Other := Z) claiming_inv claiming_awaits).

Lemma joining_step {A B} i (Q : A -> Stake -> Prop) (step : Claiming -> option (B * Claiming)) k l :
  (forall s b s', claiming_ok s -> stake_ok s l ->
     (sk_loop l = true -> ct_state (cm_client s) = Reclaiming) -> (joins l = true -> joining s = true) ->
     step s = Some (b, s') ->
     exists l', step_ok s s' l l' /\ keeps_claiming i Q (k b) l') ->
  keeps_claiming i Q (Threads.Turn step k) l.
Proof.
  intros Hstep s log L b s' HI Hi Hs. pose proof HI as (Hok & Hstakes & _ & _ & _ & Hj).
  destruct (Hstep s b s') as (l' & Ht & Hk);
    [done|by eapply Forall_lookup_1|by eapply owner_reclaims|by apply (Hj i)|done|].
  exists l'. split; [by eapply claiming_inv_step|done].
Qed.

Lemma claiming_step {A B} i (Q : A -> Stake -> Prop) (step : Claiming -> option (B * Claiming)) k l :
  (forall s b s', claiming_ok s -> stake_ok s l ->
     (sk_loop l = true -> ct_state (cm_client s) = Reclaiming) -> step s = Some (b, s') ->
     exists l', step_ok s s' l l' /\ keeps_claiming i Q (k b) l') ->
  keeps_claiming i Q (Threads.Turn step k) l.
Proof. intros Hstep. apply joining_step. intros s b s' Hok Hst Hown _. by apply Hstep. Qed.

Lemma claiming_asks {A} i (Q : A -> Stake -> Prop) q (k : ClientReply q -> tasking A) l :
  (connects q = true -> may_connect l) ->
  (forall a, keeps_claiming i Q (k a) l) -> keeps_claiming i Q (Ask q k) l.
Proof.
  intros Hq Hk s log L HI Hi. exists l. rewrite list_insert_id by done. split_and!; [exact HI|exact Hq|].
  intros a s' log' L' HI' Hi'. exists l. rewrite list_insert_id by done. split; [exact HI'|apply Hk].
Qed.

(** A turn of a task that is under way and leaves alone what the stakes are about. *)
Record plain s s' : Prop := {
  pl_runs : runs_on (cm_client s) (cm_client s');
  pl_view : join_view s' = join_view s;
  pl_started : cm_started s' = cm_started s;
  pl_returned : cm_returned s' = cm_returned s;
  pl_loops : cm_loops s' = cm_loops s;
  pl_claiming : cm_claiming s' = cm_claiming s;
  pl_reclaiming : reclaiming (cm_client s') = reclaiming (cm_client s)
}.

Lemma plain_step s s' l :
  claiming_ok s -> stake_ok s l -> sk_inside l = true -> plain s s' -> step_ok s s' l l.
Proof.
  intros [Hr Hs0] [Hp Hin Hc] Hl [Hruns Hv Hst Hre Hlo Hcl Hrec]. specialize (Hin Hl). split.
  - split; [by eapply runs_on_trans|]. rewrite Hst, Hin. done.
  - split; [|by rewrite Hst|by rewrite Hre]. intros p Hpj. by eapply phase_view, Hp.
  - rewrite Hlo, Hrec. done.
  - by rewrite Hcl.
  - left. unfold joining. by rewrite Hst, Hre.
  - by rewrite Hst.
  - by rewrite Hre.
Qed.

Lemma plain_keeps {A} i (Q : A -> Stake -> Prop) (c : tasking A) l :
  along plain (fun q => connects q = false) c -> sk_inside l = true -> (forall a, Q a l) -> keeps_claiming i Q c l.
Proof.
  intros Hc Hl HQ. induction c as [a|B step k IH|q k IH]; cbn in Hc; [apply HQ|..].
  - apply claiming_step. intros s b s' Hok Hst _ Hs. exists l.
    destruct Hc as [Hstep Hk]. split; [|by apply IH]. apply plain_step; [done..|by eapply Hstep].
  - apply claiming_asks; [by rewrite (proj1 Hc)|]. intros a. apply IH, Hc.
Qed.

(** ** Tasks that leave their stake as it is *)

Definition under (P : Stake -> Prop) {A} (c : tasking A) : Prop :=
  forall i (Q : A -> Stake -> Prop) l, P l -> (forall a, Q a l) -> keeps_claiming i Q c l.

Definition inside (l : Stake) : Prop := sk_inside l = true.

Lemma under_bind P {A B} (c : tasking A) (f : A -> tasking B) :
  under P c -> (forall a, under P (f a)) -> under P (c ≫= f).
Proof. intros Hc Hf i Q l Hl HQ. apply upholds_bind, Hc; [done|]. intros a. by apply Hf. Qed.

Lemma under_return P {A} (a : A) : under P (done_with a).
Proof. intros i Q l _ HQ. apply HQ. Qed.

Lemma under_ask P q : connects q = false -> under P (asking q).
Proof. intros Hq i Q l _ HQ. apply claiming_asks; [by rewrite Hq|apply HQ]. Qed.

Lemma under_plain P {A} (c : tasking A) :
  (forall l, P l -> inside l) -> along plain (fun q => connects q = false) c -> under P c.
Proof. intros HP Hc i Q l Hl HQ. by apply plain_keeps; [..|apply HP|]. Qed.

Lemma under_weaken P P' {A} (c : tasking A) : (forall l, P' l -> P l) -> under P c -> under P' c.
Proof. intros HP Hc i Q l Hl HQ. by apply Hc; [apply HP|]. Qed.

Lemma plain_same s : plain s s.
Proof. split; try done. apply runs_on_refl. Qed.

Lemma plain_event ev s readers :
  join_view (with_client (client_run ev (cm_client s)) s) = join_view s ->
  ct_state (client_run ev (cm_client s)) = ct_state (cm_client s) ->
  plain s (with_readers readers (with_client (client_run ev (cm_client s)) s)).
Proof.
  intros Hv Hst. split; try done; [apply runs_on_event|]. cbn. unfold reclaiming. by rewrite Hst.
Qed.

Lemma plain_client ev s :
  join_view (with_client (client_run ev (cm_client s)) s) = join_view s ->
  ct_state (client_run ev (cm_client s)) = ct_state (cm_client s) ->
  plain s (with_client (client_run ev (cm_client s)) s).
Proof. apply (plain_event ev s (cm_readers s)). Qed.

Lemma under_look {A} (f : Claiming -> A) : under inside (look f).
Proof. apply under_plain; [done|]. cbn. split; [|done]. intros s b s' [= _ <-]. apply plain_same. Qed.

Lemma under_update (f : Claiming -> Claiming) : (forall s, plain s (f s)) -> under inside (update f).
Proof. intros Hf. apply under_plain; [done|]. cbn. split; [|done]. intros s b s' [= _ <-]. apply Hf. Qed.

Lemma under_await {A} (f : Claiming -> option (A * Claiming)) :
  (forall s a s', f s = Some (a, s') -> plain s s') -> under inside (await f).
Proof. intros Hf. apply under_plain; [done|]. cbn. split; [|done]. apply Hf. Qed.

Lemma under_turn {A} (f : Claiming -> A * Claiming) :
  (forall s, plain s (f s).2) -> under inside (turn f).
Proof.
  intros Hf. apply under_plain; [done|]. cbn. split; [|done]. intros s b s' [= Hs]. specialize (Hf s).
  by rewrite Hs in Hf.
Qed.

Lemma under_sleep d : under inside (sleep d).
Proof.
  apply under_bind; [apply under_look|]. intros due. apply under_await. intros s a s'.
  case_bool_decide; [|done]. intros [= _ <-]. apply plain_same.
Qed.

Definition with_loop (l : Stake) : Stake := mkStake (sk_join l) true (sk_inside l) (sk_caller l).

Lemma start_reclaim_lost c link :
  if lost_now c (Client.start_reclaim c link)
  then reclaiming c = 0 /\ reclaiming (Client.start_reclaim c link) = 1
  else ct_state (Client.start_reclaim c link) = ct_state c.
Proof.
  unfold lost_now, Client.start_reclaim, reclaiming.
  destruct (negb (ct_reclaim c) || ct_leaving c); [by destruct (ct_state c)|].
  destruct (ct_state c) eqn:Hc; rewrite ?Hc; try done. case_bool_decide; cbn; by rewrite ?Hc.
Qed.

Lemma start_reclaim_view s link :
  join_view (with_client (Client.start_reclaim (cm_client s) link) s) = join_view s.
Proof. cbn. unfold join_view, Client.start_reclaim. cbn. by repeat case_match. Qed.

Lemma under_start_reclaim link : under inside (start_reclaim link).
Proof.
  intros i Q l Hl HQ. unfold start_reclaim, turn. cbn [mbind call_bind]. apply claiming_step.
  intros s lost s' Hok Hst Hown [= <- <-]. pose proof (start_reclaim_lost (cm_client s) link) as Hlost.
  pose proof (start_reclaim_view s link) as Hv.
  destruct (lost_now _ _).
  - destruct Hlost as [H0 H1]. exists (with_loop l).
    assert (Hfree : sk_loop l = false).
    { destruct (sk_loop l); [|done]. unfold reclaiming in H0. by rewrite Hown in H0. }
    split.
    { destruct Hok as [Hr Hs0], Hst as [Hp Hin Hcall]. split; try done.
      - split; [eapply runs_on_trans; [done|apply (runs_on_event (EvStartReclaim link))]|]. cbn. by rewrite Hin.
      - split; [|done..]. intros p Hpj. by eapply phase_view, Hp.
      - cbn. rewrite H0, H1. unfold loops_of. rewrite Hfree. cbn. lia.
      - cbn. unfold loops_of. rewrite Hfree. cbn. lia.
      - by left. }
    apply claiming_asks; [done|]. intros _. unfold update, turn. apply claiming_step. clear - Rep HQ Hl Hfree.
    intros s [] s' [Hr Hs0] [Hp Hin Hcall] Hown [= <-]. exists l. split; [|apply HQ]. split; try done.
    + split; [done|]. cbn. by rewrite Hin.
    + cbn. rewrite length_app. cbn. unfold loops_of. rewrite Hfree. cbn. lia.
    + cbn. unfold loops_of. rewrite Hfree. cbn. lia.
    + by left.
  - exists l. split; [|apply HQ]. apply plain_step; [done..|]. by apply (plain_client (EvStartReclaim link)).
Qed.

(** A turn of the client that is one of its events and leaves the stakes alone. *)
Lemma under_event (f : Client -> Client) ev :
  (forall c, f c = client_run ev c) ->
  (forall s, join_view (with_client (client_run ev (cm_client s)) s) = join_view s) ->
  (forall c, ct_state (client_run ev c) = ct_state c) -> under inside (on_client f).
Proof.
  intros Hf Hv Hs. apply under_update. intros s. rewrite Hf. by apply plain_client.
Qed.

Lemma under_stop_writing link : under inside (on_client (fun c => stop_writing c link)).
Proof. by apply (under_event _ (EvStopWriting link)). Qed.

Lemma under_fail_pending link err : under inside (on_client (fun c => fail_pending c link err)).
Proof. by apply (under_event _ (EvFailPending link err)). Qed.

Lemma under_set_claim link claim : under inside (on_client (fun c => set_claim c link claim)).
Proof. by apply (under_event _ (EvSetClaim link claim)). Qed.

Lemma under_claimed claim : under inside (on_client (fun c => with_watches c (Some claim) (ct_lost c))).
Proof. by apply (under_event _ (EvClaimed claim)). Qed.

Lemma under_send link op epoch : under inside (turn (send_over link op epoch)).
Proof. apply under_turn. intros s. by apply (plain_client (EvCall link op epoch)). Qed.

Lemma under_unsent link id text began : under inside (turn (unsent link id text began)).
Proof.
  apply under_turn. intros s. unfold unsent. destruct (write_failed _ _ _ _ _) as [err c] eqn:Hc.
  pose proof (f_equal snd Hc) as Hc'. cbn [snd] in Hc' |- *. rewrite <- Hc'.
  apply (plain_client (EvWriteFailed link id text began)); cbn; by destruct began.
Qed.

Lemma under_take id : under inside (await (take_response id)).
Proof.
  apply under_await. intros s a s' Hs. unfold take_response in Hs.
  destruct (take_answer (cm_client s) id) as [[answer|] c] eqn:Hc; [|done]. injection Hs as _ <-.
  pose proof (f_equal snd Hc) as Hc'. cbn [snd] in Hc'. rewrite <- Hc'. by apply (plain_client (EvTake id)).
Qed.

Lemma under_open_link : under inside (turn open_link).
Proof. apply under_turn. intros s. by apply (plain_event EvOpen). Qed.

Ltac under_one :=
  first [ apply under_return | match goal with |- under _ (ask ?q) => exact (under_ask _ q eq_refl) end | apply under_start_reclaim | apply under_sleep
        | apply under_stop_writing | apply under_fail_pending | apply under_set_claim
        | apply under_claimed | apply under_send | apply under_unsent | apply under_take
        | apply under_open_link | apply under_look | (apply under_bind; [|intros ?]) ].
Ltac under := repeat first [ under_one | case_match ].

Lemma under_close_link link : under inside (close_link link).
Proof. unfold close_link. under. Qed.

Lemma under_call_over_link link op epoch : under inside (call_over_link link op epoch).
Proof. unfold call_over_link. repeat first [apply under_close_link | under_one | case_match]. Qed.

Lemma under_call_runner epoch op : under inside (call_runner epoch op).
Proof. unfold call_runner. repeat first [apply under_call_over_link | under_one | case_match]. Qed.

Lemma under_claim_on link : under inside (claim_on link).
Proof. unfold claim_on. repeat first [apply under_call_over_link | under_one | case_match]. Qed.

Lemma under_claim : under inside claim.
Proof. unfold claim. repeat first [apply under_claim_on | under_one | case_match]. Qed.

Lemma under_same_runner link : under inside (same_runner_over link).
Proof. unfold same_runner_over. repeat first [apply under_call_over_link | under_one | case_match]. Qed.

(** A loop that is under way. *)
Definition looping (l : Stake) : Prop := sk_inside l = true /\ sk_loop l = true.

Lemma under_looping {A} (c : tasking A) : under inside c -> under looping c.
Proof. apply under_weaken. by intros l []. Qed.

Lemma under_link_and_claim : under looping link_and_claim.
Proof.
  intros i Q l [Hl Hloop] HQ. unfold link_and_claim. apply claiming_asks; [by left|]. intros a.
  assert (Hrest : under inside claim_new_link).
  { unfold claim_new_link.
    repeat first [apply under_same_runner | apply under_claim_on | apply under_close_link | under_one | case_match]. }
  destruct a as [[]|[]]; [by apply Hrest|apply HQ].
Qed.

Definition no_loop (_ : unit) (l : Stake) : Prop := sk_loop l = false.

(** ** The reader *)

Lemma reader_keeps i : keeps_claiming i no_loop reader_turn no_stake.
Proof.
  unfold reader_turn, await. cbn [mbind call_bind]. apply claiming_step.
  intros s link s' Hok Hst _ Hs. unfold next_reader in Hs. destruct (cm_readers s) as [|link' readers] eqn:Hrs; [done|].
  injection Hs as -> <-. assert (Hin : cm_started s = true).
  { destruct (cm_started s) eqn:E; [done|]. destruct (co_start s Hok E) as (_ & _ & _ & _ & ?). congruence. }
  exists (mkStake None false true false). split.
  { destruct Hok as [Hr Hs0]. split; try done.
    - split; [done|]. cbn. by rewrite Hin.
    - by left. }
  apply (under_bind inside (asking (CqRead link))); [by apply (under_ask _ (CqRead link))| |done|done].
  intros [e|err|]; unfold reader_ends.
  - apply under_update. clear. intros s. apply (plain_event (EvRead link e)).
    + cbn. unfold join_view, read_envelope, exited. cbn. by repeat case_match.
    + cbn. unfold read_envelope, exited. by repeat case_match.
  - under.
  - under.
Qed.

(** ** Callers *)

Definition called (l : Stake) : Prop := sk_inside l = true /\ sk_caller l = true /\ joins l = false.

Lemma under_called {A} (c : tasking A) : under inside c -> under called c.
Proof. apply under_weaken. by intros l (? & _). Qed.

(** A turn of a call that may change what the joining of the Runner is about. *)
Lemma free_step ev s l l' :
  claiming_ok s -> stake_ok s l -> sk_inside l = true -> joins l = true \/ joining s = false ->
  ct_state (client_run ev (cm_client s)) = ct_state (cm_client s) ->
  sk_loop l' = sk_loop l -> sk_inside l' = true -> sk_caller l' = sk_caller l ->
  (forall p, sk_join l' = Some p -> phase_ok (with_client (client_run ev (cm_client s)) s) p) ->
  (joins l' = true -> joining s = true) ->
  step_ok s (with_client (client_run ev (cm_client s)) s) l l'.
Proof.
  intros [Hr Hs0] [Hp Hin Hc] Hl Hj Hst Hlo Hl' Hca Hph Hj'. specialize (Hin Hl). split; try done.
  - split; [eapply runs_on_trans; [done|apply runs_on_event]|]. cbn. by rewrite Hin.
  - split; [done|by intros _|]. by rewrite Hca.
  - cbn. unfold loops_of, reclaiming. by rewrite Hlo, Hst.
  - cbn. unfold loops_of. by rewrite Hlo.
  - right. split; [exact Hj|exact Hj'].
Qed.

Lemma under_leave : under called (on_client set_leaving).
Proof.
  intros i Q l (Hin & Hcall & Hj) HQ. unfold on_client, update, turn. apply claiming_step.
  intros s [] s' Hok Hst _ [= <-]. exists l. split; [|apply HQ].
  apply (free_step EvLeaving); try done.
  - right. unfold joining. by rewrite (so_caller s l Hst Hcall), andb_false_r.
  - intros p Hp. unfold joins in Hj. by rewrite Hp in Hj.
  - congruence.
Qed.

Lemma under_close : under called close.
Proof.
  unfold close. apply under_bind; [apply under_leave|intros _]. apply under_called. apply under_bind; [apply under_look|].
  intros [link|]; [apply under_close_link|apply under_return].
Qed.

Lemma handle_keeps {A} i (c : tasking A) :
  under called c -> keeps_claiming i no_loop (with_handle c) no_stake.
Proof.
  intros Hc. unfold with_handle, await. cbn [mbind call_bind]. apply claiming_step.
  intros s [] s' Hok Hst _ Hs. destruct (cm_returned s) eqn:Hret; [|done]. injection Hs as <-.
  assert (Hin : cm_started s = true).
  { destruct (cm_started s) eqn:E; [done|]. destruct (co_start s Hok E) as (_ & ? & _). congruence. }
  exists (mkStake None false true true). split; [by split; [..|left| |]|].
  apply upholds_bind, Hc; [done|]. intros a. reflexivity.
Qed.

Lemma caller_keeps i t :
  match t with ConnectWorker | ClaimIndependent | ReaderTurn | ReclaimTurn => False | _ => True end ->
  keeps_claiming i no_loop (client_serve t) no_stake.
Proof.
  destruct t; cbn [client_serve]; try done; intros _; apply handle_keeps;
    unfold detach, stop_runner, recall, reconciled, acknowledge, look_up_attempts;
    repeat first [ apply under_close | apply under_leave | apply under_return
                 | (apply under_called; apply under_call_runner) | (apply under_bind; [|intros ?]) ].
Qed.

(** ** The loop that claims the Runner again *)

(** The end of a loop, or of its claiming: the client is no longer being claimed again. *)
Lemma round_ends i (Q : unit -> Stake -> Prop) l {A} (f : Claiming -> A * Claiming) (k : A -> tasking unit) ev :
  inside l -> sk_loop l = true -> joins l = false ->
  (forall s, ct_state (cm_client s) = Reclaiming ->
     (f s).2 = drop_loop (with_client (client_run ev (cm_client s)) s) /\
     join_view (with_client (client_run ev (cm_client s)) s) = join_view s /\
     reclaiming (client_run ev (cm_client s)) = 0) ->
  (forall a, keeps_claiming i Q (k a) (mkStake (sk_join l) false true (sk_caller l))) ->
  keeps_claiming i Q (a ← turn f; k a) l.
Proof.
  intros Hl Hlo Hj Hf Hk. unfold turn. cbn [mbind call_bind]. apply claiming_step.
  intros s a s' [Hr Hs0] [Hp Hin Hcall] Hown [= Hs]. specialize (Hown Hlo). specialize (Hin Hl).
  destruct (Hf s Hown) as (Hs' & Hv & H0). rewrite Hs in Hs'. cbn [snd] in Hs'. subst s'.
  eexists. split; [|apply Hk]. split; try done.
  - split; [eapply runs_on_trans; [done|apply runs_on_event]|]. cbn. by rewrite Hin.
  - split; try done. intros p Hpj. eapply phase_view; [exact Hv|]. by apply Hp.
  - cbn [drop_loop with_claiming with_client cm_client cm_loops]. rewrite H0. unfold loops_of.
    cbn [sk_loop]. rewrite Hlo. unfold reclaiming. rewrite Hown. lia.
  - cbn. unfold loops_of. cbn [sk_loop]. rewrite Hlo. lia.
  - by left.
Qed.

Definition ends_claiming (outcome : result Attempt (nat * RunnerClaim)) : Prop :=
  match outcome with Err (Retry _) => False | _ => True end.

Lemma reclaim_round_view s outcome :
  join_view (with_client (reclaim_round (cm_client s) outcome) s) = join_view s.
Proof. unfold join_view, reclaim_round. cbn [with_client cm_client]. repeat case_match; cbn; congruence. Qed.

Lemma end_round_keeps i (Q : unit -> Stake -> Prop) l outcome (k : bool -> tasking unit) :
  inside l -> sk_loop l = true -> joins l = false -> ends_claiming outcome ->
  (forall a, keeps_claiming i Q (k a) (mkStake (sk_join l) false true (sk_caller l))) ->
  keeps_claiming i Q (a ← turn (end_round outcome); k a) l.
Proof.
  intros Hl Hlo Hj Hends Hk. apply (round_ends i Q l (end_round outcome) k (EvRound outcome)); try done.
  intros s Hs. assert (Hrun : client_run (EvRound outcome) (cm_client s) = reclaim_round (cm_client s) outcome)
    by (cbn; by rewrite Hs).
  rewrite Hrun. split; [done|]. split; [apply reclaim_round_view|].
  unfold reclaiming, reclaim_round. destruct outcome as [[link claim]|[]]; cbn; try done. by destruct (ct_leaving (cm_client s)).
Qed.

Lemma reclaim_keeps i : keeps_claiming i no_loop reclaim_turn no_stake.
Proof.
  unfold reclaim_turn, await. cbn [mbind call_bind]. apply claiming_step.
  intros s backoff s' Hok Hst _ Hs. unfold next_loop in Hs.
  destruct (cm_loops s) as [|backoff' loops] eqn:Hlo; [done|]. injection Hs as -> <-.
  assert (Hin : cm_started s = true).
  { destruct (cm_started s) eqn:E; [done|]. destruct (co_start s Hok E) as (_ & _ & ? & _). congruence. }
  exists (mkStake None true true false). split.
  { destruct Hok as [Hr Hs0]. split; try done.
    - split; [done|]. cbn. by rewrite Hin.
    - cbn. rewrite Hlo. cbn. lia.
    - cbn. unfold loops_of. cbn. lia.
    - by left. }
  unfold turn. cbn [mbind call_bind]. apply claiming_step. clear. intros s left s' Hok Hst Hown Hs.
  specialize (Hown eq_refl). injection Hs as Hs. unfold leave_reclaiming in Hs.
  destruct (ct_leaving (cm_client s)) eqn:Hleft; injection Hs as <- <-.
  { exists (mkStake None false true false). split; [|done].
    replace (with_state (cm_client s) left_the_runner) with (client_run (EvRound (Err (Retry ""))) (cm_client s))
      by (cbn; by rewrite Hown, Hleft).
    destruct Hok as [Hr Hs0], Hst as [Hp Hin Hcall]. split; try done.
    - split; [eapply runs_on_trans; [done|apply runs_on_event]|]. cbn. by rewrite (Hin eq_refl).
    - cbn [drop_loop with_claiming with_client cm_client cm_loops]. unfold reclaiming. cbn [client_run].
      rewrite Hown. unfold reclaim_round. rewrite Hleft. unfold loops_of. cbn. lia.
    - cbn. unfold loops_of. cbn. lia.
    - left. split; [|done]. cbn [client_run]. rewrite Hown. apply reclaim_round_view. }
  exists (mkStake None true true false). split; [by apply plain_step; [..|apply plain_same]|].
  apply upholds_bind, under_link_and_claim; [done|]. intros [[link claim]|[reason|reason|reason]].
  - apply end_round_keeps; try done. intros [].
    + apply claiming_asks; [done|]. intros []. reflexivity.
    + apply upholds_bind, under_call_over_link; [done|]. intros _. by apply under_close_link.
  - apply claiming_asks; [done|]. intros []. apply upholds_bind, under_sleep; [done|]. intros [].
    unfold update, turn. apply claiming_step. clear. intros s [] s' [Hr Hs0] [Hp Hin Hcall] _ [= <-].
    exists (mkStake None false true false). split; [|done]. split; try done.
    + split; [done|]. cbn. by rewrite (Hin eq_refl).
    + cbn. rewrite length_app. cbn. lia.
    + cbn. unfold loops_of. cbn. lia.
    + by left.
  - apply end_round_keeps; try done. intros []; (apply claiming_asks; [done|]; intros []; reflexivity).
  - apply end_round_keeps; try done. intros []; (apply claiming_asks; [done|]; intros []; reflexivity).
Qed.

(** ** The joining of the Runner *)

Definition stake_of (p : JoinPhase) : Stake := mkStake (Some p) false true false.

Lemma look_keeps {A B} i (Q : B -> Stake -> Prop) (f : Claiming -> A) (k : A -> tasking B) l :
  (forall s, stake_ok s l -> keeps_claiming i Q (k (f s)) l) -> keeps_claiming i Q (a ← look f; k a) l.
Proof.
  intros Hk. unfold look, turn. cbn [mbind call_bind]. apply claiming_step. intros s a s' Hok Hst _ [= <- <-].
  exists l. split; [|by apply Hk]. destruct Hok as [Hr Hs0]. split; try done.
  - by left.
Qed.

(** The joining call changes what it has: the next phase. *)
Lemma phase_keeps i (Q : unit -> Stake -> Prop) (f : Client -> Client) ev p p' :
  (forall c, f c = client_run ev c) -> (forall c, ct_state (client_run ev c) = ct_state c) ->
  (forall s, phase_ok s p -> phase_ok (with_client (client_run ev (cm_client s)) s) p') ->
  Q tt (stake_of p') ->
  keeps_claiming i Q (on_client f) (stake_of p).
Proof.
  intros Hf Hs Hp HQ. unfold on_client, update, turn. apply joining_step. intros s [] s' Hok Hst _ Hj [= <-].
  rewrite Hf. exists (stake_of p'). split; [|done]. apply (free_step ev); try done.
  - by left.
  - intros q [= <-]. by apply Hp, Hst.
Qed.

Lemma leaves i (Q : unit -> Stake -> Prop) p p' :
  (forall s, phase_ok s p -> phase_ok (with_client (set_leaving (cm_client s)) s) p') -> Q tt (stake_of p') ->
  keeps_claiming i Q (on_client set_leaving) (stake_of p).
Proof. intros Hp HQ. by apply (phase_keeps i Q set_leaving EvLeaving p p'). Qed.

Lemma close_joining i (Q : unit -> Stake -> Prop) :
  Q tt (stake_of JoinLeft) -> keeps_claiming i Q close (stake_of JoinNew).
Proof.
  intros HQ. unfold close. apply upholds_bind, (leaves i _ JoinNew JoinLeft).
  - intros s [= Hh _ _]. cbn. unfold join_view. cbn. rewrite Hh. by do 2 eexists.
  - apply (under_bind inside (of_client the_link)); [apply under_look| |done|].
    + intros [link|]; [apply under_close_link|apply under_return].
    + by intros [].
Qed.

Lemma handshake_keeps i (Q : result RunnerError unit -> Stake -> Prop) :
  Q (Ok tt) (stake_of JoinKnown) ->
  (forall err, Q (Err err) (stake_of JoinNew)) -> (forall err, Q (Err err) (stake_of JoinLeft)) ->
  keeps_claiming i Q handshake (stake_of JoinNew).
Proof.
  intros Hok Hnew Hleft. unfold handshake. apply upholds_bind, under_call_runner; [done|].
  intros [r|[body|text|text]].
  - destruct (stated_hello r) as [[hello stated]|].
    + apply upholds_bind, (phase_keeps i _ (set_hello hello stated) (EvHello hello stated) JoinNew JoinKnown); try done.
      intros s [= Hh Hr Hl]. exists hello. unfold join_view. cbn. by rewrite Hh, Hr, Hl.
    + apply upholds_bind, close_joining. apply Hleft.
  - apply upholds_bind, close_joining. apply Hleft.
  - apply Hnew.
  - apply upholds_bind, close_joining. apply Hleft.
Qed.

(** What is known once the Runner answered, or did not. *)
Inductive shaken_hands {A} : result ClaimError A -> Stake -> Prop :=
  | shaken r : shaken_hands r (stake_of JoinKnown)
  | unshaken err p : p = JoinNew \/ p = JoinLeft -> shaken_hands (Err (ClaimTransport err)) (stake_of p).

Lemma hello_keeps i (Q : result ClaimError unit -> Stake -> Prop) p :
  p = JoinNew \/ p = JoinKnown -> (forall r l, shaken_hands r l -> Q r l) ->
  keeps_claiming i Q first_or_same_hello (stake_of p).
Proof.
  intros Hp HQ. unfold first_or_same_hello, of_client. apply look_keeps. intros s Hst.
  pose proof (so_join s _ Hst p eq_refl) as Hphase. destruct Hp as [-> | ->]; unfold hello_known.
  - injection Hphase as -> _ _. cbn [negb]. apply upholds_bind, handshake_keeps.
    + apply under_look; [done|]. intros r. apply HQ, shaken.
    + intros err. apply HQ, unshaken. by left.
    + intros err. apply HQ, unshaken. by right.
  - destruct Hphase as [hello [= -> _ _]]. cbn [negb].
    assert (Hrest : under inside same_hello)
      by (unfold same_hello; repeat first [apply under_same_runner | under_one | case_match]).
    apply Hrest; [done|]. intros r. apply HQ, shaken.
Qed.

Lemma unarmed evs :
  ct_reclaim (client_runs evs client_new) = false -> ct_state (client_runs evs client_new) <> Reclaiming.
Proof.
  induction evs as [|ev evs IH] using rev_ind; [done|]. rewrite client_runs_snoc.
  set (c := client_runs evs client_new) in *. clearbody c. destruct ev; cbn; try done; auto.
  - by destruct (ct_reclaim c || ct_leaving c).
  - unfold write_failed. by destruct started0.
  - destruct (start_reclaim_frame c link) as (_ & _ & _ & _ & _ & Hr & _). rewrite Hr. intros Hc.
    unfold Client.start_reclaim. rewrite Hc. by apply IH.
  - unfold read_envelope, exited. repeat case_match; cbn; auto.
  - destruct (ct_state c) eqn:Hst; rewrite ?Hst; try done.
    destruct (reclaim_round_frame c outcome) as (_ & _ & _ & _ & _ & -> & _). by intros ?%IH.
Qed.

Lemma owner_of (L : list Stake) : 0 < owners L -> exists i l, L !! i = Some l /\ sk_loop l = true.
Proof.
  induction L as [|l L IH]; unfold owners in *; cbn [sum_list_with]; [lia|]. intros Hn.
  destruct (sk_loop l) eqn:Hl; [by exists 0, l|]. unfold loops_of in Hn at 1. rewrite Hl in Hn.
  destruct (IH Hn) as (i & l' & Hi & Hl'). by exists (S i), l'.
Qed.

Lemma owners_sole (L : list Stake) i j li lj :
  owners L <= 1 -> L !! i = Some li -> L !! j = Some lj -> sk_loop li = true -> sk_loop lj = true -> i = j.
Proof.
  intros Hn Hi Hj Hli Hlj. destruct (decide (i = j)) as [|Hne]; [done|]. exfalso.
  pose proof (owners_insert L i li no_stake Hi) as H1.
  assert (Hj' : <[i := no_stake]> L !! j = Some lj) by (by rewrite list_lookup_insert_ne).
  pose proof (owners_insert _ j lj no_stake Hj') as H2. unfold loops_of in H1, H2.
  rewrite Hli in H1. rewrite Hlj in H2. cbn in H1, H2. lia.
Qed.

Lemma may_connect_joins l : may_connect l -> sk_loop l = false -> joins l = true.
Proof. unfold may_connect, joins. by intros [? |[-> | ->]] ?; congruence || done. Qed.

(** No loop claims the Runner again while it is joined. *)
Lemma loop_without_joining s log (L : list Stake) i j li lj :
  claiming_inv s log L -> L !! i = Some li -> L !! j = Some lj -> sk_loop li = true ->
  may_connect lj -> sk_loop lj = false -> False.
Proof.
  intros HI Hi Hj Hli Hcj Hlj. pose proof (owner_reclaims s log L i li HI Hi Hli) as Hs.
  destruct HI as ([[evs Hevs] _] & Hst & _). pose proof (unarmed evs) as Hun. rewrite <- Hevs in Hun.
  apply Hun; [|done]. pose proof (Forall_lookup_1 _ _ _ _ Hst Hj) as [Hp _ _].
  destruct Hcj as [?|[Hq|Hq]]; [congruence|..]; specialize (Hp _ Hq); cbn in Hp.
  - by injection Hp.
  - by destruct Hp as [hello [= _ -> _]].
Qed.

Lemma connect_keeps {A} i (Q : A -> Stake -> Prop) (k : nat -> tasking A) p :
  p = JoinNew \/ p = JoinKnown -> (forall link, keeps_claiming i Q (k link) (stake_of p)) ->
  keeps_claiming i Q (link ← turn connect_link; k link) (stake_of p).
Proof.
  intros Hp Hk. unfold turn. cbn [mbind call_bind]. apply claiming_step. intros s link s' Hok Hst _ [= <- <-].
  eexists. split; [|apply Hk]. pose proof (so_join s _ Hst p eq_refl) as Hphase.
  assert (Hfree : ct_reclaim (cm_client s) = false /\ ct_leaving (cm_client s) = false).
  { destruct Hp as [-> | ->]; [by injection Hphase|]. by destruct Hphase as [hello [= _ -> ->]]. }
  destruct Hfree as [Hr Hl]. apply plain_step; try done.
  destruct (co_runs s Hok) as [evs Hevs].
  pose proof (unarmed evs) as Hun. rewrite <- Hevs in Hun. specialize (Hun Hr).
  assert (Hrun : client_run EvConnect (cm_client s)
                 = with_state (Client.open_link (cm_client s)).2 (Linked (Client.open_link (cm_client s)).1))
    by (cbn; by rewrite Hr, Hl).
  split; try done.
  - exists [EvConnect]. cbn [client_runs foldl]. by rewrite Hrun.
  - cbn. unfold reclaiming. cbn. by destruct (ct_state (cm_client s)).
Qed.

Lemma connect_worker_keeps i (Q : result RunnerError unit -> Stake -> Prop) :
  Q (Ok tt) (stake_of JoinKnown) -> (forall err p, Q (Err err) (stake_of p)) ->
  keeps_claiming i Q connect (stake_of JoinNew).
Proof.
  intros Hok Herr. unfold connect. apply claiming_asks; [by unfold may_connect; auto|]. intros [[]|[]]; [|apply Herr].
  apply connect_keeps; [by left|]. intros link. apply handshake_keeps; auto.
Qed.

Definition claimed_end (r : option (result ClaimError RunnerClaim)) (l : Stake) : Prop :=
  match r with Some (Ok _) => l = stake_of JoinArmed | _ => sk_loop l = false end.

Lemma claim_independent_keeps i fuel deadline backoff p :
  p = JoinNew \/ p = JoinKnown ->
  keeps_claiming i claimed_end
    (claim_independent_by fuel deadline backoff) (stake_of p).
Proof.
  revert backoff p. induction fuel as [|fuel IH]; intros backoff p Hp; cbn [claim_independent_by]; [done|].
  apply claiming_asks; [by unfold may_connect; destruct Hp as [-> | ->]; auto|]. intros [[]|[]]; [|done]. apply connect_keeps; [done|]. intros link.
  apply upholds_bind, hello_keeps; [done|]. intros hello l Hl. apply upholds_bind.
  assert (Hclaim : forall (Q : result ClaimError RunnerClaim -> Stake -> Prop),
    (forall r l, shaken_hands r l -> Q r l) ->
    keeps_claiming i Q (match hello with Ok _ => claim | Err err => done_with (Err err) end) l).
  { intros Q HQ. destruct Hl as [hello|err q Hq]; [|by apply HQ, unshaken].
    destruct hello; [|by apply HQ, shaken]. apply under_claim; [done|]. intros r. by apply HQ, shaken. }
  apply Hclaim. clear l Hl hello Hclaim Hp. intros claimed l Hl.
  assert (Hgive : forall err q, keeps_claiming i claimed_end
     (_ ← on_client set_leaving; _ ← close_link link; done_with (Some (Err err))) (stake_of q)).
  { intros err q. apply upholds_bind, (leaves i _ q JoinArmed); [done|].
    apply upholds_bind, under_close_link; [done|]. done. }
  destruct claimed as [claimed|err].
  - inversion Hl as [r Hr Hlq|]; subst.
    apply upholds_bind, (phase_keeps i _ arm EvArmed JoinKnown JoinArmed); try done.
    apply upholds_bind, under_look; [done|]. intros living. apply upholds_bind.
    destruct living; [done|]. by apply under_start_reclaim.
  - assert (Hstake : exists q, l = stake_of q) by (destruct Hl; by eexists). destruct Hstake as [q ->].
    apply look_keeps. intros s _. destruct (bool_decide (cm_now s + backoff < deadline)%Z).
    2: { apply look_keeps. intros s1 _. cbn [andb]. apply Hgive. }
    apply look_keeps. intros s1 Hst. cbn [andb].
    destruct (claim_again (hello_known (cm_client s1)) err) eqn:Hagain; [|apply Hgive].
    assert (Hq : q = JoinKnown).
    { inversion Hl as [r Hr Hlq|err' q' Hq' Herr Hlq]; [done|]. subst err q'.
      pose proof (so_join s1 _ Hst q eq_refl) as Hphase. unfold hello_known in Hagain.
      destruct Hq' as [-> | ->]; [injection Hphase as Hh _ _|destruct Hphase as (? & ? & [= Hh _ _])];
        by rewrite Hh in Hagain. }
    subst q. apply claiming_asks; [done|]. intros []. apply upholds_bind, under_close_link; [done|]. intros [].
    apply upholds_bind, under_sleep; [done|]. intros []. apply IH. by right.
Qed.

(** The client is given to its callers. *)
Lemma return_keeps i p : keeps_claiming i no_loop (update returned_client) (stake_of p).
Proof.
  unfold update, turn. apply claiming_step. intros s [] s' [Hr Hs0] [Hp Hin Hcall] _ [= <-].
  exists (mkStake None false true false). split; [|done]. split; try done.
  - split; [done|]. cbn. by rewrite (Hin eq_refl).
  - right. split; [by left|done].
Qed.

Lemma join_keeps i (c : tasking unit) :
  keeps_claiming i no_loop c (stake_of JoinNew) ->
  keeps_claiming i no_loop (_ ← await start_claiming; c) no_stake.
Proof.
  intros Hc. unfold await. cbn [mbind call_bind]. apply claiming_step. intros s [] s' [Hr Hs0] [Hp Hin Hcall] _ Hs.
  unfold start_claiming in Hs. destruct (cm_started s) eqn:Hst; [done|]. injection Hs as <-.
  destruct (Hs0 eq_refl) as (Hclient & Hret & Hlo & Hre).
  exists (stake_of JoinNew). split; [|done]. split; try done.
  - split; [|done|done]. intros p [= <-]. cbn. unfold join_view. cbn. by rewrite Hclient.
  - right. unfold joining. cbn. rewrite Hst, Hret. split; [by right|done].
Qed.

Lemma claiming_invariant now :
  invariant client_serve (fun t s s' => s' = tick t s) (fun _ _ => False) claiming_inv (fun _ => no_stake)
    no_loop claiming_awaits no_stake (claiming_start now).
Proof.
  split.
  - split_and!; [|by apply Forall_nil|done|done|by split; [intros []|intros []]].
    split; [by exists []|done].
  - intros s log L t (Hok & Hst & Hcl & Hn & Hj). split_and!; [done| | |done|by apply sole_app].
    + apply Forall_app. split; [done|]. by repeat constructor.
    + unfold owners in *. rewrite sum_list_with_app. cbn. lia.
  - intros i t. destruct t; try (by apply caller_keeps); cbn [client_serve].
    + apply join_keeps. apply upholds_bind, connect_worker_keeps; [apply return_keeps|done].
    + apply join_keeps. apply upholds_bind. unfold claim_independent. apply look_keeps. intros s _.
      eapply upholds_mono; [|apply claim_independent_keeps; by left]. cbn beta.
      intros [[claimed|err]|] l; [intros ->; apply return_keeps|done|done].
    + apply reader_keeps.
    + apply reclaim_keeps.
  - intros s log L t s' (Hok & Hst & Hcl & Hn & Hj) ->. split_and!; [| |done..].
    + destruct Hok as [Hr Hs0]. split; [done|]. exact Hs0.
    + eapply Forall_impl; [exact Hst|]. intros l [Hp Hin Hcall]. split; try done.
  - done.
Qed.

(** C17: The client's tasks - the claim of the independent Runner as a gateway starts, the reader of
    each connection, the loop that claims the Runner again after the loss of one, what callers ask -
    do what the client's events say in every interleaving. The client is being claimed again exactly
    while one loop does so, which either waits for its next round or is in the hands of a task that
    has not ended: the two together are one loop then and none otherwise. Once callers have the
    client only that loop connects to the Runner, and no two tasks ever connect to it at a time.
    (A loss does not always start the loop: a connection that ends while the loop is claiming over
    it leaves the client with none, as [a_client_can_be_stuck] shows.) *)
Theorem one_loop_claims_the_runner_again now p :
  client_pool now p ->
  let s := pl_state p in
  (exists evs, cm_client s = client_runs evs client_new) /\
  length (cm_loops s) + cm_claiming s =
    match ct_state (cm_client s) with Reclaiming => 1 | _ => 0 end /\
  (cm_claiming s = 1 -> exists i t, pl_threads p !! i = Some t /\ returned p i = None) /\
  (forall i, cm_returned s = true -> awaiting p i = Some CqConnect ->
     ct_state (cm_client s) = Reclaiming /\ cm_loops s = []) /\
  (forall i j, awaiting p i = Some CqConnect -> awaiting p j = Some CqConnect -> i = j).
Proof.
  intros Hp s.
  destruct (pool_reachable_upholds _ _ _ _ _ _ _ _ _ _ (claiming_invariant now) Hp)
    as (L & HI & Hlen & Hth). fold s in HI. pose proof HI as (Hok & Hst & Hcl & Hn & Hone & Hjoin).
  assert (Hle : reclaiming (cm_client s) <= 1).
  { unfold reclaiming. by destruct (ct_state (cm_client s)); lia. }
  assert (Hconnects : forall i, awaiting p i = Some CqConnect -> exists l, L !! i = Some l /\ may_connect l).
  { intros i [k Hk]%awaiting_thread. assert (is_Some (L !! i)) as [l Hl].
    { apply lookup_lt_is_Some. rewrite Hlen. by eapply lookup_lt_Some. }
    exists l. split; [done|]. destruct (Hth _ _ _ Hk Hl) as [Haw _]. by apply Haw. }
  split_and!; [apply Hok|exact Hn|..].
  - intros H1. destruct (owner_of L) as (i & l & Hi & Hloop); [lia|].
    assert (is_Some (pl_threads p !! i)) as [t Ht].
    { apply lookup_lt_is_Some. rewrite <- Hlen. by eapply lookup_lt_Some. }
    exists i, t. split; [done|]. destruct (returned p i) as [[]|] eqn:Hret; [|done].
    apply returned_thread in Hret. pose proof (Hth _ _ _ Hret Hi) as Hend. cbn in Hend.
    unfold no_loop in Hend. congruence.
  - intros i Hret (l & Hi & Hc)%Hconnects. destruct (sk_loop l) eqn:Hl.
    + pose proof (owner_reclaims s _ L i l HI Hi Hl) as Hs. split; [done|].
      pose proof (owners_insert L i l no_stake Hi) as Ho. change (loops_of no_stake) with 0 in Ho.
      unfold loops_of in Ho. rewrite Hl in Ho. destruct (cm_loops s); [done|]. cbn in Hn. lia.
    + pose proof (Hjoin i l Hi (may_connect_joins l Hc Hl)) as Hjs. unfold joining in Hjs.
      by rewrite Hret, andb_false_r in Hjs.
  - intros i j (li & Hi & Hci)%Hconnects (lj & Hj & Hcj)%Hconnects.
    destruct (sk_loop li) eqn:Hli, (sk_loop lj) eqn:Hlj.
    + apply (owners_sole L i j li lj); [lia|done..].
    + by destruct (loop_without_joining s _ L i j li lj HI).
    + by destruct (loop_without_joining s _ L j i lj li HI).
    + apply (Hone i j li lj); [done..| |]; by apply may_connect_joins.
Qed.

(** * A start does not wait for ever *)

Definition passes s s' : Prop := (cm_now s <= cm_now s')%Z.

Definition timely {A} (c : tasking A) : Prop := along passes (fun _ => True) c.

Abbreviation comes_to Q c start :=
  (wp passes (fun (_ : unit) _ _ => True) (fun m _ _ => m) (fun r _ after => Q r after) c tt start).

Lemma time_stable t : stable passes (fun s => t <= cm_now s)%Z.
Proof. intros s s' Hp Ht. unfold passes in Hp. lia. Qed.

Lemma timely_comes_to {A} (c : tasking A) t s :
  timely c -> (t <= cm_now s)%Z -> comes_to (fun _ s => (t <= cm_now s)%Z) c s.
Proof.
  unfold timely. revert s. induction c as [a|B step k IH|q k IH]; intros s Hc Ht; cbn in *; [done|..].
  - intros s1 b s2 Hp Hs. destruct Hc as [Hstep Hk]. apply IH; [apply Hk|].
    specialize (Hstep _ _ _ Hs). unfold passes in *. lia.
  - intros s1 Hp. split; [done|]. intros a. apply IH; [apply Hc|]. unfold passes in Hp. lia.
Qed.

Lemma timely_bind {A B} (c : tasking A) (f : A -> tasking B) :
  timely c -> (forall a, timely (f a)) -> timely (c ≫= f).
Proof. apply along_bind. Qed.

Lemma timely_turn {A} (f : Claiming -> A * Claiming) :
  (forall s, cm_now (f s).2 = cm_now s) -> timely (turn f).
Proof.
  intros Hf. split; [|done]. intros s b s' [= Hs]. specialize (Hf s). rewrite Hs in Hf. cbn in Hf.
  unfold passes. lia.
Qed.

Lemma timely_await {A} (f : Claiming -> option (A * Claiming)) :
  (forall s a s', f s = Some (a, s') -> cm_now s' = cm_now s) -> timely (await f).
Proof. intros Hf. split; [|done]. intros s b s' Hs. apply Hf in Hs. unfold passes. lia. Qed.

Lemma timely_take id : timely (await (take_response id)).
Proof.
  apply timely_await. intros s a s' Hs. unfold take_response in Hs.
  destruct (take_answer _ _) as [[answer|] c]; [|done]. by injection Hs as _ <-.
Qed.

Lemma timely_unsent link id text began : timely (turn (unsent link id text began)).
Proof. apply timely_turn. intros s. unfold unsent. by destruct (write_failed _ _ _ _ _). Qed.

Lemma timely_ask q : timely (asking q).
Proof. by split. Qed.

Ltac timely :=
  repeat first
    [ match goal with |- timely (ask ?q) => exact (timely_ask q) | |- timely (Return _) => exact I end
    | apply timely_take | apply timely_unsent | (apply timely_turn; done) | (apply timely_turn; intros ?; cbn zeta beta; cbn [snd]; by destruct (lost_now _ _)) | done
    | (apply timely_bind; [|intros ?]) | case_match ].

Lemma timely_close_link link : timely (close_link link).
Proof. unfold close_link, start_reclaim. timely. Qed.

Lemma timely_call_over_link link op epoch : timely (call_over_link link op epoch).
Proof. unfold call_over_link. repeat first [apply timely_close_link | progress timely]. Qed.

Lemma timely_close : timely close.
Proof. unfold close. repeat first [apply timely_close_link | progress timely]. Qed.

Lemma timely_claim : timely claim.
Proof. unfold claim, claim_on. repeat first [apply timely_call_over_link | progress timely]. Qed.

Lemma timely_hello : timely first_or_same_hello.
Proof.
  unfold first_or_same_hello, same_hello, same_runner_over, handshake, call_runner.
  repeat first [apply timely_call_over_link | apply timely_close | progress timely].
Qed.

Lemma timely_then {A B} (Q : B -> Claiming -> Prop) (c : tasking A) (f : A -> tasking B) t s :
  timely c -> (t <= cm_now s)%Z -> (forall a s, (t <= cm_now s)%Z -> comes_to Q (f a) s) ->
  comes_to Q (c ≫= f) s.
Proof. intros Hc Ht Hf. eapply wp_then; [by apply timely_comes_to|]. cbn beta. intros a [] s1. apply Hf. Qed.

Lemma sleeps {B} (Q : B -> Claiming -> Prop) d (f : unit -> tasking B) t s :
  (t <= cm_now s)%Z -> (forall s, (t + d <= cm_now s)%Z -> comes_to Q (f tt) s) ->
  comes_to Q (sleep d ≫= f) s.
Proof.
  intros Ht Hf s1 due s2 Hp [= <- <-]. intros s3 [] s4 Hp' Hs. cbn beta in *.
  case_bool_decide as Hdue; [|done]. injection Hs as <-. apply Hf. unfold passes in Hp, Hp'. lia.
Qed.

Lemma gives_up link err t s :
  (t <= cm_now s)%Z ->
  comes_to (fun r _ => r <> None)
    (_ ← on_client set_leaving; _ ← close_link link; done_with (Some (Err (A := RunnerClaim) (err : ClaimError)))) s.
Proof.
  intros Ht. apply (timely_then _ _ _ t); [timely|done|]. intros [] s1 Ht1.
  by apply (timely_then _ _ _ t); [apply timely_close_link|done|].
Qed.

Lemma claim_independent_by_ends fuel deadline backoff t s :
  (t <= cm_now s)%Z -> 0 < fuel -> (RECLAIM_BACKOFF_START <= backoff)%Z ->
  (deadline < t + Z.of_nat fuel * RECLAIM_BACKOFF_START)%Z ->
  comes_to (fun r _ => r <> None) (claim_independent_by fuel deadline backoff) s.
Proof.
  revert backoff t s. induction fuel as [|fuel IH]; intros backoff t s Ht Hf Hb Hd; [lia|].
  cbn [claim_independent_by]. intros s1 Hp1. split; [done|]. intros [[]|[]]; [|done].
  assert (Ht1 : (t <= cm_now s1)%Z) by (unfold passes in Hp1; lia). clear s Ht Hp1.
  apply (timely_then _ _ _ t); [timely|done|]. intros link s Ht.
  apply (timely_then _ _ _ t); [apply timely_hello|done|]. intros hello s2 Ht2.
  apply (timely_then _ _ _ t); [destruct hello; [apply timely_claim|done]|done|]. intros claimed s3 Ht3.
  clear s s1 s2 Ht Ht1 Ht2. destruct claimed as [claimed|err].
  { apply (timely_then _ _ _ t); [timely|done|]. intros [] s4 Ht4.
    apply (timely_then _ _ _ t); [timely|done|]. intros living s5 Ht5.
    by apply (timely_then _ _ _ t); [unfold start_reclaim; timely|done|]. }
  apply (wp_look _ _ _ (fun s => t <= cm_now s)%Z); [apply time_stable|done|]. intros s4 Ht4.
  case_bool_decide as Hin.
  2: { apply (timely_then _ _ _ t); [timely|done|]. intros known s5 Ht5. by apply (gives_up _ _ t). }
  apply (timely_then _ _ _ (cm_now s4)); [timely|done|]. intros known s5 Ht5. cbn [andb].
  destruct (claim_again known err); [|by apply (gives_up _ _ (cm_now s4))].
  apply (timely_then _ _ _ (cm_now s4)); [timely|done|]. intros [] s6 Ht6.
  apply (timely_then _ _ _ (cm_now s4)); [apply timely_close_link|done|]. intros [] s7 Ht7.
  apply (sleeps _ _ _ (cm_now s4)); [done|]. intros s8 Ht8.
  apply (IH _ (cm_now s4 + backoff)%Z); [done| | |].
  - destruct fuel; [|lia]. unfold RECLAIM_BACKOFF_START in *. lia.
  - unfold next_backoff, RECLAIM_BACKOFF_START, RECLAIM_BACKOFF_MAX, second in *. lia.
  - lia.
Qed.

(** A gateway that claims its independent Runner as it starts ends in time: it claimed the Runner, or it
    says why it did not, whatever the Runner and other tasks do. *)
Theorem claiming_ends s log r s' : course passes claim_independent s log r s' -> r <> None.
Proof.
  intros Hc. assert (Hwp : comes_to (fun r _ => r <> None) claim_independent s).
  { unfold claim_independent. apply (wp_look _ _ _ (fun s' => cm_now s <= cm_now s')%Z);
      [apply time_stable|apply Z.le_refl|]. intros s1 Hs1.
    apply (claim_independent_by_ends _ _ _ (cm_now s1)); [lia|vm_compute; lia|lia|].
    change (Z.of_nat CLAIM_TRIES) with 302%Z.
    unfold CLAIM_START_BOUND, RECLAIM_BACKOFF_START, second. lia. }
  exact (proj2 (wp_sound _ _ _ _ _ _ _ _ _ _ Hwp Hc)).
Qed.

(** * A connection that is lost as it is claimed

    A loop that claimed the Runner again makes the new connection the client's without looking whether
    it still lives. The reader of a connection that ended meanwhile found the client being claimed
    already and started nothing, so nothing ever claims the Runner again, and every request is refused
    as if something did. *)
Definition dead (link : nat) (c : Client) : Prop :=
  exists l, ct_links c !! link = Some l /\ lk_alive l = false.

Definition stuck (link : nat) (c : Client) : Prop :=
  ct_state c = Linked link /\ dead link c /\ ct_reclaim c = true /\ independent c = true.

Lemma dead_modify link link' (f : Link -> Link) c :
  (forall l, lk_alive l = false -> lk_alive (f l) = false) -> dead link c -> dead link (modify_link c link' f).
Proof.
  intros Hf (l & Hl & Hdead). unfold dead, modify_link. cbn. destruct (decide (link' = link)) as [->|Hne].
  - exists (f l). by rewrite list_lookup_alter_eq, Hl; auto.
  - exists l. by rewrite list_lookup_alter_ne.
Qed.

(** Only a change of the connections and of the client's own state matters to it. *)
Lemma stuck_frame link c c' :
  ct_state c' = ct_state c -> ct_reclaim c' = ct_reclaim c -> ct_hello c' = ct_hello c -> dead link c' ->
  stuck link c -> stuck link c'.
Proof. intros Hs Hr Hh Hd (? & _ & ? & ?). unfold stuck, independent in *. by rewrite Hs, Hr, Hh. Qed.

Lemma stuck_run link c ev : stuck link c -> ev <> EvStartReclaim link -> stuck link (client_run ev c).
Proof.
  intros Hc Hev. pose proof Hc as (Hst & Hdead & Hr & Hi).
  destruct ev; cbn; rewrite ?Hr; cbn [orb]; try done;
    try (apply (stuck_frame link c); [reflexivity..|apply dead_modify; cbn; auto|exact Hc]).
  - unfold stuck, independent in *. cbn. rewrite Hst, Hr. by destruct (ct_hello c).
  - apply (stuck_frame link c); [done..| |done]. destruct Hdead as (l & Hl & Hd). exists l. split; [|done].
    by apply lookup_app_l_Some.
  - unfold write_failed. destruct started0; (apply (stuck_frame link c); [done..| |done]);
      repeat (apply dead_modify; [by cbn|]); done.
  - unfold Client.start_reclaim. rewrite Hr, Hst. destruct (ct_leaving c); [done|]. cbn.
    case_bool_decide; [congruence|done].
  - unfold read_envelope, exited. repeat case_match; try done;
      (apply (stuck_frame link c); [done..| |done]); try (apply dead_modify; [by cbn|]); done.
  - by rewrite Hst.
Qed.

(** Unless a task starts to claim the Runner again over that very connection, which its reader tried
    already, every later request is refused as if the client was being claimed again, for ever. *)
Lemma stuck_for_ever link c evs :
  stuck link c -> EvStartReclaim link ∉ evs ->
  stuck link (client_runs evs c) /\
  (ct_leaving (client_runs evs c) = false ->
   current (client_runs evs c) = Err (RunnerExecution runner_reconnecting)).
Proof.
  intros Hc Hevs. assert (Hs : stuck link (client_runs evs c)).
  { clear -Hc Hevs. revert c Hc. induction evs as [|ev evs IH]; intros c Hc; [done|].
    apply not_elem_of_cons in Hevs as [Hev Hevs]. apply (IH Hevs). by apply stuck_run. }
  split; [done|]. intros Hl. destruct Hs as (Hst & (l & Hlk & Hd) & Hr & Hi). unfold current, alive.
  by rewrite Hst, Hlk, Hd, Hi, Hr, Hl.
Qed.
End claiming.

(** ** A run *)

#[local] Instance stuck_reports : Reports :=
  {| AuthorityInfo := unit; Preparation := unit; LaunchReport := unit |}.

Definition the_identity : RunnerIdentity := mkRunnerIdentity None 7 0 "nonce".
Definition hello_result : RunnerOpResult := ResHello WIRE_PROTOCOL Independent (Some the_identity) false false false.
Definition claimed_result : RunnerOpResult := ResClaimed (mkClaim 1 false [] [] 0).

(** The system's answers, where a reader receives [received]. *)
Definition replies (received : Fetched) (q : ClientQuery) : ClientReply q :=
  match q with
  | CqConnect => Ok tt
  | CqWrite _ _ => Ok tt
  | CqAnswered _ => true
  | CqRead _ => received
  | CqDisconnected => tt
  | CqTell _ => tt
  end.

Abbreviation client_move := (move (Answer := ClientReply) (Tool := ClientTool) (Other := Z)).

(** A call goes on until it waits or returned. *)
Definition goes_on (i : nat) (received : Fetched) : list client_move :=
  mjoin (replicate 20 [MTurn i; MAnswer i (replies received)]).

Definition reads (i : nat) (received : Fetched) : list client_move := MCall ReaderTurn :: goes_on i received.
Definition answers (i : nat) (id : string) (r : RunnerOpResult) : list client_move :=
  reads i (FetchedEnvelope (response id (Ok r))).

(** The Runner is claimed; its connection ends, and the loop connects and claims it again; that
    connection ends before the loop makes it the client's. *)
Definition lost_as_claimed : list client_move :=
  [MCall ClaimIndependent] ++ goes_on 0 FetchedEnd ++
  answers 1 "rrpc-1" hello_result ++ goes_on 0 FetchedEnd ++
  answers 2 "rrpc-2" claimed_result ++ goes_on 0 FetchedEnd ++
  reads 3 FetchedEnd ++
  [MCall ReclaimTurn] ++ goes_on 4 FetchedEnd ++
  answers 5 "rrpc-3" hello_result ++ goes_on 4 FetchedEnd ++
  answers 6 "rrpc-4" claimed_result ++ [MTurn 4; MTurn 4].

Definition being_claimed := schedule (client_serve (fun _ => "") "socket" "store") tick (claiming_start 0)
  lost_as_claimed.
Definition lost_client := schedule (client_serve (fun _ => "") "socket" "store") tick (claiming_start 0)
  (lost_as_claimed ++ reads 7 FetchedEnd ++ goes_on 4 FetchedEnd).

(** Such a run exists: every call of it has returned, no reader and no loop is left, and the client refuses
    every request as if it was being claimed again. *)
Lemma a_client_can_be_stuck :
  client_pool (fun _ => "") "socket" "store" 0 lost_client /\
  stuck 1 (cm_client (pl_state lost_client)) /\ ct_leaving (cm_client (pl_state lost_client)) = false /\
  cm_loops (pl_state lost_client) = [] /\ cm_readers (pl_state lost_client) = [] /\
  (forall i, i < length (pl_threads lost_client) -> returned lost_client i = Some tt).
Proof.
  split; [by apply schedule_reachable|]. split.
  { split; [vm_compute; reflexivity|]. split; [by eexists; split; [vm_compute; reflexivity|]|].
    split; vm_compute; reflexivity. }
  do 3 (split; [vm_compute; reflexivity|]). assert (length (pl_threads lost_client) = 8) as -> by (vm_compute; reflexivity).
  intros i Hi. do 8 (destruct i as [|i]; [vm_compute; reflexivity|]). lia.
Qed.

(** It holds of the run before that: a task has the loop in hand, and none waits. *)
Lemma one_loop_claims_the_runner_again_witness :
  ct_state (cm_client (pl_state being_claimed)) = Reclaiming /\
  cm_claiming (pl_state being_claimed) = 1 /\
  exists i t, pl_threads being_claimed !! i = Some t /\ returned being_claimed i = None.
Proof.
  assert (Hp : client_pool (fun _ => "") "socket" "store" 0 being_claimed) by (by apply schedule_reachable).
  split; [vm_compute; reflexivity|]. split; [vm_compute; reflexivity|].
  destruct (one_loop_claims_the_runner_again _ _ _ 0 being_claimed Hp) as (_ & _ & Hloop & _).
  apply Hloop. vm_compute. reflexivity.
Defined.
