(* ===== verification/Governed.v ===== *)
(** Executions under the resource authority, as a gateway has them ([server/devguard.rs],
    [server/mcp.rs], [runner/uds.rs]): which process owns its executions, what that owner can do
    for one, and what the gateway makes of its reports. *)
From S2P Require Import Prelude Domain Policy Resource Processes Supervisor Api Recovery Wire Client.
From S2P Require Import Authority Registration Launch.

(** The reports that cross the wire are these. *)
#[export] Instance managed_reports : Reports :=
  {| AuthorityInfo := ResourceAuthorityInfo;
     Preparation := ManagedPreparation;
     Wire.LaunchReport := Launch.LaunchReport |}.

(** * The owner of the executions ([server/devguard.rs]) *)

Inductive RuntimeBackend :=
  | BackendInProcess
  | BackendUds (client : Client).

(** [ExecutionOwner]; an in-process owner launches when it has a helper. *)
Inductive ExecutionOwner :=
  | GatewayOwner (launcher : option Launcher)
  | WorkerOwner
  | UnstartedWorker.

Definition owner_kind (o : ExecutionOwner) : ResourceOwner :=
  match o with
  | GatewayOwner _ => OwnerInProcess
  | WorkerOwner | UnstartedWorker => OwnerWorker
  end.

(** [Registration::new]; [uds] is the runner mode. *)
Definition execution_owner (uds worker_registers : bool) (launcher : option Launcher)
    : ExecutionOwner :=
  if negb uds then GatewayOwner launcher
  else if worker_registers then WorkerOwner
  else UnstartedWorker.

Definition prepares (o : ExecutionOwner) (runner : RuntimeBackend) : bool :=
  match o, runner with
  | GatewayOwner _, BackendInProcess => true
  | WorkerOwner, BackendUds c =>
      st_admission (ct_stated c) && (negb (independent c) || st_launch (ct_stated c))
  | _, _ => false
  end.

Definition launches (o : ExecutionOwner) (runner : RuntimeBackend) : bool :=
  match o, runner with
  | GatewayOwner launcher, BackendInProcess => negb (is_none launcher)
  | WorkerOwner, BackendUds c => st_launch (ct_stated c)
  | _, _ => false
  end.

(** What [Registration::prepare] and [Registration::launch] do: ask the owner, refuse where its
    worker does not state that it can, or nothing in another runner mode. *)
Definition can_prepare (o : ExecutionOwner) (runner : RuntimeBackend) : option bool :=
  match o, runner with
  | GatewayOwner _, BackendInProcess => Some true
  | WorkerOwner, BackendUds c => Some (st_admission (ct_stated c))
  | _, _ => None
  end.

Definition can_launch (o : ExecutionOwner) (runner : RuntimeBackend) : option bool :=
  match o, runner with
  | GatewayOwner (Some _), BackendInProcess => Some true
  | WorkerOwner, BackendUds c => Some (st_launch (ct_stated c))
  | _, _ => None
  end.

(** Whether the owner's own report can be had. *)
Definition can_report (o : ExecutionOwner) (runner : RuntimeBackend) : bool :=
  match o, runner with
  | GatewayOwner _, _ => true
  | WorkerOwner, BackendUds c => st_registration (ct_stated c)
  | _, _ => false
  end.

(** * What a worker is asked ([runner/uds.rs]) *)

Section worker.
Context (debug : RunnerOpResult -> string).

Definition cannot_prepare : RunnerError :=
  RunnerExecution (error_body ResourcePolicyUnsupported
    "this worker cannot prepare governed executions").
Definition cannot_launch : RunnerError :=
  RunnerExecution (error_body ResourcePolicyUnsupported
    "this worker cannot launch governed executions").

Definition unanswered (req : RunnerExecRequest) (attempt_id : string)
    (outcome : PreparationOutcome) (attempt : Recovery.AttemptState) : ManagedPreparation :=
  mkManagedPreparation attempt_id (xr_process_id req) outcome attempt None.

Definition never_asked (req : RunnerExecRequest) (attempt_id : string) : ManagedPreparation :=
  unanswered req attempt_id (PoAuthorityUnavailable RrOwnerUnreachable None) AtNotAsked.

(** [UdsRunner::prepare] and [UdsRunner::launch], of the answer to the request. *)
Definition prepared_answer (req : RunnerExecRequest) (attempt_id : string)
    (answer : result RunnerError RunnerOpResult) : result RunnerError ManagedPreparation :=
  match answer with
  | Ok (ResPrepared report) => Ok report
  | Ok other => Err (unexpected debug other)
  | Err (TransportBeforeDispatch _) => Ok (never_asked req attempt_id)
  | Err (TransportAmbiguous _) => Ok (unanswered req attempt_id PoUnknown AtUnknown)
  | Err err => Err err
  end.

Definition launched_answer (req : RunnerExecRequest) (attempt_id : string)
    (answer : result RunnerError RunnerOpResult) : result RunnerError Launch.LaunchReport :=
  match answer with
  | Ok (ResLaunched report) => Ok report
  | Ok other => Err (unexpected debug other)
  | Err (TransportBeforeDispatch _) => Ok (NotLaunched (never_asked req attempt_id))
  | Err (TransportAmbiguous _) =>
      Ok (LaunchedReport (mkManagedLaunch attempt_id (xr_process_id req) DispatchUnknown [] None
                            None None None))
  | Err err => Err err
  end.
End worker.

(** [UdsRunner::registration], of the answer to the request. *)
Definition registration_answer (answer : result RunnerError RunnerOpResult)
    : result ResourceRegistrationState ResourceAuthorityInfo :=
  match answer with
  | Ok (ResRegistration info) => Ok info
  | Err (RunnerExecution body) =>
      match code body with
      | RunnerDisconnected | RunnerReconnecting | StaleController => Err RrOwnerUnreachable
      | _ => Err RrUnsupportedMode
      end
  | _ => Err RrOwnerUnreachable
  end.

(** * What the gateway reports of the owner *)

(** [Registration::report]; [reported] is the owner's own report, or why there is none, and
    [probed] is the authority's status from the gateway's probe, made when there is none. *)
Definition owner_report (o : ExecutionOwner) (runner : RuntimeBackend)
    (reported : result ResourceRegistrationState ResourceAuthorityInfo)
    (probed : ResourceAuthorityInfo) : ResourceAuthorityInfo :=
  match reported with
  | Ok info =>
      let registered := match rai_registration info with
                        | Some r => bool_decide (ri_state r = RrRegistered)
                        | None => false
                        end in
      mkResourceAuthorityInfo (rai_provider info) (rai_participation info)
        (launches o runner && registered) (rai_state info) (rai_error_code info)
        (rai_report info) (rai_registration info)
  | Err state =>
      mkResourceAuthorityInfo (rai_provider probed) ParticipationRegistration
        (rai_governs_execution probed) (rai_state probed) (rai_error_code probed)
        (rai_report probed)
        (Some (mkResourceRegistrationInfo (owner_kind o) state None None))
  end.

(** The registration's state in such a report. *)
Definition reported_state (reported : result ResourceRegistrationState ResourceAuthorityInfo)
    : ResourceRegistrationState :=
  match reported with
  | Ok info => default RrUnavailable (ri_state <$> rai_registration info)
  | Err state => state
  end.

Lemma owner_report_state o runner reported probed :
  default RrUnavailable (ri_state <$> rai_registration (owner_report o runner reported probed))
    = reported_state reported.
Proof. by destruct reported. Qed.

(** * What the tools make of it ([server/mcp.rs]) *)

(** A gateway is built without DevGuard, or with it, and then started to register or not; one that
    does not register may still probe the authority's status. *)
Inductive GatewayAuthority :=
  | WithoutDevGuard
  | NotRegistering (probes : bool)
  | Registering (owner : ExecutionOwner).

Definition registration_of (a : GatewayAuthority) : option ExecutionOwner :=
  match a with Registering o => Some o | _ => None end.

(** [participation_readiness]; [state] is the owner's registration, as it reported it. *)
Definition readiness (a : GatewayAuthority) (state : ResourceRegistrationState) : string :=
  match a with
  | WithoutDevGuard => "this CodeSpace was built without DevGuard"
  | NotRegistering _ => "the gateway was not started with --devguard register"
  | Registering _ =>
      match state with
      | RrRegistered => "the execution owner is registered with DevGuard"
      | state =>
          "the execution owner is not registered with DevGuard (registration: "
            +:+ rr_wire_name state +:+ ")"
      end
  end.

Definition participation_refused (ws_id readiness : string) : ErrorBody :=
  error_body ResourcePolicyUnsupported
    ("workspace `" +:+ ws_id +:+ "` requires resource participation: " +:+ readiness +:+
     "; this gateway cannot admit executions through the resource authority, so nothing was started").

Inductive Participating := TakesNoPart | IsManaged.

Definition participation_recorded (p : Participating) : RecordedParticipation :=
  match p with TakesNoPart => PartOff | IsManaged => PartRequired end.

(** [Uuid::simple]: the text without its hyphens. *)
Fixpoint simple (uuid : string) : string :=
  match uuid with
  | "" => ""
  | String c uuid => if bool_decide (c = "-"%char) then simple uuid else String c (simple uuid)
  end.

Definition new_attempt_id (uuid : string) : string := "cs-attempt-" +:+ simple uuid.

(** [never_sent]: no Runner acted on the request. *)
Definition never_sent (err : ErrorBody) : bool :=
  match code err with
  | StaleController | RecoveryPending | RunnerReconnecting | RunnerDisconnected => true
  | _ => false
  end.

(** [NotStarted]. *)
Record NotStarted := mkNotStarted { ns_body : ErrorBody; ns_proven : bool }.

Definition not_started_report (r : ManagedPreparation) (workspace_id : string) : NotStarted :=
  mkNotStarted (preparation_error r workspace_id) (proves_not_started r).
Definition not_started_unproven (body : ErrorBody) : NotStarted := mkNotStarted body false.
Definition not_started_refused (body : ErrorBody) : NotStarted :=
  mkNotStarted body (never_sent body).

Definition no_owner : NotStarted :=
  not_started_unproven (error_body Internal "no execution owner registration").
Definition mode_cannot_prepare : NotStarted :=
  not_started_refused (error_body ResourcePolicyUnsupported
    "this runner mode cannot prepare governed executions").
Definition mode_cannot_launch : NotStarted :=
  not_started_refused (error_body ResourcePolicyUnsupported
    "this runner mode cannot launch governed executions").

(** [prepare_governed] and [launch_governed], of the owner's answer. *)
Definition prepare_refused (workspace_id : string) (answer : result RunnerError ManagedPreparation)
    : NotStarted :=
  match answer with
  | Ok report => not_started_report report workspace_id
  | Err err => not_started_refused (into_error_body err)
  end.

Definition launch_outcome (workspace_id : string) (answer : result RunnerError Launch.LaunchReport)
    : result NotStarted ManagedLaunch :=
  match answer with
  | Ok (LaunchedReport launch) => Ok launch
  | Ok (NotLaunched report) => Err (not_started_report report workspace_id)
  | Err err => Err (not_started_refused (into_error_body err))
  end.

Definition launch_status (d : LaunchDispatch) : ExecDispatchStatus :=
  match d with
  | Launch.DispatchConfirmed => Domain.DispatchConfirmed
  | Launch.DispatchUnknown => Domain.DispatchUnknown
  end.

(** Whether the record of a launch says that it runs: once its helper exists. *)
Definition helper_created (launch : ManagedLaunch) : bool :=
  bool_decide (LpHelperCreated ∈ ml_phases launch).

(** * What an approval's return rests on

    A resumed approval is given back only for an answer that shows that nothing started. *)
Lemma given_back_not_started debug ws req attempt_id answer refused :
  launch_outcome ws (launched_answer debug req attempt_id answer) = Err refused ->
  ns_proven refused = true ->
  (exists report, answer = Ok (ResLaunched (NotLaunched report)) /\ proves_not_started report = true) \/
  (exists text, answer = Err (TransportBeforeDispatch text)) \/
  (exists body, answer = Err (RunnerExecution body) /\ never_sent body = true).
Proof.
  unfold launched_answer. destruct answer as [r|[body|text|text]]; cbn.
  - destruct r; cbn; try (by intros [= <-]). destruct report as [launch|report]; cbn; [done|].
    intros [= <-]. cbn. eauto.
  - intros [= <-]. cbn. eauto.
  - eauto.
  - done.
Qed.

(** A launch whose answer was lost is taken as started. *)
Lemma lost_launch_is_unknown debug ws req attempt_id text :
  exists launch,
    launch_outcome ws (launched_answer debug req attempt_id (Err (TransportAmbiguous text)))
      = Ok launch /\
    launch_status (ml_dispatch launch) = Domain.DispatchUnknown /\ helper_created launch = false.
Proof. by eexists. Qed.
