(* ===== verification/Gateway.v ===== *)
(** The gateway's tools ([crates/server/src/mcp.rs]): [CodeSpace], the state that its calls share,
    and each tool as a [call] over it, one turn per call of the store, the records or the
    recovery. What a tool serializes for its client is its result or its [ErrorBody]. *)
From S2P Require Import Prelude Domain Policy Registration Resource Ledger Approvals Coord Processes Contract.
From S2P Require Import Output Supervisor Api Records Recovery Wire Client Threads Governed.

(** * Parameters and fingerprints *)

Record ApplyPatchParams := mkApplyPatchParams {
  pa_workspace_id : string;
  pa_patch : string;
  pa_expected_versions : gmap string string;
  pa_operation_key : option string;
  pa_check_only : bool;
  pa_work_id : option string
}.

Record ExecCommandParams := mkExecCommandParams {
  pe_workspace_id : string;
  pe_command : list string;
  pe_work_id : option string;
  pe_tty : bool
}.

(** The JSON objects that [Store::fingerprint] and [Store::exec_fingerprint] hash. *)
Record PatchFingerprint := mkPatchFingerprint {
  pf_workspace_id : string;
  pf_patch : string;
  pf_expected_versions : gmap string string;
  pf_check_only : bool
}.

Record ExecFingerprint := mkExecFingerprint {
  ef_workspace_id : string;
  ef_command : list string;
  ef_tty : bool
}.

(** UUIDs: [uuid n] is the [n]-th that this gateway mints. No UUID is minted twice. *)
Class Uuids := {
  uuid : nat -> string;
  uuid_inj : Inj (=) (=) uuid
}.
#[export] Existing Instance uuid_inj.

(** What the tools write as JSON and read back. *)
Class ToolJson := {
  json_result :: Json ApplyPatchResult;
  json_events :: Json (list OperationEvent);
  json_resume :: Json PersistedResume;
  json_scrubbed :: Json ScrubbedParams;
  json_argv :: Json (list string);
  json_patch :: Json ApplyPatchParams;
  json_exec :: Json ExecCommandParams;
  json_patch_fingerprint :: Json PatchFingerprint;
  json_exec_fingerprint :: Json ExecFingerprint;
  (** Whether a JSON text is an object whose [scrubbed] is true, and the error's text where one
      is not what was asked for. *)
  json_scrubbed_flag : string -> bool;
  json_error : string -> string;
  scrubbed_flag_set (p : ScrubbedParams) : json_scrubbed_flag (to_json p) = true;
  scrubbed_flag_unset (p : ApplyPatchParams) : json_scrubbed_flag (to_json p) = false
}.

Section gateway.
Context `{Sql : SqlEngine} `{Ids : Uuids} `{TJ : ToolJson}.
Context (sha256_hex : string -> string) (debug : RunnerOpResult -> string).
(** The registry; whether the gateway records executions and reconciles, as one connected to an
    independent Runner does; [CODESPACE_PROCESS_TIMEOUT_SECS]; and whose executions it has
    prepared and launched with the resource authority. *)
Context (registry : Registry) (records_on recovery_on : bool) (timeout_env : option string).
Context (authority : GatewayAuthority).
(** Whether its Runner is its own or an independent one, and whether the Linux command sandbox is
    available, for [workspace_info]. *)
Context (lifecycle : GatewayLifecycle) (sandbox : bool).

Definition fingerprint (p : ApplyPatchParams) : string :=
  "sha256:" +:+ sha256_hex (to_json
    (mkPatchFingerprint (pa_workspace_id p) (pa_patch p) (pa_expected_versions p) (pa_check_only p))).

Definition exec_fingerprint (p : ExecCommandParams) : string :=
  "sha256:" +:+ sha256_hex (to_json (mkExecFingerprint (pe_workspace_id p) (pe_command p) (pe_tty p))).

(** * State *)

(** The store's tables and locks are with the recovery's records and leases; [cs_now] is the clock
    in milliseconds, and [cs_minted] counts the UUIDs minted. *)
Record CodeSpace := mkCodeSpace {
  cs_recovery : Recovery;
  cs_ledger : LedgerDb;
  cs_coord : CoordDb;
  cs_runner : RuntimeBackend;
  cs_now : Z;
  cs_minted : nat
}.

Definition cs_records (s : CodeSpace) : ProcessRecords := rv_records (cs_recovery s).
Definition cs_approvals (s : CodeSpace) : ApprovalsDb := rc_approvals (cs_records s).
Definition cs_table (s : CodeSpace) : ProcessTable := rc_table (cs_records s).
Definition cs_locks (s : CodeSpace) : Serializer := ls_locks (rv_leases (cs_recovery s)).
Definition now_secs (s : CodeSpace) : Z := cs_now s / 1000.

Definition set_recovery (s : CodeSpace) (rv : Recovery) : CodeSpace :=
  mkCodeSpace rv (cs_ledger s) (cs_coord s) (cs_runner s) (cs_now s) (cs_minted s).
Definition set_ledger (s : CodeSpace) (db : LedgerDb) : CodeSpace :=
  mkCodeSpace (cs_recovery s) db (cs_coord s) (cs_runner s) (cs_now s) (cs_minted s).
Definition set_coord (s : CodeSpace) (db : CoordDb) : CodeSpace :=
  mkCodeSpace (cs_recovery s) (cs_ledger s) db (cs_runner s) (cs_now s) (cs_minted s).
Definition set_runner (s : CodeSpace) (r : RuntimeBackend) : CodeSpace :=
  mkCodeSpace (cs_recovery s) (cs_ledger s) (cs_coord s) r (cs_now s) (cs_minted s).
Definition set_now (s : CodeSpace) (now : Z) : CodeSpace :=
  mkCodeSpace (cs_recovery s) (cs_ledger s) (cs_coord s) (cs_runner s) now (cs_minted s).
Definition minted (s : CodeSpace) : CodeSpace :=
  mkCodeSpace (cs_recovery s) (cs_ledger s) (cs_coord s) (cs_runner s) (cs_now s) (S (cs_minted s)).
Definition set_records (s : CodeSpace) (rc : ProcessRecords) : CodeSpace :=
  let rv := cs_recovery s in set_recovery s (mkRecovery rc (rv_leases rv) (rv_gate rv)).
Definition set_approvals_db (s : CodeSpace) (db : ApprovalsDb) : CodeSpace :=
  let rc := cs_records s in
  set_records s (mkProcessRecords (rc_runner rc) db (rc_table rc) (rc_ends rc) (rc_lost rc)).
Definition set_locks (s : CodeSpace) (l : Serializer) : CodeSpace :=
  let rv := cs_recovery s in
  set_recovery s (mkRecovery (rv_records rv) (mkLeases l (ls_exited (rv_leases rv))) (rv_gate rv)).

(** A request to the Runner: the controller epoch it carries, and its operation. *)
Definition RunnerRequest : Type := option Z * RunnerOp.
Definition RunnerAnswer (q : RunnerRequest) : Type := result RunnerError RunnerOpResult.

Abbreviation tool := (call CodeSpace RunnerRequest RunnerAnswer).
Abbreviation ret := (@Return CodeSpace RunnerRequest RunnerAnswer _).

Definition map_ok {A B} (f : A -> B) (r : res A) : res B :=
  match r with Ok a => Ok (f a) | Err e => Err e end.
Definition see {B} (f : CodeSpace -> B) : tool B := look f.
Definition step {B} (f : CodeSpace -> B * CodeSpace) : tool B := turn f.
Definition send (epoch : option Z) (op : RunnerOp) : tool (result RunnerError RunnerOpResult) :=
  ask (Answer := RunnerAnswer) (epoch, op).

(** One call of the store, or of what the store holds. *)
Definition on_locks {B} (f : Serializer -> B * Serializer) : tool B :=
  turn (fun s => let (b, l) := f (cs_locks s) in (b, set_locks s l)).
Definition on_approvals {B} (f : ApprovalsDb -> B * ApprovalsDb) : tool B :=
  turn (fun s => let (b, db) := f (cs_approvals s) in (b, set_approvals_db s db)).
Definition on_ledger {B} (f : Z -> LedgerDb -> B * LedgerDb) : tool B :=
  turn (fun s => let (b, db) := f (now_secs s) (cs_ledger s) in (b, set_ledger s db)).
Definition on_coord {B} (f : Z -> CoordDb -> B * CoordDb) : tool B :=
  turn (fun s => let (b, db) := f (now_secs s) (cs_coord s) in (b, set_coord s db)).
Definition on_records {B} (f : Z -> ProcessRecords -> B * ProcessRecords) : tool B :=
  turn (fun s => let (b, rc) := f (cs_now s) (cs_records s) in (b, set_records s rc)).

(** * Locks and reservations *)

(** [Store::acquire_write] and [Store::acquire_shell_busy]: a request that waits awaits its
    ticket's channel. *)
Definition wait_for (r : Resource) (outcome : AcquireOutcome) : tool (res unit) :=
  match complete_acquire r Exclusive outcome with
  | inl granted => ret granted
  | inr ticket =>
      await (fun s => (fun p => (p.1, set_locks s p.2)) <$> ticket_poll (cs_locks s) ticket)
  end.

Definition acquire_write (workspace_id : string) : tool (res unit) :=
  outcome ← on_locks (fun l => acquire_exclusive_write l workspace_id);
  wait_for (Resource.Workspace workspace_id) outcome.

Definition acquire_reservation (workspace_id process_id : string) : tool (res unit) :=
  outcome ← on_locks (fun l => acquire_shell_busy l workspace_id process_id);
  wait_for (Resource.Workspace workspace_id) outcome.

(** [WriteGuard::drop], and what ends a [ProcessReservation]. *)
Definition drop_lease (workspace_id : string) : tool unit :=
  on_locks (fun l => (tt, release_write l workspace_id)).
Definition end_reservation (f : Serializer -> ProcessReservation -> Serializer)
    (rv : ProcessReservation) : tool unit :=
  on_locks (fun l => (tt, f l rv)).

(** * The Runner *)

Definition backend_epoch (r : RuntimeBackend) : res (option Z) :=
  match r with BackendInProcess => Ok None | BackendUds c => Client.dispatch_epoch None c end.

Definition backend_claimed (r : RuntimeBackend) : option RunnerClaim :=
  match r with BackendInProcess => None | BackendUds c => claimed c end.

(** [RuntimeBackend::at_epoch] and a request over it. *)
Definition runner_call (epoch : option Z) (op : RunnerOp) : tool (result RunnerError RunnerOpResult) :=
  over ← see (fun s => match cs_runner s with
                        | BackendInProcess => Ok None
                        | BackendUds c => snd <$> call_over epoch c
                        end);
  try over (fun epoch => send epoch op).

Definition typed {A} (read : RunnerOpResult -> option A) (a : result RunnerError RunnerOpResult)
    : result RunnerError A :=
  match a with
  | Ok r => match read r with Some x => Ok x | None => Err (unexpected debug r) end
  | Err e => Err e
  end.

Definition runner_apply_patch (epoch : option Z) (ws : Policy.Workspace)
    (req : RunnerApplyPatchRequest) : tool (result RunnerError RunnerApplyPatchResult) :=
  typed (fun r => match r with ResApplyPatch x => Some x | _ => None end)
    <$> runner_call epoch (RqApplyPatch ws req).
Definition runner_exec (epoch : option Z) (ws : Policy.Workspace) (req : RunnerExecRequest)
    : tool (result RunnerError RunnerExecResult) :=
  typed (fun r => match r with ResExec x => Some x | _ => None end)
    <$> runner_call epoch (RqExec ws req).
Definition runner_read (ws : Policy.Workspace) (path : string) (offset limit : option Z)
    : tool (result RunnerError ReadResult) :=
  typed (fun r => match r with ResRead x => Some x | _ => None end)
    <$> runner_call None (RqRead ws path offset limit).
Definition runner_find (ws : Policy.Workspace) (glob : option string) (offset limit : option Z)
    : tool (result RunnerError FindResult) :=
  typed (fun r => match r with ResFind x => Some x | _ => None end)
    <$> runner_call None (RqFind ws glob offset limit).
Definition runner_write_stdin (req : RunnerWriteStdin) : tool (result RunnerError unit) :=
  typed (fun r => match r with ResWriteStdin => Some tt | _ => None end)
    <$> runner_call None (RqWriteStdin req).
Definition runner_read_process (req : RunnerReadProcess)
    : tool (result RunnerError RunnerReadResult) :=
  typed (fun r => match r with ResReadProcess x => Some x | _ => None end)
    <$> runner_call None (RqReadProcess req).
Definition runner_process_status (process_id : string)
    : tool (result RunnerError RunnerProcessStatus) :=
  typed (fun r => match r with ResProcessStatus x => Some x | _ => None end)
    <$> runner_call None (RqProcessStatus process_id).
Definition runner_resize (process_id : string) (rows cols : Z)
    : tool (result RunnerError RunnerResizeResult) :=
  typed (fun r => match r with ResResize x => Some x | _ => None end)
    <$> runner_call None (RqResize process_id rows cols).
Definition runner_terminate (process_id : string) : tool (result RunnerError unit) :=
  typed (fun r => match r with ResTerminate => Some tt | _ => None end)
    <$> runner_call None (RqTerminate process_id).
Definition runner_workspace_of (process_id : string) : tool (option string) :=
  (fun a => match a with Ok (ResWorkspaceOf ws) => ws | _ => None end)
    <$> runner_call None (RqWorkspaceOf process_id).

(** * What the tools share *)

(** [Registry::get] of the gateway's registry. *)
Definition workspace (id : string) : res Policy.Workspace := Policy.get registry id.

Definition client_claims_default : ClientClaims := mkClientClaims None None.

(** [CodeSpace::dispatch_epoch], with [admit]. *)
Definition dispatch_epoch (workspace_id : string) : tool (res (option Z)) :=
  epoch ← see (fun s => backend_epoch (cs_runner s));
  try epoch (fun epoch =>
    if recovery_on then
      admitted ← step (fun s =>
        let (rv, r) := admit_work (backend_claimed (cs_runner s)) workspace_id epoch (cs_recovery s) in
        (r, set_recovery s rv));
      try admitted (fun _ => ret (Ok epoch))
    else ret (Ok epoch)).

Definition refuse_new_work (workspace_id : string) : tool (res unit) :=
  epoch ← dispatch_epoch workspace_id;
  ret (map_ok (fun _ => tt) epoch).

(** [give_back]: a failure is only logged. *)
Definition give_back (resume : option string) : tool unit :=
  match resume with
  | Some id => on_approvals (fun db => (tt, snd (return_resume db id)))
  | None => ret tt
  end.

Definition hint_of (db : CoordDb) (workspace_id : string) (work_id : option string)
    : option CoordinationHint :=
  match coordination_hint db workspace_id work_id with Ok hint => hint | Err _ => None end.

Definition hint (workspace_id : string) (work_id : option string) : tool (option CoordinationHint) :=
  see (fun s => hint_of (cs_coord s) workspace_id work_id).

Definition process_hint (process_id : string) : tool (option CoordinationHint) :=
  ws ← runner_workspace_of process_id;
  match ws with Some ws => hint ws None | None => ret None end.

Definition with_hint (r : ApplyPatchResult) (workspace_id : string) (work_id : option string)
    : tool ApplyPatchResult :=
  coordination ← hint workspace_id work_id;
  ret (mkApplyPatchResult (ap_status r) (ap_operation_id r) (ap_replayed r) (ap_files r)
            (ap_changes r) work_id coordination).

(** [invalid_argv], [approval_required] and [params_scrubbed]. *)
Definition invalid_argv : ErrorBody :=
  error_body InvalidCommand "command must be a non-empty argv (no shell)".

Definition approval_required (id : string) : ErrorBody :=
  with_approval_id
    (error_body ApprovalRequired "confirmation is required before this allowed mutation can run") id.

Definition params_scrubbed (raw : string) : bool := json_scrubbed_flag raw.

(** [command.is_empty() || command[0].is_empty()]. *)
Definition empty_argv (command : list string) : bool :=
  match command with [] => true | argv0 :: _ => bool_decide (argv0 = "") end.

(** ** The resource authority *)

(** The owner's report of its registration, or why there is none ([Registration::report]). *)
Definition owner_registration (o : ExecutionOwner)
    : tool (result ResourceRegistrationState ResourceAuthorityInfo) :=
  asks ← see (fun s => can_report o (cs_runner s));
  if (asks : bool) then
    answer ← runner_call None RqRegistration;
    ret (registration_answer answer)
  else ret (Err RrUnsupportedMode).

(** [participation_readiness]. *)
Definition participation_readiness : tool string :=
  match registration_of authority with
  | Some o =>
      reported ← owner_registration o;
      ret (readiness authority (reported_state reported))
  | None => ret (readiness authority RrUnavailable)
  end.

(** [CodeSpace::participation]. *)
Definition participation (ws : Policy.Workspace) : tool (res Participating) :=
  if bool_decide (rs_participation (ws_resources ws) = ParticipationOff) then ret (Ok TakesNoPart)
  else
    prepared ← see (fun s => match registration_of authority with
                             | Some o => prepares o (cs_runner s)
                             | None => false
                             end);
    if (prepared : bool) then ret (Ok IsManaged)
    else
      state ← participation_readiness;
      ret (Err (participation_refused (ws_id ws) state)).

(** [prepare_governed]. *)
Definition prepare_governed (epoch : option Z) (ws : Policy.Workspace) (req : RunnerExecRequest)
    (attempt_id : string) : tool NotStarted :=
  match registration_of authority with
  | None => ret no_owner
  | Some o =>
      asks ← see (fun s => can_prepare o (cs_runner s));
      match asks with
      | None => ret mode_cannot_prepare
      | Some false => ret (prepare_refused (ws_id ws) (Err cannot_prepare))
      | Some true =>
          answer ← runner_call epoch (RqPrepare ws req attempt_id);
          ret (prepare_refused (ws_id ws) (prepared_answer debug req attempt_id answer))
      end
  end.

(** [launch_governed]. *)
Definition launch_governed (epoch : option Z) (ws : Policy.Workspace) (req : RunnerExecRequest)
    (attempt_id : string) : tool (result NotStarted Launch.ManagedLaunch) :=
  match registration_of authority with
  | None => ret (Err no_owner)
  | Some o =>
      asks ← see (fun s => can_launch o (cs_runner s));
      match asks with
      | None => ret (Err mode_cannot_launch)
      | Some false => ret (launch_outcome (ws_id ws) (Err cannot_launch))
      | Some true =>
          answer ← runner_call epoch (RqLaunch ws req attempt_id);
          ret (launch_outcome (ws_id ws) (launched_answer debug req attempt_id answer))
      end
  end.

(** [refused_governed]. *)
Definition refused_governed (resume : option string) (refused : NotStarted) : tool ErrorBody :=
  _ ← (if ns_proven refused then give_back resume else ret tt);
  ret (ns_body refused).

(** * Holding a mutation for approval *)

Definition create_hold (ws : Policy.Workspace) (tool_ : ApprovalTargetTool)
    (fp snapshot : string) : tool (res ApprovalRecord) :=
  step (fun s =>
    let (r, db) := create_approval (cs_approvals s) (ws_id ws) tool_ fp snapshot
                     (uuid (cs_minted s)) (now_secs s) in
    (r, minted (set_approvals_db s db))).

Definition maybe_hold (ws : Policy.Workspace) (tool_ : ApprovalTargetTool) (fp snapshot : string)
    : tool (res unit) :=
  if negb (holds_mutations (ws_approvals ws)) then ret (Ok tt)
  else
    created ← create_hold ws tool_ fp snapshot;
    try created (fun created => ret (Err (approval_required (ap_approval_id created)))).

Definition maybe_hold_patch (ws : Policy.Workspace) (p : ApplyPatchParams) : tool (res unit) :=
  maybe_hold ws ToolApplyPatch (fingerprint p) (to_json p).
Definition maybe_hold_exec (ws : Policy.Workspace) (p : ExecCommandParams) : tool (res unit) :=
  maybe_hold ws ToolExecCommand (exec_fingerprint p) (to_json p).

Record ApprovalCreateResult := mkApprovalCreateResult {
  ac_approval_id : string;
  ac_state : ApprovalState
}.

(** [approval_create_inner]; [arguments] is the client's JSON. *)
Definition approval_create (tool_ : ApprovalTargetTool) (arguments : string)
    : tool (res ApprovalCreateResult) :=
  let created ws tool_ fp snapshot :=
    r ← create_hold ws tool_ fp snapshot;
    ret (map_ok (fun r => mkApprovalCreateResult (ap_approval_id r) (ap_state r)) r) in
  match tool_ with
  | ToolApplyPatch =>
      try (ok_or (error_body InvalidPatch (json_error arguments)) (of_json arguments))
        (fun args : ApplyPatchParams =>
      try (workspace (pa_workspace_id args)) (fun ws =>
      try (allow ws ActionWrite client_claims_default) (fun _ =>
      try (ws_require_file_write ws) (fun _ =>
      created ws ToolApplyPatch (fingerprint args) (to_json args)))))
  | ToolExecCommand =>
      try (ok_or (error_body InvalidCommand (json_error arguments)) (of_json arguments))
        (fun args : ExecCommandParams =>
      if empty_argv (pe_command args) then ret (Err invalid_argv) else
      try (workspace (pe_workspace_id args)) (fun ws =>
      try (allow ws ActionExec client_claims_default) (fun _ =>
      try (ws_require_exec ws) (fun _ =>
      created ws ToolExecCommand (exec_fingerprint args) (to_json args)))))
  end.

(** * Patches *)

Definition begin_operation (p : ApplyPatchParams) : tool (res Begin) :=
  step (fun s =>
    let (r, db) := begin (cs_ledger s) (pa_operation_key p) (pa_workspace_id p) (fingerprint p)
                     (uuid (cs_minted s)) (now_secs s) in
    (r, minted (set_ledger s db))).

Definition finish_operation (id : string) (r : ApplyPatchResult) : tool (res unit) :=
  on_ledger (fun now db => finish db id r now).

(** [apply_patch_inner] between its [begin] and its return; [id] is the operation begun. *)
Definition apply_begun (p : ApplyPatchParams) (ws : Policy.Workspace) (epoch : option Z)
    (resume : option string) (id : string) : tool (res ApplyPatchResult) :=
  applied ← runner_apply_patch epoch ws
    (mkRunnerApplyPatchRequest (pa_patch p) (pa_expected_versions p) (pa_check_only p));
  match applied with
  | Ok applied =>
      let r := mkApplyPatchResult (as_status applied) id false (as_files applied)
                 (as_changes applied) None None in
      finished ← finish_operation id r;
      try finished (fun _ =>
        r ← with_hint r (pa_workspace_id p) (pa_work_id p);
        ret (Ok r))
  | Err (RunnerExecution err) =>
      if never_sent err then
        _ ← on_ledger (fun _ db => abandon db id);
        _ ← give_back resume;
        ret (Err err)
      else
        _ ← finish_operation id (apply_patch_result_new Rejected id);
        ret (Err (with_operation_id err id))
  | Err (TransportBeforeDispatch _) | Err (TransportAmbiguous _) =>
      let unknown := apply_patch_result_new PatchUnknown id in
      finished ← finish_operation id unknown;
      try finished (fun _ =>
        r ← with_hint unknown (pa_workspace_id p) (pa_work_id p);
        ret (Ok r))
  end.

(** [apply_patch_inner] while it holds the lease. *)
Definition apply_leased (p : ApplyPatchParams) (ws : Policy.Workspace) (resume : option string)
    : tool (res ApplyPatchResult) :=
  epoch ← dispatch_epoch (pa_workspace_id p);
  try epoch (fun epoch =>
    marked ← match resume with
             | Some id => on_approvals (fun db => mark_resuming db id)
             | None => ret (Ok tt)
             end;
    try marked (fun _ =>
      begun ← begin_operation p;
      try begun (fun begun =>
        match begun with
        | Replayed stored =>
            r ← with_hint (so_result stored) (pa_workspace_id p) (pa_work_id p);
            ret (Ok r)
        | Fresh id => apply_begun p ws epoch resume id
        end))).

Definition apply_patch_inner (p : ApplyPatchParams) (resume : option string)
    : tool (res ApplyPatchResult) :=
  try (workspace (pa_workspace_id p)) (fun ws =>
  try (allow ws ActionWrite client_claims_default) (fun _ =>
  try (ws_require_file_write ws) (fun _ =>
    leased ← acquire_write (pa_workspace_id p);
    try leased (fun _ =>
      r ← apply_leased p ws resume;
      _ ← drop_lease (pa_workspace_id p);
      ret r)))).

(** The [apply_patch] tool. *)
Definition apply_patch (p : ApplyPatchParams) : tool (res ApplyPatchResult) :=
  try (workspace (pa_workspace_id p)) (fun ws =>
  try (allow ws ActionWrite client_claims_default) (fun _ =>
  try (ws_require_file_write ws) (fun _ =>
    refused ← refuse_new_work (pa_workspace_id p);
    try refused (fun _ =>
      held ← maybe_hold_patch ws p;
      try held (fun _ => apply_patch_inner p None))))).

(** * Commands *)

Definition record_dispatching (p : ExecCommandParams) (process_id : string) (epoch : option Z)
    (part : Participating) (attempt_id resume : option string) : tool (res unit) :=
  if records_on then
    on_records (fun now rc =>
      dispatching sha256_hex rc process_id (pe_workspace_id p) (pe_command p) (pe_tty p) epoch
        (participation_recorded part) attempt_id resume now)
  else
    match resume with
    | Some id => on_approvals (fun db => mark_resuming db id)
    | None => ret (Ok tt)
    end.

Definition record_running (r : RunnerExecResult) : tool unit :=
  if records_on then
    on_records (fun now rc =>
      (tt, note_running rc (xs_process_id r)
             ((fun root => mkRootProcess (xroot_pid root) (xroot_started root)) <$> xs_root r)
             (xs_deadline_at_ms r) now))
  else ret tt.

Definition record_launch (l : Launch.ManagedLaunch) : tool unit :=
  if helper_created l
  then record_running (mkRunnerExecResult (Launch.ml_process_id l) (Launch.ml_root l)
                         (Launch.ml_deadline_at_ms l))
  else ret tt.

Definition not_started (process_id : string) : tool unit :=
  if records_on then on_records (fun now rc => (tt, snd (record_not_started rc process_id now)))
  else ret tt.

(** The request of [exec_command_inner]. *)
Definition exec_request (p : ExecCommandParams) (ws : Policy.Workspace) (process_id : string)
    : RunnerExecRequest :=
  let req := for_host timeout_env (pe_command p) process_id (ws_profile ws) in
  {| xr_argv := xr_argv req; xr_process_id := xr_process_id req; xr_cwd := xr_cwd req;
     xr_env := xr_env req; xr_timeout_ms := xr_timeout_ms req;
     xr_output_bytes_cap := xr_output_bytes_cap req; xr_tty := pe_tty p;
     xr_policy := mkRunnerExecPolicy (xp_workspace_profile (xr_policy req)) (ws_network ws) |}.

(** [exec_command_inner] from its dispatch on, under [reservation]. *)
Definition exec_dispatched (p : ExecCommandParams) (ws : Policy.Workspace) (epoch : option Z)
    (resume : option string) (reservation : ProcessReservation) : tool (res ExecCommandResult) :=
  let process_id := rv_process_id reservation in
  executed ← runner_exec epoch ws (exec_request p ws process_id);
  match executed with
  | Ok result =>
      _ ← end_reservation reservation_confirm reservation;
      _ ← record_running result;
      coordination ← hint (pe_workspace_id p) (pe_work_id p);
      ret (Ok (mkExecCommandResult (xs_process_id result) DispatchConfirmed coordination))
  | Err (TransportAmbiguous _) =>
      _ ← end_reservation reservation_confirm reservation;
      coordination ← hint (pe_workspace_id p) (pe_work_id p);
      ret (Ok (mkExecCommandResult process_id DispatchUnknown coordination))
  | Err err =>
      _ ← end_reservation reservation_abort reservation;
      _ ← not_started process_id;
      let err := into_error_body err in
      if never_sent err then
        _ ← give_back resume;
        ret (Err err)
      else ret (Err err)
  end.

(** [exec_command_inner] from its preparation on, of a governed execution. *)
Definition exec_governed (p : ExecCommandParams) (ws : Policy.Workspace) (epoch : option Z)
    (resume : option string) (reservation : ProcessReservation) (attempt_id : string)
    : tool (res ExecCommandResult) :=
  let process_id := rv_process_id reservation in
  let req := exec_request p ws process_id in
  launching ← see (fun s => match registration_of authority with
                            | Some o => launches o (cs_runner s)
                            | None => false
                            end);
  if (launching : bool) then
    let reservation := arm_dispatch reservation in
    launched ← launch_governed epoch ws req attempt_id;
    match launched with
    | Ok launch =>
        _ ← end_reservation reservation_confirm reservation;
        _ ← record_launch launch;
        coordination ← hint (pe_workspace_id p) (pe_work_id p);
        ret (Ok (mkExecCommandResult (Launch.ml_process_id launch)
                   (launch_status (Launch.ml_dispatch launch)) coordination))
    | Err refused =>
        _ ← end_reservation reservation_abort reservation;
        _ ← not_started process_id;
        err ← refused_governed resume refused;
        ret (Err err)
    end
  else
    refused ← prepare_governed epoch ws req attempt_id;
    _ ← not_started process_id;
    _ ← end_reservation reservation_abort reservation;
    err ← refused_governed resume refused;
    ret (Err err).

(** A governed execution's attempt is minted before its record names it. *)
Definition mint_attempt_id (part : Participating) : tool (option string) :=
  match part with
  | TakesNoPart => ret None
  | IsManaged =>
      id ← step (fun s => (new_attempt_id (uuid (cs_minted s)), minted s));
      ret (Some id)
  end.

(** [exec_command_inner] once the workspace is reserved: an early return drops the
    reservation. *)
Definition exec_reserved (p : ExecCommandParams) (ws : Policy.Workspace) (part : Participating)
    (resume : option string) (process_id : string) : tool (res ExecCommandResult) :=
  let reservation := mkProcessReservation process_id PreDispatch in
  let dropped err := _ ← end_reservation reservation_drop reservation; ret (Err err) in
  epoch ← dispatch_epoch (pe_workspace_id p);
  match epoch with
  | Err err => dropped err
  | Ok epoch =>
      attempt_id ← mint_attempt_id part;
      recorded ← record_dispatching p process_id epoch part attempt_id resume;
      match recorded, attempt_id with
      | Err err, _ => dropped err
      | Ok _, Some attempt_id => exec_governed p ws epoch resume reservation attempt_id
      | Ok _, None => exec_dispatched p ws epoch resume (arm_dispatch reservation)
      end
  end.

Definition mint_process_id : tool string :=
  step (fun s => ("proc-" +:+ uuid (cs_minted s), minted s)).

Definition exec_command_inner (p : ExecCommandParams) (resume : option string)
    : tool (res ExecCommandResult) :=
  try (workspace (pe_workspace_id p)) (fun ws =>
  try (allow ws ActionExec client_claims_default) (fun _ =>
  try (ws_require_exec ws) (fun _ =>
    if empty_argv (pe_command p) then ret (Err invalid_argv) else
    part ← participation ws;
    try part (fun part =>
      process_id ← mint_process_id;
      reserved ← acquire_reservation (pe_workspace_id p) process_id;
      try reserved (fun _ => exec_reserved p ws part resume process_id))))).

(** The [exec_command] tool. *)
Definition exec_command (p : ExecCommandParams) : tool (res ExecCommandResult) :=
  try (workspace (pe_workspace_id p)) (fun ws =>
  try (allow ws ActionExec client_claims_default) (fun _ =>
  try (ws_require_exec ws) (fun _ =>
    if empty_argv (pe_command p) then ret (Err invalid_argv) else
    refused ← refuse_new_work (pe_workspace_id p);
    try refused (fun _ =>
    part ← participation ws;
    try part (fun _ =>
      held ← maybe_hold_exec ws p;
      try held (fun _ => exec_command_inner p None)))))).

(** * Resuming an approval *)

(** [Store::claim_resume], its locked sections as turns; two rounds of its loop are enough
    ([claim_resume_returns]). *)
Fixpoint claim_approval (rounds : nat) (id : string) : tool (res ResumeClaim) :=
  match rounds with
  | 0 => await (fun _ => None)
  | S rounds =>
      loaded ← see (fun s => claim_load (cs_approvals s) id);
      match loaded with
      | inl claim => ret claim
      | inr _ =>
          marked ← on_approvals (fun db => mark_inflight db id);
          try marked (fun _ =>
            claim ← on_approvals (fun db => claim_locked db id);
            match claim with
            | Some claim => ret claim
            | None => claim_approval rounds id
            end)
      end
  end.

(** [Store::finish_resume], which releases the connection in between. *)
Definition finish_approval (id : string) (outcome : res OperationResumeResult) : tool (res unit) :=
  loaded ← on_approvals (fun db => finish_load db id outcome);
  match loaded with
  | inl r => ret r
  | inr _ => on_approvals (fun db => finish_persist db id outcome)
  end.

Definition with_code (e : ErrorBody) (c : ErrorCode) (m : string) : ErrorBody :=
  mkErrorBody c m (operation_id e) (approval_id e).

(** The error of a success that could not be persisted. *)
Definition not_persisted (id : string) (success : OperationResumeResult) (err : ErrorBody)
    : ErrorBody :=
  let err := if is_none (approval_id err) then with_approval_id err id else err in
  let err := match operation_id err, or_apply_patch success with
             | None, Some op => with_operation_id err (ap_operation_id op)
             | _, _ => err
             end in
  if bool_decide (code err = ApprovalAmbiguous) then err
  else with_code err ApprovalAmbiguous
         "mutation may have completed; resume result was not persisted".

Definition commit_resume (id : string) (outcome : res OperationResumeResult)
    : tool (res OperationResumeResult) :=
  finished ← finish_approval id outcome;
  ret match outcome, finished with
      | Ok success, Err err => Err (not_persisted id success err)
      | _, _ => outcome
      end.

Definition execute_approved (record : ApprovalRecord) : tool (res OperationResumeResult) :=
  let raw := ap_params_json record in
  match ap_tool record with
  | ToolApplyPatch =>
      try (ok_or (error_body InvalidPatch (json_error raw)) (of_json raw)) (fun p =>
        r ← apply_patch_inner p (Some (ap_approval_id record));
        try r (fun r =>
          ret (Ok (mkOperationResumeResult (ap_approval_id record) Consumed (Some r) None))))
  | ToolExecCommand =>
      try (ok_or (error_body InvalidCommand (json_error raw)) (of_json raw)) (fun p =>
        r ← exec_command_inner p (Some (ap_approval_id record));
        try r (fun r =>
          ret (Ok (mkOperationResumeResult (ap_approval_id record) Consumed None (Some r)))))
  end.

(** [lookup_patch_ledger], its lookups in one turn each. *)
Definition lookup_by_fingerprint (record : ApprovalRecord) (fp : string)
    : tool (res (option StoredOperation)) :=
  found ← see (fun s => find_operation_by_fingerprint (cs_ledger s) (ap_workspace_id record) fp
                          (ap_resolved_at record));
  ret (Ok found).

Definition lookup_patch_ledger (record : ApprovalRecord) : tool (res (option StoredOperation)) :=
  match of_json (ap_params_json record) with
  | Some p =>
      match pa_operation_key p with
      | Some key =>
          status ← see (fun s => status_lookup (cs_ledger s) None (Some key));
          match status with
          | Ok status =>
              stored ← see (fun s => Ledger.get (cs_ledger s) (os_operation_id status));
              ret (map_ok Some stored)
          | Err err =>
              if bool_decide (code err = OperationNotFound)
              then lookup_by_fingerprint record (fingerprint p)
              else ret (Err err)
          end
      | None => lookup_by_fingerprint record (fingerprint p)
      end
  | None => lookup_by_fingerprint record (ap_fingerprint record)
  end.

Definition reconcile_resume (record : ApprovalRecord) : tool (res OperationResumeResult) :=
  let id := ap_approval_id record in
  match ap_tool record with
  | ToolApplyPatch =>
      found ← lookup_patch_ledger record;
      try found (fun found =>
        match found with
        | Some stored =>
            r ← with_hint (so_result stored) (ap_workspace_id record) None;
            commit_resume id (Ok (mkOperationResumeResult id Consumed (Some r) None))
        | None =>
            if params_scrubbed (ap_params_json record) then
              commit_resume id (Err (with_approval_id
                (error_body ApprovalAmbiguous
                   "resume was interrupted and the snapshot is no longer available") id))
            else
              outcome ← execute_approved record;
              commit_resume id outcome
        end)
  | ToolExecCommand =>
      found ← see (fun s => records_of_approval (cs_table s) id);
      try found (fun found =>
        match list_find (fun r => Is_true (proves_started r)) found with
        | Some (_, started) =>
            let r := consumed_by id (pc_process_id started) in
            coordination ← hint (ap_workspace_id record) None;
            commit_resume id (Ok (mkOperationResumeResult (or_approval_id r) (or_state r)
              (or_apply_patch r)
              ((fun x => mkExecCommandResult (ec_process_id x) (ec_dispatch_status x) coordination)
                 <$> or_exec_command r)))
        | None =>
            commit_resume id (Err (with_approval_id
              (error_body ApprovalAmbiguous
                 "exec resume is ambiguous after interruption; the process was not restarted") id))
        end)
  end.

Definition starts_something (state : ApprovalState) : bool :=
  match state with Granted | Queued | Resuming => true | _ => false end.

(** [operation_resume_inner]; the guard of a claim is dropped as the arm that holds it ends. *)
Definition operation_resume (id : string) : tool (res OperationResumeResult) :=
  epoch ← see (fun s => backend_epoch (cs_runner s));
  try epoch (fun epoch =>
  loaded ← see (fun s => approval (cs_approvals s) id);
  try loaded (fun loaded =>
  admitted ← match loaded with
             | Some a =>
                 if starts_something (ap_state a) && recovery_on then
                   step (fun s =>
                     let (rv, r) := admit_work (backend_claimed (cs_runner s)) (ap_workspace_id a)
                                      epoch (cs_recovery s) in
                     (r, set_recovery s rv))
                 else ret (Ok tt)
             | None => ret (Ok tt)
             end;
  try admitted (fun _ =>
  claim ← claim_approval 2 id;
  try claim (fun claim =>
    let guarded (c : tool (res OperationResumeResult)) :=
      r ← c;
      _ ← on_approvals (fun db => (tt, drop_guard db id));
      ret r in
    match claim with
    | ReplaySuccess result => ret (Ok result)
    | ReplayError err => ret (Err err)
    | Execute record =>
        guarded (outcome ← execute_approved record; commit_resume (ap_approval_id record) outcome)
    | Reconcile record => guarded (reconcile_resume record)
    end)))).

(** * The other tools *)

(** [workspace_info], with [with_resource_authority_status]; [probed] is what the gateway's own
    probe of the authority finds for this call, where it makes one. *)
Definition resource_authority_status (probed : ResourceAuthorityInfo)
    : tool (option ResourceAuthorityInfo) :=
  match authority with
  | Registering o =>
      reported ← owner_registration o;
      info ← see (fun s => owner_report o (cs_runner s) reported probed);
      ret (Some info)
  | NotRegistering true => ret (Some probed)
  | NotRegistering false | WithoutDevGuard => ret None
  end.

Definition workspace_info_tool (workspace_id : option string) (probed : ResourceAuthorityInfo)
    : tool (res WorkspaceInfo) :=
  try (lookup_info sandbox registry workspace_id) (fun info =>
    status ← resource_authority_status probed;
    ret (Ok (with_authority (with_lifetime lifecycle info) status))).

Definition runner_err {A} (r : result RunnerError A) : res A :=
  match r with Ok a => Ok a | Err e => Err (into_error_body e) end.

Definition read_tool (workspace_id path : string) (offset limit : option Z)
    (work_id : option string) : tool (res ReadResult) :=
  try (workspace workspace_id) (fun ws =>
    r ← runner_read ws path offset limit;
    try (runner_err r) (fun r =>
      coordination ← hint workspace_id work_id;
      ret (Ok (mkReadResult (rdr_path r) (rdr_content r) (rdr_version r) (rdr_truncated r)
        (rdr_offset r) (rdr_byte_count r) (rdr_content_lossy r) (rdr_next_offset r) coordination)))).

Definition find_tool (workspace_id : string) (glob : option string) (offset limit : option Z)
    (work_id : option string) : tool (res FindResult) :=
  try (workspace workspace_id) (fun ws =>
    r ← runner_find ws glob offset limit;
    try (runner_err r) (fun r =>
      coordination ← hint workspace_id work_id;
      ret (Ok (mkFindResult (fnd_paths r) (fnd_truncated r) (fnd_offset r) (fnd_incomplete r)
        (fnd_listing_version r) (fnd_next_offset r) coordination)))).

Definition operation_status (id key : option string) : tool (res OperationStatusResult) :=
  see (fun s => status_lookup (cs_ledger s) id key).

(** [OkBody] is its coordination. *)
Definition write_stdin (process_id data : string) : tool (res (option CoordinationHint)) :=
  r ← runner_write_stdin (mkRunnerWriteStdin process_id data);
  try (runner_err r) (fun _ =>
    coordination ← process_hint process_id;
    ret (Ok coordination)).

(** [CodeSpace::recorded]. *)
Definition recorded_of (process_id : string) (err : RunnerError) : tool (option Recorded) :=
  see (fun s => if records_on then recorded (cs_records s) process_id err else None).

Definition read_process (process_id : string) (cursor : Z) : tool (res ReadProcessResult) :=
  r ← runner_read_process (mkRunnerReadProcess process_id cursor);
  match r with
  | Ok r =>
      _ ← (if records_on
           then on_records (fun now rc =>
                  (tt, note_output rc (rr_process_id r) (rr_cursor r) now))
           else ret tt);
      coordination ← process_hint process_id;
      ret (Ok (read_process_result r coordination))
  | Err err =>
      found ← recorded_of process_id err;
      match found with
      | Some found =>
          coordination ← process_hint process_id;
          let r := recorded_read found cursor in
          ret (Ok {| rp_process_id := rp_process_id r; rp_cursor := rp_cursor r;
                     rp_chunk := rp_chunk r; rp_eof := rp_eof r;
                     rp_output_lost := rp_output_lost r; rp_retained_from := rp_retained_from r;
                     rp_lost_reason := rp_lost_reason r; rp_coordination := coordination |})
      | None => ret (Err (into_error_body err))
      end
  end.

Definition process_status (process_id : string) : tool (res ProcessStatusResult) :=
  r ← runner_process_status process_id;
  match r with
  | Ok r =>
      _ ← (if records_on
           then on_records (fun now rc =>
                  (tt, match rs_state r with
                       | PExited => snd (record_ended rc r now)
                       | PRunning => note_output rc (rs_process_id r) (rs_output_total r) now
                       | PUnknown => rc
                       end))
           else ret tt);
      coordination ← process_hint process_id;
      ret (Ok (process_status_result r coordination))
  | Err err =>
      found ← recorded_of process_id err;
      match found with
      | Some found =>
          coordination ← process_hint process_id;
          let r := recorded_status found in
          ret (Ok {| ps_process_id := ps_process_id r; ps_state := ps_state r;
                     ps_exit_code := ps_exit_code r; ps_termination := ps_termination r;
                     ps_signal := ps_signal r; ps_output_total := ps_output_total r;
                     ps_output_retained_from := ps_output_retained_from r; ps_eof := ps_eof r;
                     ps_lost_reason := ps_lost_reason r; ps_coordination := coordination |})
      | None => ret (Err (into_error_body err))
      end
  end.

(** The rows, the columns and the coordination of a [ProcessResizeResult]. *)
Definition process_resize (process_id : string) (rows cols : Z)
    : tool (res (Z * Z * option CoordinationHint)) :=
  r ← runner_resize process_id rows cols;
  try (runner_err r) (fun r =>
    coordination ← process_hint process_id;
    ret (Ok (rz_rows r, rz_cols r, coordination))).

Definition terminate_process (process_id : string) : tool (res (option CoordinationHint)) :=
  r ← runner_terminate process_id;
  try (runner_err r) (fun _ =>
    coordination ← process_hint process_id;
    ret (Ok coordination)).

Definition work_open (workspace_id : string) (title : option string) : tool (res WorkOpenResult) :=
  try (workspace workspace_id) (fun _ =>
    step (fun s =>
      let (r, db) := open_work (cs_coord s) workspace_id title (uuid (cs_minted s)) (now_secs s) in
      (r, minted (set_coord s db)))).

Definition steer_status_tool (work_id : string) : tool (res SteerStatusResult) :=
  see (fun s => steer_status (cs_coord s) work_id).
Definition steer_claim_next (work_id : string) : tool (res SteerClaimNextResult) :=
  on_coord (fun now db => claim_next db work_id now).
Definition steer_complete (work_id intent_id : string) (outcome : SteerOutcome)
    : tool (res UserIntent) :=
  on_coord (fun now db => complete_intent db work_id intent_id outcome now).
Definition work_finish (work_id : string) : tool (res WorkFinishResult) :=
  on_coord (fun now db => finish_work db work_id now).

Definition approval_resolve (id : string) (decision : ApprovalDecision)
    : tool (res ApprovalResolveResult) :=
  step (fun s => let (r, db) := resolve_approval (cs_approvals s) id decision (now_secs s) in
                 (r, set_approvals_db s db)).

(** * The inbox ([server/src/inbox.rs])

    Its routes but [stop] are one call of the store each. *)
Inductive InboxRequest :=
  | InListWorks (workspace_id : option string)
  | InGetWork (work_id : string)
  | InListIntents (work_id : string)
  | InCreateDraft (work_id : string) (create : CreateIntent)
  | InEdit (intent_id : string) (revision : Z) (body : string) (delivery : option DeliveryPolicy)
  | InQueue (intent_id : string) (revision : Z)
  | InCancel (intent_id : string)
  | InReorder (work_id : string) (intent_ids : list string)
  | InStop (work_id : string) (reason : option string).

Inductive InboxAnswer :=
  | InWorks (works : list Work)
  | InWork (work : Work)
  | InIntents (intents : list UserIntent)
  | InIntent (intent : UserIntent)
  | InStopped (killed : Z) (intent : UserIntent).

(** [stop_work]. *)
Definition stop_work (work_id : string) (reason : option string) : tool (res InboxAnswer) :=
  work ← see (fun s => get_work (cs_coord s) work_id);
  try work (fun work =>
    killed ← typed (fun r => match r with ResTerminateWorkspace n => Some n | _ => None end)
               <$> runner_call None (RqTerminateWorkspace (w_workspace_id work));
    try (runner_err killed) (fun killed =>
      intent ← step (fun s =>
        let (r, db) := insert_stop_notice (cs_coord s) work_id (default "" reason)
                         (uuid (cs_minted s)) (now_secs s) in
        (r, minted (set_coord s db)));
      ret (map_ok (InStopped killed) intent))).

Definition inbox (request : InboxRequest) : tool (res InboxAnswer) :=
  match request with
  | InListWorks ws => works ← see (fun s => list_works (cs_coord s) ws); ret (Ok (InWorks works))
  | InGetWork id => work ← see (fun s => get_work (cs_coord s) id); ret (map_ok InWork work)
  | InListIntents id =>
      intents ← see (fun s => list_intents (cs_coord s) id true); ret (map_ok InIntents intents)
  | InCreateDraft id create =>
      intent ← step (fun s =>
        let (r, db) := create_draft (cs_coord s) id create (uuid (cs_minted s)) (now_secs s) in
        (r, minted (set_coord s db)));
      ret (map_ok InIntent intent)
  | InEdit id revision body delivery =>
      intent ← on_coord (fun now db => edit_intent db id revision body delivery now);
      ret (map_ok InIntent intent)
  | InQueue id revision =>
      intent ← on_coord (fun now db => queue_intent db id revision now);
      ret (map_ok InIntent intent)
  | InCancel id =>
      intent ← on_coord (fun now db => cancel_intent db id now); ret (map_ok InIntent intent)
  | InReorder id ids =>
      intents ← on_coord (fun now db => reorder_queued db id ids now);
      ret (map_ok InIntents intents)
  | InStop id reason => stop_work id reason
  end.

(** [InboxError::into_response]'s status. *)
Definition inbox_status (err : ErrorBody) : Z :=
  match code err with
  | WorkNotFound | IntentNotFound | ApprovalNotFound => 404
  | IntentAlreadyClaimed | IntentRevisionConflict | WorkClosed | QueueNotEmpty
  | ApprovalConflict | ApprovalRequired | ApprovalAmbiguous => 409
  | Unauthorized => 403
  | _ => 400
  end.

(** * Serving

    What clients call, and [settle_interrupted_resume], which a reconciliation calls beside them. *)
Inductive ToolCall :=
  | TWorkspaceInfo (workspace_id : option string) (probed : ResourceAuthorityInfo)
  | TRead (workspace_id path : string) (offset limit : option Z) (work_id : option string)
  | TFind (workspace_id : string) (glob : option string) (offset limit : option Z)
      (work_id : option string)
  | TApplyPatch (p : ApplyPatchParams)
  | TOperationStatus (id key : option string)
  | TExecCommand (p : ExecCommandParams)
  | TWriteStdin (process_id data : string)
  | TReadProcess (process_id : string) (cursor : Z)
  | TProcessStatus (process_id : string)
  | TProcessResize (process_id : string) (rows cols : Z)
  | TTerminateProcess (process_id : string)
  | TWorkOpen (workspace_id : string) (title : option string)
  | TSteerStatus (work_id : string)
  | TSteerClaimNext (work_id : string)
  | TSteerComplete (work_id intent_id : string) (outcome : SteerOutcome)
  | TWorkFinish (work_id : string)
  | TApprovalCreate (tool_ : ApprovalTargetTool) (arguments : string)
  | TApprovalResolve (id : string) (decision : ApprovalDecision)
  | TOperationResume (id : string)
  | TInbox (request : InboxRequest)
  | TSettle (id : string) (started : option OperationResumeResult).

Inductive ToolAnswer :=
  | AWorkspaceInfo (r : res WorkspaceInfo)
  | ARead (r : res ReadResult)
  | AFind (r : res FindResult)
  | AApplyPatch (r : res ApplyPatchResult)
  | AOperationStatus (r : res OperationStatusResult)
  | AExecCommand (r : res ExecCommandResult)
  | AReadProcess (r : res ReadProcessResult)
  | AProcessStatus (r : res ProcessStatusResult)
  | AProcessResize (r : res (Z * Z * option CoordinationHint))
  | AOk (r : res (option CoordinationHint))
  | AWorkOpen (r : res WorkOpenResult)
  | ASteerStatus (r : res SteerStatusResult)
  | ASteerClaimNext (r : res SteerClaimNextResult)
  | ASteerComplete (r : res UserIntent)
  | AWorkFinish (r : res WorkFinishResult)
  | AApprovalCreate (r : res ApprovalCreateResult)
  | AApprovalResolve (r : res ApprovalResolveResult)
  | AOperationResume (r : res OperationResumeResult)
  | AInbox (r : res InboxAnswer)
  | ASettled (r : res bool).

(** [Store::settle_interrupted_resume], its locked sections as turns. *)
Definition settle_resume (id : string) (started : option OperationResumeResult) : tool (res bool) :=
  marked ← on_approvals (fun db => mark_inflight db id);
  try marked (fun _ =>
    row ← see (fun s => approvals (cs_approvals s) !! id);
    settled ← match row with
              | None => ret (Err (not_found id))
              | Some row =>
                  if bool_decide (apr_state row <> approval_state_as_str Resuming) then ret (Ok false)
                  else
                    r ← match started with
                        | Some result => finish_approval id (Ok result)
                        | None => on_approvals (fun db => return_resume db id)
                        end;
                    ret (map_ok (fun _ => true) r)
              end;
    _ ← on_approvals (fun db => (tt, drop_guard db id));
    ret settled).

Definition serve (t : ToolCall) : tool ToolAnswer :=
  match t with
  | TWorkspaceInfo id probed => AWorkspaceInfo <$> workspace_info_tool id probed
  | TRead ws path offset limit work => ARead <$> read_tool ws path offset limit work
  | TFind ws glob offset limit work => AFind <$> find_tool ws glob offset limit work
  | TApplyPatch p => AApplyPatch <$> apply_patch p
  | TOperationStatus id key => AOperationStatus <$> operation_status id key
  | TExecCommand p => AExecCommand <$> exec_command p
  | TWriteStdin id data => AOk <$> write_stdin id data
  | TReadProcess id cursor => AReadProcess <$> read_process id cursor
  | TProcessStatus id => AProcessStatus <$> process_status id
  | TProcessResize id rows cols => AProcessResize <$> process_resize id rows cols
  | TTerminateProcess id => AOk <$> terminate_process id
  | TWorkOpen ws title => AWorkOpen <$> work_open ws title
  | TSteerStatus id => ASteerStatus <$> steer_status_tool id
  | TSteerClaimNext id => ASteerClaimNext <$> steer_claim_next id
  | TSteerComplete id intent outcome => ASteerComplete <$> steer_complete id intent outcome
  | TWorkFinish id => AWorkFinish <$> work_finish id
  | TApprovalCreate tool_ arguments => AApprovalCreate <$> approval_create tool_ arguments
  | TApprovalResolve id decision => AApprovalResolve <$> approval_resolve id decision
  | TOperationResume id => AOperationResume <$> operation_resume id
  | TInbox request => AInbox <$> inbox request
  | TSettle id started => ASettled <$> settle_resume id started
  end.

(** * What else happens in the gateway *)

Inductive OtherStep :=
  | OClock (now : Z)                               (** the clock *)
  | OClient (ev : ClientEvent)                     (** a task of the Runner's client *)
  | OExit (process_id : string)                    (** [on_release] *)
  | OReleaseAll                                    (** the worker was lost *)
  | ORestore (workspace_id process_id : string)    (** a reconciliation restores a lease *)
  | OExitsNoted (noted : bool)                     (** a reconciliation starts or ends *)
  | OProcess (op : ProcessOp)                      (** a write of process records *)
  | OLost                                          (** the Runner is lost *)
  | OGate (gate : Gate).                           (** a reconciliation takes account or ends *)

Definition set_leases (s : CodeSpace) (l : Leases) : CodeSpace :=
  let rv := cs_recovery s in set_recovery s (mkRecovery (rv_records rv) l (rv_gate rv)).

Definition other_run (o : OtherStep) (s : CodeSpace) : CodeSpace :=
  let rv := cs_recovery s in
  match o with
  | OClock now => set_now s (Z.max (cs_now s) now)
  | OClient ev =>
      match cs_runner s with
      | BackendUds c => set_runner s (BackendUds (client_run ev c))
      | BackendInProcess => s
      end
  | OExit id => set_leases s (lease_release (rv_leases rv) id)
  | OReleaseAll => set_locks s (release_all_processes (cs_locks s))
  | ORestore ws id => set_leases s (snd (restore (rv_leases rv) ws id))
  | OExitsNoted noted =>
      set_leases s (if noted then note_exits (rv_leases rv) else forget_exits (rv_leases rv))
  | OProcess op => set_records s (Records.with_table (cs_records s) (process_run sha256_hex op (cs_table s)))
  | OLost => set_records s (snd (Records.runner_lost (cs_records s) (cs_now s)))
  | OGate gate => set_recovery s (with_gate rv gate)
  end.

Definition other_step (o : OtherStep) (s s' : CodeSpace) : Prop := s' = other_run o s.

(** A restart: the tables survive; locks, guards and the gate do not, and the Runner and its
    client are new. *)
Definition restarted (s s' : CodeSpace) : Prop :=
  exists runner ref,
    s' = mkCodeSpace
           (mkRecovery
              (mkProcessRecords ref (mkApprovalsDb (approvals (cs_approvals s)) ∅ false)
                 (cs_table s) 0 false)
              (mkLeases serializer_default None) gate_default)
           (cs_ledger s) (cs_coord s) runner (cs_now s) (cs_minted s).

Definition gateway_reachable (s : CodeSpace)
    (p : pool CodeSpace RunnerAnswer ToolCall ToolAnswer OtherStep) : Prop :=
  pool_reachable serve other_step restarted s p.

End gateway.

Abbreviation tool := (call CodeSpace RunnerRequest RunnerAnswer).
Abbreviation gateway_pool := (pool CodeSpace RunnerAnswer ToolCall ToolAnswer OtherStep).
Abbreviation gateway_event := (event RunnerAnswer ToolCall OtherStep).
