(* ===== verification/Concrete.v ===== *)
(** Gateways to evaluate: instances of what [Gateway] assumes, with a codec of its own for each
    type that is written as JSON, and two workspaces of which one holds its mutations. *)
From S2P Require Import Prelude Domain Policy Resource Ledger Approvals Coord Processes Contract.
From S2P Require Import Output Supervisor Api Records Recovery Wire Client Threads Governed Gateway.

#[export] Instance ApplyPatchParams_eq_dec : EqDecision ApplyPatchParams.
Proof. solve_decision. Defined.
#[export] Instance ApplyPatchParams_countable : Countable ApplyPatchParams.
Proof.
  refine (inj_countable' (fun p => (pa_workspace_id p, pa_patch p, pa_expected_versions p,
                                    pa_operation_key p, pa_check_only p, pa_work_id p))
    (fun '(ws, patch, versions, key, check, work) =>
       mkApplyPatchParams ws patch versions key check work) _).
  by intros [].
Defined.
#[export] Instance ExecCommandParams_eq_dec : EqDecision ExecCommandParams.
Proof. solve_decision. Defined.
#[export] Instance ExecCommandParams_countable : Countable ExecCommandParams.
Proof.
  refine (inj_countable' (fun p => (pe_workspace_id p, pe_command p, pe_work_id p, pe_tty p))
    (fun '(ws, command, work, tty) => mkExecCommandParams ws command work tty) _).
  by intros [].
Defined.
#[export] Instance PatchFingerprint_eq_dec : EqDecision PatchFingerprint.
Proof. solve_decision. Defined.
#[export] Instance PatchFingerprint_countable : Countable PatchFingerprint.
Proof.
  refine (inj_countable' (fun p => (pf_workspace_id p, pf_patch p, pf_expected_versions p,
                                    pf_check_only p))
    (fun '(ws, patch, versions, check) => mkPatchFingerprint ws patch versions check) _).
  by intros [].
Defined.
#[export] Instance ExecFingerprint_eq_dec : EqDecision ExecFingerprint.
Proof. solve_decision. Defined.
#[export] Instance ExecFingerprint_countable : Countable ExecFingerprint.
Proof.
  refine (inj_countable' (fun p => (ef_workspace_id p, ef_command p, ef_tty p))
    (fun '(ws, command, tty) => mkExecFingerprint ws command tty) _).
  by intros [].
Defined.

(** ** Codecs *)

(** Scrubbed parameters and a patch's are two cases of one codec, so that a text tells which it
    is. *)
#[local] Instance params_json : Json (ScrubbedParams + ApplyPatchParams) := countable_json.

Definition scrubbed_json : Json ScrubbedParams.
Proof.
  refine {| to_json p := to_json (inl p : ScrubbedParams + ApplyPatchParams);
            of_json s := (of_json s : option (ScrubbedParams + ApplyPatchParams)) ≫=
                           fun p => match p with inl p => Some p | inr _ => None end |}.
  - intros p. by rewrite of_to_json.
  - intros p. apply to_json_nonempty.
Defined.

Definition patch_json : Json ApplyPatchParams.
Proof.
  refine {| to_json p := to_json (inr p : ScrubbedParams + ApplyPatchParams);
            of_json s := (of_json s : option (ScrubbedParams + ApplyPatchParams)) ≫=
                           fun p => match p with inr p => Some p | inl _ => None end |}.
  - intros p. by rewrite of_to_json.
  - intros p. apply to_json_nonempty.
Defined.

Definition scrubbed_text (s : string) : bool :=
  match (of_json s : option (ScrubbedParams + ApplyPatchParams)) with
  | Some (inl _) => true
  | _ => false
  end.

Lemma scrubbed_text_inl p :
  scrubbed_text (to_json (inl p : ScrubbedParams + ApplyPatchParams)) = true.
Proof. unfold scrubbed_text. by rewrite of_to_json. Qed.
Lemma scrubbed_text_inr p :
  scrubbed_text (to_json (inr p : ScrubbedParams + ApplyPatchParams)) = false.
Proof. unfold scrubbed_text. by rewrite of_to_json. Qed.

Definition concrete_json : ToolJson :=
  {| json_result := countable_json; json_events := countable_json;
     json_resume := countable_json; json_scrubbed := scrubbed_json;
     json_argv := countable_json; json_patch := patch_json; json_exec := countable_json;
     json_patch_fingerprint := countable_json; json_exec_fingerprint := countable_json;
     json_scrubbed_flag := scrubbed_text; json_error _ := "";
     scrubbed_flag_set := scrubbed_text_inl; scrubbed_flag_unset := scrubbed_text_inr |}.

#[local] Instance numeral_json : Json nat := countable_json.
Definition concrete_uuids : Uuids.
Proof.
  refine {| uuid := to_json |}. intros n m H.
  pose proof (of_to_json n) as Hn. rewrite H, of_to_json in Hn. congruence.
Defined.

(** ** A registry and a gateway in process *)

Definition free_ws : Policy.Workspace := workspace_new "w" "/srv/w" WorkspaceWrite.
Definition held_ws : Policy.Workspace :=
  mkWorkspace "h" "/srv/h" WorkspaceWrite DEFAULT_ENVIRONMENT_ID Host NetRestricted
    ApprovalsConfirm resources_default.
(** A workspace whose executions are governed. *)
Definition governed_ws : Policy.Workspace :=
  mkWorkspace "g" "/srv/g" WorkspaceWrite DEFAULT_ENVIRONMENT_ID Host NetRestricted ApprovalsOff
    (mkResources ParticipationRequired None).
Definition concrete_registry : Registry :=
  mkRegistry ∅ {["w" := free_ws; "h" := held_ws; "g" := governed_ws]}.

Lemma concrete_ids id ws : workspace concrete_registry id = Ok ws -> ws_id ws = id.
Proof.
  unfold workspace, Policy.get. cbn [rg_workspaces concrete_registry].
  destruct (decide (id = "w")) as [->|Hw]; [by intros [= <-]|].
  rewrite lookup_insert_ne by done.
  destruct (decide (id = "h")) as [->|Hh]; [by intros [= <-]|].
  rewrite lookup_insert_ne by done.
  destruct (decide (id = "g")) as [->|Hg]; [by intros [= <-]|].
  by rewrite lookup_singleton_ne.
Qed.

Definition concrete_start : CodeSpace :=
  mkCodeSpace
    (mkRecovery (mkProcessRecords (mkRunnerRef None 1 0 "n") approvals_empty ∅ 0 false)
       (mkLeases serializer_default None) gate_default)
    ledger_empty coord_empty BackendInProcess 0 0.
