(* ===== verification/Serving.v ===== *)
(** What the gateway's tools promise, in any pool of calls: [Gateway]'s tools under [Threads]. *)
From S2P Require Import Prelude Domain Policy Resource Ledger Approvals Coord Processes Contract Output.
From S2P Require Import Supervisor Api Records Recovery Wire Client Threads Governed Gateway Concrete.

Section serving.
Context `{Sql : SqlEngine} `{Ids : Uuids} `{TJ : ToolJson}.
Context (sha256_hex : string -> string) (debug : RunnerOpResult -> string).
Context (registry : Registry) (records_on recovery_on : bool) (timeout_env : option string).
Context (authority : GatewayAuthority) (lifecycle : GatewayLifecycle) (sandbox : bool).

Abbreviation serve := (Gateway.serve sha256_hex debug registry records_on recovery_on timeout_env authority lifecycle
     sandbox).
Abbreviation reachable :=
  (gateway_reachable sha256_hex debug registry records_on recovery_on timeout_env authority lifecycle
     sandbox).

(** * Termination *)

Create HintDb ends.

Ltac ends_step :=
  match goal with
  | |- forall _, _ => intros
  | |- _ => progress cbv beta zeta
  | |- within _ (Return _) => exact I
  | |- within _ (try _ _) => apply within_try
  | |- within _ (_ <$> _) => apply within_fmap
  | |- within _ (mbind _ (match ?x with _ => _ end)) => destruct x
  | |- within _ (mbind _ (Return _)) => cbn [mbind call_bind]
  | |- within _ (mbind _ _) =>
      eapply within_seq; [solve [auto with ends nocore | apply within_fmap; auto with ends nocore]
                         | cbn [Nat.sub]; lia | cbn [Nat.sub]]
  | |- within _ (match ?x with _ => _ end) => destruct x
  | |- within _ _ => first [solve [auto with ends nocore]
                           | eapply within_mono; [|solve [auto with ends nocore]]; cbn; lia]
  end.

Ltac ends := repeat ends_step.

Lemma see_ends {B} (f : CodeSpace -> B) : within 1 (see f).
Proof. by cbn. Qed.
Lemma step_ends {B} (f : CodeSpace -> B * CodeSpace) : within 1 (step f).
Proof. by cbn. Qed.
Lemma await_ends {B} (f : CodeSpace -> option (B * CodeSpace)) :
  within 1 (await f : tool B).
Proof. by cbn. Qed.
Lemma send_ends epoch op : within 1 (send epoch op).
Proof. by cbn. Qed.
Lemma on_locks_ends {B} (f : Serializer -> B * Serializer) : within 1 (on_locks f).
Proof. by cbn. Qed.
Lemma on_approvals_ends {B} (f : ApprovalsDb -> B * ApprovalsDb) : within 1 (on_approvals f).
Proof. by cbn. Qed.
Lemma on_ledger_ends {B} (f : Z -> LedgerDb -> B * LedgerDb) : within 1 (on_ledger f).
Proof. by cbn. Qed.
Lemma on_coord_ends {B} (f : Z -> CoordDb -> B * CoordDb) : within 1 (on_coord f).
Proof. by cbn. Qed.
Lemma on_records_ends {B} (f : Z -> ProcessRecords -> B * ProcessRecords) :
  within 1 (on_records f).
Proof. by cbn. Qed.
#[local] Hint Resolve see_ends step_ends await_ends send_ends on_locks_ends on_approvals_ends
  on_ledger_ends on_coord_ends on_records_ends : ends.

Lemma wait_for_ends r o : within 1 (wait_for r o).
Proof. unfold wait_for. ends. Qed.
Lemma runner_call_ends epoch op : within 2 (runner_call epoch op).
Proof. unfold runner_call. ends. Qed.
Lemma dispatch_epoch_ends ws : within 2 (dispatch_epoch recovery_on ws).
Proof. unfold dispatch_epoch. ends. Qed.
#[local] Hint Resolve wait_for_ends runner_call_ends dispatch_epoch_ends : ends.

Lemma hint_ends ws work : within 1 (hint ws work).
Proof. unfold hint. ends. Qed.
Lemma with_hint_ends r ws work : within 1 (with_hint r ws work).
Proof. unfold with_hint, hint. ends. Qed.
Lemma process_hint_ends id : within 3 (process_hint id).
Proof. unfold process_hint, runner_workspace_of, hint. ends. Qed.
Lemma give_back_ends resume : within 1 (give_back resume).
Proof. unfold give_back. ends. Qed.
Lemma refuse_new_work_ends ws : within 2 (refuse_new_work recovery_on ws).
Proof. unfold refuse_new_work. ends. Qed.
Lemma maybe_hold_ends ws tool_ fp snapshot : within 1 (maybe_hold ws tool_ fp snapshot).
Proof. unfold maybe_hold, create_hold. ends. Qed.
Lemma acquire_write_ends ws : within 2 (acquire_write ws).
Proof. unfold acquire_write. ends. Qed.
Lemma acquire_reservation_ends ws id : within 2 (acquire_reservation ws id).
Proof. unfold acquire_reservation. ends. Qed.
#[local] Hint Resolve hint_ends with_hint_ends process_hint_ends give_back_ends
  refuse_new_work_ends maybe_hold_ends acquire_write_ends acquire_reservation_ends : ends.

Lemma apply_begun_ends p ws epoch resume id : within 4 (apply_begun debug p ws epoch resume id).
Proof. unfold apply_begun, runner_apply_patch, finish_operation. ends. Qed.
#[local] Hint Resolve apply_begun_ends : ends.
Lemma apply_leased_ends p ws resume :
  within 8 (apply_leased sha256_hex debug recovery_on p ws resume).
Proof. unfold apply_leased, begin_operation. ends. Qed.
#[local] Hint Resolve apply_leased_ends : ends.
Lemma apply_patch_inner_ends p resume :
  within 11 (apply_patch_inner sha256_hex debug registry recovery_on p resume).
Proof. unfold apply_patch_inner, drop_lease. ends. Qed.

Lemma exec_dispatched_ends p ws epoch resume rv :
  within 5 (exec_dispatched debug records_on timeout_env p ws epoch resume rv).
Proof.
  unfold exec_dispatched, runner_exec, record_running, not_started, end_reservation. ends.
Qed.
Lemma record_dispatching_ends p id epoch part attempt_id resume :
  within 1 (record_dispatching sha256_hex records_on p id epoch part attempt_id resume).
Proof. unfold record_dispatching. ends. Qed.
Lemma owner_registration_ends o : within 3 (owner_registration o).
Proof. unfold owner_registration. ends. Qed.
#[local] Hint Resolve owner_registration_ends : ends.
Lemma participation_readiness_ends : within 3 (participation_readiness authority).
Proof. unfold participation_readiness. ends. Qed.
Lemma resource_authority_status_ends probed :
  within 4 (resource_authority_status authority probed).
Proof. unfold resource_authority_status. ends. Qed.
#[local] Hint Resolve participation_readiness_ends resource_authority_status_ends : ends.
Lemma participation_ends ws : within 4 (participation authority ws).
Proof. unfold participation. ends. Qed.
Lemma prepare_governed_ends epoch ws req attempt_id :
  within 3 (prepare_governed debug authority epoch ws req attempt_id).
Proof. unfold prepare_governed. ends. Qed.
Lemma launch_governed_ends epoch ws req attempt_id :
  within 3 (launch_governed debug authority epoch ws req attempt_id).
Proof. unfold launch_governed. ends. Qed.
Lemma record_launch_ends l : within 1 (record_launch records_on l).
Proof. unfold record_launch, record_running. ends. Qed.
Lemma refused_governed_ends resume refused : within 1 (refused_governed resume refused).
Proof. unfold refused_governed. ends. Qed.
#[local] Hint Resolve exec_dispatched_ends record_dispatching_ends participation_ends
  prepare_governed_ends launch_governed_ends record_launch_ends refused_governed_ends : ends.
Lemma exec_governed_ends p ws epoch resume rv attempt_id :
  within 7 (exec_governed debug records_on timeout_env authority p ws epoch resume rv attempt_id).
Proof. unfold exec_governed, not_started, end_reservation. ends. Qed.
Lemma mint_attempt_id_ends part : within 1 (mint_attempt_id part).
Proof. unfold mint_attempt_id. ends. Qed.
#[local] Hint Resolve exec_governed_ends mint_attempt_id_ends : ends.
Lemma exec_reserved_ends p ws part resume id :
  within 11 (exec_reserved sha256_hex debug records_on recovery_on timeout_env authority p ws part
               resume id).
Proof. unfold exec_reserved, end_reservation. ends. Qed.
#[local] Hint Resolve exec_reserved_ends : ends.
Lemma exec_command_inner_ends p resume :
  within 18 (exec_command_inner sha256_hex debug registry records_on recovery_on timeout_env
               authority p resume).
Proof. unfold exec_command_inner, mint_process_id. ends. Qed.
#[local] Hint Resolve apply_patch_inner_ends exec_command_inner_ends : ends.

Lemma claim_approval_ends id : within 7 (claim_approval 2 id).
Proof. unfold claim_approval. ends. Qed.
Lemma finish_approval_ends id r : within 2 (finish_approval id r).
Proof. unfold finish_approval. ends. Qed.
#[local] Hint Resolve claim_approval_ends finish_approval_ends : ends.
Lemma commit_resume_ends id r : within 2 (commit_resume id r).
Proof. unfold commit_resume. ends. Qed.
Lemma lookup_patch_ledger_ends record : within 2 (lookup_patch_ledger sha256_hex record).
Proof. unfold lookup_patch_ledger, lookup_by_fingerprint. ends. Qed.
Lemma execute_approved_ends record :
  within 18 (execute_approved sha256_hex debug registry records_on recovery_on timeout_env authority
               record).
Proof. unfold execute_approved. ends. Qed.
#[local] Hint Resolve commit_resume_ends lookup_patch_ledger_ends execute_approved_ends : ends.
Lemma reconcile_resume_ends record :
  within 22 (reconcile_resume sha256_hex debug registry records_on recovery_on timeout_env authority
               record).
Proof. unfold reconcile_resume. ends. Qed.
#[local] Hint Resolve reconcile_resume_ends : ends.

Lemma execute_and_commit_ends record :
  within 20 (outcome ← execute_approved sha256_hex debug registry records_on recovery_on
                         timeout_env authority record;
             commit_resume (ap_approval_id record) outcome).
Proof. ends. Qed.
Lemma settle_row_ends id started :
  within 2 (r ← match started with
                | Some result => finish_approval id (Ok result)
                | None => on_approvals (fun db => return_resume db id)
                end;
            Return (map_ok (fun _ => true) r) : tool (res bool)).
Proof. ends. Qed.
#[local] Hint Resolve execute_and_commit_ends settle_row_ends : ends.

Lemma serve_ends (t : ToolCall) : within 33 (serve t).
Proof.
  destruct t; cbn [Gateway.serve]; apply within_fmap;
    unfold workspace_info_tool, read_tool, find_tool, apply_patch, operation_status, exec_command,
      maybe_hold_patch, maybe_hold_exec, write_stdin, read_process, process_status, process_resize,
      terminate_process, work_open, steer_status_tool, steer_claim_next, steer_complete,
      work_finish, approval_create, create_hold, approval_resolve, operation_resume, inbox,
      stop_work, settle_resume, recorded_of, runner_read, runner_find, runner_write_stdin,
      runner_read_process, runner_process_status, runner_resize, runner_terminate; ends.
Qed.

(** A call that has not returned is never stuck: what it does next it can do at once, but for the
    poll of a lock's ticket and the Runner's answer. That holds of [claim_approval]'s loop as
    the rows of the approvals only move on, whatever the other calls do ([rows_keep]). *)

Definition not_pending (db : ApprovalsDb) (id : string) : Prop :=
  exists r, approvals db !! id = Some r /\ apr_state r <> "pending".
Definition settled (db : ApprovalsDb) (id : string) : Prop :=
  exists r, approvals db !! id = Some r /\ active_state (apr_state r) = false.

(** What no operation on the approvals undoes. *)
Definition rows_go_on (db db' : ApprovalsDb) : Prop :=
  forall id, (not_pending db id -> not_pending db' id) /\ (settled db id -> settled db' id).
Definition rows_keep (s s' : CodeSpace) : Prop := rows_go_on (cs_approvals s) (cs_approvals s').

#[local] Instance rows_keep_preorder : PreOrder rows_keep.
Proof.
  split; [by intros s id|]. intros s1 s2 s3 H1 H2 id. specialize (H1 id). specialize (H2 id).
  naive_solver.
Qed.

Lemma runs_go_on ops db : rows_go_on db (approvals_runs ops db).
Proof.
  intros id. split; intros (r & Hr & H); [by eapply not_pending_again|].
  exists r. split; [by apply inactive_stays|done].
Qed.
Lemma run_goes_on op db : rows_go_on db (approvals_run op db).
Proof. exact (runs_go_on [op] db). Qed.

Definition waits_for_ticket {B} (step : CodeSpace -> option (B * CodeSpace)) (t : WaitTicket)
    : Prop :=
  forall s, step s = None <-> ticket_poll (cs_locks s) t = None.

(** What a call can do next. *)
Definition goes_on {A} (s : CodeSpace) (c : tool A) : Prop :=
  match c with
  | Turn step _ => is_Some (step s) \/ exists t, waits_for_ticket step t
  | Return _ | Ask _ _ => True
  end.

(** A call that always goes on, from [s] and whatever the other calls do, and ends with [Q]. *)
Fixpoint rests {A} (Q : A -> CodeSpace -> Prop) (c : tool A) (s : CodeSpace) : Prop :=
  match c with
  | Return a => forall s', rows_keep s s' -> Q a s'
  | Turn step k => forall s', rows_keep s s' ->
      (is_Some (step s') \/ exists t, waits_for_ticket step t) /\
      forall b s'', step s' = Some (b, s'') -> rows_keep s' s'' /\ rests Q (k b) s''
  | Ask q k => forall a, rests Q (k a) s
  end.

Lemma rests_later {A} (Q : A -> CodeSpace -> Prop) (c : tool A) s s' :
  rows_keep s s' -> rests Q c s -> rests Q c s'.
Proof.
  intros Hs. induction c as [a|B step k IH|q k IH]; cbn; [|intros H s2 H2; apply H; by etrans|auto].
  intros H s2 H2. apply H. by etrans.
Qed.

Lemma rests_bind {A B} (Q : B -> CodeSpace -> Prop) (c : tool A) (f : A -> tool B) s :
  rests (fun a s => rests Q (f a) s) c s -> rests Q (c ≫= f) s.
Proof.
  revert s. induction c as [a|C step k IH|q k IH]; intros s; cbn; [|intros H s' Hs|auto].
  - intros H. by apply H.
  - destruct (H s' Hs) as [H1 H2]. split; [done|]. intros b s2 Hb.
    destruct (H2 b s2 Hb). auto.
Qed.

Lemma rests_mono {A} (Q Q' : A -> CodeSpace -> Prop) (c : tool A) s :
  (forall a s, Q a s -> Q' a s) -> rests Q c s -> rests Q' c s.
Proof.
  intros HQ. revert s. induction c as [a|B step k IH|q k IH]; intros s; cbn; [auto|intros H s' Hs|auto].
  destruct (H s' Hs) as [H1 H2]. split; [done|]. intros b s2 Hb. destruct (H2 b s2 Hb). auto.
Qed.

Lemma rests_turn {A B} (Q : A -> CodeSpace -> Prop) (f : CodeSpace -> B * CodeSpace)
    (k : B -> tool A) s :
  (forall s', rows_keep s s' ->
     rows_keep s' (f s').2 /\ rests Q (k (f s').1) (f s').2) ->
  rests Q (turn f ≫= k) s.
Proof. intros H s' Hs. split; [left; by eexists|]. intros b s2 [= Hf]. specialize (H s' Hs). by rewrite Hf in H. Qed.

(** Calls of which no more is asked. *)
Definition ongoing {A} (c : tool A) : Prop := forall s, rests (fun _ _ => True) c s.

Lemma ongoing_bind {A B} (c : tool A) (f : A -> tool B) :
  ongoing c -> (forall a, ongoing (f a)) -> ongoing (c ≫= f).
Proof. intros Hc Hf s. apply rests_bind. eapply rests_mono; [|apply Hc]. intros a s' _. apply Hf. Qed.
Lemma ongoing_fmap {A B} (c : tool A) (f : A -> B) : ongoing c -> ongoing (f <$> c).
Proof. intros Hc. by apply ongoing_bind. Qed.
Lemma ongoing_try {E A B} (m : result E A) (k : A -> tool (result E B)) :
  (forall a, ongoing (k a)) -> ongoing (try m k).
Proof. destruct m; cbn; [auto|done]. Qed.
Lemma ongoing_ret {A} (a : A) : ongoing (Return a).
Proof. done. Qed.
Lemma ongoing_send epoch op : ongoing (send epoch op).
Proof. done. Qed.
Lemma ongoing_turn {B} (f : CodeSpace -> B * CodeSpace) :
  (forall s, rows_keep s (f s).2) -> ongoing (turn f : tool B).
Proof. intros Hf s. apply rests_turn. intros s' _. done. Qed.
Lemma ongoing_see {B} (f : CodeSpace -> B) : ongoing (see f).
Proof. by apply ongoing_turn. Qed.
Lemma ongoing_locks {B} (f : Serializer -> B * Serializer) : ongoing (on_locks f).
Proof. apply ongoing_turn. intros s. by destruct (f _). Qed.
Lemma ongoing_ledger {B} (f : Z -> LedgerDb -> B * LedgerDb) : ongoing (on_ledger f).
Proof. apply ongoing_turn. intros s. by destruct (f _ _). Qed.
Lemma ongoing_coord {B} (f : Z -> CoordDb -> B * CoordDb) : ongoing (on_coord f).
Proof. apply ongoing_turn. intros s. by destruct (f _ _). Qed.
Lemma ongoing_records {B} (f : Z -> ProcessRecords -> B * ProcessRecords) :
  (forall now rc, rows_go_on (rc_approvals rc) (rc_approvals (f now rc).2)) ->
  ongoing (on_records f).
Proof.
  intros Hf. apply ongoing_turn. intros s. specialize (Hf (cs_now s) (cs_records s)).
  by destruct (f _ _) as [b rc].
Qed.
Lemma ongoing_approvals {B} (f : ApprovalsDb -> B * ApprovalsDb) (op : ApprovalsOp) :
  (forall db, (f db).2 = approvals_run op db) -> ongoing (on_approvals f).
Proof.
  intros Hf. apply ongoing_turn. intros s. pose proof (run_goes_on op (cs_approvals s)) as H.
  rewrite <- Hf in H. destruct (f _) as [b db]. exact H.
Qed.
Lemma ongoing_wait_for r o : ongoing (wait_for r o).
Proof.
  unfold wait_for. destruct (complete_acquire r Exclusive o) as [granted|ticket]; [done|].
  intros s s' _. split.
  - right. exists ticket. intros s2. by destruct (ticket_poll _ _).
  - intros b s2 ([v l] & Hv & [= -> ->])%fmap_Some. done.
Qed.

(** A claim of an approval goes round its loop once at most: a row that was found claimable and
    then settled stays settled. *)
Lemma claimable_not_pending db id u : claim_load db id = inr u -> not_pending db id.
Proof.
  unfold claim_load, not_pending. destruct (approvals db !! id) as [r|]; [|done].
  intros H. exists r. split; [done|]. intros Hp. rewrite Hp in H. done.
Qed.
Lemma settled_not_claimable db id u : settled db id -> claim_load db id <> inr u.
Proof.
  unfold claim_load. intros (r & -> & Ha). unfold active_state in Ha.
  apply bool_decide_eq_false in Ha. repeat case_bool_decide; try done. set_solver.
Qed.
Lemma not_claimed_settled db id db' :
  not_pending db id -> claim_locked db id = (None, db') -> settled db' id.
Proof.
  intros (r & Hr & Hp) H. unfold claim_locked in H. rewrite Hr in H. revert H.
  case_bool_decide as H1.
  - unfold update_approval, state_is. rewrite Hr, bool_decide_eq_true_2 by done. done.
  - repeat case_bool_decide; try done; intros; simplify_eq. exists r. split; [done|].
    unfold active_state. apply bool_decide_eq_false. set_solver.
Qed.

Lemma ongoing_claim_approval id : ongoing (claim_approval 2 id).
Proof.
  intros s. cbn [claim_approval]. apply rests_turn. intros s1 _. split; [done|]. cbn [fst snd].
  destruct (claim_load (cs_approvals s1) id) as [claim|u] eqn:El; [done|].
  apply claimable_not_pending in El. apply rests_turn. intros s2 H2.
  pose proof (run_goes_on (AMarkInflight id) (cs_approvals s2)) as Hm. cbn [approvals_run] in Hm.
  destruct (mark_inflight (cs_approvals s2) id) as [marked db2]. split; [exact Hm|].
  cbn [fst snd] in *. destruct marked as [[]|err]; [|done]. cbn [try].
  apply rests_turn. intros s3 H3.
  pose proof (run_goes_on (AClaimLocked id) (cs_approvals s3)) as Hc. cbn [approvals_run] in Hc.
  destruct (claim_locked (cs_approvals s3) id) as [claim db3] eqn:Ec. split; [exact Hc|].
  cbn [fst snd] in *. destruct claim as [claim|]; [done|].
  apply not_claimed_settled in Ec; [|by apply H3, Hm, H2].
  apply rests_turn. intros s4 H4. split; [done|]. cbn [fst snd].
  destruct (claim_load (cs_approvals s4) id) as [claim|u4] eqn:El4; [done|].
  exfalso. by apply (settled_not_claimable (cs_approvals s4) id u4); [apply H4|].
Qed.

Create HintDb ongoing.

Ltac ongoing_step :=
  match goal with
  | |- forall _, _ => intros
  | |- _ => progress cbv beta zeta
  | |- ongoing (Return _) => apply ongoing_ret
  | |- ongoing (try _ _) => apply ongoing_try
  | |- ongoing (_ <$> _) => apply ongoing_fmap
  | |- ongoing (mbind _ _) => apply ongoing_bind
  | |- ongoing (match ?x with _ => _ end) => destruct x
  | |- ongoing (on_approvals _) =>
      first [by eapply (ongoing_approvals _ (AMarkInflight _))
            |by eapply (ongoing_approvals _ (ADropGuard _))
            |by eapply (ongoing_approvals _ (AFinishLoad _ _))
            |by eapply (ongoing_approvals _ (AFinishPersist _ _))
            |by eapply (ongoing_approvals _ (AReturnResume _))
            |by eapply (ongoing_approvals _ (AMarkResuming _))]
  | |- ongoing (on_records _) =>
      apply ongoing_records; intros; repeat case_match; done
  | |- ongoing _ => solve [auto with ongoing nocore]
  | |- ongoing (step _) => apply ongoing_turn; intros ?; repeat case_match; done
  end.
Ltac ongoing := repeat ongoing_step.
#[local] Hint Resolve ongoing_send ongoing_see ongoing_locks ongoing_ledger ongoing_coord
  ongoing_wait_for ongoing_claim_approval : ongoing.

Lemma ongoing_create_hold ws tool_ fp snapshot : ongoing (create_hold ws tool_ fp snapshot).
Proof.
  unfold create_hold. apply ongoing_turn. intros s.
  match goal with |- context [create_approval ?db ?w ?t ?f ?j ?u ?n] =>
    pose proof (run_goes_on (ACreate w t f j u n) db) as H end.
  cbn [approvals_run] in H. destruct (create_approval _ _ _ _ _ _ _). exact H.
Qed.
Lemma ongoing_resolve id decision : ongoing (approval_resolve id decision).
Proof.
  unfold approval_resolve. apply ongoing_turn. intros s.
  pose proof (run_goes_on (AResolve id decision (now_secs s)) (cs_approvals s)) as H.
  cbn [approvals_run] in H. destruct (resolve_approval _ _ _ _). exact H.
Qed.
Lemma ongoing_admit ws epoch :
  ongoing (step (fun s =>
    let (rv, r) := admit_work (backend_claimed (cs_runner s)) ws epoch (cs_recovery s) in
    (r, set_recovery s rv))).
Proof.
  apply ongoing_turn. intros s.
  assert (H : rows_go_on (cs_approvals s) (rc_approvals (rv_records
    (admit_work (backend_claimed (cs_runner s)) ws epoch (cs_recovery s)).1))).
  { unfold admit_work. destruct epoch as [epoch|]; [|done]. cbn [fst].
    destruct (already_claimed _ _); [done|]. destruct (backend_claimed _) as [claim|]; [|done].
    case_bool_decide; [|done]. unfold take_account. by repeat case_match. }
  by destruct (admit_work _ _ _ _).
Qed.
#[local] Hint Resolve ongoing_create_hold ongoing_resolve ongoing_admit : ongoing.

Lemma ongoing_record_dispatching p id epoch part attempt_id resume :
  ongoing (record_dispatching sha256_hex records_on p id epoch part attempt_id resume).
Proof.
  unfold record_dispatching. ongoing. apply ongoing_records. intros now rc.
  unfold dispatching, record_dispatch. cbn [np_approval_id]. destruct resume as [approval|].
  - pose proof (run_goes_on (AMarkResuming approval) (rc_approvals rc)) as H. cbn [approvals_run] in H.
    destruct (mark_resuming _ _) as [[[]|err] adb]; [|done]. by destruct (is_some _).
  - by destruct (is_some _).
Qed.
#[local] Hint Resolve ongoing_record_dispatching : ongoing.

Lemma ongoing_runner_call epoch op : ongoing (runner_call epoch op).
Proof. unfold runner_call. ongoing. Qed.
Lemma ongoing_dispatch_epoch ws : ongoing (dispatch_epoch recovery_on ws).
Proof. unfold dispatch_epoch. ongoing. Qed.
Lemma ongoing_hint ws work : ongoing (hint ws work).
Proof. unfold hint. ongoing. Qed.
#[local] Hint Resolve ongoing_runner_call ongoing_dispatch_epoch ongoing_hint : ongoing.
Lemma ongoing_refuse_new_work ws : ongoing (refuse_new_work recovery_on ws).
Proof. unfold refuse_new_work. ongoing. Qed.
Lemma ongoing_process_hint id : ongoing (process_hint id).
Proof. unfold process_hint, runner_workspace_of. ongoing. Qed.
Lemma ongoing_give_back resume : ongoing (give_back resume).
Proof. unfold give_back. ongoing. Qed.
Lemma ongoing_owner_registration o : ongoing (owner_registration o).
Proof. unfold owner_registration. ongoing. Qed.
#[local] Hint Resolve ongoing_refuse_new_work ongoing_process_hint ongoing_give_back
  ongoing_owner_registration : ongoing.
Lemma ongoing_participation ws : ongoing (participation authority ws).
Proof. unfold participation, participation_readiness. ongoing. Qed.
Lemma ongoing_commit_resume id outcome : ongoing (commit_resume id outcome).
Proof. unfold commit_resume, finish_approval. ongoing. Qed.
#[local] Hint Resolve ongoing_participation ongoing_commit_resume : ongoing.

Lemma ongoing_apply_patch_inner p resume :
  ongoing (apply_patch_inner sha256_hex debug registry recovery_on p resume).
Proof.
  unfold apply_patch_inner, acquire_write, apply_leased, apply_begun, begin_operation,
    finish_operation, runner_apply_patch, drop_lease, with_hint. ongoing.
Qed.
Lemma ongoing_exec_command_inner p resume :
  ongoing (exec_command_inner sha256_hex debug registry records_on recovery_on timeout_env authority
             p resume).
Proof.
  unfold exec_command_inner, mint_process_id, acquire_reservation, exec_reserved, mint_attempt_id,
    exec_governed, exec_dispatched, launch_governed, prepare_governed, refused_governed, runner_exec,
    record_launch, record_running, not_started, end_reservation. ongoing.
Qed.
#[local] Hint Resolve ongoing_apply_patch_inner ongoing_exec_command_inner : ongoing.

Lemma ongoing_execute_approved record :
  ongoing (execute_approved sha256_hex debug registry records_on recovery_on timeout_env authority
             record).
Proof. unfold execute_approved. ongoing. Qed.
#[local] Hint Resolve ongoing_execute_approved : ongoing.

Lemma ongoing_serve t : ongoing (serve t).
Proof.
  destruct t; cbn [Gateway.serve]; apply ongoing_fmap;
    unfold workspace_info_tool, resource_authority_status, read_tool, find_tool, apply_patch,
      operation_status, exec_command, maybe_hold_patch, maybe_hold_exec, maybe_hold, write_stdin,
      read_process, process_status, process_resize, terminate_process, work_open,
      steer_status_tool, steer_claim_next, steer_complete, work_finish, approval_create,
      operation_resume, reconcile_resume, lookup_patch_ledger,
      lookup_by_fingerprint, inbox, stop_work, settle_resume, finish_approval, recorded_of,
      runner_read, runner_find, runner_write_stdin, runner_read_process, runner_process_status,
      runner_resize, runner_terminate, with_hint; ongoing.
Qed.

(** In a pool every call in flight is such a call, from the state that the pool is in. *)
Definition thread_rests (s : CodeSpace) (t : @thread CodeSpace RunnerRequest RunnerAnswer ToolAnswer) : Prop :=
  match t with
  | Running c => rests (fun (_ : ToolAnswer) _ => True) c s
  | Waiting q k => forall a, rests (fun _ _ => True) (k a) s
  | Dropped => True
  end.

Lemma thread_rests_later s s' t : rows_keep s s' -> thread_rests s t -> thread_rests s' t.
Proof. intros Hs. destruct t; cbn; [by apply rests_later|intros H a; by eapply rests_later|done]. Qed.

Lemma other_rows_keep o s : rows_keep s (other_run sha256_hex o s).
Proof.
  destruct o; cbn; try done.
  by destruct (cs_runner s).
Qed.

Lemma pool_rests s p : reachable s p -> Forall (thread_rests (pl_state p)) (pl_threads p).
Proof.
  intros Hr. pattern p. revert p Hr. apply rtc_ind_r; [constructor|].
  intros p p' _ Hstep HT. destruct Hstep as [s1 T log t|s1 T log i B step k b s2 Ht Hs
    |s1 T log i q k Ht|s1 T log i q k a Ht|s1 T log o s2 Ho|s1 T log s2 Hres]; cbn in *.
  - apply Forall_app. split; [done|]. constructor; [apply ongoing_serve|constructor].
  - pose proof (Forall_lookup_1 _ _ _ _ HT Ht) as Hi. destruct (Hi s1) as [_ Hk]; [done|].
    destruct (Hk b s2 Hs) as [Hkeep Hb]. apply Forall_insert; [|exact Hb].
    eapply Forall_impl; [exact HT|]. intros t. by apply thread_rests_later.
  - pose proof (Forall_lookup_1 _ _ _ _ HT Ht) as Hi. by apply Forall_insert.
  - pose proof (Forall_lookup_1 _ _ _ _ HT Ht a) as Hi. by apply Forall_insert.
  - rewrite Ho. eapply Forall_impl; [exact HT|]. intros t.
    apply thread_rests_later, other_rows_keep.
  - apply Forall_fmap, Forall_true. done.
Qed.

(** C39: Every call of a tool ends: it has returned after at most thirty-three of its own turns and
    answers, and until then, in whatever pool of calls, it can take its next turn at once, or send
    its next request, unless it waits for the Runner's answer or polls the ticket of a lock. So
    no call waits for anything else; the loop of [claim_approval] in particular, which is
    given two rounds here, never gets to a third. *)
Theorem tools_end (s : CodeSpace) (p : gateway_pool) (Hr : reachable s p) :
  (forall t, within 33 (serve t)) /\
  forall i c, pl_threads p !! i = Some (Running c) -> goes_on (pl_state p) c.
Proof.
  split; [exact serve_ends|]. intros i c Hi.
  pose proof (Forall_lookup_1 _ _ _ _ (pool_rests s p Hr) Hi) as H.
  destruct c as [r|B step k|q k]; [done| |done]. exact (proj1 (H (pl_state p) (reflexivity _))).
Qed.

(** * What is sent *)

Section quietness.
Context (may : RunnerRequest -> Prop).

Lemma quiet_fmap {A B} (P : A -> Prop) (Q : B -> Prop) (c : tool A) (f : A -> B) :
  quiet may P c -> (forall a, P a -> Q (f a)) -> quiet may Q (f <$> c).
Proof. intros Hc Hf. eapply quiet_bind; [done|]. cbn. auto. Qed.

Definition is_refusal {A} (r : res A) : Prop := exists e, r = Err e.

Lemma refusal_quiet_try {A B} (m : res A) (k : A -> tool (res B)) :
  (forall a, m = Ok a -> quiet may is_refusal (k a)) -> quiet may is_refusal (try m k).
Proof. intros Hk. apply quiet_try; [done|]. intros e _. by exists e. Qed.

Lemma dispatch_epoch_quiet ws : quiet may (fun _ => True) (dispatch_epoch recovery_on ws).
Proof.
  unfold dispatch_epoch. cbn. intros epoch. destruct epoch as [epoch|]; cbn; [|done].
  destruct recovery_on; [|done]. cbn. intros b. by destruct b.
Qed.

Lemma refuse_new_work_quiet ws : quiet may (fun _ => True) (refuse_new_work recovery_on ws).
Proof. eapply quiet_bind; [apply dispatch_epoch_quiet|done]. Qed.

Lemma maybe_hold_quiet ws tool_ fp snapshot :
  holds_mutations (ws_approvals ws) = true ->
  quiet may is_refusal (maybe_hold ws tool_ fp snapshot).
Proof.
  intros Hh. unfold maybe_hold. rewrite Hh. cbn. intros b. destruct b; cbn; by eexists.
Qed.

(** A request goes out only over a connection, under the epoch of that connection's Claim. *)
Lemma runner_call_quiet epoch op :
  (forall e, may (e, op)) -> quiet may (fun _ => True) (runner_call epoch op).
Proof. intros Hm. unfold runner_call. cbn. by intros [e|err]; cbn. Qed.

Lemma participation_quiet ws :
  (rs_participation (ws_resources ws) <> ParticipationOff -> forall e, may (e, RqRegistration)) ->
  quiet may (fun _ => True) (participation authority ws).
Proof.
  intros Hm. unfold participation. case_bool_decide as Hp; [done|]. cbn. intros [|]; [done|].
  eapply (quiet_bind _ (fun _ => True)); [|done]. unfold participation_readiness.
  destruct (registration_of authority) as [o|]; [|done].
  eapply (quiet_bind _ (fun _ => True)); [|done]. unfold owner_registration.
  eapply (quiet_bind _ (fun _ => True)); [done|]. intros [|] _; [|done].
  eapply quiet_bind; [|done]. by apply runner_call_quiet, Hm.
Qed.
End quietness.

(** ** Held mutations *)

Lemma read_only_refused ws action claims :
  ws_profile ws = ReadOnly -> action <> ActionRead -> is_refusal (allow ws action claims).
Proof. intros Hp Ha. unfold allow. destruct action; [done|..]; rewrite Hp; by eexists. Qed.

(** A mutation that [workspace_info] advertises as unavailable, as the profile denies it or the
    environment does not support it, or that the advertised approvals mode holds. *)
Definition held_back (id : string) (available : WorkspaceExecutionInfo -> bool) : Prop :=
  exists ws, workspace registry id = Ok ws /\
    let e := workspace_execution_info sandbox ws in
    holds_mutations (we_approvals e) = true \/ available e = false.

Definition held_call (t : ToolCall) : Prop :=
  match t with
  | TApplyPatch p => held_back (pa_workspace_id p) (fun e => fe_patch (we_files e))
  | TExecCommand p => held_back (pe_workspace_id p) (fun e => pe_available (we_process e))
  | _ => False
  end.

(** The checks of an unavailable operation's tool refuse it. *)
Lemma unavailable_refused {A} (m : res unit) (n : res unit) (available : bool)
    (k : tool (res A)) may :
  (available = true <-> m = Ok tt /\ n = Ok tt) -> available = false ->
  quiet may is_refusal (try m (fun _ => try n (fun _ => k))).
Proof.
  intros Ha ->. destruct m as [[]|err]; [|by eexists]. destruct n as [[]|err]; [|by eexists].
  cbn. destruct Ha as [_ Ha]. by specialize (Ha (conj eq_refl eq_refl)).
Qed.

(** The question whether the execution owner is registered, of a command in a workspace that
    requires participation. *)
Definition asks_registration (t : ToolCall) (q : RunnerRequest) : Prop :=
  match t with
  | TExecCommand p =>
      snd q = RqRegistration /\
      exists ws, workspace registry (pe_workspace_id p) = Ok ws /\
        rs_participation (ws_resources ws) <> ParticipationOff
  | _ => False
  end.

Definition refused_answer (t : ToolCall) (r : ToolAnswer) : Prop :=
  match t, r with
  | TApplyPatch _, AApplyPatch r => is_refusal r
  | TExecCommand _, AExecCommand r => is_refusal r
  | _, _ => False
  end.

Lemma held_calls_quiet t :
  held_call t -> quiet (asks_registration t) (refused_answer t) (serve t).
Proof.
  destruct t; cbn [held_call]; try done; intros (ws & Hws & Hheld); cbn zeta in Hheld;
    rewrite advertised_approvals in Hheld; cbn [Gateway.serve];
    (apply (quiet_fmap _ is_refusal); [|done]).
  - unfold apply_patch. rewrite Hws. cbn [try]. destruct Hheld as [Hh|Hr].
    + apply refusal_quiet_try. intros _ _. apply refusal_quiet_try. intros _ _.
      eapply quiet_bind; [apply refuse_new_work_quiet|]. intros refused _.
      apply refusal_quiet_try. intros _ _.
      eapply quiet_bind; [by apply maybe_hold_quiet|]. intros held [e ->]. by eexists.
    + by eapply unavailable_refused; [apply advertised_patch|].
  - unfold exec_command. rewrite Hws. cbn [try]. destruct Hheld as [Hh|Hr].
    + apply refusal_quiet_try. intros _ _. apply refusal_quiet_try. intros _ _.
      destruct (empty_argv _); [by eexists|].
      eapply quiet_bind; [apply refuse_new_work_quiet|]. intros refused _.
      apply refusal_quiet_try. intros _ _. eapply quiet_bind.
      { apply participation_quiet. intros Hp e. split; [done|]. eauto. }
      intros part _. apply refusal_quiet_try. intros _ _.
      eapply quiet_bind; [by apply maybe_hold_quiet|]. intros held [e ->]. by eexists.
    + by eapply unavailable_refused; [apply advertised_process|].
Qed.

(** C7: A mutation that [workspace_info] advertises as unavailable in its workspace, or that the
    approvals mode that it advertises holds for confirmation, reaches the Runner in no way: however
    the gateway's calls interleave, the call sends nothing - but, for a command in a workspace
    that requires participation, the question whether the execution owner is registered - and
    what it returns is an error. *)
Theorem held_mutations_send_nothing (s : CodeSpace) (p : gateway_pool) (Hr : reachable s p)
    (i : nat) (t : ToolCall) (Hcalled : Called i t ∈ pl_log p) (Hheld : held_call t) :
  (forall q, Sent i q ∈ pl_log p -> asks_registration t q) /\
  (forall r, returned p i = Some r -> refused_answer t r).
Proof.
  eapply quiet_calls_send_only; [exact held_calls_quiet|exact Hr|done..].
Qed.

(** ** Permitted requests *)

(** A workspace of the registry in which the policy allows mutations. *)
Definition writable (ws : Policy.Workspace) : Prop :=
  (exists id, workspace registry id = Ok ws) /\ ws_profile ws = WorkspaceWrite.

Definition governed (ws : Policy.Workspace) : Prop :=
  rs_participation (ws_resources ws) <> ParticipationOff.

(** A patch or a command is sent only for such a workspace; a command is executed only where the
    workspace takes no part in the resource authority, and prepared or launched only where it
    does and the gateway has an execution owner. *)
Definition permitted (q : RunnerRequest) : Prop :=
  match snd q with
  | RqApplyPatch ws _ => writable ws
  | RqExec ws req => writable ws /\ ~ governed ws
  | RqPrepare ws req _ | RqLaunch ws req _ =>
      writable ws /\ governed ws /\ is_Some (registration_of authority)
  | _ => True
  end.

Abbreviation permits c := (quiet permitted (fun _ => True) c).

Lemma permits_bind {A B} (c : tool A) (f : A -> tool B) :
  permits c -> (forall a, permits (f a)) -> permits (c ≫= f).
Proof. intros Hc Hf. by eapply quiet_bind. Qed.
Lemma permits_fmap {A B} (c : tool A) (f : A -> B) : permits c -> permits (f <$> c).
Proof. intros Hc. by eapply quiet_fmap. Qed.
Lemma permits_try {A B} (m : res A) (k : A -> tool (res B)) :
  (forall a, m = Ok a -> permits (k a)) -> permits (try m k).
Proof. intros Hk. by apply quiet_try. Qed.
Lemma permits_turn {B} (f : CodeSpace -> B * CodeSpace) : permits (turn f : tool B).
Proof. done. Qed.
Lemma permits_await {B} (f : CodeSpace -> option (B * CodeSpace)) : permits (await f : tool B).
Proof. done. Qed.

Create HintDb permits.

Ltac permits_step :=
  match goal with
  | |- forall _, _ => intros
  | |- _ => progress cbv beta zeta
  | |- quiet _ _ (Return _) => exact I
  | |- quiet _ _ (try _ _) => apply permits_try
  | |- quiet _ _ (_ <$> _) => apply permits_fmap
  | |- quiet _ _ (mbind _ _) => apply permits_bind
  | |- quiet _ _ (runner_call _ _) =>
      apply runner_call_quiet; intros ?; cbn; first [exact I | split_and?; assumption]
  | |- quiet _ _ (match ?x with _ => _ end) => destruct x
  | |- quiet _ _ _ => first [apply permits_turn | apply permits_await
                            |solve [auto with permits nocore]]
  end.
Ltac permits := repeat permits_step.

Lemma dispatch_epoch_permits ws : permits (dispatch_epoch recovery_on ws).
Proof. apply dispatch_epoch_quiet. Qed.
Lemma refuse_new_work_permits ws : permits (refuse_new_work recovery_on ws).
Proof. apply refuse_new_work_quiet. Qed.
Lemma participation_permits ws : permits (participation authority ws).
Proof. by apply participation_quiet. Qed.
Lemma wait_for_permits r o : permits (wait_for r o).
Proof. unfold wait_for. permits. Qed.
#[local] Hint Resolve dispatch_epoch_permits refuse_new_work_permits participation_permits
  wait_for_permits : permits.

Lemma acquire_write_permits ws : permits (acquire_write ws).
Proof. unfold acquire_write. permits. Qed.
Lemma acquire_reservation_permits ws id : permits (acquire_reservation ws id).
Proof. unfold acquire_reservation. permits. Qed.
Lemma give_back_permits resume : permits (give_back resume).
Proof. unfold give_back. permits. Qed.
Lemma with_hint_permits r ws work : permits (with_hint r ws work).
Proof. unfold with_hint, hint. permits. Qed.
Lemma process_hint_permits id : permits (process_hint id).
Proof. unfold process_hint, runner_workspace_of, hint. permits. Qed.
Lemma maybe_hold_permits ws tool_ fp snapshot : permits (maybe_hold ws tool_ fp snapshot).
Proof. unfold maybe_hold, create_hold. permits. Qed.
#[local] Hint Resolve acquire_write_permits acquire_reservation_permits give_back_permits
  with_hint_permits process_hint_permits maybe_hold_permits : permits.

(** What the policy checked of a workspace. *)
Lemma allowed_writable id ws action claims a :
  workspace registry id = Ok ws -> allow ws action claims = Ok a -> action <> ActionRead ->
  writable ws.
Proof.
  intros Hid Ha Hr. split; [by exists id|]. destruct (ws_profile ws) eqn:Hp; [|done].
  destruct (read_only_refused ws action claims Hp Hr) as [e He]. congruence.
Qed.

Lemma apply_patch_inner_permits p resume :
  permits (apply_patch_inner sha256_hex debug registry recovery_on p resume).
Proof.
  unfold apply_patch_inner. apply permits_try. intros ws Hws. apply permits_try. intros [] Ha.
  assert (Hw : writable ws) by by eapply allowed_writable.
  unfold apply_leased, apply_begun, begin_operation, finish_operation, runner_apply_patch,
    drop_lease, on_locks, on_ledger, on_approvals. permits.
Qed.

Lemma launch_governed_permits epoch ws req attempt_id :
  writable ws -> governed ws -> permits (launch_governed debug authority epoch ws req attempt_id).
Proof.
  intros Hw Hg. unfold launch_governed. destruct (registration_of authority) as [o|] eqn:Ho; [|done].
  assert (Hs : is_Some (registration_of authority)) by by rewrite Ho.
  permits.
Qed.
Lemma prepare_governed_permits epoch ws req attempt_id :
  writable ws -> governed ws -> permits (prepare_governed debug authority epoch ws req attempt_id).
Proof.
  intros Hw Hg. unfold prepare_governed. destruct (registration_of authority) as [o|] eqn:Ho; [|done].
  assert (Hs : is_Some (registration_of authority)) by by rewrite Ho.
  permits.
Qed.

(** What is known of a workspace once it is known how its executions take part. *)
Definition takes_part (ws : Policy.Workspace) (r : res Participating) : Prop :=
  match r with
  | Ok TakesNoPart => ~ governed ws
  | Ok IsManaged => governed ws
  | Err _ => True
  end.

Lemma participation_tells ws : quiet permitted (takes_part ws) (participation authority ws).
Proof.
  unfold participation. case_bool_decide as Hp; [by intros H; apply H|].
  eapply (quiet_bind _ (fun _ => True)); [done|]. intros [|] _; [done|].
  eapply (quiet_bind _ (fun _ => True)); [|done].
  unfold participation_readiness, owner_registration. permits.
Qed.

Lemma exec_dispatched_permits p ws epoch resume rv :
  writable ws -> ~ governed ws ->
  permits (exec_dispatched debug records_on timeout_env p ws epoch resume rv).
Proof.
  intros Hw Hg. unfold exec_dispatched, runner_exec, end_reservation, record_running, not_started,
    hint, on_locks, on_records. permits.
Qed.

Lemma exec_governed_permits p ws epoch resume rv attempt_id :
  writable ws -> governed ws ->
  permits (exec_governed debug records_on timeout_env authority p ws epoch resume rv attempt_id).
Proof.
  intros Hw Hg.
  pose proof (fun e req a => launch_governed_permits e ws req a Hw Hg) as Hl.
  pose proof (fun e req a => prepare_governed_permits e ws req a Hw Hg) as Hp.
  unfold exec_governed, refused_governed, record_launch, end_reservation, record_running,
    not_started, hint, on_locks, on_records. permits.
Qed.

Lemma exec_reserved_permits p ws part resume id :
  writable ws -> takes_part ws (Ok part) ->
  permits (exec_reserved sha256_hex debug records_on recovery_on timeout_env authority p ws part
             resume id).
Proof.
  intros Hw Hg. unfold exec_reserved. cbv zeta. apply permits_bind; [permits|].
  intros [epoch|err]; [|unfold end_reservation, on_locks; permits].
  assert (Hm : quiet permitted (fun id => is_Some id <-> part = IsManaged) (mint_attempt_id part)).
  { destruct part; cbn; [split; [by intros [? [=]]|done]|]. intros a. split; [done|]. by eexists. }
  eapply quiet_bind; [exact Hm|]. intros attempt Hat.
  apply permits_bind; [unfold record_dispatching, on_records, on_approvals; permits|].
  intros [[]|err]; [|unfold end_reservation, on_locks; permits].
  destruct attempt as [attempt|], part; cbn in Hg.
  - assert (TakesNoPart = IsManaged) as [=]. apply Hat. by eexists.
  - by apply exec_governed_permits.
  - by apply exec_dispatched_permits.
  - by destruct (proj2 Hat eq_refl) as [? [=]].
Qed.

Lemma exec_command_inner_permits p resume :
  permits (exec_command_inner sha256_hex debug registry records_on recovery_on timeout_env authority
             p resume).
Proof.
  unfold exec_command_inner. apply permits_try. intros ws Hws. apply permits_try. intros [] Ha.
  assert (Hw : writable ws) by by eapply allowed_writable.
  apply permits_try. intros [] _. destruct (empty_argv _); [done|].
  eapply quiet_bind; [apply participation_tells|]. intros part Hpart. apply permits_try.
  intros part' ->. unfold mint_process_id. permits. by apply exec_reserved_permits.
Qed.

#[local] Hint Resolve apply_patch_inner_permits exec_command_inner_permits : permits.

Lemma claim_approval_permits rounds id : permits (claim_approval rounds id).
Proof.
  induction rounds as [|rounds IH]; cbn [claim_approval]; unfold on_approvals; permits.
Qed.
Lemma commit_resume_permits id outcome : permits (commit_resume id outcome).
Proof. unfold commit_resume, finish_approval, on_approvals. permits. Qed.
Lemma execute_approved_permits record :
  permits (execute_approved sha256_hex debug registry records_on recovery_on timeout_env authority
             record).
Proof. unfold execute_approved. permits. Qed.
#[local] Hint Resolve claim_approval_permits commit_resume_permits execute_approved_permits : permits.
Lemma reconcile_resume_permits record :
  permits (reconcile_resume sha256_hex debug registry records_on recovery_on timeout_env authority
             record).
Proof.
  unfold reconcile_resume, lookup_patch_ledger, lookup_by_fingerprint, hint. permits.
Qed.
#[local] Hint Resolve reconcile_resume_permits : permits.

Lemma serve_permits t : permits (serve t).
Proof.
  destruct t; cbn [Gateway.serve]; apply permits_fmap;
    unfold workspace_info_tool, resource_authority_status, owner_registration, read_tool, find_tool,
      apply_patch, operation_status, exec_command, maybe_hold_patch, maybe_hold_exec, write_stdin, read_process, process_status, process_resize,
      terminate_process, work_open, steer_status_tool, steer_claim_next, steer_complete,
      work_finish, approval_create, create_hold, approval_resolve, operation_resume, inbox,
      stop_work, settle_resume, recorded_of, runner_read, runner_find, runner_write_stdin,
      runner_read_process, runner_process_status, runner_resize, runner_terminate,
      finish_approval, hint, on_records, on_approvals, on_coord; permits.
Qed.

(** C2: Whatever its clients call and however the calls interleave, resumed approvals included, a
    gateway sends a patch or a command to the Runner only for a workspace of its registry whose
    profile allows mutations. A command of a workspace that requires participation never goes
    out as a plain execution, whatever becomes of the authority: it is only ever prepared or
    launched under it, by a gateway that has an execution owner; and one of a workspace that
    takes no part is never prepared or launched under it. *)
Theorem only_permitted_requests_are_sent (s : CodeSpace) (p : gateway_pool) (Hr : reachable s p)
    (i : nat) (t : ToolCall) (Hcalled : Called i t ∈ pl_log p) (q : RunnerRequest)
    (Hsent : Sent i q ∈ pl_log p) :
  permitted q.
Proof.
  pose proof (quiet_calls_send_only serve (other_step sha256_hex) restarted (fun _ => True)
    (fun _ => permitted) (fun _ _ => True) s p i t (fun t _ => serve_permits t) Hr Hcalled I) as [Hq _].
  by apply Hq.
Qed.
End serving.

(** * A run *)

#[local] Existing Instances merge_sort_engine concrete_uuids concrete_json.

Definition held_patch : ApplyPatchParams := mkApplyPatchParams "h" "p" ∅ None false None.
Definition held_run : gateway_pool :=
  schedule (Gateway.serve id (fun _ => "") concrete_registry false false None
    (NotRegistering false) ManagedRunner false)
    (other_run id) concrete_start (MCall (TApplyPatch held_patch) :: replicate 20 (MTurn 0)).

Lemma held_mutations_send_nothing_witness :
  exists r, returned held_run 0 = Some (AApplyPatch (Err r)) /\ code r = ApprovalRequired /\
    (forall q, Sent 0 q ∈ pl_log held_run ->
       asks_registration concrete_registry (TApplyPatch held_patch) q) /\
    (forall r, returned held_run 0 = Some r -> refused_answer (TApplyPatch held_patch) r).
Proof.
  eexists. split; [vm_compute; reflexivity|]. split; [reflexivity|].
  apply (held_mutations_send_nothing id (fun _ => "") concrete_registry false false None
           (NotRegistering false) ManagedRunner false concrete_start held_run).
  - apply schedule_reachable. done.
  - apply list_elem_of_lookup. exists 0. vm_compute. reflexivity.
  - exists held_ws. split; [reflexivity|]. by left.
Defined.

(** A command of a workspace that requires participation is launched by the gateway's own
    Preparer. *)
Definition governed_command : ExecCommandParams := mkExecCommandParams "g" ["/bin/true"] None false.
Definition governing : GatewayAuthority :=
  Registering (GatewayOwner (Some (Launch.mkLauncher "/opt/devguard-launch" 10000))).
Definition governed_run : gateway_pool :=
  schedule (Gateway.serve id (fun _ => "") concrete_registry false false None governing
    ManagedRunner false)
    (other_run id) concrete_start (MCall (TExecCommand governed_command) :: replicate 20 (MTurn 0)).

Lemma only_permitted_requests_are_sent_witness :
  exists ws req attempt, Sent 0 (None, RqLaunch ws req attempt) ∈ pl_log governed_run /\
    permitted concrete_registry governing (None, RqLaunch ws req attempt).
Proof.
  assert (Hs : exists ws req attempt, Sent 0 (None, RqLaunch ws req attempt) ∈ pl_log governed_run).
  { do 3 eexists. apply list_elem_of_lookup. exists 1. vm_compute. reflexivity. }
  destruct Hs as (ws & req & attempt & Hs). exists ws, req, attempt. split; [exact Hs|].
  apply (only_permitted_requests_are_sent id (fun _ => "") concrete_registry false false None
           governing ManagedRunner false concrete_start governed_run) with (i := 0) (t := TExecCommand governed_command).
  - apply schedule_reachable. done.
  - apply list_elem_of_lookup. exists 0. vm_compute. reflexivity.
  - exact Hs.
Defined.

(** Two patches of one workspace: the second, which waits for the first one's lease, polls its
    ticket. *)
Definition two_patches : gateway_pool :=
  let patch := mkApplyPatchParams "w" "p" ∅ None false None in
  schedule (Gateway.serve id (fun _ => "") concrete_registry false false None
    (NotRegistering false) ManagedRunner false)
    (other_run id) concrete_start
    ([MCall (TApplyPatch patch); MCall (TApplyPatch patch)] ++ replicate 6 (MTurn 0)
       ++ replicate 6 (MTurn 1)).

Example second_patch_waits :
  awaiting two_patches 1 = None /\ returned two_patches 1 = None /\
  match pl_threads two_patches !! 1 with
  | Some (Running (Turn step _)) => is_none (step (pl_state two_patches))
  | _ => false
  end = true.
Proof. vm_compute. split_and!; reflexivity. Qed.

Lemma tools_end_witness :
  (forall t, within 33 (Gateway.serve id (fun _ => "") concrete_registry false false None
                          (NotRegistering false) ManagedRunner false t)) /\
  forall i c, pl_threads two_patches !! i = Some (Running c) -> goes_on (pl_state two_patches) c.
Proof.
  apply (tools_end id (fun _ => "") concrete_registry false false None (NotRegistering false)
           ManagedRunner false concrete_start two_patches).
  apply schedule_reachable. done.
Defined.
