(* ===== verification/Exclusion.v ===== *)
(** Mutations of a workspace exclude each other: the gateway's calls over the serializer of
    [Resource], in any pool. [lock_step] is what the serializer's calls are made of; [Hold] is
    what a call in flight has of the serializer, a ticket or a lock, and [held_ok] relates what
    all calls have to the serializer's state. *)
From S2P Require Import Prelude Domain Policy Resource Ledger Approvals Coord Processes Contract Output.
From S2P Require Import Supervisor Api Records Recovery Wire Client Threads Governed Gateway Concrete.

(** * Steps of the serializer *)

(** A process's reservation stays its own when the process is confirmed. *)
Definition same_holder (h h' : ExclusiveHolder) : Prop :=
  h' = h \/ exists p, h = Spawning p /\ h' = HeldProcess p.

Lemma same_holder_trans h1 h2 h3 : same_holder h1 h2 -> same_holder h2 h3 -> same_holder h1 h3.
Proof. unfold same_holder. naive_solver. Qed.

(** Locks are exclusive here, as the gateway asks for no other. *)
Definition only_exclusive (s : Serializer) : Prop :=
  shared s = ∅ /\ forall r w, w ∈ queue_of s r -> wt_mode w = Exclusive.

Definition handed (s : Serializer) (r : Resource) (w : Waiter) (q : list Waiter) : Serializer :=
  put_queue (Resource.send (grant s r Exclusive (wt_owner w)) (wt_tx w) (Ok tt)).2 r q.

Definition refused_queue (s : Serializer) (r : Resource) (q : list Waiter) (e : ErrorBody)
    : Serializer :=
  send_all (Err e) q (set_waiters s (delete r (waiters s))).

(** Holders keep what they hold, a free resource goes to its first waiter, and a queue is told an
    error. *)
Inductive lock_step : Serializer -> Serializer -> Prop :=
  | ls_set F s m :
      serializer_inv F s ->
      (forall r h, exclusive s !! r = Some h ->
         exists h', m !! r = Some h' /\ same_holder h h') ->
      lock_step s (set_exclusive s m)
  | ls_hand F s r w q :
      serializer_inv F s -> queue_of s r = w :: q -> exclusive s !! r = None ->
      lock_step s (handed s r w q)
  | ls_refuse F s r q e :
      serializer_inv F s -> waiters s !! r = Some q -> lock_step s (refused_queue s r q e).

Lemma handed_frame F s r w q :
  serializer_inv F s -> queue_of s r = w :: q ->
  let s' := handed s r w q in
  shared s' = shared s /\ next_channel s' = next_channel s /\
  exclusive s' = <[r := wt_owner w]> (exclusive s) /\
  channels s' = <[wt_tx w := ChanSent (Ok tt)]> (channels s) /\
  queue_of s' r = q /\ forall r', r' <> r -> queue_of s' r' = queue_of s r'.
Proof.
  intros Hinv Hq s'.
  assert (Ho : channels s !! wt_tx w = Some ChanOpen).
  { apply (si_open _ _ Hinv r). rewrite Hq. by left. }
  unfold s', handed, Resource.send. cbn. rewrite Ho. cbn. split_and!; try done.
  - by rewrite queue_of_put, decide_True.
  - intros r' Hr'. by rewrite queue_of_put, decide_False.
Qed.

Lemma refused_frame F s r q e :
  serializer_inv F s -> waiters s !! r = Some q ->
  let s' := refused_queue s r q e in
  shared s' = shared s /\ next_channel s' = next_channel s /\ exclusive s' = exclusive s /\
  queue_of s' r = [] /\ (forall r', r' <> r -> queue_of s' r' = queue_of s r') /\
  (forall w, w ∈ q -> channels s' !! wt_tx w = Some (ChanSent (Err e))) /\
  (forall c, c ∉ wt_tx <$> q -> channels s' !! c = channels s !! c).
Proof.
  intros Hinv Hq s'. unfold s', refused_queue.
  destruct (send_all_frame (Err e) q (set_waiters s (delete r (waiters s))))
    as (He & Hs & Hw & _ & Hn & Hc & _).
  assert (Hqq : queue_of s r = q) by (unfold queue_of; by rewrite Hq).
  split_and!; try done.
  - unfold queue_of. rewrite Hw. cbn. by rewrite lookup_delete_eq.
  - intros r' Hr'. unfold queue_of. rewrite Hw. cbn. by rewrite lookup_delete_ne.
  - intros w Hin. apply send_all_told; [|intros w' Hw'|done].
    + rewrite <- Hqq. apply (si_nodup _ _ Hinv).
    + cbn. apply (si_open _ _ Hinv r). by rewrite Hqq.
Qed.

Lemma lock_step_exclusive s s' :
  lock_step s s' -> only_exclusive s -> only_exclusive s'.
Proof.
  intros Hstep [Hs Hq]. destruct Hstep as [F s m Hinv Hm|F s r w q Hinv Hr He|F s r q e Hinv Hr].
  - by split.
  - destruct (handed_frame F s r w q Hinv Hr) as (H1 & _ & _ & _ & H5 & H6).
    split; [congruence|]. intros r' w' Hw'. destruct (decide (r' = r)) as [->|Hne].
    + apply (Hq r). rewrite Hr. right. by rewrite <- H5.
    + apply (Hq r'). by rewrite <- H6.
  - destruct (refused_frame F s r q e Hinv Hr) as (H1 & _ & _ & H4 & H5 & _ & _).
    split; [congruence|]. intros r' w' Hw'. destruct (decide (r' = r)) as [->|Hne].
    + rewrite H4 in Hw'. by apply elem_of_nil in Hw'.
    + apply (Hq r'). by rewrite <- H5.
Qed.

Lemma lock_steps_exclusive s s' :
  rtc lock_step s s' -> only_exclusive s -> only_exclusive s'.
Proof. induction 1; [done|]. intros H1. eauto using lock_step_exclusive. Qed.

(** ** The serializer's calls are such steps *)

Lemma wake_steps F s r :
  serializer_inv F s -> only_exclusive s -> rtc lock_step s (wake s r).
Proof.
  intros Hinv [Hs Hm]. pose proof (lo_nonempty _ _ _ _ (si_local _ _ Hinv r)) as Hn.
  destruct (queue_of s r) as [|w q] eqn:Hq.
  { rewrite wake_blocked; [done| |done]. unfold front_blocked. by rewrite Hq. }
  assert (Hw : wt_mode w = Exclusive) by (apply (Hm r); rewrite Hq; by left).
  destruct (can_grant s r Exclusive) eqn:Hg.
  - apply rtc_once. replace (wake s r) with (handed s r w q).
    + apply ls_hand with F; [done..|]. by apply can_grant_free in Hg as [].
    + unfold wake. rewrite Hq. cbn [wake_queue]. rewrite Hw, Hg. unfold handed.
      assert (Ho : channels s !! wt_tx w = Some ChanOpen).
      { apply (si_open _ _ Hinv r). rewrite Hq. by left. }
      unfold Resource.send. cbn. rewrite Ho. done.
  - rewrite wake_blocked; [done| |done]. unfold front_blocked. by rewrite Hq, Hw.
Qed.

Lemma wake_all_steps F s rs :
  serializer_inv F s -> only_exclusive s -> rtc lock_step s (wake_all s rs).
Proof.
  revert s. induction rs as [|r rs IH]; intros s Hinv Hex; [done|].
  pose proof (wake_steps F s r Hinv Hex) as Hw. etrans; [exact Hw|].
  apply IH; [by apply wake_keeps|]. by eapply lock_steps_exclusive.
Qed.

(** Releasing holders, then waking what they held. *)
Definition without (p : ExclusiveHolder -> bool) (s : Serializer) : gmap Resource ExclusiveHolder :=
  filter (fun kv => negb (p kv.2)) (exclusive s).

Lemma release_matching_steps p s :
  serializer_inv none_exempt s -> only_exclusive s ->
  rtc lock_step (set_exclusive s (without p s))
    (let (released, s') := release_matching p s in wake_all s' released).
Proof.
  intros Hinv Hex. pose proof (released_inv none_exempt p s Hinv) as Hr. by eapply wake_all_steps.
Qed.

Lemma release_write_steps ws s :
  serializer_inv none_exempt s -> only_exclusive s ->
  exclusive s !! Workspace ws = Some Request ->
  rtc lock_step (set_exclusive s (delete (Workspace ws) (exclusive s))) (release_write s ws).
Proof.
  intros Hinv Hex He. unfold release_write. rewrite He. eapply wake_steps; [|done].
  apply (unlock_silent_inv none_exempt s (Workspace ws) Exclusive Hinv).
Qed.

Lemma fail_waiters_step F s r e :
  serializer_inv F s -> rtc lock_step s (fail_waiters s r e).
Proof.
  intros Hinv. unfold fail_waiters. destruct (waiters s !! r) eqn:Hq; [|done].
  apply rtc_once. by apply ls_refuse with F.
Qed.

Lemma confirm_process_steps p s :
  serializer_inv none_exempt s -> rtc lock_step s (confirm_process s p).
Proof.
  intros Hinv. unfold confirm_process. rewrite fail_all_set_exclusive.
  assert (Hf : forall rs s, serializer_inv none_exempt s ->
    rtc lock_step s (foldl (fun s r => fail_waiters s r shell_busy) s rs)).
  { intros rs. induction rs as [|r rs IH]; intros s1 H1; [done|].
    etrans; [by eapply fail_waiters_step|]. apply IH, fail_waiters_inv, H1. }
  etrans; [by apply Hf|]. set (rs := holding _ s).
  destruct (fail_all_inv none_exempt s rs shell_busy Hinv) as (H1 & H2 & _).
  apply rtc_once, (ls_set none_exempt); [done|]. intros r h Hh.
  rewrite H2 in Hh. exists (confirm_holder p h). rewrite lookup_fmap, Hh. split; [done|].
  unfold confirm_holder, same_holder. case_bool_decide; [right; by exists p|by left].
Qed.

Lemma hold_process_steps ws p s :
  serializer_inv none_exempt s -> rtc lock_step s (hold_process s ws p).2.
Proof.
  intros Hinv. set (r := Workspace ws).
  assert (Hset : (forall h, exclusive s !! r = Some h -> h = Spawning p) ->
    rtc lock_step s
      (fail_waiters (grant s r Exclusive (HeldProcess p)) r shell_busy)).
  { intros Hh. unfold grant. rewrite fail_waiters_set_exclusive.
    destruct (fail_waiters_inv none_exempt s r shell_busy Hinv) as (H1 & _ & H3 & _).
    etrans; [by eapply fail_waiters_step|]. apply rtc_once, (ls_set none_exempt); [done|].
    intros r' h Hr'. rewrite H3 in Hr'. destruct (decide (r' = r)) as [->|Hne].
    - exists (HeldProcess p). rewrite lookup_insert_eq. split; [done|]. right. exists p.
      by rewrite (Hh h Hr').
    - exists h. rewrite lookup_insert_ne by done. split; [done|by left]. }
  unfold hold_process. fold r. destruct (exclusive s !! r) as [[|id|id]|] eqn:He; try done.
  - case_bool_decide; [|done]. apply Hset. congruence.
  - by case_bool_decide.
  - case_bool_decide; [done|]. by apply Hset.
Qed.

(** * What calls in flight have of the serializer *)

Section exclusion.
Context `{Sql : SqlEngine} `{Ids : Uuids} `{TJ : ToolJson}.
Context (sha256_hex : string -> string) (debug : RunnerOpResult -> string).
Context (registry : Registry) (records_on recovery_on : bool) (timeout_env : option string).
Context (authority : GatewayAuthority) (lifecycle : GatewayLifecycle) (sandbox : bool).

Abbreviation serve := (Gateway.serve sha256_hex debug registry records_on recovery_on timeout_env authority lifecycle
     sandbox).
Abbreviation reachable :=
  (gateway_reachable sha256_hex debug registry records_on recovery_on timeout_env authority lifecycle
     sandbox).

(** The [n]-th process ID that the gateway mints. *)
Definition proc_id (n : nat) : string := "proc-" +:+ uuid n.

Lemma proc_id_inj n m : proc_id n = proc_id m -> n = m.
Proof. intros H. apply (inj uuid). by apply (inj (String.append "proc-")). Qed.

(** The write lease has no owner of its own; a reservation is the process's that it is for. *)
Definition owner_of (o : option nat) : ExclusiveHolder :=
  match o with None => Request | Some n => Spawning (proc_id n) end.

Inductive Hold :=
  | HNone
  | HMinted (n : nat)
  | HWaits (ws : string) (o : option nat) (tx : nat)
  | HHolds (ws : string) (o : option nat).

Definition ticket_of (l : Hold) : option nat :=
  match l with HWaits _ _ tx => Some tx | _ => None end.
Definition index_of (l : Hold) : option nat :=
  match l with HMinted n | HWaits _ (Some n) _ | HHolds _ (Some n) => Some n | _ => None end.

(** After the [i]-th call came in, process [p] exited, or the Runner was lost with all of its
    processes. *)
Definition released (i : nat) (p : string) (log : list gateway_event) : Prop :=
  exists before t after, log = before ++ Called i t :: after /\
    (Happened (OExit p) ∈ after \/ Happened OReleaseAll ∈ after).

Definition excused (log : list gateway_event) (i : nat) (o : option nat) : Prop :=
  exists n, o = Some n /\ released i (proc_id n) log.

Definition told (s : Serializer) (tx : nat) : Prop := channels s !! tx = Some (ChanSent (Ok tt)).

(** The [i]-th call holds the workspace's lock, or held it until its process was gone. *)
Definition holds (s : Serializer) (log : list gateway_event) (i : nat) (ws : string)
    (o : option nat) : Prop :=
  (exists h, exclusive s !! Resource.Workspace ws = Some h /\ same_holder (owner_of o) h) \/
  excused log i o.

Definition hold_ok (s : Serializer) (log : list gateway_event) (i : nat) (l : Hold) : Prop :=
  match l with
  | HNone | HMinted _ => True
  | HWaits ws o tx =>
      (exists w, w ∈ queue_of s (Resource.Workspace ws) /\ wt_tx w = tx /\
         wt_owner w = owner_of o) \/
      (exists e, channels s !! tx = Some (ChanSent (Err e))) \/
      (told s tx /\ holds s log i ws o)
  | HHolds ws o => holds s log i ws o
  end.

(** What the call was granted and did not give back, whether it was told already or not. *)
Definition active (s : Serializer) (l : Hold) (ws : string) (o : option nat) : Prop :=
  match l with
  | HWaits ws' o' tx => ws' = ws /\ o' = o /\ told s tx
  | HHolds ws' o' => ws' = ws /\ o' = o
  | _ => False
  end.

Record held_core (s : Serializer) (minted : nat) (log : list gateway_event) (L : list Hold)
    : Prop := {
  ho_exclusive : only_exclusive s;
  ho_each i l : L !! i = Some l -> hold_ok s log i l;
  ho_once i j l l' ws : L !! i = Some l -> L !! j = Some l' ->
    active s l ws None -> active s l' ws None -> i = j;
  ho_ticket i j l l' tx : L !! i = Some l -> L !! j = Some l' ->
    ticket_of l = Some tx -> ticket_of l' = Some tx -> i = j;
  ho_index i j l l' n : L !! i = Some l -> L !! j = Some l' ->
    index_of l = Some n -> index_of l' = Some n -> i = j;
  ho_minted i l n : L !! i = Some l -> index_of l = Some n -> n < minted;
  ho_called i : i < length L -> exists t, Called i t ∈ log
}.

Definition held_ok (s : Serializer) (minted : nat) (log : list gateway_event) (L : list Hold)
    : Prop :=
  serializer_inv none_exempt s /\ held_core s minted log L.

Lemma released_app i p log e : released i p log -> released i p (log ++ [e]).
Proof.
  intros (b & t & a & -> & Ha). exists b, t, (a ++ [e]). rewrite <- app_assoc. split; [done|].
  rewrite !elem_of_app. tauto.
Qed.

Lemma holds_app s log e i ws o : holds s log i ws o -> holds s (log ++ [e]) i ws o.
Proof.
  intros [H|(n & ? & H)]; [by left|]. right. exists n. split; [done|]. by apply released_app.
Qed.

Lemma hold_ok_app s log e i l : hold_ok s log i l -> hold_ok s (log ++ [e]) i l.
Proof.
  destruct l; cbn; try done; [|apply holds_app].
  intros [?|[?|[??]]]; auto. right; right. split; [done|]. by apply holds_app.
Qed.

Lemma held_ok_app s minted log L e : held_ok s minted log L -> held_ok s minted (log ++ [e]) L.
Proof.
  intros [Hinv []]. split; [done|]. split; try done.
  - intros i l Hl. by apply hold_ok_app, ho_each0.
  - intros i Hi. destruct (ho_called0 i Hi) as [t Ht]. exists t. apply elem_of_app. by left.
Qed.

(** Who was granted a lock holds it. *)
Lemma active_holds F s minted log L i l ws o :
  serializer_inv F s -> held_core s minted log L -> L !! i = Some l -> active s l ws o ->
  holds s log i ws o.
Proof.
  intros Hinv H Hl Hp. pose proof (ho_each _ _ _ _ H i l Hl) as Hok.
  destruct l as [| |ws' o' tx|ws' o']; cbn in *; try done; [|by destruct Hp as [-> ->]].
  destruct Hp as (-> & -> & Ht). destruct Hok as [(w & Hw & Htx & _)|[[e He]|[_ Hok]]]; [..|done].
  - pose proof (si_open _ _ Hinv _ _ Hw) as Ho. unfold told in Ht. rewrite Htx, Ht in Ho. done.
  - unfold told in Ht. rewrite Ht in He. done.
Qed.

Lemma lease_holds s log i ws :
  holds s log i ws None -> exclusive s !! Resource.Workspace ws = Some Request.
Proof. by intros [(h & Hh & [-> |(p & [=] & _)])|(n & [=] & _)]. Qed.

(** A ticket's channel exists. *)
Lemma ticket_used F s minted log L i l tx :
  serializer_inv F s -> held_core s minted log L -> L !! i = Some l -> ticket_of l = Some tx -> tx < next_channel s.
Proof.
  intros Hinv H Hl Ht. pose proof (ho_each _ _ _ _ H i l Hl) as Hok. apply (si_fresh _ _ Hinv).
  destruct l; cbn in *; try done. simplify_eq.
  destruct Hok as [(w & Hw & <- & _)|[[e He]|[He _]]]; [|by eauto..].
  rewrite (si_open _ _ Hinv _ _ Hw). eauto.
Qed.

(** ** What the others do to it *)

(** What a step keeps of what one call has, when it keeps the channels that were answered. *)
Lemma hold_ok_mono s s' log i l :
  (forall ws o tx, l = HWaits ws o tx -> forall w, w ∈ queue_of s (Resource.Workspace ws) ->
     wt_tx w = tx -> wt_owner w = owner_of o -> hold_ok s' log i l) ->
  (forall c v, channels s !! c = Some (ChanSent v) -> channels s' !! c = Some (ChanSent v)) ->
  (forall ws o, active s l ws o -> holds s log i ws o -> holds s' log i ws o) ->
  hold_ok s log i l -> hold_ok s' log i l.
Proof.
  intros Hq Hc Hh. destruct l as [| |ws o tx|ws o]; try done; [|by apply Hh; split].
  intros [(w & Hw & Htx & Ho)|[[e He]|[Ht Hok]]]; [by eapply Hq|..].
  - right; left. exists e. by apply Hc.
  - right; right. split; [by apply Hc|by apply Hh].
Qed.

(** Holders change, and nobody loses what is still its own. *)
Lemma held_set F s minted log L m :
  serializer_inv F s ->
  (forall i l ws o h, L !! i = Some l -> active s l ws o ->
     exclusive s !! Resource.Workspace ws = Some h -> same_holder (owner_of o) h ->
     excused log i o \/ exists h', m !! Resource.Workspace ws = Some h' /\ same_holder h h') ->
  held_core s minted log L -> held_core (set_exclusive s m) minted log L.
Proof.
  intros Hinv Hm []. split; try done. intros i l Hl.
  apply (hold_ok_mono s); [|done| |by apply ho_each0].
  - intros ws o tx -> w Hw Htx Ho. left. by exists w.
  - intros ws o Ht [(h & Hh & Hs)|He]; [|by right].
    destruct (Hm i l ws o h Hl Ht Hh Hs) as [He|(h' & Hh' & Hs')]; [by right|].
    left. exists h'. split; [done|]. by eapply same_holder_trans.
Qed.

Lemma held_hand F s minted log L r w q :
  serializer_inv F s -> queue_of s r = w :: q -> exclusive s !! r = None ->
  held_core s minted log L -> held_core (handed s r w q) minted log L.
Proof.
  intros Hinv Hq He Hcore.
  destruct (handed_frame F s r w q Hinv Hq) as (_ & _ & H3 & H4 & H5 & H6).
  assert (Hw : w ∈ queue_of s r) by (rewrite Hq; by left).
  assert (Ho : channels s !! wt_tx w = Some ChanOpen) by (by apply (si_open _ _ Hinv r)).
  assert (Htold : forall l ws, active (handed s r w q) l ws None ->
    active s l ws None \/ ticket_of l = Some (wt_tx w)).
  { intros l ws. destruct l as [| |ws' o tx|ws' o]; cbn; auto. intros (-> & -> & Ht).
    unfold told in *. rewrite H4 in Ht. destruct (decide (tx = wt_tx w)) as [->|Hne]; [by right|].
    rewrite lookup_insert_ne in Ht by done. by left. }
  assert (Hhere : forall i l ws, L !! i = Some l -> active (handed s r w q) l ws None ->
    ticket_of l = Some (wt_tx w) -> r = Resource.Workspace ws).
  { intros i l ws Hl Hp Ht. pose proof (ho_each _ _ _ _ Hcore i l Hl) as Hok.
    destruct l as [| |ws' o tx|ws' o]; cbn in *; try done. destruct Hp as (-> & -> & _).
    injection Ht as ->. destruct Hok as [(w' & Hw' & Htx & _)|[[e He']|[Ht _]]].
    - by apply (si_apart _ _ Hinv r (Resource.Workspace ws) w w').
    - congruence.
    - unfold told in Ht. congruence. }
  pose proof (fun i l ws Hl Hp => lease_holds s log i ws
                (active_holds F s minted log L i l ws None Hinv Hcore Hl Hp)) as Hposs.
  destruct Hcore. split; try done.
  - eapply lock_step_exclusive; [by eapply ls_hand|done].
  - intros i l Hl. apply (hold_ok_mono s); [..|by apply ho_each0].
    + intros ws o tx -> w' Hw' Htx Hown. cbn.
      destruct (decide (Resource.Workspace ws = r)) as [<-|Hne].
      * rewrite Hq in Hw'. apply elem_of_cons in Hw' as [->|Hw'].
        -- right; right. unfold told. rewrite H4, Htx, lookup_insert_eq. split; [done|].
           left. exists (wt_owner w). rewrite H3, lookup_insert_eq. split; [done|].
           rewrite Hown. by left.
        -- left. exists w'. by rewrite H5.
      * left. exists w'. by rewrite H6.
    + intros c v Hc. rewrite H4, lookup_insert_ne; congruence.
    + intros ws o _ [(h & Hh & Hs)|?]; [|by right]. left. exists h. split; [|done].
      rewrite H3, lookup_insert_ne; congruence.
  - intros i j l l' ws Hl Hl' Hp Hp'.
    destruct (Htold _ _ Hp) as [Ha|Ha], (Htold _ _ Hp') as [Hb|Hb].
    + by eapply ho_once0.
    + specialize (Hhere _ _ _ Hl' Hp' Hb). specialize (Hposs _ _ _ Hl Ha). congruence.
    + specialize (Hhere _ _ _ Hl Hp Ha). specialize (Hposs _ _ _ Hl' Hb). congruence.
    + by eapply ho_ticket0.
Qed.

Lemma held_refuse F s minted log L r q e :
  serializer_inv F s -> waiters s !! r = Some q ->
  held_core s minted log L -> held_core (refused_queue s r q e) minted log L.
Proof.
  intros Hinv Hq Hcore.
  destruct (refused_frame F s r q e Hinv Hq) as (_ & _ & H3 & _ & H5 & H6 & H7).
  assert (Hqq : queue_of s r = q) by (unfold queue_of; by rewrite Hq).
  assert (Hopen : forall c v, channels s !! c = Some (ChanSent v) -> c ∉ wt_tx <$> q).
  { intros c v Hc (w & -> & Hw)%list_elem_of_fmap. rewrite <- Hqq in Hw.
    rewrite (si_open _ _ Hinv r w Hw) in Hc. done. }
  assert (Hkept : forall c v, channels s !! c = Some (ChanSent v) ->
    channels (refused_queue s r q e) !! c = Some (ChanSent v)).
  { intros c v Hc. rewrite H7; [done|]. by eapply Hopen. }
  assert (Htold : forall l ws, active (refused_queue s r q e) l ws None -> active s l ws None).
  { intros l ws. destruct l as [| |ws' o tx|ws' o]; cbn; auto. intros (-> & -> & Ht).
    split_and!; [done..|]. unfold told in *. destruct (decide (tx ∈ wt_tx <$> q)) as [Hin|Hin].
    - apply list_elem_of_fmap in Hin as (w & -> & Hw). by rewrite (H6 w Hw) in Ht.
    - by rewrite <- H7. }
  destruct Hcore. split; try done.
  - eapply lock_step_exclusive; [by eapply ls_refuse|done].
  - intros i l Hl. apply (hold_ok_mono s); [..|by apply ho_each0]; [|done|].
    + intros ws o tx -> w Hw Htx Hown. cbn.
      destruct (decide (Resource.Workspace ws = r)) as [<-|Hne].
      * right; left. exists e. rewrite <- Htx. apply H6. by rewrite <- Hqq.
      * left. exists w. by rewrite H5.
    + intros ws o _ [(h & Hh & Hs)|?]; [|by right]. left. exists h. by rewrite H3.
  - intros i j l l' ws Hl Hl' Hp%Htold Hp'%Htold. by eapply ho_once0.
Qed.

(** Any call of the serializer, as far as it is such steps. *)
Lemma held_steps s s' minted log L :
  rtc lock_step s s' -> held_core s minted log L -> held_core s' minted log L.
Proof.
  induction 1 as [|s s1 s' Hstep _ IH]; intros Hcore; [done|]. apply IH.
  destruct Hstep as [F s m Hinv Hm|F s r w q Hinv Hq He|F s r q e Hinv Hq];
    [|by eapply held_hand|by eapply held_refuse].
  apply (held_set F); [done| |done]. intros i l ws o h _ _ Hh _. right. by apply Hm.
Qed.

(** ** What a call does to its own *)

Lemma held_local s minted minted' log L i l l' :
  held_core s minted log L -> L !! i = Some l -> hold_ok s log i l' -> minted <= minted' ->
  (forall j lj ws, j <> i -> L !! j = Some lj -> active s l' ws None -> ~ active s lj ws None) ->
  (forall j lj tx, j <> i -> L !! j = Some lj -> ticket_of l' = Some tx -> ticket_of lj <> Some tx) ->
  (forall j lj n, j <> i -> L !! j = Some lj -> index_of l' = Some n -> index_of lj <> Some n) ->
  (forall n, index_of l' = Some n -> n < minted') ->
  held_core s minted' log (<[i := l']> L).
Proof.
  intros [] Hl Hok Hle Ha Ht Hn Hm. pose proof (lookup_lt_Some _ _ _ Hl) as Hi.
  assert (Hcase : forall j lj, <[i := l']> L !! j = Some lj ->
    j = i /\ lj = l' \/ j <> i /\ L !! j = Some lj).
  { intros j lj. destruct (decide (j = i)) as [->|Hne].
    - rewrite list_lookup_insert_eq by done. intros [= <-]. by left.
    - rewrite list_lookup_insert_ne by done. by right. }
  split; try done.
  - intros j lj [[-> ->]|[_ Hj]]%Hcase; [done|by apply ho_each0].
  - intros j k lj lk ws [[-> ->]|[Hne Hj]]%Hcase [[-> ->]|[Hne' Hk]]%Hcase Hp Hp'; try done.
    + by destruct (Ha k lk ws Hne' Hk Hp).
    + by destruct (Ha j lj ws Hne Hj Hp').
    + by eapply ho_once0.
  - intros j k lj lk tx [[-> ->]|[Hne Hj]]%Hcase [[-> ->]|[Hne' Hk]]%Hcase Hp Hp'; try done.
    + by destruct (Ht k lk tx Hne' Hk Hp).
    + by destruct (Ht j lj tx Hne Hj Hp').
    + by eapply ho_ticket0.
  - intros j k lj lk n [[-> ->]|[Hne Hj]]%Hcase [[-> ->]|[Hne' Hk]]%Hcase Hp Hp'; try done.
    + by destruct (Hn k lk n Hne' Hk Hp).
    + by destruct (Hn j lj n Hne Hj Hp').
    + by eapply ho_index0.
  - intros j lj n [[-> ->]|[_ Hj]]%Hcase Hp; [by apply Hm|].
    pose proof (ho_minted0 j lj n Hj Hp). lia.
  - rewrite length_insert. done.
Qed.

(** What [l'] has is part of what [l] has. *)
Definition part_of (s : Serializer) (l' l : Hold) : Prop :=
  (forall ws, active s l' ws None -> active s l ws None) /\
  (forall tx, ticket_of l' = Some tx -> ticket_of l = Some tx) /\
  (forall n, index_of l' = Some n -> index_of l = Some n).

Lemma held_part s minted log L i l l' :
  held_core s minted log L -> L !! i = Some l -> hold_ok s log i l' -> part_of s l' l ->
  held_core s minted log (<[i := l']> L).
Proof.
  intros Hc Hl Hok (Ha & Ht & Hn). eapply held_local; [done|done|done|done|..].
  - intros j lj ws Hne Hj Hp%Ha Hp'. apply Hne. by eapply (ho_once _ _ _ _ Hc j i).
  - intros j lj tx Hne Hj Hp%Ht Hp'. apply Hne. by eapply (ho_ticket _ _ _ _ Hc j i).
  - intros j lj n Hne Hj Hp%Hn Hp'. apply Hne. by eapply (ho_index _ _ _ _ Hc j i).
  - intros n Hp%Hn. by eapply (ho_minted _ _ _ _ Hc).
Qed.

Lemma held_none s minted log L i :
  held_core s minted log L -> held_core s minted log (<[i := HNone]> L).
Proof.
  intros Hc. destruct (L !! i) as [l|] eqn:Hl.
  - by eapply held_part.
  - by rewrite list_insert_ge by (by apply lookup_ge_None).
Qed.

Lemma held_mint s minted log L i :
  held_ok s minted log L -> L !! i = Some HNone ->
  held_ok s (S minted) log (<[i := HMinted minted]> L).
Proof.
  intros [Hinv Hc] Hl. split; [done|]. eapply held_local; try done; [lia| |].
  - intros j lj n Hne Hj [= <-] Hp. pose proof (ho_minted _ _ _ _ Hc j lj minted Hj Hp). lia.
  - intros n [= <-]. lia.
Qed.

(** What a call has before it acquires, for itself or for a process, and after. *)
Definition before_acquire (o : option nat) : Hold :=
  match o with None => HNone | Some n => HMinted n end.
Definition after_acquire (ws : string) (o : option nat) (outcome : AcquireOutcome) : Hold :=
  match outcome with
  | OGranted => HHolds ws o
  | OBusy _ => HNone
  | OWaiting _ tx => HWaits ws o tx
  end.

Lemma held_index s minted log L i o :
  held_core s minted log L -> L !! i = Some (before_acquire o) ->
  (forall j lj n, j <> i -> L !! j = Some lj -> o = Some n -> index_of lj <> Some n) /\
  forall n, o = Some n -> n < minted.
Proof.
  intros Hc Hl. split.
  - intros j lj n Hne Hj -> Hp. apply Hne. by eapply (ho_index _ _ _ _ Hc j i).
  - intros n ->. by eapply (ho_minted _ _ _ _ Hc).
Qed.

Lemma index_holds ws o n : index_of (HHolds ws o) = Some n -> o = Some n.
Proof. by destruct o. Qed.
Lemma index_waits ws o tx n : index_of (HWaits ws o tx) = Some n -> o = Some n.
Proof. by destruct o. Qed.

Lemma held_granted s minted log L i ws o :
  held_ok s minted log L -> L !! i = Some (before_acquire o) ->
  exclusive s !! Resource.Workspace ws = None ->
  held_core (grant s (Resource.Workspace ws) Exclusive (owner_of o)) minted log
    (<[i := HHolds ws o]> L).
Proof.
  intros [Hinv Hc] Hl Hfree. destruct (held_index s minted log L i o Hc Hl) as [Hi1 Hi2].
  assert (Hnone : forall j lj, L !! j = Some lj -> ~ active s lj ws None).
  { intros j lj Hj Hp. pose proof (active_holds _ _ _ _ _ _ _ _ _ Hinv Hc Hj Hp) as Hh.
    apply lease_holds in Hh. congruence. }
  eapply held_local.
  - apply (held_set none_exempt); [done| |done]. intros j lj ws' o' h Hj Ha Hh Hs. right. exists h.
    rewrite lookup_insert_ne by congruence. split; [done|by left].
  - done.
  - left. exists (owner_of o). cbn. rewrite lookup_insert_eq. split; [done|by left].
  - done.
  - intros j lj ws' Hne Hj [-> ->]. by apply (Hnone j).
  - done.
  - intros j lj n Hne Hj Ho%index_holds. by eapply Hi1.
  - intros n Ho%index_holds. by apply Hi2.
Qed.

Lemma held_enqueued s minted log L i ws o :
  held_ok s minted log L -> L !! i = Some (before_acquire o) ->
  held_core (enqueue s (Resource.Workspace ws) Exclusive (owner_of o)).2 minted log
    (<[i := HWaits ws o (next_channel s)]> L).
Proof.
  intros [Hinv Hc] Hl. destruct (held_index s minted log L i o Hc Hl) as [Hi1 Hi2].
  set (r := Resource.Workspace ws). set (s' := (enqueue s r Exclusive (owner_of o)).2).
  assert (Hq : forall r', queue_of s' r' = if decide (r' = r)
    then queue_of s r ++ [mkWaiter (next_waiter s) Exclusive (owner_of o) (next_channel s)]
    else queue_of s r') by (intros r'; apply queue_of_enqueue).
  assert (Hch : forall c, c <> next_channel s -> channels s' !! c = channels s !! c).
  { intros c Hne. cbn. by rewrite lookup_insert_ne. }
  assert (Hnew : channels s' !! next_channel s = Some ChanOpen) by (cbn; apply lookup_insert_eq).
  assert (Hused : forall c ch, channels s !! c = Some ch -> c <> next_channel s).
  { intros c ch Hcc ->. pose proof (si_fresh _ _ Hinv (next_channel s)) as Hf.
    rewrite Hcc in Hf. specialize (Hf ltac:(eauto)). lia. }
  assert (Hact : forall l ws' o', active s' l ws' o' -> active s l ws' o').
  { intros l ws' o'. destruct l as [| |ws2 o2 tx|ws2 o2]; cbn [active]; try done.
    intros (-> & -> & Ht). split_and!; try done. unfold told in *.
    rewrite <- Hch; [done|]. congruence. }
  assert (Hc' : held_core s' minted log L).
  { pose proof (ho_exclusive _ _ _ _ Hc) as [Hs Hm]. split; try apply Hc.
    - split; [done|]. intros r' w. rewrite Hq. case_decide; [|apply Hm].
      rewrite elem_of_app, list_elem_of_singleton. intros [Hw| ->]; [by eapply Hm|done].
    - intros j lj Hj. apply (hold_ok_mono s); [..|by apply (ho_each _ _ _ _ Hc)].
      + intros ws' o' tx -> w Hw Htx Ho. left. exists w. rewrite Hq. split_and!; [|done..].
        case_decide as Hr; [|done]. rewrite Hr in Hw. apply elem_of_app. by left.
      + intros c v Hcc. rewrite Hch; [done|]. by eapply Hused.
      + done.
    - intros j k lj lk ws' Hj Hk Hp%Hact Hp'%Hact. by eapply (ho_once _ _ _ _ Hc). }
  eapply held_local; [exact Hc'|done| |done|..].
  - left. eexists. rewrite Hq, decide_True by done. split; [apply elem_of_app; right; by left|done].
  - intros j lj ws' Hne Hj (_ & _ & Ht). unfold told in Ht. congruence.
  - intros j lj tx Hne Hj [= <-] Ht.
    pose proof (ticket_used _ _ _ _ _ _ _ _ Hinv Hc Hj Ht). lia.
  - intros j lj n Hne Hj Ho%index_waits. by eapply Hi1.
  - intros n Ho%index_waits. by apply Hi2.
Qed.

Lemma held_acquire s minted log L i ws o outcome s' :
  held_ok s minted log L -> L !! i = Some (before_acquire o) ->
  acquire s (Resource.Workspace ws) Exclusive (owner_of o) = (outcome, s') ->
  held_ok s' minted log (<[i := after_acquire ws o outcome]> L).
Proof.
  intros Hok Hl Hacq. pose proof Hok as [Hinv Hc]. split.
  { replace s' with (acquire s (Resource.Workspace ws) Exclusive (owner_of o)).2 by (by rewrite Hacq).
    apply acquire_inv; [done|]. by destruct o; cbn; eauto. }
  destruct outcome as [|e|id tx].
  - unfold acquire in Hacq. destruct (process_held s _); [done|].
    case_match eqn:Hg; [|repeat case_match; congruence]. simplify_eq.
    apply (held_granted s); [done..|].
    apply andb_prop in Hg as [Hg _]. apply andb_prop in Hg as [Hg _].
    by apply can_grant_free in Hg as [].
  - assert (s' = s) as ->.
    { unfold acquire in Hacq. repeat case_match; congruence. }
    by apply held_none.
  - destruct (acquire_waiting _ _ _ _ _ _ _ Hinv Hacq) as (-> & _ & ->).
    by apply held_enqueued.
Qed.

Lemma held_poll s minted log L i ws o tx r m id v s' :
  held_ok s minted log L -> L !! i = Some (HWaits ws o tx) ->
  ticket_poll s (mkWaitTicket r m id tx) = Some (v, s') ->
  held_ok s' minted log (<[i := match v with Ok _ => HHolds ws o | Err _ => HNone end]> L).
Proof.
  intros [Hinv Hc] Hl Hpoll. split; [by eapply ticket_poll_inv|].
  pose proof (ho_each _ _ _ _ Hc i _ Hl) as Hok. cbn in Hok.
  assert (Hv : channels s !! tx = Some (ChanSent v) /\
               s' = set_channels s (<[tx := ChanReceived]> (channels s))).
  { unfold ticket_poll in Hpoll. cbn in Hpoll.
    destruct Hok as [(w & Hw & <- & _)|[[e He]|[He _]]].
    - rewrite (si_open _ _ Hinv _ _ Hw) in Hpoll. done.
    - rewrite He in Hpoll. naive_solver.
    - unfold told in He. rewrite He in Hpoll. naive_solver. }
  destruct Hv as [Hv ->]. clear Hpoll.
  set (l' := match v with Ok _ => HHolds ws o | Err _ => HNone end).
  assert (Hp : held_core s minted log (<[i := l']> L)).
  { apply held_part with (HWaits ws o tx); [done..| |].
    - destruct v as [[]|e]; cbn; [|done].
      destruct Hok as [(w & Hw & <- & _)|[[e He]|[He Hh]]]; [..|done].
      + rewrite (si_open _ _ Hinv _ _ Hw) in Hv. done.
      + congruence.
    - unfold part_of. destruct v as [[]|e]; cbn; [|done]. split_and!; try done.
      intros ws' [-> ->]. done. }
  assert (Hnot : forall j lj, <[i := l']> L !! j = Some lj -> ticket_of lj <> Some tx).
  { intros j lj Hj Ht. destruct (decide (j = i)) as [->|Hne].
    - rewrite list_lookup_insert_eq in Hj by (by eapply lookup_lt_Some). simplify_eq.
      by destruct v as [[]|].
    - rewrite list_lookup_insert_ne in Hj by done. apply Hne.
      by eapply (ho_ticket _ _ _ _ Hc j i). }
  destruct Hp. split; try done.
  - intros j lj Hj. specialize (ho_each0 j lj Hj). specialize (Hnot j lj Hj).
    destruct lj as [| |ws' o' tx'|ws' o']; try done. cbn in *.
    assert (Hne : tx <> tx') by congruence. unfold told. cbn.
    destruct ho_each0 as [?|[[e He]|[Ht Hh]]]; [by left|..]; right; [left|right].
    + exists e. by rewrite lookup_insert_ne.
    + by rewrite lookup_insert_ne.
  - intros j k lj lk ws' Hj Hk Ha Hb. eapply (ho_once0 j k); [done..| |].
    + specialize (Hnot j lj Hj). destruct lj as [| |ws2 o2 tx2|ws2 o2]; try done. cbn in *.
      destruct Ha as (-> & -> & Ht). unfold told in *. cbn in Ht.
      rewrite lookup_insert_ne in Ht by congruence. done.
    + specialize (Hnot k lk Hk). destruct lk as [| |ws2 o2 tx2|ws2 o2]; try done. cbn in *.
      destruct Hb as (-> & -> & Ht). unfold told in *. cbn in Ht.
      rewrite lookup_insert_ne in Ht by congruence. done.
Qed.

(** *** Giving back *)

Lemma other_than i (L : list Hold) j lj :
  <[i := HNone]> L !! j = Some lj -> lj <> HNone -> j <> i /\ L !! j = Some lj.
Proof.
  intros Hj Hne. destruct (decide (j = i)) as [->|Hji].
  - destruct (decide (i < length L)) as [Hi|Hi].
    + rewrite list_lookup_insert_eq in Hj by done. congruence.
    + rewrite list_insert_ge in Hj by lia. apply lookup_lt_Some in Hj. lia.
  - by rewrite list_lookup_insert_ne in Hj.
Qed.

Lemma active_some s l ws o : active s l ws o -> l <> HNone.
Proof. by destruct l. Qed.

Lemma active_index s l ws n : active s l ws (Some n) -> index_of l = Some n.
Proof. destruct l; cbn; try done; naive_solver. Qed.

Lemma same_holder_request o h : same_holder (owner_of o) h -> h = Request -> o = None.
Proof. by destruct o; intros [->|(p & _ & ->)]. Qed.

Lemma same_holder_process o h p :
  same_holder (owner_of o) h -> held_by p h = true -> exists n, o = Some n /\ proc_id n = p.
Proof.
  destruct o as [n|]; intros [->|(q & Hq & ->)] Hp; cbn in *; try done;
    apply bool_decide_eq_true in Hp; [eauto|]. injection Hq as Hq. exists n. by rewrite Hq.
Qed.

Lemma same_holder_kind o h :
  same_holder (owner_of o) h -> is_process_holder h = true -> exists n, o = Some n.
Proof. destruct o as [n|]; intros [->|(q & Hq & ->)] Hp; cbn in *; try done; eauto. Qed.

Lemma held_lease_dropped s minted log L i ws :
  held_ok s minted log L -> L !! i = Some (HHolds ws None) ->
  held_ok (release_write s ws) minted log (<[i := HNone]> L).
Proof.
  intros [Hinv Hc] Hl. split; [by apply release_write_inv|].
  assert (He : exclusive s !! Resource.Workspace ws = Some Request).
  { eapply lease_holds. eapply (active_holds _ _ _ _ _ i); [done..|]. by split. }
  eapply held_steps; [by apply release_write_steps; [|apply Hc|]|].
  apply (held_set none_exempt); [done| |by apply held_none].
  intros j lj ws' o h Hj Ha Hh Hs. right. exists h. split; [|by left].
  destruct (decide (ws' = ws)) as [->|Hne]; [|by rewrite lookup_delete_ne by congruence].
  apply other_than in Hj as [Hji Hj]; [|by eapply active_some].
  assert (o = None) as -> by (eapply same_holder_request; [done|congruence]).
  destruct Hji. eapply (ho_once _ _ _ _ Hc j i); [done..|]. by split.
Qed.

Lemma held_released p s minted log L :
  held_ok s minted log L ->
  (forall j lj ws n, L !! j = Some lj -> active s lj ws (Some n) -> proc_id n = p ->
     released j p log) ->
  held_ok (release_process s p) minted log L.
Proof.
  intros [Hinv Hc] Hp. split; [by apply release_process_inv|].
  eapply held_steps; [apply release_matching_steps; [done|apply Hc]|].
  apply (held_set none_exempt); [done| |done]. intros j lj ws o h Hj Ha Hh Hs.
  destruct (held_by p h) eqn:Hb.
  - left. destruct (same_holder_process o h p Hs Hb) as (n & -> & Hn). exists n. split; [done|].
    rewrite Hn. by eapply Hp.
  - right. exists h. split; [|by left]. apply map_lookup_filter_Some. cbn. by rewrite Hb.
Qed.

Lemma held_reservation_dropped s minted log L i ws n :
  held_ok s minted log L -> L !! i = Some (HHolds ws (Some n)) ->
  held_ok (release_process s (proc_id n)) minted log (<[i := HNone]> L).
Proof.
  intros [Hinv Hc] Hl. apply held_released; [split; [done|by apply held_none]|].
  intros j lj ws' m Hj Ha Hm%proc_id_inj. subst m.
  apply other_than in Hj as [Hji Hj]; [|by eapply active_some].
  destruct Hji. by eapply (ho_index _ _ _ _ Hc j i); [..|eapply active_index|].
Qed.

Lemma held_confirmed s minted log L i p :
  held_ok s minted log L -> held_ok (confirm_process s p) minted log (<[i := HNone]> L).
Proof.
  intros [Hinv Hc]. split; [by apply confirm_process_inv|].
  eapply held_steps; [by apply confirm_process_steps|]. by apply held_none.
Qed.

(** *** What else frees and takes locks *)

Lemma called_before s minted log L i l :
  held_core s minted log L -> L !! i = Some l -> exists before t after,
    log = before ++ Called i t :: after.
Proof.
  intros Hc Hl. destruct (ho_called _ _ _ _ Hc i) as [t Ht]; [by eapply lookup_lt_Some|].
  apply list_elem_of_split in Ht as (b & a & ->). eauto.
Qed.

Lemma held_exited p s minted log L :
  held_ok s minted log L ->
  held_ok (release_process s p) minted (log ++ [Happened (OExit p)]) L.
Proof.
  intros Hok. apply held_released; [by apply held_ok_app|]. intros j lj ws n Hj _ _.
  destruct (called_before _ _ _ _ _ _ (proj2 Hok) Hj) as (b & t & a & ->).
  exists b, t, (a ++ [Happened (OExit p)]). rewrite <- app_assoc. split; [done|]. left.
  apply elem_of_app. right. by left.
Qed.

Lemma held_all_released s minted log L :
  held_ok s minted log L ->
  held_ok (release_all_processes s) minted (log ++ [Happened OReleaseAll]) L.
Proof.
  intros Hok. pose proof Hok as [Hinv Hc]. split; [by apply release_all_processes_inv|].
  eapply held_steps; [apply release_matching_steps; [done|apply Hc]|].
  apply (held_set none_exempt); [done| |by apply held_ok_app].
  intros j lj ws o h Hj Ha Hh Hs. destruct (is_process_holder h) eqn:Hb.
  - left. destruct (same_holder_kind o h Hs Hb) as [n ->]. exists n. split; [done|].
    destruct (called_before _ _ _ _ _ _ Hc Hj) as (b & t & a & ->).
    exists b, t, (a ++ [Happened OReleaseAll]). rewrite <- app_assoc. split; [done|]. right.
    apply elem_of_app. right. by left.
  - right. exists h. split; [|by left]. apply map_lookup_filter_Some. cbn. by rewrite Hb.
Qed.

Lemma held_restored ws p s minted log L :
  held_ok s minted log L -> held_ok (hold_process s ws p).2 minted log L.
Proof.
  intros [Hinv Hc]. split; [by apply hold_process_inv|].
  eapply held_steps; [by apply hold_process_steps|done].
Qed.

Lemma held_start minted log L :
  (forall i l, L !! i = Some l -> l = HNone) ->
  (forall i, i < length L -> exists t, Called i t ∈ log) ->
  held_ok serializer_default minted log L.
Proof.
  intros HL Hlog. split; [apply system_start_inv|]. split; try done.
  - split; [done|]. by intros r w ?%elem_of_nil.
  - by intros i l ->%HL.
  - by intros i j l l' ws ->%HL ->%HL.
  - by intros i j l l' ws ->%HL ->%HL.
  - by intros i j l l' ws ->%HL ->%HL.
  - by intros i l n ->%HL.
Qed.

Lemma held_called s minted log L t :
  held_ok s minted log L -> held_ok s minted (log ++ [Called (length L) t]) (L ++ [HNone]).
Proof.
  intros Hok%(fun H => held_ok_app _ _ _ _ (Called (length L) t) H). destruct Hok as [Hinv Hc].
  assert (Hcase : forall j lj, (L ++ [HNone]) !! j = Some lj ->
    L !! j = Some lj \/ j = length L /\ lj = HNone).
  { intros j lj [?|[Hge Hj]]%lookup_app_Some; [by left|].
    apply list_lookup_singleton_Some in Hj as [Hj <-]. right. split; [lia|done]. }
  destruct Hc. split; [done|]. split; try done.
  - intros i l [Hi|[-> ->]]%Hcase; [by apply ho_each0|done].
  - intros i j l l' ws [Hi|[-> ->]]%Hcase [Hj|[-> ->]]%Hcase; try done. by eapply ho_once0.
  - intros i j l l' tx [Hi|[-> ->]]%Hcase [Hj|[-> ->]]%Hcase; try done. by eapply ho_ticket0.
  - intros i j l l' n [Hi|[-> ->]]%Hcase [Hj|[-> ->]]%Hcase; try done. by eapply ho_index0.
  - intros i l n [Hi|[-> ->]]%Hcase; [by eapply ho_minted0|done].
  - intros i Hi. rewrite length_app in Hi. cbn in Hi. destruct (decide (i = length L)) as [->|Hne].
    + exists t. apply elem_of_app. right. by left.
    + apply ho_called0. lia.
Qed.

(** * The calls *)

Definition Inv (s : CodeSpace) (log : list gateway_event) (L : list Hold) : Prop :=
  held_ok (cs_locks s) (cs_minted s) log L.

(** A patch is sent by the holder of the workspace's lease, and a command by the holder of its
    process's reservation. *)
Definition awaits (q : RunnerRequest) (l : Hold) : Prop :=
  match snd q with
  | RqApplyPatch ws _ => l = HHolds (ws_id ws) None
  | RqExec ws req | RqLaunch ws req _ =>
      exists n, l = HHolds (ws_id ws) (Some n) /\ xr_process_id req = proc_id n
  | _ => True
  end.

Abbreviation keeps i := (upholds Inv awaits i).

Definition calm (s s' : CodeSpace) : Prop :=
  cs_locks s' = cs_locks s /\ cs_minted s <= cs_minted s'.

Abbreviation calmly l := (along (Answer := RunnerAnswer) calm (fun q => awaits q l)).

Lemma keeps_calmly {A} i (Q : A -> Hold -> Prop) (c : tool A) l :
  calmly l c -> (forall a, Q a l) -> keeps i Q c l.
Proof.
  intros Hc HQ. eapply upholds_along; [| |exact Hc|done].
  - intros s s' log L HI _ [Hl Hm]. unfold Inv. rewrite Hl. destruct HI as [Hinv []].
    split; [done|]. split; try done. intros j lj n Hj Hn. specialize (ho_minted0 j lj n Hj Hn). lia.
  - intros s log L q HI Hl Hq. exists l. rewrite list_insert_id by done.
    split_and!; [by apply held_ok_app|done|]. intros a s1 log1 L1 HI1 Hl1.
    rewrite list_insert_id by done. by apply held_ok_app.
Qed.

Lemma keeps_calmly_then {A B} i (Q : B -> Hold -> Prop) (c : tool A) (f : A -> tool B) l :
  calmly l c -> (forall a, keeps i Q (f a) l) -> keeps i Q (c ≫= f) l.
Proof. intros Hc Hf. apply upholds_bind. by apply keeps_calmly. Qed.

(** ** Calls that take and give back nothing *)

Create HintDb calm.

Lemma turn_calm {B} l (f : CodeSpace -> B * CodeSpace) :
  (forall s, calm s (f s).2) -> calmly l (turn f).
Proof. intros Hf. split; [|done]. intros s b s' [= Hs]. specialize (Hf s). by rewrite Hs in Hf. Qed.

Lemma calm_refl s : calm s s.
Proof. by split. Qed.

Lemma see_calm {B} l (f : CodeSpace -> B) : calmly l (see f).
Proof. apply turn_calm. intros s. apply calm_refl. Qed.
Lemma on_approvals_calm {B} l (f : ApprovalsDb -> B * ApprovalsDb) : calmly l (on_approvals f).
Proof. apply turn_calm. intros s. destruct (f _) as [b db]. by split. Qed.
Lemma on_ledger_calm {B} l (f : Z -> LedgerDb -> B * LedgerDb) : calmly l (on_ledger f).
Proof. apply turn_calm. intros s. destruct (f _ _) as [b db]. by split. Qed.
Lemma on_coord_calm {B} l (f : Z -> CoordDb -> B * CoordDb) : calmly l (on_coord f).
Proof. apply turn_calm. intros s. destruct (f _ _) as [b db]. by split. Qed.
Lemma on_records_calm {B} l (f : Z -> ProcessRecords -> B * ProcessRecords) :
  calmly l (on_records f).
Proof. apply turn_calm. intros s. destruct (f _ _) as [b db]. by split. Qed.
#[local] Hint Resolve see_calm on_approvals_calm on_ledger_calm on_coord_calm on_records_calm
  : calm.

Lemma admit_work_calm claimed ws epoch s :
  calm s (set_recovery s (admit_work claimed ws epoch (cs_recovery s)).1).
Proof.
  split; [|done]. unfold cs_locks, set_recovery. cbn. unfold admit_work.
  destruct epoch as [epoch|]; [|done]. cbn.
  destruct (already_claimed _ _); [done|]. destruct claimed as [claim|]; [|done].
  case_bool_decide; [|done]. unfold take_account. by repeat case_match.
Qed.

Lemma admit_step_calm l ws epoch :
  calmly l (step (fun s =>
    let (rv, r) := admit_work (backend_claimed (cs_runner s)) ws epoch (cs_recovery s) in
    (r, set_recovery s rv))).
Proof.
  apply turn_calm. intros s.
  pose proof (admit_work_calm (backend_claimed (cs_runner s)) ws epoch s) as Hc.
  by destruct (admit_work _ _ _ _) as [rv r].
Qed.
#[local] Hint Resolve admit_step_calm : calm.

Lemma send_calm l epoch op : awaits (epoch, op) l -> calmly l (send epoch op).
Proof. intros H. by split. Qed.

Ltac calm_step :=
  match goal with
  | |- forall _, _ => intros
  | |- _ => progress cbv beta zeta
  | |- along _ _ (Return _) => exact I
  | |- along _ _ (try _ _) => apply along_try
  | |- along _ _ (_ <$> _) => apply along_fmap
  | |- along _ _ (mbind _ _) => apply along_bind
  | |- along _ _ (match ?x with _ => _ end) => destruct x
  | |- along _ _ (send _ _) => apply send_calm; try exact I
  | |- along _ _ (step _) =>
      first [solve [auto with calm nocore]
            |apply turn_calm; intros ?; repeat case_match; (split; [done|cbn; lia])]
  | |- along _ _ _ => solve [auto with calm nocore]
  end.
Ltac calms := repeat calm_step.

Lemma runner_call_calm l epoch op : (forall e, awaits (e, op) l) -> calmly l (runner_call epoch op).
Proof. intros H. unfold runner_call. calms. apply H. Qed.
Lemma dispatch_epoch_calm l ws : calmly l (dispatch_epoch recovery_on ws).
Proof. unfold dispatch_epoch. calms. Qed.
Lemma hint_calm l ws work : calmly l (hint ws work).
Proof. unfold hint. calms. Qed.
Lemma give_back_calm l resume : calmly l (give_back resume).
Proof. unfold give_back. calms. Qed.
#[local] Hint Resolve dispatch_epoch_calm hint_calm give_back_calm : calm.
Lemma with_hint_calm l r ws work : calmly l (with_hint r ws work).
Proof. unfold with_hint. calms. Qed.
Lemma refuse_new_work_calm l ws : calmly l (refuse_new_work recovery_on ws).
Proof. unfold refuse_new_work. calms. Qed.
Lemma create_hold_calm l ws tool_ fp snapshot : calmly l (create_hold ws tool_ fp snapshot).
Proof. unfold create_hold. calms. Qed.
#[local] Hint Resolve with_hint_calm refuse_new_work_calm create_hold_calm : calm.
Lemma maybe_hold_calm l ws tool_ fp snapshot : calmly l (maybe_hold ws tool_ fp snapshot).
Proof. unfold maybe_hold. calms. Qed.
#[local] Hint Resolve maybe_hold_calm : calm.

(** ** Calls that take a lock and give it back *)

(** A part of a call that ends with what it began with: nothing. *)
Abbreviation returns i c := (keeps i (fun _ l => l = HNone) c HNone).

Lemma keeps_then {A B} i (Q : B -> Hold -> Prop) (c : tool A) (f : A -> tool B) :
  returns i c -> (forall a, keeps i Q (f a) HNone) -> keeps i Q (c ≫= f) HNone.
Proof.
  intros Hc Hf. apply upholds_bind. eapply upholds_mono; [|exact Hc]. cbn. intros a l ->. apply Hf.
Qed.

Lemma returns_calmly {A} i (c : tool A) : calmly HNone c -> returns i c.
Proof. intros Hc. by apply keeps_calmly. Qed.

Lemma on_locks_keeps {A B} i (Q : A -> Hold -> Prop) (f : Serializer -> B * Serializer)
    (k : B -> tool A) l (after : B -> Hold) :
  (forall s minted log L, held_ok s minted log L -> L !! i = Some l ->
     held_ok (f s).2 minted log (<[i := after (f s).1]> L)) ->
  (forall b, keeps i Q (k b) (after b)) ->
  keeps i Q (on_locks f ≫= k) l.
Proof.
  intros Hf Hk. apply upholds_turn. intros s log L HI Hl. exists (after (f (cs_locks s)).1).
  specialize (Hf _ _ _ _ HI Hl). destruct (f (cs_locks s)) as [b locks]. by split.
Qed.

Lemma acquire_keeps {A} i (Q : A -> Hold -> Prop) ws o (f : res unit -> tool A) :
  keeps i Q (f (Ok tt)) (HHolds ws o) -> (forall e, keeps i Q (f (Err e)) HNone) ->
  keeps i Q ((outcome ← on_locks (fun s => acquire s (Resource.Workspace ws) Exclusive (owner_of o));
              wait_for (Resource.Workspace ws) outcome) ≫= f) (before_acquire o).
Proof.
  intros Hok Herr. apply upholds_bind.
  apply (on_locks_keeps i _ _ _ (before_acquire o) (after_acquire ws o)).
  - intros s minted log L HI Hl. destruct (acquire s _ _ _) as [outcome s'] eqn:Ha.
    by eapply held_acquire.
  - intros [|e|id tx]; cbn; [done|by apply Herr|].
    intros s log L b s' HI Hl ([v locks] & Hp & [= -> ->])%fmap_Some.
    eexists. split; [by eapply held_poll|]. destruct v as [[]|e]; cbn; [done|apply Herr].
Qed.

Lemma acquire_write_keeps {A} i (Q : A -> Hold -> Prop) ws (f : res unit -> tool A) :
  keeps i Q (f (Ok tt)) (HHolds ws None) -> (forall e, keeps i Q (f (Err e)) HNone) ->
  keeps i Q (acquire_write ws ≫= f) HNone.
Proof. apply (acquire_keeps i Q ws None). Qed.

Lemma acquire_reservation_keeps {A} i (Q : A -> Hold -> Prop) ws n (f : res unit -> tool A) :
  keeps i Q (f (Ok tt)) (HHolds ws (Some n)) -> (forall e, keeps i Q (f (Err e)) HNone) ->
  keeps i Q (acquire_reservation ws (proc_id n) ≫= f) (HMinted n).
Proof. apply (acquire_keeps i Q ws (Some n)). Qed.

Lemma drop_lease_keeps {A} i (Q : A -> Hold -> Prop) ws (k : unit -> tool A) :
  keeps i Q (k tt) HNone -> keeps i Q (drop_lease ws ≫= k) (HHolds ws None).
Proof.
  intros Hk. apply (on_locks_keeps i _ _ _ _ (fun _ => HNone)); [|by intros []].
  intros s minted log L. apply held_lease_dropped.
Qed.

Lemma mint_keeps {A} i (Q : A -> Hold -> Prop) (k : string -> tool A) :
  (forall n, keeps i Q (k (proc_id n)) (HMinted n)) -> keeps i Q (mint_process_id ≫= k) HNone.
Proof.
  intros Hk. apply upholds_turn. intros s log L HI Hl. exists (HMinted (cs_minted s)).
  split; [|apply Hk]. by apply held_mint.
Qed.

(** Every end of a reservation gives it back or leaves it to its process. *)
Lemma end_reservation_keeps {A} i (Q : A -> Hold -> Prop) f ws n phase (k : unit -> tool A) :
  (f = reservation_confirm \/ f = reservation_abort \/ f = reservation_drop /\ phase = PreDispatch) ->
  keeps i Q (k tt) HNone ->
  keeps i Q (end_reservation f (mkProcessReservation (proc_id n) phase) ≫= k) (HHolds ws (Some n)).
Proof.
  intros Hf Hk. apply (on_locks_keeps i _ _ _ _ (fun _ => HNone)); [|by intros []].
  intros s minted log L HI Hl. destruct Hf as [->|[->|[-> ->]]]; cbn.
  - by apply held_confirmed.
  - by eapply held_reservation_dropped.
  - by eapply held_reservation_dropped.
Qed.

Context (Hids : forall id ws, workspace registry id = Ok ws -> ws_id ws = id).

Lemma apply_leased_calm p ws resume :
  ws_id ws = pa_workspace_id p ->
  calmly (HHolds (pa_workspace_id p) None) (apply_leased sha256_hex debug recovery_on p ws resume).
Proof.
  intros Hws. unfold apply_leased, begin_operation, apply_begun, runner_apply_patch, runner_call,
    finish_operation. calms. cbn. by rewrite Hws.
Qed.

Lemma apply_patch_inner_returns i p resume :
  returns i (apply_patch_inner sha256_hex debug registry recovery_on p resume).
Proof.
  unfold apply_patch_inner. apply upholds_try; [|done]. intros ws Hws.
  apply upholds_try; [intros _ _|done]. apply upholds_try; [intros _ _|done].
  apply acquire_write_keeps; [|done]. cbn [try].
  apply keeps_calmly_then; [by apply apply_leased_calm, Hids|]. intros r.
  by apply drop_lease_keeps.
Qed.

Lemma exec_dispatched_returns i p ws epoch resume n phase :
  ws_id ws = pe_workspace_id p ->
  keeps i (fun _ l => l = HNone)
    (exec_dispatched debug records_on timeout_env p ws epoch resume
       (mkProcessReservation (proc_id n) phase)) (HHolds (pe_workspace_id p) (Some n)).
Proof.
  intros Hws. unfold exec_dispatched. cbn zeta. apply keeps_calmly_then.
  - unfold runner_exec, runner_call. calms. exists n. split; [by rewrite Hws|done].
  - assert (Hrest : forall (A : Type) (c : tool A) f, calmly HNone c ->
      (f = reservation_confirm \/ f = reservation_abort \/ f = reservation_drop /\ phase = PreDispatch) ->
      keeps i (fun _ l => l = HNone)
        (end_reservation f (mkProcessReservation (proc_id n) phase) ≫= fun _ => c)
        (HHolds (pe_workspace_id p) (Some n))).
    { intros A c f Hc Hf. apply end_reservation_keeps; [done|]. by apply returns_calmly. }
    intros [result|[t|t|err]]; apply Hrest; auto; unfold record_running, not_started; calms.
Qed.

(** ** Governed executions *)

Lemma owner_registration_calm l o : calmly l (owner_registration o).
Proof. unfold owner_registration, runner_call. calms. Qed.
#[local] Hint Resolve owner_registration_calm : calm.
Lemma participation_calm l ws : calmly l (participation authority ws).
Proof. unfold participation, participation_readiness. calms. Qed.
Lemma prepare_governed_calm l epoch ws req attempt_id :
  calmly l (prepare_governed debug authority epoch ws req attempt_id).
Proof. unfold prepare_governed, runner_call. calms. Qed.
Lemma mint_attempt_id_calm l part : calmly l (mint_attempt_id part).
Proof. unfold mint_attempt_id. calms. Qed.
Lemma refused_governed_calm l resume refused : calmly l (refused_governed resume refused).
Proof. unfold refused_governed. calms. Qed.
Lemma record_launch_calm l launch : calmly l (record_launch records_on launch).
Proof. unfold record_launch, record_running. calms. Qed.
Lemma not_started_calm l id : calmly l (not_started records_on id).
Proof. unfold not_started. calms. Qed.
#[local] Hint Resolve participation_calm prepare_governed_calm mint_attempt_id_calm
  refused_governed_calm record_launch_calm not_started_calm : calm.

Lemma exec_governed_returns i p ws epoch resume n attempt_id :
  ws_id ws = pe_workspace_id p ->
  keeps i (fun _ l => l = HNone)
    (exec_governed debug records_on timeout_env authority p ws epoch resume
       (mkProcessReservation (proc_id n) PreDispatch) attempt_id)
    (HHolds (pe_workspace_id p) (Some n)).
Proof.
  intros Hws. unfold exec_governed. cbn zeta. apply keeps_calmly_then; [calms|].
  intros [|].
  - apply keeps_calmly_then.
    + unfold launch_governed, runner_call. calms. exists n. split; [by rewrite Hws|done].
    + intros [launch|refused]; apply end_reservation_keeps; auto; apply returns_calmly; calms.
  - apply keeps_calmly_then; [calms|]. intros refused. apply keeps_calmly_then; [calms|].
    intros []. apply end_reservation_keeps; auto. apply returns_calmly; calms.
Qed.

Lemma exec_reserved_returns i p ws part resume n :
  ws_id ws = pe_workspace_id p ->
  keeps i (fun _ l => l = HNone)
    (exec_reserved sha256_hex debug records_on recovery_on timeout_env authority p ws part resume
       (proc_id n))
    (HHolds (pe_workspace_id p) (Some n)).
Proof.
  intros Hws. unfold exec_reserved. cbn zeta.
  assert (Hdrop : forall A (c : tool A), calmly HNone c -> keeps i (fun _ l => l = HNone)
    (end_reservation reservation_drop (mkProcessReservation (proc_id n) PreDispatch) ≫= fun _ => c)
    (HHolds (pe_workspace_id p) (Some n))).
  { intros A c Hc. apply end_reservation_keeps; [auto|]. by apply returns_calmly. }
  apply keeps_calmly_then; [calms|]. intros [epoch|err]; [|by apply Hdrop].
  apply keeps_calmly_then; [calms|]. intros attempt_id.
  apply keeps_calmly_then; [unfold record_dispatching; calms|].
  intros [[]|err]; [|by apply Hdrop].
  destruct attempt_id as [attempt_id|]; [by apply exec_governed_returns|].
  by apply exec_dispatched_returns.
Qed.

Lemma exec_command_inner_returns i p resume :
  returns i
    (exec_command_inner sha256_hex debug registry records_on recovery_on timeout_env authority p resume).
Proof.
  unfold exec_command_inner. apply upholds_try; [|done]. intros ws Hws.
  apply upholds_try; [intros _ _|done]. apply upholds_try; [intros _ _|done].
  destruct (empty_argv _); [done|].
  apply keeps_calmly_then; [calms|]. intros part. apply upholds_try; [intros part' _|done].
  apply mint_keeps. intros n. apply acquire_reservation_keeps; [|done]. cbn [try].
  by apply exec_reserved_returns, Hids.
Qed.

(** ** Resumed approvals, and the tools *)

Lemma claim_approval_calm l rounds id : calmly l (claim_approval rounds id).
Proof. induction rounds as [|rounds IH]; cbn [claim_approval]; calms; try apply IH. by split. Qed.
Lemma finish_approval_calm l id r : calmly l (finish_approval id r).
Proof. unfold finish_approval. calms. Qed.
#[local] Hint Resolve claim_approval_calm finish_approval_calm : calm.
Lemma commit_resume_calm l id r : calmly l (commit_resume id r).
Proof. unfold commit_resume. calms. Qed.
Lemma lookup_patch_ledger_calm l record : calmly l (lookup_patch_ledger sha256_hex record).
Proof. unfold lookup_patch_ledger, lookup_by_fingerprint. calms. Qed.
Lemma settle_resume_calm l id started : calmly l (settle_resume id started).
Proof. unfold settle_resume. calms. Qed.
Lemma process_hint_calm l id : calmly l (process_hint id).
Proof. unfold process_hint, runner_workspace_of, runner_call. calms. Qed.
#[local] Hint Resolve commit_resume_calm lookup_patch_ledger_calm settle_resume_calm
  process_hint_calm : calm.

Lemma execute_approved_returns i record :
  returns i
    (execute_approved sha256_hex debug registry records_on recovery_on timeout_env authority record).
Proof.
  unfold execute_approved. destruct (ap_tool record).
  - apply upholds_try; [|done]. intros p _. apply keeps_then; [apply apply_patch_inner_returns|].
    intros r. by apply upholds_try.
  - apply upholds_try; [|done]. intros p _. apply keeps_then; [apply exec_command_inner_returns|].
    intros r. by apply upholds_try.
Qed.

Lemma execute_and_commit_returns i record :
  returns i (outcome ← execute_approved sha256_hex debug registry records_on recovery_on
                         timeout_env authority record;
             commit_resume (ap_approval_id record) outcome).
Proof.
  apply keeps_then; [apply execute_approved_returns|]. intros r. apply returns_calmly. calms.
Qed.

Lemma reconcile_resume_returns i record :
  returns i
    (reconcile_resume sha256_hex debug registry records_on recovery_on timeout_env authority record).
Proof.
  unfold reconcile_resume. destruct (ap_tool record); [|apply returns_calmly; calms].
  apply keeps_calmly_then; [calms|]. intros found. apply upholds_try; [|done].
  intros [stored|] _; [apply returns_calmly; calms|].
  destruct (params_scrubbed _); [apply returns_calmly; calms|apply execute_and_commit_returns].
Qed.

Lemma operation_resume_returns i id :
  returns i (operation_resume sha256_hex debug registry records_on recovery_on timeout_env authority id).
Proof.
  unfold operation_resume. apply keeps_calmly_then; [calms|]. intros epoch.
  apply upholds_try; [intros epoch' _|done].
  apply keeps_calmly_then; [calms|]. intros loaded. apply upholds_try; [intros row _|done].
  apply keeps_calmly_then; [calms|]. intros admitted. apply upholds_try; [intros _ _|done].
  apply keeps_calmly_then; [calms|]. intros claim. apply upholds_try; [intros claim' _|done].
  destruct claim' as [record|record|result|err]; try done;
    (apply keeps_then; [|intros r; apply returns_calmly; calms]).
  - apply execute_and_commit_returns.
  - apply reconcile_resume_returns.
Qed.

Lemma apply_patch_returns i p :
  returns i (apply_patch sha256_hex debug registry recovery_on p).
Proof.
  unfold apply_patch, maybe_hold_patch. apply upholds_try; [intros ws _|done].
  apply upholds_try; [intros _ _|done]. apply upholds_try; [intros _ _|done].
  apply keeps_calmly_then; [calms|]. intros refused. apply upholds_try; [intros _ _|done].
  apply keeps_calmly_then; [calms|]. intros held. apply upholds_try; [intros _ _|done].
  apply apply_patch_inner_returns.
Qed.

Lemma exec_command_returns i p :
  returns i (exec_command sha256_hex debug registry records_on recovery_on timeout_env authority p).
Proof.
  unfold exec_command, maybe_hold_exec. apply upholds_try; [intros ws _|done].
  apply upholds_try; [intros _ _|done]. apply upholds_try; [intros _ _|done].
  destruct (empty_argv _); [done|].
  apply keeps_calmly_then; [calms|]. intros refused. apply upholds_try; [intros _ _|done].
  apply keeps_calmly_then; [calms|]. intros part. apply upholds_try; [intros part' _|done].
  apply keeps_calmly_then; [calms|]. intros held. apply upholds_try; [intros _ _|done].
  apply exec_command_inner_returns.
Qed.

Lemma returns_fmap {A B} i (c : tool A) (f : A -> B) : returns i c -> returns i (f <$> c).
Proof. intros Hc. by apply keeps_then. Qed.

Lemma serve_returns i t : returns i (serve t).
Proof.
  destruct t; cbn [Gateway.serve]; apply returns_fmap;
    first [apply apply_patch_returns | apply exec_command_returns
          | apply operation_resume_returns | idtac];
    apply returns_calmly;
    unfold workspace_info_tool, resource_authority_status, read_tool, find_tool, operation_status, write_stdin, read_process, process_status,
      process_resize, terminate_process, work_open, steer_status_tool, steer_claim_next,
      steer_complete, work_finish, approval_create, approval_resolve, inbox, stop_work,
      recorded_of, runner_read, runner_find, runner_write_stdin, runner_read_process,
      runner_process_status, runner_resize, runner_terminate, runner_call; calms.
Qed.

Lemma other_keeps s log L o s' :
  Inv s log L -> other_step sha256_hex o s s' -> Inv s' (log ++ [Happened o]) L.
Proof.
  intros HI ->. destruct o; cbn [other_run];
    try (apply held_ok_app; exact HI).
  - destruct (cs_runner s); by apply held_ok_app.
  - by apply held_exited.
  - by apply held_all_released.
  - apply held_ok_app. unfold restore. destruct (match _ with Some _ => _ | None => _ end); [done|].
    pose proof (held_restored workspace_id process_id (cs_locks s) _ _ _ HI) as Hr.
    unfold cs_locks in Hr.
    by destruct (hold_process _ _ _) as [[|] locks].
  - destruct noted; by apply held_ok_app.
Qed.

Lemma exclusion_invariant start :
  cs_locks start = serializer_default ->
  invariant serve (other_step sha256_hex) restarted Inv (fun _ => HNone) (fun _ l => l = HNone)
    awaits HNone start.
Proof.
  intros Hstart. split.
  - unfold Inv. rewrite Hstart. apply held_start; [by intros i l ?|cbn; lia].
  - intros s log L t. apply held_called.
  - intros i t. apply serve_returns.
  - apply other_keeps.
  - intros s log L s' HI (runner & ref & ->). apply held_ok_app, held_start.
    + intros i l. rewrite list_lookup_fmap_Some. by intros (_ & -> & _).
    + rewrite length_fmap. apply (ho_called _ _ _ _ (proj2 HI)).
Qed.

(** The workspace that a request of the Runner may change. *)
Definition mutates (q : RunnerRequest) : option string :=
  match snd q with
  | RqApplyPatch ws _ | RqExec ws _ | RqLaunch ws _ _ => Some (ws_id ws)
  | _ => None
  end.

(** The command that the [i]-th call awaits was started, and is gone already. *)
Definition exited_already (log : list gateway_event) (i : nat) (q : RunnerRequest) : Prop :=
  match snd q with
  | RqExec _ req | RqLaunch _ req _ => released i (xr_process_id req) log
  | _ => False
  end.

Lemma awaits_holds log i l q ws :
  awaits q l -> mutates q = Some ws ->
  exists o, l = HHolds ws o /\ (excused log i o -> exited_already log i q).
Proof.
  destruct q as [epoch [] ]; cbn; try done.
  1: { intros -> [= <-]. exists None. split; [done|]. by intros (n & [=] & _). }
  all: intros (n & -> & Hid) [= <-]; exists (Some n); split; [done|]; rewrite Hid;
    by intros (m & [= <-] & Hrel).
Qed.

(** C1: In a workspace, mutations exclude each other: of two calls that both await the Runner's
    answer to a mutation there, a patch, a command or a launch, resumed approvals included, one is a command
    whose process has exited already, or was lost with the Runner, after the call came in. *)
Theorem mutations_exclude_each_other (start : CodeSpace)
    (Hstart : cs_locks start = serializer_default) (p : gateway_pool) (Hp : reachable start p)
    (i j : nat) (Hij : i <> j) (qi qj : RunnerRequest) (ws : string)
    (Hi : awaiting p i = Some qi) (Hj : awaiting p j = Some qj)
    (Hmi : mutates qi = Some ws) (Hmj : mutates qj = Some ws) :
  exited_already (pl_log p) i qi \/ exited_already (pl_log p) j qj.
Proof.
  destruct (pool_reachable_upholds serve _ _ Inv (fun _ => HNone) (fun _ l => l = HNone) awaits HNone
              start p (exclusion_invariant start Hstart) Hp) as (L & HI & Hlen & Hth).
  apply awaiting_thread in Hi as [ki Hi], Hj as [kj Hj].
  assert (Hl : forall i t, pl_threads p !! i = Some t -> exists l, L !! i = Some l).
  { intros n t Ht. apply lookup_lt_is_Some. rewrite Hlen. by eapply lookup_lt_Some. }
  destruct (Hl _ _ Hi) as [li Hli], (Hl _ _ Hj) as [lj Hlj].
  destruct (Hth _ _ _ Hi Hli) as [Hai _], (Hth _ _ _ Hj Hlj) as [Haj _].
  destruct (awaits_holds (pl_log p) i li qi ws Hai Hmi) as (oi & -> & Hei).
  destruct (awaits_holds (pl_log p) j lj qj ws Haj Hmj) as (oj & -> & Hej).
  destruct HI as [Hinv Hc].
  destruct (ho_each _ _ _ _ Hc i _ Hli) as [(hi & Hhi & Hsi)|He]; [|left; by apply Hei].
  destruct (ho_each _ _ _ _ Hc j _ Hlj) as [(hj & Hhj & Hsj)|He]; [|right; by apply Hej].
  exfalso. rewrite Hhi in Hhj. injection Hhj as <-. apply Hij.
  destruct oi as [n|], oj as [m|].
  - assert (n = m) as ->; [|by eapply (ho_index _ _ _ _ Hc)].
    apply proc_id_inj. unfold same_holder in *. cbn in *. naive_solver.
  - unfold same_holder in *. cbn in *. naive_solver.
  - unfold same_holder in *. cbn in *. naive_solver.
  - by eapply (ho_once _ _ _ _ Hc).
Qed.

End exclusion.

(** * A run

    A command's process exits before its call was answered, and a patch is sent meanwhile. *)

#[local] Existing Instances merge_sort_engine concrete_uuids concrete_json.

Definition overlap_command : ExecCommandParams := mkExecCommandParams "w" ["/bin/true"] None false.
Definition overlap_patch : ApplyPatchParams :=
  mkApplyPatchParams "w" "p" ∅ (Some "key") false None.
Definition overlap : gateway_pool :=
  schedule (Gateway.serve id (fun _ => "") concrete_registry false false None
    (NotRegistering false) ManagedRunner false)
    (other_run id) concrete_start
    (MCall (TExecCommand overlap_command) :: replicate 20 (MTurn 0) ++
     MOther (OExit (proc_id 0)) :: MCall (TApplyPatch overlap_patch) :: replicate 20 (MTurn 1)).

Lemma mutations_exclude_each_other_witness :
  exists qi qj, awaiting overlap 0 = Some qi /\ awaiting overlap 1 = Some qj /\
    (exited_already (pl_log overlap) 0 qi \/ exited_already (pl_log overlap) 1 qj).
Proof.
  eexists _, _. split; [vm_compute; reflexivity|]. split; [vm_compute; reflexivity|].
  eapply (mutations_exclude_each_other id (fun _ => "") concrete_registry false false None
            (NotRegistering false) ManagedRunner false concrete_ids concrete_start eq_refl overlap);
    [apply schedule_reachable; done|done|vm_compute; reflexivity|vm_compute; reflexivity|
     vm_compute; reflexivity|vm_compute; reflexivity].
Defined.
